(* ===== verification/_CoqProject ===== *)
-Q . S2P
Prelude.v
GoText.v
GoJson.v
GoFloat.v
Schema.v
Lifecycle.v
Outbox.v
GoBytes.v
GoTime.v
GoMarshal.v
GoDecoder.v
Canonical.v
Submit.v
JobsStore.v
Results.v
WorkersTypes.v
WorkersStore.v
WorkersOutcome.v
Publisher.v
Notification.v
Keys.v
Listing.v
Hosts.v
Api.v
Access.v
ControlHandlers.v
PublicHandlers.v
Dashboard.v
Routes.v
Config.v
Services.v
Adapters.v
Client.v
Handlers.v
Runner.v
Wiring.v
Cli.v
Migrate.v
Invariant.v
Transitions.v
Refinement.v
System.v
Scenario.v
History.v
Safety.v
Running.v
Fingerprints.v
JobsTheorems.v
WorkersTheorems.v
Outcomes.v
Recovery.v
Claims.v
OutboxTheorems.v
PublisherTheorems.v
JobsProgress.v
ServicesTheorems.v
CanonicalTheorems.v
JsonObjects.v
NormalizeTheorems.v
NotificationTheorems.v
ListingTheorems.v
Isolation.v
KeysTheorems.v
Boundary.v
ConfigTheorems.v
Boot.v
Contract.v
Scan.v
Tenancy.v
RunnerTheorems.v
Supervisor.v
HandlersTheorems.v
Authority.v
ApiScenario.v
Middleware.v
CliTheorems.v
WorkerScenario.v
Metrics.v
ReadDb.v
Bench.v
