(* ===== verification/Prelude.v ===== *)
(** * TaskForge, verified

    TaskForge is a distributed job queue in Go.  Clients submit jobs to an HTTP API;
    PostgreSQL holds the jobs, the attempts, the leases, the dead letters and an outbox of
    notifications; a publisher moves notifications to a queue; workers receive them, claim
    jobs, run handlers, renew leases and report outcomes to the API; a scheduler promotes
    jobs whose time has come and repairs lost notifications; a reconciler ends attempts
    whose lease or deadline has passed.  PostgreSQL is the only authority: every write of a
    worker is fenced by the rows of its session, attempt and lease.

    This development models that program as executable definitions and proves what keeps
    it correct, for single operations, for every history of operations of all processes,
    and from the worker's client through the HTTP routes to the tables.

    ** The program and the files that model it

    Go and its library, as far as the source uses them:
    - [GoText], [GoJson], [GoMarshal], [GoDecoder], [GoFloat], [GoTime], [GoBytes]: strings and runes, encoding/json (scanner,
      decoder with its options, encoder of strings and structs), float64 and int64 as they
      round and wrap, RFC 3339, SHA-256, RawURLEncoding.

    The database:
    - [Schema]: the tables with their constraints (migrations/), the
      statements, transactions, and the [World] a statement runs in.

    The packages, a file or two each:
    - internal/jobs: [Canonical] (canonical.go), [Submit] (submit.go),
      [JobsStore] (store.go, cancel.go, schedule.go, dlq.go), [Listing] (list.go);
    - internal/lifecycle: [Lifecycle];  internal/results: [Results];
    - internal/workers: [WorkersTypes] (types.go, validation.go), [WorkersStore] (store.go,
      heartbeat.go), [WorkersOutcome] (outcome.go, timeout.go, reconcile.go), and [Listing];
    - internal/outbox: [Outbox] (store.go, event.go), [Publisher] (publisher.go, backoff.go);
    - internal/auth, internal/workerauth: [Keys];
    - internal/api: [Api] (requests, answers, the server's state, errors), [Hosts]
      (hostallow, loopback, origin_guard.go), [Access] (auth.go, worker_auth.go),
      [ControlHandlers] (worker_control.go), [PublicHandlers] (server.go and the *_handlers.go),
      [Dashboard] (dashboard.go, internal/dashboard), [Routes] (routes.go, lifecycle.go and
      net/http's choice of a pattern), [Middleware] (middleware.go and ListenerHandler's chain);
    - internal/metrics: [Metrics];  internal/queue, internal/objectstore, internal/telemetry:
      [Adapters];
    - internal/worker: [Notification], [Client] (client.go), [Handlers] (handler.go),
      [Runner] (runner.go, renewal.go, cancellation.go), [Supervisor] (the goroutines of
      runner.go's Run and runSlot, statement by statement);
    - internal/config: [Config];  internal/scheduler, internal/reconciler: [Services];
    - internal/cli: [Cli];  internal/database: [Migrate];
    - cmd: [Wiring], what each main makes of its configuration, and internal/healthcheck;
      [Boot], the mains themselves: what they open, in which order, and how they exit;
    - scripts/scan: [Scan], the security gate;  scripts/readdb: [ReadDb], the measuring queries;
      scripts/internal/stack and scripts/bench: [Bench] (its Modules [Stack] and [Bench]).

    The proofs:
    - [Invariant], [Transitions], [Refinement], [System], [History]: the invariant across
      tables, the abstract transition matrix (with the precedence of a timeout over a lapsed
      lease), and that every operation, sweep and service pass implements it; [Safety] collects what follows for every reachable database;
    - [Running], [JobsTheorems], [WorkersTheorems], [Claims], [Outcomes], [Recovery],
      [OutboxTheorems], [JobsProgress], [ServicesTheorems]: what single operations do and
      that they succeed;
    - [Fingerprints], [CanonicalTheorems], [JsonObjects], [NormalizeTheorems],
      [NotificationTheorems], [ListingTheorems]: codes, round trips, validation, paging;
    - [PublisherTheorems]: delivery among several publishers and failures;
    - [KeysTheorems], [Boundary], [Isolation], [Tenancy], [Contract]: credentials, the
      routes, tenants, and the published contract (api/openapi.yaml);
    - [RunnerTheorems], [HandlersTheorems], [Authority]: what a worker does with a
      delivery, reports, and for how long it acts;
    - [ConfigTheorems]: what an accepted configuration promises the processes;
    - [CliTheorems]: what a script can tell from an exit code;
    - [Scenario], [ApiScenario], [WorkerScenario]: concrete runs, from which most theorems
      with hypotheses have their witnesses;
    - [Supervisor], [Boot], [Middleware], [Metrics], [Migrate], [Scan], [ReadDb] and [Bench]
      hold their theorems beside their definitions.

    ** What the theorems show

    - Of every reachable database: an attempt runs under at most one live lease, queues
      keep their capacity, attempts are numbered within their budget, a dead job has one
      dead letter, a queued job has been notified, outcomes are final, cancellation wins.
    - Of single operations: idempotent submission, exact claims, decisions made once and
      replayed, recovery of lapsed leases and due timeouts, bounded retry delays.
    - Of whole loops: the publisher marks published only what the broker took and its
      drain ends; a scheduler pass leaves none of its due jobs behind.
    - Of texts: canonical JSON is a normal form, the fingerprint determines a request, a
      notification survives its trip, validation reports exactly the bad fields, pages
      visit every row once.
    - Of access: authentication is exact, revocation final, the route table keeps its
      boundaries on every listener, one tenant's request never touches another's rows,
      answers keep to the contract.
    - Of a listener: the connection carries what the routes answer, panics included, and
      the access log, the metric, the span and the response agree on the request; the
      cumulative counters of a scrape never decrease, whatever the system did in between.
    - Of workers: a delivery is acknowledged only when it is safe, duplicates share one
      leader, a cancellation is never lost, a worker never acts beyond its lease, its
      failure reports are valid.  When [Run] returns no goroutine of it still beats, and once
      its context is cancelled it returns, in every interleaving.
    - Of configuration: what validates also starts, and a started worker is admitted.  Each
      process releases what it opened on every path, and exits 0 exactly when what it needs
      was there and its loop ended well.
    - Of the security gate: it passes only when every vulnerability and secret the selected
      scanners report has a current exception of the same tool, and none for a secret.
    - Of the command line: an exit code says what the API answered.
    - Of the benchmark: a target it calls met holds of the database it was measured on; its
      two readings of a kill agree; the rule of precedence its recovery probe checks on every
      attempt of a killed worker never fails; every process a run starts is configured as the
      run meant.
    - Of migrations: a run that was cut short is resumed without running a file twice.

    ** How the program is modelled

    Operations run in a state monad over [World], whose fields are sources the program
    reads: successive clock readings, uuids, jitter samples, and PostgreSQL's jsonb.  No
    order of readings and no freshness of ids is assumed unless a theorem says so.  A
    transaction is atomic: its row locks and its lock order give that, READ COMMITTED
    shows the latest rows, and SKIP LOCKED finds no locked row.  [now()] is the start of the
    transaction, timestamps are truncated to microseconds, make_interval is rounded to
    them.  Histories are arbitrary sequences of transactions of all processes, so they
    cover all interleavings; sweeps are sequences of such transactions.  A failure of the
    infrastructure is a transaction rolled back, or one that committed and whose answer is
    lost; each layer takes a list of them.

    What lies outside the sources is a parameter: the broker (which may answer wrongly
    unless a hypothesis calls it honest), the object store, uuid's texts, PostgreSQL's
    collation, net/url's Parse, the client's re-encoding of a payload, PostgreSQL's
    execution of a migration, the texts of encoding/json's errors, fmt's %q, trace
    extraction, the machine's conversion of a float out of range (there is no fused
    multiply-add), the AWS, OpenTelemetry and Prometheus libraries, sockets, the files embedded
    for the dashboard, the scanners and the decoding of their reports,
    the generator behind a schedule of kills.  Selects, contexts, tickers and the time handlers take are oracles, so
    that statements hold for every schedule.

    Bounds: the decoder of JSON has fuel twice the length and two, ParseDuration the
    length, both enough as each step consumes a byte; a drain's fuel is its passes, and
    its theorem shows enough of them end it.  Go maps are finite maps, or association lists
    where the source iterates.  Machine integers are Z with their wrap where the source
    can reach it ([wrap64]).

    Simplifications that keep the answers: an early return of a handler throws its answer;
    messages of errors and request ids are left out of answers; the path of a request is
    clean and split into decoded segments; the client decodes a response into the record
    the server built; configuration problems are constructors, not texts, and the order
    of the two routing names a worker checks is not specified; the contract is its
    operations, statuses, schemas' names and error codes.  ClaimDue's RETURNING has the
    order of its scan.  A failed sweep's partial counts, advisory locks, the logs, spans and
    metrics the stores and loops emit are left out, as is the foreign key of a session to
    its worker key.

    ** Not modelled

    Calls that only pass their arguments to a library (the broker's and the object store's
    Publish, Delete, Put and Ping, the pool, the propagation of trace contexts); the
    dashboard's TypeScript and the Python SDK.  Of the benchmark, what starts, signals and
    awaits processes, and the prose of its records: what a run observed is the input of its
    analyses.  The demos and the image and topology smoke tests under scripts, which drive a
    running deployment and compare its output. *)

From stdpp Require Export base gmap strings list fin_maps sorting.
From Stdlib Require Export ZArith NArith Lia.

(** ** Functional record update

    [r <| f := v |>] is [r] with the field [f] replaced, as the source's
    [UPDATE ... SET f = v] and Go's field assignments.  A record declares its
    eta expansion once ([Eta]); the setter of a field is found by matching that
    expansion against the projection. *)
Class Eta (R : Type) := eta : R → R.
Class Setter {R T : Type} (p : R → T) := set_field : T → R → R.
Arguments set_field {R T} p {_} _ _ /.

Ltac build_setter p :=
  lazymatch type of p with
  | ?R → ?T =>
    let e := constr:(ltac:(typeclasses eauto) : Eta R) in
    exact (fun (v : T) (r : R) =>
      ltac:(let b := eval hnf in (e r) in
            lazymatch eval pattern (p r) in b with
            | ?g (p r) => let t := eval cbv beta in (g v) in exact t
            end))
  end.
#[export] Hint Extern 0 (Setter ?p) => build_setter p : typeclass_instances.

Declare Scope record_scope.
Delimit Scope record_scope with record.
Notation "r <| p := v |>" := (set_field p v r)
  (at level 1, left associativity, p at level 0,
   format "r <| p  :=  v |>") : record_scope.
#[global] Open Scope record_scope.

(** ** Errors and the state-and-error monad

    An operation of the program takes a world [W], returns a value or an error
    of type [E], and leaves a world.  stdpp's [x ← c; k] is its bind. *)
Inductive result (E A : Type) : Type :=
| Ok (a : A)
| Err (e : E).
Arguments Ok {E A} a.
Arguments Err {E A} e.

Definition M (W E A : Type) : Type := W → result E A * W.

#[export] Instance M_ret {W E} : MRet (M W E) := λ A a w, (Ok a, w).
#[export] Instance M_bind {W E} : MBind (M W E) := λ A B f m w,
  match m w with
  | (Ok a, w') => f a w'
  | (Err e, w') => (Err e, w')
  end.

Definition throw {W E A} (e : E) : M W E A := λ w, (Err e, w).

Section monad_laws.
Context {W E : Type}.

Lemma ret_ok {A} (a b : A) (w w' : W) :
  (mret a : M W E A) w = (Ok b, w') ↔ a = b ∧ w = w'.
Proof. unfold mret, M_ret. naive_solver. Qed.

Lemma bind_ok {A B} (m : M W E A) (f : A → M W E B) w b w'' :
  (m ≫= f) w = (Ok b, w'') ↔ ∃ a w', m w = (Ok a, w') ∧ f a w' = (Ok b, w'').
Proof.
  unfold mbind, M_bind. destruct (m w) as [[a|e] w']; naive_solver.
Qed.

Lemma bind_err {A B} (m : M W E A) (f : A → M W E B) w e w'' :
  (m ≫= f) w = (Err e, w'') ↔
  m w = (Err e, w'') ∨ ∃ a w', m w = (Ok a, w') ∧ f a w' = (Err e, w'').
Proof.
  unfold mbind, M_bind. destruct (m w) as [[a|e'] w']; naive_solver.
Qed.

Lemma bind_run {A B} (m : M W E A) (f : A → M W E B) w a w' :
  m w = (Ok a, w') → (m ≫= f) w = f a w'.
Proof. unfold mbind, M_bind. by intros ->. Qed.

Lemma bind_run_err {A B} (m : M W E A) (f : A → M W E B) w e w' :
  m w = (Err e, w') → (m ≫= f) w = (Err e, w').
Proof. unfold mbind, M_bind. by intros ->. Qed.

Lemma throw_ok {A} (e : E) (w w' : W) (a : A) :
  throw e w = (Ok a, w') ↔ False.
Proof. unfold throw. naive_solver. Qed.
End monad_laws.

(** A boolean order as a decidable relation. *)
Definition ordby {A : Type} (le : A → A → bool) : relation A := λ x y, le x y = true.
#[export] Instance ordby_dec {A} (le : A → A → bool) x y : Decision (ordby le x y).
Proof. unfold ordby. apply _. Defined.

(** ** Queries over finite maps

    A table is a [gmap]; these are the row predicates, counts, unique-column
    lookups and orderings the SQL statements of the source use. *)
Section queries.
Context {K V : Type} `{Countable K}.

(** [EXISTS (SELECT 1 FROM m WHERE f)]. *)
Definition map_any (f : K → V → bool) (m : gmap K V) : bool :=
  existsb (λ kv, f kv.1 kv.2) (map_to_list m).

(** The rows of [m] that satisfy [f]. *)
Definition map_where (f : K → V → bool) (m : gmap K V) : list (K * V) :=
  List.filter (λ kv, f kv.1 kv.2) (map_to_list m).

(** [SELECT count( * ) FROM m WHERE f]. *)
Definition map_count (f : K → V → bool) (m : gmap K V) : nat :=
  length (map_where f m).

(** [SELECT ... FROM m WHERE f] read with [QueryRow]: the first row. *)
Definition map_find (f : K → V → bool) (m : gmap K V) : option (K * V) :=
  head (map_where f m).

(** [SELECT ... WHERE f ORDER BY le LIMIT n]. *)
Definition map_select (f : K → V → bool) (le : K * V → K * V → bool)
    (m : gmap K V) : list (K * V) :=
  merge_sort (ordby le) (map_where f m).

Lemma map_where_spec f m k v :
  (k, v) ∈ map_where f m ↔ m !! k = Some v ∧ f k v = true.
Proof.
  unfold map_where. rewrite list_elem_of_In, filter_In, <-list_elem_of_In.
  by rewrite elem_of_map_to_list.
Qed.

Lemma map_any_true f m :
  map_any f m = true ↔ ∃ k v, m !! k = Some v ∧ f k v = true.
Proof.
  unfold map_any. rewrite existsb_exists. split.
  - intros ([k v] & Hin & Hf). exists k, v.
    apply list_elem_of_In, elem_of_map_to_list in Hin. done.
  - intros (k & v & Hm & Hf). exists (k, v).
    split; [|done]. by apply list_elem_of_In, elem_of_map_to_list.
Qed.

Lemma map_any_false f m :
  map_any f m = false ↔ ∀ k v, m !! k = Some v → f k v = false.
Proof.
  split.
  - intros Hany k v Hm. destruct (f k v) eqn:Hf; [|done].
    assert (map_any f m = true) by (apply map_any_true; eauto). congruence.
  - intros Hall. destruct (map_any f m) eqn:Hany; [|done].
    apply map_any_true in Hany as (k & v & Hm & Hf).
    rewrite (Hall k v Hm) in Hf. done.
Qed.

Lemma map_find_Some f m k v :
  map_find f m = Some (k, v) → m !! k = Some v ∧ f k v = true.
Proof.
  unfold map_find. intros Hh. apply map_where_spec.
  destruct (map_where f m) as [|x l]; simplify_eq/=. constructor.
Qed.

Lemma map_find_None f m :
  map_find f m = None → ∀ k v, m !! k = Some v → f k v = false.
Proof.
  unfold map_find. intros Hh k v Hm. destruct (f k v) eqn:Hf; [|done].
  assert ((k, v) ∈ map_where f m) as Hin by (by apply map_where_spec).
  destruct (map_where f m); [by apply not_elem_of_nil in Hin | done].
Qed.

(** The first row in order is a matching row no other matching row precedes. *)
Lemma map_select_elem f le m k v :
  (k, v) ∈ map_select f le m ↔ m !! k = Some v ∧ f k v = true.
Proof.
  unfold map_select. rewrite merge_sort_Permutation. apply map_where_spec.
Qed.

Lemma map_select_nil f le m :
  map_select f le m = [] ↔ ∀ k v, m !! k = Some v → f k v = false.
Proof.
  split.
  - intros Hnil k v Hm. destruct (f k v) eqn:Hf; [|done].
    assert ((k, v) ∈ map_select f le m) as Hin by (by apply map_select_elem).
    rewrite Hnil in Hin. by apply not_elem_of_nil in Hin.
  - intros Hall. destruct (map_select f le m) as [|[k v] l] eqn:Hs; [done|].
    assert ((k, v) ∈ map_select f le m) as Hin by (rewrite Hs; constructor).
    apply map_select_elem in Hin as [Hm Hf]. rewrite (Hall _ _ Hm) in Hf. done.
Qed.

Lemma filter_keys_sublist (f : K * V → bool) (l : list (K * V)) :
  (List.filter f l).*1 `sublist_of` l.*1.
Proof.
  induction l as [|x l IH]; simpl; [constructor|].
  destruct (f x); simpl; [by apply sublist_skip|by apply sublist_cons].
Qed.

(** A selection has each row once. *)
Lemma map_select_NoDup f le m : NoDup (map_select f le m).*1.
Proof.
  unfold map_select. rewrite merge_sort_Permutation. unfold map_where.
  eapply sublist_NoDup; [apply (NoDup_fst_map_to_list m)|apply filter_keys_sublist].
Qed.

Lemma map_select_sorted f le m :
  Transitive (ordby le) → Total (ordby le) →
  StronglySorted (ordby le) (map_select f le m).
Proof. intros. unfold map_select. by apply StronglySorted_merge_sort. Qed.

Lemma map_select_head f le m kv l k v :
  Transitive (ordby le) → Total (ordby le) →
  map_select f le m = kv :: l →
  m !! k = Some v → f k v = true → le kv (k, v) = true.
Proof.
  intros Htr Htot Hs Hm Hf.
  pose proof (map_select_sorted f le m Htr Htot) as Hsort. rewrite Hs in Hsort.
  apply StronglySorted_inv in Hsort as [_ Hall].
  assert ((k, v) ∈ map_select f le m) as Hin by (by apply map_select_elem).
  rewrite Hs in Hin. apply elem_of_cons in Hin as [->|Hin].
  - destruct (Htot kv kv); done.
  - rewrite Forall_forall in Hall. by apply Hall.
Qed.
End queries.

(** ** Counting rows under point updates *)
Section counting.
Context {K V : Type} `{Countable K}.

Definition b2n (b : bool) : nat := if b then 1 else 0.

Lemma map_where_Permutation (f : K → V → bool) m l :
  map_to_list m ≡ₚ l → map_count f m = length (List.filter (λ kv, f kv.1 kv.2) l).
Proof.
  unfold map_count, map_where. intros Hp. induction Hp; simpl.
  - done.
  - destruct (f x.1 x.2); simpl; lia.
  - destruct (f x.1 x.2), (f y.1 y.2); simpl; lia.
  - lia.
Qed.

Lemma map_count_insert_new (f : K → V → bool) m k v :
  m !! k = None → map_count f (<[k:=v]> m) = b2n (f k v) + map_count f m.
Proof.
  intros Hm. rewrite (map_where_Permutation f _ ((k, v) :: map_to_list m)).
  - simpl. unfold map_count, map_where. by destruct (f k v).
  - by apply map_to_list_insert.
Qed.

Lemma map_count_insert (f : K → V → bool) m k v v0 :
  m !! k = Some v0 →
  map_count f (<[k:=v]> m) + b2n (f k v0) = b2n (f k v) + map_count f m.
Proof.
  intros Hm.
  rewrite <-(insert_delete_id m k v0 Hm) at 2. rewrite <-insert_delete_eq.
  rewrite !map_count_insert_new by (by rewrite lookup_delete_eq). lia.
Qed.

Lemma map_count_pos (f : K → V → bool) m k v :
  m !! k = Some v → f k v = true → map_count f m ≥ 1.
Proof.
  intros Hm Hf. assert ((k, v) ∈ map_where f m) as Hin by (by apply map_where_spec).
  unfold map_count. destruct (map_where f m); simpl; [|lia].
  by apply not_elem_of_nil in Hin.
Qed.

Lemma map_count_ext (f g : K → V → bool) m :
  (∀ k v, m !! k = Some v → f k v = g k v) → map_count f m = map_count g m.
Proof.
  intros Heq. unfold map_count, map_where.
  assert (∀ l, (∀ kv, kv ∈ l → f kv.1 kv.2 = g kv.1 kv.2) →
    List.filter (λ kv, f kv.1 kv.2) l = List.filter (λ kv, g kv.1 kv.2) l) as Hl.
  { induction l as [|x l IH]; intros Hin; [done|]. simpl.
    rewrite (Hin x) by constructor. rewrite IH; [done|].
    intros kv Hkv. apply Hin. by constructor. }
  f_equal. apply Hl. intros [k v] Hin%elem_of_map_to_list. by apply Heq.
Qed.
End counting.

(** ** Automation

    [run_inv] turns the equation of a successful run into the equations of its
    steps: binds become existentials, branches are split, failed branches are
    discarded. *)
Ltac run_inv1 :=
  match goal with
  | H : ∃ _, _ |- _ => destruct H
  | H : _ ∧ _ |- _ => destruct H
  | H : (_ ≫= _) _ = (Ok _, _) |- _ => apply bind_ok in H
  | H : mret _ _ = (Ok _, _) |- _ => apply ret_ok in H
  | H : throw _ _ = (Ok _, _) |- _ => apply throw_ok in H; destruct H
  | H : (let _ := _ in _) _ = (Ok _, _) |- _ => cbv zeta in H
  | H : (if ?b then _ else _) _ = (Ok _, _) |- _ => let E := fresh "Hb" in destruct b eqn:E
  | H : (match ?x with _ => _ end) _ = (Ok _, _) |- _ => let E := fresh "Hm" in destruct x eqn:E
  | H : (_, _) = (_, _) |- _ => apply pair_equal_spec in H
  | H : Ok _ = Ok _ |- _ => injection H as H
  | H : Some _ = Some _ |- _ => injection H as H
  | H : Ok _ = Err _ |- _ => discriminate H
  | H : Err _ = Ok _ |- _ => discriminate H
  | H : ?x = ?y |- _ => first [is_var x | is_var y]; subst
  end.
Ltac run_inv := repeat run_inv1.

(** Boolean tests to propositions. *)
Ltac bools :=
  repeat match goal with
  | H : _ && _ = true |- _ => apply andb_true_iff in H as [? ?]
  | H : _ || _ = false |- _ => apply orb_false_iff in H as [? ?]
  | H : negb _ = true |- _ => apply negb_true_iff in H
  | H : negb _ = false |- _ => apply negb_false_iff in H
  | H : bool_decide _ = true |- _ => apply bool_decide_eq_true_1 in H
  | H : bool_decide _ = false |- _ => apply bool_decide_eq_false_1 in H
  | H : (_ =? _)%Z = true |- _ => apply Z.eqb_eq in H
  | H : (_ =? _)%Z = false |- _ => apply Z.eqb_neq in H
  | H : (_ <? _)%Z = true |- _ => apply Z.ltb_lt in H
  | H : (_ <? _)%Z = false |- _ => apply Z.ltb_ge in H
  | H : (_ <=? _)%Z = true |- _ => apply Z.leb_le in H
  | H : (_ <=? _)%Z = false |- _ => apply Z.leb_gt in H
  end.

Create HintDb taskforge.
#[export] Hint Resolve map_where_spec map_any_true map_any_false : taskforge.
