(* ===== verification/GoText.v ===== *)
(** * Strings as the program uses them

    Go strings and PostgreSQL texts are byte sequences ([string]); this file has
    the name patterns the packages and the schema share. *)

From S2P Require Import Prelude.
From Stdlib Require Export Ascii.

Definition code (c : ascii) : N := N_of_ascii c.

Definition between (lo hi : N) (c : ascii) : bool := (lo <=? code c)%N && (code c <=? hi)%N.

(** [[a-z0-9]] *)
Definition name_head (c : ascii) : bool := between 97 122 c || between 48 57 c.
(** [[a-z0-9._-]] *)
Definition name_char (c : ascii) : bool :=
  name_head c || (code c =? 46)%N || (code c =? 95)%N || (code c =? 45)%N.

Fixpoint all_chars (p : ascii → bool) (s : string) : bool :=
  match s with EmptyString => true | String c s' => p c && all_chars p s' end.

(** [^[a-z0-9][a-z0-9._-]{0,n}$] *)
Definition match_name (n : nat) (s : string) : bool :=
  match s with
  | EmptyString => false
  | String c s' => name_head c && all_chars name_char s' && (String.length s' <=? n)%nat
  end.

(** [[0-9a-f]] *)
Definition is_hex_digit (c : ascii) : bool := between 48 57 c || between 97 102 c.

(** [^[0-9a-f]{64}$] *)
Definition is_hex64 (s : string) : bool :=
  (String.length s =? 64)%nat && all_chars is_hex_digit s.

(** PostgreSQL's [length]: characters of a UTF-8 text, one per byte that is not
    a continuation byte. *)
Fixpoint pg_length (s : string) : nat :=
  match s with
  | EmptyString => 0
  | String c s' => (if between 128 191 c then 0 else 1) + pg_length s'
  end.

(** [s !~ '[[:cntrl:]]'] on the C0 controls and DEL. *)
Definition pg_no_cntrl (s : string) : bool :=
  all_chars (λ c, (32 <=? code c)%N && negb (code c =? 127)%N) s.

(** [strings.Cut(s, sep)] at the first separator. *)
Fixpoint Cut (sep : ascii) (s : string) : option (string * string) :=
  match s with
  | EmptyString => None
  | String c s' =>
    if Ascii.eqb c sep then Some (EmptyString, s')
    else '(a, b) ← Cut sep s'; Some (String c a, b)
  end.

(** ** Decimal digits *)

Definition is_digit (c : ascii) : bool := between 48 57 c.

(** The longest run of digits, and what follows it. *)
Fixpoint digits (s : string) : string * string :=
  match s with
  | String c s' =>
    if is_digit c then let '(d, r) := digits s' in (String c d, r) else (EmptyString, s)
  | EmptyString => (EmptyString, EmptyString)
  end.

(** ** UTF-8 *)

Definition RuneError : N := 65533.

Definition cont (c : ascii) : bool := between 128 191 c.
Definition low6 (c : ascii) : N := N.land (code c) 63.

(** [utf8.DecodeRuneInString]: the first rune and the bytes it takes; an
    encoding that is not the shortest of a Unicode scalar value is [RuneError],
    one byte wide. *)
Definition decode_rune (s : string) : N * nat :=
  match s with
  | EmptyString => (RuneError, 0)
  | String b0 s1 =>
    let c0 := code b0 in
    if (c0 <? 128)%N then (c0, 1)
    else match s1 with
    | EmptyString => (RuneError, 1)
    | String b1 s2 =>
      if between 194 223 b0 then
        if cont b1 then ((N.land c0 31 * 64 + low6 b1)%N, 2) else (RuneError, 1)
      else match s2 with
      | EmptyString => (RuneError, 1)
      | String b2 s3 =>
        if between 224 239 b0 then
          let ok1 := if (c0 =? 224)%N then between 160 191 b1
                     else if (c0 =? 237)%N then between 128 159 b1 else cont b1 in
          if ok1 && cont b2
          then ((N.land c0 15 * 4096 + low6 b1 * 64 + low6 b2)%N, 3) else (RuneError, 1)
        else match s3 with
        | EmptyString => (RuneError, 1)
        | String b3 _ =>
          let ok1 := if (c0 =? 240)%N then between 144 191 b1
                     else if (c0 =? 244)%N then between 128 143 b1 else cont b1 in
          if between 240 244 b0 && ok1 && cont b2 && cont b3
          then ((N.land c0 7 * 262144 + low6 b1 * 4096 + low6 b2 * 64 + low6 b3)%N, 4)
          else (RuneError, 1)
        end
      end
    end
  end.

Fixpoint drop_string (n : nat) (s : string) : string :=
  match n, s with
  | S n', String _ s' => drop_string n' s'
  | _, _ => s
  end.

(** [for _, r := range s]: the runes of a string. *)
Fixpoint runes_fuel (fuel : nat) (s : string) : list N :=
  match fuel, s with
  | S f, String _ _ =>
    let '(r, n) := decode_rune s in r :: runes_fuel f (drop_string n s)
  | _, _ => []
  end.
Definition runes (s : string) : list N := runes_fuel (String.length s) s.

(** [unicode.IsControl]. *)
Definition IsControl (r : N) : bool := (r <? 32)%N || ((127 <=? r)%N && (r <=? 159)%N).

(** [unicode.IsSpace]. *)
Definition IsSpace (r : N) : bool :=
  ((9 <=? r)%N && (r <=? 13)%N) || (r =? 32)%N || (r =? 133)%N || (r =? 160)%N
  || (r =? 5760)%N || ((8192 <=? r)%N && (r <=? 8202)%N) || (r =? 8232)%N || (r =? 8233)%N
  || (r =? 8239)%N || (r =? 8287)%N || (r =? 12288)%N.

Fixpoint take_string (n : nat) (s : string) : string :=
  match n, s with
  | S n', String c s' => String c (take_string n' s')
  | _, _ => EmptyString
  end.

(** A string cut into its runes, each with its bytes. *)
Fixpoint segments_fuel (fuel : nat) (s : string) : list (N * string) :=
  match fuel, s with
  | S f, String _ _ =>
    let '(r, n) := decode_rune s in
    (r, take_string n s) :: segments_fuel f (drop_string n s)
  | _, _ => []
  end.
Definition segments (s : string) : list (N * string) := segments_fuel (String.length s) s.

Fixpoint drop_while {A} (p : A → bool) (l : list A) : list A :=
  match l with
  | [] => []
  | x :: l' => if p x then drop_while p l' else l
  end.

Definition trim_both {A} (p : A → bool) (l : list A) : list A :=
  rev (drop_while p (rev (drop_while p l))).

(** [strings.TrimSpace]. *)
Definition TrimSpace (s : string) : string :=
  String.concat "" (map snd (trim_both (λ x, IsSpace (fst x)) (segments s))).

(** [sort.Strings], in byte order. *)
Definition sort_Strings (l : list string) : list string := merge_sort (ordby String.leb) l.

(** ** Concatenation *)

Lemma append_cons c s t : (String c s ++ t)%string = String c (s ++ t)%string.
Proof. done. Qed.

Lemma append_nil t : ("" ++ t)%string = t.
Proof. done. Qed.

Lemma length_append s t : String.length (s ++ t)%string = (String.length s + String.length t)%nat.
Proof. induction s as [|c s IH]; [done|]. rewrite append_cons. simpl. by rewrite IH. Qed.

Lemma append_inj_length s s' t t' :
  String.length s = String.length s' → (s ++ t)%string = (s' ++ t')%string → s = s' ∧ t = t'.
Proof.
  revert s'. induction s as [|c s IH]; intros [|c' s'] Hl Heq; [done|done|done|].
  rewrite !append_cons in Heq. simplify_eq/=. destruct (IH s') as [-> ->]; auto.
Qed.

Lemma append_assoc_str s t u : ((s ++ t) ++ u)%string = (s ++ (t ++ u))%string.
Proof. induction s as [|c s IH]; [done|]. rewrite !append_cons. by rewrite IH. Qed.

Lemma append_empty_r s : (s ++ "")%string = s.
Proof. induction s as [|c s IH]; [done|]. by rewrite append_cons, IH. Qed.

Lemma concat_empty_cons s l : String.concat "" (s :: l) = (s ++ String.concat "" l)%string.
Proof. destruct l; simpl; [by rewrite append_empty_r|done]. Qed.
