(* ===== verification/GoJson.v ===== *)
(** * JSON as encoding/json reads and writes it

    The part of Go's encoding/json that the program relies on: string quoting
    ([appendString] of encode.go), and decoding a document into an [any] with
    [UseNumber] (scanner.go and decode.go): null, booleans, number literals kept
    as written, strings with their escapes resolved and ill-formed UTF-8
    replaced, arrays, and objects in which a repeated key keeps its last value. *)

From S2P Require Import Prelude.
From S2P Require Import GoText.

Local Open Scope string_scope.

(** ** UTF-8 and UTF-16 *)

(** [utf8.EncodeRune] of a Unicode scalar value. *)
Definition encode_rune (r : N) : string :=
  let b x := ascii_of_N x in
  if (r <? 128)%N then String (b r) ""
  else if (r <? 2048)%N then
    String (b (192 + r / 64)%N) (String (b (128 + r mod 64)%N) "")
  else if (r <? 65536)%N then
    String (b (224 + r / 4096)%N)
      (String (b (128 + r / 64 mod 64)%N) (String (b (128 + r mod 64)%N) ""))
  else
    String (b (240 + r / 262144)%N)
      (String (b (128 + r / 4096 mod 64)%N)
        (String (b (128 + r / 64 mod 64)%N) (String (b (128 + r mod 64)%N) ""))).

Definition is_surrogate (r : N) : bool := (55296 <=? r)%N && (r <? 57344)%N.

(** [utf16.DecodeRune]: the scalar value of a surrogate pair. *)
Definition utf16_DecodeRune (r1 r2 : N) : option N :=
  if (55296 <=? r1)%N && (r1 <? 56320)%N && (56320 <=? r2)%N && (r2 <? 57344)%N
  then Some ((r1 - 55296) * 1024 + (r2 - 56320) + 65536)%N else None.

(** ** Writing strings *)

Definition hex_lower (n : N) : ascii := ascii_of_N (if (n <? 10)%N then 48 + n else 87 + n)%N.

Definition bs : ascii := "\"%char.
Definition dq : ascii := ascii_of_N 34.

(** One rune of a quoted string; [raw] is its bytes in the source. *)
Definition escape_rune (escapeHTML : bool) (x : N * string) : string :=
  let '(r, raw) := x in
  let c := ascii_of_N r in
  if (r <? 128)%N then
    if (r =? 92)%N || (r =? 34)%N then String bs (String c "")
    else if (r =? 8)%N then String bs "b"
    else if (r =? 12)%N then String bs "f"
    else if (r =? 10)%N then String bs "n"
    else if (r =? 13)%N then String bs "r"
    else if (r =? 9)%N then String bs "t"
    else if (r <? 32)%N || (escapeHTML && ((r =? 60)%N || (r =? 62)%N || (r =? 38)%N)) then
      String bs ("u00" ++ String (hex_lower (r / 16)) (String (hex_lower (r mod 16)) ""))
    else raw
  else if (r =? RuneError)%N && (String.length raw =? 1)%nat then String bs "ufffd"
  else if (r =? 8232)%N || (r =? 8233)%N then
    String bs ("u202" ++ String (hex_lower (r mod 16)) "")
  else raw.

(** [appendString]. *)
Definition append_string (escapeHTML : bool) (s : string) : string :=
  String dq (String.concat "" (map (escape_rune escapeHTML) (segments s)) ++ String dq "").

(** ** Values *)

Inductive json :=
| JNull
| JBool (b : bool)
| JNumber (literal : string)
| JString (s : string)
| JArray (items : list json)
| JObject (members : list (string * json)).

(** [m[k] = v] on a Go map, kept as an association list. *)
Fixpoint map_put (k : string) (v : json) (m : list (string * json)) : list (string * json) :=
  match m with
  | [] => [(k, v)]
  | (k', v') :: m' => if String.eqb k k' then (k, v) :: m' else (k', v') :: map_put k v m'
  end.

(** ** Reading *)

Definition is_json_space (c : ascii) : bool :=
  (code c =? 32)%N || (code c =? 9)%N || (code c =? 13)%N || (code c =? 10)%N.

Fixpoint skip_space (s : string) : string :=
  match s with
  | String c s' => if is_json_space c then skip_space s' else s
  | "" => ""
  end.

Definition digits1 (s : string) : option (string * string) :=
  match digits s with ("", _) => None | p => Some p end.

(** [.123] and [e+12], where present. *)
Definition scan_fraction (s : string) : option (string * string) :=
  match s with
  | String "." s' => '(d, r) ← digits1 s'; Some (String "." d, r)
  | _ => Some ("", s)
  end.

Definition is_exp (c : ascii) : bool := (code c =? 101)%N || (code c =? 69)%N.
Definition is_sign (c : ascii) : bool := (code c =? 43)%N || (code c =? 45)%N.

Definition scan_exponent (s : string) : option (string * string) :=
  match s with
  | String c s' =>
    if is_exp c then
      match s' with
      | String g s'' =>
        if is_sign g then '(d, r) ← digits1 s''; Some (String c (String g d), r)
        else '(d, r) ← digits1 s'; Some (String c d, r)
      | "" => None
      end
    else Some ("", s)
  | "" => Some ("", s)
  end.

(** [0] or a number that does not start with it. *)
Definition scan_integer (s : string) : option (string * string) :=
  match s with
  | String c s' => if Ascii.eqb c "0" then Some ("0", s') else digits1 s
  | "" => None
  end.

Definition scan_unsigned (s : string) : option (string * string) :=
  '(i, r1) ← scan_integer s;
  '(f, r2) ← scan_fraction r1;
  '(e, r3) ← scan_exponent r2;
  Some (i ++ f ++ e, r3).

(** A number literal. *)
Definition scan_number (s : string) : option (string * string) :=
  match s with
  | String "-" s' => '(u, r) ← scan_unsigned s'; Some (String "-" u, r)
  | _ => scan_unsigned s
  end.

Definition hex_value (c : ascii) : option N :=
  if between 48 57 c then Some (code c - 48)%N
  else if between 97 102 c then Some (code c - 87)%N
  else if between 65 70 c then Some (code c - 55)%N
  else None.

(** Four hexadecimal digits. *)
Definition scan_hex4 (s : string) : option (N * string) :=
  match s with
  | String a (String b (String c (String d r))) =>
    x ← hex_value a; y ← hex_value b; z ← hex_value c; t ← hex_value d;
    Some ((((x * 16 + y) * 16 + z) * 16 + t)%N, r)
  | _ => None
  end.

(** What comes next inside a string literal. *)
Inductive string_item :=
| ItemEnd (rest : string)
| ItemRune (r : N) (rest : string)
| ItemBad.

(** After a backslash.  A surrogate that is not the first half of a pair stands
    for the replacement character. *)
Definition escape_item (s : string) : string_item :=
  match s with
  | "" => ItemBad
  | String e r =>
    if (code e =? 98)%N then ItemRune 8 r
    else if (code e =? 102)%N then ItemRune 12 r
    else if (code e =? 110)%N then ItemRune 10 r
    else if (code e =? 114)%N then ItemRune 13 r
    else if (code e =? 116)%N then ItemRune 9 r
    else if (code e =? 92)%N || (code e =? 47)%N || (code e =? 34)%N then ItemRune (code e) r
    else if (code e =? 117)%N then
      match scan_hex4 r with
      | None => ItemBad
      | Some (u, r1) =>
        if is_surrogate u then
          match r1 with
          | String b0 (String u0 r2) =>
            if Ascii.eqb b0 bs && (code u0 =? 117)%N then
              match scan_hex4 r2 with
              | Some (u2, r3) =>
                match utf16_DecodeRune u u2 with
                | Some d => ItemRune d r3
                | None => ItemRune RuneError r1
                end
              | None => ItemRune RuneError r1
              end
            else ItemRune RuneError r1
          | _ => ItemRune RuneError r1
          end
        else ItemRune u r1
      end
    else ItemBad
  end.

Definition next_item (s : string) : string_item :=
  match s with
  | "" => ItemBad
  | String c r =>
    if Ascii.eqb c dq then ItemEnd r
    else if Ascii.eqb c bs then escape_item r
    else if (code c <? 32)%N then ItemBad
    else let '(u, n) := decode_rune s in ItemRune u (drop_string n s)
  end.

(** The string up to its closing quote; every item takes at least one byte, so
    the length of the input is fuel enough. *)
Fixpoint scan_string (fuel : nat) (s : string) : option (string * string) :=
  match fuel with
  | O => None
  | S f =>
    match next_item s with
    | ItemEnd r => Some ("", r)
    | ItemRune u r => '(t, r') ← scan_string f r; Some (encode_rune u ++ t, r')
    | ItemBad => None
    end
  end.

Definition json_string (s : string) : option (string * string) := scan_string (String.length s) s.

Fixpoint strip_prefix (p s : string) : option string :=
  match p, s with
  | "", _ => Some s
  | String a p', String b s' => if Ascii.eqb a b then strip_prefix p' s' else None
  | _, "" => None
  end.

(** [maxNestingDepth]. *)
Definition maxNestingDepth : Z := 10000.

(** [room] is how many more containers may be opened.  Every two calls consume a
    byte, which the fuel of [json_value] covers. *)
Fixpoint parse_value (fuel : nat) (room : Z) (s : string) : option (json * string) :=
  match fuel with
  | O => None
  | S f =>
    match skip_space s with
    | "" => None
    | String c r =>
      if Ascii.eqb c "{" then
        if (room <=? 0)%Z then None
        else match skip_space r with
             | String c' r' =>
               if Ascii.eqb c' "}" then Some (JObject [], r')
               else '(m, r') ← parse_members f (room - 1) [] r; Some (JObject m, r')
             | "" => None
             end
      else if Ascii.eqb c "[" then
        if (room <=? 0)%Z then None
        else match skip_space r with
             | String c' r' =>
               if Ascii.eqb c' "]" then Some (JArray [], r')
               else '(vs, r') ← parse_items f (room - 1) r; Some (JArray vs, r')
             | "" => None
             end
      else if Ascii.eqb c dq then '(t, r') ← json_string r; Some (JString t, r')
      else if Ascii.eqb c "t" then r' ← strip_prefix "rue" r; Some (JBool true, r')
      else if Ascii.eqb c "f" then r' ← strip_prefix "alse" r; Some (JBool false, r')
      else if Ascii.eqb c "n" then r' ← strip_prefix "ull" r; Some (JNull, r')
      else '(n, r') ← scan_number (String c r); Some (JNumber n, r')
    end
  end
with parse_items (fuel : nat) (room : Z) (s : string) : option (list json * string) :=
  match fuel with
  | O => None
  | S f =>
    '(v, r) ← parse_value f room s;
    match skip_space r with
    | String c r' =>
      if Ascii.eqb c "," then '(vs, r'') ← parse_items f room r'; Some (v :: vs, r'')
      else if Ascii.eqb c "]" then Some ([v], r')
      else None
    | "" => None
    end
  end
with parse_members (fuel : nat) (room : Z) (m : list (string * json)) (s : string)
    : option (list (string * json) * string) :=
  match fuel with
  | O => None
  | S f =>
    match skip_space s with
    | String q r0 =>
      if negb (Ascii.eqb q dq) then None
      else
        '(k, r1) ← json_string r0;
        match skip_space r1 with
        | String c r2 =>
          if negb (Ascii.eqb c ":") then None
          else
            '(v, r3) ← parse_value f room r2;
            match skip_space r3 with
            | String c' r4 =>
              if Ascii.eqb c' "," then parse_members f room (map_put k v m) r4
              else if Ascii.eqb c' "}" then Some (map_put k v m, r4)
              else None
            | "" => None
            end
        | "" => None
        end
    | "" => None
    end
  end.

(** [Decoder.Decode] into an [any]: the first value and the bytes after it. *)
Definition json_value (s : string) : option (json * string) :=
  parse_value (2 * String.length s + 2) maxNestingDepth s.

(** [Decoder.More] after a top-level value. *)
Definition json_More (s : string) : bool :=
  match skip_space s with
  | "" => false
  | String c _ => negb (Ascii.eqb c "]") && negb (Ascii.eqb c "}")
  end.
