(* ===== verification/GoFloat.v ===== *)
(** * Go's float64

    IEEE 754 binary64 on the Standard Library's [spec_float] (53 bits of
    precision, exponents below 1024), with the operations of Go's language and
    math package that the retry and publish backoffs use: conversions, order,
    [Ceil], [Nextafter(1, 0)] and [Pow] at a whole exponent.  Comparisons,
    [Ceil] and the conversion to int64 are stated on the exact rational value
    of a number.  Operations are rounded one by one (no fused multiply-add). *)

From S2P Require Import Prelude.
From Stdlib Require Export SpecFloat.
From Stdlib Require Import QArith Qround.

Abbreviation f64 := spec_float.
Definition f64_mul (x y : f64) : f64 := SFmul 53 1024 x y.
Definition f64_add (x y : f64) : f64 := SFadd 53 1024 x y.
Definition f64_sub (x y : f64) : f64 := SFsub 53 1024 x y.
Definition f64_div (x y : f64) : f64 := SFdiv 53 1024 x y.

(** [float64(z)] for an integer, rounded to nearest even. *)
Definition f64_of_Z (z : Z) : f64 := binary_normalize 53 1024 z 0 false.

Definition math_IsNaN (x : f64) : bool := match x with S754_nan => true | _ => false end.
Definition math_IsInf (x : f64) : bool := match x with S754_infinity _ => true | _ => false end.
Definition math_IsInf_pos (x : f64) : bool :=
  match x with S754_infinity false => true | _ => false end.

(** The exact value of a finite number. *)
Definition f64_pair (s : bool) (m : positive) (e : Z) : Q :=
  let sm := if s then Zneg m else Zpos m in
  if (0 <=? e)%Z then inject_Z (sm * 2 ^ e)
  else Qmake sm (Z.to_pos (2 ^ (- e))).

Definition f64_Q (x : f64) : option Q :=
  match x with
  | S754_zero _ => Some 0%Q
  | S754_finite s m e => Some (f64_pair s m e)
  | _ => None
  end.

(** The order of Go's [<], [>] and their negations: unordered when either side
    is NaN. *)
Definition f64_compare (x y : f64) : option comparison :=
  match x, y with
  | S754_nan, _ | _, S754_nan => None
  | S754_infinity a, S754_infinity b =>
    Some (match a, b with true, false => Lt | false, true => Gt | _, _ => Eq end)
  | S754_infinity a, _ => Some (if a then Lt else Gt)
  | _, S754_infinity b => Some (if b then Gt else Lt)
  | _, _ =>
    match f64_Q x, f64_Q y with
    | Some p, Some q => Some (Qcompare p q)
    | _, _ => None
    end
  end.

Definition f64_lt (x y : f64) : bool :=
  match f64_compare x y with Some Lt => true | _ => false end.
Definition f64_le (x y : f64) : bool :=
  match f64_compare x y with Some Lt | Some Eq => true | _ => false end.
Definition f64_eq (x y : f64) : bool :=
  match f64_compare x y with Some Eq => true | _ => false end.

Definition f64_0 : f64 := S754_zero false.
Definition f64_1 : f64 := f64_of_Z 1.
Definition f64_2 : f64 := f64_of_Z 2.

(** [math.Nextafter(1, 0)], the largest number below one. *)
Definition Nextafter_1_0 : f64 := S754_finite false 9007199254740991 (-53).

Definition math_Ceil (x : f64) : f64 :=
  match x with
  | S754_finite s m e =>
    if (0 <=? e)%Z then x
    else let n := Qceiling (f64_pair s m e) in
         if (n =? 0)%Z then S754_zero s else f64_of_Z n
  | _ => x
  end.

(** int64 arithmetic. *)
Definition wrap64 (z : Z) : Z := ((z + 2 ^ 63) mod 2 ^ 64 - 2 ^ 63)%Z.
Definition MinInt64 : Z := (-9223372036854775808)%Z.
Definition MaxInt64 : Z := 9223372036854775807%Z.

(** [int64(x)] drops the fraction.  A value outside the range of int64, an
    infinity or NaN, gives whatever the machine gives: [arch x]. *)
Definition f64_to_int64 (arch : f64 → Z) (x : f64) : Z :=
  match f64_Q x with
  | Some q =>
    let z := if Qle_bool 0 q then Qfloor q else Qceiling q in
    if ((MinInt64 <=? z) && (z <=? MaxInt64))%Z then z else arch x
  | None => arch x
  end.

(** [math.Pow(x, float64(n))] for a whole n >= 0 and x >= 1, infinite or NaN,
    the arguments the backoffs pass: the special cases, then the loop over the
    bits of n on x = x1 * 2^xe, then [Ldexp]. *)
Definition f64_half : f64 := S754_finite false 4503599627370496 (-53).

Definition pow_out_of_range (xe : Z) : bool := ((xe <? -4096) || (4096 <? xe))%Z.

Fixpoint pow_loop (i : positive) (a1 : f64) (ae : Z) (x1 : f64) (xe : Z) : f64 * Z :=
  if pow_out_of_range xe then (a1, (ae + xe)%Z)
  else
    let sq := f64_mul x1 x1 in
    let '(x2, xe2) := if f64_lt sq f64_half then (f64_add sq sq, (2 * xe - 1)%Z)
                      else (sq, (2 * xe)%Z) in
    match i with
    | xH => (f64_mul a1 x1, (ae + xe)%Z)
    | xO i' => pow_loop i' a1 ae x2 xe2
    | xI i' => pow_loop i' (f64_mul a1 x1) (ae + xe)%Z x2 xe2
    end.

Definition math_Pow (x : f64) (n : Z) : f64 :=
  if (n =? 0)%Z || f64_eq x f64_1 then f64_1
  else if (n =? 1)%Z then x
  else match x, n with
  | S754_nan, _ => S754_nan
  | S754_infinity _, _ => S754_infinity false
  | _, Zpos i =>
    let '(x1, xe) := SFfrexp 53 1024 x in
    let '(a1, ae) := pow_loop i f64_1 0 x1 xe in
    SFldexp 53 1024 a1 ae
  | _, _ => S754_nan
  end.

(** ** Facts used by the backoffs *)

Lemma f64_compare_Q x y p q :
  f64_Q x = Some p → f64_Q y = Some q → f64_compare x y = Some (p ?= q)%Q.
Proof.
  unfold f64_compare. destruct x, y; cbn [f64_Q]; intros [= <-] [= <-]; done.
Qed.

Lemma f64_lt_compare x y p q :
  f64_Q x = Some p → f64_Q y = Some q → f64_lt x y = true ↔ (p < q)%Q.
Proof.
  intros Hx Hy. unfold f64_lt. rewrite (f64_compare_Q x y p q Hx Hy), Qlt_alt.
  destruct (p ?= q)%Q; naive_solver.
Qed.

Lemma f64_le_compare x y p q :
  f64_Q x = Some p → f64_Q y = Some q → f64_le x y = true ↔ (p <= q)%Q.
Proof.
  intros Hx Hy. unfold f64_le. rewrite (f64_compare_Q x y p q Hx Hy), Qle_alt.
  destruct (p ?= q)%Q; naive_solver.
Qed.

(** Shifting right keeps a mantissa non-negative. *)
Lemma shr_nonneg mrs e n :
  (0 ≤ shr_m mrs)%Z → (0 ≤ shr_m (fst (shr mrs e n)))%Z.
Proof.
  assert (∀ r, (0 ≤ shr_m r)%Z → (0 ≤ shr_m (shr_1 r))%Z) as H1.
  { intros [[|[]|[]] r s]; simpl; lia. }
  assert (∀ p r, (0 ≤ shr_m r)%Z → (0 ≤ shr_m (SpecFloat.iter_pos shr_1 p r))%Z) as Hi.
  { induction p; simpl; auto. }
  intros Hm. destruct n; simpl; auto.
Qed.

Lemma shr_fexp_nonneg m e l :
  (0 ≤ m)%Z → (0 ≤ shr_m (fst (shr_fexp 53 1024 m e l)))%Z.
Proof.
  intros Hm. unfold shr_fexp. apply shr_nonneg.
  destruct l as [|[]]; simpl; done.
Qed.

(** Zero, finite or infinite, of sign [s]. *)
Definition f64_signed (s : bool) (x : f64) : Prop :=
  x = S754_zero s ∨ x = S754_infinity s ∨ ∃ m e, x = S754_finite s m e.
Abbreviation f64_nonneg := (f64_signed false).

(** Rounding a non-negative magnitude never produces NaN and keeps the sign. *)
Lemma round_aux_sign s m e l :
  (0 ≤ m)%Z → f64_signed s (binary_round_aux 53 1024 s m e l).
Proof.
  intros Hm. unfold binary_round_aux, f64_signed.
  pose proof (shr_fexp_nonneg m e l Hm) as H1.
  destruct (shr_fexp 53 1024 m e l) as [mrs' e'] eqn:E1. simpl in H1.
  assert (0 ≤ round_nearest_even (shr_m mrs') (loc_of_shr_record mrs'))%Z as H2.
  { unfold round_nearest_even. repeat case_match; lia. }
  pose proof (shr_fexp_nonneg _ e' loc_Exact H2) as H3.
  destruct (shr_fexp 53 1024 _ e' loc_Exact) as [mrs'' e''] eqn:E2. simpl in H3.
  destruct (shr_m mrs'') eqn:Em; [naive_solver| |lia].
  case_match; naive_solver.
Qed.

(** A positive number divided by a positive number is zero, positive or +Inf. *)
Lemma f64_div_pos m1 e1 m2 e2 :
  f64_nonneg (f64_div (S754_finite false m1 e1) (S754_finite false m2 e2)).
Proof.
  unfold f64_div, SFdiv, SFdiv_core_binary.
  set (s := ((e1 - e2) - _)%Z).
  set (m' := match s with Z0 => _ | Zpos _ => _ | Zneg _ => _ end).
  assert (0 ≤ m')%Z as Hm'.
  { subst m'. destruct s; [lia | apply Z.shiftl_nonneg; lia | lia]. }
  clearbody m'. pose proof (Z_div_mod m' (Zpos m2) eq_refl) as Hd.
  destruct (Z.div_eucl m' (Zpos m2)) as [q r]. destruct Hd as [Hd Hr].
  simpl. apply round_aux_sign. nia.
Qed.

Lemma math_Ceil_nonneg x : f64_nonneg x → f64_nonneg (math_Ceil x).
Proof.
  intros [->|[->|(m & e & ->)]]; simpl; [by left | by right; left |].
  destruct (0 <=? e)%Z eqn:He; [right; right; eauto|].
  set (n := Qceiling _). assert (0 ≤ n)%Z as Hn.
  { subst n. change 0%Z with (Qceiling 0). apply Qceiling_resp_le.
    unfold f64_pair. rewrite He. unfold Qle. simpl. lia. }
  clearbody n. destruct (Z.eqb_spec n 0); [by left|].
  destruct n as [|p|p]; [lia| |lia].
  unfold f64_of_Z, binary_normalize, binary_round.
  destruct (shl_align _ _ _) as [mz ez].
  apply round_aux_sign. lia.
Qed.

(** *** Whole numbers below 2^53 are represented exactly *)

Lemma digits2_pos_spec p :
  (2 ^ (Zpos (digits2_pos p) - 1) ≤ Zpos p < 2 ^ Zpos (digits2_pos p))%Z.
Proof.
  induction p as [p IH|p IH|]; simpl digits2_pos; [..|done];
    rewrite Pos2Z.inj_succ; set (d := Zpos (digits2_pos p)) in *;
    replace (Z.succ d - 1)%Z with (Z.succ (d - 1)) by lia;
    rewrite !Z.pow_succ_r by (subst d; lia); lia.
Qed.

Lemma digits2_pos_shift p n :
  Zpos (digits2_pos (Pos.iter xO p n)) = (Zpos (digits2_pos p) + Zpos n)%Z.
Proof.
  induction n using Pos.peano_ind.
  - simpl. lia.
  - rewrite Pos.iter_succ. simpl. lia.
Qed.

Lemma iter_xO p n : Zpos (Pos.iter xO p n) = (Zpos p * 2 ^ Zpos n)%Z.
Proof.
  induction n using Pos.peano_ind.
  - simpl. lia.
  - rewrite Pos.iter_succ, Pos2Z.inj_succ, Z.pow_succ_r by lia.
    rewrite Pos2Z.inj_xO, IHn. ring.
Qed.

Lemma shr_fexp_exact m e :
  (0 ≤ e + 1074)%Z → (Zpos (digits2_pos m) = 53)%Z →
  shr_fexp 53 1024 (Zpos m) e loc_Exact = (Build_shr_record (Zpos m) false false, e).
Proof.
  intros He Hd. unfold shr_fexp. simpl Zdigits2. rewrite Hd.
  replace (fexp 53 1024 (53 + e) - e)%Z with 0%Z; [done|].
  unfold fexp, emin. lia.
Qed.

Lemma binary_round_exact p :
  (Zpos p < 2 ^ 53)%Z →
  ∃ m e, binary_round 53 1024 false p 0 = S754_finite false m e ∧
    (e ≤ 0)%Z ∧ (Zpos m = Zpos p * 2 ^ (- e))%Z.
Proof.
  intros Hp. pose proof (digits2_pos_spec p) as [Hlo _].
  set (d := Zpos (digits2_pos p)) in *.
  assert (1 ≤ d)%Z by lia.
  assert (d ≤ 53)%Z as Hd.
  { destruct (Z.le_gt_cases d 53); [done|].
    assert (2 ^ 53 ≤ 2 ^ (d - 1))%Z by (apply Z.pow_le_mono_r; lia). lia. }
  unfold binary_round. fold d. rewrite Z.add_0_r.
  replace (fexp 53 1024 d) with (d - 53)%Z by (unfold fexp, emin; lia).
  unfold shl_align. rewrite Z.sub_0_r.
  destruct (d - 53)%Z as [|k|k] eqn:Hk; [|lia|].
  - unfold binary_round_aux. rewrite shr_fexp_exact by (subst d; lia). simpl.
    rewrite shr_fexp_exact by (subst d; lia). simpl.
    exists p, 0%Z. split; [done|]. lia.
  - assert (Zpos (digits2_pos (Pos.iter xO p k)) = 53)%Z as Hdig
      by (rewrite digits2_pos_shift; subst d; lia).
    unfold binary_round_aux. rewrite shr_fexp_exact by lia. simpl.
    rewrite shr_fexp_exact by lia. simpl.
    exists (Pos.iter xO p k), (Zneg k). split.
    + destruct (Z.leb_spec (Zneg k) (1024 - 53)); [done|lia].
    + split; [lia|]. rewrite iter_xO. done.
Qed.

Lemma f64_pair_whole m e p :
  (e ≤ 0)%Z → (Zpos m = p * 2 ^ (- e))%Z → (f64_pair false m e == inject_Z p)%Q.
Proof.
  intros He Hm. unfold f64_pair. destruct (Z.leb_spec 0 e) as [He0|He0].
  - assert (e = 0)%Z as -> by lia. rewrite Hm. simpl. rewrite !Z.mul_1_r. done.
  - unfold Qeq, inject_Z. simpl Qnum. simpl Qden.
    rewrite Z2Pos.id by (apply Z.pow_pos_nonneg; lia). lia.
Qed.

Lemma f64_of_Z_exact z :
  (0 < z < 2 ^ 53)%Z →
  ∃ m e, f64_of_Z z = S754_finite false m e ∧ (f64_pair false m e == inject_Z z)%Q.
Proof.
  intros [Hz Hz']. destruct z as [|p|p]; [lia| |lia].
  destruct (binary_round_exact p Hz') as (m & e & Hr & He & Hm).
  exists m, e. split; [exact Hr|]. by apply f64_pair_whole.
Qed.

Lemma f64_of_Z_Q z :
  (0 < z < 2 ^ 53)%Z → ∃ q, f64_Q (f64_of_Z z) = Some q ∧ (q == inject_Z z)%Q.
Proof.
  intros Hz. destruct (f64_of_Z_exact z Hz) as (m & e & -> & Hq).
  exists (f64_pair false m e). done.
Qed.
