(* ===== verification/Schema.v ===== *)
(** * The PostgreSQL schema and the statements run against it

    The tables of src/migrations/0001 to 0018 as finite maps keyed by their
    primary keys, with the row CHECKs, unique indexes and foreign keys of the
    final schema ([tcheck]); the world a transaction runs in (the database, the
    PostgreSQL clock, the uuid source, the jitter source); and the generic
    INSERT / UPDATE / SELECT steps the operations are written with. *)

From S2P Require Import Prelude.
From S2P Require Import GoText.
From S2P Require Import GoFloat.

(** A [uuid.UUID] as its 128-bit value; [uuid.Nil] is 0.  PostgreSQL orders
    uuids bytewise, which is the order of these values. *)
Abbreviation uuid := N.
Definition uuid_Nil : uuid := 0%N.

(** Instants and durations are counted in nanoseconds, as Go's [time.Time] and
    [time.Duration] do; a [timestamptz] column keeps whole microseconds, the
    rest is cut off when the driver encodes the value. *)
Abbreviation time := Z.
Abbreviation duration := Z.
Definition Millisecond : duration := 1000000%Z.
Definition Second : duration := 1000000000%Z.
Definition timestamptz (t : time) : time := (t / 1000 * 1000)%Z.

(** ** Closed vocabularies *)

Inductive JobStatus :=
| StatusPending | StatusQueued | StatusLeased | StatusRunning | StatusRetryWait
| StatusCancelRequested | StatusSucceeded | StatusCanceled | StatusDeadLettered.

Inductive AttemptStatus :=
| AttemptLeased | AttemptRunning | AttemptSucceeded | AttemptFailed
| AttemptTimedOut | AttemptCanceled | AttemptAbandoned.

Inductive LeaseStatus := LeaseActive | LeaseCompleted | LeaseExpired | LeaseReleased.

Inductive SessionStatus :=
| SessionStarting | SessionHealthy | SessionDraining | SessionUnhealthy | SessionOffline.

(** Go's string types with named constants: the constants, and any other
    string. *)
Inductive FailureClass :=
| ClassRetryable | ClassPermanent | ClassTimedOut | ClassCanceled | ClassAbandoned
| ClassOther (s : string).

Inductive DLQReason :=
| ReasonPermanentFailure | ReasonAttemptsExhausted
| ReasonOther (s : string).

Inductive OutboxStatus := EventPending | EventPublished.

Inductive Location := LocationInline | LocationObject | LocationOther (s : string).

#[export] Instance JobStatus_eq : EqDecision JobStatus.
Proof. solve_decision. Defined.
#[export] Instance AttemptStatus_eq : EqDecision AttemptStatus.
Proof. solve_decision. Defined.
#[export] Instance LeaseStatus_eq : EqDecision LeaseStatus.
Proof. solve_decision. Defined.
#[export] Instance SessionStatus_eq : EqDecision SessionStatus.
Proof. solve_decision. Defined.
#[export] Instance FailureClass_eq : EqDecision FailureClass.
Proof. solve_decision. Defined.
#[export] Instance DLQReason_eq : EqDecision DLQReason.
Proof. solve_decision. Defined.
#[export] Instance OutboxStatus_eq : EqDecision OutboxStatus.
Proof. solve_decision. Defined.
#[export] Instance Location_eq : EqDecision Location.
Proof. solve_decision. Defined.

(** ** Rows *)

Record Queue := mkQueue { q_max_concurrency : Z; q_worker_group : string }.

Record Job := mkJob {
  j_scope : string;
  j_queue : string;
  j_type : string;
  j_payload : string;
  j_status : JobStatus;
  j_priority : Z;
  j_max_attempts : Z;
  j_timeout_seconds : Z;
  j_required_capabilities : list string;
  j_scheduled_at : option time;
  j_available_at : time;
  j_cancel_requested_at : option time;
  j_replayed_from : option uuid;
  j_notification_generation : Z;
  j_last_notification_at : option time;
  j_created_at : time;
  j_updated_at : time;
}.

Record IdempotencyRecord := mkIdem { i_fingerprint : string; i_job_id : uuid }.

Record OutboxEvent := mkEvent {
  e_type : string;
  e_schema_version : Z;
  e_payload : string;
  e_job_id : option uuid;
  e_generation : option Z;
  e_status : OutboxStatus;
  e_attempts : Z;
  e_available_at : time;
  e_claimed_at : option time;
  e_published_at : option time;
  e_last_error : option string;
  e_traceparent : option string;
  e_tracestate : option string;
  e_created_at : time;
}.

Record Worker := mkWorker { wk_scope : string; wk_name : string; wk_updated_at : time }.

Record WorkerSession := mkSession {
  s_worker_id : uuid;
  s_scope : string;
  s_hostname : string;
  s_worker_group : string;
  s_concurrency_limit : Z;
  s_capabilities : list string;
  s_supported_job_types : list string;
  s_status : SessionStatus;
  s_registered_at : time;
  s_last_heartbeat_at : time;
  s_ended_at : option time;
  s_worker_key_id : option uuid;
}.

Record Attempt := mkAttempt {
  a_job_id : uuid;
  a_scope : string;
  a_queue : string;
  a_number : Z;
  a_worker_id : uuid;
  a_session_id : uuid;
  a_status : AttemptStatus;
  a_started_at : option time;
  a_finished_at : option time;
  a_created_at : time;
  a_timeout_at : option time;
  a_outcome_request_id : option uuid;
  a_failure_class : option FailureClass;
  a_error_code : option string;
  a_error_message : option string;
  a_retry_delay_ms : option Z;
  a_retry_at : option time;
}.

Record Lease := mkLease {
  l_job_id : uuid;
  l_attempt_id : uuid;
  l_scope : string;
  l_queue : string;
  l_worker_id : uuid;
  l_session_id : uuid;
  l_claim_request_id : uuid;
  l_status : LeaseStatus;
  l_acquired_at : time;
  l_expires_at : time;
  l_renewed_at : time;
  l_released_at : option time;
  l_renewal_version : Z;
  l_last_renewal_request_id : option uuid;
}.

Record DLQEntry := mkDLQEntry {
  d_scope : string;
  d_queue : string;
  d_job_id : uuid;
  d_terminal_attempt_id : option uuid;
  d_reason : DLQReason;
  d_created_at : time;
}.

Record DLQReplay := mkReplay { r_replacement_job_id : uuid }.

Record ResultRow := mkResult {
  rs_attempt_id : uuid;
  rs_scope : string;
  rs_location : Location;
  rs_inline_body : option string;
  rs_object_bucket : option string;
  rs_object_key : option string;
  rs_size_bytes : Z;
  rs_checksum : option string;
  rs_content_type : string;
  rs_created_at : time;
}.

#[export] Instance eta_Job : Eta Job := λ r,
  mkJob (j_scope r) (j_queue r) (j_type r) (j_payload r) (j_status r) (j_priority r)
    (j_max_attempts r) (j_timeout_seconds r) (j_required_capabilities r)
    (j_scheduled_at r) (j_available_at r) (j_cancel_requested_at r) (j_replayed_from r)
    (j_notification_generation r) (j_last_notification_at r) (j_created_at r)
    (j_updated_at r).
#[export] Instance eta_OutboxEvent : Eta OutboxEvent := λ r,
  mkEvent (e_type r) (e_schema_version r) (e_payload r) (e_job_id r) (e_generation r)
    (e_status r) (e_attempts r) (e_available_at r) (e_claimed_at r) (e_published_at r)
    (e_last_error r) (e_traceparent r) (e_tracestate r) (e_created_at r).
#[export] Instance eta_Worker : Eta Worker := λ r,
  mkWorker (wk_scope r) (wk_name r) (wk_updated_at r).
#[export] Instance eta_WorkerSession : Eta WorkerSession := λ r,
  mkSession (s_worker_id r) (s_scope r) (s_hostname r) (s_worker_group r)
    (s_concurrency_limit r) (s_capabilities r) (s_supported_job_types r) (s_status r)
    (s_registered_at r) (s_last_heartbeat_at r) (s_ended_at r) (s_worker_key_id r).
#[export] Instance eta_Attempt : Eta Attempt := λ r,
  mkAttempt (a_job_id r) (a_scope r) (a_queue r) (a_number r) (a_worker_id r)
    (a_session_id r) (a_status r) (a_started_at r) (a_finished_at r) (a_created_at r)
    (a_timeout_at r) (a_outcome_request_id r) (a_failure_class r) (a_error_code r)
    (a_error_message r) (a_retry_delay_ms r) (a_retry_at r).
#[export] Instance eta_Lease : Eta Lease := λ r,
  mkLease (l_job_id r) (l_attempt_id r) (l_scope r) (l_queue r) (l_worker_id r)
    (l_session_id r) (l_claim_request_id r) (l_status r) (l_acquired_at r)
    (l_expires_at r) (l_renewed_at r) (l_released_at r) (l_renewal_version r)
    (l_last_renewal_request_id r).

(** ** The database *)

Record DB := mkDB {
  queues : gmap string Queue;
  jobs : gmap uuid Job;
  idempotency_records : gmap (string * string) IdempotencyRecord;
  outbox_events : gmap uuid OutboxEvent;
  workers : gmap uuid Worker;
  worker_sessions : gmap uuid WorkerSession;
  job_attempts : gmap uuid Attempt;
  leases : gmap uuid Lease;
  dlq_entries : gmap uuid DLQEntry;
  dlq_replays : gmap (string * uuid * string) DLQReplay;
  results : gmap uuid ResultRow;
}.

#[export] Instance eta_DB : Eta DB := λ r,
  mkDB (queues r) (jobs r) (idempotency_records r) (outbox_events r) (workers r)
    (worker_sessions r) (job_attempts r) (leases r) (dlq_entries r) (dlq_replays r)
    (results r).

(** ** Errors

    The sentinel errors of the packages, the PostgreSQL error codes the code
    inspects, and other errors by their message.  [fmt.Errorf("...: %w", err)]
    keeps the sentinel it wraps. *)
Inductive pgcode :=
| unique_violation | check_violation | foreign_key_violation | untranslatable_character.

Inductive error :=
| ErrPg (c : pgcode)
| ErrMsg (m : string)
| ErrValidation (fields : list (string * string))
| ErrIdempotencyConflict | ErrUnknownQueue | ErrJobNotFound | ErrJobNotCancelable
| ErrNotDeadLettered | ErrInvalidCursor
| ErrSessionConflict | ErrSessionUnavailable | ErrClaimConflict | ErrFenceRejected
| ErrLeaseExpired | ErrStateConflict | ErrRenewalConflict | ErrAttemptTimedOut
| ErrOutcomeConflict | ErrCancellationRequested
| ErrDLQEntryExists | ErrInvalidResult | ErrResultNotFound.

(** ** Row constraints *)

Definition is_None_b {A} (o : option A) : bool := match o with None => true | Some _ => false end.
Definition is_Some_b {A} (o : option A) : bool := negb (is_None_b o).

Definition scope_ok (s : string) : bool := (1 <=? pg_length s) && (pg_length s <=? 128).

(** [jsonb_typeof(payload) = 'object'], on the text of the stored value. *)
Definition jsonb_object (s : string) : bool :=
  match s with String "{" _ => true | _ => false end.

Definition job_check (id : uuid) (j : Job) : bool :=
  scope_ok (j_scope j)
  && match_name 127 (j_type j)
  && jsonb_object (j_payload j)
  && ((0 <=? j_priority j) && (j_priority j <=? 100))%Z
  && ((1 <=? j_max_attempts j) && (j_max_attempts j <=? 100))%Z
  && ((1 <=? j_timeout_seconds j) && (j_timeout_seconds j <=? 86400))%Z
  && negb (bool_decide (j_replayed_from j = Some id))
  && (negb (bool_decide (j_status j = StatusPending)) || is_Some_b (j_scheduled_at j))
  && Bool.eqb (is_Some_b (j_cancel_requested_at j))
       (bool_decide (j_status j = StatusCancelRequested ∨ j_status j = StatusCanceled))
  && (((j_notification_generation j =? 0)%Z && is_None_b (j_last_notification_at j))
      || ((0 <? j_notification_generation j)%Z && is_Some_b (j_last_notification_at j))).

(** ['^[0-9a-f]{2}-[0-9a-f]{32}-[0-9a-f]{16}-[0-9a-f]{2}$']. *)
Definition match_traceparent (s : string) : bool :=
  bool_decide (String.length s = 55%nat)
  && forallb (λ i, match String.get i s with
                   | Some c => if bool_decide (i = 2 ∨ i = 35 ∨ i = 52)%nat
                               then bool_decide (c = "-"%char) else is_hex_digit c
                   | None => false
                   end) (seq 0 55).

Definition event_check (e : OutboxEvent) : bool :=
  ((1 <=? String.length (e_type e))%nat && (String.length (e_type e) <=? 64)%nat)
  && (1 <=? e_schema_version e)%Z && (0 <=? e_attempts e)%Z
  && jsonb_object (e_payload e)
  && match e_status e with
     | EventPublished => is_Some_b (e_published_at e)
     | EventPending => is_None_b (e_published_at e)
     end
  && match e_job_id e, e_generation e with
     | None, None => true
     | Some _, Some g => (1 <=? g)%Z
     | _, _ => false
     end
  && match e_traceparent e with None => true | Some t => match_traceparent t end
  && match e_tracestate e with None => true | Some t => pg_length t <=? 512 end.

Definition worker_check (w : Worker) : bool :=
  scope_ok (wk_scope w) && match_name 127 (wk_name w).

Definition session_check (s : WorkerSession) : bool :=
  scope_ok (s_scope s)
  && ((1 <=? pg_length (s_hostname s)) && (pg_length (s_hostname s) <=? 255))
  && match_name 63 (s_worker_group s)
  && ((1 <=? s_concurrency_limit s) && (s_concurrency_limit s <=? 256))%Z
  && (length (s_capabilities s) <=? 64)
  && ((1 <=? length (s_supported_job_types s)) && (length (s_supported_job_types s) <=? 64))
  && (s_registered_at s <=? s_last_heartbeat_at s)%Z
  && match s_ended_at s with None => true | Some t => (s_registered_at s <=? t)%Z end.

Definition times_consistent (a : Attempt) : bool :=
  match a_status a with
  | AttemptLeased => is_None_b (a_started_at a) && is_None_b (a_finished_at a)
  | AttemptRunning => is_Some_b (a_started_at a) && is_None_b (a_finished_at a)
  | AttemptSucceeded | AttemptFailed | AttemptTimedOut =>
    is_Some_b (a_started_at a) && is_Some_b (a_finished_at a)
  | AttemptCanceled | AttemptAbandoned => is_Some_b (a_finished_at a)
  end.

Definition attempt_check (a : Attempt) : bool :=
  scope_ok (a_scope a) && (0 <? a_number a)%Z && times_consistent a
  && match a_started_at a with None => true | Some t => (a_created_at a <=? t)%Z end
  && match a_finished_at a, a_started_at a with
     | Some f, Some s => (s <=? f)%Z
     | _, _ => true
     end
  && match a_failure_class a with Some (ClassOther _) => false | _ => true end
  && match a_error_code a with None => true | Some c => match_name 63 c end
  && match a_error_message a with
     | None => true
     | Some m => (String.length m <=? 512) && pg_no_cntrl m
     end
  && match a_retry_delay_ms a, a_retry_at a with
     | None, None => true
     | Some d, Some _ => (0 <=? d)%Z
     | _, _ => false
     end
  && match a_timeout_at a with
     | None => true
     | Some t => match a_started_at a with Some s => (s <? t)%Z | None => false end
     end.

Definition lease_check (l : Lease) : bool :=
  scope_ok (l_scope l)
  && (l_acquired_at l <? l_expires_at l)%Z
  && (if bool_decide (l_status l = LeaseActive)
      then is_None_b (l_released_at l) else is_Some_b (l_released_at l))
  && ((l_acquired_at l <=? l_renewed_at l) && (l_renewed_at l <? l_expires_at l))%Z
  && match l_released_at l with None => true | Some t => (l_acquired_at l <=? t)%Z end
  && (((l_renewal_version l =? 0)%Z && is_None_b (l_last_renewal_request_id l))
      || ((0 <? l_renewal_version l)%Z && is_Some_b (l_last_renewal_request_id l))).

Definition result_check (r : ResultRow) : bool :=
  scope_ok (rs_scope r) && (0 <=? rs_size_bytes r)%Z
  && match rs_checksum r with None => true | Some c => is_hex64 c end
  && match rs_location r with
     | LocationInline => is_Some_b (rs_inline_body r) && is_None_b (rs_object_bucket r)
                         && is_None_b (rs_object_key r) && is_None_b (rs_checksum r)
     | LocationObject => is_None_b (rs_inline_body r) && is_Some_b (rs_object_bucket r)
                         && is_Some_b (rs_object_key r) && is_Some_b (rs_checksum r)
     | LocationOther _ => false
     end.

(** A session counts as current while it is STARTING, HEALTHY or DRAINING. *)
Definition isCurrentSessionStatus (s : SessionStatus) : bool :=
  bool_decide (s = SessionStarting ∨ s = SessionHealthy ∨ s = SessionDraining).

Definition job_is (d : DB) (id : uuid) (p : Job → bool) : bool :=
  match jobs d !! id with Some j => p j | None => false end.

(** The result of checking one row against the constraints of its table: the
    CHECKs, then the unique indexes other than the primary key, then the
    foreign keys. *)
Definition pg_verdict (checks unique fk : bool) : option pgcode :=
  if negb checks then Some check_violation
  else if negb unique then Some unique_violation
  else if negb fk then Some foreign_key_violation
  else None.

Definition job_constraints (d : DB) (id : uuid) (j : Job) : option pgcode :=
  pg_verdict (job_check id j) true
    (is_Some_b (queues d !! j_queue j)
     && match j_replayed_from j with
        | None => true
        | Some o => job_is d o (λ j', bool_decide (j_scope j' = j_scope j))
        end).

Definition idem_constraints (d : DB) (k : string * string) (i : IdempotencyRecord)
    : option pgcode :=
  pg_verdict
    ((1 <=? pg_length k.2) && (pg_length k.2 <=? 255) && is_hex64 (i_fingerprint i)) true
    (is_Some_b (jobs d !! i_job_id i)).

Definition event_constraints (d : DB) (id : uuid) (e : OutboxEvent) : option pgcode :=
  pg_verdict (event_check e) true
    (match e_job_id e with None => true | Some j => is_Some_b (jobs d !! j) end).

Definition worker_constraints (d : DB) (id : uuid) (w : Worker) : option pgcode :=
  pg_verdict (worker_check w)
    (negb (map_any (λ k w', negb (bool_decide (k = id))
       && bool_decide (wk_scope w' = wk_scope w ∧ wk_name w' = wk_name w)) (workers d)))
    true.

Definition session_constraints (d : DB) (id : uuid) (s : WorkerSession) : option pgcode :=
  pg_verdict (session_check s)
    (negb (isCurrentSessionStatus (s_status s) &&
       map_any (λ k s', negb (bool_decide (k = id)) && isCurrentSessionStatus (s_status s')
         && bool_decide (s_worker_id s' = s_worker_id s)) (worker_sessions d)))
    (match workers d !! s_worker_id s with
     | Some w => bool_decide (wk_scope w = s_scope s)
     | None => false
     end).

Definition session_is (d : DB) (sid wid : uuid) (scope : string) : bool :=
  match worker_sessions d !! sid with
  | Some s => bool_decide (s_worker_id s = wid ∧ s_scope s = scope)
  | None => false
  end.

Definition attempt_constraints (d : DB) (id : uuid) (a : Attempt) : option pgcode :=
  pg_verdict (attempt_check a)
    (negb (map_any (λ k a', negb (bool_decide (k = id)) &&
       (bool_decide (a_job_id a' = a_job_id a ∧ a_number a' = a_number a)
        || (is_Some_b (a_outcome_request_id a)
            && bool_decide (a_outcome_request_id a' = a_outcome_request_id a))))
       (job_attempts d)))
    (job_is d (a_job_id a) (λ j, bool_decide (j_scope j = a_scope a ∧ j_queue j = a_queue a))
     && session_is d (a_session_id a) (a_worker_id a) (a_scope a)).

Definition lease_conflict (l l' : Lease) : bool :=
  bool_decide (l_attempt_id l' = l_attempt_id l)
  || bool_decide (l_claim_request_id l' = l_claim_request_id l)
  || (bool_decide (l_status l = LeaseActive) && bool_decide (l_status l' = LeaseActive)
      && bool_decide (l_job_id l' = l_job_id l))
  || (is_Some_b (l_last_renewal_request_id l)
      && bool_decide (l_last_renewal_request_id l' = l_last_renewal_request_id l)).

Definition attempt_binding (d : DB) (l : Lease) : bool :=
  match job_attempts d !! l_attempt_id l with
  | Some a => bool_decide (a_job_id a = l_job_id l ∧ a_scope a = l_scope l
      ∧ a_queue a = l_queue l ∧ a_worker_id a = l_worker_id l
      ∧ a_session_id a = l_session_id l)
  | None => false
  end.

Definition lease_constraints (d : DB) (id : uuid) (l : Lease) : option pgcode :=
  pg_verdict (lease_check l)
    (negb (map_any (λ k l', negb (bool_decide (k = id)) && lease_conflict l l') (leases d)))
    (job_is d (l_job_id l) (λ j, bool_decide (j_scope j = l_scope l ∧ j_queue j = l_queue l))
     && session_is d (l_session_id l) (l_worker_id l) (l_scope l)
     && attempt_binding d l).

Definition dlq_constraints (d : DB) (id : uuid) (e : DLQEntry) : option pgcode :=
  pg_verdict (scope_ok (d_scope e) && match d_reason e with ReasonOther _ => false | _ => true end)
    (negb (map_any (λ k e', negb (bool_decide (k = id))
       && bool_decide (d_job_id e' = d_job_id e)) (dlq_entries d)))
    (job_is d (d_job_id e) (λ j, bool_decide (j_scope j = d_scope e ∧ j_queue j = d_queue e))
     && match d_terminal_attempt_id e with
        | None => true
        | Some aid =>
          match job_attempts d !! aid with
          | Some a => bool_decide (a_job_id a = d_job_id e ∧ a_scope a = d_scope e
                        ∧ a_queue a = d_queue e)
          | None => false
          end
        end).

Definition replay_constraints (d : DB) (k : string * uuid * string) (r : DLQReplay)
    : option pgcode :=
  let '(scope, original, key) := k in
  pg_verdict
    (scope_ok scope && (1 <=? pg_length key) && (pg_length key <=? 255)
     && negb (bool_decide (r_replacement_job_id r = original)))
    (negb (map_any (λ k' r', negb (bool_decide (k' = k))
       && bool_decide (r_replacement_job_id r' = r_replacement_job_id r)) (dlq_replays d)))
    (job_is d original (λ j, bool_decide (j_scope j = scope))
     && job_is d (r_replacement_job_id r)
          (λ j, bool_decide (j_scope j = scope ∧ j_replayed_from j = Some original))).

Definition result_constraints (d : DB) (job_id : uuid) (r : ResultRow) : option pgcode :=
  pg_verdict (result_check r) true
    (job_is d job_id (λ j, bool_decide (j_scope j = rs_scope r))
     && is_Some_b (job_attempts d !! rs_attempt_id r)).

(** ** The table interface *)

(** What a statement needs of a table: its rows, how to replace them, and the
    constraints of a row. *)
Class Table (K V : Type) `{Countable K} := {
  tget : DB → gmap K V;
  tput : gmap K V → DB → DB;
  tcheck : DB → K → V → option pgcode;
  tget_tput : ∀ m d, tget (tput m d) = m;
}.

#[export] Program Instance jobs_table : Table uuid Job :=
  {| tget := jobs; tput m d := d <| jobs := m |>; tcheck := job_constraints |}.
Next Obligation. done. Qed.
#[export] Program Instance idem_table : Table (string * string) IdempotencyRecord :=
  {| tget := idempotency_records; tput m d := d <| idempotency_records := m |>;
     tcheck := idem_constraints |}.
Next Obligation. done. Qed.
#[export] Program Instance outbox_table : Table uuid OutboxEvent :=
  {| tget := outbox_events; tput m d := d <| outbox_events := m |>;
     tcheck := event_constraints |}.
Next Obligation. done. Qed.
#[export] Program Instance workers_table : Table uuid Worker :=
  {| tget := workers; tput m d := d <| workers := m |>; tcheck := worker_constraints |}.
Next Obligation. done. Qed.
#[export] Program Instance sessions_table : Table uuid WorkerSession :=
  {| tget := worker_sessions; tput m d := d <| worker_sessions := m |>;
     tcheck := session_constraints |}.
Next Obligation. done. Qed.
#[export] Program Instance attempts_table : Table uuid Attempt :=
  {| tget := job_attempts; tput m d := d <| job_attempts := m |>;
     tcheck := attempt_constraints |}.
Next Obligation. done. Qed.
#[export] Program Instance leases_table : Table uuid Lease :=
  {| tget := leases; tput m d := d <| leases := m |>; tcheck := lease_constraints |}.
Next Obligation. done. Qed.
#[export] Program Instance dlq_table : Table uuid DLQEntry :=
  {| tget := dlq_entries; tput m d := d <| dlq_entries := m |>; tcheck := dlq_constraints |}.
Next Obligation. done. Qed.
#[export] Program Instance replays_table : Table (string * uuid * string) DLQReplay :=
  {| tget := dlq_replays; tput m d := d <| dlq_replays := m |>;
     tcheck := replay_constraints |}.
Next Obligation. done. Qed.
#[export] Program Instance results_table : Table uuid ResultRow :=
  {| tget := results; tput m d := d <| results := m |>; tcheck := result_constraints |}.
Next Obligation. done. Qed.

(** ** The world a statement runs in

    [clock] gives the successive readings of the PostgreSQL clock (no order is
    assumed between them), [uuids] the successive results of [uuid.New] (no
    freshness is assumed: a repeated id hits a primary key), [samples] the
    successive draws of the jitter source, [jsonb] the text PostgreSQL gives back
    for a JSON document it can store (it refuses some, such as those with an
    escaped NUL), [arch] the machine's answer to a float to
    integer conversion that is out of range, and [uuid_String] and [uuid_Parse]
    the text of a uuid and its reading by github.com/google/uuid. *)
Record World := mkWorld {
  db : DB;
  clock : nat → time;
  reads : nat;
  txstart : time;
  uuids : nat → uuid;
  drawn : nat;
  samples : nat → f64;
  sampled : nat;
  jsonb : string → option string;
  arch : f64 → Z;
  uuid_String : uuid → string;
  uuid_Parse : string → option uuid;
}.

#[export] Instance eta_World : Eta World := λ r,
  mkWorld (db r) (clock r) (reads r) (txstart r) (uuids r) (drawn r) (samples r)
    (sampled r) (jsonb r) (arch r) (uuid_String r) (uuid_Parse r).

Abbreviation Tx := (M World error).

(** [SELECT clock_timestamp()]: the clock when it is asked. *)
Definition clock_timestamp : Tx time := λ w,
  (Ok (timestamptz (clock w (reads w))), w <| reads := S (reads w) |>).

(** [now()]: the start of the transaction. *)
Definition now_tx : Tx time := λ w, (Ok (txstart w), w).

Definition begin_tx (w : World) : World :=
  w <| txstart := timestamptz (clock w (reads w)) |> <| reads := S (reads w) |>.

Definition uuid_New : Tx uuid := λ w, (Ok (uuids w (drawn w)), w <| drawn := S (drawn w) |>).

Definition jitter_Float64 : Tx f64 := λ w,
  (Ok (samples w (sampled w)), w <| sampled := S (sampled w) |>).

Definition to_jsonb (s : string) : Tx string := λ w,
  match jsonb w s with
  | Some t => (Ok t, w)
  | None => (Err (ErrPg untranslatable_character), w)
  end.

Definition uuid_text (u : uuid) : Tx string := λ w, (Ok (uuid_String w u), w).

Definition get_arch : Tx (f64 → Z) := λ w, (Ok (arch w), w).

Definition get_db : Tx DB := λ w, (Ok (db w), w).

(** ** Transactions

    The body says whether it reached [Commit]; a body that returns without it,
    or with an error, is rolled back by the deferred [Rollback]. *)
Definition commit {A} (a : A) : Tx (bool * A) := mret (true, a).
Definition no_commit {A} (a : A) : Tx (bool * A) := mret (false, a).

Definition transaction {A} (body : Tx (bool * A)) : Tx A := λ w,
  match body (begin_tx w) with
  | (Ok (true, a), w') => (Ok a, w')
  | (Ok (false, a), w') => (Ok a, w' <| db := db w |>)
  | (Err e, w') => (Err e, w' <| db := db w |>)
  end.

(** [errors.As(err, &pgErr) && pgErr.Code == "23505"], answered with [e]. *)
Definition on_unique_violation {A} (e : error) (m : Tx A) : Tx A := λ w,
  match m w with
  | (Err (ErrPg unique_violation), w') => (Err e, w')
  | r => r
  end.

(** [errors.Is(err, e)], answered with [a]. *)
Definition on_fence_rejected {A} (a : A) (m : Tx A) : Tx A := λ w,
  match m w with
  | (Err ErrFenceRejected, w') => (Ok a, w')
  | r => r
  end.

(** ** Statements *)
Section statements.
Context {K V : Type} `{Table K V}.

(** [SELECT ... WHERE <primary key> = k]. *)
Definition sql_get (k : K) : Tx (option V) := λ w, (Ok (tget (db w) !! k), w).

(** [INSERT INTO ... VALUES ...]. *)
Definition sql_insert (k : K) (v : V) : Tx unit := λ w,
  match tget (db w) !! k with
  | Some _ => (Err (ErrPg unique_violation), w)
  | None =>
    match tcheck (db w) k v with
    | Some c => (Err (ErrPg c), w)
    | None => (Ok tt, w <| db := tput (<[k:=v]> (tget (db w))) (db w) |>)
    end
  end.

(** [INSERT ... ON CONFLICT (<primary key>) DO NOTHING RETURNING ...]:
    whether the row was inserted. *)
Definition sql_insert_or_nothing (k : K) (v : V) : Tx bool := λ w,
  match tget (db w) !! k with
  | Some _ => (Ok false, w)
  | None =>
    match tcheck (db w) k v with
    | Some c => (Err (ErrPg c), w)
    | None => (Ok true, w <| db := tput (<[k:=v]> (tget (db w))) (db w) |>)
    end
  end.

(** [UPDATE ... SET f WHERE <primary key> = k AND p RETURNING ...]: the row
    written, or no row. *)
Definition sql_update (k : K) (p : V → bool) (f : V → V) : Tx (option V) := λ w,
  match tget (db w) !! k with
  | Some v =>
    if p v then
      match tcheck (db w) k (f v) with
      | Some c => (Err (ErrPg c), w)
      | None => (Ok (Some (f v)), w <| db := tput (<[k:=f v]> (tget (db w))) (db w) |>)
      end
    else (Ok None, w)
  | None => (Ok None, w)
  end.

Lemma sql_get_ok k w r w' :
  sql_get k w = (Ok r, w') ↔ r = tget (db w) !! k ∧ w' = w.
Proof. unfold sql_get. naive_solver. Qed.

Lemma sql_insert_ok k v w u w' :
  sql_insert k v w = (Ok u, w') →
  tget (db w) !! k = None ∧ tcheck (db w) k v = None ∧
  w' = w <| db := tput (<[k:=v]> (tget (db w))) (db w) |>.
Proof. unfold sql_insert. repeat case_match; naive_solver. Qed.

Lemma sql_insert_or_nothing_ok k v w b w' :
  sql_insert_or_nothing k v w = (Ok b, w') →
  (b = false ∧ is_Some (tget (db w) !! k) ∧ w' = w) ∨
  (b = true ∧ tget (db w) !! k = None ∧ tcheck (db w) k v = None ∧
   w' = w <| db := tput (<[k:=v]> (tget (db w))) (db w) |>).
Proof. unfold sql_insert_or_nothing. repeat case_match; naive_solver. Qed.

Lemma sql_update_ok k p f w r w' :
  sql_update k p f w = (Ok r, w') →
  (r = None ∧ w' = w ∧ ∀ v, tget (db w) !! k = Some v → p v = false) ∨
  (∃ v, tget (db w) !! k = Some v ∧ p v = true ∧ tcheck (db w) k (f v) = None ∧
    r = Some (f v) ∧ w' = w <| db := tput (<[k:=f v]> (tget (db w))) (db w) |>).
Proof. unfold sql_update. repeat case_match; naive_solver. Qed.
End statements.

(** A loop over the rows a statement or a scan returned. *)
Fixpoint for_each {A S} (f : S → A → Tx S) (s : S) (l : list A) : Tx S :=
  match l with
  | [] => mret s
  | x :: l' => s' ← f s x; for_each f s' l'
  end.

(** ** What every operation may assume of the others: its effect on the database

    [effects R m]: whatever [m] returns, the database it leaves is [R]-related to
    the one it found. *)
Definition effects {A} (R : relation DB) (m : Tx A) : Prop :=
  ∀ w r w', m w = (r, w') → R (db w) (db w').

Section effects.
Context (R : relation DB).

(** A transaction's effect is that of its committed runs. *)
Lemma effects_transaction `{!Reflexive R} {A} (body : Tx (bool * A)) :
  (∀ w a w', body w = (Ok (true, a), w') → R (db w) (db w')) →
  effects R (transaction body).
Proof.
  intros Hb w r w'. unfold transaction.
  destruct (body (begin_tx w)) as [[[[] a]|e] w1] eqn:Hrun; intros; simplify_eq/=.
  - apply Hb in Hrun. done.
  - done.
  - done.
Qed.

Lemma effects_read `{!Reflexive R} {A} (m : Tx A) :
  (∀ w, db (m w).2 = db w) → effects R m.
Proof. intros Hm w r w' Hrun. specialize (Hm w). rewrite Hrun in Hm. simpl in Hm. by rewrite Hm. Qed.

Lemma effects_bind `{!Transitive R} {A B} (m : Tx A) (f : A → Tx B) :
  effects R m → (∀ a, effects R (f a)) → effects R (m ≫= f).
Proof.
  intros Hm Hf w r w'. unfold mbind, M_bind.
  destruct (m w) as [[a|e] w1] eqn:Hrun; intros Heq.
  - etrans; [by eapply Hm | by eapply Hf].
  - simplify_eq. by eapply Hm.
Qed.

Lemma effects_ret `{!Reflexive R} {A} (a : A) : effects R (mret a).
Proof. intros w r w'. unfold mret, M_ret. naive_solver. Qed.

Lemma effects_throw `{!Reflexive R} {A} e : effects R (throw e : Tx A).
Proof. intros w r w'. unfold throw. naive_solver. Qed.

Lemma effects_for_each `{!PreOrder R} {A S} (f : S → A → Tx S) l s :
  (∀ s x, effects R (f s x)) → effects R (for_each f s l).
Proof.
  intros Hf. revert s. induction l as [|x l IH]; intros s; simpl.
  - apply effects_ret.
  - apply effects_bind; auto.
Qed.
End effects.

(** The effect of [transaction], seen from a successful or failed run. *)
Lemma transaction_ok {A} (body : Tx (bool * A)) w a w' :
  transaction body w = (Ok a, w') →
  ∃ b w1, body (begin_tx w) = (Ok (b, a), w1) ∧
    w' = if b then w1 else w1 <| db := db w |>.
Proof.
  unfold transaction. destruct (body (begin_tx w)) as [[[[] a']|e] w1]; naive_solver.
Qed.

Lemma transaction_err {A} (body : Tx (bool * A)) w e w' :
  transaction body w = (Err e, w') → db w' = db w.
Proof.
  unfold transaction. destruct (body (begin_tx w)) as [[[[] a']|e'] w1]; naive_solver.
Qed.

(** ** Inverting runs of the statements *)

Lemma to_jsonb_run s w t : jsonb w s = Some t → to_jsonb s w = (Ok t, w).
Proof. unfold to_jsonb. by intros ->. Qed.

Lemma to_jsonb_ok s w t w' : to_jsonb s w = (Ok t, w') → jsonb w s = Some t ∧ w' = w.
Proof. unfold to_jsonb. destruct (jsonb w s); naive_solver. Qed.

Ltac sql_inv1 :=
  match goal with
  | H : sql_get _ _ = (Ok _, _) |- _ => apply sql_get_ok in H; simpl in H
  | H : sql_insert _ _ _ = (Ok _, _) |- _ => apply sql_insert_ok in H; simpl in H
  | H : sql_insert_or_nothing _ _ _ = (Ok _, _) |- _ =>
    apply sql_insert_or_nothing_ok in H; simpl in H
  | H : sql_update _ _ _ _ = (Ok _, _) |- _ => apply sql_update_ok in H; simpl in H
  | H : clock_timestamp _ = (Ok _, _) |- _ => unfold clock_timestamp in H
  | H : now_tx _ = (Ok _, _) |- _ => unfold now_tx in H
  | H : uuid_New _ = (Ok _, _) |- _ => unfold uuid_New in H
  | H : jitter_Float64 _ = (Ok _, _) |- _ => unfold jitter_Float64 in H
  | H : to_jsonb _ _ = (Ok _, _) |- _ => apply to_jsonb_ok in H
  | H : uuid_text _ _ = (Ok _, _) |- _ => unfold uuid_text in H
  | H : get_db _ = (Ok _, _) |- _ => unfold get_db in H
  | H : get_arch _ = (Ok _, _) |- _ => unfold get_arch in H
  | H : commit _ _ = (Ok _, _) |- _ => unfold commit in H
  | H : no_commit _ _ = (Ok _, _) |- _ => unfold no_commit in H
  end.
Ltac sql_inv := repeat (run_inv1 || sql_inv1).

(** ** What a row passing its constraints says *)

Lemma pg_verdict_None c u f :
  pg_verdict c u f = None ↔ c = true ∧ u = true ∧ f = true.
Proof. unfold pg_verdict. destruct c, u, f; naive_solver. Qed.
