(* ===== verification/Lifecycle.v ===== *)
(** * Package lifecycle: failure policy

    internal/lifecycle/lifecycle.go and retry.go: the failure classes and
    dead-letter reasons, and the retry policy (validation, the bounded, jittered
    backoff delay, and the decision an attempt's outcome makes for its job). *)

From S2P Require Import Prelude.
From S2P Require Import GoText.
From S2P Require Import GoFloat.
From S2P Require Import Schema.
From Stdlib Require Import QArith Qround.

Module Class.
Definition Valid (c : FailureClass) : bool :=
  match c with
  | ClassRetryable | ClassPermanent | ClassTimedOut | ClassCanceled | ClassAbandoned => true
  | ClassOther _ => false
  end.

Definition ReportableByHandler (c : FailureClass) : bool :=
  bool_decide (c = ClassRetryable) || bool_decide (c = ClassPermanent).

Definition RetriesUnderPolicy (c : FailureClass) : bool :=
  bool_decide (c = ClassRetryable) || bool_decide (c = ClassTimedOut).
End Class.

Definition Reason_Valid (r : DLQReason) : bool :=
  bool_decide (r = ReasonPermanentFailure) || bool_decide (r = ReasonAttemptsExhausted).

(** ** Error codes and messages *)

Definition MaxErrorCodeBytes : nat := 64.
Definition MaxErrorMessageBytes : nat := 512.

Definition CodeHandlerError : string := "handler_error".
Definition CodeTimeout : string := "attempt_timeout".
Definition CodeCanceled : string := "canceled".
Definition CodeAbandoned : string := "attempt_abandoned".

Definition MessageHandlerError : string := "the trusted handler reported an error".
Definition MessageTimeout : string :=
  "the attempt exceeded its per-attempt execution deadline".
Definition MessageCanceled : string := "the job was canceled".
Definition MessageAbandoned : string :=
  "the worker lost authority without reporting an outcome".

(** [ValidateErrorCode]; [None] is a valid code, otherwise the problem. *)
Definition ValidateErrorCode (c : string) : option string :=
  if bool_decide (c = ""%string) then Some "error code is required"%string
  else if (MaxErrorCodeBytes <? String.length c)%nat
  then Some "error code must be at most 64 bytes"%string
  else if negb (match_name 63 c)
  then Some "error code must match ^[a-z0-9][a-z0-9_.-]{0,63}$"%string
  else None.

(** The first problem of a message's runes, in order. *)
Fixpoint message_problem (rs : list N) : option string :=
  match rs with
  | [] => None
  | r :: rs' =>
    if (r =? 10)%N || (r =? 13)%N then Some "error message must not contain line breaks"%string
    else if IsControl r then Some "error message must not contain control characters"%string
    else message_problem rs'
  end.

Definition ValidateErrorMessage (m : string) : option string :=
  if (MaxErrorMessageBytes <? String.length m)%nat
  then Some "error message must be at most 512 bytes"%string
  else message_problem (runes m).

(** ** The dead-letter entry *)

(** [InsertDLQEntryTx]: every path to DEAD_LETTERED inserts through it. *)
Definition InsertDLQEntryTx (scope queue : string) (jobID : uuid)
    (terminalAttemptID : option uuid) (reason : DLQReason) (createdAt : time) : Tx uuid :=
  if negb (Reason_Valid reason) then throw (ErrMsg "invalid dead-letter reason")
  else
    id ← uuid_New;
    on_unique_violation ErrDLQEntryExists
      (sql_insert id (mkDLQEntry scope queue jobID terminalAttemptID reason createdAt));;
    mret id.

(** ** The retry policy *)

Module RetryPolicy.
Record t := mk {
  Base : duration;
  Max : duration;
  Multiplier : f64;
  Jitter : f64;
}.

Definition isFinite (v : f64) : bool := negb (math_IsNaN v) && negb (math_IsInf v).

(** [Validate] collects every problem; an empty list is a valid policy. *)
Definition problems (p : t) : list string :=
  (if (Base p <=? 0)%Z then ["base delay must be positive"%string] else [])
  ++ (if (Max p <? Millisecond)%Z then ["maximum delay must be at least 1ms"%string]
      else if negb (Z.rem (Max p) Millisecond =? 0)%Z
      then ["maximum delay must be a whole number of milliseconds"%string] else [])
  ++ (if (Max p <? Base p)%Z
      then ["maximum delay must be at least the base delay"%string] else [])
  ++ (if negb (isFinite (Multiplier p)) then ["multiplier must be a finite number"%string]
      else if f64_lt (Multiplier p) f64_1 then ["multiplier must be at least 1"%string]
      else [])
  ++ (if negb (isFinite (Jitter p)) then ["jitter must be a finite number"%string]
      else if f64_lt (Jitter p) f64_0 || f64_lt f64_1 (Jitter p)
      then ["jitter must be between 0 and 1"%string] else []).

Definition Validate (p : t) : bool := bool_decide (problems p = []).

Definition maxDelayMillis : Z := (MaxInt64 / Millisecond)%Z.

Definition capMillis (max : duration) : Z :=
  if (max <=? 0)%Z then 1
  else
    let ms := Z.quot max Millisecond in
    if (ms <? 1)%Z then 1
    else if (maxDelayMillis <? ms)%Z then maxDelayMillis
    else ms.

Definition quantizeNanos (arch : f64 → Z) (nanos : f64) (max : duration) : duration :=
  let capMs := capMillis max in
  if math_IsNaN nanos then 0%Z
  else if math_IsInf_pos nanos then (capMs * Millisecond)%Z
  else if f64_le nanos f64_0 then 0%Z
  else
    let ms := math_Ceil (f64_div nanos (f64_of_Z Millisecond)) in
    let ms := if f64_lt ms f64_1 then f64_1 else ms in
    if f64_le (f64_of_Z capMs) ms then (capMs * Millisecond)%Z
    else (f64_to_int64 arch ms * Millisecond)%Z.

(** The sample read from the injected source, forced into its [0, 1) contract. *)
Definition clampSample (sample : f64) : f64 :=
  let sample := if isFinite sample then sample else f64_0 in
  let sample := if f64_lt sample f64_0 then f64_0 else sample in
  if f64_le f64_1 sample then Nextafter_1_0 else sample.

(** [Delay(attemptNumber, jitter)]; [sample] is what the jitter source returns,
    [None] for a nil source. *)
Definition Delay (arch : f64 → Z) (p : t) (attemptNumber : Z) (sample : option f64)
    : duration :=
  let attemptNumber := if (attemptNumber <? 1)%Z then 1%Z else attemptNumber in
  let base := if (Base p <=? 0)%Z then Second else Base p in
  let multiplier := if f64_lt (Multiplier p) f64_1 then f64_1 else Multiplier p in
  let max := if (Max p <? base)%Z then base else Max p in
  let growth := math_Pow multiplier (attemptNumber - 1) in
  let delay := f64_mul (f64_of_Z base) growth in
  let delay := if math_IsNaN delay || math_IsInf delay || f64_lt (f64_of_Z max) delay
               then f64_of_Z max else delay in
  let delay :=
    match sample with
    | Some sample =>
      if isFinite (Jitter p) && f64_lt f64_0 (Jitter p) then
        let fraction := if f64_lt f64_1 (Jitter p) then f64_1 else Jitter p in
        let sample := clampSample sample in
        f64_mul delay
          (f64_add f64_1 (f64_mul fraction (f64_sub (f64_mul f64_2 sample) f64_1)))
      else delay
    | None => delay
    end in
  let delay := if f64_lt delay f64_0 then f64_0 else delay in
  quantizeNanos arch delay max.

Record Decision := mkDecision {
  Retry : bool;
  DecisionDelay : duration;
  DeadLetterReason : DLQReason;
}.

(** [Decide], with the zero [Decision]'s empty reason on a retry. *)
Definition Decide (arch : f64 → Z) (p : t) (class : FailureClass)
    (attemptNumber attemptsUsed maxAttempts : Z) (sample : option f64)
    : result error Decision :=
  match class with
  | ClassPermanent => Ok (mkDecision false 0 ReasonPermanentFailure)
  | ClassRetryable | ClassTimedOut =>
    if (attemptsUsed <? maxAttempts)%Z
    then Ok (mkDecision true (Delay arch p attemptNumber sample) (ReasonOther ""))
    else Ok (mkDecision false 0 ReasonAttemptsExhausted)
  | ClassAbandoned =>
    if (attemptsUsed <? maxAttempts)%Z
    then Ok (mkDecision true 0 (ReasonOther ""))
    else Ok (mkDecision false 0 ReasonAttemptsExhausted)
  | ClassCanceled | ClassOther _ => Err (ErrMsg "failure class has no retry decision")
  end.

(** ** The whole-millisecond delay is bounded by Max on every machine *)

#[local] Ltac Zify.zify_post_hook ::= Z.to_euclidean_division_equations.

Lemma capMillis_bounds max : (1 ≤ capMillis max ≤ maxDelayMillis)%Z.
Proof.
  unfold capMillis, maxDelayMillis, MaxInt64, Millisecond.
  repeat case_match; bools; lia.
Qed.

Lemma capMillis_exact max :
  (Millisecond ≤ max ≤ MaxInt64)%Z → Z.rem max Millisecond = 0%Z →
  (capMillis max * Millisecond = max)%Z.
Proof.
  intros [Hlo Hhi] Hrem. pose proof (Z.quot_rem' max Millisecond) as Hqr.
  rewrite Hrem in Hqr. unfold capMillis, maxDelayMillis, Millisecond, MaxInt64 in *.
  repeat case_match; bools; lia.
Qed.

Lemma capMillis_le max : (0 < max)%Z → (Millisecond ≤ max)%Z →
  (capMillis max * Millisecond ≤ max)%Z.
Proof.
  intros H0 Hlo. pose proof (Z.quot_rem' max Millisecond) as Hqr.
  pose proof (Z.rem_bound_pos max Millisecond) as Hr.
  unfold capMillis, maxDelayMillis, Millisecond, MaxInt64 in *.
  repeat case_match; bools; lia.
Qed.

(** A number between one and below the cap converts to an int64 between one
    and the cap, without leaving the range of the conversion. *)
Lemma to_int64_below arch ms c :
  f64_nonneg ms → (1 ≤ c ≤ maxDelayMillis)%Z →
  f64_lt ms f64_1 = false → f64_le (f64_of_Z c) ms = false →
  ∃ q, f64_Q ms = Some q ∧ f64_to_int64 arch ms = Qfloor q ∧ (1 ≤ Qfloor q ≤ c)%Z.
Proof.
  intros Hms Hc H1 Hle.
  assert (maxDelayMillis < 2 ^ 53)%Z as Hmax by done.
  destruct (f64_of_Z_Q c) as (qc & Hqc & Ec); [lia|].
  destruct (f64_of_Z_Q 1) as (q1 & Hq1 & E1); [lia|].
  destruct Hms as [->|[->|(m & e & ->)]]; [done| |].
  { exfalso. destruct (f64_of_Z_exact c) as (mc & ec & Ecc & _); [lia|].
    rewrite Ecc in Hle. done. }
  set (q := f64_pair false m e) in *.
  assert (f64_Q (S754_finite false m e) = Some q) as Hq by done.
  assert (1 <= q)%Q as Hge.
  { rewrite <-E1. apply Qnot_lt_le. intros Hlt.
    apply (f64_lt_compare _ _ _ _ Hq Hq1) in Hlt. unfold f64_1 in H1. congruence. }
  assert (q < inject_Z c)%Q as Hlt.
  { rewrite <-Ec. apply Qnot_le_lt. intros Hle'.
    apply (f64_le_compare _ _ _ _ Hqc Hq) in Hle'. congruence. }
  exists q. split; [done|].
  assert (1 ≤ Qfloor q)%Z as Hf1.
  { change 1%Z with (Qfloor 1). by apply Qfloor_resp_le. }
  assert (Qfloor q ≤ c)%Z as Hf2.
  { rewrite <-(Qfloor_Z c). apply Qfloor_resp_le. by apply Qlt_le_weak. }
  split; [|done]. unfold f64_to_int64. rewrite Hq.
  assert (Qle_bool 0 q = true) as ->.
  { apply Qle_bool_iff. by apply (Qle_trans _ 1). }
  assert (((MinInt64 <=? Qfloor q) && (Qfloor q <=? MaxInt64))%Z = true) as ->.
  { apply andb_true_iff. split; apply Z.leb_le;
      unfold MinInt64, maxDelayMillis, MaxInt64, Millisecond in *; lia. }
  done.
Qed.

(** What reaches the conversion in [quantizeNanos]. *)
Lemma quantize_ms nanos :
  math_IsNaN nanos = false → math_IsInf_pos nanos = false →
  f64_le nanos f64_0 = false →
  f64_nonneg (math_Ceil (f64_div nanos (f64_of_Z Millisecond))).
Proof.
  intros Hn Hi Hle. apply math_Ceil_nonneg.
  destruct nanos as [s|[]| |[] m e]; try done.
  { exfalso. apply not_true_iff_false in Hle. apply Hle.
    apply (f64_le_compare _ _ (f64_pair true m e) 0); [done..|].
    unfold f64_pair, Qle, inject_Z. destruct (Z.leb_spec 0 e); simpl; [|lia].
    pose proof (Z.pow_nonneg 2 e). nia. }
  destruct (f64_of_Z_exact Millisecond) as (m2 & e2 & -> & _); [done|].
  apply f64_div_pos.
Qed.

Lemma quantize_spec arch nanos max :
  let q := quantizeNanos arch nanos max in
  ∃ ms, q = (ms * Millisecond)%Z ∧ (0 ≤ ms ≤ capMillis max)%Z ∧
    ((ms = 0)%Z ↔ math_IsNaN nanos || f64_le nanos f64_0 = true) ∧
    ∀ arch', quantizeNanos arch' nanos max = q.
Proof.
  pose proof (capMillis_bounds max) as Hcap. unfold quantizeNanos.
  destruct (math_IsNaN nanos) eqn:Hn; [exists 0%Z; simpl; naive_solver lia|].
  destruct (math_IsInf_pos nanos) eqn:Hi.
  { exists (capMillis max). destruct nanos as [|[]| |]; try done. simpl. naive_solver lia. }
  destruct (f64_le nanos f64_0) eqn:H0; [exists 0%Z; simpl; naive_solver lia|].
  pose proof (quantize_ms nanos Hn Hi H0) as Hms.
  set (ms0 := math_Ceil _) in *. clearbody ms0.
  set (ms := if f64_lt ms0 f64_1 then f64_1 else ms0).
  assert (f64_nonneg ms ∧ f64_lt ms f64_1 = false) as [Hnn H1].
  { subst ms. destruct (f64_lt ms0 f64_1) eqn:Hlt; [|done].
    split; [|done]. right; right. eexists _, _. reflexivity. }
  clearbody ms. destruct (f64_le (f64_of_Z (capMillis max)) ms) eqn:Hle.
  { exists (capMillis max). simpl. naive_solver lia. }
  destruct (to_int64_below arch ms _ Hnn Hcap H1 Hle) as (q & Hq & Hto & Hb).
  exists (Qfloor q). rewrite Hto. simpl. split; [done|]. split; [lia|].
  split; [naive_solver lia|]. intros arch'.
  destruct (to_int64_below arch' ms _ Hnn Hcap H1 Hle) as (q' & Hq' & Hto' & _).
  congruence.
Qed.

(** The delay of any policy, on any sample: a whole number of milliseconds
    within [0, capMillis], the same on every machine. *)
Lemma Delay_spec arch p n sample :
  ∃ ms, Delay arch p n sample = (ms * Millisecond)%Z ∧
    (0 ≤ ms)%Z ∧
    (ms ≤ capMillis (let base := if (Base p <=? 0)%Z then Second else Base p in
                     if (Max p <? base)%Z then base else Max p))%Z ∧
    ∀ arch', Delay arch' p n sample = Delay arch p n sample.
Proof.
  unfold Delay.
  match goal with |- context [quantizeNanos arch ?x ?m] =>
    destruct (quantize_spec arch x m) as (ms & Hq & Hms & _ & Ha); exists ms end.
  repeat split; [done|lia|lia|done].
Qed.

Lemma Validate_bounds p :
  Validate p = true →
  (0 < Base p ≤ Max p)%Z ∧ (Millisecond ≤ Max p)%Z ∧ Z.rem (Max p) Millisecond = 0%Z.
Proof.
  unfold Validate. intros H. apply bool_decide_eq_true_1 in H. unfold problems in H.
  destruct (Base p <=? 0)%Z eqn:E1; [done|]. destruct (Max p <? Millisecond)%Z eqn:E2; [done|].
  destruct (negb (Z.rem (Max p) Millisecond =? 0)%Z) eqn:E3; [done|].
  destruct (Max p <? Base p)%Z eqn:E4; [done|]. bools. lia.
Qed.
End RetryPolicy.
