(* ===== verification/Outbox.v ===== *)
(** * Package outbox: the transactional outbox

    internal/outbox/store.go and event.go: events written inside the
    transaction that makes a job eligible, claimed in due order with a
    visibility timeout, marked published, or backed off. *)

From S2P Require Import Prelude.
From S2P Require Import GoText.
From S2P Require Import GoJson.
From S2P Require Import GoFloat.
From S2P Require Import Schema.
From S2P Require Import Lifecycle.

Definition EventWorkAvailable : string := "work.available".
Definition WorkAvailableSchemaVersion : Z := 1.

(** [json.Marshal(WorkAvailableData{Queue: queue, JobID: jobID.String()})]. *)
Definition work_available_data (queue jobID : string) : string :=
  ("{" ++ append_string true "queue" ++ ":" ++ append_string true queue ++ ","
   ++ append_string true "job_id" ++ ":" ++ append_string true jobID ++ "}")%string.

Record TraceContext := mkTrace { Traceparent : string; Tracestate : string }.

(** The traceparent and tracestate columns: both set together or neither. *)
Definition trace_columns (trace : option TraceContext) : option string * option string :=
  match trace with
  | Some t =>
    if bool_decide (Traceparent t = ""%string) then (None, None)
    else (Some (Traceparent t),
          if bool_decide (Tracestate t = ""%string) then None else Some (Tracestate t))
  | None => (None, None)
  end.

Definition InsertWorkAvailableTx (jobID : uuid) (queue : string) (generation : Z)
    (trace : option TraceContext) : Tx uuid :=
  if (generation <? 1)%Z
  then throw (ErrMsg "work.available notification generation must be at least 1")
  else
    id ← uuid_New;
    text ← uuid_text jobID;
    raw ← to_jsonb (work_available_data queue text);
    now ← now_tx;
    let '(traceparent, tracestate) := trace_columns trace in
    sql_insert id (mkEvent EventWorkAvailable WorkAvailableSchemaVersion raw (Some jobID)
      (Some generation) EventPending 0 now None None None traceparent tracestate now);;
    mret id.

(** The events of a job's generation still waiting to be published. *)
Definition pending_for (jobID : uuid) (generation : Z) (_ : uuid) (e : OutboxEvent) : bool :=
  bool_decide (e_job_id e = Some jobID ∧ e_generation e = Some generation
    ∧ e_status e = EventPending).

Definition HasPendingWorkAvailableTx (jobID : uuid) (generation : Z) : Tx bool :=
  d ← get_db; mret (map_any (pending_for jobID generation) (outbox_events d)).

(** [make_interval(secs => d.Seconds())], to the microsecond. *)
Definition make_interval (d : duration) : duration := ((d + 500) / 1000 * 1000)%Z.

(** Lexicographic [ORDER BY] on the remaining keys. *)
Definition then_by (c : comparison) (rest : bool) : bool :=
  match c with Lt => true | Gt => false | Eq => rest end.

Definition due_event (now : time) (_ : uuid) (e : OutboxEvent) : bool :=
  bool_decide (e_status e = EventPending) && (e_available_at e <=? now)%Z.

(** [ORDER BY available_at, id]. *)
Definition event_order (x y : uuid * OutboxEvent) : bool :=
  then_by (Z.compare (e_available_at x.2) (e_available_at y.2)) (x.1 <=? y.1)%N.

(** The row a claim hands to the publisher. *)
Record Event := mkOutEvent {
  ev_id : uuid; ev_type : string; ev_schema_version : Z; ev_data : string;
  ev_trace : option TraceContext; ev_attempts : Z; ev_created_at : time }.

Definition scan_event (id : uuid) (e : OutboxEvent) : Event :=
  mkOutEvent id (e_type e) (e_schema_version e) (e_payload e)
    (match e_traceparent e with
     | Some p => Some (mkTrace p (default ""%string (e_tracestate e)))
     | None => None
     end)
    (e_attempts e) (e_created_at e).

Definition claim_event (now : time) (claimTimeout : duration) (e : OutboxEvent) : OutboxEvent :=
  e <| e_attempts := (e_attempts e + 1)%Z |> <| e_claimed_at := Some now |>
    <| e_available_at := (now + make_interval claimTimeout)%Z |>.

(** One statement: the due rows in order, each updated and returned. *)
Definition ClaimDue (limit : nat) (claimTimeout : duration) : Tx (list Event) :=
  transaction (
    now ← now_tx;
    d ← get_db;
    let due := take limit (map_select (due_event now) event_order (outbox_events d)) in
    events ← for_each (λ acc kv,
        r ← sql_update kv.1 (λ _, true) (claim_event now claimTimeout);
        mret (match r with Some e => acc ++ [scan_event kv.1 e] | None => acc end))
      [] due;
    commit events).

Definition event_pending (e : OutboxEvent) : bool := bool_decide (e_status e = EventPending).

Definition MarkPublished (id : uuid) : Tx bool :=
  transaction (
    now ← now_tx;
    r ← sql_update id event_pending (λ e,
      e <| e_status := EventPublished |> <| e_published_at := Some now |>
        <| e_last_error := None |>);
    commit (is_Some_b r)).

Definition maxStoredError : nat := 1000.

Definition RecordFailure (id : uuid) (cause : string) (retryAfter : duration) : Tx unit :=
  transaction (
    now ← now_tx;
    let cause := if (maxStoredError <? String.length cause)%nat
                 then String.substring 0 maxStoredError cause else cause in
    sql_update id event_pending (λ e,
      e <| e_last_error := Some cause |>
        <| e_available_at := (now + make_interval retryAfter)%Z |>);;
    commit tt).

Definition PendingCount : Tx nat :=
  d ← get_db; mret (map_count (λ _, event_pending) (outbox_events d)).

Definition ReleaseClaim (id : uuid) : Tx unit :=
  transaction (
    now ← now_tx;
    sql_update id event_pending (λ e, e <| e_available_at := now |>);;
    commit tt).
