(* ===== verification/GoBytes.v ===== *)
(** * Bytes: SHA-256, UTF-8, base64

    Go's crypto/sha256, encoding/hex, unicode/utf8 and base64.RawURLEncoding on byte strings, as the
    fingerprints, credential hashes, checksums and page cursors use them: 32-bit words as
    [Z], with the wrap-around written out. *)

From S2P Require Import Prelude.
From S2P Require Import GoText.
From S2P Require Import GoJson.

Local Open Scope Z_scope.

Definition w32 (x : Z) : Z := Z.land x 4294967295.
Definition add32 (x y : Z) : Z := w32 (x + y).
Definition rotr (n x : Z) : Z := Z.lor (Z.shiftr x n) (w32 (Z.shiftl x (32 - n))).
Definition ch (x y z : Z) : Z := Z.lxor (Z.land x y) (Z.land (Z.lxor x 4294967295) z).
Definition maj (x y z : Z) : Z := Z.lxor (Z.lxor (Z.land x y) (Z.land x z)) (Z.land y z).
Definition bsig0 (x : Z) : Z := Z.lxor (Z.lxor (rotr 2 x) (rotr 13 x)) (rotr 22 x).
Definition bsig1 (x : Z) : Z := Z.lxor (Z.lxor (rotr 6 x) (rotr 11 x)) (rotr 25 x).
Definition ssig0 (x : Z) : Z := Z.lxor (Z.lxor (rotr 7 x) (rotr 18 x)) (Z.shiftr x 3).
Definition ssig1 (x : Z) : Z := Z.lxor (Z.lxor (rotr 17 x) (rotr 19 x)) (Z.shiftr x 10).

(** The standard's tables: the first 32 bits of the fractional parts of the cube
    roots of the first 64 primes, and of the square roots of the first 8. *)
Definition is_prime (n : Z) : bool :=
  forallb (λ d, negb (n mod d =? 0)) (map Z.of_nat (seq 2 (Z.to_nat (Z.sqrt n) - 1))).

Definition primes (count : nat) : list Z :=
  take count (List.filter is_prime (map Z.of_nat (seq 2 310))).

(** The integer cube root, bit by bit from the top. *)
Fixpoint cube_root (bits : nat) (acc n : Z) : Z :=
  match bits with
  | O => acc
  | S b =>
    let next := acc + Z.shiftl 1 (Z.of_nat b) in
    cube_root b (if next * next * next <=? n then next else acc) n
  end.

Definition round_constants : list Z :=
  Eval vm_compute in map (λ p, w32 (cube_root 40 0 (Z.shiftl p 96))) (primes 64).

Definition initial_state : list Z :=
  Eval vm_compute in map (λ p, w32 (Z.sqrt (Z.shiftl p 64))) (primes 8).

(** The message schedule, built backwards: [ws] holds the words so far, newest
    first. *)
Fixpoint schedule (n : nat) (ws : list Z) : list Z :=
  match n with
  | O => ws
  | S n' =>
    let at_ i := nth i ws 0 in
    schedule n'
      (add32 (add32 (ssig1 (at_ 1%nat)) (at_ 6%nat)) (add32 (ssig0 (at_ 14%nat)) (at_ 15%nat)) :: ws)
  end.

Definition compress_round (st : list Z) (kw : Z * Z) : list Z :=
  match st with
  | [a; b; c; d; e; f; g; h] =>
    let t1 := add32 (add32 (add32 h (bsig1 e)) (add32 (ch e f g) kw.1)) kw.2 in
    let t2 := add32 (bsig0 a) (maj a b c) in
    [add32 t1 t2; a; b; c; add32 d t1; e; f; g]
  | _ => st
  end.

Definition compress (st : list Z) (block : list Z) : list Z :=
  let ws := rev (schedule 48 (rev block)) in
  zip_with add32 st (fold_left compress_round (zip round_constants ws) st).

(** *** Bytes, words, blocks *)
Definition bytes_of (s : string) : list Z := map (λ c, Z.of_N (code c)) (String.list_ascii_of_string s).

Fixpoint words_of (bs : list Z) : list Z :=
  match bs with
  | b0 :: b1 :: b2 :: b3 :: rest =>
    (b0 * 16777216 + b1 * 65536 + b2 * 256 + b3) :: words_of rest
  | _ => []
  end.

Fixpoint be_bytes (n : nat) (x : Z) : list Z :=
  match n with O => [] | S n' => be_bytes n' (Z.shiftr x 8) ++ [Z.land x 255] end.

Definition pad (bs : list Z) : list Z :=
  let len := Z.of_nat (length bs) in
  bs ++ 128 :: repeat 0 (Z.to_nat ((55 - len) mod 64)) ++ be_bytes 8 (len * 8).

Fixpoint blocks (fuel : nat) (ws : list Z) : list (list Z) :=
  match fuel, ws with
  | S fuel', _ :: _ => take 16 ws :: blocks fuel' (drop 16 ws)
  | _, _ => []
  end.

(** [sha256.Sum256], the digest's bytes. *)
Definition sum256 (s : string) : list Z :=
  let ws := words_of (pad (bytes_of s)) in
  concat (map (be_bytes 4) (fold_left compress (blocks (length ws) ws) initial_state)).

(** *** Hexadecimal *)
Definition hex_digit (n : Z) : ascii :=
  ascii_of_N (Z.to_N (if n <? 10 then 48 + n else 87 + n)).

Fixpoint hex_EncodeToString (bs : list Z) : string :=
  match bs with
  | [] => EmptyString
  | b :: bs' => String (hex_digit (Z.shiftr b 4)) (String (hex_digit (Z.land b 15)) (hex_EncodeToString bs'))
  end.

Definition sha256_hex (s : string) : string := hex_EncodeToString (sum256 s).

Example sha256_hello :
  sha256_hex "hello world" = "b94d27b9934d3e08a52e52d7da7dabfac484efe37a5380ee9088f7ace2efcde9"%string.
Proof. vm_compute. reflexivity. Qed.

(** ** UTF-8 is a code

    Decoding what [encode_rune] writes gives the rune back, and every rune that
    decoding produces is a Unicode scalar value. *)

Local Open Scope N_scope.
#[local] Ltac Zify.zify_post_hook ::= Z.to_euclidean_division_equations.

(** Unicode scalar values. *)
Definition scalar (r : N) : Prop := r < 55296 ∨ 57344 ≤ r < 1114112.

Lemma code_ascii n : n < 256 → code (ascii_of_N n) = n.
Proof. intros. by apply N_ascii_embedding. Qed.

Lemma code_bound c : code c < 256.
Proof. apply N_ascii_bounded. Qed.

Lemma ascii_code c : ascii_of_N (code c) = c.
Proof. apply ascii_N_embedding. Qed.

Lemma low6_mod c : low6 c = code c mod 64.
Proof. unfold low6. change 63 with (N.ones 6). by rewrite N.land_ones. Qed.

Lemma between_spec lo hi c : between lo hi c = true ↔ lo ≤ code c ≤ hi.
Proof. unfold between. rewrite andb_true_iff, !N.leb_le. done. Qed.

Lemma cont_spec c : cont c = true ↔ 128 ≤ code c ≤ 191.
Proof. apply between_spec. Qed.

(** Decide the boolean comparisons of a goal by arithmetic. *)
Ltac nbool :=
  repeat match goal with
  | |- context [(?a <? ?b)%N] =>
      first [rewrite (proj2 (N.ltb_lt a b)) by lia | rewrite (proj2 (N.ltb_ge a b)) by lia]
  | |- context [(?a =? ?b)%N] =>
      first [rewrite (proj2 (N.eqb_eq a b)) by lia | rewrite (proj2 (N.eqb_neq a b)) by lia]
  | |- context [(?a <=? ?b)%N] =>
      first [rewrite (proj2 (N.leb_le a b)) by lia | rewrite (proj2 (N.leb_gt a b)) by lia]
  end.

Lemma land_ones_mod a n m : m = N.ones n → N.land a m = a mod 2 ^ n.
Proof. intros ->. apply N.land_ones. Qed.

Lemma decode_encode r t :
  scalar r → decode_rune (encode_rune r ++ t) = (r, String.length (encode_rune r)).
Proof.
  intros Hr. unfold scalar in Hr. unfold encode_rune.
  destruct (r <? 128) eqn:H1; [|destruct (r <? 2048) eqn:H2; [|destruct (r <? 65536) eqn:H3]].
  all: repeat match goal with
    | H : (_ <? _) = true |- _ => apply N.ltb_lt in H
    | H : (_ <? _) = false |- _ => apply N.ltb_ge in H end.
  all: rewrite ?append_cons, ?append_nil; cbn [decode_rune String.length];
    unfold cont, between; rewrite ?low6_mod, ?code_ascii by lia.
  - nbool. done.
  - rewrite (land_ones_mod _ 5 31) by reflexivity. change (2 ^ 5) with 32.
    nbool. simpl. f_equal. lia.
  - rewrite (land_ones_mod _ 4 15) by reflexivity. change (2 ^ 4) with 16.
    destruct (N.eq_dec (r / 4096) 0) as [E|E]; [|destruct (N.eq_dec (r / 4096) 13) as [E'|E']].
    all: nbool; simpl; f_equal; lia.
  - rewrite (land_ones_mod _ 3 7) by reflexivity. change (2 ^ 3) with 8.
    destruct (N.eq_dec (r / 262144) 0) as [E|E]; [|destruct (N.eq_dec (r / 262144) 4) as [E'|E']].
    all: nbool; simpl; f_equal; lia.
Qed.

Lemma encode_cons r : ∃ c s, encode_rune r = String c s.
Proof. unfold encode_rune. repeat case_match; eauto. Qed.

Lemma decode_scalar s : scalar (decode_rune s).1.
Proof.
  unfold scalar, decode_rune, RuneError.
  destruct s as [|b0 [|b1 [|b2 [|b3 s]]]]; simpl.
  all: repeat case_match; simpl; try lia.
  all: rewrite ?low6_mod, ?(land_ones_mod _ 5 31), ?(land_ones_mod _ 4 15),
    ?(land_ones_mod _ 3 7) by reflexivity.
  all: repeat match goal with
    | H : _ && _ = true |- _ => apply andb_true_iff in H as [? ?]
    | H : between _ _ _ = true |- _ => apply between_spec in H
    | H : cont _ = true |- _ => apply cont_spec in H
    | H : (_ <? _)%N = true |- _ => apply N.ltb_lt in H
    | H : (_ =? _)%N = true |- _ => apply N.eqb_eq in H
    | H : (_ =? _)%N = false |- _ => apply N.eqb_neq in H end.
  all: change (2 ^ 5) with 32; change (2 ^ 4) with 16; change (2 ^ 3) with 8.
  all: lia.
Qed.

(** ** Strings of scalar values *)

Definition encode_runes (rs : list N) : string := String.concat "" (map encode_rune rs).

(** Well-formed UTF-8. *)
Definition utf8_valid (s : string) : Prop := ∃ rs, Forall scalar rs ∧ s = encode_runes rs.

Lemma encode_runes_cons r rs : encode_runes (r :: rs) = (encode_rune r ++ encode_runes rs)%string.
Proof. apply concat_empty_cons. Qed.

Lemma take_drop_append s t :
  take_string (String.length s) (s ++ t) = s ∧ drop_string (String.length s) (s ++ t) = t.
Proof. induction s as [|c s [IH1 IH2]]; [destruct t; done|]. simpl. rewrite IH1, IH2. done. Qed.

Lemma segments_encode rs :
  Forall scalar rs → segments (encode_runes rs) = map (λ r, (r, encode_rune r)) rs.
Proof.
  unfold segments. intros Hrs.
  enough (∀ fuel, (String.length (encode_runes rs) ≤ fuel)%nat →
    segments_fuel fuel (encode_runes rs) = map (λ r, (r, encode_rune r)) rs) by auto.
  induction Hrs as [|r rs Hr Hrs IH]; intros fuel Hf; [by destruct fuel|].
  rewrite encode_runes_cons in *. rewrite length_append in Hf.
  destruct (encode_cons r) as (c & s & He).
  destruct fuel as [|fuel]; [rewrite He in Hf; simpl in Hf; lia|].
  assert (encode_rune r ++ encode_runes rs = String c (s ++ encode_runes rs))%string as Hs
    by (rewrite He; done).
  cbn [map]. rewrite Hs. cbn [segments_fuel]. rewrite <-Hs, decode_encode by done.
  destruct (take_drop_append (encode_rune r) (encode_runes rs)) as [-> ->].
  f_equal. apply IH. rewrite He in Hf. simpl in Hf. lia.
Qed.

(** ** base64.RawURLEncoding

    Go's unpadded URL-safe base64, as the page cursors use it.  The decoder
    skips line ends and does not look at the unused low bits of the last
    character. *)

Local Open Scope N_scope.
#[local] Ltac Zify.zify_post_hook ::= Z.to_euclidean_division_equations.

Definition b64_char (n : N) : ascii :=
  ascii_of_N (if n <? 26 then 65 + n else if n <? 52 then 71 + n
              else if n <? 62 then n - 4 else if n =? 62 then 45 else 95).

Definition b64_value (c : ascii) : option N :=
  let n := code c in
  if (65 <=? n) && (n <=? 90) then Some (n - 65)
  else if (97 <=? n) && (n <=? 122) then Some (n - 71)
  else if (48 <=? n) && (n <=? 57) then Some (n + 4)
  else if n =? 45 then Some 62
  else if n =? 95 then Some 63
  else None.

(** Three bytes to four characters; one or two bytes at the end to two or three. *)
Fixpoint b64_encode (s : string) : string :=
  match s with
  | EmptyString => EmptyString
  | String a EmptyString =>
    let x := code a in
    String (b64_char (x / 4)) (String (b64_char (x mod 4 * 16)) EmptyString)
  | String a (String b EmptyString) =>
    let x := code a in let y := code b in
    String (b64_char (x / 4)) (String (b64_char (x mod 4 * 16 + y / 16))
      (String (b64_char (y mod 16 * 4)) EmptyString))
  | String a (String b (String c r)) =>
    let x := code a in let y := code b in let z := code c in
    String (b64_char (x / 4)) (String (b64_char (x mod 4 * 16 + y / 16))
      (String (b64_char (y mod 16 * 4 + z / 64)) (String (b64_char (z mod 64)) (b64_encode r))))
  end.

(** The values of the characters, line ends left out. *)
Fixpoint b64_values (s : string) : option (list N) :=
  match s with
  | EmptyString => Some []
  | String c s' =>
    if (code c =? 10) || (code c =? 13) then b64_values s'
    else v ← b64_value c; vs ← b64_values s'; Some (v :: vs)
  end.

Fixpoint b64_groups (vs : list N) : option string :=
  let byte n := ascii_of_N (n mod 256) in
  match vs with
  | [] => Some EmptyString
  | [_] => None
  | [a; b] => Some (String (byte (a * 4 + b / 16)) EmptyString)
  | [a; b; c] =>
    Some (String (byte (a * 4 + b / 16)) (String (byte (b mod 16 * 16 + c / 4)) EmptyString))
  | a :: b :: c :: d :: r =>
    s ← b64_groups r;
    Some (String (byte (a * 4 + b / 16)) (String (byte (b mod 16 * 16 + c / 4))
      (String (byte (c mod 4 * 64 + d)) s)))
  end.

Definition b64_decode (s : string) : option string := vs ← b64_values s; b64_groups vs.

(** ** Round trip *)

Lemma b64_value_char n : n < 64 → b64_value (b64_char n) = Some n.
Proof.
  intros Hn. unfold b64_char, b64_value.
  destruct (n <? 26) eqn:H1; [apply N.ltb_lt in H1|apply N.ltb_ge in H1; destruct (n <? 52) eqn:H2;
    [apply N.ltb_lt in H2|apply N.ltb_ge in H2; destruct (n <? 62) eqn:H3;
      [apply N.ltb_lt in H3|apply N.ltb_ge in H3; destruct (n =? 62) eqn:H4;
        [apply N.eqb_eq in H4|apply N.eqb_neq in H4]]]];
    rewrite code_ascii by lia; nbool; simpl; f_equal; lia.
Qed.

Lemma b64_char_line_end n : n < 64 → (code (b64_char n) =? 10) || (code (b64_char n) =? 13) = false.
Proof.
  intros Hn. unfold b64_char. repeat case_match;
    repeat match goal with
    | H : (_ <? _) = true |- _ => apply N.ltb_lt in H
    | H : (_ <? _) = false |- _ => apply N.ltb_ge in H
    | H : (_ =? _) = true |- _ => apply N.eqb_eq in H
    | H : (_ =? _) = false |- _ => apply N.eqb_neq in H end;
    rewrite code_ascii by lia; nbool; done.
Qed.

Lemma b64_values_cons n s : n < 64 →
  b64_values (String (b64_char n) s) = vs ← b64_values s; Some (n :: vs).
Proof. intros Hn. cbn [b64_values]. by rewrite b64_char_line_end, b64_value_char. Qed.

(** The six-bit values of a byte string. *)
Fixpoint sextets (s : string) : list N :=
  match s with
  | EmptyString => []
  | String a EmptyString => [code a / 4; code a mod 4 * 16]
  | String a (String b EmptyString) =>
    [code a / 4; code a mod 4 * 16 + code b / 16; code b mod 16 * 4]
  | String a (String b (String c r)) =>
    [code a / 4; code a mod 4 * 16 + code b / 16; code b mod 16 * 4 + code c / 64; code c mod 64]
    ++ sextets r
  end.

(** Induction three bytes at a time. *)
Lemma string_ind3 (P : string → Prop) :
  P EmptyString → (∀ a, P (String a EmptyString)) → (∀ a b, P (String a (String b EmptyString))) →
  (∀ a b c s, P s → P (String a (String b (String c s)))) → ∀ s, P s.
Proof.
  intros H0 H1 H2 H3. fix IH 1. intros [|a [|b [|c s]]]; [apply H0|apply H1|apply H2|].
  apply H3, IH.
Qed.

Lemma b64_values_encode s : b64_values (b64_encode s) = Some (sextets s).
Proof.
  induction s as [|a|a b|a b c s IH] using string_ind3; [done|..];
    pose proof (code_bound a); try pose proof (code_bound b); try pose proof (code_bound c).
  all: cbn [b64_encode sextets]; rewrite !b64_values_cons by lia; rewrite ?IH; done.
Qed.

Lemma byte_code n c : n mod 256 = code c → ascii_of_N (n mod 256) = c.
Proof. intros ->. apply ascii_code. Qed.

Lemma b64_groups_sextets s : b64_groups (sextets s) = Some s.
Proof.
  induction s as [|a|a b|a b c s IH] using string_ind3; [done|..];
    pose proof (code_bound a); try pose proof (code_bound b); try pose proof (code_bound c).
  - cbn [sextets b64_groups]. by rewrite (byte_code _ a) by lia.
  - cbn [sextets b64_groups]. by rewrite (byte_code _ a), (byte_code _ b) by lia.
  - cbn [sextets b64_groups app]. rewrite IH. cbn [mbind option_bind].
    by rewrite (byte_code _ a), (byte_code _ b), (byte_code _ c) by lia.
Qed.

Lemma b64_decode_encode s : b64_decode (b64_encode s) = Some s.
Proof. unfold b64_decode. rewrite b64_values_encode. apply b64_groups_sextets. Qed.

