(* ===== verification/GoTime.v ===== *)
(** * Instants as text

    Go's [time.Time.UTC().Format(time.RFC3339Nano)] on instants counted in
    nanoseconds from 1970-01-01T00:00:00Z, in the proleptic Gregorian calendar,
    and decimal numbers as [strconv.Itoa] writes them. *)

From S2P Require Import Prelude.
From S2P Require Import GoText.

Local Open Scope Z_scope.

(** *** Decimal digits *)
Definition digit (n : Z) : ascii := ascii_of_N (Z.to_N (48 + n)).

(** [n] in decimal, at least [width] digits, padded with zeros. *)
Fixpoint padded (width : nat) (n : Z) : string :=
  match width with
  | O => EmptyString
  | S w => String.append (padded w (n / 10)) (String (digit (n mod 10)) EmptyString)
  end.

Fixpoint itoa_aux (fuel : nat) (n : Z) : string :=
  match fuel with
  | O => EmptyString
  | S f =>
    String.append (if n <? 10 then EmptyString else itoa_aux f (n / 10))
      (String (digit (n mod 10)) EmptyString)
  end.

(** [strconv.Itoa]; an int has at most 19 digits. *)
Definition Itoa (n : Z) : string :=
  if n <? 0 then String "-" (itoa_aux 20 (- n)) else itoa_aux 20 n.

(** *** The calendar *)

(** Days from 1970-01-01 to a civil date, and back (eras of 400 years starting
    on 1 March). *)
Definition days_from_civil (y m d : Z) : Z :=
  let y := if m <=? 2 then y - 1 else y in
  let era := y / 400 in
  let yoe := y - era * 400 in
  let mp := (m + 9) mod 12 in
  let doy := (153 * mp + 2) / 5 + d - 1 in
  let doe := yoe * 365 + yoe / 4 - yoe / 100 + doy in
  era * 146097 + doe - 719468.

Definition civil_from_days (z : Z) : Z * Z * Z :=
  let z := z + 719468 in
  let era := z / 146097 in
  let doe := z - era * 146097 in
  let yoe := (doe - doe / 1460 + doe / 36524 - doe / 146096) / 365 in
  let y := yoe + era * 400 in
  let doy := doe - (365 * yoe + yoe / 4 - yoe / 100) in
  let mp := (5 * doy + 2) / 153 in
  let d := doy - (153 * mp + 2) / 5 + 1 in
  let m := if mp <? 10 then mp + 3 else mp - 9 in
  (if m <=? 2 then y + 1 else y, m, d).

(** *** RFC 3339 *)

(** Drop the trailing zeros of a fraction. *)
Fixpoint rtrim_zeros (s : string) : string :=
  match s with
  | EmptyString => EmptyString
  | String c s' =>
    match rtrim_zeros s' with
    | EmptyString => if Ascii.eqb c "0" then EmptyString else String c EmptyString
    | t => String c t
    end
  end.

Definition format_fraction (ns : Z) : string :=
  if ns =? 0 then EmptyString else String "." (rtrim_zeros (padded 9 ns)).

(** [appendInt(b, year, 4)]: four digits, or more where the year has more, after a sign
    where it is negative. *)
Definition year_digits (u : Z) : string := if u <? 10000 then padded 4 u else itoa_aux 20 u.
Definition append_year (y : Z) : string :=
  if y <? 0 then String "-" (year_digits (- y)) else year_digits y.

Definition format_RFC3339Nano (t : Z) : string :=
  let secs := t / 1000000000 in
  let ns := t mod 1000000000 in
  let days := secs / 86400 in
  let sod := secs mod 86400 in
  let '(y, m, d) := civil_from_days days in
  String.concat ""
    [append_year y; "-"; padded 2 m; "-"; padded 2 d; "T";
     padded 2 (sod / 3600); ":"; padded 2 (sod / 60 mod 60); ":"; padded 2 (sod mod 60);
     format_fraction ns; "Z"]%string.

Example format_known :
  format_RFC3339Nano 1767323045120000000 = "2026-01-02T03:04:05.12Z"%string.
Proof. vm_compute. reflexivity. Qed.

Example format_far :
  format_RFC3339Nano 253402304399000000000 = "10000-01-01T00:59:59Z"%string
  ∧ format_RFC3339Nano (-62198755200000000000) = "-0001-01-01T00:00:00Z"%string.
Proof. vm_compute. done. Qed.

(** *** Reading RFC 3339

    [time.Parse] with the layouts [time.RFC3339] and [time.RFC3339Nano], which
    accept the same texts: a fraction of a second is optional in both. *)

Definition digit_val (c : ascii) : Z := Z.of_N (code c) - 48.

(** [getnum]: two digits, or one where the layout does not fix the width. *)
Definition getnum (fixed : bool) (s : string) : option (Z * string) :=
  match s with
  | String a r =>
    if negb (is_digit a) then None
    else
      let one := if fixed then None else Some (digit_val a, r) in
      match r with
      | String b r' =>
        if is_digit b then Some (10 * digit_val a + digit_val b, r') else one
      | EmptyString => one
      end
  | EmptyString => None
  end.

(** A number in a range, then a literal byte. *)
Definition getfield (fixed : bool) (lo hi : Z) (s : string) : option (Z * string) :=
  '(n, r) ← getnum fixed s;
  if (lo <=? n) && (n <=? hi) then Some (n, r) else None.

Definition expect (c : ascii) (s : string) : option string :=
  match s with
  | String a r => if Ascii.eqb a c then Some r else None
  | EmptyString => None
  end.

Definition getyear (s : string) : option (Z * string) :=
  match s with
  | String a (String b (String c (String d r))) =>
    if is_digit a && is_digit b && is_digit c && is_digit d
    then Some (1000 * digit_val a + 100 * digit_val b + 10 * digit_val c + digit_val d, r)
    else None
  | _ => None
  end.

(** The value of a run of digits. *)
Fixpoint atoi_acc (acc : Z) (s : string) : Z :=
  match s with
  | String c s' => atoi_acc (10 * acc + digit_val c) s'
  | EmptyString => acc
  end.

(** A fraction after the seconds, cut to nine digits. *)
Definition parse_fraction (s : string) : Z * string :=
  match s with
  | String p r =>
    match digits r with
    | (EmptyString, _) => (0, s)
    | (ds, r') =>
      if Ascii.eqb p "." || Ascii.eqb p "," then
        let ds := take_string 9 ds in
        (atoi_acc 0 ds * 10 ^ (9 - Z.of_nat (String.length ds)), r')
      else (0, s)
    end
  | EmptyString => (0, s)
  end.

(** [Z], or a signed offset; the offset in seconds. *)
Definition parse_zone (s : string) : option (Z * string) :=
  match s with
  | String "Z" r => Some (0, r)
  | String sign r =>
    '(hr, r) ← getnum true r;
    r ← expect ":" r;
    '(mm, r) ← getnum true r;
    if (24 <? hr) || (60 <? mm) then None
    else
      let off := (hr * 60 + mm) * 60 in
      if Ascii.eqb sign "+" then Some (off, r)
      else if Ascii.eqb sign "-" then Some (- off, r)
      else None
  | EmptyString => None
  end.

Definition is_leap (y : Z) : bool :=
  (y mod 4 =? 0) && (negb (y mod 100 =? 0) || (y mod 400 =? 0)).

Definition daysIn (m y : Z) : Z :=
  if m =? 2 then if is_leap y then 29 else 28
  else if (m =? 4) || (m =? 6) || (m =? 9) || (m =? 11) then 30 else 31.

(** The instant of a civil date and time of day in UTC. *)
Definition instant (y m d hh mi ss ns : Z) : Z :=
  (((days_from_civil y m d * 24 + hh) * 60 + mi) * 60 + ss) * 1000000000 + ns.

(** What follows the year [y]. *)
Definition parse_after_year (y : Z) (s : string) : option Z :=
  s ← expect "-" s;
  '(m, s) ← getfield true 1 12 s;
  s ← expect "-" s;
  '(d, s) ← getnum true s;
  s ← expect "T" s;
  '(hh, s) ← getfield false 0 23 s;
  s ← expect ":" s;
  '(mi, s) ← getfield true 0 59 s;
  s ← expect ":" s;
  '(ss, s) ← getfield true 0 59 s;
  let '(ns, s) := parse_fraction s in
  '(off, s) ← parse_zone s;
  match s with
  | EmptyString =>
    if (1 <=? d) && (d <=? daysIn m y)
    then Some (instant y m d hh mi ss ns - off * 1000000000) else None
  | _ => None
  end.

Definition parse_RFC3339 (s : string) : option Z :=
  '(y, s) ← getyear s; parse_after_year y s.

Example parse_known :
  parse_RFC3339 "2026-01-02T05:34:05.120+02:30" = Some 1767323045120000000
  ∧ parse_RFC3339 "2026-02-29T00:00:00Z" = None.
Proof. vm_compute. done. Qed.

(** ** RFC 3339 round trip

    [time.Parse] reads back what [Time.Format(time.RFC3339Nano)] writes, for
    every instant of the years 0 to 9999, to the nanosecond. *)

Local Open Scope Z_scope.
#[local] Ltac Zify.zify_post_hook ::= Z.to_euclidean_division_equations.

(** ** The calendar

    The Gregorian calendar repeats every 146097 days, 400 years; one period is
    checked day by day. *)

(** A day of the period: the date it gets is a date, and leads back to it. *)
Definition doe_ok (doe : Z) : bool :=
  let yoe := (doe - doe / 1460 + doe / 36524 - doe / 146096) / 365 in
  let doy := doe - (365 * yoe + yoe / 4 - yoe / 100) in
  let mp := (5 * doy + 2) / 153 in
  let d := doy - (153 * mp + 2) / 5 + 1 in
  let m := if mp <? 10 then mp + 3 else mp - 9 in
  let y := if m <=? 2 then yoe + 1 else yoe in
  (0 <=? yoe) && (yoe <=? 399) && (1 <=? m) && (m <=? 12) && (1 <=? d) && (d <=? daysIn m y)
  && (yoe * 365 + yoe / 4 - yoe / 100 + ((153 * ((m + 9) mod 12) + 2) / 5 + d - 1) =? doe).

Fixpoint all_from (n : nat) (z : Z) : bool :=
  match n with O => true | S n' => doe_ok z && all_from n' (z + 1) end.

Lemma all_from_spec n z x : all_from n z = true → z ≤ x < z + Z.of_nat n → doe_ok x = true.
Proof.
  revert z. induction n as [|n IH]; intros z H Hx; [lia|]. simpl in H. bools.
  destruct (Z.eq_dec x z) as [->|]; [done|]. apply (IH (z + 1)); [done|lia].
Qed.

Lemma doe_all_ok doe : 0 ≤ doe < 146097 → doe_ok doe = true.
Proof.
  intros H. apply (all_from_spec (Z.to_nat 146097) 0); [vm_compute; reflexivity|].
  rewrite Z2Nat.id; lia.
Qed.

Lemma is_leap_period y k : is_leap (y + k * 400) = is_leap y.
Proof.
  unfold is_leap. replace ((y + k * 400) mod 4) with (y mod 4) by lia.
  replace ((y + k * 400) mod 100) with (y mod 100) by lia.
  by replace ((y + k * 400) mod 400) with (y mod 400) by lia.
Qed.

Lemma daysIn_period m y k : daysIn m (y + k * 400) = daysIn m y.
Proof. unfold daysIn. by rewrite is_leap_period. Qed.

(** The date of a day is a date of the calendar, and the day is its day. *)
Lemma civil_from_days_spec z y m d :
  civil_from_days z = (y, m, d) →
  days_from_civil y m d = z ∧ 1 ≤ m ≤ 12 ∧ 1 ≤ d ≤ daysIn m y.
Proof.
  intros H. unfold civil_from_days in H.
  set (era := (z + 719468) / 146097) in H. set (doe := z + 719468 - era * 146097) in H.
  assert (0 ≤ doe < 146097) as Hdoe by (unfold doe, era; lia).
  pose proof (doe_all_ok doe Hdoe) as Hok. unfold doe_ok in Hok.
  set (yoe := (doe - doe / 1460 + doe / 36524 - doe / 146096) / 365) in *.
  set (doy := doe - (365 * yoe + yoe / 4 - yoe / 100)) in *.
  set (mp := (5 * doy + 2) / 153) in *.
  set (d0 := doy - (153 * mp + 2) / 5 + 1) in *.
  set (m0 := if mp <? 10 then mp + 3 else mp - 9) in *.
  clearbody yoe doy mp d0 m0. bools. injection H as <- <- <-.
  assert (z = era * 146097 + doe - 719468) as Hz by (unfold doe; lia).
  clearbody era doe. split_and!; [|lia|lia|lia|].
  - unfold days_from_civil. destruct (m0 <=? 2) eqn:Hm; bools.
    + replace (yoe + era * 400 + 1 - 1) with (yoe + era * 400) by lia.
      replace ((yoe + era * 400) / 400) with era by lia.
      replace (yoe + era * 400 - era * 400) with yoe by lia. lia.
    + replace ((yoe + era * 400) / 400) with era by lia.
      replace (yoe + era * 400 - era * 400) with yoe by lia. lia.
  - destruct (m0 <=? 2).
    + replace (yoe + era * 400 + 1) with (yoe + 1 + era * 400) by lia. by rewrite daysIn_period.
    + by rewrite daysIn_period.
Qed.

(** The days of the years 0 to 9999. *)
Lemma civil_year_range z y m d :
  civil_from_days z = (y, m, d) → -719528 ≤ z < 2932897 → 0 ≤ y ≤ 9999.
Proof.
  intros H Hz. destruct (civil_from_days_spec _ _ _ _ H) as (Hd & Hm & Hdd). clear H.
  unfold days_from_civil in Hd.
  assert (daysIn m y ≤ 31) by (unfold daysIn; repeat case_match; lia).
  assert (0 ≤ (153 * ((m + 9) mod 12) + 2) / 5 + d - 1 ≤ 368) by lia.
  destruct (m <=? 2) eqn:E; bools; lia.
Qed.

(** ** Digits *)

Lemma code_digit n : 0 ≤ n < 10 → code (digit n) = Z.to_N (48 + n).
Proof. intros. apply N_ascii_embedding. lia. Qed.

Lemma digit_is_digit n : 0 ≤ n < 10 → is_digit (digit n) = true.
Proof.
  intros H. unfold is_digit, between. rewrite code_digit by done.
  apply andb_true_iff. split; apply N.leb_le; lia.
Qed.

Lemma digit_val_digit n : 0 ≤ n < 10 → digit_val (digit n) = n.
Proof. intros H. unfold digit_val. rewrite code_digit by done. lia. Qed.

Lemma padded_2 n : padded 2 n = String (digit (n / 10 mod 10)) (String (digit (n mod 10)) "").
Proof. done. Qed.

Lemma getnum_padded n r b : 0 ≤ n < 100 → getnum b (padded 2 n ++ r) = Some (n, r).
Proof.
  intros H. rewrite padded_2, !append_cons, append_nil. unfold getnum.
  rewrite !digit_is_digit, !digit_val_digit by lia. simpl. do 2 f_equal. lia.
Qed.

Lemma getfield_padded n r b lo hi :
  0 ≤ n < 100 → lo ≤ n ≤ hi → getfield b lo hi (padded 2 n ++ r) = Some (n, r).
Proof.
  intros H Hr. unfold getfield. rewrite getnum_padded by done. simpl.
  by rewrite (proj2 (Z.leb_le lo n)), (proj2 (Z.leb_le n hi)) by lia.
Qed.

Lemma getyear_padded n r : 0 ≤ n ≤ 9999 → getyear (padded 4 n ++ r) = Some (n, r).
Proof.
  intros H.
  assert (padded 4 n = String (digit (n / 10 / 10 / 10 mod 10)) (String (digit (n / 10 / 10 mod 10))
    (String (digit (n / 10 mod 10)) (String (digit (n mod 10)) "")))) as -> by done.
  rewrite !append_cons, append_nil. unfold getyear.
  rewrite !digit_is_digit, !digit_val_digit by lia. simpl. do 2 f_equal. lia.
Qed.

Lemma all_chars_append p s t : all_chars p (s ++ t) = all_chars p s && all_chars p t.
Proof. induction s as [|c s IH]; [done|]. rewrite append_cons. simpl. by rewrite IH, andb_assoc. Qed.

Lemma padded_digits w n : all_chars is_digit (padded w n) = true ∧ String.length (padded w n) = w.
Proof.
  revert n. induction w as [|w IH]; intros n; [done|]. simpl.
  destruct (IH (n / 10)) as [Ha Hl]. rewrite length_append, Hl. split; [|simpl; lia].
  rewrite all_chars_append, Ha. simpl. by rewrite digit_is_digit by lia.
Qed.

Lemma itoa_aux_digits f n : all_chars is_digit (itoa_aux f n) = true.
Proof.
  revert n. induction f as [|f IH]; intros n; [done|]. cbn [itoa_aux]. rewrite all_chars_append.
  simpl. rewrite digit_is_digit by lia. destruct (n <? 10); [done|]. by rewrite IH.
Qed.

Lemma year_digits_spec u : all_chars is_digit (year_digits u) = true.
Proof. unfold year_digits. case_match; [apply padded_digits|apply itoa_aux_digits]. Qed.

Lemma all_chars_year (p : ascii → bool) y :
  (∀ c, is_digit c = true → p c = true) → p "-"%char = true → all_chars p (append_year y) = true.
Proof.
  intros Hp Hm. assert (∀ s, all_chars is_digit s = true → all_chars p s = true) as Hall.
  { induction s as [|c s IH]; [done|]. simpl. intros [Hc Hs]%andb_true_iff. by rewrite Hp, IH. }
  unfold append_year. case_match; simpl; rewrite ?Hm; apply Hall, year_digits_spec.
Qed.

(** ** Fractions *)

Lemma atoi_append a s t : atoi_acc a (s ++ t) = atoi_acc (atoi_acc a s) t.
Proof. revert a. induction s as [|c s IH]; intros a; [done|]. rewrite append_cons. simpl. apply IH. Qed.

Lemma atoi_padded w n : 0 ≤ n → atoi_acc 0 (padded w n) = n mod 10 ^ Z.of_nat w.
Proof.
  revert n. induction w as [|w IH]; intros n Hn; [simpl; by rewrite Z.mod_1_r|].
  cbn [padded]. rewrite atoi_append, IH by lia. simpl atoi_acc.
  rewrite digit_val_digit by lia. rewrite Nat2Z.inj_succ, Z.pow_succ_r by lia.
  rewrite (Z.mul_comm 10 (10 ^ _)), (Z.mul_comm (10 ^ _) 10), Z.rem_mul_r by lia. lia.
Qed.

Lemma rtrim_value a s :
  all_chars is_digit s = true →
  atoi_acc a s = atoi_acc a (rtrim_zeros s) * 10 ^ Z.of_nat (String.length s - String.length (rtrim_zeros s))
  ∧ (String.length (rtrim_zeros s) ≤ String.length s)%nat
  ∧ all_chars is_digit (rtrim_zeros s) = true.
Proof.
  revert a. induction s as [|c s IH]; intros a H; [simpl; lia|]. simpl in H. bools.
  destruct (IH (10 * a + digit_val c) H0) as (Hv & Hl & Ha). cbn [rtrim_zeros].
  destruct (rtrim_zeros s) as [|c' t] eqn:Ht.
  - simpl in Hv. rewrite Nat.sub_0_r in Hv. destruct (Ascii.eqb c "0") eqn:Hc.
    + apply Ascii.eqb_eq in Hc as ->. simpl atoi_acc at 1. rewrite Hv.
      simpl String.length. rewrite Nat.sub_0_r, Nat2Z.inj_succ, Z.pow_succ_r by lia.
      split_and!; [|simpl; lia|done]. simpl atoi_acc. change (digit_val "0") with 0. lia.
    + simpl atoi_acc. simpl String.length. rewrite Hv, Nat.sub_succ, Nat.sub_0_r.
      split_and!; [done|lia|simpl; by rewrite H].
  - simpl atoi_acc at 1. rewrite Hv. simpl. rewrite H. simpl in Ha. bools. rewrite H1, H2.
    simpl in Hl. split_and!; [done|lia|done].
Qed.

Lemma digits_run ds r :
  all_chars is_digit ds = true → match r with String c _ => is_digit c = false | "" => True end →
  digits (ds ++ r) = (ds, r).
Proof.
  intros Hds Hr. induction ds as [|c ds IH]; simpl in Hds.
  - destruct r; [done|]. simpl. by rewrite Hr.
  - bools. rewrite append_cons. simpl. by rewrite H, IH.
Qed.

Lemma take_string_all n s : (String.length s ≤ n)%nat → take_string n s = s.
Proof.
  revert n. induction s as [|c s IH]; intros [|n] H; simpl in *; [done|done|lia|].
  rewrite IH by lia. done.
Qed.

Lemma parse_fraction_format ns r :
  0 ≤ ns < 1000000000 → (∃ c r', r = String c r' ∧ is_digit c = false ∧ digits r' = (""%string, r')) →
  parse_fraction (format_fraction ns ++ r) = (ns, r).
Proof.
  intros Hns (c & r' & -> & Hc & Hr'). unfold format_fraction. destruct (ns =? 0) eqn:H0; bools.
  { subst. rewrite append_nil. unfold parse_fraction. by rewrite Hr'. }
  destruct (padded_digits 9 ns) as [Hd Hl].
  destruct (rtrim_value 0 (padded 9 ns) Hd) as (Hv & Hle & Ha).
  rewrite atoi_padded in Hv by lia. change (10 ^ Z.of_nat 9) with 1000000000 in Hv.
  rewrite Z.mod_small in Hv by lia.
  rewrite append_cons. unfold parse_fraction. rewrite digits_run by done.
  set (ds := rtrim_zeros (padded 9 ns)) in *. rewrite Hl in *.
  assert (∃ d ds', ds = String d ds') as (d & ds' & Hds).
  { destruct ds; [simpl in Hv; lia|eauto]. }
  clearbody ds. subst ds. change (Ascii.eqb "." ".") with true. cbn [orb].
  rewrite take_string_all by done. f_equal. rewrite Hv at 1. f_equal. f_equal. lia.
Qed.

(** ** Instants *)

(** The instants of the years 0 to 9999. *)
Definition four_digit_year (t : Z) : Prop := -62167219200000000000 ≤ t < 253402300800000000000.

Lemma concat_empty_nil : String.concat "" [] = ""%string.
Proof. done. Qed.

Lemma expect_run c s : expect c (String c s) = Some s.
Proof. simpl. by rewrite Ascii.eqb_refl. Qed.

(** What [format_RFC3339Nano] writes after the year. *)
Definition after_year (m d sod ns : Z) : string :=
  String.concat ""
    ["-"; padded 2 m; "-"; padded 2 d; "T";
     padded 2 (sod / 3600); ":"; padded 2 (sod / 60 mod 60); ":"; padded 2 (sod mod 60);
     format_fraction ns; "Z"]%string.

Lemma parse_after_year_format y m d sod ns :
  0 ≤ ns < 1000000000 → 0 ≤ sod < 86400 → 1 ≤ m ≤ 12 → 1 ≤ d ≤ daysIn m y →
  parse_after_year y (after_year m d sod ns) =
    Some ((days_from_civil y m d * 86400 + sod) * 1000000000 + ns).
Proof.
  intros Hns Hsod Hm Hd. assert (daysIn m y ≤ 31) by (unfold daysIn; repeat case_match; lia).
  unfold after_year. rewrite !concat_empty_cons, concat_empty_nil, !append_empty_r. unfold parse_after_year.
  rewrite append_cons, append_nil, expect_run.
  cbn [mbind option_bind]. rewrite getfield_padded by lia.
  cbn [mbind option_bind]. rewrite append_cons, append_nil, expect_run.
  cbn [mbind option_bind]. rewrite getnum_padded by lia.
  cbn [mbind option_bind]. rewrite append_cons, append_nil, expect_run.
  cbn [mbind option_bind]. rewrite getfield_padded by lia.
  cbn [mbind option_bind]. rewrite append_cons, append_nil, expect_run.
  cbn [mbind option_bind]. rewrite getfield_padded by lia.
  cbn [mbind option_bind]. rewrite append_cons, append_nil, expect_run.
  cbn [mbind option_bind]. rewrite getfield_padded by lia.
  cbn [mbind option_bind]. rewrite parse_fraction_format; [|done|by eexists _, _].
  cbn [parse_zone mbind option_bind].
  rewrite (proj2 (Z.leb_le 1 d)), (proj2 (Z.leb_le d (daysIn m y))) by lia. simpl andb. cbv iota.
  f_equal. unfold instant. lia.
Qed.

(** The text of an instant: its year, and what leads back to the instant from there. *)
Lemma format_split t :
  ∃ y rest, format_RFC3339Nano t = (append_year y ++ rest)%string ∧
    (∃ rest', rest = String "-" rest') ∧ parse_after_year y rest = Some t ∧
    (civil_from_days (t / 1000000000 / 86400)).1.1 = y.
Proof.
  unfold format_RFC3339Nano.
  set (secs := t / 1000000000). set (ns := t mod 1000000000).
  set (days := secs / 86400). set (sod := secs mod 86400).
  assert (0 ≤ ns < 1000000000 ∧ 0 ≤ sod < 86400 ∧
    t = (days * 86400 + sod) * 1000000000 + ns) as (Hns & Hsod & Et) by (unfold ns, sod, days, secs; lia).
  clearbody ns sod days. clear secs.
  destruct (civil_from_days days) as [[y m] d] eqn:Hciv.
  destruct (civil_from_days_spec _ _ _ _ Hciv) as (Hday & Hm & Hd).
  exists y, (after_year m d sod ns). rewrite concat_empty_cons. split_and!; [done|by eexists| |done].
  rewrite parse_after_year_format by done. by rewrite Hday, Et.
Qed.

Lemma parse_format t : four_digit_year t → parse_RFC3339 (format_RFC3339Nano t) = Some t.
Proof.
  intros Ht. unfold four_digit_year in Ht.
  destruct (format_split t) as (y & rest & -> & _ & Hrest & Hy0).
  destruct (civil_from_days _) as [[y' m] d] eqn:Hciv; simpl in Hy0; subst y'.
  assert (0 ≤ y ≤ 9999) as Hy by (eapply civil_year_range; [exact Hciv|lia]).
  unfold parse_RFC3339, append_year, year_digits.
  rewrite (proj2 (Z.ltb_ge y 0)), (proj2 (Z.ltb_lt y 10000)), getyear_padded by lia. exact Hrest.
Qed.
