(* ===== verification/GoMarshal.v ===== *)
(** * encoding/json on structs

    [json.Marshal] of a [json.RawMessage], a [time.Time] and a string member, and
    [json.Unmarshal] of an object into a struct: the members in the order of the
    text, each with the raw bytes of its value, matched to a field by name. *)

From S2P Require Import Prelude.
From S2P Require Import GoText.
From S2P Require Import GoJson.
From S2P Require Import GoTime.

Local Open Scope string_scope.

(** [checkValid]: one value and white space around it. *)
Definition json_valid (s : string) : bool :=
  match json_value s with
  | Some (_, rest) => bool_decide (skip_space rest = "")
  | None => false
  end.

(** ** Marshal *)

(** [appendCompact] with HTML escaping on valid text: white space outside strings
    goes; [<], [>], [&], U+2028 and U+2029 are escaped wherever they are. *)
Definition html_escape (c : ascii) : option string :=
  if (code c =? 60)%N then Some (String bs "u003c")
  else if (code c =? 62)%N then Some (String bs "u003e")
  else if (code c =? 38)%N then Some (String bs "u0026")
  else None.

(** [Some (escape, rest)] after the first byte of an encoded U+2028 or U+2029. *)
Definition line_separator (c : ascii) (s : string) : option (string * string) :=
  match s with
  | String c1 (String c2 rest) =>
    if (code c =? 226)%N && (code c1 =? 128)%N then
      if (code c2 =? 168)%N then Some (String bs "u2028", rest)
      else if (code c2 =? 169)%N then Some (String bs "u2029", rest)
      else None
    else None
  | _ => None
  end.

(** [quoted]: inside a string; [escaped]: after a backslash there. *)
Fixpoint compact_chars (fuel : nat) (quoted escaped : bool) (s : string) : string :=
  match fuel, s with
  | S f, String c s' =>
    if negb quoted && is_json_space c then compact_chars f quoted escaped s'
    else
      let quoted' := if quoted then escaped || negb (Ascii.eqb c dq) else Ascii.eqb c dq in
      let escaped' := quoted && negb escaped && Ascii.eqb c bs in
      match html_escape c, line_separator c s' with
      | Some e, _ => e ++ compact_chars f quoted' escaped' s'
      | None, Some (e, rest) => e ++ compact_chars f quoted' escaped' rest
      | None, None => String c (compact_chars f quoted' escaped' s')
      end
  | _, _ => ""
  end.

(** [RawMessage.MarshalJSON] as [json.Marshal] writes it; [None] is an error. *)
Definition marshal_raw (s : string) : option string :=
  if json_valid s then Some (compact_chars (String.length s) false false s) else None.

Definition year_of (t : Z) : Z := (civil_from_days (t / 1000000000 / 86400)).1.1.

(** [Time.MarshalJSON] in UTC: an error when the year does not have four digits. *)
Definition marshal_time (t : Z) : option string :=
  if (0 <=? year_of t)%Z && (year_of t <=? 9999)%Z
  then Some (String dq (format_RFC3339Nano t ++ String dq "")) else None.

Definition member (name value : string) : string := append_string true name ++ ":" ++ value.

Definition object (members : list string) : string := "{" ++ String.concat "," members ++ "}".

(** ** Unmarshal *)

(** The bytes of [s] before its suffix [rest]. *)
Definition before (s rest : string) : string :=
  String.substring 0 (String.length s - String.length rest) s.

(** The members of the object whose opening brace has been read. *)
Fixpoint raw_members (fuel : nat) (s : string) : option (list (string * string)) :=
  match fuel with
  | O => None
  | S f =>
    match skip_space s with
    | String q r0 =>
      if negb (Ascii.eqb q dq) then None
      else
        '(k, r1) ← json_string r0;
        match skip_space r1 with
        | String c r2 =>
          if negb (Ascii.eqb c ":") then None
          else
            let r2 := skip_space r2 in
            '(_, r3) ← json_value r2;
            match skip_space r3 with
            | String c' r4 =>
              if Ascii.eqb c' "," then ms ← raw_members f r4; Some ((k, before r2 r3) :: ms)
              else if Ascii.eqb c' "}" then Some [(k, before r2 r3)]
              else None
            | "" => None
            end
        | "" => None
        end
    | "" => None
    end
  end.

(** The members of a valid text, when it is an object. *)
Definition object_members (s : string) : option (list (string * string)) :=
  match skip_space s with
  | String c r =>
    if Ascii.eqb c "{" then
      match skip_space r with
      | String c' _ => if Ascii.eqb c' "}" then Some [] else raw_members (String.length r) r
      | "" => None
      end
    else None
  | "" => None
  end.

(** [foldName]: equal for names that differ only in case; the long s and the
    Kelvin sign fold to S and K. *)
Definition fold_rune (r : N) : N :=
  if (97 <=? r)%N && (r <=? 122)%N then (r - 32)%N
  else if (r =? 383)%N then 83%N
  else if (r =? 8490)%N then 75%N
  else r.

Definition fold_name (s : string) : list N := map fold_rune (runes s).

(** A field: its JSON name, and how a raw value changes the struct ([None] is a
    type error or an [UnmarshalJSON] error, which makes [Unmarshal] fail). *)
Definition field (S : Type) : Type := string * (string → S → option S).

(** The field of that name, else the first whose name differs only in case. *)
Definition find_field {S} (fields : list (field S)) (name : string) : option (field S) :=
  match List.find (λ f, bool_decide (f.1 = name)) fields with
  | Some f => Some f
  | None => List.find (λ f, bool_decide (fold_name f.1 = fold_name name)) fields
  end.

Fixpoint store_members {S} (fields : list (field S)) (ms : list (string * string)) (x : S)
    : option S :=
  match ms with
  | [] => Some x
  | (name, raw) :: ms' =>
    match find_field fields name with
    | Some f => x' ← f.2 raw x; store_members fields ms' x'
    | None => store_members fields ms' x
    end
  end.

(** A valid value into a struct: null changes nothing, an object member by member. *)
Definition into_struct {S} (fields : list (field S)) (raw : string) (x : S) : option S :=
  match json_value raw with
  | Some (JNull, _) => Some x
  | Some (JObject _, _) => ms ← object_members raw; store_members fields ms x
  | _ => None
  end.

(** [json.Unmarshal(data, &x)]. *)
Definition Unmarshal {S} (fields : list (field S)) (data : string) (x : S) : option S :=
  if json_valid data then into_struct fields data x else None.

(** Into a string, keeping [x] on null. *)
Definition into_string (raw : string) (x : string) : option string :=
  match json_value raw with
  | Some (JString s, _) => Some s
  | Some (JNull, _) => Some x
  | _ => None
  end.

Definition is_integer_literal (n : string) : bool :=
  match n with
  | String c n' => if Ascii.eqb c "-" then bool_decide (digits n' = (n', ""))
                   else bool_decide (digits n = (n, ""))
  | "" => false
  end.

Definition integer_value (n : string) : Z :=
  match n with
  | String c n' => if Ascii.eqb c "-" then (- atoi_acc 0 n')%Z else atoi_acc 0 n
  | "" => 0%Z
  end.

(** Into an int (64 bits): no fraction, no exponent, in range. *)
Definition into_int (raw : string) (x : Z) : option Z :=
  match json_value raw with
  | Some (JNumber n, _) =>
    let v := integer_value n in
    if is_integer_literal n && (-9223372036854775808 <=? v)%Z && (v <=? 9223372036854775807)%Z
    then Some v else None
  | Some (JNull, _) => Some x
  | _ => None
  end.

(** [Time.UnmarshalJSON] reads the bytes between the quotes as they are. *)
Definition into_time (raw : string) (x : Z) : option Z :=
  if bool_decide (raw = "null") then Some x
  else
    let n := String.length raw in
    if (n <? 2)%nat || negb (bool_decide (String.get 0 raw = Some dq))
       || negb (bool_decide (String.get (n - 1) raw = Some dq)) then None
    else parse_RFC3339 (String.substring 1 (n - 2) raw).

(** [RawMessage.UnmarshalJSON] keeps the bytes, those of null too. *)
Definition into_raw (raw : string) (_ : option string) : option (option string) :=
  Some (Some raw).

(** Into a pointer to a struct: null clears it, an object fills what is there or a
    new zero value. *)
Definition into_pointer {S} (zero : S) (fields : list (field S)) (raw : string) (x : option S)
    : option (option S) :=
  match json_value raw with
  | Some (JNull, _) => Some None
  | Some _ => v ← into_struct fields raw (default zero x); Some (Some v)
  | None => None
  end.
