(* ===== verification/GoDecoder.v ===== *)
(** * json.Decoder on a bounded body

    How the API reads a request body: [json.NewDecoder] over the reader
    [http.MaxBytesReader] gives, with [DisallowUnknownFields], one value and then
    the end of the input.  The byte scanner of encoding/json (scanner.go) is
    here too: it decides whether the reader's limit or a syntax error is met
    first. *)

From S2P Require Import Prelude.
From S2P Require Import GoText.
From S2P Require Import GoJson.
From S2P Require Import GoMarshal.

Local Open Scope string_scope.

(** ** The scanner *)

(** [parseState]: an object before a colon, an object after it, an array. *)
Inductive container := ObjectKey | ObjectValue | ArrayValue.

(** The step functions of scanner.go. *)
Inductive scan_state :=
| BeginValue | BeginValueOrEmpty | BeginString | BeginStringOrEmpty | EndValue
| InString | InStringEsc | InStringEscU (n : nat)
| InNeg | InInteger | InZero | InDot | InFraction | InE | InESign | InExponent
| InLiteral (rest : string).

Inductive scan_next :=
| Go (st : scan_state) (stack : list container)
| Done
| Fail.

Definition push (c : container) (st : scan_state) (stack : list container) : scan_next :=
  if (maxNestingDepth <? Z.of_nat (S (length stack)))%Z then Fail else Go st (c :: stack).

(** The end of a container: the end of the text when it is the outermost one. *)
Definition pop (stack : list container) : scan_next :=
  match stack with [] => Done | _ => Go EndValue stack end.

(** [stateEndValue]. *)
Definition end_value (c : ascii) (stack : list container) : scan_next :=
  match stack with
  | [] => Done
  | top :: rest =>
    if is_json_space c then Go EndValue stack
    else match top with
    | ObjectKey => if Ascii.eqb c ":" then Go BeginValue (ObjectValue :: rest) else Fail
    | ObjectValue =>
      if Ascii.eqb c "," then Go BeginString (ObjectKey :: rest)
      else if Ascii.eqb c "}" then pop rest else Fail
    | ArrayValue =>
      if Ascii.eqb c "," then Go BeginValue stack
      else if Ascii.eqb c "]" then pop rest else Fail
    end
  end.

(** [stateBeginValue]. *)
Definition begin_value (c : ascii) (stack : list container) : scan_next :=
  if is_json_space c then Go BeginValue stack
  else if Ascii.eqb c "{" then push ObjectKey BeginStringOrEmpty stack
  else if Ascii.eqb c "[" then push ArrayValue BeginValueOrEmpty stack
  else if Ascii.eqb c dq then Go InString stack
  else if Ascii.eqb c "-" then Go InNeg stack
  else if Ascii.eqb c "0" then Go InZero stack
  else if Ascii.eqb c "t" then Go (InLiteral "rue") stack
  else if Ascii.eqb c "f" then Go (InLiteral "alse") stack
  else if Ascii.eqb c "n" then Go (InLiteral "ull") stack
  else if is_digit c then Go InInteger stack
  else Fail.

Definition begin_string (c : ascii) (stack : list container) : scan_next :=
  if is_json_space c then Go BeginString stack
  else if Ascii.eqb c dq then Go InString stack else Fail.

Definition after_integer (c : ascii) (stack : list container) : scan_next :=
  if Ascii.eqb c "." then Go InDot stack
  else if is_exp c then Go InE stack else end_value c stack.

Definition need_digit (st : scan_state) (c : ascii) (stack : list container) : scan_next :=
  if is_digit c then Go st stack else Fail.

Definition scan_step (st : scan_state) (c : ascii) (stack : list container) : scan_next :=
  match st with
  | BeginValue => begin_value c stack
  | BeginValueOrEmpty =>
    if is_json_space c then Go BeginValueOrEmpty stack
    else if Ascii.eqb c "]" then end_value c stack else begin_value c stack
  | BeginString => begin_string c stack
  | BeginStringOrEmpty =>
    if is_json_space c then Go BeginStringOrEmpty stack
    else if Ascii.eqb c "}" then end_value c (ObjectValue :: tail stack) else begin_string c stack
  | EndValue => end_value c stack
  | InString =>
    if Ascii.eqb c dq then Go EndValue stack
    else if Ascii.eqb c bs then Go InStringEsc stack
    else if (code c <? 32)%N then Fail else Go InString stack
  | InStringEsc =>
    if (code c =? 117)%N then Go (InStringEscU 3) stack
    else if existsb (λ x, code c =? x)%N [98; 102; 110; 114; 116; 92; 47; 34]%N then Go InString stack
    else Fail
  | InStringEscU n =>
    match hex_value c, n with
    | Some _, S n' => Go (InStringEscU n') stack
    | Some _, O => Go InString stack
    | None, _ => Fail
    end
  | InNeg =>
    if Ascii.eqb c "0" then Go InZero stack else need_digit InInteger c stack
  | InInteger => if is_digit c then Go InInteger stack else after_integer c stack
  | InZero => after_integer c stack
  | InDot => need_digit InFraction c stack
  | InFraction =>
    if is_digit c then Go InFraction stack
    else if is_exp c then Go InE stack else end_value c stack
  | InE => if is_sign c then Go InESign stack else need_digit InExponent c stack
  | InESign => need_digit InExponent c stack
  | InExponent => if is_digit c then Go InExponent stack else end_value c stack
  | InLiteral (String x rest) =>
    if Ascii.eqb c x then Go (if bool_decide (rest = "") then EndValue else InLiteral rest) stack
    else Fail
  | InLiteral "" => end_value c stack
  end.

(** What [Decoder.readValue] finds in the bytes it has: a whole value, a syntax
    error, or neither yet.  A container is whole at its last byte, a scalar at the
    byte after it. *)
Inductive scan_outcome := ScanValue | ScanError | ScanMore.

Fixpoint scan (st : scan_state) (stack : list container) (s : string) : scan_outcome :=
  match s with
  | "" => ScanMore
  | String c s' =>
    match scan_step st c stack with
    | Done => ScanValue
    | Fail => ScanError
    | Go st' stack' => scan st' stack' s'
    end
  end.

Definition scan_prefix (s : string) : scan_outcome := scan BeginValue [] s.

(** ** Decoding *)

(** Into a struct without unknown names. *)
Fixpoint store_known {S} (fields : list (field S)) (ms : list (string * string)) (x : S) : option S :=
  match ms with
  | [] => Some x
  | (name, raw) :: ms' => f ← find_field fields name; x' ← f.2 raw x; store_known fields ms' x'
  end.

Definition into_known {S} (fields : list (field S)) (raw : string) (x : S) : option S :=
  match json_value raw with
  | Some (JNull, _) => Some x
  | Some (JObject _, _) => ms ← object_members raw; store_known fields ms x
  | _ => None
  end.

(** Into a pointer to such a struct. *)
Definition into_known_pointer {S} (zero : S) (fields : list (field S)) (raw : string) (x : option S)
    : option (option S) :=
  match json_value raw with
  | Some (JNull, _) => Some None
  | Some _ => v ← into_known fields raw (default zero x); Some (Some v)
  | None => None
  end.

(** Into a pointer to a scalar. *)
Definition into_optional {A} (zero : A) (into : string → A → option A) (raw : string) (x : option A)
    : option (option A) :=
  match json_value raw with
  | Some (JNull, _) => Some None
  | Some _ => v ← into raw (default zero x); Some (Some v)
  | None => None
  end.

(** A slice of strings: its elements, and what its backing array still holds
    behind them from an earlier member of the same name. *)
Definition slice : Type := list string * list string.
Definition nil_slice : slice := ([], []).

(** One element; null keeps what the place held. *)
Fixpoint into_elements (items : list json) (backing : list string) : option (list string) :=
  match items with
  | [] => Some []
  | v :: items' =>
    x ← match v with JString s => Some s | JNull => Some (default "" (head backing)) | _ => None end;
    xs ← into_elements items' (tail backing); Some (x :: xs)
  end.

Definition into_slice (raw : string) (x : slice) : option slice :=
  match json_value raw with
  | Some (JNull, _) => Some nil_slice
  | Some (JArray [], _) => Some nil_slice
  | Some (JArray items, _) =>
    let backing := (x.1 ++ x.2)%list in
    xs ← into_elements items backing; Some (xs, drop (length xs) backing)
  | _ => None
  end.

(** The first value in a body the reader cuts at [limit] bytes. *)
Inductive read_error := BodyTooLarge | MalformedBody.

Definition read_value (limit : nat) (body : string) : result read_error (json * string) :=
  let s := take_string limit body in
  let cut := (limit <? String.length body)%nat in
  match scan_prefix s with
  | ScanError => Err MalformedBody
  | ScanMore => if cut then Err BodyTooLarge
                else match json_value s with Some r => Ok r | None => Err MalformedBody end
  | ScanValue => match json_value s with Some r => Ok r | None => Err MalformedBody end
  end.

(** [decoder.Decode(target)], then [decoder.Decode(new(struct{}))] expected to
    find the end of the input. *)
Definition decode_body {S} (limit : nat) (fields : list (field S)) (zero : S) (body : string)
    : result read_error S :=
  match read_value limit body with
  | Err e => Err e
  | Ok (_, rest) =>
    let s := take_string limit body in
    match into_known fields (skip_space (before s rest)) zero with
    | None => Err MalformedBody
    | Some x =>
      if (limit <? String.length body)%nat || negb (bool_decide (skip_space rest = ""))
      then Err MalformedBody else Ok x
    end
  end.

(** ** Examples *)

Definition sample_fields : list (field (string * slice)) :=
  [ ("a", λ raw x, v ← into_string raw x.1; Some (v, x.2));
    ("l", λ raw x, v ← into_slice raw x.2; Some (x.1, v)) ].

Definition q (s : string) : string := String dq s ++ String dq "".

Example decode_examples :
  map (λ b, decode_body 40 sample_fields ("", nil_slice) b)
    ["{" ++ q "a" ++ ":" ++ q "x" ++ "} "; "null"; "{" ++ q "b" ++ ":1}"; "{} {}"; "{}]"; "[]"; "{"]
  = [Ok ("x", nil_slice); Ok ("", nil_slice); Err MalformedBody; Err MalformedBody; Err MalformedBody;
     Err MalformedBody; Err MalformedBody].
Proof. vm_compute. reflexivity. Qed.

Example decode_limits :
  map (λ n, decode_body n sample_fields ("", nil_slice) ("{" ++ q "a" ++ ":" ++ q "x" ++ "}   "))
    [4; 9; 11; 12; 20]%nat
  = [Err BodyTooLarge; Err MalformedBody; Err MalformedBody; Ok ("x", nil_slice); Ok ("x", nil_slice)].
Proof. vm_compute. reflexivity. Qed.
