(* ===== verification/Canonical.v ===== *)
(** * Package jobs: canonical JSON

    internal/jobs/canonical.go: a document is decoded and written again with its
    keys sorted, no insignificant space and one way of escaping. *)

From S2P Require Import Prelude.
From S2P Require Import GoText.
From S2P Require Import GoJson.

Local Open Scope string_scope.

Definition newline : ascii := ascii_of_N 10.

(** [strings.TrimRight(s, "\n")]. *)
Fixpoint TrimRight_newline (s : string) : string :=
  match s with
  | "" => ""
  | String c s' =>
    match TrimRight_newline s' with
    | "" => if Ascii.eqb c newline then "" else String c ""
    | t => String c t
    end
  end.

(** [Encoder.Encode] ends the value with a newline; HTML escaping is off. *)
Definition writeCanonicalString (s : string) : string :=
  TrimRight_newline (append_string false s ++ String newline "").

Definition key_order {A} (x y : string * A) : bool := String.leb x.1 y.1.

Definition sort_members {A} (m : list (string * A)) : list (string * A) :=
  merge_sort (ordby key_order) m.

(** The members of an object in the order of their sorted keys. *)
Fixpoint writeCanonical (v : json) : string :=
  match v with
  | JNull => "null"
  | JBool true => "true"
  | JBool false => "false"
  | JNumber literal => literal
  | JString s => writeCanonicalString s
  | JArray items => "[" ++ String.concat "," (map writeCanonical items) ++ "]"
  | JObject members =>
    "{" ++ String.concat ","
      (map (λ kt, writeCanonicalString kt.1 ++ ":" ++ kt.2)
        (sort_members (map (λ kv, (kv.1, writeCanonical kv.2)) members))) ++ "}"
  end.

(** [syntax_error] is the text of the error encoding/json gives for a document
    it refuses. *)
Definition CanonicalJSON (syntax_error : string → string) (raw : string) : result string string :=
  match json_value raw with
  | None => Err ("decode json: " ++ syntax_error raw)
  | Some (v, rest) =>
    if json_More rest then Err "unexpected trailing content after json value"
    else Ok (writeCanonical v)
  end.

Definition q2 (s : string) : string := String dq (s ++ String dq "").

(** Key order, white space and escapes go; numbers keep their spelling, the last
    of two equal keys stays. *)
Example CanonicalJSON_known :
  CanonicalJSON (λ _, "")
    (" { " ++ q2 "b" ++ " : [1.0 , 1e+2,-0], " ++ q2 "a" ++ ":" ++ q2 "\u0041\/\n" ++ ", "
     ++ q2 "b" ++ ":[ true,null ] } ") =
  Ok ("{" ++ q2 "a" ++ ":" ++ q2 "A/\n" ++ "," ++ q2 "b" ++ ":[true,null]}").
Proof. vm_compute. reflexivity. Qed.

Example CanonicalJSON_trailing :
  CanonicalJSON (λ _, "") "{} {}" = Err "unexpected trailing content after json value".
Proof. vm_compute. reflexivity. Qed.

(** [Decoder.More] does not see a closing bracket or brace. *)
Example CanonicalJSON_trailing_bracket : CanonicalJSON (λ _, "") "{}]" = Ok "{}".
Proof. vm_compute. reflexivity. Qed.
