(* ===== verification/Submit.v ===== *)
(** * Package jobs: the submission contract

    internal/jobs/submit.go: the normalized request and its fingerprint. *)

From S2P Require Import Prelude.
From S2P Require Import GoText.
From S2P Require Import Schema.
From S2P Require Import GoBytes.
From S2P Require Import GoTime.
From S2P Require Import Canonical.

Record NormalizedRequest := mkNormalized {
  n_queue : string;
  n_type : string;
  n_payload : string;
  n_priority : Z;
  n_max_attempts : Z;
  n_timeout_seconds : Z;
  n_required_capabilities : list string;
  n_scheduled_at : option time;
}.

Definition fingerprintVersion : string := "taskforge.fingerprint.v1".
Definition scheduledAtFingerprintTag : string := "taskforge.fingerprint.scheduled_at".

Definition string_of_bytes (bs : list Z) : string :=
  String.string_of_list_ascii (map (λ b, ascii_of_N (Z.to_N b)) bs).

(** [write]: the eight-byte big-endian length, then the bytes. *)
Definition write_prefixed (s : string) : string :=
  (string_of_bytes (be_bytes 8 (Z.of_nat (String.length s))) ++ s)%string.

(** The fields a fingerprint covers, in order. *)
Definition fingerprint_fields (n : NormalizedRequest) : list string :=
  [fingerprintVersion; n_queue n; n_type n; n_payload n;
   Itoa (n_priority n); Itoa (n_max_attempts n); Itoa (n_timeout_seconds n);
   Itoa (Z.of_nat (length (n_required_capabilities n)))]
  ++ n_required_capabilities n
  ++ match n_scheduled_at n with
     | Some t => [scheduledAtFingerprintTag; format_RFC3339Nano t]
     | None => []
     end.

(** The byte stream the hash is fed. *)
Definition fingerprint_stream (n : NormalizedRequest) : string :=
  String.concat "" (map write_prefixed (fingerprint_fields n)).

Definition Fingerprint (n : NormalizedRequest) : string := sha256_hex (fingerprint_stream n).

(** ** Package jobs: request validation

    internal/jobs/submit.go: a submission is validated field by field, every
    problem reported, defaults filled in and capabilities reduced to a sorted
    set. *)

Definition DefaultPriority : Z := 50.
Definition DefaultMaxAttempts : Z := 3.
Definition DefaultTimeoutSeconds : Z := 300.
Definition MinPriority : Z := 0.
Definition MaxPriority : Z := 100.
Definition MinMaxAttempts : Z := 1.
Definition MaxMaxAttempts : Z := 100.
Definition MinTimeoutSeconds : Z := 1.
Definition MaxTimeoutSeconds : Z := 86400.
Definition MaxRequiredCapabilities : nat := 16.
Definition MaxIdempotencyKeyLen : nat := 255.

Definition queueNamePattern : string → bool := match_name 63.
Definition jobTypePattern : string → bool := match_name 127.
Definition capabilityPattern : string → bool := match_name 63.

(** Absent and explicitly zero are different. *)
Record SubmitRequest := mkSubmitRequest {
  q_queue : string;
  q_type : string;
  q_payload : string;
  q_priority : option Z;
  q_max_attempts : option Z;
  q_timeout_seconds : option Z;
  q_scheduled_at : option string;
  q_required_capabilities : list string;
}.

Record FieldError := mkFieldError { Field : string; Message : string }.

Local Open Scope string_scope.

Definition between_msg (lo hi : Z) : string :=
  "must be between " ++ Itoa lo ++ " and " ++ Itoa hi.

(** A name after trimming: its problems. *)
Definition name_problems (field pattern : string) (matches : string → bool) (name : string)
    : list FieldError :=
  if bool_decide (name = "") then [mkFieldError field "is required"]
  else if negb (matches name) then [mkFieldError field ("must match " ++ pattern)]
  else [].

(** The payload, canonical, and its problems. *)
Definition normalize_payload (syntax_error : string → string) (raw : string)
    : string * list FieldError :=
  if (String.length raw =? 0)%nat then ("", [mkFieldError "payload" "is required"])
  else match CanonicalJSON syntax_error raw with
       | Err e => ("", [mkFieldError "payload" ("must be valid JSON: " ++ e)])
       | Ok canonical =>
         match canonical with
         | String "{" _ => (canonical, [])
         | _ => ("", [mkFieldError "payload" "must be a JSON object"])
         end
       end.

(** An optional number with its default and bounds. *)
Definition normalize_number (field suffix : string) (deflt lo hi : Z) (v : option Z)
    : Z * list FieldError :=
  match v with
  | None => (deflt, [])
  | Some n =>
    (n, if (n <? lo)%Z || (hi <? n)%Z
        then [mkFieldError field (between_msg lo hi ++ suffix)] else [])
  end.

(** An instant, in UTC. *)
Definition normalize_schedule (v : option string) : option time * list FieldError :=
  match v with
  | None => (None, [])
  | Some s =>
    match parse_RFC3339 (TrimSpace s) with
    | None => (None, [mkFieldError "scheduled_at"
        "must be an RFC 3339 timestamp, for example 2026-09-01T12:00:00Z"])
    | Some t => (Some t, [])
    end
  end.

Definition name_pattern : string := "^[a-z0-9][a-z0-9._-]{0,63}$".

(** The capabilities from index [i] on, after those in [seen]: the new ones in
    order, and the problems. *)
Fixpoint collect_capabilities (i : Z) (seen : list string) (l : list string)
    : list string * list FieldError :=
  match l with
  | [] => ([], [])
  | c :: l' =>
    let c := TrimSpace c in
    if negb (capabilityPattern c) then
      let '(out, errs) := collect_capabilities (i + 1) seen l' in
      (out, mkFieldError ("required_capabilities[" ++ Itoa i ++ "]")
              ("must match " ++ name_pattern) :: errs)
    else if bool_decide (c ∈ seen) then collect_capabilities (i + 1) seen l'
    else
      let '(out, errs) := collect_capabilities (i + 1) (c :: seen) l' in (c :: out, errs)
  end.

Definition normalizeCapabilities (l : list string) : list string * list FieldError :=
  if (MaxRequiredCapabilities <? length l)%nat then
    ([], [mkFieldError "required_capabilities"
            ("must contain at most " ++ Itoa (Z.of_nat MaxRequiredCapabilities) ++ " entries")])
  else
    let '(out, errs) := collect_capabilities 0 [] l in (sort_Strings out, errs).

(** Every problem of the request, in the order of the fields, or the normalized
    request. *)
Definition Normalize (syntax_error : string → string) (r : SubmitRequest)
    : result (list FieldError) NormalizedRequest :=
  let queue := TrimSpace (q_queue r) in
  let jobType := TrimSpace (q_type r) in
  let '(payload, e3) := normalize_payload syntax_error (q_payload r) in
  let '(priority, e4) :=
    normalize_number "priority" "" DefaultPriority MinPriority MaxPriority (q_priority r) in
  let '(maxAttempts, e5) :=
    normalize_number "max_attempts" " (it counts the first attempt)"
      DefaultMaxAttempts MinMaxAttempts MaxMaxAttempts (q_max_attempts r) in
  let '(timeoutSeconds, e6) :=
    normalize_number "timeout_seconds" "" DefaultTimeoutSeconds MinTimeoutSeconds
      MaxTimeoutSeconds (q_timeout_seconds r) in
  let '(scheduledAt, e7) := normalize_schedule (q_scheduled_at r) in
  let '(capabilities, e8) := normalizeCapabilities (q_required_capabilities r) in
  let errors :=
    (name_problems "queue" name_pattern queueNamePattern queue
     ++ name_problems "job_type" "^[a-z0-9][a-z0-9._-]{0,127}$" jobTypePattern jobType
     ++ e3 ++ e4 ++ e5 ++ e6 ++ e7 ++ e8)%list in
  match errors with
  | [] => Ok (mkNormalized queue jobType payload priority maxAttempts timeoutSeconds capabilities
                scheduledAt)
  | _ => Err errors
  end.

(** The Idempotency-Key header: present, bounded, no control characters. *)
Definition ValidateIdempotencyKey (key : string) : list FieldError :=
  if bool_decide (TrimSpace key = "") then
    [mkFieldError "Idempotency-Key" "header is required"]
  else if (MaxIdempotencyKeyLen <? String.length key)%nat then
    [mkFieldError "Idempotency-Key"
       ("must be at most " ++ Itoa (Z.of_nat MaxIdempotencyKeyLen) ++ " bytes")]
  else if existsb (λ r, (r <? 32)%N || (r =? 127)%N) (runes key) then
    [mkFieldError "Idempotency-Key" "must not contain control characters"]
  else [].

Example Normalize_known :
  Normalize (λ _, "") (mkSubmitRequest " default " "echo" "{ }" (Some 0%Z) None (Some 0%Z)
    (Some "2026-01-02T03:04:05+01:00") ["gpu"; "cpu"; "gpu"; "X"]) =
  Err [mkFieldError "timeout_seconds" "must be between 1 and 86400";
       mkFieldError "required_capabilities[3]" ("must match " ++ name_pattern)].
Proof. vm_compute. reflexivity. Qed.

