(* ===== verification/JobsStore.v ===== *)
(** * Package jobs: the durable job operations

    internal/jobs/store.go, cancel.go, schedule.go and dlq.go: submission under
    an idempotency key, cancellation, the scheduler's promotion and
    re-notification, the dead-letter listing and replay. *)

From S2P Require Import Prelude.
From S2P Require Import GoText.
From S2P Require Import GoTime.
From S2P Require Import Schema.
From S2P Require Import Submit.
From S2P Require Import Outbox.

(** [Status.Terminal] and [Status.Executing]. *)
Definition Terminal (s : JobStatus) : bool :=
  match s with
  | StatusSucceeded | StatusCanceled | StatusDeadLettered => true
  | _ => false
  end.

Definition Executing (s : JobStatus) : bool :=
  bool_decide (s = StatusLeased) || bool_decide (s = StatusRunning).

(** [pgx.ErrNoRows] where the code passes it on. *)
Definition ErrNoRows : error := ErrMsg "no rows in result set".

(** [SELECT name FROM queues WHERE name = $1 FOR UPDATE]. *)
Definition lock_queue (name : string) : Tx Queue :=
  d ← get_db;
  match queues d !! name with
  | Some q => mret q
  | None => throw ErrNoRows
  end.

(** A job row of the caller's scope. *)
Definition job_in_scope (scope : string) (id : uuid) : Tx Job :=
  r ← sql_get id;
  match r with
  | Some j => if bool_decide (j_scope j = scope) then mret j else throw ErrJobNotFound
  | None => throw ErrJobNotFound
  end.

(** ** Submission *)

Record SubmitResult := mkSubmitResult {
  sr_job_id : uuid;
  sr_job : Job;
  sr_replayed : bool;
}.

Definition getByID (scope : string) (id : uuid) : Tx Job := job_in_scope scope id.
Definition Get (scope : string) (id : uuid) : Tx Job := getByID scope id.

Definition queueExists (name : string) : Tx bool :=
  d ← get_db; mret (is_Some_b (queues d !! name)).

Definition resolveExisting (scope key fingerprint : string) : Tx SubmitResult :=
  r ← sql_get (scope, key);
  match r with
  | None => throw (ErrMsg "idempotency record disappeared during submission; retry the request")
  | Some rec =>
    if negb (bool_decide (i_fingerprint rec = fingerprint)) then throw ErrIdempotencyConflict
    else
      job ← getByID scope (i_job_id rec);
      mret (mkSubmitResult (i_job_id rec) job true)
  end.

(** The job a submission builds, and the row PostgreSQL stores for it. *)
Definition new_job (scope : string) (req : NormalizedRequest) (serverNow created : time) : Job :=
  let due := match n_scheduled_at req with
             | Some t => negb (serverNow <? t)%Z
             | None => true
             end in
  mkJob scope (n_queue req) (n_type req) (n_payload req)
    (if due then StatusQueued else StatusPending)
    (n_priority req) (n_max_attempts req) (n_timeout_seconds req)
    (n_required_capabilities req) (n_scheduled_at req)
    (if due then serverNow else default serverNow (n_scheduled_at req))
    None None
    (if due then 1 else 0)%Z
    (if due then Some serverNow else None)
    created created.

Definition stored_job (payload : string) (j : Job) : Job :=
  j <| j_payload := payload |>
    <| j_scheduled_at := timestamptz <$> j_scheduled_at j |>
    <| j_available_at := timestamptz (j_available_at j) |>.

Definition submit_tx (scope key fingerprint : string) (req : NormalizedRequest)
    (trace : option TraceContext) : Tx (option (uuid * Job)) :=
  transaction (
    serverNow ← clock_timestamp;
    created ← now_tx;
    id ← uuid_New;
    let job := new_job scope req serverNow created in
    payload ← to_jsonb (j_payload job);
    sql_insert id (stored_job payload job);;
    won ← sql_insert_or_nothing (scope, key) (mkIdem fingerprint id);
    if (won : bool) then
      (if bool_decide (j_status job = StatusQueued)
       then _ ← InsertWorkAvailableTx id (j_queue job) (j_notification_generation job) trace;
            mret tt
       else mret tt);;
      commit (Some (id, job))
    else no_commit None).

(** [Store.Submit].  [trace] is the request's trace context. *)
Definition Submit (scope key : string) (req : NormalizedRequest) (trace : option TraceContext)
    : Tx SubmitResult :=
  let fingerprint := Fingerprint req in
  exists_ ← queueExists (n_queue req);
  if negb exists_ then throw ErrUnknownQueue
  else
    r ← submit_tx scope key fingerprint req trace;
    match r with
    | Some (id, job) => mret (mkSubmitResult id job false)
    | None => resolveExisting scope key fingerprint
    end.

(** ** Cancellation *)

Record CancelResult := mkCancelResult {
  cr_job_id : uuid;
  cr_status : JobStatus;
  cr_cancel_requested_at : option time;
  cr_already_requested : bool;
}.

(** Where a cancellation takes a job that is not yet cancelling. *)
Definition cancel_target (s : JobStatus) : option JobStatus :=
  match s with
  | StatusPending | StatusQueued | StatusRetryWait => Some StatusCanceled
  | StatusLeased | StatusRunning => Some StatusCancelRequested
  | _ => None
  end.

Definition RequestCancel (scope : string) (jobID : uuid) : Tx CancelResult :=
  transaction (
    routed ← job_in_scope scope jobID;
    lock_queue (j_queue routed);;
    j ← job_in_scope scope jobID;
    serverNow ← clock_timestamp;
    if bool_decide (j_status j = StatusCancelRequested)
       || bool_decide (j_status j = StatusCanceled)
    then commit (mkCancelResult jobID (j_status j) (j_cancel_requested_at j) true)
    else
      match cancel_target (j_status j) with
      | None => throw ErrJobNotCancelable
      | Some target =>
        r ← sql_update jobID
          (λ j', bool_decide (j_scope j' = scope) && bool_decide (j_status j' = j_status j))
          (λ j', j' <| j_status := target |> <| j_cancel_requested_at := Some serverNow |>
                    <| j_updated_at := serverNow |>);
        match r with
        | None => throw ErrJobNotCancelable
        | Some _ => commit (mkCancelResult jobID target (Some serverNow) false)
        end
      end).

(** ** The scheduler *)

Record SchedulerStats := mkSchedulerStats {
  PromotedJobs : nat; Renotified : nat; SchedulerSkipped : nat }.

Definition SchedulerStats_zero : SchedulerStats := mkSchedulerStats 0 0 0.

Definition SchedulerStats_Add (a b : SchedulerStats) : SchedulerStats :=
  mkSchedulerStats (PromotedJobs a + PromotedJobs b) (Renotified a + Renotified b)
    (SchedulerSkipped a + SchedulerSkipped b).

Definition promotable (s : JobStatus) : bool :=
  bool_decide (s = StatusPending) || bool_decide (s = StatusRetryWait).

Definition promoteDueJob (jobID : uuid) : Tx bool :=
  transaction (
    routed ← sql_get jobID;
    match routed with
    | None => no_commit false
    | Some routed =>
      lock_queue (j_queue routed);;
      locked ← sql_get jobID;
      match locked with
      | None => no_commit false
      | Some j =>
        serverNow ← clock_timestamp;
        if negb (promotable (j_status j)) then no_commit false
        else if (serverNow <? j_available_at j)%Z then no_commit false
        else
          r ← sql_update jobID
            (λ j', bool_decide (j_status j' = j_status j)
                   && (j_notification_generation j' =? j_notification_generation j)%Z)
            (λ j', j' <| j_status := StatusQueued |> <| j_updated_at := serverNow |>
               <| j_notification_generation := (j_notification_generation j' + 1)%Z |>
               <| j_last_notification_at := Some serverNow |>);
          match r with
          | None => no_commit false
          | Some j' =>
            InsertWorkAvailableTx jobID (j_queue routed) (j_notification_generation j') None;;
            commit true
          end
      end
    end).

(** [ORDER BY available_at, id] and [ORDER BY last_notification_at, id] (SQL
    sorts NULLs last). *)
Definition job_due_order (x y : uuid * Job) : bool :=
  then_by (Z.compare (j_available_at x.2) (j_available_at y.2)) (x.1 <=? y.1)%N.

Definition option_time_compare (a b : option time) : comparison :=
  match a, b with
  | Some x, Some y => Z.compare x y
  | Some _, None => Lt
  | None, Some _ => Gt
  | None, None => Eq
  end.

Definition job_stranded_order (x y : uuid * Job) : bool :=
  then_by (option_time_compare (j_last_notification_at x.2) (j_last_notification_at y.2))
    (x.1 <=? y.1)%N.

Definition due_job (now : time) (_ : uuid) (j : Job) : bool :=
  promotable (j_status j) && (j_available_at j <=? now)%Z.

Definition PromoteDueJobs (limit : Z) : Tx SchedulerStats :=
  if (limit <? 1)%Z then throw (ErrMsg "scan limit must be positive")
  else
    now ← clock_timestamp;
    d ← get_db;
    let candidates := take (Z.to_nat limit) (map_select (due_job now) job_due_order (jobs d)) in
    for_each (λ stats kv,
        promoted ← promoteDueJob kv.1;
        mret (SchedulerStats_Add stats
          (if (promoted : bool) then mkSchedulerStats 1 0 0 else mkSchedulerStats 0 0 1)))
      SchedulerStats_zero candidates.

Definition renotifyStrandedJob (jobID : uuid) (after : duration) : Tx bool :=
  transaction (
    routed ← sql_get jobID;
    match routed with
    | None => no_commit false
    | Some routed =>
      lock_queue (j_queue routed);;
      locked ← sql_get jobID;
      match locked with
      | None => no_commit false
      | Some j =>
        serverNow ← clock_timestamp;
        match j_last_notification_at j with
        | None => no_commit false
        | Some last =>
          if negb (bool_decide (j_status j = StatusQueued)) || (j_notification_generation j <? 1)%Z
          then no_commit false
          else if negb (last <? serverNow - after)%Z then no_commit false
          else
            pending ← HasPendingWorkAvailableTx jobID (j_notification_generation j);
            if (pending : bool) then no_commit false
            else
              r ← sql_update jobID
                (λ j', bool_decide (j_status j' = StatusQueued)
                       && (j_notification_generation j' =? j_notification_generation j)%Z)
                (λ j', j' <| j_last_notification_at := Some serverNow |>);
              match r with
              | None => no_commit false
              | Some _ =>
                InsertWorkAvailableTx jobID (j_queue routed) (j_notification_generation j) None;;
                commit true
              end
        end
      end
    end).

Definition stranded_job (now : time) (after : duration) (_ : uuid) (j : Job) : bool :=
  bool_decide (j_status j = StatusQueued)
  && match j_last_notification_at j with
     | Some t => (t <? now - make_interval after)%Z
     | None => false
     end.

Definition RenotifyStrandedQueued (after : duration) (limit : Z) : Tx SchedulerStats :=
  if (after <=? 0)%Z then throw (ErrMsg "re-notification interval must be positive")
  else if (limit <? 1)%Z then throw (ErrMsg "scan limit must be positive")
  else
    now ← clock_timestamp;
    d ← get_db;
    let candidates :=
      take (Z.to_nat limit) (map_select (stranded_job now after) job_stranded_order (jobs d)) in
    for_each (λ stats kv,
        renotified ← renotifyStrandedJob kv.1 after;
        mret (SchedulerStats_Add stats
          (if (renotified : bool) then mkSchedulerStats 0 1 0 else mkSchedulerStats 0 0 1)))
      SchedulerStats_zero candidates.

(** ** Replay *)

Record ReplayResult := mkReplayResult {
  rr_original : uuid;
  rr_replacement_id : uuid;
  rr_replacement : Job;
  rr_replayed : bool;
}.

Definition resolveExistingReplay (scope : string) (original : uuid) (key : string)
    : Tx ReplayResult :=
  r ← sql_get (scope, original, key);
  match r with
  | None => throw (ErrMsg "replay record disappeared during replay; retry the request")
  | Some rec =>
    replacement ← getByID scope (r_replacement_job_id rec);
    mret (mkReplayResult original (r_replacement_job_id rec) replacement true)
  end.

(** The replacement copies the definition of the original and nothing else. *)
Definition replacement_job (scope : string) (originalJobID : uuid) (original : Job)
    (serverNow : time) : Job :=
  mkJob scope (j_queue original) (j_type original) (j_payload original) StatusQueued
    (j_priority original) (j_max_attempts original) (j_timeout_seconds original)
    (j_required_capabilities original) None serverNow None (Some originalJobID)
    1 (Some serverNow) serverNow serverNow.

Definition replay_tx (scope : string) (originalJobID : uuid) (key : string)
    : Tx (option (uuid * Job)) :=
  transaction (
    routed ← job_in_scope scope originalJobID;
    lock_queue (j_queue routed);;
    original ← job_in_scope scope originalJobID;
    if negb (bool_decide (j_status original = StatusDeadLettered)) then throw ErrNotDeadLettered
    else
      d ← get_db;
      if negb (map_any (λ _ e, bool_decide (d_job_id e = originalJobID)) (dlq_entries d))
      then throw ErrNotDeadLettered
      else
        serverNow ← clock_timestamp;
        id ← uuid_New;
        let replacement := replacement_job scope originalJobID original serverNow in
        payload ← to_jsonb (j_payload replacement);
        sql_insert id (replacement <| j_payload := payload |>);;
        won ← sql_insert_or_nothing (scope, originalJobID, key) (mkReplay id);
        if (won : bool) then
          InsertWorkAvailableTx id (j_queue replacement) 1 None;;
          commit (Some (id, replacement))
        else no_commit None).

(** [Store.Replay]. *)
Definition Replay (scope : string) (originalJobID : uuid) (key : string) : Tx ReplayResult :=
  r ← replay_tx scope originalJobID key;
  match r with
  | Some (id, job) => mret (mkReplayResult originalJobID id job false)
  | None => resolveExistingReplay scope originalJobID key
  end.
