(* ===== verification/Results.v ===== *)
(** * Package results: the recorded outcome of a job

    internal/results: where a result lives, its shape, and the one insert that
    records it inside the transaction of the success it belongs to. *)

From S2P Require Import Prelude.
From S2P Require Import GoText.
From S2P Require Import GoBytes.
From S2P Require Import Schema.

Definition Classify (body : string) (thresholdBytes : Z) : Location :=
  if (thresholdBytes <=? Z.of_nat (String.length body))%Z then LocationObject
  else LocationInline.

Definition ChecksumSHA256 (body : string) : string := sha256_hex body.

(** [Result]; a nil [InlineBody] is [None]. *)
Record Result := mkGoResult {
  R_JobID : uuid;
  R_AttemptID : uuid;
  R_Scope : string;
  R_Location : Location;
  R_InlineBody : option string;
  R_ObjectBucket : string;
  R_ObjectKey : string;
  R_SizeBytes : Z;
  R_ChecksumSHA256 : string;
  R_ContentType : string;
}.

Definition empty (s : string) : bool := bool_decide (s = ""%string).

(** [Result.Validate]. *)
Definition Validate (r : Result) : bool :=
  match R_Location r with
  | LocationInline =>
    negb (match R_InlineBody r with Some b => empty b | None => true end)
    && (empty (R_ObjectBucket r) && empty (R_ObjectKey r) && empty (R_ChecksumSHA256 r))
  | LocationObject =>
    is_None_b (R_InlineBody r)
    && negb (empty (R_ObjectBucket r) || empty (R_ObjectKey r))
    && negb (empty (R_ChecksumSHA256 r))
  | LocationOther _ => false
  end && (0 <=? R_SizeBytes r)%Z.

Definition nullableString (s : string) : option string := if empty s then None else Some s.

Definition nullableJSON (b : option string) : Tx (option string) :=
  match b with
  | Some s => if empty s then mret None else (v ← to_jsonb s; mret (Some v))
  | None => mret None
  end.

Definition InsertResultTx (r : Result) : Tx unit :=
  if negb (Validate r) then throw ErrInvalidResult
  else
    body ← nullableJSON (R_InlineBody r);
    now ← now_tx;
    let contentType := if empty (R_ContentType r) then "application/json"%string
                       else R_ContentType r in
    sql_insert (R_JobID r)
      (mkResult (R_AttemptID r) (R_Scope r) (R_Location r) body
        (nullableString (R_ObjectBucket r)) (nullableString (R_ObjectKey r))
        (R_SizeBytes r) (nullableString (R_ChecksumSHA256 r)) contentType now).

(** [Store.Get]: the result of a job of the caller's scope. *)
Definition Get (scope : string) (jobID : uuid) : Tx ResultRow :=
  r ← sql_get jobID;
  match r with
  | Some row => if bool_decide (rs_scope row = scope) then mret row else throw ErrResultNotFound
  | None => throw ErrResultNotFound
  end.
