(* ===== verification/WorkersTypes.v ===== *)
(** * Package workers: requests and their validation

    internal/workers/types.go and validation.go. *)

From S2P Require Import Prelude.
From S2P Require Import GoText.
From S2P Require Import GoFloat.
From S2P Require Import Schema.
From S2P Require Import Lifecycle.

Definition MaxCapabilities : nat := 64.
Definition MaxSupportedJobTypes : nat := 64.
Definition MaxWorkerConcurrency : Z := 256.

Record Registration := mkRegistration {
  reg_session_id : uuid;
  reg_name : string;
  reg_hostname : string;
  reg_worker_group : string;
  reg_concurrency_limit : Z;
  reg_capabilities : list string;
  reg_supported_job_types : list string;
  reg_worker_key_id : option uuid;
}.

Record ClaimRequest := mkClaimRequest {
  cq_worker_id : uuid;
  cq_session_id : uuid;
  cq_claim_request_id : uuid;
  cq_queue : string;
}.

Inductive ClaimDisposition :=
| Claimed | QueueEmpty | DuplicateNotification | NoEligibleJob | CapacityExhausted.
#[export] Instance ClaimDisposition_eq : EqDecision ClaimDisposition.
Proof. solve_decision. Defined.

Record Assignment := mkAssignment {
  as_scope : string;
  as_job_id : uuid;
  as_queue : string;
  as_job_type : string;
  as_payload : string;
  as_priority : Z;
  as_timeout_seconds : Z;
  as_required_capabilities : list string;
  as_attempt_id : uuid;
  as_attempt_number : Z;
  as_lease_id : uuid;
  as_lease_expires_at : time;
  as_lease_remaining : duration;
  as_worker_id : uuid;
  as_session_id : uuid;
}.

Record ClaimResult := mkClaimResult {
  cl_disposition : ClaimDisposition;
  cl_assignment : option Assignment;
  cl_replayed : bool;
}.

(** [ClaimResult.SafeToAcknowledge]. *)
Definition SafeToAcknowledge (r : ClaimResult) : bool :=
  (bool_decide (cl_disposition r = Claimed) && is_Some_b (cl_assignment r))
  || ((bool_decide (cl_disposition r = QueueEmpty)
       || bool_decide (cl_disposition r = DuplicateNotification))
      && is_None_b (cl_assignment r)).

Record Fence := mkFence {
  f_job_id : uuid;
  f_attempt_id : uuid;
  f_lease_id : uuid;
  f_worker_id : uuid;
  f_session_id : uuid;
}.

Record ResultRef := mkResultRef {
  ref_location : Location;
  ref_inline : option string;
  ref_bucket : string;
  ref_key : string;
  ref_size_bytes : Z;
  ref_checksum : string;
}.

Record HeartbeatRequest := mkHeartbeat { hb_worker_id : uuid; hb_session_id : uuid }.

Record CancellationDirective := mkDirective {
  cd_job_id : uuid;
  cd_attempt_id : uuid;
  cd_lease_id : uuid;
  cd_cancel_requested_at : option time;
}.

Record HeartbeatResult := mkHeartbeatResult {
  hr_session_id : uuid;
  hr_status : SessionStatus;
  hr_last_heartbeat_at : time;
  hr_cancellations : list CancellationDirective;
}.

Record StartResult := mkStartResult {
  st_attempt_id : uuid;
  st_started_at : time;
  st_timeout_at : time;
  st_remaining : duration;
  st_replayed : bool;
}.

Record FailureReport := mkFailureReport {
  fr_fence : Fence;
  fr_outcome_request_id : uuid;
  fr_class : FailureClass;
  fr_error_code : string;
  fr_error_message : string;
}.

Record CancelAcknowledgment := mkCancelAck {
  ca_fence : Fence;
  ca_outcome_request_id : uuid;
}.

Record OutcomeResult := mkOutcomeResult {
  or_job_id : uuid;
  or_job_status : JobStatus;
  or_attempt_status : AttemptStatus;
  or_retry_at : option time;
  or_retry_delay : option duration;
  or_dead_letter_reason : DLQReason;
  or_replayed : bool;
}.

Record RenewalRequest := mkRenewal {
  rq_fence : Fence;
  rq_renewal_request_id : uuid;
  rq_expected_version : Z;
}.

Record RenewalResult := mkRenewalResult {
  rn_lease_id : uuid;
  rn_renewal_version : Z;
  rn_expires_at : time;
  rn_remaining : duration;
  rn_replayed : bool;
}.

Record ReconcileStats := mkReconcileStats {
  StaleSessions : nat;
  ExpiredLeases : nat;
  TimedOutAttempts : nat;
  CanceledAttempts : nat;
  RequeuedJobs : nat;
  RetryWaitingJobs : nat;
  DeadLetteredJobs : nat;
  ReconcileSkipped : nat;
}.

#[export] Instance eta_ReconcileStats : Eta ReconcileStats := λ r,
  mkReconcileStats (StaleSessions r) (ExpiredLeases r) (TimedOutAttempts r)
    (CanceledAttempts r) (RequeuedJobs r) (RetryWaitingJobs r) (DeadLetteredJobs r)
    (ReconcileSkipped r).

Definition ReconcileStats_zero : ReconcileStats := mkReconcileStats 0 0 0 0 0 0 0 0.

Definition ReconcileStats_Add (a b : ReconcileStats) : ReconcileStats :=
  mkReconcileStats (StaleSessions a + StaleSessions b) (ExpiredLeases a + ExpiredLeases b)
    (TimedOutAttempts a + TimedOutAttempts b) (CanceledAttempts a + CanceledAttempts b)
    (RequeuedJobs a + RequeuedJobs b) (RetryWaitingJobs a + RetryWaitingJobs b)
    (DeadLetteredJobs a + DeadLetteredJobs b) (ReconcileSkipped a + ReconcileSkipped b).

(** [StoreConfig]; [cfg_jitter] is whether a jitter source is set. *)
Record StoreConfig := mkStoreConfig {
  cfg_lease_duration : duration;
  cfg_retry_policy : RetryPolicy.t;
  cfg_jitter : bool;
}.

(** ** Validation: the list of problems, empty when the request is accepted *)

Abbreviation FieldError := (string * string)%type.

Definition require_uuid (field : string) (id : uuid) : list FieldError :=
  if bool_decide (id = uuid_Nil) then [(field, "must be a UUID"%string)] else [].

Definition field_if (b : bool) (field message : string) : list FieldError :=
  if b then [(field, message)] else [].

Definition fence_fields (f : Fence) : list FieldError :=
  require_uuid "job_id" (f_job_id f) ++ require_uuid "attempt_id" (f_attempt_id f)
  ++ require_uuid "lease_id" (f_lease_id f) ++ require_uuid "worker_id" (f_worker_id f)
  ++ require_uuid "worker_session_id" (f_session_id f).

(** Continue only when there is no problem. *)
Definition validated (fields : list FieldError) : Tx unit :=
  match fields with [] => mret tt | _ => throw (ErrValidation fields) end.

Definition ValidateFence (f : Fence) : Tx unit := validated (fence_fields f).

Definition ValidateClaim (req : ClaimRequest) : Tx unit :=
  validated (require_uuid "worker_id" (cq_worker_id req)
    ++ require_uuid "worker_session_id" (cq_session_id req)
    ++ require_uuid "claim_request_id" (cq_claim_request_id req)
    ++ field_if (negb (match_name 63 (cq_queue req))) "queue" "must be a valid queue name").

Definition ValidateHeartbeat (req : HeartbeatRequest) : Tx unit :=
  validated (require_uuid "worker_id" (hb_worker_id req)
    ++ require_uuid "worker_session_id" (hb_session_id req)).

Definition ValidateRenewal (req : RenewalRequest) : Tx unit :=
  validated (fence_fields (rq_fence req)
    ++ require_uuid "renewal_request_id" (rq_renewal_request_id req)
    ++ field_if (rq_expected_version req <? 0)%Z
         "expected_renewal_version" "must not be negative").

Definition ValidateFailureReport (report : FailureReport) : Tx unit :=
  validated (fence_fields (fr_fence report)
    ++ require_uuid "outcome_request_id" (fr_outcome_request_id report)
    ++ field_if (negb (Class.ReportableByHandler (fr_class report))) "failure_class"
         "must be RETRYABLE or PERMANENT; timeout, cancellation, and abandonment are server-authoritative"
    ++ match ValidateErrorCode (fr_error_code report) with
       | Some m => [("error_code"%string, m)] | None => [] end
    ++ match ValidateErrorMessage (fr_error_message report) with
       | Some m => [("error_message"%string, m)] | None => [] end).

Definition ValidateCancelAcknowledgment (ack : CancelAcknowledgment) : Tx unit :=
  validated (fence_fields (ca_fence ack)
    ++ require_uuid "outcome_request_id" (ca_outcome_request_id ack)).

(** [canonicalSet]: trimmed, non-empty, without duplicates, in byte order. *)
Definition canonicalSet (values : list string) : list string :=
  sort_Strings (remove_dups (List.filter (λ v, negb (bool_decide (v = ""%string)))
    (map TrimSpace values))).

(** [NormalizeRegistration]. *)
Definition registration_fields (out : Registration) : list FieldError :=
  require_uuid "worker_session_id" (reg_session_id out)
  ++ field_if (negb (match_name 127 (reg_name out))) "worker_name"
       "must match ^[a-z0-9][a-z0-9._-]{0,127}$"
  ++ field_if ((String.length (reg_hostname out) <? 1)%nat
               || (255 <? String.length (reg_hostname out))%nat)
       "hostname" "must contain between 1 and 255 characters"
  ++ field_if (negb (match_name 63 (reg_worker_group out))) "worker_group"
       "must match ^[a-z0-9][a-z0-9._-]{0,63}$"
  ++ field_if ((reg_concurrency_limit out <? 1)%Z
               || (MaxWorkerConcurrency <? reg_concurrency_limit out)%Z)
       "concurrency_limit" "must be between 1 and 256"
  ++ field_if (MaxCapabilities <? length (reg_capabilities out))%nat "capabilities"
       "must contain at most 64 values"
  ++ field_if (existsb (λ c, negb (match_name 63 (TrimSpace c))) (reg_capabilities out))
       "capabilities" "every value must match ^[a-z0-9][a-z0-9._-]{0,63}$"
  ++ field_if ((length (reg_supported_job_types out) <? 1)%nat
               || (MaxSupportedJobTypes <? length (reg_supported_job_types out))%nat)
       "supported_job_types" "must contain between 1 and 64 values"
  ++ field_if (existsb (λ t, negb (match_name 127 (TrimSpace t))) (reg_supported_job_types out))
       "supported_job_types" "every value must be a valid job type".

Definition NormalizeRegistration (reg : Registration) : Tx Registration :=
  let out := mkRegistration (reg_session_id reg) (TrimSpace (reg_name reg))
    (TrimSpace (reg_hostname reg)) (TrimSpace (reg_worker_group reg))
    (reg_concurrency_limit reg) (reg_capabilities reg) (reg_supported_job_types reg)
    (reg_worker_key_id reg) in
  validated (registration_fields out);;
  mret (mkRegistration (reg_session_id out) (reg_name out) (reg_hostname out)
    (reg_worker_group out) (reg_concurrency_limit out)
    (canonicalSet (reg_capabilities out)) (canonicalSet (reg_supported_job_types out))
    (reg_worker_key_id out)).

Lemma validated_ok fields w u w' :
  validated fields w = (Ok u, w') ↔ fields = [] ∧ w' = w.
Proof. unfold validated, mret, M_ret, throw. destruct u, fields; naive_solver. Qed.
