(* ===== verification/WorkersStore.v ===== *)
(** * Package workers: registration, claims and the fenced transitions

    internal/workers/store.go: sessions and their replacement, the atomic claim,
    the authority rows a fenced operation locks, start and success. *)

From S2P Require Import Prelude.
From S2P Require Import GoText.
From S2P Require Import GoFloat.
From S2P Require Import Schema.
From S2P Require Import Lifecycle.
From S2P Require Import Outbox.
From S2P Require Import JobsStore.
From S2P Require Import Results.
From S2P Require Import WorkersTypes.

(** ** Registration *)

Record Session := mkGoSession {
  ss_id : uuid;
  ss_name : string;
  ss_row : WorkerSession;
}.

(** [INSERT INTO workers ... ON CONFLICT (scope, name) DO UPDATE ... RETURNING id]. *)
Definition upsert_worker (scope name : string) : Tx uuid :=
  id ← uuid_New;
  d ← get_db;
  match map_find (λ _ w, bool_decide (wk_scope w = scope ∧ wk_name w = name)) (workers d) with
  | Some (wid, _) =>
    t ← clock_timestamp;
    sql_update wid (λ _, true) (λ w, w <| wk_updated_at := t |>);;
    mret wid
  | None =>
    now ← now_tx;
    sql_insert id (mkWorker scope name now);;
    mret id
  end.

Definition readSessionForUpdate (id : uuid) : Tx (option Session) :=
  d ← get_db;
  mret (s ← worker_sessions d !! id;
        w ← workers d !! s_worker_id s;
        Some (mkGoSession id (wk_name w) s)).

Definition sameRegistration (existing : Session) (workerID : uuid) (reg : Registration) : bool :=
  bool_decide (ss_id existing = reg_session_id reg
    ∧ s_worker_id (ss_row existing) = workerID
    ∧ ss_name existing = reg_name reg
    ∧ s_hostname (ss_row existing) = reg_hostname reg
    ∧ s_worker_group (ss_row existing) = reg_worker_group reg
    ∧ s_concurrency_limit (ss_row existing) = reg_concurrency_limit reg
    ∧ s_capabilities (ss_row existing) = reg_capabilities reg
    ∧ s_supported_job_types (ss_row existing) = reg_supported_job_types reg).

(** The worker's current sessions, ended. *)
Definition fence_prior_sessions (workerID : uuid) : Tx unit :=
  d ← get_db;
  for_each (λ _ kv,
      t ← clock_timestamp;
      sql_update kv.1
        (λ s, bool_decide (s_worker_id s = workerID) && isCurrentSessionStatus (s_status s))
        (λ s, s <| s_status := SessionOffline |> <| s_ended_at := Some t |>);;
      mret tt)
    tt
    (map_where (λ _ s, bool_decide (s_worker_id s = workerID)
                       && isCurrentSessionStatus (s_status s)) (worker_sessions d)).

Definition Register (scope : string) (registration : Registration) : Tx Session :=
  reg ← NormalizeRegistration registration;
  transaction (
    workerID ← upsert_worker scope (reg_name reg);
    existing ← readSessionForUpdate (reg_session_id reg);
    match existing with
    | Some existing =>
      if negb (sameRegistration existing workerID reg) then throw ErrSessionConflict
      else if negb (bool_decide (s_status (ss_row existing) = SessionHealthy))
      then throw ErrSessionUnavailable
      else commit existing
    | None =>
      fence_prior_sessions workerID;;
      registeredAt ← clock_timestamp;
      let row := mkSession workerID scope (reg_hostname reg) (reg_worker_group reg)
        (reg_concurrency_limit reg) (reg_capabilities reg) (reg_supported_job_types reg)
        SessionHealthy registeredAt registeredAt None (reg_worker_key_id reg) in
      on_unique_violation ErrSessionConflict (sql_insert (reg_session_id reg) row);;
      commit (mkGoSession (reg_session_id reg) (reg_name reg) row)
    end).

Definition SessionScope (sessionID : uuid) : Tx (string * option uuid) :=
  r ← sql_get sessionID;
  match r with
  | Some s => mret (s_scope s, s_worker_key_id s)
  | None => throw ErrSessionUnavailable
  end.

(** ** Claims *)

(** The assignment a claim request already produced. *)
Definition lookup_claim (d : DB) (claimID : uuid) : option Assignment :=
  '(lid, l) ← map_find (λ _ l, bool_decide (l_claim_request_id l = claimID)) (leases d);
  a ← job_attempts d !! l_attempt_id l;
  j ← jobs d !! a_job_id a;
  Some (mkAssignment (a_scope a) (a_job_id a) (j_queue j) (j_type j) (j_payload j)
    (j_priority j) (j_timeout_seconds j) (j_required_capabilities j)
    (l_attempt_id l) (a_number a) lid (l_expires_at l) 0 (a_worker_id a) (a_session_id a)).

Definition lookupClaim (claimID : uuid) : Tx (option Assignment) :=
  d ← get_db; mret (lookup_claim d claimID).

Definition remainingUntil (expiresAt serverNow : time) : duration :=
  let remaining := (expiresAt - serverNow)%Z in
  if (remaining <? 0)%Z then 0%Z else remaining.

Definition setLeaseRemaining (a : Assignment) : Tx Assignment :=
  serverNow ← clock_timestamp;
  mret (mkAssignment (as_scope a) (as_job_id a) (as_queue a) (as_job_type a) (as_payload a)
    (as_priority a) (as_timeout_seconds a) (as_required_capabilities a) (as_attempt_id a)
    (as_attempt_number a) (as_lease_id a) (as_lease_expires_at a)
    (remainingUntil (as_lease_expires_at a) serverNow) (as_worker_id a) (as_session_id a)).

Definition commitNoClaim (d : ClaimDisposition) : Tx (bool * ClaimResult) :=
  commit (mkClaimResult d None false).

Definition is_active (l : Lease) : bool := bool_decide (l_status l = LeaseActive).

Definition active_for_queue (queue : string) (_ : uuid) (l : Lease) : bool :=
  bool_decide (l_queue l = queue) && is_active l.
Definition active_for_worker (worker : uuid) (_ : uuid) (l : Lease) : bool :=
  bool_decide (l_worker_id l = worker) && is_active l.

Definition attempts_of (jobID : uuid) (_ : uuid) (a : Attempt) : bool :=
  bool_decide (a_job_id a = jobID).

(** [SELECT count( * ) FROM job_attempts WHERE job_id = $1]. *)
Definition attempt_count (d : DB) (jobID : uuid) : Z :=
  Z.of_nat (map_count (attempts_of jobID) (job_attempts d)).

(** [SELECT COALESCE(max(attempt_number), 0) + 1 ... WHERE job_id = $1]. *)
Definition next_attempt_number (d : DB) (jobID : uuid) : Z :=
  (fold_right Z.max 0 (map (λ kv, a_number kv.2)
     (map_where (attempts_of jobID) (job_attempts d))) + 1)%Z.

Definition claimable (d : DB) (scope queue : string) (capabilities jobTypes : list string)
    (now : time) (id : uuid) (j : Job) : bool :=
  bool_decide (j_scope j = scope) && bool_decide (j_queue j = queue)
  && bool_decide (j_status j = StatusQueued) && (j_available_at j <=? now)%Z
  && forallb (λ c, bool_decide (c ∈ capabilities)) (j_required_capabilities j)
  && bool_decide (j_type j ∈ jobTypes)
  && (attempt_count d id <? j_max_attempts j)%Z.

(** [ORDER BY priority DESC, available_at ASC, created_at ASC, id ASC]. *)
Definition claim_order (x y : uuid * Job) : bool :=
  then_by (Z.compare (j_priority y.2) (j_priority x.2))
    (then_by (Z.compare (j_available_at x.2) (j_available_at y.2))
      (then_by (Z.compare (j_created_at x.2) (j_created_at y.2)) (x.1 <=? y.1)%N)).

Definition due_in_queue (scope queue : string) (now : time) (_ : uuid) (j : Job) : bool :=
  bool_decide (j_scope j = scope) && bool_decide (j_queue j = queue)
  && bool_decide (j_status j = StatusQueued) && (j_available_at j <=? now)%Z.

(** The attempt, the lease and the transition of a claimed job. *)
Definition issue_claim (cfg : StoreConfig) (scope : string) (req : ClaimRequest)
    (jobID : uuid) (j : Job) : Tx (bool * ClaimResult) :=
  attemptID ← uuid_New;
  leaseID ← uuid_New;
  d ← get_db;
  let number := next_attempt_number d jobID in
  created ← now_tx;
  sql_insert attemptID (mkAttempt jobID scope (j_queue j) number (cq_worker_id req)
    (cq_session_id req) AttemptLeased None None created None None None None None None None);;
  acquiredAt ← clock_timestamp;
  let expiresAt := timestamptz (acquiredAt + cfg_lease_duration cfg) in
  sql_insert leaseID (mkLease jobID attemptID scope (j_queue j) (cq_worker_id req)
    (cq_session_id req) (cq_claim_request_id req) LeaseActive acquiredAt expiresAt acquiredAt
    None 0 None);;
  r ← sql_update jobID
    (λ j', bool_decide (j_scope j' = scope) && bool_decide (j_status j' = StatusQueued))
    (λ j', j' <| j_status := StatusLeased |> <| j_updated_at := acquiredAt |>);
  match r with
  | None => throw ErrStateConflict
  | Some _ =>
    commit (mkClaimResult Claimed
      (Some (mkAssignment scope jobID (j_queue j) (j_type j) (j_payload j) (j_priority j)
        (j_timeout_seconds j) (j_required_capabilities j) attemptID number leaseID expiresAt
        (cfg_lease_duration cfg) (cq_worker_id req) (cq_session_id req))) false)
  end.

(** What the claim does once the capacity rows are locked and this claim request
    is known to be new. *)
Definition claim_new (cfg : StoreConfig) (scope : string) (req : ClaimRequest) (q : Queue)
    (s : WorkerSession) : Tx (bool * ClaimResult) :=
  if negb (bool_decide (s_worker_group s = q_worker_group q)) then commitNoClaim NoEligibleJob
  else
    d ← get_db;
    if (q_max_concurrency q <=? Z.of_nat (map_count (active_for_queue (cq_queue req)) (leases d)))%Z
    then commitNoClaim CapacityExhausted
    else if (s_concurrency_limit s
             <=? Z.of_nat (map_count (active_for_worker (cq_worker_id req)) (leases d)))%Z
    then commitNoClaim CapacityExhausted
    else
      now ← clock_timestamp;
      match map_select
          (claimable d scope (cq_queue req) (s_capabilities s) (s_supported_job_types s) now)
          claim_order (jobs d) with
      | [] =>
        now' ← clock_timestamp;
        if map_any (due_in_queue scope (cq_queue req) now') (jobs d)
        then commitNoClaim NoEligibleJob
        else commitNoClaim QueueEmpty
      | (jobID, j) :: _ => issue_claim cfg scope req jobID j
      end.

(** The transaction of a claim: the queue and session rows locked, then a replay
    of a known claim request or a new claim. *)
Definition claim_tx (cfg : StoreConfig) (scope : string) (req : ClaimRequest) : Tx ClaimResult :=
  transaction (
    d ← get_db;
    match queues d !! cq_queue req with
    | None => throw ErrUnknownQueue
    | Some q =>
      match worker_sessions d !! cq_session_id req with
      | None => throw ErrSessionUnavailable
      | Some s =>
        if negb (bool_decide (s_worker_id s = cq_worker_id req ∧ s_scope s = scope
                              ∧ s_status s = SessionHealthy))
        then throw ErrSessionUnavailable
        else
          existing ← lookupClaim (cq_claim_request_id req);
          match existing with
          | Some existing =>
            if negb (bool_decide (as_scope existing = scope ∧ as_queue existing = cq_queue req))
            then throw ErrClaimConflict
            else if negb (bool_decide (as_worker_id existing = cq_worker_id req
                                       ∧ as_session_id existing = cq_session_id req))
            then commitNoClaim DuplicateNotification
            else
              existing ← setLeaseRemaining existing;
              commit (mkClaimResult Claimed (Some existing) true)
          | None => claim_new cfg scope req q s
          end
      end
    end).

Definition Claim (cfg : StoreConfig) (scope : string) (req : ClaimRequest) : Tx ClaimResult :=
  ValidateClaim req;;
  if (cfg_lease_duration cfg <=? 0)%Z then throw (ErrMsg "lease duration must be positive")
  else
    preflight ← lookupClaim (cq_claim_request_id req);
    if match preflight with
       | Some existing => negb (bool_decide (as_scope existing = scope ∧ as_queue existing = cq_queue req))
       | None => false
       end
    then throw ErrClaimConflict
    else claim_tx cfg scope req.

(** ** The authority rows *)

Record fenceState := mkFenceState {
  fs_queue : string;
  fs_scope : string;
  fs_job_status : JobStatus;
  fs_attempt_status : AttemptStatus;
  fs_lease_status : LeaseStatus;
  fs_expires_at : time;
  fs_server_now : time;
  fs_renewal_version : Z;
  fs_last_renewal_request_id : option uuid;
  fs_attempt_number : Z;
  fs_max_attempts : Z;
  fs_timeout_at : option time;
  fs_outcome_request_id : option uuid;
  fs_failure_class : option FailureClass;
  fs_error_code : option string;
  fs_error_message : option string;
  fs_retry_delay_ms : option Z;
  fs_retry_at : option time;
  fs_session_healthy : bool;
}.

Definition timedOut (s : fenceState) : bool :=
  match fs_timeout_at s with
  | Some t => negb (fs_server_now s <? t)%Z
  | None => false
  end.

Definition leaseUsable (s : fenceState) : bool :=
  bool_decide (fs_lease_status s = LeaseActive) && (fs_server_now s <? fs_expires_at s)%Z.

(** The lease that binds exactly the fence's job, attempt, worker, session and
    scope. *)
Definition fence_lease (d : DB) (scope : string) (f : Fence) : option Lease :=
  l ← leases d !! f_lease_id f;
  if bool_decide (l_job_id l = f_job_id f ∧ l_attempt_id l = f_attempt_id f
      ∧ l_worker_id l = f_worker_id f ∧ l_session_id l = f_session_id f ∧ l_scope l = scope)
  then Some l else None.

Definition fence_session (d : DB) (scope : string) (f : Fence) : option WorkerSession :=
  s ← worker_sessions d !! f_session_id f;
  if bool_decide (s_worker_id s = f_worker_id f ∧ s_scope s = scope) then Some s else None.

(** The locking join of the job, its attempt and the attempt's lease. *)
Definition fence_rows (d : DB) (scope : string) (f : Fence) : option (Job * Attempt * Lease) :=
  j ← jobs d !! f_job_id f;
  a ← job_attempts d !! f_attempt_id f;
  l ← leases d !! f_lease_id f;
  if bool_decide (a_job_id a = f_job_id f ∧ l_attempt_id l = f_attempt_id f
      ∧ a_worker_id a = f_worker_id f ∧ a_session_id a = f_session_id f
      ∧ j_scope j = scope ∧ a_scope a = scope ∧ l_scope l = scope)
  then Some (j, a, l) else None.

Definition fence_state (scope : string) (s : WorkerSession) (j : Job) (a : Attempt) (l : Lease)
    (serverNow : time) : fenceState :=
  mkFenceState (l_queue l) scope (j_status j) (a_status a) (l_status l) (l_expires_at l)
    serverNow (l_renewal_version l) (l_last_renewal_request_id l) (a_number a)
    (j_max_attempts j) (a_timeout_at a) (a_outcome_request_id a) (a_failure_class a)
    (a_error_code a) (a_error_message a) (a_retry_delay_ms a) (a_retry_at a)
    (bool_decide (s_status s = SessionHealthy)).

Definition lockAuthorityRows (scope : string) (f : Fence) : Tx fenceState :=
  d ← get_db;
  match fence_lease d scope f with
  | None => throw ErrFenceRejected
  | Some route =>
    lock_queue (l_queue route);;
    match fence_session d scope f with
    | None => throw ErrFenceRejected
    | Some s =>
      match fence_rows d scope f with
      | None => throw ErrFenceRejected
      | Some (j, a, l) =>
        serverNow ← clock_timestamp;
        mret (fence_state scope s j a l serverNow)
      end
    end
  end.

Definition lockFence (scope : string) (f : Fence) : Tx fenceState :=
  state ← lockAuthorityRows scope f;
  if negb (fs_session_healthy state) then throw ErrFenceRejected else mret state.

(** ** Start *)

Definition Start (scope : string) (fence : Fence) : Tx StartResult :=
  ValidateFence fence;;
  transaction (
    state ← lockFence scope fence;
    if negb (leaseUsable state) then throw ErrLeaseExpired
    else if bool_decide (fs_job_status state = StatusRunning)
            && bool_decide (fs_attempt_status state = AttemptRunning) then
      row ← sql_get (f_attempt_id fence);
      match row with
      | None => throw ErrNoRows
      | Some a =>
        match a_started_at a, a_timeout_at a with
        | Some startedAt, Some timeoutAt =>
          commit (mkStartResult (f_attempt_id fence) startedAt timeoutAt
            (remainingUntil timeoutAt (fs_server_now state)) true)
        | None, _ => throw (ErrMsg "cannot scan NULL started_at")
        | _, None => throw ErrStateConflict
        end
      end
    else if bool_decide (fs_job_status state = StatusCancelRequested)
            || bool_decide (fs_job_status state = StatusCanceled)
    then throw ErrCancellationRequested
    else if negb (bool_decide (fs_job_status state = StatusLeased))
            || negb (bool_decide (fs_attempt_status state = AttemptLeased))
    then throw ErrStateConflict
    else
      row ← sql_get (f_job_id fence);
      match (row : option Job) with
      | None => throw ErrNoRows
      | Some j =>
        let timeoutAt := (fs_server_now state + j_timeout_seconds j * Second)%Z in
        r ← sql_update (f_attempt_id fence)
          (λ a, bool_decide (a_status a = AttemptLeased))
          (λ a, a <| a_status := AttemptRunning |>
                  <| a_started_at := Some (fs_server_now state) |>
                  <| a_timeout_at := Some timeoutAt |>);
        if is_None_b r then throw ErrStateConflict
        else
          r' ← sql_update (f_job_id fence)
            (λ j, bool_decide (j_status j = StatusLeased))
            (λ j, j <| j_status := StatusRunning |>
                    <| j_updated_at := fs_server_now state |>);
          if is_None_b r' then throw ErrStateConflict
          else commit (mkStartResult (f_attempt_id fence) (fs_server_now state) timeoutAt
            (j_timeout_seconds j * Second)%Z false)
      end).

(** ** Success *)

Definition Succeed (scope : string) (fence : Fence) (res : option ResultRef) : Tx unit :=
  ValidateFence fence;;
  transaction (
    state ← lockAuthorityRows scope fence;
    if bool_decide (fs_job_status state = StatusSucceeded
        ∧ fs_attempt_status state = AttemptSucceeded ∧ fs_lease_status state = LeaseCompleted)
    then commit tt
    else if negb (fs_session_healthy state) then throw ErrFenceRejected
    else if timedOut state then throw ErrAttemptTimedOut
    else if negb (leaseUsable state) then throw ErrLeaseExpired
    else if negb (bool_decide (fs_job_status state = StatusRunning))
            || negb (bool_decide (fs_attempt_status state = AttemptRunning))
    then throw ErrStateConflict
    else
      r1 ← sql_update (f_job_id fence)
        (λ j, bool_decide (j_status j = StatusRunning))
        (λ j, j <| j_status := StatusSucceeded |> <| j_updated_at := fs_server_now state |>);
      if is_None_b r1 then throw ErrStateConflict else
      r2 ← sql_update (f_attempt_id fence)
        (λ a, bool_decide (a_status a = AttemptRunning))
        (λ a, a <| a_status := AttemptSucceeded |>
                <| a_finished_at := Some (fs_server_now state) |>);
      if is_None_b r2 then throw ErrStateConflict else
      r3 ← sql_update (f_lease_id fence) is_active
        (λ l, l <| l_status := LeaseCompleted |>
                <| l_released_at := Some (fs_server_now state) |>);
      if is_None_b r3 then throw ErrStateConflict else
      match res with
      | Some ref =>
        InsertResultTx (mkGoResult (f_job_id fence) (f_attempt_id fence) scope
          (ref_location ref) (ref_inline ref) (ref_bucket ref) (ref_key ref)
          (ref_size_bytes ref) (ref_checksum ref) "")
      | None => mret tt
      end;;
      commit tt).
