(* ===== verification/WorkersOutcome.v ===== *)
(** * Package workers: terminal outcomes

    internal/workers/outcome.go, heartbeat.go, timeout.go and reconcile.go:
    failure reports and their replay, cancellation, heartbeats, lease renewal,
    and the reconciliation of stale sessions, due timeouts and expired leases. *)

From S2P Require Import Prelude.
From S2P Require Import GoText.
From S2P Require Import GoFloat.
From S2P Require Import Schema.
From S2P Require Import Lifecycle.
From S2P Require Import Outbox.
From S2P Require Import JobsStore.
From S2P Require Import WorkersTypes.
From S2P Require Import WorkersStore.

Import RetryPolicy.

Definition isExecutingJobStatus (s : JobStatus) : bool :=
  bool_decide (s = StatusLeased) || bool_decide (s = StatusRunning).

Definition isExecutingAttemptStatus (s : AttemptStatus) : bool :=
  bool_decide (s = AttemptLeased) || bool_decide (s = AttemptRunning).

Definition nullableString (v : string) : option string :=
  if bool_decide (v = ""%string) then None else Some v.
Definition derefString (v : option string) : string := default ""%string v.

(** ** Job transitions out of execution *)

(** [setJobStatus]; [availableAt] is [None] for the zero time. *)
Definition setJobStatus (jobID : uuid) (status : JobStatus) (availableAt : option time)
    (serverNow : time) : Tx unit :=
  r ← sql_update jobID (λ j, isExecutingJobStatus (j_status j))
    (λ j, match availableAt with
          | Some t => j <| j_status := status |> <| j_updated_at := serverNow |>
                        <| j_available_at := timestamptz t |>
          | None => j <| j_status := status |> <| j_updated_at := serverNow |>
          end);
  if is_None_b r then throw ErrStateConflict else mret tt.

Definition requeueJob (jobID : uuid) (serverNow : time) : Tx Z :=
  r ← sql_update jobID (λ j, isExecutingJobStatus (j_status j))
    (λ j, j <| j_status := StatusQueued |> <| j_available_at := serverNow |>
            <| j_updated_at := serverNow |>
            <| j_notification_generation := (j_notification_generation j + 1)%Z |>
            <| j_last_notification_at := Some serverNow |>);
  match r with
  | None => throw ErrStateConflict
  | Some j => mret (j_notification_generation j)
  end.

(** ** Finalization *)

Record attemptOutcome := mkAttemptOutcome {
  ao_status : AttemptStatus;
  ao_class : FailureClass;
  ao_error_code : string;
  ao_error_message : string;
  ao_outcome_request_id : option uuid;
  ao_lease_status : LeaseStatus;
}.

(** [COALESCE($7, outcome_request_id)]. *)
Definition coalesce {A} (a b : option A) : option A := match a with Some _ => a | None => b end.

(** The attempt row a terminal outcome writes. *)
Definition close_attempt (state : fenceState) (outcome : attemptOutcome)
    (delayMs : option Z) (retryAt : option time) (a : Attempt) : Attempt :=
  a <| a_status := ao_status outcome |> <| a_finished_at := Some (fs_server_now state) |>
    <| a_failure_class := Some (ao_class outcome) |>
    <| a_error_code := nullableString (ao_error_code outcome) |>
    <| a_error_message := nullableString (ao_error_message outcome) |>
    <| a_outcome_request_id := coalesce (ao_outcome_request_id outcome) (a_outcome_request_id a) |>
    <| a_retry_delay_ms := delayMs |> <| a_retry_at := timestamptz <$> retryAt |>.

Definition release_lease (leaseID : uuid) (status : LeaseStatus) (serverNow : time) : Tx unit :=
  r ← sql_update leaseID is_active
    (λ l, l <| l_status := status |> <| l_released_at := Some serverNow |>);
  if is_None_b r then throw ErrStateConflict else mret tt.

Definition finalizeAttempt (state : fenceState) (fence : Fence) (outcome : attemptOutcome)
    (decision : Decision) : Tx OutcomeResult :=
  let storedMillis := Z.quot (DecisionDelay decision) Millisecond in
  let delayMs := if Retry decision then Some storedMillis else None in
  let retryAt := if Retry decision
                 then Some (fs_server_now state + storedMillis * Millisecond)%Z else None in
  r ← on_unique_violation ErrOutcomeConflict
    (sql_update (f_attempt_id fence)
      (λ a, isExecutingAttemptStatus (a_status a))
      (close_attempt state outcome delayMs retryAt));
  match r with
  | None => throw ErrStateConflict
  | Some stored =>
    release_lease (f_lease_id fence) (ao_lease_status outcome) (fs_server_now state);;
    if Retry decision then
      let retryDelay := (λ ms, (ms * Millisecond)%Z) <$> a_retry_delay_ms stored in
      if (0 <? storedMillis)%Z then
        setJobStatus (f_job_id fence) StatusRetryWait (a_retry_at stored) (fs_server_now state);;
        mret (mkOutcomeResult (f_job_id fence) StatusRetryWait (ao_status outcome)
          (a_retry_at stored) retryDelay (ReasonOther "") false)
      else
        generation ← requeueJob (f_job_id fence) (fs_server_now state);
        InsertWorkAvailableTx (f_job_id fence) (fs_queue state) generation None;;
        mret (mkOutcomeResult (f_job_id fence) StatusQueued (ao_status outcome)
          (a_retry_at stored) retryDelay (ReasonOther "") false)
    else
      setJobStatus (f_job_id fence) StatusDeadLettered None (fs_server_now state);;
      InsertDLQEntryTx (fs_scope state) (fs_queue state) (f_job_id fence)
        (Some (f_attempt_id fence)) (DeadLetterReason decision) (fs_server_now state);;
      mret (mkOutcomeResult (f_job_id fence) StatusDeadLettered (ao_status outcome)
        None None (DeadLetterReason decision) false)
  end.

Definition cancel_attempt (state : fenceState) (outcomeRequestID : option uuid) (a : Attempt)
    : Attempt :=
  a <| a_status := AttemptCanceled |> <| a_finished_at := Some (fs_server_now state) |>
    <| a_failure_class := Some ClassCanceled |>
    <| a_error_code := Some CodeCanceled |> <| a_error_message := Some MessageCanceled |>
    <| a_outcome_request_id := coalesce outcomeRequestID (a_outcome_request_id a) |>.

Definition finalizeCancellation (state : fenceState) (fence : Fence)
    (outcomeRequestID : option uuid) (leaseStatus : LeaseStatus) : Tx OutcomeResult :=
  r ← on_unique_violation ErrOutcomeConflict
    (sql_update (f_attempt_id fence)
      (λ a, isExecutingAttemptStatus (a_status a))
      (cancel_attempt state outcomeRequestID));
  if is_None_b r then throw ErrStateConflict
  else
    release_lease (f_lease_id fence) leaseStatus (fs_server_now state);;
    r' ← sql_update (f_job_id fence)
      (λ j, bool_decide (j_status j = StatusCancelRequested))
      (λ j, j <| j_status := StatusCanceled |> <| j_updated_at := fs_server_now state |>);
    if is_None_b r' then throw ErrStateConflict
    else mret (mkOutcomeResult (f_job_id fence) StatusCanceled AttemptCanceled None None
      (ReasonOther "") false).

(** ** Replayed outcomes *)

Definition decidedJobStatus (state : fenceState) : JobStatus :=
  if bool_decide (fs_attempt_status state = AttemptCanceled) then StatusCanceled
  else match fs_retry_delay_ms state with
       | None => StatusDeadLettered
       | Some ms => if (ms =? 0)%Z then StatusQueued else StatusRetryWait
       end.

Definition replayedOutcome (state : fenceState) (report : FailureReport)
    : result error OutcomeResult :=
  if negb (bool_decide (fs_failure_class state = Some (fr_class report))) then Err ErrOutcomeConflict
  else if negb (bool_decide (derefString (fs_error_code state) = fr_error_code report))
          || negb (bool_decide (derefString (fs_error_message state) = fr_error_message report))
  then Err ErrOutcomeConflict
  else
    let jobStatus := decidedJobStatus state in
    Ok (mkOutcomeResult (f_job_id (fr_fence report)) jobStatus (fs_attempt_status state)
      (fs_retry_at state) ((λ ms, (ms * Millisecond)%Z) <$> fs_retry_delay_ms state)
      (if bool_decide (jobStatus = StatusDeadLettered) then
         if bool_decide (fs_failure_class state = Some ClassPermanent)
         then ReasonPermanentFailure else ReasonAttemptsExhausted
       else ReasonOther "")
      true).

Definition rejectForeignOutcomeIdentity (outcomeRequestID attemptID : uuid) : Tx unit :=
  d ← get_db;
  match map_find (λ _ a, bool_decide (a_outcome_request_id a = Some outcomeRequestID))
          (job_attempts d) with
  | Some (owner, _) => if bool_decide (owner = attemptID) then mret tt else throw ErrOutcomeConflict
  | None => mret tt
  end.

Definition lift {A} (r : result error A) : Tx A :=
  match r with Ok a => mret a | Err e => throw e end.

(** The jitter sample of a decision, none for a nil source.  The samples are
    arbitrary, so reading one that is not used changes nothing. *)
Definition jitter_sample (cfg : StoreConfig) : Tx (option f64) :=
  if cfg_jitter cfg then (s ← jitter_Float64; mret (Some s)) else mret None.

Definition decideRetry (cfg : StoreConfig) (class : FailureClass) (state : fenceState)
    : Tx (result error Decision) :=
  sample ← jitter_sample cfg;
  arch ← get_arch;
  mret (Decide arch (cfg_retry_policy cfg) class (fs_attempt_number state)
    (fs_attempt_number state) (fs_max_attempts state) sample).

(** ** Fail *)

Definition Fail (cfg : StoreConfig) (scope : string) (report : FailureReport) : Tx OutcomeResult :=
  ValidateFailureReport report;;
  transaction (
    state ← lockAuthorityRows scope (fr_fence report);
    if bool_decide (fs_outcome_request_id state = Some (fr_outcome_request_id report)) then
      r ← lift (replayedOutcome state report);
      commit r
    else
      rejectForeignOutcomeIdentity (fr_outcome_request_id report) (f_attempt_id (fr_fence report));;
      if negb (fs_session_healthy state) then throw ErrFenceRejected
      else if timedOut state then throw ErrAttemptTimedOut
      else if negb (leaseUsable state) then throw ErrLeaseExpired
      else if negb (bool_decide (fs_job_status state = StatusRunning))
              || negb (bool_decide (fs_attempt_status state = AttemptRunning))
      then throw ErrStateConflict
      else
        decision ← decideRetry cfg (fr_class report) state;
        match decision with
        | Err _ => throw ErrStateConflict
        | Ok decision =>
          r ← finalizeAttempt state (fr_fence report)
            (mkAttemptOutcome AttemptFailed (fr_class report) (fr_error_code report)
              (fr_error_message report) (Some (fr_outcome_request_id report)) LeaseReleased)
            decision;
          commit r
        end).

(** ** Cancellation acknowledgment *)

Definition AcknowledgeCancellation (scope : string) (ack : CancelAcknowledgment)
    : Tx OutcomeResult :=
  ValidateCancelAcknowledgment ack;;
  transaction (
    state ← lockAuthorityRows scope (ca_fence ack);
    if bool_decide (fs_outcome_request_id state = Some (ca_outcome_request_id ack)) then
      if negb (bool_decide (fs_attempt_status state = AttemptCanceled)) then throw ErrOutcomeConflict
      else commit (mkOutcomeResult (f_job_id (ca_fence ack)) (decidedJobStatus state)
             (fs_attempt_status state) None None (ReasonOther "") true)
    else
      rejectForeignOutcomeIdentity (ca_outcome_request_id ack) (f_attempt_id (ca_fence ack));;
      if negb (fs_session_healthy state) then throw ErrFenceRejected
      else if negb (leaseUsable state) then throw ErrLeaseExpired
      else if negb (bool_decide (fs_job_status state = StatusCancelRequested))
              || negb (isExecutingAttemptStatus (fs_attempt_status state))
      then throw ErrStateConflict
      else
        r ← finalizeCancellation state (ca_fence ack) (Some (ca_outcome_request_id ack)) LeaseReleased;
        commit r).

(** ** Heartbeats *)

Definition maxCancellationDirectives : nat := 256.

Definition directive_order (x y : CancellationDirective) : bool :=
  then_by (option_time_compare (cd_cancel_requested_at x) (cd_cancel_requested_at y))
    (cd_attempt_id x <=? cd_attempt_id y)%N.

(** The attempts a session may still be executing whose jobs are cancelling,
    joined to their active leases. *)
Definition directive_of (d : DB) (sessionID : uuid) (kl : uuid * Lease)
    : option CancellationDirective :=
  let '(lid, l) := kl in
  a ← job_attempts d !! l_attempt_id l;
  j ← jobs d !! a_job_id a;
  if bool_decide (a_session_id a = sessionID) && isExecutingAttemptStatus (a_status a)
     && bool_decide (j_status j = StatusCancelRequested) && is_active l
  then Some (mkDirective (a_job_id a) (l_attempt_id l) lid (j_cancel_requested_at j))
  else None.

Definition cancellationDirectives (d : DB) (sessionID : uuid) (limit : nat)
    : list CancellationDirective :=
  take limit (merge_sort (ordby directive_order)
    (omap (directive_of d sessionID) (map_to_list (leases d)))).

Definition Heartbeat (scope : string) (req : HeartbeatRequest) : Tx HeartbeatResult :=
  ValidateHeartbeat req;;
  transaction (
    row ← sql_get (hb_session_id req);
    match (row : option WorkerSession) with
    | None => throw ErrSessionUnavailable
    | Some s =>
      if negb (bool_decide (s_worker_id s = hb_worker_id req ∧ s_scope s = scope))
      then throw ErrSessionUnavailable
      else if negb (bool_decide (s_status s = SessionHealthy)) then throw ErrSessionUnavailable
      else
        receivedAt ← clock_timestamp;
        r ← sql_update (hb_session_id req)
          (λ s, bool_decide (s_status s = SessionHealthy))
          (λ s, s <| s_last_heartbeat_at := Z.max (s_last_heartbeat_at s) receivedAt |>);
        match r with
        | None => throw ErrSessionUnavailable
        | Some s' =>
          d ← get_db;
          commit (mkHeartbeatResult (hb_session_id req) SessionHealthy (s_last_heartbeat_at s')
            (cancellationDirectives d (hb_session_id req) maxCancellationDirectives))
        end
    end).

(** ** Renewal *)

Definition RenewLease (cfg : StoreConfig) (scope : string) (req : RenewalRequest)
    : Tx RenewalResult :=
  ValidateRenewal req;;
  if (cfg_lease_duration cfg <=? 0)%Z then throw (ErrMsg "lease duration must be positive")
  else
    transaction (
      state ← lockFence scope (rq_fence req);
      if negb (leaseUsable state) then throw ErrLeaseExpired
      else if timedOut state then throw ErrAttemptTimedOut
      else if negb (isExecutingJobStatus (fs_job_status state))
              || negb (isExecutingAttemptStatus (fs_attempt_status state))
      then throw ErrStateConflict
      else if bool_decide (fs_last_renewal_request_id state = Some (rq_renewal_request_id req)) then
        if negb (fs_renewal_version state =? rq_expected_version req + 1)%Z
        then throw ErrRenewalConflict
        else commit (mkRenewalResult (f_lease_id (rq_fence req)) (fs_renewal_version state)
          (fs_expires_at state) (remainingUntil (fs_expires_at state) (fs_server_now state)) true)
      else
        d ← get_db;
        if match map_find (λ _ l, bool_decide
                   (l_last_renewal_request_id l = Some (rq_renewal_request_id req))) (leases d) with
           | Some (owner, _) => negb (bool_decide (owner = f_lease_id (rq_fence req)))
           | None => false
           end
        then throw ErrRenewalConflict
        else if negb (fs_renewal_version state =? rq_expected_version req)%Z
        then throw ErrRenewalConflict
        else
          r ← on_unique_violation ErrRenewalConflict
            (sql_update (f_lease_id (rq_fence req))
              (λ l, is_active l && (l_renewal_version l =? rq_expected_version req)%Z)
              (λ l, l <| l_renewed_at := fs_server_now state |>
                 <| l_expires_at := timestamptz (fs_server_now state + cfg_lease_duration cfg) |>
                 <| l_renewal_version := (l_renewal_version l + 1)%Z |>
                 <| l_last_renewal_request_id := Some (rq_renewal_request_id req) |>));
          match r with
          | None => throw ErrRenewalConflict
          | Some l =>
            commit (mkRenewalResult (f_lease_id (rq_fence req)) (l_renewal_version l)
              (l_expires_at l) (remainingUntil (l_expires_at l) (fs_server_now state)) false)
          end).

(** ** Reconciliation *)

Definition timedOutBeforeLapse (s : fenceState) : bool :=
  match fs_timeout_at s with
  | Some t => negb (fs_expires_at s <? t)%Z && timedOut s
  | None => false
  end.

Definition markSessionStale (id : uuid) (staleAfter : duration) : Tx bool :=
  transaction (
    row ← sql_get id;
    match (row : option WorkerSession) with
    | None => no_commit false
    | Some s =>
      serverNow ← clock_timestamp;
      if negb (isCurrentSessionStatus (s_status s))
         || negb (s_last_heartbeat_at s <? serverNow - staleAfter)%Z
      then no_commit false
      else
        r ← sql_update id (λ s, isCurrentSessionStatus (s_status s))
          (λ s, s <| s_status := SessionUnhealthy |> <| s_ended_at := Some serverNow |>);
        if is_None_b r then no_commit false else commit true
    end).

Definition session_stale_order (x y : uuid * WorkerSession) : bool :=
  then_by (Z.compare (s_last_heartbeat_at x.2) (s_last_heartbeat_at y.2)) (x.1 <=? y.1)%N.

Definition MarkStaleSessions (staleAfter : duration) (limit : Z) : Tx nat :=
  if (staleAfter <=? 0)%Z then throw (ErrMsg "stale threshold must be positive")
  else if (limit <? 1)%Z then throw (ErrMsg "scan limit must be positive")
  else
    now ← clock_timestamp;
    d ← get_db;
    let candidates := take (Z.to_nat limit) (map_select
      (λ _ s, isCurrentSessionStatus (s_status s)
              && (s_last_heartbeat_at s <? now - make_interval staleAfter)%Z)
      session_stale_order (worker_sessions d)) in
    for_each (λ marked kv,
        changed ← markSessionStale kv.1 staleAfter;
        mret (if (changed : bool) then S marked else marked))
      0%nat candidates.

Definition skip (stats : ReconcileStats) : ReconcileStats :=
  stats <| ReconcileSkipped := S (ReconcileSkipped stats) |>.

(** [finalizeTimeout], with the counters it adds. *)
Definition finalizeTimeout (cfg : StoreConfig) (state : fenceState) (fence : Fence)
    (stats : ReconcileStats) : Tx ReconcileStats :=
  decision ← decideRetry cfg ClassTimedOut state;
  decision ← lift decision;
  let leaseStatus :=
    if bool_decide (fs_lease_status state = LeaseActive)
       && negb (fs_server_now state <? fs_expires_at state)%Z
    then LeaseExpired else LeaseReleased in
  r ← finalizeAttempt state fence
    (mkAttemptOutcome AttemptTimedOut ClassTimedOut CodeTimeout MessageTimeout None leaseStatus)
    decision;
  mret (if bool_decide (or_job_status r = StatusDeadLettered)
        then stats <| DeadLetteredJobs := S (DeadLetteredJobs stats) |>
        else stats <| RetryWaitingJobs := S (RetryWaitingJobs stats) |>).

(** [lockFenceForReconciliation]: the authority rows without a health check; a
    rejected fence skips the candidate. *)
Definition lockFenceForReconciliation (scope : string) (fence : Fence)
    : Tx (option fenceState) :=
  on_fence_rejected None (state ← lockAuthorityRows scope fence; mret (Some state)).

(** The transaction of [reconcileDueTimeout], for the fence read before it. *)
Definition reconcileDueTimeout_tx (cfg : StoreConfig) (scope : string) (fence : Fence)
    (stats : ReconcileStats) : Tx ReconcileStats :=
  transaction (
    locked ← lockFenceForReconciliation scope fence;
    match locked with
    | None => no_commit (skip stats)
    | Some state =>
      if negb (leaseUsable state) || negb (timedOut state)
         || negb (bool_decide (fs_job_status state = StatusRunning))
         || negb (bool_decide (fs_attempt_status state = AttemptRunning))
      then no_commit (skip stats)
      else
        stats ← finalizeTimeout cfg state fence stats;
        commit (stats <| TimedOutAttempts := S (TimedOutAttempts stats) |>)
    end).

Definition reconcileDueTimeout (cfg : StoreConfig) (attemptID : uuid) (stats : ReconcileStats)
    : Tx ReconcileStats :=
  d ← get_db;
  match job_attempts d !! attemptID,
        map_find (λ _ l, bool_decide (l_attempt_id l = attemptID)) (leases d) with
  | Some a, Some (lid, _) =>
    reconcileDueTimeout_tx cfg (a_scope a)
      (mkFence (a_job_id a) attemptID lid (a_worker_id a) (a_session_id a)) stats
  | _, _ => mret (skip stats)
  end.

Definition due_timeout (now : time) (_ : uuid) (a : Attempt) : bool :=
  bool_decide (a_status a = AttemptRunning)
  && match a_timeout_at a with Some t => (t <=? now)%Z | None => false end.

Definition timeout_order (x y : uuid * Attempt) : bool :=
  then_by (option_time_compare (a_timeout_at x.2) (a_timeout_at y.2)) (x.1 <=? y.1)%N.

Definition ReconcileDueTimeouts (cfg : StoreConfig) (limit : Z) : Tx ReconcileStats :=
  if (limit <? 1)%Z then throw (ErrMsg "scan limit must be positive")
  else
    now ← clock_timestamp;
    d ← get_db;
    let candidates :=
      take (Z.to_nat limit) (map_select (due_timeout now) timeout_order (job_attempts d)) in
    for_each (λ stats kv, reconcileDueTimeout cfg kv.1 stats) ReconcileStats_zero candidates.

(** The transaction of [reconcileExpiredLease], for the fence read before it. *)
Definition reconcileExpiredLease_tx (cfg : StoreConfig) (scope : string) (fence : Fence)
    (stats : ReconcileStats) : Tx ReconcileStats :=
  transaction (
    locked ← lockFenceForReconciliation scope fence;
    match locked with
    | None => no_commit (skip stats)
    | Some state =>
      if negb (bool_decide (fs_lease_status state = LeaseActive))
         || (fs_server_now state <? fs_expires_at state)%Z
      then no_commit (skip stats)
      else if negb (isExecutingAttemptStatus (fs_attempt_status state))
      then no_commit (skip stats)
      else if bool_decide (fs_job_status state = StatusCancelRequested) then
        finalizeCancellation state fence None LeaseExpired;;
        commit (stats <| ExpiredLeases := S (ExpiredLeases stats) |>
                      <| CanceledAttempts := S (CanceledAttempts stats) |>)
      else if negb (isExecutingJobStatus (fs_job_status state)) then no_commit (skip stats)
      else if timedOutBeforeLapse state then
        stats ← finalizeTimeout cfg state fence stats;
        commit (stats <| ExpiredLeases := S (ExpiredLeases stats) |>
                      <| TimedOutAttempts := S (TimedOutAttempts stats) |>)
      else
        decision ← decideRetry cfg ClassAbandoned state;
        decision ← lift decision;
        r ← finalizeAttempt state fence
          (mkAttemptOutcome AttemptAbandoned ClassAbandoned CodeAbandoned MessageAbandoned None
            LeaseExpired) decision;
        let stats := stats <| ExpiredLeases := S (ExpiredLeases stats) |> in
        commit (if bool_decide (or_job_status r = StatusQueued)
                then stats <| RequeuedJobs := S (RequeuedJobs stats) |>
                else stats <| DeadLetteredJobs := S (DeadLetteredJobs stats) |>)
    end).

Definition reconcileExpiredLease (cfg : StoreConfig) (leaseID : uuid) (stats : ReconcileStats)
    : Tx ReconcileStats :=
  row ← sql_get leaseID;
  match (row : option Lease) with
  | None => mret (skip stats)
  | Some l =>
    reconcileExpiredLease_tx cfg (l_scope l)
      (mkFence (l_job_id l) (l_attempt_id l) leaseID (l_worker_id l) (l_session_id l)) stats
  end.

Definition expired_lease (now : time) (_ : uuid) (l : Lease) : bool :=
  is_active l && (l_expires_at l <=? now)%Z.

Definition lease_order (x y : uuid * Lease) : bool :=
  then_by (Z.compare (l_expires_at x.2) (l_expires_at y.2)) (x.1 <=? y.1)%N.

Definition ReconcileExpiredLeases (cfg : StoreConfig) (limit : Z) : Tx ReconcileStats :=
  if (limit <? 1)%Z then throw (ErrMsg "scan limit must be positive")
  else
    now ← clock_timestamp;
    d ← get_db;
    let candidates :=
      take (Z.to_nat limit) (map_select (expired_lease now) lease_order (leases d)) in
    for_each (λ stats kv, reconcileExpiredLease cfg kv.1 stats) ReconcileStats_zero candidates.
