(* ===== verification/Publisher.v ===== *)
(** * Package outbox: the publisher

    internal/outbox/backoff.go, event.go (the envelope) and publisher.go.  A
    publisher runs next to everything else: before each of its interactions the
    rest of the system may change the database and the broker's messages. *)

From S2P Require Import Prelude.
From S2P Require Import GoText.
From S2P Require Import GoJson.
From S2P Require Import GoFloat.
From S2P Require Import GoTime.
From S2P Require Import GoMarshal.
From S2P Require Import Schema.
From S2P Require Import Lifecycle.
From S2P Require Import Outbox.

(** ** Backoff *)

Module BackoffPolicy.
Record t := mk { Base : duration; Max : duration; Multiplier : f64; Jitter : f64 }.

(** [Delay(attempts, rnd)]; [sample] is what [rnd.Float64()] returns, [None] for
    a nil source. *)
Definition Delay (arch : f64 → Z) (p : t) (attempts : Z) (sample : option f64) : duration :=
  let attempts := if (attempts <? 1)%Z then 1%Z else attempts in
  let base := if (Base p <=? 0)%Z then Second else Base p in
  let mult := if f64_lt (Multiplier p) f64_1 then f64_1 else Multiplier p in
  let max := if (Max p <? base)%Z then base else Max p in
  let growth := math_Pow mult (attempts - 1) in
  let delayF := f64_mul (f64_of_Z base) growth in
  let delayF := if math_IsInf delayF || f64_lt (f64_of_Z max) delayF
                then f64_of_Z max else delayF in
  let delayF :=
    match sample with
    | Some sample =>
      if f64_lt f64_0 (Jitter p) then
        let j := if f64_lt f64_1 (Jitter p) then f64_1 else Jitter p in
        f64_mul delayF (f64_add f64_1 (f64_mul j (f64_sub (f64_mul f64_2 sample) f64_1)))
      else delayF
    | None => delayF
    end in
  let delayF := if f64_lt delayF f64_0 then f64_0 else delayF in
  let delayF := if f64_lt (f64_of_Z max) delayF then f64_of_Z max else delayF in
  f64_to_int64 arch delayF.
End BackoffPolicy.

(** ** The envelope *)

(** [Data] is nil or the bytes of a JSON value. *)
Record Envelope := mkEnvelope {
  env_event_id : string; env_event_type : string; env_schema_version : Z;
  env_occurred_at : time; env_trace : option TraceContext; env_data : option string }.

(** [Event.Envelope]; [text] is [uuid.UUID.String]. *)
Definition event_Envelope (text : uuid → string) (e : Event) : Envelope :=
  mkEnvelope (text (ev_id e)) (ev_type e) (ev_schema_version e) (ev_created_at e) (ev_trace e)
    (Some (ev_data e)).

Definition trace_json (t : TraceContext) : string :=
  object (member "traceparent" (append_string true (Traceparent t))
    :: (if bool_decide (Tracestate t = ""%string) then []
        else [member "tracestate" (append_string true (Tracestate t))])).

(** [json.Marshal(envelope)]; [None] is an error. *)
Definition marshal_envelope (v : Envelope) : option string :=
  occurred ← marshal_time (env_occurred_at v);
  data ← match env_data v with Some raw => marshal_raw raw | None => Some "null"%string end;
  Some (object
    ([member "event_id" (append_string true (env_event_id v));
      member "event_type" (append_string true (env_event_type v));
      member "schema_version" (Itoa (env_schema_version v));
      member "occurred_at" occurred]
     ++ match env_trace v with Some t => [member "trace" (trace_json t)] | None => [] end
     ++ [member "data" data])).

Definition Body (text : uuid → string) (e : Event) : option string :=
  marshal_envelope (event_Envelope text e).

(** ** The publisher and what surrounds it *)

(** The database and the messages the broker has accepted. *)
Definition Shared : Type := DB * list string.

(** How a store call can fail on the way: before it took effect, or after. *)
Inductive fault := Lost (e : error) | Unanswered (e : error).

(** [store] is the connection's world; [accepted] the broker's messages; [others],
    by the number of interactions so far, what the rest of the system does just
    before the next one; [broker] whether the broker takes a message and the error
    it returns; [faults] and [ctx_err] what the connection and the context answer;
    [marshal_error] the text of an encoding error. *)
Record PWorld := mkPWorld {
  store : World;
  accepted : list string;
  ticks : nat;
  others : nat → Shared → Shared;
  broker : nat → string → bool * option string;
  faults : nat → option fault;
  ctx_err : nat → option error;
  marshal_error : Event → string;
}.

#[export] Instance eta_PWorld : Eta PWorld := λ r,
  mkPWorld (store r) (accepted r) (ticks r) (others r) (broker r) (faults r) (ctx_err r)
    (marshal_error r).

Definition shared (p : PWorld) : Shared := (db (store p), accepted p).

Abbreviation Pub := (M PWorld error).

(** The rest of the system moves, and the interaction is counted. *)
Definition interact (p : PWorld) : PWorld :=
  let s := others p (ticks p) (shared p) in
  p <| store := (store p) <| db := s.1 |> |> <| accepted := s.2 |> <| ticks := S (ticks p) |>.

(** A store call: its answer or its error. *)
Definition store_call {A} (m : Tx A) : Pub (result error A) := λ p,
  let p' := interact p in
  let run := m (store p') in
  match faults p (ticks p) with
  | None => (Ok run.1, p' <| store := run.2 |>)
  | Some (Unanswered e) => (Ok (Err e), p' <| store := run.2 |>)
  | Some (Lost e) => (Ok (Err e), p')
  end.

(** [broker.Publish(ctx, body)]: the error it returns. *)
Definition broker_Publish (body : string) : Pub (option string) := λ p,
  let p' := interact p in
  let '(taken, err) := broker p (ticks p) body in
  (Ok err, if taken then p' <| accepted := body :: accepted p' |> else p').

Definition ctx_Err : Pub (option error) := λ p,
  (Ok (ctx_err p (ticks p)), p <| ticks := S (ticks p) |>).

Definition get_marshal_error (e : Event) : Pub string := λ p, (Ok (marshal_error p e), p).
Definition get_Body (e : Event) : Pub (option string) := λ p,
  (Ok (Body (uuid_String (store p)) e), p).

(** [rnd.Float64()], the publisher's own source. *)
Definition rnd_Float64 : Pub f64 := λ p,
  let '(r, w) := jitter_Float64 (store p) in (r, p <| store := w |>).
Definition get_arch : Pub (f64 → Z) := λ p, (Ok (arch (store p)), p).

(** ** Configuration *)

Record PublisherConfig := mkPublisherConfig {
  BatchSize : Z; PollInterval : duration; ClaimTimeout : duration; Backoff : BackoffPolicy.t }.

(** The configuration [NewPublisher] keeps. *)
Definition NewPublisher (cfg : PublisherConfig) : PublisherConfig :=
  mkPublisherConfig
    (if (BatchSize cfg <? 1)%Z then 50 else BatchSize cfg)%Z
    (if (PollInterval cfg <=? 0)%Z then Second else PollInterval cfg)
    (if (ClaimTimeout cfg <=? 0)%Z then (30 * Second)%Z else ClaimTimeout cfg)
    (Backoff cfg).

Record Stats := mkStats {
  Claimed : nat; Published : nat; Failed : nat; AlreadyPublished : nat }.

(** ** One pass *)

Definition recordFailure (cfg : PublisherConfig) (e : Event) (cause : string) : Pub unit :=
  arch ← get_arch;
  sample ← (if f64_lt f64_0 (BackoffPolicy.Jitter (Backoff cfg))
            then s ← rnd_Float64; mret (Some s) else mret None);
  let delay := BackoffPolicy.Delay arch (Backoff cfg) (ev_attempts e) sample in
  store_call (RecordFailure (ev_id e) cause delay);;
  mret tt.

Definition failed (cfg : PublisherConfig) (e : Event) (cause : string) (s : Stats) : Pub Stats :=
  recordFailure cfg e cause;;
  mret (mkStats (Claimed s) (Published s) (S (Failed s)) (AlreadyPublished s)).

(** The body of the loop of [RunOnce]. *)
Definition publish_event (cfg : PublisherConfig) (s : Stats) (e : Event) : Pub Stats :=
  body ← get_Body e;
  match body with
  | None => cause ← get_marshal_error e; failed cfg e cause s
  | Some body =>
    err ← broker_Publish body;
    match err with
    | Some cause => failed cfg e cause s
    | None =>
      marked ← store_call (MarkPublished (ev_id e));
      match marked with
      | Err _ => mret (mkStats (Claimed s) (Published s) (S (Failed s)) (AlreadyPublished s))
      | Ok false => mret (mkStats (Claimed s) (Published s) (Failed s) (S (AlreadyPublished s)))
      | Ok true => mret (mkStats (Claimed s) (S (Published s)) (Failed s) (AlreadyPublished s))
      end
    end
  end.

Fixpoint publish_all (cfg : PublisherConfig) (s : Stats) (events : list Event)
    : Pub (Stats * option error) :=
  match events with
  | [] => mret (s, None)
  | e :: events' =>
    c ← ctx_Err;
    match c with
    | Some err => mret (s, Some err)
    | None => s' ← publish_event cfg s e; publish_all cfg s' events'
    end
  end.

(** [RunOnce]: its statistics, and its error. *)
Definition RunOnce (cfg : PublisherConfig) : Pub (Stats * option error) :=
  events ← store_call (ClaimDue (Z.to_nat (BatchSize cfg)) (ClaimTimeout cfg));
  match events with
  | Err e => mret (mkStats 0 0 0 0, Some e)
  | Ok events => publish_all cfg (mkStats (length events) 0 0 0) events
  end.

(** ** The loops *)

(** [drain] within a number of passes; the answer says whether it returned. *)
Fixpoint drain (fuel : nat) (cfg : PublisherConfig) : Pub bool :=
  match fuel with
  | O => mret false
  | S f =>
    '(stats, err) ← RunOnce cfg;
    match err with
    | Some _ => mret true
    | None =>
      c ← ctx_Err;
      if is_Some_b c || (Z.of_nat (Claimed stats) <? BatchSize cfg)%Z || (0 <? Failed stats)%nat
      then mret true else drain f cfg
    end
  end.

(** The arm [select] takes in [Run]. *)
Inductive arm := CtxDone | Tick.

(** [Run] over the arms its [select] takes, each drain within [fuel] passes. *)
Fixpoint Run (fuel : nat) (cfg : PublisherConfig) (arms : list arm) : Pub unit :=
  match arms with
  | [] | CtxDone :: _ => mret tt
  | Tick :: arms' => drain fuel cfg;; Run fuel cfg arms'
  end.
