(* ===== verification/Notification.v ===== *)
(** * Package worker: broker notifications

    internal/worker/notification.go: what a worker takes from a message it
    receives, over [json.Unmarshal] of the outbox's envelope and its data. *)

From S2P Require Import Prelude.
From S2P Require Import GoText.
From S2P Require Import GoJson.
From S2P Require Import GoMarshal.
From S2P Require Import Schema.
From S2P Require Import Outbox.
From S2P Require Import Publisher.

Local Open Scope string_scope.

Record workNotification := mkNotification {
  nt_event_id : uuid; nt_queue : string; nt_trace : option TraceContext }.

Inductive NotificationError :=
| BadEnvelope | UnsupportedEvent (type : string) (version : Z) | BadEventID | BadData | EmptyQueue.

(** [outbox.TraceContext], [outbox.Envelope] and [outbox.WorkAvailableData] as
    [json.Unmarshal] fills them. *)
Definition trace_fields : list (field TraceContext) :=
  [ ("traceparent", λ raw t, v ← into_string raw (Traceparent t); Some (mkTrace v (Tracestate t)));
    ("tracestate", λ raw t, v ← into_string raw (Tracestate t); Some (mkTrace (Traceparent t) v)) ].

#[export] Instance eta_Envelope : Eta Envelope := λ r,
  mkEnvelope (env_event_id r) (env_event_type r) (env_schema_version r) (env_occurred_at r)
    (env_trace r) (env_data r).

Definition envelope_fields : list (field Envelope) :=
  [ ("event_id", λ raw e, v ← into_string raw (env_event_id e); Some (e <| env_event_id := v |>));
    ("event_type", λ raw e, v ← into_string raw (env_event_type e); Some (e <| env_event_type := v |>));
    ("schema_version", λ raw e, v ← into_int raw (env_schema_version e); Some (e <| env_schema_version := v |>));
    ("occurred_at", λ raw e, v ← into_time raw (env_occurred_at e); Some (e <| env_occurred_at := v |>));
    ("trace", λ raw e, v ← into_pointer (mkTrace "" "") trace_fields raw (env_trace e);
       Some (e <| env_trace := v |>));
    ("data", λ raw e, v ← into_raw raw (env_data e); Some (e <| env_data := v |>)) ].

(** The zero [time.Time], 1 January of year 1. *)
Definition zero_time : time := (-62135596800000000000)%Z.

Definition zero_Envelope : Envelope := mkEnvelope "" "" 0 zero_time None None.

(** Queue and job id. *)
Definition WorkAvailableData : Type := string * string.

Definition data_fields : list (field WorkAvailableData) :=
  [ ("queue", λ raw d, v ← into_string raw d.1; Some (v, d.2));
    ("job_id", λ raw d, v ← into_string raw d.2; Some (d.1, v)) ].

(** [parse] is [uuid.Parse]; [uuid.Nil] is 0. *)
Definition decodeWorkNotification (parse : string → option uuid) (body : string)
    : result NotificationError workNotification :=
  match Unmarshal envelope_fields body zero_Envelope with
  | None => Err BadEnvelope
  | Some envelope =>
    if negb (bool_decide (env_event_type envelope = EventWorkAvailable))
       || negb (env_schema_version envelope =? WorkAvailableSchemaVersion)%Z
    then Err (UnsupportedEvent (env_event_type envelope) (env_schema_version envelope))
    else
      match parse (env_event_id envelope) with
      | None => Err BadEventID
      | Some eventID =>
        if (eventID =? 0)%N then Err BadEventID
        else
          match Unmarshal data_fields (default "" (env_data envelope)) ("", "") with
          | None => Err BadData
          | Some data =>
            if bool_decide (data.1 = "") then Err EmptyQueue
            else Ok (mkNotification eventID data.1 (env_trace envelope))
          end
      end
  end.
