(* ===== verification/Keys.v ===== *)
(** * Packages auth and workerauth: API and worker keys

    internal/auth/key.go, internal/auth/store.go and internal/workerauth/store.go:
    the format of a credential, and the two tables of keys.  The two stores are
    the same code over their own table and messages; [KeyStore] is that code. *)

From S2P Require Import Prelude.
From S2P Require Import GoText.
From S2P Require Import Schema.
From S2P Require Import Outbox.
From S2P Require Import GoBytes.

Local Open Scope string_scope.

(** ** Key material *)

Definition KeyPrefix : string := "tfk_".
Definition separator : ascii := "."%char.
Definition LookupBytes : nat := 16.
Definition SecretBytes : nat := 32.
Definition LookupLen : nat := (LookupBytes * 8 + 5) / 6.
Definition SecretLen : nat := (SecretBytes * 8 + 5) / 6.
Definition KeyLen : nat := String.length KeyPrefix + LookupLen + 1 + SecretLen.
Definition MaxCredentialLen : nat := 4 * KeyLen.

Record Material := mkMaterial { m_prefix : string; m_secret : string; m_secret_hash : string }.

Definition raw_key (prefix secret : string) : string :=
  KeyPrefix ++ prefix ++ String separator secret.

Definition Raw (m : Material) : string := raw_key (m_prefix m) (m_secret m).

Definition HashSecret (secret : string) : string := sha256_hex secret.

(** [subtle.ConstantTimeCompare] of two texts of the same length. *)
Definition VerifySecret (storedHash secret : string) : bool :=
  let computed := HashSecret secret in
  if negb (String.length storedHash =? String.length computed)%nat then false
  else bool_decide (storedHash = computed).

(** [strings.CutPrefix]. *)
Fixpoint CutPrefix (p s : string) : option string :=
  match p, s with
  | "", _ => Some s
  | String a p', String b s' => if Ascii.eqb a b then CutPrefix p' s' else None
  | _, "" => None
  end.

Record Presented := mkPresented { p_prefix : string; p_secret : string }.

Definition decodeSegment (segment : string) : bool := is_Some_b (b64_decode segment).

(** [None] is [ErrMalformedKey]. *)
Definition ParseKey (raw : string) : option Presented :=
  if (MaxCredentialLen <? String.length raw)%nat then None
  else if negb (String.length raw =? KeyLen)%nat then None
  else
    rest ← CutPrefix KeyPrefix raw;
    '(prefix, secret) ← Cut separator rest;
    if negb (String.length prefix =? LookupLen)%nat || negb (String.length secret =? SecretLen)%nat
    then None
    else if negb (decodeSegment prefix) then None
    else if negb (decodeSegment secret) then None
    else Some (mkPresented prefix secret).

(** ** Tables *)

Record KeyRow := mkKeyRow {
  k_scope : string; k_name : string; k_prefix : string; k_secret_hash : string;
  k_created_at : time; k_revoked_at : option time }.

#[export] Instance eta_KeyRow : Eta KeyRow := λ r,
  mkKeyRow (k_scope r) (k_name r) (k_prefix r) (k_secret_hash r) (k_created_at r) (k_revoked_at r).

Definition key_check (r : KeyRow) : bool :=
  scope_ok (k_scope r) && ((1 <=? pg_length (k_name r))%nat && (pg_length (k_name r) <=? 128)%nat)
  && ((8 <=? pg_length (k_prefix r))%nat && (pg_length (k_prefix r) <=? 32)%nat)
  && is_hex64 (k_secret_hash r)
  && match k_revoked_at r with None => true | Some t => (k_created_at r <=? t)%Z end.

Inductive key_error :=
| ErrUnauthorized | ErrKeyNotFound | ErrPrefixExhausted | ErrDeadlineExceeded
| ErrKeyValidation (fields : list (string * string)) | ErrEntropy
| ErrPrefixCollision | ErrKeyDatabase.

(** How a statement can fail on the way: whether it took effect, and whether the
    error is the deadline's. *)
Record kfault := mkFault { took_effect : bool; deadline : bool }.

(** The table, the server's clock, fresh uuids, the bytes left in the randomness
    source, and what the connection does to each statement. *)
Record KWorld := mkKWorld {
  key_rows : gmap uuid KeyRow;
  kclock : nat → time;
  kuuids : nat → uuid;
  kdrawn : nat;
  entropy : string;
  kfaults : nat → option kfault;
  kcalls : nat }.

#[export] Instance eta_KWorld : Eta KWorld := λ r,
  mkKWorld (key_rows r) (kclock r) (kuuids r) (kdrawn r) (entropy r) (kfaults r) (kcalls r).

Abbreviation K := (M KWorld key_error).

(** [now()] of the statement under way. *)
Definition know (w : KWorld) : time := timestamptz (kclock w (kcalls w)).

(** One statement. *)
Definition statement {A} (f : KWorld → result key_error A * gmap uuid KeyRow) : K A := λ w,
  let w' := w <| kcalls := S (kcalls w) |> in
  match kfaults w (kcalls w) with
  | None => ((f w).1, w' <| key_rows := (f w).2 |>)
  | Some x => (Err (if deadline x then ErrDeadlineExceeded else ErrKeyDatabase),
               if took_effect x then w' <| key_rows := (f w).2 |> else w')
  end.

(** The error of a step as a value. *)
Definition try {A} (m : K A) : K (result key_error A) := λ w, let '(r, w') := m w in (Ok r, w').

Definition key_uuid_New : K uuid := λ w, (Ok (kuuids w (kdrawn w)), w <| kdrawn := S (kdrawn w) |>).

(** [io.ReadFull] of [n] bytes: a short read is an error. *)
Definition ReadFull (n : nat) : K string := λ w,
  if (n <=? String.length (entropy w))%nat
  then (Ok (take_string n (entropy w)), w <| entropy := drop_string n (entropy w) |>)
  else (Err ErrEntropy, w <| entropy := "" |>).

Definition GenerateMaterial : K Material :=
  lookup ← ReadFull LookupBytes;
  secret ← ReadFull SecretBytes;
  let encodedSecret := b64_encode secret in
  mret (mkMaterial (b64_encode lookup) encodedSecret (HashSecret encodedSecret)).

(** ** Stores *)

Module KeyStore.
Definition MaxScopeLen : nat := 128.
Definition MaxNameLen : nat := 128.
Definition DefaultListLimit : Z := 50.
Definition MaxListLimit : Z := 200.

(** The administrative view: no secret, no hash. *)
Record Key := mkKey {
  ID : uuid; Scope : string; Name : string; Prefix : string; CreatedAt : time;
  RevokedAt : option time }.

Record Created := mkCreated { CreatedKey : Key; CreatedRaw : string }.
Record RevokeResult := mkRevokeResult { RevokedKey : Key; AlreadyRevoked : bool }.
Record Principal := mkPrincipal { KeyID : uuid; PrincipalScope : string }.

Definition scanKey (id : uuid) (r : KeyRow) : Key :=
  mkKey id (k_scope r) (k_name r) (k_prefix r) (k_created_at r) (k_revoked_at r).

Definition isPrintableWithin (value : string) (maxLen : nat) : bool :=
  (1 <=? String.length value)%nat && (String.length value <=? maxLen)%nat
  && forallb (λ r, negb ((r <? 32)%N || (r =? 127)%N)) (runes value).

Definition printable_message : string := "must contain between 1 and 128 printable characters".

Definition validateKeyRequest (scope name : string) : list (string * string) :=
  (if isPrintableWithin scope MaxScopeLen then [] else [("scope", printable_message)])
  ++ (if isPrintableWithin name MaxNameLen then [] else [("name", printable_message)]).

Definition prefix_taken (prefix : string) (_ : uuid) (r : KeyRow) : bool :=
  bool_decide (k_prefix r = prefix).

(** [INSERT INTO ... RETURNING]; the unique violation on the prefix has its own
    error, the one [isPrefixCollision] sees. *)
Definition insert_key (id : uuid) (scope name : string) (m : Material) : K Key :=
  statement (λ w,
    let row := mkKeyRow scope name (m_prefix m) (m_secret_hash m) (know w) None in
    match key_rows w !! id with
    | Some _ => (Err ErrKeyDatabase, key_rows w)
    | None =>
      if map_any (prefix_taken (m_prefix m)) (key_rows w) then (Err ErrPrefixCollision, key_rows w)
      else if key_check row then (Ok (scanKey id row), <[id:=row]> (key_rows w))
      else (Err ErrKeyDatabase, key_rows w)
    end).

Fixpoint create_attempts (attempts : nat) (scope name : string) : K Created :=
  match attempts with
  | O => throw ErrPrefixExhausted
  | S n =>
    material ← GenerateMaterial;
    id ← key_uuid_New;
    r ← try (insert_key id scope name material);
    match r with
    | Ok key => mret (mkCreated key (Raw material))
    | Err ErrPrefixCollision => create_attempts n scope name
    | Err e => throw e
    end
  end.

Definition Create (scope name : string) : K Created :=
  let scope := TrimSpace scope in
  let name := TrimSpace name in
  match validateKeyRequest scope name with
  | [] => create_attempts 2 scope name
  | fields => throw (ErrKeyValidation fields)
  end.

Definition Get (id : uuid) : K Key :=
  statement (λ w, (match key_rows w !! id with
                   | Some r => Ok (scanKey id r)
                   | None => Err ErrKeyNotFound
                   end, key_rows w)).

(** [UPDATE ... SET revoked_at = now() WHERE id = $1 AND revoked_at IS NULL
    RETURNING]. *)
Definition stamp_revoked (id : uuid) : K Key :=
  statement (λ w,
    match key_rows w !! id with
    | Some r =>
      match k_revoked_at r with
      | None =>
        let r' := r <| k_revoked_at := Some (know w) |> in
        if key_check r' then (Ok (scanKey id r'), <[id:=r']> (key_rows w))
        else (Err ErrKeyDatabase, key_rows w)
      | Some _ => (Err ErrKeyNotFound, key_rows w)
      end
    | None => (Err ErrKeyNotFound, key_rows w)
    end).

Definition Revoke (id : uuid) : K RevokeResult :=
  r ← try (stamp_revoked id);
  match r with
  | Ok key => mret (mkRevokeResult key false)
  | Err ErrKeyNotFound => existing ← Get id; mret (mkRevokeResult existing true)
  | Err e => throw e
  end.

(** [ORDER BY created_at DESC, id DESC]. *)
Definition newest_key (x y : uuid * KeyRow) : bool :=
  then_by (Z.compare (k_created_at y.2) (k_created_at x.2)) (y.1 <=? x.1)%N.

Definition List (limit : Z) : K (list Key) :=
  let limit := if (limit <=? 0)%Z then DefaultListLimit else limit in
  let limit := if (MaxListLimit <? limit)%Z then MaxListLimit else limit in
  statement (λ w, (Ok (map (λ kv, scanKey kv.1 kv.2)
    (take (Z.to_nat limit) (map_select (λ _ _, true) newest_key (key_rows w)))), key_rows w)).

(** [SELECT id, scope, secret_hash, revoked_at ... WHERE prefix = $1]. *)
Definition find_prefix (prefix : string) : K (option (uuid * KeyRow)) :=
  statement (λ w, (Ok (map_find (prefix_taken prefix) (key_rows w)), key_rows w)).

Definition Authenticate (raw : string) : K Principal :=
  match ParseKey raw with
  | None => throw ErrUnauthorized
  | Some presented =>
    row ← find_prefix (p_prefix presented);
    match row with
    | None => throw ErrUnauthorized
    | Some (id, r) =>
      if negb (VerifySecret (k_secret_hash r) (p_secret presented)) then throw ErrUnauthorized
      else match k_revoked_at r with
           | Some _ => throw ErrUnauthorized
           | None => mret (mkPrincipal id (k_scope r))
           end
    end
  end.
End KeyStore.

(** ** The store of worker keys *)

Module WorkerKeys.
Definition Create : string → string → K KeyStore.Created := KeyStore.Create.
Definition Revoke : uuid → K KeyStore.RevokeResult := KeyStore.Revoke.
Definition Get : uuid → K KeyStore.Key := KeyStore.Get.
Definition List : Z → K (list KeyStore.Key) := KeyStore.List.
Definition Authenticate : string → K KeyStore.Principal := KeyStore.Authenticate.

(** An unknown key counts as revoked. *)
Definition IsRevoked (id : uuid) : K bool :=
  statement (λ w, (Ok (match key_rows w !! id with
                       | Some r => is_Some_b (k_revoked_at r)
                       | None => true
                       end), key_rows w)).
End WorkerKeys.
