(* ===== verification/Listing.v ===== *)
(** * The operator listings

    internal/jobs/list.go, internal/jobs/dlq.go and internal/workers/list.go:
    bounded pages in key order with opaque cursors, a job's attempt timeline,
    and the queues with their depth.  Each is one statement on one snapshot. *)

From S2P Require Import Prelude.
From S2P Require Import GoText.
From S2P Require Import GoTime.
From S2P Require Import Schema.
From S2P Require Import Lifecycle.
From S2P Require Import Outbox.
From S2P Require Import Submit.
From S2P Require Import JobsStore.
From S2P Require Import GoBytes.

Definition DefaultPageSize : Z := 25.
Definition MaxPageSize : Z := 100.

Definition boundPage (limit : Z) : Z :=
  if (limit <=? 0)%Z then DefaultPageSize
  else if (MaxPageSize <? limit)%Z then MaxPageSize
  else limit.

(** ** Job statuses as text *)

Definition status_String (s : JobStatus) : string :=
  match s with
  | StatusPending => "PENDING" | StatusQueued => "QUEUED" | StatusLeased => "LEASED"
  | StatusRunning => "RUNNING" | StatusRetryWait => "RETRY_WAIT"
  | StatusCancelRequested => "CANCEL_REQUESTED" | StatusSucceeded => "SUCCEEDED"
  | StatusCanceled => "CANCELED" | StatusDeadLettered => "DEAD_LETTERED"
  end.

Definition AllStatuses : list JobStatus :=
  [StatusPending; StatusQueued; StatusLeased; StatusRunning; StatusRetryWait;
   StatusCancelRequested; StatusSucceeded; StatusCanceled; StatusDeadLettered].

Definition Status_Valid (s : string) : bool :=
  existsb (λ known, bool_decide (s = status_String known)) AllStatuses.

Definition NonTerminalStatuses : list JobStatus :=
  List.filter (λ s, negb (Terminal s)) AllStatuses.

(** ** Cursors *)

(** [strings.Cut(s, "|")]: before and after the first bar. *)
Fixpoint Cut_bar (s : string) : option (string * string) :=
  match s with
  | EmptyString => None
  | String c s' =>
    if Ascii.eqb c "|" then Some (EmptyString, s')
    else '(a, b) ← Cut_bar s'; Some (String c a, b)
  end.

(** [EncodeJobCursor] and [EncodeDLQCursor]; [text] is [uuid.UUID.String]. *)
Definition EncodeJobCursor (text : uuid → string) (createdAt : time) (id : uuid) : string :=
  b64_encode (format_RFC3339Nano createdAt ++ "|" ++ text id).

(** [decodeJobCursor] and [decodeDLQCursor]; [parse] is [uuid.Parse]. *)
Definition decodeJobCursor (parse : string → option uuid) (cursor : string)
    : option (time * uuid) :=
  raw ← b64_decode cursor;
  '(stamp, rest) ← Cut_bar raw;
  createdAt ← parse_RFC3339 stamp;
  id ← parse rest;
  Some (createdAt, id).

(** An absent cursor is the start. *)
Definition read_cursor {A} (decode : string → option A) (cursor : string) : Tx (option A) :=
  if bool_decide (cursor = EmptyString) then mret None
  else match decode cursor with
       | Some x => mret (Some x)
       | None => throw ErrInvalidCursor
       end.

Definition get_parse : Tx (string → option uuid) := λ w, (Ok (uuid_Parse w), w).
Definition get_text : Tx (uuid → string) := λ w, (Ok (uuid_String w), w).

(** ** Keyset pages, newest first *)
Section keyset.
Context {V : Type} (created : V → time).

(** [ORDER BY created_at DESC, id DESC]. *)
Definition newest_first (x y : uuid * V) : bool :=
  then_by (Z.compare (created y.2) (created x.2)) (y.1 <=? x.1)%N.

(** [$4 IS NULL OR (created_at, id) < ($4, $5)]. *)
Definition before_cursor (after : option (time * uuid)) (id : uuid) (v : V) : bool :=
  match after with
  | None => true
  | Some (at_, cid) =>
    (created v <? timestamptz at_)%Z || ((created v =? timestamptz at_)%Z && (id <? cid)%N)
  end.

(** The page's rows and one more. *)
Definition keyset_rows (matches : uuid → V → bool) (after : option (time * uuid)) (limit : nat)
    (m : gmap uuid V) : list (uuid * V) :=
  take (S limit)
    (map_select (λ id v, matches id v && before_cursor after id v) newest_first m).

(** The page, and the cursor of its last row when there is one more. *)
Definition keyset_page (text : uuid → string) (limit : nat) (rows : list (uuid * V))
    : list (uuid * V) * string :=
  if (limit <? length rows)%nat then
    match rows !! pred limit with
    | Some (id, v) => (take limit rows, EncodeJobCursor text (created v) id)
    | None => (take limit rows, EmptyString)
    end
  else (rows, EmptyString).
End keyset.

(** ** Jobs *)

Record JobSummary := mkJobSummary {
  js_id : uuid; js_queue : string; js_type : string; js_status : JobStatus;
  js_priority : Z; js_max_attempts : Z; js_timeout_seconds : Z;
  js_required_capabilities : list string; js_scheduled_at : option time;
  js_available_at : time; js_cancel_requested_at : option time;
  js_replayed_from : option uuid; js_created_at : time; js_updated_at : time }.

Record JobPage := mkJobPage { jp_jobs : list JobSummary; jp_next_cursor : string }.

(** Empty strings do not filter. *)
Record JobFilter := mkJobFilter { jf_status : string; jf_queue : string }.

Definition ErrInvalidJobFilter : error := ErrMsg "invalid job listing filter".

Definition JobFilter_Validate (f : JobFilter) : Tx unit :=
  if negb (bool_decide (jf_status f = EmptyString)) && negb (Status_Valid (jf_status f))
  then throw ErrInvalidJobFilter
  else if negb (bool_decide (jf_queue f = EmptyString)) && negb (queueNamePattern (jf_queue f))
  then throw ErrInvalidJobFilter
  else mret tt.

Definition job_matches (scope : string) (f : JobFilter) (_ : uuid) (j : Job) : bool :=
  bool_decide (j_scope j = scope)
  && (bool_decide (jf_status f = EmptyString) || bool_decide (status_String (j_status j) = jf_status f))
  && (bool_decide (jf_queue f = EmptyString) || bool_decide (j_queue j = jf_queue f)).

(** The projection leaves the payload out. *)
Definition job_summary (x : uuid * Job) : JobSummary :=
  let '(id, j) := x in
  mkJobSummary id (j_queue j) (j_type j) (j_status j) (j_priority j) (j_max_attempts j)
    (j_timeout_seconds j) (j_required_capabilities j) (j_scheduled_at j) (j_available_at j)
    (j_cancel_requested_at j) (j_replayed_from j) (j_created_at j) (j_updated_at j).

Definition ListJobs (scope : string) (filter : JobFilter) (cursor : string) (limit : Z)
    : Tx JobPage :=
  JobFilter_Validate filter;;
  let limit := Z.to_nat (boundPage limit) in
  parse ← get_parse;
  after ← read_cursor (decodeJobCursor parse) cursor;
  d ← get_db;
  text ← get_text;
  let rows := keyset_rows j_created_at (job_matches scope filter) after limit (jobs d) in
  let '(page, next) := keyset_page j_created_at text limit rows in
  mret (mkJobPage (map job_summary page) next).

(** ** The dead-letter queue *)

Record DLQView := mkDLQView {
  dv_id : uuid; dv_job_id : uuid; dv_queue : string; dv_job_type : string; dv_priority : Z;
  dv_max_attempts : Z; dv_reason : DLQReason; dv_created_at : time;
  dv_terminal_attempt_id : option uuid; dv_attempt : option Attempt; dv_replay_count : nat }.

Record DLQPage := mkDLQPage { dp_entries : list DLQView; dp_next_cursor : string }.

Definition DefaultDLQPageSize : Z := 25.
Definition MaxDLQPageSize : Z := 100.

(** The inner join drops an entry without its job. *)
Definition dlq_matches (d : DB) (scope : string) (_ : uuid) (e : DLQEntry) : bool :=
  bool_decide (d_scope e = scope) && is_Some_b (jobs d !! d_job_id e).

(** The entry with its job, its terminal attempt (outer join; the columns
    attempt_number, status, failure_class, error_code and error_message) and the
    number of its replays. *)
Definition dlq_view (d : DB) (x : uuid * DLQEntry) : option DLQView :=
  let '(id, e) := x in
  j ← jobs d !! d_job_id e;
  Some (mkDLQView id (d_job_id e) (d_queue e) (j_type j) (j_priority j) (j_max_attempts j)
    (d_reason e) (d_created_at e) (d_terminal_attempt_id e)
    (d_terminal_attempt_id e ≫= λ a, job_attempts d !! a)
    (map_count (λ k (_ : DLQReplay), bool_decide (k.1.2 = d_job_id e)) (dlq_replays d))).

Definition ListDLQ (scope cursor : string) (limit : Z) : Tx DLQPage :=
  let limit := if (limit <=? 0)%Z then DefaultDLQPageSize else limit in
  let limit := Z.to_nat (if (MaxDLQPageSize <? limit)%Z then MaxDLQPageSize else limit) in
  parse ← get_parse;
  after ← read_cursor (decodeJobCursor parse) cursor;
  d ← get_db;
  text ← get_text;
  let rows := keyset_rows d_created_at (dlq_matches d scope) after limit (dlq_entries d) in
  let '(page, next) := keyset_page d_created_at text limit rows in
  mret (mkDLQPage (omap (dlq_view d) page) next).

(** ** A job's attempts *)

Record AttemptView := mkAttemptView {
  av_id : uuid; av_number : Z; av_status : AttemptStatus; av_worker_id : uuid;
  av_worker_name : string; av_created_at : time; av_started_at : option time;
  av_finished_at : option time; av_timeout_at : option time;
  av_failure_class : option FailureClass; av_error_code : option string;
  av_error_message : option string; av_retry_delay_ms : option Z; av_retry_at : option time }.

Definition attempt_of (id : uuid) (scope : string) (_ : uuid) (a : Attempt) : bool :=
  bool_decide (a_job_id a = id ∧ a_scope a = scope).

(** [ORDER BY attempt_number ASC]. *)
Definition attempt_order (x y : uuid * Attempt) : bool := (a_number x.2 <=? a_number y.2)%Z.

Definition attempt_view (d : DB) (x : uuid * Attempt) : AttemptView :=
  let '(id, a) := x in
  let name := match workers d !! a_worker_id a with
              | Some w => if bool_decide (wk_scope w = a_scope a) then wk_name w else EmptyString
              | None => EmptyString
              end in
  mkAttemptView id (a_number a) (a_status a) (a_worker_id a) name (a_created_at a) (a_started_at a)
    (a_finished_at a) (a_timeout_at a) (a_failure_class a) (a_error_code a) (a_error_message a)
    (a_retry_delay_ms a) (a_retry_at a).

(** No row at all is no such job; the outer join's row of NULLs is a job without
    attempts. *)
Definition ListAttempts (scope : string) (jobID : uuid) : Tx (list AttemptView) :=
  d ← get_db;
  match jobs d !! jobID with
  | Some j =>
    if bool_decide (j_scope j = scope)
    then mret (map (attempt_view d)
           (map_select (attempt_of jobID (j_scope j)) attempt_order (job_attempts d)))
    else throw ErrJobNotFound
  | None => throw ErrJobNotFound
  end.

(** ** Queues and workers, by name

    [text_le] is the collation PostgreSQL orders texts by. *)
Section by_name.
Context (text_le : string → string → bool).

Definition QueueDepth : Type := list (JobStatus * nat).

Record QueueView := mkQueueView {
  qv_name : string; qv_worker_group : string; qv_max_concurrency : Z; qv_depth : QueueDepth }.

(** The literal status list of the statement. *)
Definition depth_statuses : list JobStatus :=
  [StatusPending; StatusQueued; StatusLeased; StatusRunning; StatusRetryWait; StatusCancelRequested].

(** The groups of the subquery for one queue. *)
Definition depth_groups (d : DB) (scope name : string) : list (JobStatus * nat) :=
  List.filter (λ sc, negb (sc.2 =? 0)%nat)
    (map (λ s, (s, map_count (λ _ j, bool_decide (j_scope j = scope ∧ j_queue j = name
                                       ∧ j_status j = s)) (jobs d))) depth_statuses).

(** [depth[status] = count]. *)
Fixpoint depth_put (s : JobStatus) (n : nat) (m : QueueDepth) : QueueDepth :=
  match m with
  | [] => [(s, n)]
  | (s', n') :: m' => if bool_decide (s = s') then (s, n) :: m' else (s', n') :: depth_put s n m'
  end.

Definition queue_depth (d : DB) (scope name : string) : QueueDepth :=
  fold_left (λ m sc, depth_put sc.1 sc.2 m) (depth_groups d scope name)
    (map (λ s, (s, 0%nat)) NonTerminalStatuses).

Definition name_order {V} (x y : string * V) : bool := text_le x.1 y.1.

Definition ListQueues (scope : string) : Tx (list QueueView) :=
  d ← get_db;
  mret (map (λ x : string * Queue, mkQueueView x.1 (q_worker_group x.2) (q_max_concurrency x.2)
               (queue_depth d scope x.1))
         (map_select (λ _ _, true) name_order (queues d))).

Record WorkerSummary := mkWorkerSummary {
  ws_id : uuid; ws_name : string; ws_status : SessionStatus; ws_worker_group : string;
  ws_hostname : string; ws_concurrency_limit : Z; ws_capabilities : list string;
  ws_supported_job_types : list string; ws_registered_at : time; ws_last_heartbeat_at : time;
  ws_ended_at : option time; ws_heartbeat_age : duration; ws_active_leases : nat }.

Record WorkerPage := mkWorkerPage { wp_workers : list WorkerSummary; wp_next_cursor : string }.

Definition EncodeWorkerCursor (name : string) : string := b64_encode name.

Definition decodeWorkerCursor (cursor : string) : option string :=
  name ← b64_decode cursor;
  if match_name 127 name then Some name else None.

(** [ORDER BY registered_at DESC, id DESC LIMIT 1]. *)
Definition latest_session (d : DB) (worker : uuid) : option (uuid * WorkerSession) :=
  head (map_select (λ _ s, bool_decide (s_worker_id s = worker)) (newest_first s_registered_at)
    (worker_sessions d)).

(** [w.name > $2]. *)
Definition after_name (after : option string) (name : string) : bool :=
  match after with None => true | Some a => negb (text_le name a) end.

Definition worker_matches (d : DB) (scope : string) (after : option string) (id : uuid) (w : Worker)
    : bool :=
  bool_decide (wk_scope w = scope) && after_name after (wk_name w) && is_Some_b (latest_session d id).

Definition worker_order (x y : uuid * Worker) : bool := text_le (wk_name x.2) (wk_name y.2).

(** The heartbeat's age, never negative. *)
Definition worker_summary (d : DB) (now : time) (x : uuid * Worker) : option WorkerSummary :=
  let '(id, w) := x in
  '(_, s) ← latest_session d id;
  Some (mkWorkerSummary id (wk_name w) (s_status s) (s_worker_group s) (s_hostname s)
    (s_concurrency_limit s) (s_capabilities s) (s_supported_job_types s) (s_registered_at s)
    (s_last_heartbeat_at s) (s_ended_at s) (Z.max 0 (now - s_last_heartbeat_at s))
    (map_count (λ _ l, bool_decide (l_worker_id l = id ∧ l_status l = LeaseActive)) (leases d))).

Definition ListWorkers (scope cursor : string) (limit : Z) : Tx WorkerPage :=
  let limit := Z.to_nat (boundPage limit) in
  after ← read_cursor decodeWorkerCursor cursor;
  d ← get_db;
  now ← clock_timestamp;
  let rows := take (S limit) (map_select (worker_matches d scope after) worker_order (workers d)) in
  let '(page, next) :=
    if (limit <? length rows)%nat
    then (take limit rows,
          match rows !! pred limit with Some (_, w) => EncodeWorkerCursor (wk_name w) | None => EmptyString end)
    else (rows, EmptyString) in
  mret (mkWorkerPage (omap (worker_summary d now) page) next).
End by_name.
