(* ===== verification/Hosts.v ===== *)
(** * Hosts: loopback names, the allowlist, and the browser-origin guard

    internal/loopback, internal/hostallow and, of internal/api, origin_guard.go:
    which Host a request may name to reach an /internal route, over the parts of
    package net they use ([ParseIP], [IP.String], [IP.IsLoopback],
    [SplitHostPort]). *)

From S2P Require Import Prelude.
From S2P Require Import GoText.
From S2P Require Import GoJson.
From S2P Require Import GoTime.
From S2P Require Import GoMarshal.

Local Open Scope string_scope.

(** ** Package strings *)

Definition contains_byte (c : ascii) (s : string) : bool := negb (all_chars (λ x, negb (Ascii.eqb x c)) s).

(** [strings.HasPrefix]. *)
Definition HasPrefix (s p : string) : bool := String.prefix p s.

(** [strings.TrimPrefix]. *)
Definition TrimPrefix (s p : string) : string := default s (strip_prefix p s).

(** A non-empty string without its last byte, and that byte. *)
Fixpoint unsnoc (s : string) : option (string * ascii) :=
  match s with
  | "" => None
  | String c s' => match unsnoc s' with None => Some ("", c) | Some (t, d) => Some (String c t, d) end
  end.

(** [strings.TrimSuffix(s, ".")]. *)
Definition trim_dot (s : string) : string :=
  match unsnoc s with Some (t, c) => if Ascii.eqb c "." then t else s | None => s end.

(** [strings.Split] by one byte. *)
Fixpoint split_byte (c : ascii) (s : string) : list string :=
  match s with
  | "" => [""]
  | String x s' =>
    if Ascii.eqb x c then "" :: split_byte c s'
    else match split_byte c s' with [] => [String x ""] | w :: ws => String x w :: ws end
  end.

(** [strings.EqualFold] with an ASCII word: runes compare up to case, the long s
    and the Kelvin sign included. *)
Definition EqualFold (s t : string) : bool := bool_decide (fold_name s = fold_name t).

(** [unicode.ToLower] on the runes whose lower case is ASCII; the others stay
    outside ASCII whatever case they are in. *)
Definition lower_rune (x : N * string) : string :=
  let '(r, raw) := x in
  if (65 <=? r)%N && (r <=? 90)%N then String (ascii_of_N (r + 32)) ""
  else if (r =? 8490)%N then "k"
  else if (r =? 304)%N then "i"
  else raw.
Definition ToLower (s : string) : string := String.concat "" (map lower_rune (segments s)).

(** ** Package net *)

(** A 16-byte address as its eight 16-bit groups. *)
Definition IP : Type := list N.

(** [parseIPv4Fields]: decimal octets without leading zeros.  [open]: the current
    field has digits. *)
Fixpoint ipv4_fields (s : string) (fields : list N) (open : bool) (val : N) : option (list N) :=
  match s with
  | "" => if open && (length fields =? 3)%nat then Some (fields ++ [val])%list else None
  | String c s' =>
    if is_digit c then
      let v := (val * 10 + (code c - 48))%N in
      if (open && (val =? 0)%N) || (255 <? v)%N then None else ipv4_fields s' fields true v
    else if Ascii.eqb c "." then
      if open && (length fields <? 3)%nat then ipv4_fields s' (fields ++ [val])%list false 0 else None
    else None
  end.

(** The two groups of four octets. *)
Definition ipv4_groups (fields : list N) : option (list N) :=
  match fields with [a; b; c; d] => Some [a * 256 + b; c * 256 + d]%N | _ => None end.

(** The leading hexadecimal digits of a group, with their value. *)
Fixpoint hex_digits (s : string) : list N * string :=
  match s with
  | "" => ([], "")
  | String c s' =>
    match hex_value c with
    | Some v => let '(vs, r) := hex_digits s' in (v :: vs, r)
    | None => ([], s)
    end
  end.

Definition hex_number (vs : list N) : N := fold_left (λ acc v, acc * 16 + v)%N vs 0%N.

(** The loop of [parseIPv6] with [room] groups left: the groups read so far and
    the place of the ellipsis; the result is both when all the text is used. *)
Fixpoint ipv6_loop (room : nat) (groups : list N) (ellipsis : option nat) (s : string)
    : option (list N * option nat) :=
  match room with
  | O => None
  | S room' =>
    let '(vs, r) := hex_digits s in
    if (length vs =? 0)%nat || (4 <? length vs)%nat then None
    else
      match r with
      | "" => Some ((groups ++ [hex_number vs])%list%list, ellipsis)
      | String c r' =>
        if Ascii.eqb c "." then
          if (bool_decide (ellipsis = None) && negb (length groups =? 6)%nat) || (room' =? 0)%nat then None
          else fields ← ipv4_fields s [] false 0; gs ← ipv4_groups fields; Some ((groups ++ gs)%list%list, ellipsis)
        else if negb (Ascii.eqb c ":") then None
        else
          let groups := (groups ++ [hex_number vs])%list in
          match r' with
          | "" => None
          | String c' r'' =>
            if Ascii.eqb c' ":" then
              match ellipsis with
              | Some _ => None
              | None => if bool_decide (r'' = "") then Some (groups, Some (length groups))
                        else ipv6_loop room' groups (Some (length groups)) r''
              end
            else ipv6_loop room' groups ellipsis r'
          end
      end
  end.

(** An ellipsis stands for at least one group of zeros. *)
Definition expand (x : list N * option nat) : option IP :=
  let '(groups, ellipsis) := x in
  if (length groups =? 8)%nat then match ellipsis with None => Some groups | Some _ => None end
  else match ellipsis with
       | None => None
       | Some n => Some (take n groups ++ replicate (8 - length groups) 0%N ++ drop n groups)%list
       end.

Definition parse_ipv6 (s : string) : option IP :=
  match s with
  | String c1 (String c2 r) =>
    if Ascii.eqb c1 ":" && Ascii.eqb c2 ":" then
      if bool_decide (r = "") then Some (replicate 8 0%N)
      else ipv6_loop 8 [] (Some 0%nat) r ≫= expand
    else ipv6_loop 8 [] None s ≫= expand
  | _ => ipv6_loop 8 [] None s ≫= expand
  end.

Definition mapped : list N := [0; 0; 0; 0; 0; 65535]%N.

(** The first of [.], [:] and [%]. *)
Fixpoint address_kind (s : string) : option ascii :=
  match s with
  | "" => None
  | String c s' =>
    if Ascii.eqb c "." || Ascii.eqb c ":" || Ascii.eqb c "%" then Some c else address_kind s'
  end.

(** [net.ParseIP]: an IPv4 address is held mapped into IPv6; a zone is refused. *)
Definition ParseIP (s : string) : option IP :=
  match address_kind s with
  | Some c =>
    if Ascii.eqb c "." then fields ← ipv4_fields s [] false 0; gs ← ipv4_groups fields; Some (mapped ++ gs)%list
    else if Ascii.eqb c ":" then if contains_byte "%" s then None else parse_ipv6 s
    else None
  | None => None
  end.

(** [IP.To4]. *)
Definition To4 (ip : IP) : option (list N) :=
  if bool_decide (take 6 ip = mapped) then
    Some (concat (map (λ g, [g / 256; g mod 256]%N) (drop 6 ip)))
  else None.

Definition join (sep : string) (l : list string) : string := String.concat sep l.

Definition decimal (n : N) : string := Itoa (Z.of_N n).

(** [appendHex]: up to four digits, without leading zeros. *)
Definition hex_group (x : N) : string :=
  let d n := String (hex_lower (x / n mod 16)) "" in
  (if (4096 <=? x)%N then d 4096%N else "") ++ (if (256 <=? x)%N then d 256%N else "")
  ++ (if (16 <=? x)%N then d 16%N else "") ++ d 1%N.

Fixpoint leading_zeros (gs : list N) : nat :=
  match gs with g :: gs' => if (g =? 0)%N then S (leading_zeros gs') else 0 | [] => 0 end.

(** The first of the longest runs of at least two zero groups: its start and its
    length, 0 when there is none. *)
Fixpoint zero_run (i : nat) (gs : list N) (best : nat * nat) : nat * nat :=
  match gs with
  | [] => best
  | _ :: gs' =>
    let l := leading_zeros gs in
    zero_run (S i) gs' (if (2 <=? l)%nat && (best.2 <? l)%nat then (i, l) else best)
  end.

Definition print_ipv6 (ip : IP) : string :=
  let '(start, len) := zero_run 0 ip (0, 0)%nat in
  let text gs := join ":" (map hex_group gs) in
  if (len =? 0)%nat then text ip
  else text (take start ip) ++ "::" ++ text (drop (start + len) ip).

(** [IP.String]. *)
Definition IP_String (ip : IP) : string :=
  match To4 ip with
  | Some fields => join "." (map decimal fields)
  | None => print_ipv6 ip
  end.

Definition IPv6loopback : IP := [0; 0; 0; 0; 0; 0; 0; 1]%N.

(** [IP.IsLoopback]. *)
Definition IsLoopback (ip : IP) : bool :=
  match To4 ip with
  | Some fields => bool_decide (head fields = Some 127%N)
  | None => bool_decide (ip = IPv6loopback)
  end.

(** [net.SplitHostPort]; [None] is an error. *)
Definition SplitHostPort (hostport : string) : option (string * string) :=
  match hostport with
  | String c s1 =>
    if Ascii.eqb c "[" then
      '(host, rest) ← Cut "]" s1;
      match rest with
      | String c' port =>
        if Ascii.eqb c' ":" && negb (contains_byte ":" port) && negb (contains_byte "[" s1)
           && negb (contains_byte "]" rest)
        then Some (host, port) else None
      | "" => None
      end
    else
      '(host, port) ← Cut ":" hostport;
      if contains_byte ":" port || contains_byte "[" hostport || contains_byte "]" hostport then None
      else Some (host, port)
  | "" => None
  end.

(** ** Package loopback *)

Definition IsLoopbackHost (host : string) : bool :=
  if EqualFold (trim_dot host) "localhost" then true
  else match ParseIP host with Some ip => IsLoopback ip | None => false end.

(** ** Package hostallow *)

Module hostallow.
Definition maxHostnameLength : nat := 253.
Definition maxLabelLength : nat := 63.

(** The canonical entries, in the order they were first given. *)
Definition List : Type := list string.

Definition label_char (c : ascii) : bool :=
  between 97 122 c || between 48 57 c || Ascii.eqb c "-".

Definition validLabel (label : string) : bool :=
  match label, unsnoc label with
  | String first _, Some (_, last) =>
    (String.length label <=? maxLabelLength)%nat
    && negb (Ascii.eqb first "-" || Ascii.eqb last "-") && all_chars label_char label
  | _, _ => false
  end.

Definition Canonical (host : string) : option string :=
  if bool_decide (host = "") then None
  else if contains_byte ":" host then ip ← ParseIP host; Some (IP_String ip)
  else
    match ParseIP host with
    | Some ip => Some (IP_String ip)
    | None =>
      let name := ToLower (trim_dot host) in
      if bool_decide (name = "") || (maxHostnameLength <? String.length name)%nat then None
      else if forallb validLabel (split_byte "." name) then Some name else None
    end.

Inductive problem := EmptyEntry | BracketedName (len : nat) | NotAHost (len : nat).

Definition between_brackets (s : string) : option string :=
  match s with
  | String c s' =>
    match unsnoc s' with
    | Some (t, d) => if Ascii.eqb c "[" && Ascii.eqb d "]" then Some t else None
    | None => None
    end
  | "" => None
  end.

Definition ParseEntry (entry : string) : result problem string :=
  let entry := TrimSpace entry in
  if bool_decide (entry = "") then Err EmptyEntry
  else
    let canonical host :=
      match Canonical host with Some name => Ok name | None => Err (NotAHost (String.length entry)) end in
    match between_brackets entry with
    | Some host =>
      if contains_byte ":" host then canonical host else Err (BracketedName (String.length entry))
    | None => canonical entry
    end.

(** One entry of the loop of [Parse]. *)
Definition parse_step (acc : List * list problem) (entry : string) : List * list problem :=
  let '(names, problems) := acc in
  match ParseEntry entry with
  | Err e => (names, (problems ++ [e])%list)
  | Ok name => (if bool_decide (name ∈ names) then names else (names ++ [name])%list, problems)
  end.

Inductive parse_error := EmptyList | Problems (l : list problem).

Definition Parse (entries : list string) : result parse_error List :=
  match entries with
  | [] => Err EmptyList
  | _ =>
    match fold_left parse_step entries ([], []) with
    | (names, []) => Ok names
    | (_, problems) => Err (Problems problems)
    end
  end.

Definition Allows (l : List) (host : string) : bool :=
  match Canonical host with
  | Some name => bool_decide (name ∈ l)
  | None => false
  end.

Definition Empty (l : List) : bool := match l with [] => true | _ => false end.
End hostallow.

(** ** The browser-origin guard *)

Definition maxPort : Z := 65535.

(** [Atoi] fails past the range of an int, which is past [maxPort] too. *)
Definition validPort (port : string) : bool :=
  negb (bool_decide (port = "")) && all_chars is_digit port && (atoi_acc 0 port <=? maxPort)%Z.

Definition requestHost (hostport : string) : option string :=
  if bool_decide (hostport = "") then None
  else
    host ← match SplitHostPort hostport with
           | Some (host, port) => if validPort port then Some host else None
           | None =>
             if negb (contains_byte ":" hostport) then Some hostport
             else hostallow.between_brackets hostport
           end;
    if HasPrefix hostport "[" && negb (contains_byte ":" host) then None else Some host.

Definition hostIsLoopback (hostport : string) : bool :=
  match requestHost hostport with Some host => IsLoopbackHost host | None => false end.

Definition hostRule : Type := string → bool.
Definition refuseEveryHost : hostRule := λ _, false.
Definition allowlistHostRule (list : hostallow.List) : hostRule := λ hostport,
  match requestHost hostport with Some host => hostallow.Allows list host | None => false end.

Inductive Listener := ListenerAdmin | ListenerPublic | ListenerControl.
#[export] Instance Listener_eq : EqDecision Listener. Proof. solve_decision. Defined.

(** [None] is the panic of a control listener without an allowlist. *)
Definition hostRuleFor (controlHosts : hostallow.List) (l : Listener) : option hostRule :=
  match l with
  | ListenerAdmin => Some hostIsLoopback
  | ListenerPublic => Some refuseEveryHost
  | ListenerControl =>
    if hostallow.Empty controlHosts then None else Some (allowlistHostRule controlHosts)
  end.

(** What the API reads of a request: header names in canonical form, and the path
    as the multiplexer sees it, in segments. *)
Record Request := mkRequest {
  rq_method : string;
  rq_host : string;
  rq_headers : list (string * string);
  rq_path : list string;
  rq_query : list (string * string);
  rq_body : string }.

(** [r.Header.Get] and presence in [r.Header]. *)
Definition header_present (r : Request) (name : string) : bool :=
  existsb (λ h, bool_decide (h.1 = name)) (rq_headers r).
Definition header_Get (r : Request) (name : string) : string :=
  match List.find (λ h, bool_decide (h.1 = name)) (rq_headers r) with Some h => h.2 | None => "" end.

Definition secFetchSiteHeader : string := "Sec-Fetch-Site".
Definition originHeader : string := "Origin".
Definition ruleSecFetchSite : string := "sec_fetch_site".
Definition ruleOrigin : string := "origin".
Definition ruleHost : string := "host".

(** The first rule the request breaks. *)
Definition browserOriginRuleFor (r : Request) (hostAllowed : hostRule) : option string :=
  if header_present r secFetchSiteHeader then Some ruleSecFetchSite
  else if header_present r originHeader then Some ruleOrigin
  else if negb (hostAllowed (rq_host r)) then Some ruleHost
  else None.

(** ** Examples *)

Example loopback_forms :
  map hostIsLoopback ["localhost"; "LocalHost.:8080"; "127.0.0.1:80"; "[::1]"; "[::ffff:127.0.0.1]:8080";
    "localhost.evil.example"; "127.0.0.1.evil.example"; "::1"; "[localhost]"; "localhost:"; "10.0.0.1"; ""]
  = [true; true; true; true; true; false; false; false; false; false; false; false].
Proof. vm_compute. reflexivity. Qed.

Example canonical_forms :
  map hostallow.Canonical ["API."; "::0001"; "2001:DB8:0:0:1:0:0:1"; "::ffff:10.0.0.1"; "010.0.0.1";
    "a_b"; "api..x"; "*.api"; "api:80"; "fe80::1%en0"; "1.2.3.4.5"; "::1.2.3.4"]
  = [Some "api"; Some "::1"; Some "2001:db8::1:0:0:1"; Some "10.0.0.1"; Some "010.0.0.1";
     None; None; None; None; None; Some "1.2.3.4.5"; Some "::102:304"].
Proof. vm_compute. reflexivity. Qed.
