(* ===== verification/Api.v ===== *)
(** * Package api: requests, answers and the server

    internal/api/server.go and errors.go: the answers the API gives, the server's
    dependencies and wiring, and the monad its handlers run in.  A handler that
    writes a response and returns early throws the answer. *)

From S2P Require Import Prelude.
From S2P Require Import GoText.
From S2P Require Import GoMarshal.
From S2P Require Import GoDecoder.
From S2P Require Import Schema.
From S2P Require Import Outbox.
From S2P Require Import WorkersTypes.
From S2P Require Import Listing.
From S2P Require Import Keys.
From S2P Require Import Hosts.

Local Open Scope string_scope.

(** ** Text of the enumerations *)

Definition attempt_status_String (s : AttemptStatus) : string :=
  match s with
  | AttemptLeased => "LEASED" | AttemptRunning => "RUNNING" | AttemptSucceeded => "SUCCEEDED"
  | AttemptFailed => "FAILED" | AttemptTimedOut => "TIMED_OUT" | AttemptCanceled => "CANCELED"
  | AttemptAbandoned => "ABANDONED"
  end.

Definition session_status_String (s : SessionStatus) : string :=
  match s with
  | SessionStarting => "STARTING" | SessionHealthy => "HEALTHY" | SessionDraining => "DRAINING"
  | SessionUnhealthy => "UNHEALTHY" | SessionOffline => "OFFLINE"
  end.

Definition disposition_String (d : ClaimDisposition) : string :=
  match d with
  | Claimed => "CLAIMED" | QueueEmpty => "QUEUE_EMPTY"
  | DuplicateNotification => "DUPLICATE_NOTIFICATION" | NoEligibleJob => "NO_ELIGIBLE_JOB"
  | CapacityExhausted => "CAPACITY_EXHAUSTED"
  end.

Definition class_String (c : FailureClass) : string :=
  match c with
  | ClassRetryable => "RETRYABLE" | ClassPermanent => "PERMANENT" | ClassTimedOut => "TIMED_OUT"
  | ClassCanceled => "CANCELED" | ClassAbandoned => "ABANDONED" | ClassOther s => s
  end.

(** [lifecycle.FailureClass(s)]. *)
Definition class_of (s : string) : FailureClass :=
  match List.find (λ c, bool_decide (class_String c = s))
          [ClassRetryable; ClassPermanent; ClassTimedOut; ClassCanceled; ClassAbandoned] with
  | Some c => c
  | None => ClassOther s
  end.

Definition reason_String (r : DLQReason) : string :=
  match r with
  | ReasonPermanentFailure => "PERMANENT_FAILURE" | ReasonAttemptsExhausted => "ATTEMPTS_EXHAUSTED"
  | ReasonOther s => s
  end.

(** [results.Location(s)]. *)
Definition location_of (s : string) : Location :=
  if bool_decide (s = "inline") then LocationInline
  else if bool_decide (s = "object") then LocationObject
  else LocationOther s.

(** [Duration.Milliseconds]. *)
Definition Milliseconds (d : duration) : Z := Z.quot d Millisecond.

(** ** Answers *)

Record JobResponse := mkJobResponse {
  jr_id : string; jr_queue : string; jr_job_type : string; jr_payload : string; jr_status : string;
  jr_priority : Z; jr_max_attempts : Z; jr_timeout_seconds : Z;
  jr_required_capabilities : list string; jr_scheduled_at : option time; jr_available_at : time;
  jr_cancel_requested_at : option time; jr_replayed_from_job_id : option string;
  jr_created_at : time; jr_updated_at : time }.

Record CancelResponse := mkCancelResponse {
  cn_job_id : string; cn_status : string; cn_cancel_requested_at : option time;
  cn_already_requested : bool }.

Record ReplayResponse := mkReplayResponse {
  rp_original_job_id : string; rp_replacement : JobResponse; rp_replayed : bool }.

Record DLQEntryResponse := mkDLQEntryResponse {
  de_id : string; de_job_id : string; de_queue : string; de_job_type : string; de_priority : Z;
  de_max_attempts : Z; de_reason : string; de_created_at : time;
  de_terminal_attempt_id : option string; de_attempt_number : option Z;
  de_attempt_status : option string; de_failure_class : option string;
  de_error_code : option string; de_error_message : option string; de_replay_count : nat }.

(** A [JobResponse] without the payload. *)
Record JobSummaryResponse := mkJobSummaryResponse {
  jz_id : string; jz_queue : string; jz_job_type : string; jz_status : string; jz_priority : Z;
  jz_max_attempts : Z; jz_timeout_seconds : Z; jz_required_capabilities : list string;
  jz_scheduled_at : option time; jz_available_at : time; jz_cancel_requested_at : option time;
  jz_replayed_from_job_id : option string; jz_created_at : time; jz_updated_at : time }.

Record AttemptResponse := mkAttemptResponse {
  ar_id : string; ar_attempt_number : Z; ar_status : string; ar_worker_id : string;
  ar_worker_name : string; ar_created_at : time; ar_started_at : option time;
  ar_finished_at : option time; ar_timeout_at : option time; ar_failure_class : option string;
  ar_error_code : option string; ar_error_message : option string; ar_retry_delay_ms : option Z;
  ar_retry_at : option time }.

Record WorkerResponse := mkWorkerResponse {
  wr_id : string; wr_name : string; wr_status : string; wr_worker_group : string;
  wr_hostname : string; wr_concurrency_limit : Z; wr_capabilities : list string;
  wr_supported_job_types : list string; wr_registered_at : time; wr_last_heartbeat_at : time;
  wr_ended_at : option time; wr_heartbeat_age : duration; wr_active_leases : nat }.

Record QueueResponse := mkQueueResponse {
  qr_name : string; qr_worker_group : string; qr_max_concurrency : Z; qr_depth : list (string * nat) }.

Record WorkerSessionResponse := mkWorkerSessionResponse {
  wsr_worker_id : string; wsr_worker_session_id : string; wsr_worker_name : string;
  wsr_hostname : string; wsr_worker_group : string; wsr_concurrency_limit : Z;
  wsr_capabilities : list string; wsr_supported_job_types : list string; wsr_status : string;
  wsr_registered_at : time; wsr_last_heartbeat_at : time }.

Record CancellationDirectiveResponse := mkDirectiveResponse {
  cdr_job_id : string; cdr_attempt_id : string; cdr_lease_id : string;
  cdr_cancel_requested_at : option time }.

Record HeartbeatResponse := mkHeartbeatResponse {
  hbr_worker_session_id : string; hbr_status : string; hbr_last_heartbeat_at : time;
  hbr_cancellations : list CancellationDirectiveResponse }.

Record RenewalResponse := mkRenewalResponse {
  rnr_lease_id : string; rnr_renewal_version : Z; rnr_lease_expires_at : time;
  rnr_lease_remaining_ms : Z; rnr_replayed : bool }.

Record AssignmentResponse := mkAssignmentResponse {
  asr_scope : string; asr_job_id : string; asr_queue : string; asr_job_type : string;
  asr_payload : string; asr_priority : Z; asr_timeout_seconds : Z;
  asr_required_capabilities : list string; asr_attempt_id : string; asr_attempt_number : Z;
  asr_lease_id : string; asr_lease_expires_at : time; asr_lease_remaining_ms : Z;
  asr_worker_id : string; asr_worker_session_id : string }.

Record ClaimResponse := mkClaimResponse {
  clr_outcome : string; clr_safe_to_acknowledge : bool; clr_replayed : bool;
  clr_assignment : option AssignmentResponse }.

Record StartResponse := mkStartResponse {
  sta_attempt_id : string; sta_started_at : time; sta_attempt_timeout_at : time;
  sta_timeout_remaining_ms : Z; sta_replayed : bool }.

Record OutcomeResponse := mkOutcomeResponse {
  our_job_id : string; our_job_status : string; our_attempt_status : string;
  our_retry_at : option time; our_retry_delay_ms : option Z;
  our_dead_letter_reason : option string; our_replayed : bool }.

(** [APIKeySummaryResponse] and [WorkerKeySummaryResponse]. *)
Record KeySummaryResponse := mkKeySummaryResponse {
  ks_id : string; ks_scope : string; ks_name : string; ks_prefix : string; ks_created_at : time;
  ks_revoked_at : option time }.

(** [APIKeyCreatedResponse] and [WorkerKeyCreatedResponse]. *)
Record KeyCreatedResponse := mkKeyCreatedResponse {
  kc_id : string; kc_scope : string; kc_name : string; kc_prefix : string; kc_created_at : time;
  kc_key : string }.

Inductive ResponseBody :=
| NoBody
| ErrorBody (code : string) (details : list (string * string))
| JobBody (r : JobResponse) | CancelBody (r : CancelResponse) | ReplayBody (r : ReplayResponse)
| DLQBody (entries : list DLQEntryResponse) (next : string)
| JobsBody (jobs : list JobSummaryResponse) (next : string)
| AttemptsBody (l : list AttemptResponse)
| WorkersBody (l : list WorkerResponse) (next : string)
| QueuesBody (l : list QueueResponse)
| ResultBody (raw : string)
| SessionBody (r : WorkerSessionResponse) | HeartbeatBody (r : HeartbeatResponse)
| RenewalBody (r : RenewalResponse) | ClaimBody (r : ClaimResponse) | StartBody (r : StartResponse)
| OutcomeBody (r : OutcomeResponse)
| KeyCreatedBody (r : KeyCreatedResponse) | KeyListBody (l : list KeySummaryResponse)
| KeyRevokedBody (r : KeySummaryResponse) (already : bool)
| StateBody (state : string) (components : list (string * string))
| MetricsBody
| FileBody (headers : list (string * string)) (name content : string).

Record Answer := mkAnswer { an_status : Z; an_body : ResponseBody }.

(** [writeError]: the status and the error shape; the message and the request id
    are left out. *)
Definition writeError (status : Z) (code : string) (details : list (string * string)) : Answer :=
  mkAnswer status (ErrorBody code details).

Definition CodeValidationFailed : string := "validation_failed".
Definition CodeMalformedJSON : string := "malformed_json".
Definition CodeUnknownQueue : string := "unknown_queue".
Definition CodeIdempotencyConflict : string := "idempotency_conflict".
Definition CodeNotFound : string := "not_found".
Definition CodeUnauthorized : string := "unauthorized".
Definition CodePayloadTooLarge : string := "payload_too_large".
Definition CodeMethodNotAllowed : string := "method_not_allowed".
Definition CodeInternal : string := "internal_error".
Definition CodeServiceUnavailable : string := "service_unavailable".
Definition CodeSessionConflict : string := "worker_session_conflict".
Definition CodeSessionUnavailable : string := "worker_session_unavailable".
Definition CodeClaimConflict : string := "claim_conflict".
Definition CodeFenceRejected : string := "fence_rejected".
Definition CodeLeaseExpired : string := "lease_expired".
Definition CodeStateConflict : string := "state_conflict".
Definition CodeRenewalConflict : string := "renewal_conflict".
Definition CodeAttemptTimedOut : string := "attempt_timed_out".
Definition CodeOutcomeConflict : string := "outcome_conflict".
Definition CodeNotCancelable : string := "job_not_cancelable".
Definition CodeNotDeadLettered : string := "job_not_dead_lettered".
Definition CodeInvalidCursor : string := "invalid_cursor".
Definition CodeCancellationRequested : string := "cancellation_requested".
Definition CodeOriginRefused : string := "origin_refused".

Definition internalError : Answer := writeError 500 CodeInternal [].
Definition writeDeadlineAmbiguity : Answer := writeError 503 CodeServiceUnavailable [].
Definition notFound : Answer := writeError 404 CodeNotFound [].
Definition writeFieldError (code field message : string) : Answer :=
  writeError 422 code [(field, message)].
Definition writeWorkerValidation (fields : list (string * string)) : Answer :=
  writeError 422 CodeValidationFailed fields.

(** ** The server *)

(** An [fs.FS]: whether a name is a regular file, and what opening and reading it gives. *)
Record Assets := mkAssets { fs_Stat : string → option bool; fs_Open : string → option string }.

(** What a server was built with.  [object_Get] is the object store's reader,
    [trace_of] what the tracing library takes from a request, [syntax_error] the
    text of encoding/json's errors, [quote] fmt's %q, [text_le] PostgreSQL's
    collation and [checks] the readiness checks as they answer. *)
Record ServerConfig := mkServerConfig {
  store_cfg : StoreConfig;
  has_control : bool; has_keys : bool; has_worker_keys : bool; has_results : bool;
  has_worker_reads : bool; has_metrics : bool; dashboard : option Assets;
  object_Get : option (string → string → option string);
  controlHosts : hostallow.List;
  MaxRequestBytes : nat;
  trace_of : Request → option TraceContext;
  syntax_error : string → string;
  quote : string → string;
  text_le : string → string → bool;
  checks : list (string * bool) }.

(** The job database, the two key tables, and what the connection does to each
    call of the job store. *)
Record Server := mkServer {
  sv_world : World;
  sv_keys : KWorld;
  sv_worker_keys : KWorld;
  sv_faults : nat → option kfault;
  sv_calls : nat }.

#[export] Instance eta_Server : Eta Server := λ r,
  mkServer (sv_world r) (sv_keys r) (sv_worker_keys r) (sv_faults r) (sv_calls r).

(** A handler: early returns throw their answer. *)
Abbreviation H := (M Server Answer).

Definition answer (h : H Answer) (s : Server) : Answer * Server :=
  match h s with
  | (Ok a, s') => (a, s')
  | (Err a, s') => (a, s')
  end.

(** The error of a store call: the store's own, the deadline's, or another of the
    connection. *)
Inductive store_error := StoreError (e : error) | DeadlineExceeded | ConnectionError.

(** One call of the job store.  A call the connection fails may have committed. *)
Definition store {A} (m : Tx A) (refuse : store_error → Answer) : H A := λ s,
  let '(r, w) := m (sv_world s) in
  let s' := s <| sv_calls := S (sv_calls s) |> in
  match sv_faults s (sv_calls s) with
  | None =>
    (match r with Ok a => Ok a | Err e => Err (refuse (StoreError e)) end, s' <| sv_world := w |>)
  | Some x =>
    (Err (refuse (if deadline x then DeadlineExceeded else ConnectionError)),
     if took_effect x then s' <| sv_world := w |> else s')
  end.

(** One call of a key store. *)
Definition api_keys {A} (m : K A) (refuse : key_error → Answer) : H A := λ s,
  let '(r, k) := m (sv_keys s) in
  (match r with Ok a => Ok a | Err e => Err (refuse e) end, s <| sv_keys := k |>).
Definition worker_keys {A} (m : K A) (refuse : key_error → Answer) : H A := λ s,
  let '(r, k) := m (sv_worker_keys s) in
  (match r with Ok a => Ok a | Err e => Err (refuse e) end, s <| sv_worker_keys := k |>).

(** github.com/google/uuid. *)
Definition uuid_parse (text : string) : H (option uuid) := λ s, (Ok (uuid_Parse (sv_world s) text), s).
Definition texts : H (uuid → string) := λ s, (Ok (uuid_String (sv_world s)), s).

(** [isDeadlineExhausted]; the other branches of a handler's switch come first. *)
Definition connection_answer (e : store_error) (store_answer : error → Answer) : Answer :=
  match e with
  | StoreError e => store_answer e
  | DeadlineExceeded => writeDeadlineAmbiguity
  | ConnectionError => internalError
  end.

(** [decodeControlJSON]. *)
Definition decode_json {A} (cfg : ServerConfig) (r : Request) (fields : list (field A)) (zero : A) : H A :=
  match decode_body (MaxRequestBytes cfg) fields zero (rq_body r) with
  | Ok x => mret x
  | Err BodyTooLarge => throw (writeError 413 CodePayloadTooLarge [])
  | Err MalformedBody => throw (writeError 400 CodeMalformedJSON [])
  end.

(** [r.URL.Query().Get]. *)
Definition query_Get (r : Request) (name : string) : string :=
  match List.find (λ h, bool_decide (h.1 = name)) (rq_query r) with Some h => h.2 | None => "" end.

(** [strconv.Atoi]: an optional sign and digits, in the range of an int. *)
Definition Atoi (s : string) : option Z :=
  let '(neg, ds) := match s with
                    | String c t => if Ascii.eqb c "-" then (true, t)
                                    else if Ascii.eqb c "+" then (false, t) else (false, s)
                    | "" => (false, "")
                    end in
  if bool_decide (ds = "") || negb (all_chars is_digit ds) then None
  else
    let v := GoTime.atoi_acc 0 ds in
    let v := if (neg : bool) then (- v)%Z else v in
    if ((-9223372036854775808 <=? v) && (v <=? 9223372036854775807))%Z then Some v else None.
