(* ===== verification/Access.v ===== *)
(** * Package api: who a request acts as

    internal/api/auth.go, worker_auth.go and, of worker_control.go,
    resolveWorkerControlScope and writeWorkerControlError: the credential of a
    request, the scope it gives, and the refusals. *)

From S2P Require Import Prelude.
From S2P Require Import GoText.
From S2P Require Import Schema.
From S2P Require Import WorkersTypes.
From S2P Require Import WorkersStore.
From S2P Require Import Keys.
From S2P Require Import Hosts.
From S2P Require Import Api.

Local Open Scope string_scope.

(** ** Bearer credentials *)

Definition authorizationHeader : string := "Authorization".
Definition bearerScheme : string := "bearer".
Definition maxAuthorizationHeaderLen : nat := String.length bearerScheme + 1 + MaxCredentialLen.

(** [strings.TrimLeft(s, " ")]. *)
Fixpoint TrimLeft_space (s : string) : string :=
  match s with
  | String c s' => if Ascii.eqb c " " then TrimLeft_space s' else s
  | "" => ""
  end.

Definition bearerCredential (header : string) : option string :=
  if bool_decide (header = "") || (maxAuthorizationHeaderLen <? String.length header)%nat then None
  else
    '(scheme, credential) ← Cut " " header;
    if negb (EqualFold scheme bearerScheme) then None
    else
      let credential := TrimLeft_space credential in
      if bool_decide (credential = "") then None else Some credential.

(** ** The wrappers *)

Definition writeUnauthorized : Answer := writeError 401 CodeUnauthorized [].

(** The answer to a failed authentication. *)
Definition refuse_key (e : key_error) : Answer :=
  match e with
  | ErrUnauthorized => writeUnauthorized
  | ErrDeadlineExceeded => writeDeadlineAmbiguity
  | _ => internalError
  end.

(** [requireAPIKey]: [next] runs in the scope of the presented key. *)
Definition requireAPIKey (cfg : ServerConfig) (r : Request) (next : string → H Answer) : H Answer :=
  if negb (has_keys cfg) then throw writeUnauthorized
  else match bearerCredential (header_Get r authorizationHeader) with
       | None => throw writeUnauthorized
       | Some credential =>
         principal ← api_keys (KeyStore.Authenticate credential) refuse_key;
         next (KeyStore.PrincipalScope principal)
       end.

(** [requireWorkerKey]: [next] runs as the presented worker key. *)
Definition requireWorkerKey (cfg : ServerConfig) (r : Request) (next : KeyStore.Principal → H Answer)
    : H Answer :=
  if negb (has_worker_keys cfg) then throw writeUnauthorized
  else match bearerCredential (header_Get r authorizationHeader) with
       | None => throw writeUnauthorized
       | Some credential => worker_keys (WorkerKeys.Authenticate credential) refuse_key ≫= next
       end.

(** [refuseBrowserOrigin]: the guard on every /internal route. *)
Definition refuseBrowserOrigin (host : hostRule) (r : Request) (next : H Answer) : H Answer :=
  match browserOriginRuleFor r host with
  | Some _ => throw (writeError 403 CodeOriginRefused [])
  | None => next
  end.

(** ** Worker-control errors *)

Definition writeWorkerControlError (e : store_error) : Answer :=
  connection_answer e (λ e,
    match e with
    | ErrValidation fields => writeWorkerValidation fields
    | ErrUnknownQueue => writeError 422 CodeUnknownQueue []
    | ErrSessionConflict => writeError 409 CodeSessionConflict []
    | ErrSessionUnavailable => writeError 409 CodeSessionUnavailable []
    | ErrClaimConflict => writeError 409 CodeClaimConflict []
    | ErrFenceRejected => writeError 409 CodeFenceRejected []
    | ErrLeaseExpired => writeError 409 CodeLeaseExpired []
    | ErrStateConflict => writeError 409 CodeStateConflict []
    | ErrRenewalConflict => writeError 409 CodeRenewalConflict []
    | ErrAttemptTimedOut => writeError 409 CodeAttemptTimedOut []
    | ErrCancellationRequested => writeError 409 CodeCancellationRequested []
    | ErrOutcomeConflict => writeError 409 CodeOutcomeConflict []
    | _ => internalError
    end).

(** The same function on an error of the worker-key store. *)
Definition control_key_error (e : key_error) : Answer :=
  match e with ErrDeadlineExceeded => writeDeadlineAmbiguity | _ => internalError end.

(** ** The scope of a worker-control request *)

Definition resolveWorkerControlScope (cfg : ServerConfig) (sessionID : uuid) : H string :=
  '(scope, workerKeyID) ← store (SessionScope sessionID) writeWorkerControlError;
  match workerKeyID with
  | None => mret scope
  | Some id =>
    if negb (has_worker_keys cfg) then throw writeUnauthorized
    else
      revoked ← worker_keys (WorkerKeys.IsRevoked id) control_key_error;
      if (revoked : bool) then throw writeUnauthorized else mret scope
  end.
