(* ===== verification/ControlHandlers.v ===== *)
(** * Package api: the worker-control surface

    internal/api/worker_control.go: each handler whole, from the body of the
    request to the answer. *)

From S2P Require Import Prelude.
From S2P Require Import GoText.
From S2P Require Import GoMarshal.
From S2P Require Import GoDecoder.
From S2P Require Import Schema.
From S2P Require Import Lifecycle.
From S2P Require Import Results.
From S2P Require Import WorkersTypes.
From S2P Require Import WorkersStore.
From S2P Require Import WorkersOutcome.
From S2P Require Import Listing.
From S2P Require Import Keys.
From S2P Require Import Hosts.
From S2P Require Import Api.
From S2P Require Import Access.

Local Open Scope string_scope.

Definition must_be_uuid : string := "must be a UUID".

(** The texts of several ids: the ids, 0 where a text is none, and a problem for
    each such text. *)
Fixpoint parse_ids (inputs : list (string * string)) : H (list uuid * list (string * string)) :=
  match inputs with
  | [] => mret ([], [])
  | (field, value) :: rest =>
    id ← uuid_parse value;
    '(ids, fields) ← parse_ids rest;
    mret (match id with
          | Some id => (id :: ids, fields)
          | None => (uuid_Nil :: ids, (field, must_be_uuid) :: fields)
          end)
  end.

Definition id_at (n : nat) (ids : list uuid) : uuid := nth n ids uuid_Nil.

(** Go on without problems. *)
Definition no_problems (fields : list (string * string)) : H unit :=
  match fields with [] => mret tt | _ => throw (writeWorkerValidation fields) end.

(** ** Registration *)

Record registerWorkerSessionRequest := mkRegisterRequest {
  rw_worker_name : string; rw_hostname : string; rw_worker_group : string;
  rw_concurrency_limit : Z; rw_capabilities : slice; rw_supported_job_types : slice }.

#[export] Instance eta_registerRequest : Eta registerWorkerSessionRequest := λ r,
  mkRegisterRequest (rw_worker_name r) (rw_hostname r) (rw_worker_group r) (rw_concurrency_limit r)
    (rw_capabilities r) (rw_supported_job_types r).

Definition register_fields : list (field registerWorkerSessionRequest) :=
  [ ("worker_name", λ raw x, v ← into_string raw (rw_worker_name x); Some (x <| rw_worker_name := v |>));
    ("hostname", λ raw x, v ← into_string raw (rw_hostname x); Some (x <| rw_hostname := v |>));
    ("worker_group", λ raw x, v ← into_string raw (rw_worker_group x); Some (x <| rw_worker_group := v |>));
    ("concurrency_limit", λ raw x, v ← into_int raw (rw_concurrency_limit x);
       Some (x <| rw_concurrency_limit := v |>));
    ("capabilities", λ raw x, v ← into_slice raw (rw_capabilities x); Some (x <| rw_capabilities := v |>));
    ("supported_job_types", λ raw x, v ← into_slice raw (rw_supported_job_types x);
       Some (x <| rw_supported_job_types := v |>)) ].

Definition zero_register : registerWorkerSessionRequest :=
  mkRegisterRequest "" "" "" 0 nil_slice nil_slice.

Definition toWorkerSessionResponse (text : uuid → string) (s : Session) : WorkerSessionResponse :=
  let row := ss_row s in
  mkWorkerSessionResponse (text (s_worker_id row)) (text (ss_id s)) (ss_name s) (s_hostname row)
    (s_worker_group row) (s_concurrency_limit row) (s_capabilities row) (s_supported_job_types row)
    (session_status_String (s_status row)) (s_registered_at row) (s_last_heartbeat_at row).

(** [session] is the path value worker_session_id. *)
Definition handleRegisterWorkerSession (cfg : ServerConfig) (session : string) (r : Request)
    (principal : KeyStore.Principal) : H Answer :=
  sid ← uuid_parse session;
  match sid with
  | None => throw (writeWorkerValidation [("worker_session_id", must_be_uuid)])
  | Some sessionID =>
    request ← decode_json cfg r register_fields zero_register;
    session ← store (Register (KeyStore.PrincipalScope principal)
                (mkRegistration sessionID (rw_worker_name request) (rw_hostname request)
                   (rw_worker_group request) (rw_concurrency_limit request)
                   (rw_capabilities request).1 (rw_supported_job_types request).1
                   (Some (KeyStore.KeyID principal)))) writeWorkerControlError;
    text ← texts;
    mret (mkAnswer 200 (SessionBody (toWorkerSessionResponse text session)))
  end.

(** ** Heartbeat *)

(** [heartbeatRequest]: the worker id. *)
Definition heartbeat_fields : list (field string) := [ ("worker_id", into_string) ].

Definition directive_response (text : uuid → string) (d : CancellationDirective)
    : CancellationDirectiveResponse :=
  mkDirectiveResponse (text (cd_job_id d)) (text (cd_attempt_id d)) (text (cd_lease_id d))
    (cd_cancel_requested_at d).

Definition handleHeartbeat (cfg : ServerConfig) (session : string) (r : Request) : H Answer :=
  worker ← decode_json cfg r heartbeat_fields "";
  '(ids, fields) ← parse_ids [("worker_session_id", session); ("worker_id", worker)];
  no_problems fields;;
  let sessionID := id_at 0 ids in
  scope ← resolveWorkerControlScope cfg sessionID;
  result ← store (Heartbeat scope (mkHeartbeat (id_at 1 ids) sessionID)) writeWorkerControlError;
  text ← texts;
  mret (mkAnswer 200 (HeartbeatBody (mkHeartbeatResponse (text (hr_session_id result))
    (session_status_String (hr_status result)) (hr_last_heartbeat_at result)
    (map (directive_response text) (hr_cancellations result))))).

(** ** Renewal *)

Record renewLeaseRequest := mkRenewRequest {
  rl_job_id : string; rl_attempt_id : string; rl_worker_id : string; rl_worker_session_id : string;
  rl_renewal_request_id : string; rl_expected_renewal_version : Z }.

#[export] Instance eta_renewRequest : Eta renewLeaseRequest := λ r,
  mkRenewRequest (rl_job_id r) (rl_attempt_id r) (rl_worker_id r) (rl_worker_session_id r)
    (rl_renewal_request_id r) (rl_expected_renewal_version r).

Definition renew_fields : list (field renewLeaseRequest) :=
  [ ("job_id", λ raw x, v ← into_string raw (rl_job_id x); Some (x <| rl_job_id := v |>));
    ("attempt_id", λ raw x, v ← into_string raw (rl_attempt_id x); Some (x <| rl_attempt_id := v |>));
    ("worker_id", λ raw x, v ← into_string raw (rl_worker_id x); Some (x <| rl_worker_id := v |>));
    ("worker_session_id", λ raw x, v ← into_string raw (rl_worker_session_id x);
       Some (x <| rl_worker_session_id := v |>));
    ("renewal_request_id", λ raw x, v ← into_string raw (rl_renewal_request_id x);
       Some (x <| rl_renewal_request_id := v |>));
    ("expected_renewal_version", λ raw x, v ← into_int raw (rl_expected_renewal_version x);
       Some (x <| rl_expected_renewal_version := v |>)) ].

Definition parseRenewalRequest (leaseID : string) (request : renewLeaseRequest)
    : H (RenewalRequest * list (string * string)) :=
  '(ids, fields) ← parse_ids
    [("lease_id", leaseID); ("job_id", rl_job_id request); ("attempt_id", rl_attempt_id request);
     ("worker_id", rl_worker_id request); ("worker_session_id", rl_worker_session_id request);
     ("renewal_request_id", rl_renewal_request_id request)];
  let fence := mkFence (id_at 1 ids) (id_at 2 ids) (id_at 0 ids) (id_at 3 ids) (id_at 4 ids) in
  mret (mkRenewal fence (id_at 5 ids) (rl_expected_renewal_version request),
        (fields ++ (if (rl_expected_renewal_version request <? 0)%Z
                    then [("expected_renewal_version", "must not be negative")] else []))%list).

Definition handleRenewLease (cfg : ServerConfig) (lease : string) (r : Request) : H Answer :=
  request ← decode_json cfg r renew_fields (mkRenewRequest "" "" "" "" "" 0);
  '(req, fields) ← parseRenewalRequest lease request;
  no_problems fields;;
  scope ← resolveWorkerControlScope cfg (f_session_id (rq_fence req));
  result ← store (RenewLease (store_cfg cfg) scope req) writeWorkerControlError;
  text ← texts;
  mret (mkAnswer 200 (RenewalBody (mkRenewalResponse (text (rn_lease_id result)) (rn_renewal_version result)
    (rn_expires_at result) (Milliseconds (rn_remaining result)) (rn_replayed result)))).

(** ** Claim *)

Record claimRequest := mkClaimBody {
  cb_worker_id : string; cb_worker_session_id : string; cb_claim_request_id : string; cb_queue : string }.

#[export] Instance eta_claimRequest : Eta claimRequest := λ r,
  mkClaimBody (cb_worker_id r) (cb_worker_session_id r) (cb_claim_request_id r) (cb_queue r).

Definition claim_fields : list (field claimRequest) :=
  [ ("worker_id", λ raw x, v ← into_string raw (cb_worker_id x); Some (x <| cb_worker_id := v |>));
    ("worker_session_id", λ raw x, v ← into_string raw (cb_worker_session_id x);
       Some (x <| cb_worker_session_id := v |>));
    ("claim_request_id", λ raw x, v ← into_string raw (cb_claim_request_id x);
       Some (x <| cb_claim_request_id := v |>));
    ("queue", λ raw x, v ← into_string raw (cb_queue x); Some (x <| cb_queue := v |>)) ].

(** A text that is no uuid stands for the zero id, which the validation refuses. *)
Definition parseClaimRequest (request : claimRequest) : H (ClaimRequest * list (string * string)) := λ s,
  let parse text := default uuid_Nil (uuid_Parse (sv_world s) text) in
  let req := mkClaimRequest (parse (cb_worker_id request)) (parse (cb_worker_session_id request))
               (parse (cb_claim_request_id request)) (cb_queue request) in
  match (ValidateClaim req (sv_world s)).1 with
  | Err (ErrValidation fields) => (Ok (req, fields), s)
  | _ => (Ok (req, []), s)
  end.

Definition assignment_response (text : uuid → string) (a : Assignment) : AssignmentResponse :=
  mkAssignmentResponse (as_scope a) (text (as_job_id a)) (as_queue a) (as_job_type a) (as_payload a)
    (as_priority a) (as_timeout_seconds a) (as_required_capabilities a) (text (as_attempt_id a))
    (as_attempt_number a) (text (as_lease_id a)) (as_lease_expires_at a)
    (Milliseconds (as_lease_remaining a)) (text (as_worker_id a)) (text (as_session_id a)).

Definition toClaimResponse (text : uuid → string) (result : ClaimResult) : ClaimResponse :=
  mkClaimResponse (disposition_String (cl_disposition result)) (SafeToAcknowledge result)
    (cl_replayed result) (assignment_response text <$> cl_assignment result).

Definition handleClaim (cfg : ServerConfig) (r : Request) : H Answer :=
  request ← decode_json cfg r claim_fields (mkClaimBody "" "" "" "");
  '(req, fields) ← parseClaimRequest request;
  no_problems fields;;
  scope ← resolveWorkerControlScope cfg (cq_session_id req);
  result ← store (Claim (store_cfg cfg) scope req) writeWorkerControlError;
  text ← texts;
  mret (mkAnswer 200 (ClaimBody (toClaimResponse text result))).

(** ** Fenced transitions *)

Record fenceRequest := mkFenceRequest {
  fq_job_id : string; fq_lease_id : string; fq_worker_id : string; fq_worker_session_id : string }.

#[export] Instance eta_fenceRequest : Eta fenceRequest := λ r,
  mkFenceRequest (fq_job_id r) (fq_lease_id r) (fq_worker_id r) (fq_worker_session_id r).

(** The four fields every fenced body has, in a struct that holds them. *)
Definition fence_members {S} (get : S → fenceRequest) (put : fenceRequest → S → S) : list (field S) :=
  [ ("job_id", λ raw x, v ← into_string raw (fq_job_id (get x)); Some (put ((get x) <| fq_job_id := v |>) x));
    ("lease_id", λ raw x, v ← into_string raw (fq_lease_id (get x));
       Some (put ((get x) <| fq_lease_id := v |>) x));
    ("worker_id", λ raw x, v ← into_string raw (fq_worker_id (get x));
       Some (put ((get x) <| fq_worker_id := v |>) x));
    ("worker_session_id", λ raw x, v ← into_string raw (fq_worker_session_id (get x));
       Some (put ((get x) <| fq_worker_session_id := v |>) x)) ].

Definition zero_fence : fenceRequest := mkFenceRequest "" "" "" "".

Definition parseFence (attempt : string) (request : fenceRequest) : H (Fence * list (string * string)) :=
  '(ids, fields) ← parse_ids
    [("attempt_id", attempt); ("job_id", fq_job_id request); ("lease_id", fq_lease_id request);
     ("worker_id", fq_worker_id request); ("worker_session_id", fq_worker_session_id request)];
  mret (mkFence (id_at 1 ids) (id_at 0 ids) (id_at 2 ids) (id_at 3 ids) (id_at 4 ids), fields).

Definition handleStartAttempt (cfg : ServerConfig) (attempt : string) (r : Request) : H Answer :=
  request ← decode_json cfg r (fence_members id (λ f _, f)) zero_fence;
  '(fence, fields) ← parseFence attempt request;
  no_problems fields;;
  scope ← resolveWorkerControlScope cfg (f_session_id fence);
  result ← store (Start scope fence) writeWorkerControlError;
  text ← texts;
  mret (mkAnswer 200 (StartBody (mkStartResponse (text (st_attempt_id result)) (st_started_at result)
    (st_timeout_at result) (Milliseconds (st_remaining result)) (st_replayed result)))).

(** ** Success and its result *)

Record resultPayload := mkResultPayload {
  rp_location : string; rp_inline_body : option string; rp_object_bucket : string;
  rp_object_key : string; rp_size_bytes : Z; rp_checksum_sha256 : string }.

#[export] Instance eta_resultPayload : Eta resultPayload := λ r,
  mkResultPayload (rp_location r) (rp_inline_body r) (rp_object_bucket r) (rp_object_key r)
    (rp_size_bytes r) (rp_checksum_sha256 r).

Definition result_fields : list (field resultPayload) :=
  [ ("location", λ raw x, v ← into_string raw (rp_location x); Some (x <| rp_location := v |>));
    ("inline_body", λ raw x, v ← into_raw raw (rp_inline_body x); Some (x <| rp_inline_body := v |>));
    ("object_bucket", λ raw x, v ← into_string raw (rp_object_bucket x); Some (x <| rp_object_bucket := v |>));
    ("object_key", λ raw x, v ← into_string raw (rp_object_key x); Some (x <| rp_object_key := v |>));
    ("size_bytes", λ raw x, v ← into_int raw (rp_size_bytes x); Some (x <| rp_size_bytes := v |>));
    ("checksum_sha256", λ raw x, v ← into_string raw (rp_checksum_sha256 x);
       Some (x <| rp_checksum_sha256 := v |>)) ].

Definition zero_result : resultPayload := mkResultPayload "" None "" "" 0 "".

Definition succeed_fields : list (field (fenceRequest * option resultPayload)) :=
  (fence_members fst (λ f x, (f, x.2)) ++
   [ ("result", λ raw x, v ← into_known_pointer zero_result result_fields raw x.2; Some (x.1, v)) ])%list.

(** The text of [Result.Validate]'s error. *)
Definition result_problem (quote : string → string) (r : Result) : string :=
  "invalid result: " ++
  match R_Location r with
  | LocationInline =>
    if match R_InlineBody r with Some b => empty b | None => true end
    then "inline result requires a body"
    else if negb (empty (R_ObjectBucket r)) || negb (empty (R_ObjectKey r)) || negb (empty (R_ChecksumSHA256 r))
    then "inline result must not carry object location fields"
    else "size must not be negative"
  | LocationObject =>
    if is_Some_b (R_InlineBody r) then "object result must not carry an inline body"
    else if empty (R_ObjectBucket r) || empty (R_ObjectKey r) then "object result requires a bucket and a key"
    else if empty (R_ChecksumSHA256 r) then "object result requires a checksum"
    else "size must not be negative"
  | LocationOther s => "unknown location " ++ quote s
  end.

Definition parseResultPayload (cfg : ServerConfig) (payload : option resultPayload)
    : option ResultRef * list (string * string) :=
  match payload with
  | None => (None, [])
  | Some p =>
    let ref := mkResultRef (location_of (rp_location p)) (rp_inline_body p) (rp_object_bucket p)
                 (rp_object_key p) (rp_size_bytes p) (rp_checksum_sha256 p) in
    let check := mkGoResult uuid_Nil uuid_Nil "" (ref_location ref) (ref_inline ref) (ref_bucket ref)
                   (ref_key ref) (ref_size_bytes ref) (ref_checksum ref) "" in
    if Validate check then (Some ref, []) else (None, [("result", result_problem (quote cfg) check)])
  end.

Definition handleSucceedAttempt (cfg : ServerConfig) (attempt : string) (r : Request) : H Answer :=
  request ← decode_json cfg r succeed_fields (zero_fence, None);
  '(fence, fields) ← parseFence attempt request.1;
  let '(result, resultFields) := parseResultPayload cfg request.2 in
  no_problems (fields ++ resultFields)%list;;
  scope ← resolveWorkerControlScope cfg (f_session_id fence);
  store (Succeed scope fence result) writeWorkerControlError;;
  mret (mkAnswer 204 NoBody).

(** ** Failure and cancellation *)

Record failAttemptRequest := mkFailRequest {
  fa_fence : fenceRequest; fa_outcome_request_id : string; fa_failure_class : string;
  fa_error_code : string; fa_error_message : string }.

#[export] Instance eta_failRequest : Eta failAttemptRequest := λ r,
  mkFailRequest (fa_fence r) (fa_outcome_request_id r) (fa_failure_class r) (fa_error_code r)
    (fa_error_message r).

Definition fail_fields : list (field failAttemptRequest) :=
  (fence_members fa_fence (λ f x, x <| fa_fence := f |>) ++
  [ ("outcome_request_id", λ raw x, v ← into_string raw (fa_outcome_request_id x);
       Some (x <| fa_outcome_request_id := v |>));
    ("failure_class", λ raw x, v ← into_string raw (fa_failure_class x); Some (x <| fa_failure_class := v |>));
    ("error_code", λ raw x, v ← into_string raw (fa_error_code x); Some (x <| fa_error_code := v |>));
    ("error_message", λ raw x, v ← into_string raw (fa_error_message x);
       Some (x <| fa_error_message := v |>)) ])%list.

(** [cancelAttemptRequest]: the fence and the outcome request id. *)
Definition cancel_fields : list (field (fenceRequest * string)) :=
  (fence_members fst (λ f x, (f, x.2)) ++
   [ ("outcome_request_id", λ raw x, v ← into_string raw x.2; Some (x.1, v)) ])%list.

(** A dead-letter reason that is the empty string is left out. *)
Definition toOutcomeResponse (text : uuid → string) (result : OutcomeResult) : OutcomeResponse :=
  let reason := reason_String (or_dead_letter_reason result) in
  mkOutcomeResponse (text (or_job_id result)) (status_String (or_job_status result))
    (attempt_status_String (or_attempt_status result)) (or_retry_at result)
    (Milliseconds <$> or_retry_delay result)
    (if bool_decide (reason = "") then None else Some reason) (or_replayed result).

(** The fence and the identity of an outcome report. *)
Definition parse_outcome (attempt : string) (request : fenceRequest) (outcome : string)
    : H (Fence * uuid) :=
  '(fence, fields) ← parseFence attempt request;
  '(ids, more) ← parse_ids [("outcome_request_id", outcome)];
  no_problems (fields ++ more)%list;;
  mret (fence, id_at 0 ids).

Definition handleFailAttempt (cfg : ServerConfig) (attempt : string) (r : Request) : H Answer :=
  request ← decode_json cfg r fail_fields (mkFailRequest zero_fence "" "" "" "");
  '(fence, outcomeID) ← parse_outcome attempt (fa_fence request) (fa_outcome_request_id request);
  let report := mkFailureReport fence outcomeID (class_of (fa_failure_class request))
                  (fa_error_code request) (fa_error_message request) in
  scope ← resolveWorkerControlScope cfg (f_session_id fence);
  result ← store (Fail (store_cfg cfg) scope report) writeWorkerControlError;
  text ← texts;
  mret (mkAnswer 200 (OutcomeBody (toOutcomeResponse text result))).

Definition handleCancelAttempt (cfg : ServerConfig) (attempt : string) (r : Request) : H Answer :=
  request ← decode_json cfg r cancel_fields (zero_fence, "");
  '(fence, outcomeID) ← parse_outcome attempt request.1 request.2;
  scope ← resolveWorkerControlScope cfg (f_session_id fence);
  result ← store (AcknowledgeCancellation scope (mkCancelAck fence outcomeID)) writeWorkerControlError;
  text ← texts;
  mret (mkAnswer 200 (OutcomeBody (toOutcomeResponse text result))).
