(* ===== verification/PublicHandlers.v ===== *)
(** * Package api: the public and key-administration surfaces

    internal/api/server.go, lifecycle.go, read_handlers.go, auth_handlers.go and
    worker_key_handlers.go: each handler whole.  [scope] is the scope
    requireAPIKey put in the request's context. *)

From S2P Require Import Prelude.
From S2P Require Import GoText.
From S2P Require Import GoTime.
From S2P Require Import GoMarshal.
From S2P Require Import GoDecoder.
From S2P Require Import Schema.
From S2P Require Import Submit.
From S2P Require Import JobsStore.
From S2P Require Import Results.
From S2P Require Import Listing.
From S2P Require Import Keys.
From S2P Require Import Hosts.
From S2P Require Import Api.

Local Open Scope string_scope.

(** A handler without a branch for the deadline. *)
Definition store_answer (e : store_error) (f : error → Answer) : Answer :=
  match e with StoreError e => f e | _ => internalError end.

Definition details (l : list FieldError) : list (string * string) :=
  map (λ f, (Field f, Message f)) l.

(** [writeValidationError]; the code of every [jobs.ValidationError] is
    validation_failed. *)
Definition writeValidationError (l : list FieldError) : Answer :=
  writeError 422 CodeValidationFailed (details l).

(** ** Submission *)

Definition toJobResponse (text : uuid → string) (id : uuid) (j : Job) : JobResponse :=
  mkJobResponse (text id) (j_queue j) (j_type j) (j_payload j) (status_String (j_status j))
    (j_priority j) (j_max_attempts j) (j_timeout_seconds j) (j_required_capabilities j)
    (j_scheduled_at j) (j_available_at j) (j_cancel_requested_at j) (text <$> j_replayed_from j)
    (j_created_at j) (j_updated_at j).

(** [jobs.SubmitRequest] as it is decoded: a nil payload is [None]. *)
Record submitBody := mkSubmitBody {
  sb_queue : string; sb_type : string; sb_payload : option string; sb_priority : option Z;
  sb_max_attempts : option Z; sb_timeout_seconds : option Z; sb_scheduled_at : option string;
  sb_required_capabilities : slice }.

#[export] Instance eta_submitBody : Eta submitBody := λ r,
  mkSubmitBody (sb_queue r) (sb_type r) (sb_payload r) (sb_priority r) (sb_max_attempts r)
    (sb_timeout_seconds r) (sb_scheduled_at r) (sb_required_capabilities r).

Definition submit_fields : list (field submitBody) :=
  [ ("queue", λ raw x, v ← into_string raw (sb_queue x); Some (x <| sb_queue := v |>));
    ("job_type", λ raw x, v ← into_string raw (sb_type x); Some (x <| sb_type := v |>));
    ("payload", λ raw x, v ← into_raw raw (sb_payload x); Some (x <| sb_payload := v |>));
    ("priority", λ raw x, v ← into_optional 0%Z into_int raw (sb_priority x); Some (x <| sb_priority := v |>));
    ("max_attempts", λ raw x, v ← into_optional 0%Z into_int raw (sb_max_attempts x);
       Some (x <| sb_max_attempts := v |>));
    ("timeout_seconds", λ raw x, v ← into_optional 0%Z into_int raw (sb_timeout_seconds x);
       Some (x <| sb_timeout_seconds := v |>));
    ("scheduled_at", λ raw x, v ← into_optional "" into_string raw (sb_scheduled_at x);
       Some (x <| sb_scheduled_at := v |>));
    ("required_capabilities", λ raw x, v ← into_slice raw (sb_required_capabilities x);
       Some (x <| sb_required_capabilities := v |>)) ].

Definition zero_submit : submitBody := mkSubmitBody "" "" None None None None None nil_slice.

Definition submit_request (b : submitBody) : SubmitRequest :=
  mkSubmitRequest (sb_queue b) (sb_type b) (default "" (sb_payload b)) (sb_priority b)
    (sb_max_attempts b) (sb_timeout_seconds b) (sb_scheduled_at b) (sb_required_capabilities b).1.

(** The Idempotency-Key header of the request. *)
Definition idempotency_key (r : Request) : H string :=
  let key := header_Get r "Idempotency-Key" in
  match ValidateIdempotencyKey key with [] => mret key | l => throw (writeValidationError l) end.

Definition submit_error (e : store_error) : Answer :=
  store_answer e (λ e,
    match e with
    | ErrUnknownQueue => writeError 422 CodeUnknownQueue []
    | ErrIdempotencyConflict => writeError 409 CodeIdempotencyConflict []
    | _ => internalError
    end).

Definition handleSubmitJob (cfg : ServerConfig) (r : Request) (scope : string) : H Answer :=
  key ← idempotency_key r;
  body ← decode_json cfg r submit_fields zero_submit;
  match Normalize (syntax_error cfg) (submit_request body) with
  | Err l => throw (writeValidationError l)
  | Ok normalized =>
    result ← store (Submit scope key normalized (trace_of cfg r)) submit_error;
    text ← texts;
    mret (mkAnswer (if sr_replayed result then 200 else 201)
            (JobBody (toJobResponse text (sr_job_id result) (sr_job result))))
  end.

(** ** One job *)

(** The job id of the path; a malformed one is answered as one that is not there. *)
Definition path_id (text : string) : H uuid :=
  id ← uuid_parse text;
  match id with Some id => mret id | None => throw notFound end.

Definition job_error (e : store_error) : Answer :=
  store_answer e (λ e, match e with ErrJobNotFound => notFound | _ => internalError end).

Definition handleGetJob (job : string) (scope : string) : H Answer :=
  id ← path_id job;
  j ← store (JobsStore.Get scope id) job_error;
  text ← texts;
  mret (mkAnswer 200 (JobBody (toJobResponse text id j))).

Definition result_error (e : store_error) : Answer :=
  store_answer e (λ e, match e with ErrResultNotFound => notFound | _ => internalError end).

Definition handleGetJobResult (cfg : ServerConfig) (job : string) (scope : string) : H Answer :=
  if negb (has_results cfg) then throw internalError
  else
    id ← path_id job;
    row ← store (Results.Get scope id) result_error;
    match rs_location row with
    | LocationObject =>
      match object_Get cfg with
      | None => throw internalError
      | Some get =>
        match get (default "" (rs_object_bucket row)) (default "" (rs_object_key row)) with
        | None => throw internalError
        | Some body => mret (mkAnswer 200 (ResultBody body))
        end
      end
    | _ => mret (mkAnswer 200 (ResultBody (default "" (rs_inline_body row))))
    end.

Definition cancel_error (e : store_error) : Answer :=
  connection_answer e (λ e,
    match e with
    | ErrJobNotFound => notFound
    | ErrJobNotCancelable => writeError 409 CodeNotCancelable []
    | _ => internalError
    end).

Definition handleCancelJob (job : string) (scope : string) : H Answer :=
  id ← path_id job;
  result ← store (RequestCancel scope id) cancel_error;
  text ← texts;
  mret (mkAnswer 200 (CancelBody (mkCancelResponse (text (cr_job_id result))
    (status_String (cr_status result)) (cr_cancel_requested_at result) (cr_already_requested result)))).

Definition replay_error (e : store_error) : Answer :=
  connection_answer e (λ e,
    match e with
    | ErrJobNotFound => notFound
    | ErrNotDeadLettered => writeError 409 CodeNotDeadLettered []
    | _ => internalError
    end).

Definition handleReplayJob (r : Request) (job : string) (scope : string) : H Answer :=
  key ← idempotency_key r;
  id ← path_id job;
  result ← store (Replay scope id key) replay_error;
  text ← texts;
  mret (mkAnswer (if rr_replayed result then 200 else 201)
    (ReplayBody (mkReplayResponse (text (rr_original result))
       (toJobResponse text (rr_replacement_id result) (rr_replacement result)) (rr_replayed result)))).

(** ** Listings *)

(** A ?limit= between 1 and [max]. *)
Definition page_limit (deflt max : Z) (raw : string) : H Z :=
  if bool_decide (raw = "") then mret deflt
  else match Atoi raw with
       | Some n =>
         if (n <? 1)%Z || (max <? n)%Z
         then throw (writeFieldError CodeValidationFailed "limit" ("must be an integer between 1 and " ++ Itoa max))
         else mret n
       | None => throw (writeFieldError CodeValidationFailed "limit" ("must be an integer between 1 and " ++ Itoa max))
       end.

Definition pageLimit (raw : string) : H Z := page_limit DefaultPageSize MaxPageSize raw.

Definition bad_cursor : Answer :=
  writeFieldError CodeInvalidCursor "cursor" "must be a cursor returned by a previous page of this endpoint".

Definition cursor_error (e : store_error) : Answer :=
  store_answer e (λ e, match e with ErrInvalidCursor => bad_cursor | _ => internalError end).

Definition toDLQEntryResponse (text : uuid → string) (x : DLQView) : DLQEntryResponse :=
  mkDLQEntryResponse (text (dv_id x)) (text (dv_job_id x)) (dv_queue x) (dv_job_type x) (dv_priority x)
    (dv_max_attempts x) (reason_String (dv_reason x)) (dv_created_at x)
    (text <$> dv_terminal_attempt_id x) (a_number <$> dv_attempt x)
    (attempt_status_String ∘ a_status <$> dv_attempt x)
    (class_String <$> (dv_attempt x ≫= a_failure_class)) (dv_attempt x ≫= a_error_code)
    (dv_attempt x ≫= a_error_message) (dv_replay_count x).

Definition handleListDLQ (r : Request) (scope : string) : H Answer :=
  limit ← page_limit DefaultDLQPageSize MaxDLQPageSize (query_Get r "limit");
  page ← store (ListDLQ scope (query_Get r "cursor") limit) cursor_error;
  text ← texts;
  mret (mkAnswer 200 (DLQBody (map (toDLQEntryResponse text) (dp_entries page)) (dp_next_cursor page))).

Definition toJobSummaryResponse (text : uuid → string) (j : JobSummary) : JobSummaryResponse :=
  mkJobSummaryResponse (text (js_id j)) (js_queue j) (js_type j) (status_String (js_status j))
    (js_priority j) (js_max_attempts j) (js_timeout_seconds j) (js_required_capabilities j)
    (js_scheduled_at j) (js_available_at j) (js_cancel_requested_at j) (text <$> js_replayed_from j)
    (js_created_at j) (js_updated_at j).

Definition list_jobs_error (filter : JobFilter) (e : store_error) : Answer :=
  store_answer e (λ e,
    match e with
    | ErrInvalidCursor => bad_cursor
    | ErrMsg m =>
      if bool_decide (m = "invalid job listing filter") then
        if Status_Valid (jf_status filter) || bool_decide (jf_status filter = "")
        then writeFieldError CodeValidationFailed "queue" "must be a valid queue name"
        else writeFieldError CodeValidationFailed "status" "must be one of the documented job statuses"
      else internalError
    | _ => internalError
    end).

Definition handleListJobs (r : Request) (scope : string) : H Answer :=
  limit ← pageLimit (query_Get r "limit");
  let filter := mkJobFilter (query_Get r "status") (query_Get r "queue") in
  page ← store (ListJobs scope filter (query_Get r "cursor") limit) (list_jobs_error filter);
  text ← texts;
  mret (mkAnswer 200 (JobsBody (map (toJobSummaryResponse text) (jp_jobs page)) (jp_next_cursor page))).

Definition toAttemptResponse (text : uuid → string) (a : AttemptView) : AttemptResponse :=
  mkAttemptResponse (text (av_id a)) (av_number a) (attempt_status_String (av_status a))
    (text (av_worker_id a)) (av_worker_name a) (av_created_at a) (av_started_at a) (av_finished_at a)
    (av_timeout_at a) (class_String <$> av_failure_class a) (av_error_code a) (av_error_message a)
    (av_retry_delay_ms a) (av_retry_at a).

Definition handleListJobAttempts (job : string) (scope : string) : H Answer :=
  id ← path_id job;
  attempts ← store (ListAttempts scope id) job_error;
  text ← texts;
  mret (mkAnswer 200 (AttemptsBody (map (toAttemptResponse text) attempts))).

Definition toWorkerResponse (text : uuid → string) (w : WorkerSummary) : WorkerResponse :=
  mkWorkerResponse (text (ws_id w)) (ws_name w) (session_status_String (ws_status w)) (ws_worker_group w)
    (ws_hostname w) (ws_concurrency_limit w) (ws_capabilities w) (ws_supported_job_types w)
    (ws_registered_at w) (ws_last_heartbeat_at w) (ws_ended_at w) (ws_heartbeat_age w)
    (ws_active_leases w).

Definition handleListWorkers (cfg : ServerConfig) (r : Request) (scope : string) : H Answer :=
  limit ← pageLimit (query_Get r "limit");
  if negb (has_worker_reads cfg) then throw internalError
  else
    page ← store (ListWorkers (text_le cfg) scope (query_Get r "cursor") limit) cursor_error;
    text ← texts;
    mret (mkAnswer 200 (WorkersBody (map (toWorkerResponse text) (wp_workers page)) (wp_next_cursor page))).

Definition toQueueResponse (q : QueueView) : QueueResponse :=
  mkQueueResponse (qv_name q) (qv_worker_group q) (qv_max_concurrency q)
    (map (λ sc, (status_String sc.1, sc.2)) (qv_depth q)).

Definition handleListQueues (cfg : ServerConfig) (scope : string) : H Answer :=
  queues ← store (ListQueues (text_le cfg) scope) (λ _, internalError);
  mret (mkAnswer 200 (QueuesBody (map toQueueResponse queues))).

(** ** Probes and unrouted paths *)

Definition handleLiveness : H Answer := mret (mkAnswer 200 (StateBody "alive" [])).

Definition handleReadiness (cfg : ServerConfig) : H Answer :=
  let components := map (λ c, (c.1, if (c.2 : bool) then "ok" else "unavailable")) (checks cfg) in
  if forallb snd (checks cfg) then mret (mkAnswer 200 (StateBody "ready" components))
  else mret (mkAnswer 503 (StateBody "not_ready" components)).

Definition methodNotAllowed : H Answer := mret (writeError 405 CodeMethodNotAllowed []).
Definition handleNotFound : H Answer := mret notFound.

(** ** Key administration

    The two sets of routes are the same code over their own store, [keys]. *)
Section key_handlers.
Context (keys : ∀ {A}, K A → (key_error → Answer) → H A).

(** [createAPIKeyRequest] and [createWorkerKeyRequest]: scope and name. *)
Definition create_key_fields : list (field (string * string)) :=
  [ ("scope", λ raw x, v ← into_string raw x.1; Some (v, x.2));
    ("name", λ raw x, v ← into_string raw x.2; Some (x.1, v)) ].

Definition key_admin_error (e : key_error) : Answer :=
  match e with
  | ErrKeyValidation fields => writeError 422 CodeValidationFailed fields
  | ErrDeadlineExceeded => writeDeadlineAmbiguity
  | _ => internalError
  end.

Definition toKeySummary (text : uuid → string) (k : KeyStore.Key) : KeySummaryResponse :=
  mkKeySummaryResponse (text (KeyStore.ID k)) (KeyStore.Scope k) (KeyStore.Name k) (KeyStore.Prefix k)
    (KeyStore.CreatedAt k) (KeyStore.RevokedAt k).

Definition handleCreateKey (cfg : ServerConfig) (r : Request) : H Answer :=
  request ← decode_json cfg r create_key_fields ("", "");
  created ← keys _ (KeyStore.Create request.1 request.2) key_admin_error;
  text ← texts;
  let k := KeyStore.CreatedKey created in
  mret (mkAnswer 201 (KeyCreatedBody (mkKeyCreatedResponse (text (KeyStore.ID k)) (KeyStore.Scope k)
    (KeyStore.Name k) (KeyStore.Prefix k) (KeyStore.CreatedAt k) (KeyStore.CreatedRaw created)))).

Definition revoke_error (e : key_error) : Answer :=
  match e with
  | ErrKeyNotFound => notFound
  | ErrDeadlineExceeded => writeDeadlineAmbiguity
  | _ => internalError
  end.

Definition handleRevokeKey (key : string) : H Answer :=
  kid ← uuid_parse key;
  match kid with
  | None => throw (writeFieldError CodeValidationFailed "key_id" "must be a UUID")
  | Some id =>
    result ← keys _ (KeyStore.Revoke id) revoke_error;
    text ← texts;
    mret (mkAnswer 200 (KeyRevokedBody (toKeySummary text (KeyStore.RevokedKey result))
                         (KeyStore.AlreadyRevoked result)))
  end.

Definition list_keys_error (e : key_error) : Answer :=
  match e with ErrDeadlineExceeded => writeDeadlineAmbiguity | _ => internalError end.

Definition handleListKeys (r : Request) : H Answer :=
  limit ← page_limit KeyStore.DefaultListLimit KeyStore.MaxListLimit (query_Get r "limit");
  l ← keys _ (KeyStore.List limit) list_keys_error;
  text ← texts;
  mret (mkAnswer 200 (KeyListBody (map (toKeySummary text) l))).
End key_handlers.

Definition handleCreateAPIKey := handleCreateKey (@api_keys).
Definition handleRevokeAPIKey := handleRevokeKey (@api_keys).
Definition handleListAPIKeys := handleListKeys (@api_keys).
Definition handleCreateWorkerKey := handleCreateKey (@worker_keys).
Definition handleRevokeWorkerKey := handleRevokeKey (@worker_keys).
Definition handleListWorkerKeys := handleListKeys (@worker_keys).
