(* ===== verification/Dashboard.v ===== *)
(** * Package api: the operator dashboard's files

    internal/api/dashboard.go, with [choose] of internal/dashboard and what it uses of
    io/fs and of [http.ServeContent]: which file a path of the dashboard gets, with which
    headers and which status. *)

From S2P Require Import Prelude.
From S2P Require Import GoText.
From S2P Require Import Hosts.
From S2P Require Import Api.
From S2P Require Import PublicHandlers.

Local Open Scope string_scope.

Definition DashboardPath : string := "/dashboard/".
Definition dashboardAssetsDir : string := "assets/".
Definition dashboardIndex : string := "index.html".
Definition dashboardCSP : string :=
  "default-src 'none'; script-src 'self'; style-src 'self'; " ++
  "img-src 'self' data:; font-src 'self'; connect-src 'self'; manifest-src 'self'; " ++
  "base-uri 'none'; form-action 'none'; frame-ancestors 'none'".

(** [choose]: the built files when they have an entry document. *)
Definition choose (built placeholder : Assets) : Assets * bool :=
  match fs_Stat built dashboardIndex with
  | Some true => (built, true)
  | _ => (placeholder, false)
  end.

(** ** io/fs *)

(** [utf8.ValidString]: no byte that decodes to nothing. *)
Definition ValidString (s : string) : bool :=
  forallb (λ x, negb ((x.1 =? RuneError)%N && (String.length x.2 =? 1)%nat)) (segments s).

(** [fs.ValidPath]. *)
Definition ValidPath (name : string) : bool :=
  ValidString name &&
  (bool_decide (name = ".") ||
   forallb (λ e, negb (bool_decide (e = "") || bool_decide (e = ".") || bool_decide (e = "..")))
     (split_byte "/" name)).

Definition hasHiddenSegment (name : string) : bool :=
  existsb (λ segment, HasPrefix segment ".") (split_byte "/" name).

(** ** net/http: [ServeContent] of a file without a modification time or a tag *)

Inductive range_error := InvalidRange | NoOverlap.

(** One element of a Range header over [size] bytes: [None] when it begins past the end. *)
Definition parse_range_element (size : Z) (ra : string) : result range_error (option (Z * Z)) :=
  match Cut "-" ra with
  | None => Err InvalidRange
  | Some (start, stop) =>
    let start := TrimSpace start in
    let stop := TrimSpace stop in
    if bool_decide (start = "") then
      if bool_decide (stop = "") || HasPrefix stop "-" then Err InvalidRange
      else match Atoi stop with
           | None => Err InvalidRange
           | Some i =>
             if (i <? 0)%Z then Err InvalidRange
             else let i := Z.min i size in Ok (Some (size - i, i)%Z)
           end
    else match Atoi start with
         | None => Err InvalidRange
         | Some i =>
           if (i <? 0)%Z then Err InvalidRange
           else if (size <=? i)%Z then Ok None
           else if bool_decide (stop = "") then Ok (Some (i, size - i)%Z)
           else match Atoi stop with
                | None => Err InvalidRange
                | Some j =>
                  if (j <? i)%Z then Err InvalidRange
                  else let j := if (size <=? j)%Z then (size - 1)%Z else j in Ok (Some (i, j - i + 1)%Z)
                end
         end
  end.

Fixpoint parse_range_elements (size : Z) (l : list string) : result range_error (list (Z * Z) * bool) :=
  match l with
  | [] => Ok ([], false)
  | ra :: l' =>
    let ra := TrimSpace ra in
    if bool_decide (ra = "") then parse_range_elements size l'
    else match parse_range_element size ra with
         | Err e => Err e
         | Ok x =>
           match parse_range_elements size l' with
           | Err e => Err e
           | Ok (rs, outside) =>
             match x with Some r => Ok (r :: rs, outside) | None => Ok (rs, true) end
           end
         end
  end.

(** [parseRange]. *)
Definition parseRange (s : string) (size : Z) : result range_error (list (Z * Z)) :=
  if bool_decide (s = "") then Ok []
  else if negb (HasPrefix s "bytes=") then Err InvalidRange
  else match parse_range_elements size (split_byte "," (TrimPrefix s "bytes=")) with
       | Err e => Err e
       | Ok ([], true) => Err NoOverlap
       | Ok (rs, _) => Ok rs
       end.

(** The preconditions: without a tag only "*" matches an If-Match, and an If-None-Match of "*" is
    answered 304; an If-Range never holds. *)
Definition starts_with_star (s : string) : bool := HasPrefix (TrimSpace s) "*".
Definition serve_content_status (r : Request) (content : string) : Z :=
  let size := Z.of_nat (String.length content) in
  let match_ := header_Get r "If-Match" in
  let none_match := header_Get r "If-None-Match" in
  let safe := bool_decide (rq_method r = "GET") || bool_decide (rq_method r = "HEAD") in
  if negb (bool_decide (match_ = "")) && negb (starts_with_star match_) then 412%Z
  else if negb (bool_decide (none_match = "")) && starts_with_star none_match
       then (if safe then 304%Z else 412%Z)
  else
    let range := if safe && negb (bool_decide (header_Get r "If-Range" = "")) then ""
                 else header_Get r "Range" in
    match parseRange range size with
    | Err NoOverlap => if (size =? 0)%Z then 200%Z else 416%Z
    | Err InvalidRange => 416%Z
    | Ok rs =>
      let total := fold_right (λ x acc, (x.2 + acc)%Z) 0%Z rs in
      match rs with
      | [] => 200%Z
      | _ => if (size <? total)%Z then 200%Z else 206%Z
      end
    end.

(** ** The handlers *)

(** [r.URL.Path]. *)
Definition url_path (r : Request) : string := "/" ++ String.concat "/" (rq_path r).

Definition file_headers (cacheControl : string) : list (string * string) :=
  [("Cache-Control", cacheControl); ("Content-Security-Policy", dashboardCSP);
   ("X-Content-Type-Options", "nosniff"); ("Referrer-Policy", "no-referrer"); ("X-Frame-Options", "DENY")].

Definition serveDashboardFile (fs : Assets) (r : Request) (name cacheControl : string) : Answer :=
  match fs_Open fs name with
  | None => internalError
  | Some content => mkAnswer (serve_content_status r content) (FileBody (file_headers cacheControl) name content)
  end.

Definition serveDashboardIndex (fs : Assets) (r : Request) : Answer :=
  serveDashboardFile fs r dashboardIndex "no-cache".

Definition dashboard_answer (fs : Assets) (r : Request) : Answer :=
  let name := TrimPrefix (url_path r) DashboardPath in
  if bool_decide (name = "") || bool_decide (name = dashboardIndex) then serveDashboardIndex fs r
  else if negb (ValidPath name) || hasHiddenSegment name then notFound
  else match fs_Stat fs name with
       | Some true =>
         serveDashboardFile fs r name
           (if HasPrefix name dashboardAssetsDir then "public, max-age=31536000, immutable" else "no-cache")
       | _ =>
         if HasPrefix name dashboardAssetsDir then notFound else serveDashboardIndex fs r
       end.

(** Registered only for a server with a dashboard. *)
Definition handleDashboard (cfg : ServerConfig) (r : Request) : H Answer :=
  match dashboard cfg with
  | Some fs => mret (dashboard_answer fs r)
  | None => handleNotFound
  end.

(** A redirect to [DashboardPath]. *)
Definition handleDashboardRoot : H Answer := mret (mkAnswer 302 NoBody).
