(* ===== verification/Routes.v ===== *)
(** * Package api: the route table and its registration

    internal/api/routes.go and Server.ListenerHandler of server.go: the table of
    routes as data, the checks it must pass, the handlers wrapped by their chain,
    and the multiplexer of net/http they are registered with. *)

From S2P Require Import Prelude.
From S2P Require Import GoText.
From S2P Require Import Schema.
From S2P Require Import Keys.
From S2P Require Import Hosts.
From S2P Require Import Api.
From S2P Require Import Access.
From S2P Require Import ControlHandlers.
From S2P Require Import PublicHandlers.
From S2P Require Import Dashboard.

Local Open Scope string_scope.

(** ** The table *)

Inductive surface := surfacePublic | surfaceInternal | surfaceProbe | surfaceUnlisted.

(** The zero value, which is no chain, is [None] in a route. *)
Inductive chain := chainNone | chainAPIKey | chainGuard | chainGuardWorkerKey.
Inductive group := groupAlways | groupMetrics | groupDashboard | groupKeys | groupWorkerKeys | groupControl.

#[export] Instance surface_eq : EqDecision surface. Proof. solve_decision. Defined.
#[export] Instance chain_eq : EqDecision chain. Proof. solve_decision. Defined.
#[export] Instance group_eq : EqDecision group. Proof. solve_decision. Defined.

Definition groupEnabled (cfg : ServerConfig) (g : group) : bool :=
  match g with
  | groupAlways => true
  | groupMetrics => has_metrics cfg
  | groupDashboard => is_Some_b (dashboard cfg)
  | groupKeys => has_keys cfg
  | groupWorkerKeys => has_worker_keys cfg
  | groupControl => has_control cfg
  end.

(** [listenerSet], a set of bits. *)
Definition listenerSet : Type := N.
Definition bit (l : Listener) : listenerSet :=
  match l with ListenerAdmin => 2 | ListenerPublic => 4 | ListenerControl => 8 end%N.
Definition effective (ls : listenerSet) : listenerSet := if (ls =? 0)%N then bit ListenerAdmin else ls.
Definition has (ls : listenerSet) (l : Listener) : bool := negb (N.land (effective ls) (bit l) =? 0)%N.

Definition adminOnly : listenerSet := bit ListenerAdmin.
Definition adminAndPublic : listenerSet := N.lor (bit ListenerAdmin) (bit ListenerPublic).
Definition adminAndControl : listenerSet := N.lor (bit ListenerAdmin) (bit ListenerControl).
Definition everyListener : listenerSet := N.lor adminAndPublic (bit ListenerControl).

(** The values of the request's context, and its path values. *)
Record Ctx := mkCtx {
  c_scope : option string; c_principal : option KeyStore.Principal; c_values : list (string * string) }.

Definition handler : Type := Ctx → Request → H Answer.

Record route := mkRoute {
  r_method : string; r_path : string; r_surface : surface; r_chain : option chain; r_group : group;
  r_listeners : listenerSet; r_handler : handler; r_noFallback : bool }.

Definition PathValue (c : Ctx) (name : string) : string :=
  match List.find (λ b, bool_decide (b.1 = name)) (c_values c) with Some b => b.2 | None => "" end.

(** [scopeOrUnauthorized] and the same defence of registration. *)
Definition scopeOrUnauthorized (c : Ctx) : H string :=
  match c_scope c with Some scope => mret scope | None => throw writeUnauthorized end.
Definition workerPrincipalFrom (c : Ctx) : H KeyStore.Principal :=
  match c_principal c with Some p => mret p | None => throw writeUnauthorized end.


Section table.
Context (cfg : ServerConfig).

(** A handler of the public surface. *)
Definition scoped (h : Ctx → Request → string → H Answer) : handler := λ c r,
  scope ← scopeOrUnauthorized c; h c r scope.

Definition public (method path : string) (h : Ctx → Request → string → H Answer) : route :=
  mkRoute method path surfacePublic (Some chainAPIKey) groupAlways adminAndPublic (scoped h) false.
Definition probe (path : string) (h : H Answer) : route :=
  mkRoute "GET" path surfaceProbe (Some chainNone) groupAlways everyListener (λ _ _, h) false.
Definition unlisted (path : string) (g : group) (h : Request → H Answer) (noFallback : bool) : route :=
  mkRoute "GET" path surfaceUnlisted (Some chainNone) g adminOnly (λ _ r, h r) noFallback.
Definition key_admin (method path : string) (g : group) (h : handler) : route :=
  mkRoute method path surfaceInternal (Some chainGuard) g adminOnly h false.
Definition control (method path : string) (ch : chain) (h : handler) : route :=
  mkRoute method path surfaceInternal (Some ch) groupControl adminAndControl h false.

(** The metrics handler writes counters, whose text is left out. *)
Definition routeTable : list route :=
  [ public "POST" "/v1/jobs" (λ _ r scope, handleSubmitJob cfg r scope);
    public "GET" "/v1/jobs" (λ _ r scope, handleListJobs r scope);
    public "GET" "/v1/jobs/{job_id}" (λ c _ scope, handleGetJob (PathValue c "job_id") scope);
    public "GET" "/v1/jobs/{job_id}/attempts" (λ c _ scope, handleListJobAttempts (PathValue c "job_id") scope);
    public "GET" "/v1/jobs/{job_id}/result" (λ c _ scope, handleGetJobResult cfg (PathValue c "job_id") scope);
    public "POST" "/v1/jobs/{job_id}/cancel" (λ c _ scope, handleCancelJob (PathValue c "job_id") scope);
    public "POST" "/v1/jobs/{job_id}/retry" (λ c r scope, handleReplayJob r (PathValue c "job_id") scope);
    public "GET" "/v1/dlq" (λ _ r scope, handleListDLQ r scope);
    public "POST" "/v1/dlq/{job_id}/replay" (λ c r scope, handleReplayJob r (PathValue c "job_id") scope);
    public "GET" "/v1/workers" (λ _ r scope, handleListWorkers cfg r scope);
    public "GET" "/v1/queues" (λ _ _ scope, handleListQueues cfg scope);
    probe "/healthz" handleLiveness;
    probe "/readyz" (handleReadiness cfg);
    unlisted "/metrics" groupMetrics (λ _, mret (mkAnswer 200 MetricsBody)) true;
    unlisted DashboardPath groupDashboard (handleDashboard cfg) false;
    unlisted "/{$}" groupDashboard (λ _, handleDashboardRoot) true;
    key_admin "POST" "/internal/v1/api-keys" groupKeys (λ _ r, handleCreateAPIKey cfg r);
    key_admin "GET" "/internal/v1/api-keys" groupKeys (λ _ r, handleListAPIKeys r);
    key_admin "POST" "/internal/v1/api-keys/{key_id}/revoke" groupKeys
      (λ c _, handleRevokeAPIKey (PathValue c "key_id"));
    key_admin "POST" "/internal/v1/worker-keys" groupWorkerKeys (λ _ r, handleCreateWorkerKey cfg r);
    key_admin "GET" "/internal/v1/worker-keys" groupWorkerKeys (λ _ r, handleListWorkerKeys r);
    key_admin "POST" "/internal/v1/worker-keys/{key_id}/revoke" groupWorkerKeys
      (λ c _, handleRevokeWorkerKey (PathValue c "key_id"));
    control "PUT" "/internal/v1/worker-sessions/{worker_session_id}" chainGuardWorkerKey
      (λ c r, p ← workerPrincipalFrom c;
              handleRegisterWorkerSession cfg (PathValue c "worker_session_id") r p);
    control "POST" "/internal/v1/worker-sessions/{worker_session_id}/heartbeat" chainGuard
      (λ c r, handleHeartbeat cfg (PathValue c "worker_session_id") r);
    control "POST" "/internal/v1/claims" chainGuard (λ _ r, handleClaim cfg r);
    control "POST" "/internal/v1/leases/{lease_id}/renew" chainGuard
      (λ c r, handleRenewLease cfg (PathValue c "lease_id") r);
    control "POST" "/internal/v1/attempts/{attempt_id}/start" chainGuard
      (λ c r, handleStartAttempt cfg (PathValue c "attempt_id") r);
    control "POST" "/internal/v1/attempts/{attempt_id}/succeed" chainGuard
      (λ c r, handleSucceedAttempt cfg (PathValue c "attempt_id") r);
    control "POST" "/internal/v1/attempts/{attempt_id}/fail" chainGuard
      (λ c r, handleFailAttempt cfg (PathValue c "attempt_id") r);
    control "POST" "/internal/v1/attempts/{attempt_id}/cancel" chainGuard
      (λ c r, handleCancelAttempt cfg (PathValue c "attempt_id") r) ].

Definition enabledRoutes (table : list route) : list route :=
  List.filter (λ rt, groupEnabled cfg (r_group rt)) table.
End table.

Definition routesOn (routes : list route) (l : Listener) : list route :=
  List.filter (λ rt, has (r_listeners rt) l) routes.

(** ** Fallbacks *)

Record fallback := mkFallback { fb_path : string; fb_methods : list string; fb_chain : chain }.

Definition skipped (routes : list route) (path : string) : bool :=
  existsb (λ rt, r_noFallback rt && bool_decide (r_path rt = path)) routes.

(** Add a route to the fallback of its path, which takes its chain from the first
    route there. *)
Fixpoint add_method (rt : route) (fbs : list fallback) : list fallback :=
  match fbs with
  | [] => [mkFallback (r_path rt) [r_method rt]
             (if bool_decide (r_surface rt = surfaceInternal) then chainGuard else chainNone)]
  | fb :: fbs' =>
    if bool_decide (fb_path fb = r_path rt)
    then mkFallback (fb_path fb) (fb_methods fb ++ [r_method rt])%list (fb_chain fb) :: fbs'
    else fb :: add_method rt fbs'
  end.

Definition fallbacksFor (routes : list route) : list fallback :=
  map (λ fb, mkFallback (fb_path fb) (sort_Strings (fb_methods fb)) (fb_chain fb))
    (fold_left (λ fbs rt, if skipped routes (r_path rt) then fbs else add_method rt fbs) routes []).

(** ** Checks *)

Definition internalPathPrefix : string := "/internal/".
Definition publicPathPrefix : string := "/v1/".

Inductive breach :=
| WildcardFirst (path : string)
| UnguardedInternal (path : string)
| UnauthenticatedPublic (path : string)
| WrappedPublicFallback (path : string)
| AdminOnlyExposed (path : string)
| InternalOnPublic (path : string)
| PublicOnControl (path : string).

Definition firstSegmentIsWildcard (path : string) : bool :=
  if bool_decide (path = "/{$}") then false
  else
    let rest := TrimPrefix path "/" in
    let first := match Cut "/" rest with Some (a, _) => a | None => rest end in
    HasPrefix first "{".

Definition guarded_chain (c : option chain) : bool :=
  bool_decide (c = Some chainGuard) || bool_decide (c = Some chainGuardWorkerKey).

Definition check_route (rt : route) : list breach :=
  let path := r_path rt in
  if firstSegmentIsWildcard path then [WildcardFirst path]
  else if HasPrefix path internalPathPrefix then
    if guarded_chain (r_chain rt) then [] else [UnguardedInternal path]
  else if HasPrefix path publicPathPrefix then
    if bool_decide (r_chain rt = Some chainAPIKey) then [] else [UnauthenticatedPublic path]
  else [].

Definition check_fallback (fb : fallback) : list breach :=
  let path := fb_path fb in
  if firstSegmentIsWildcard path then [WildcardFirst path]
  else if HasPrefix path internalPathPrefix then
    if guarded_chain (Some (fb_chain fb)) then [] else [UnguardedInternal path]
  else if HasPrefix path publicPathPrefix then
    if bool_decide (fb_chain fb = chainNone) then [] else [WrappedPublicFallback path]
  else [].

Definition checkRouteBoundaries (routes : list route) (fallbacks : list fallback) : list breach :=
  (concat (map check_route routes) ++ concat (map check_fallback fallbacks))%list.

Definition adminOnlyRoute (rt : route) : bool :=
  match r_group rt with
  | groupKeys | groupWorkerKeys | groupDashboard | groupMetrics => true
  | _ =>
    let path := r_path rt in
    bool_decide (path = "/metrics") || bool_decide (path = "/{$}") || HasPrefix path DashboardPath
    || HasPrefix path "/internal/v1/api-keys" || HasPrefix path "/internal/v1/worker-keys"
  end.

Definition check_placement (rt : route) : list breach :=
  let path := r_path rt in
  if (N.ldiff (effective (r_listeners rt)) (bit ListenerAdmin) =? 0)%N then []
  else
    ((if adminOnlyRoute rt then [AdminOnlyExposed path] else [])
     ++ (if has (r_listeners rt) ListenerPublic && HasPrefix path internalPathPrefix
         then [InternalOnPublic path] else [])
     ++ (if has (r_listeners rt) ListenerControl && HasPrefix path publicPathPrefix
         then [PublicOnControl path] else []))%list.

Definition checkListenerPlacement (routes : list route) : list breach := concat (map check_placement routes).

(** ** The multiplexer *)

(** A segment of a pattern: a literal, a wildcard [{name}], a final [{name...}] or
    slash, the end [{$}]. *)
Inductive segment := Lit (s : string) | Wild (name : string) | Multi (name : string) | End.

Definition braced (s : string) : option string :=
  match s with
  | String c s' =>
    match unsnoc s' with
    | Some (t, d) => if Ascii.eqb c "{" && Ascii.eqb d "}" then Some t else None
    | None => None
    end
  | "" => None
  end.

Definition trim_dots (s : string) : option string :=
  match unsnoc s with
  | Some (s1, c1) =>
    match unsnoc s1 with
    | Some (s2, c2) =>
      match unsnoc s2 with
      | Some (s3, c3) =>
        if Ascii.eqb c1 "." && Ascii.eqb c2 "." && Ascii.eqb c3 "." then Some s3 else None
      | None => None
      end
    | None => None
    end
  | None => None
  end.

(** One segment of a pattern that net/http accepts. *)
Definition read_segment (s : string) : segment :=
  if bool_decide (s = "") then Multi ""
  else match braced s with
       | None => Lit s
       | Some name =>
         if bool_decide (name = "$") then End
         else match trim_dots name with Some multi => Multi multi | None => Wild name end
       end.

(** A pattern without its method: the host before the first slash, and the
    segments after it. *)
Definition read_pattern (path : string) : string * list segment :=
  match Cut "/" path with
  | Some (host, rest) => (host, map read_segment (split_byte "/" rest))
  | None => (path, [])
  end.

(** The segments of a request path are its parts between slashes, decoded, the
    last one empty after a final slash. *)
Fixpoint match_segments (p : list segment) (path : list string) : option (list (string * string)) :=
  match p, path with
  | [], [] => Some []
  | Lit s :: p', x :: path' => if bool_decide (x = s) then match_segments p' path' else None
  | Wild name :: p', x :: path' =>
    if bool_decide (x = "") then None else bs ← match_segments p' path'; Some ((name, x) :: bs)
  | Multi name :: _, _ :: _ => Some [(name, String.concat "/" path)]
  | [End], [""] => Some []
  | _, _ => None
  end.

Definition specificity (s : segment) : nat :=
  match s with Lit _ | End => 0 | Wild _ => 1 | Multi _ => 2 end.

(** Of two patterns that match a path: the literal segment wins over the wildcard,
    and both over the rest of the path. *)
Fixpoint more_specific (p q : list segment) : bool :=
  match p, q with
  | s :: p', t :: q' =>
    if (specificity s <? specificity t)%nat then true
    else if (specificity t <? specificity s)%nat then false
    else more_specific p' q'
  | _, _ => false
  end.

(** A registered pattern; no method matches every method. *)
Record entry := mkEntry {
  en_method : option string; en_host : string; en_segments : list segment; en_handler : handler }.

Definition entry_matches (method : option string) (host : string) (path : list string) (e : entry) : bool :=
  bool_decide (en_method e = method) && bool_decide (en_host e = host)
  && is_Some_b (match_segments (en_segments e) path).

Definition best_entry (l : list entry) : option entry :=
  fold_left (λ best e,
    match best with
    | Some b => if more_specific (en_segments e) (en_segments b) then Some e else best
    | None => Some e
    end) l None.

(** [stripHostPort]. *)
Definition stripHostPort (h : string) : string :=
  match SplitHostPort h with Some (host, _) => host | None => h end.

(** [routingNode.match]: patterns of the host first; of those, patterns of the
    method first, GET standing in for HEAD. *)
Definition match_method (mux : list entry) (host method : string) (path : list string) : option entry :=
  let find m := best_entry (List.filter (entry_matches m host path) mux) in
  match find (Some method) with
  | Some e => Some e
  | None =>
    match (if bool_decide (method = "HEAD") then find (Some "GET") else None) with
    | Some e => Some e
    | None => find None
    end
  end.

Definition match_request (mux : list entry) (r : Request) (path : list string) : option entry :=
  let host := stripHostPort (rq_host r) in
  match (if bool_decide (host = "") then None else match_method mux host (rq_method r) path) with
  | Some e => Some e
  | None => match_method mux "" (rq_method r) path
  end.

Definition ends_with_slash (path : list string) : bool := bool_decide (last path = Some "").

(** [exactMatch]. *)
Definition exact (e : option entry) (path : list string) : bool :=
  match e with
  | None => false
  | Some e =>
    if ends_with_slash path then (length (en_segments e) =? length path)%nat
    else match last (en_segments e) with Some (Multi _) => false | _ => true end
  end.

(** [ServeMux.ServeHTTP] on a clean path: the best pattern's handler, a redirect
    to the same path with a slash, or net/http's own 404. *)
Definition ServeHTTP (mux : list entry) (r : Request) : H Answer :=
  let e := match_request mux r (rq_path r) in
  let slashed := (rq_path r ++ [""])%list in
  if negb (exact e (rq_path r)) && negb (ends_with_slash (rq_path r))
     && exact (match_request mux r slashed) slashed
  then mret (mkAnswer 301 NoBody)
  else match e with
       | Some e => en_handler e (mkCtx None None (default [] (match_segments (en_segments e) (rq_path r)))) r
       | None => mret (mkAnswer 404 NoBody)
       end.

(** ** Registration *)

(** [register]: a chain turned into wrappers; [None] is the panic of a route
    without one. *)
Definition wrap (cfg : ServerConfig) (c : option chain) (rule : hostRule) (h : handler) : option handler :=
  match c with
  | Some chainNone => Some h
  | Some chainAPIKey =>
    Some (λ ctx r, requireAPIKey cfg r (λ scope, h (mkCtx (Some scope) (c_principal ctx) (c_values ctx)) r))
  | Some chainGuard => Some (λ ctx r, refuseBrowserOrigin rule r (h ctx r))
  | Some chainGuardWorkerKey =>
    Some (λ ctx r, refuseBrowserOrigin rule r
      (requireWorkerKey cfg r (λ p, h (mkCtx (c_scope ctx) (Some p) (c_values ctx)) r)))
  | None => None
  end.

Definition register (cfg : ServerConfig) (method : option string) (path : string) (c : option chain)
    (rule : hostRule) (h : handler) : option entry :=
  h' ← wrap cfg c rule h;
  let '(host, segments) := read_pattern path in
  Some (mkEntry method host segments h').

Definition catch_all : entry := mkEntry None "" [Multi ""] (λ _ _, handleNotFound).

(** [registerRoutes]: [None] when it panics. *)
Definition registerRoutes (cfg : ServerConfig) (table : list route) (l : Listener) : option (list entry) :=
  let enabled := enabledRoutes cfg table in
  match checkListenerPlacement enabled, checkRouteBoundaries enabled (fallbacksFor enabled) with
  | [], [] =>
    rule ← hostRuleFor (controlHosts cfg) l;
    let served := routesOn enabled l in
    routes ← mapM (λ rt, register cfg (Some (r_method rt)) (r_path rt) (r_chain rt) rule (r_handler rt)) served;
    fallbacks ← mapM (λ fb, register cfg None (fb_path fb) (Some (fb_chain fb)) rule (λ _ _, methodNotAllowed))
                  (fallbacksFor served);
    Some (routes ++ fallbacks ++ [catch_all])%list
  | _, _ => None
  end.

(** [Server.ListenerHandler] for the server's own table. *)
Definition ListenerHandler (cfg : ServerConfig) (l : Listener) : option (list entry) :=
  registerRoutes cfg (routeTable cfg) l.

(** A request on a listener. *)
Definition serve (cfg : ServerConfig) (l : Listener) (r : Request) (s : Server) : option (Answer * Server) :=
  mux ← ListenerHandler cfg l; Some (answer (ServeHTTP mux r) s).
