(* ===== verification/Services.v ===== *)
(** * Packages scheduler and reconciler: the sweeping services

    internal/scheduler/scheduler.go and internal/reconciler/reconciler.go: one pass of
    each, and the loop that repeats it.  Between two passes anything may happen to the
    database.  The counts of a pass that failed, which are only logged, are left out. *)

From S2P Require Import Prelude.
From S2P Require Import Schema.
From S2P Require Import JobsStore.
From S2P Require Import WorkersTypes.
From S2P Require Import WorkersStore.
From S2P Require Import WorkersOutcome.

(** ** The scheduler *)

Record SchedulerConfig := mkSchedulerConfig { sd_batch_size : Z; sd_renotify_after : duration }.

Definition scheduler_RunOnce (cfg : SchedulerConfig) : Tx SchedulerStats :=
  promoted ← PromoteDueJobs (sd_batch_size cfg);
  renotified ← RenotifyStrandedQueued (sd_renotify_after cfg) (sd_batch_size cfg);
  mret (SchedulerStats_Add (SchedulerStats_Add SchedulerStats_zero promoted) renotified).

Definition scheduler_Changed (r : SchedulerStats) : bool :=
  (0 <? PromotedJobs r)%nat || (0 <? Renotified r)%nat.

(** ** The reconciler *)

Record ReconcilerConfig := mkReconcilerConfig { rk_stale_after : duration; rk_batch_size : Z }.

Definition reconciler_RunOnce (store : StoreConfig) (cfg : ReconcilerConfig) : Tx ReconcileStats :=
  stale ← MarkStaleSessions (rk_stale_after cfg) (rk_batch_size cfg);
  timeouts ← ReconcileDueTimeouts store (rk_batch_size cfg);
  expired ← ReconcileExpiredLeases store (rk_batch_size cfg);
  mret (ReconcileStats_Add
    (ReconcileStats_Add (ReconcileStats_zero <| StaleSessions := stale |>) timeouts) expired).

Definition reconciler_Changed (r : ReconcileStats) : bool :=
  (0 <? StaleSessions r)%nat || (0 <? ExpiredLeases r)%nat || (0 <? TimedOutAttempts r)%nat
  || (0 <? CanceledAttempts r)%nat || (0 <? RequeuedJobs r)%nat || (0 <? RetryWaitingJobs r)%nat
  || (0 <? DeadLetteredJobs r)%nat.

(** ** The loop of both

    What a service meets at each turn of its loop: what others did since, whether its
    select takes the context or the ticker, and whether the context is over after a
    failed pass. *)
Record turn := mkTurn { tn_others : World → World; tn_done : bool; tn_over : bool }.

(** [Run]: the world it leaves, and whether it has returned. *)
Fixpoint service_Run {A} (pass : Tx A) (turns : list turn) (w : World) : World * bool :=
  match turns with
  | [] => (w, false)
  | t :: turns' =>
    let w := tn_others t w in
    if tn_done t then (w, true)
    else match pass w with
         | (Err _, w') => if tn_over t then (w', true) else service_Run pass turns' w'
         | (Ok _, w') => service_Run pass turns' w'
         end
  end.
