(* ===== verification/Adapters.v ===== *)
(** * The adapters of the queue, the object store and telemetry

    internal/queue/sqsbroker, internal/objectstore and internal/telemetry: what each takes
    from the configuration, what it asks of the service behind it, and what it makes of the
    answers.  The services (SQS, S3 and the OpenTelemetry libraries) are arguments. *)

From S2P Require Import Prelude.
From S2P Require Import GoText.
From S2P Require Import GoTime.
From S2P Require Import Schema.
From S2P Require Import Hosts.
From S2P Require Import Config.

Local Open Scope string_scope.

(** Static credentials only when a key id is given, and an endpoint of its own only when it is named:
    otherwise the library's default chain decides. *)
Record AwsClient := mkAwsClient {
  ac_region : string; ac_credentials : option (string * string); ac_endpoint : option string }.
Definition aws_client (region access_key secret endpoint : string) : AwsClient :=
  mkAwsClient region
    (if bool_decide (access_key = "") then None else Some (access_key, secret))
    (if bool_decide (endpoint = "") then None else Some endpoint).

(** ** sqsbroker *)

Module Sqs.
Record Options := mkOptions {
  Endpoint : string; Region : string; QueueName : string; AccessKeyID : string; SecretAccessKey : string }.

Definition OptionsFromConfig (c : Config) : Options :=
  mkOptions (BrokerEndpoint c) (BrokerRegion c) (BrokerQueueName c) (BrokerAccessKeyID c) (BrokerSecretAccessKey c).

Definition newClient (o : Options) : AwsClient := aws_client (Region o) (AccessKeyID o) (SecretAccessKey o) (Endpoint o).

Inductive new_error := QueueNameRequired | AwsConfigUnloadable | QueueUnresolved.
Record Broker := mkBroker { br_client : AwsClient; br_queueURL : string }.

(** [New]; [load] is whether the library accepts the client, [resolve] is GetQueueUrl. *)
Definition New (load : AwsClient → bool) (resolve : AwsClient → string → option string) (o : Options)
    : result new_error Broker :=
  if bool_decide (QueueName o = "") then Err QueueNameRequired
  else if negb (load (newClient o)) then Err AwsConfigUnloadable
  else match resolve (newClient o) (QueueName o) with
       | Some url => Ok (mkBroker (newClient o) url)
       | None => Err QueueUnresolved
       end.

(** A message of the service: its fields are pointers, nil reads as empty. *)
Record SqsMessage := mkSqsMessage {
  sq_id : option string; sq_body : option string; sq_receipt : option string }.
Record Message := mkMessage { ID : string; Body : string; ReceiptHandle : string }.

(** [int32(x)]. *)
Definition int32 (x : Z) : Z := ((x + 2147483648) mod 4294967296 - 2147483648)%Z.

Record ReceiveInput := mkReceiveInput { ri_queue : string; ri_max : Z; ri_wait : Z }.

(** [Receive]: the limit between 1 and the ten of SQS, the wait in whole seconds. *)
Definition receive_input (b : Broker) (max : Z) (wait : duration) : ReceiveInput :=
  let max := if (max <? 1)%Z then 1%Z else max in
  let max := if (10 <? max)%Z then 10%Z else max in
  mkReceiveInput (br_queueURL b) (int32 max) (int32 (Z.quot wait Second)).
Definition Receive (service : ReceiveInput → option (list SqsMessage)) (b : Broker) (max : Z) (wait : duration)
    : option (list Message) :=
  out ← service (receive_input b max wait);
  Some (map (λ m, mkMessage (default "" (sq_id m)) (default "" (sq_body m)) (default "" (sq_receipt m))) out).
End Sqs.

(** ** objectstore *)

Module S3.
Record Options := mkOptions {
  Endpoint : string; Region : string; AccessKeyID : string; SecretAccessKey : string }.

Definition OptionsFromConfig (c : Config) : Options :=
  mkOptions (ResultsEndpoint c) (ResultsRegion c) (ResultsAccessKeyID c) (ResultsSecretAccessKey c).

Definition localRequestTimeout : duration := (3 * Second)%Z.
Definition remoteRequestTimeout : duration := (30 * Second)%Z.

(** The client [New] builds: a named endpoint gets path-style requests, checksums only where the
    service requires them, and the short timeout. *)
Record Client := mkClient { cl_aws : AwsClient; cl_timeout : duration; cl_path_style : bool; cl_checksums_required_only : bool }.
Definition New (load : AwsClient → bool) (o : Options) : option Client :=
  let aws := aws_client (Region o) (AccessKeyID o) (SecretAccessKey o) (Endpoint o) in
  let named := negb (bool_decide (Endpoint o = "")) in
  if load aws
  then Some (mkClient aws (if named then localRequestTimeout else remoteRequestTimeout) named named)
  else None.

Inductive s3_error := BucketAlreadyOwnedByYou | BucketAlreadyExists | NoSuchKey | OtherS3Error.

(** [EnsureBucket]: a bucket that exists, whoever owns it, is no error. *)
Definition EnsureBucket (create : string → option s3_error) (bucket : string) : option s3_error :=
  match create bucket with
  | Some BucketAlreadyOwnedByYou | Some BucketAlreadyExists => None
  | r => r
  end.

(** [Get]: the one error that means the object is not there, against all others; [read] is the
    body, which may fail after the answer. *)
Inductive get_error := ErrNotFound | GetFailed | ReadFailed.
Definition Get (service : string → string → result s3_error (option string)) (bucket key : string)
    : result get_error string :=
  match service bucket key with
  | Err NoSuchKey => Err ErrNotFound
  | Err _ => Err GetFailed
  | Ok None => Err ReadFailed
  | Ok (Some body) => Ok body
  end.
End S3.

(** ** telemetry *)

Inductive log_level := LevelDebug | LevelInfo | LevelWarn | LevelError.
Definition ParseLevel (s : string) : log_level :=
  let s := ToLower (TrimSpace s) in
  if bool_decide (s = "debug") then LevelDebug
  else if bool_decide (s = "warn") || bool_decide (s = "warning") then LevelWarn
  else if bool_decide (s = "error") then LevelError
  else LevelInfo.

Record TracingConfig := mkTracingConfig { tc_exporter : string; tc_endpoint : string; tc_service : string }.
Definition tracing_of (c : Config) (service : string) : TracingConfig :=
  mkTracingConfig (OTelExporter c) (OTelEndpoint c) service.

Inductive exporter := StdoutExporter | OtlpExporter (url : string).
Inductive tracing_error := EndpointRequired | UnknownExporter | ExporterFailed.

(** [newSpanExporter]; [build] is the exporter library. *)
Definition newSpanExporter (build : exporter → bool) (t : TracingConfig) : result tracing_error exporter :=
  let made x := if build x then Ok x else Err ExporterFailed in
  if bool_decide (tc_exporter t = ExporterStdout) then made StdoutExporter
  else if bool_decide (tc_exporter t = ExporterOTLP) then
    if bool_decide (TrimSpace (tc_endpoint t) = "") then Err EndpointRequired else made (OtlpExporter (tc_endpoint t))
  else Err UnknownExporter.

Definition service_name (service : string) : string := if bool_decide (service = "") then "taskforge" else service.

(** [StartTracing]: no provider when tracing is off. *)
Definition StartTracing (build : exporter → bool) (t : TracingConfig)
    : result tracing_error (option (exporter * string)) :=
  if bool_decide (tc_exporter t = "") || bool_decide (tc_exporter t = ExporterNone) then Ok None
  else match newSpanExporter build t with
       | Ok x => Ok (Some (x, service_name (tc_service t)))
       | Err e => Err e
       end.
