(* ===== verification/Client.v ===== *)
(** * Package worker: the client of the control plane

    internal/worker/client.go: each call of a worker, from its arguments to the
    request that is sent, and from the answer to the result the worker acts on.  A
    control plane is an interface, [ControlPlane]; the client is its implementation
    over a network and a server. *)

From S2P Require Import Prelude.
From S2P Require Import GoText.
From S2P Require Import GoJson.
From S2P Require Import GoFloat.
From S2P Require Import GoTime.
From S2P Require Import GoMarshal.
From S2P Require Import Schema.
From S2P Require Import Notification.
From S2P Require Import WorkersTypes.
From S2P Require Import Listing.
From S2P Require Import Keys.
From S2P Require Import Hosts.
From S2P Require Import Api.
From S2P Require Import Routes.

Local Open Scope string_scope.

(** ** Errors *)

(** What a call of the control plane fails with: an answer of the server, one of the
    sentinels of package workers, or anything else, from a broken connection to an
    answer that makes no sense. *)
Inductive call_error :=
| RemoteError (status : Z) (code : string)
| Sentinel (e : error)
| OtherError.

(** [RemoteError.Retryable]. *)
Definition remote_Retryable (status : Z) : bool := (status =? 429)%Z || (500 <=? status)%Z.

(** [retryable]: what is not classified may be retried. *)
Definition retryable (e : call_error) : bool :=
  match e with RemoteError status _ => remote_Retryable status | _ => true end.

(** ** The interface *)

(** What the runner uses of a session, and the status as it came. *)
Record ClientSession := mkClientSession {
  cs_id : uuid; cs_worker_id : uuid; cs_name : string; cs_hostname : string; cs_worker_group : string;
  cs_concurrency_limit : Z; cs_capabilities : list string; cs_supported_job_types : list string;
  cs_status : string; cs_registered_at : time; cs_last_heartbeat_at : time }.

(** A claim and the local deadline of its execution; [None] is the zero time. *)
Record LocalClaim := mkLocalClaim { lc_result : ClaimResult; lc_deadline : option time }.

Record ClientOutcome := mkClientOutcome {
  co_job_id : uuid; co_job_status : string; co_attempt_status : string; co_retry_at : option time;
  co_retry_delay : option duration; co_dead_letter_reason : string; co_replayed : bool }.

(** The API surface a worker without a database needs, over a state [S]. *)
Class ControlPlane (S : Type) := {
  cp_Register : Registration → M S call_error ClientSession;
  cp_Heartbeat : HeartbeatRequest → M S call_error HeartbeatResult;
  cp_Claim : ClaimRequest → M S call_error LocalClaim;
  cp_RenewLease : RenewalRequest → M S call_error RenewalResult;
  cp_Start : Fence → M S call_error StartResult;
  cp_Succeed : Fence → option ResultRef → M S call_error unit;
  cp_Fail : FailureReport → M S call_error ClientOutcome;
  cp_AcknowledgeCancellation : CancelAcknowledgment → M S call_error ClientOutcome }.

(** ** The network *)

(** A request that is lost on its way, or whose answer is. *)
Inductive net_fault := LostRequest | LostAnswer.

(** The server, what others do to it before each request, the faults of the
    connection and the clock of the worker. *)
Record Net := mkNet {
  nt_server : Server;
  nt_others : nat → Server → Server;
  nt_faults : nat → option net_fault;
  nt_calls : nat;
  nt_clock : nat → time;
  nt_readings : nat }.

#[export] Instance eta_Net : Eta Net := λ r,
  mkNet (nt_server r) (nt_others r) (nt_faults r) (nt_calls r) (nt_clock r) (nt_readings r).

(** [time.Duration(ms) * time.Millisecond]. *)
Definition from_millis (ms : Z) : duration := wrap64 (ms * Millisecond).

Definition executionBudget (remaining : duration) : duration :=
  if (remaining <=? 0)%Z then 0%Z
  else
    let margin := Z.quot remaining 10 in
    (remaining - (if (Second <? margin)%Z then Second else margin))%Z.

Definition IsZero (t : time) : bool := (t =? zero_time)%Z.

(** ** Reading answers *)

#[export] Instance result_bind {E} : MBind (result E) := λ A B f m,
  match m with Ok a => f a | Err e => Err e end.

Section parse.
Context (parse : string → option uuid).

(** An id of the answer. *)
Definition answer_id (text : string) : result call_error uuid :=
  match parse text with Some id => Ok id | None => Err OtherError end.

Definition disposition_of (s : string) : option ClaimDisposition :=
  List.find (λ d, bool_decide (disposition_String d = s))
    [Claimed; QueueEmpty; DuplicateNotification; NoEligibleJob; CapacityExhausted].

(** The disposition of a consistent answer. *)
Definition validateClaimResponse (response : ClaimResponse) : result call_error ClaimDisposition :=
  let hasAssignment := is_Some_b (clr_assignment response) in
  let safe := clr_safe_to_acknowledge response in
  match disposition_of (clr_outcome response) with
  | Some Claimed => if negb hasAssignment || negb safe then Err OtherError else Ok Claimed
  | Some QueueEmpty => if hasAssignment || negb safe then Err OtherError else Ok QueueEmpty
  | Some DuplicateNotification =>
    if hasAssignment || negb safe then Err OtherError else Ok DuplicateNotification
  | Some d => if hasAssignment || safe then Err OtherError else Ok d
  | None => Err OtherError
  end.

Definition parseAssignment (r : AssignmentResponse) : result call_error Assignment :=
  if (asr_lease_remaining_ms r <? 0)%Z then Err OtherError
  else
    jobID ← answer_id (asr_job_id r);
    attemptID ← answer_id (asr_attempt_id r);
    leaseID ← answer_id (asr_lease_id r);
    workerID ← answer_id (asr_worker_id r);
    sessionID ← answer_id (asr_worker_session_id r);
    Ok (mkAssignment (asr_scope r) jobID (asr_queue r) (asr_job_type r) (asr_payload r) (asr_priority r)
          (asr_timeout_seconds r) (asr_required_capabilities r) attemptID (asr_attempt_number r) leaseID
          (asr_lease_expires_at r) (from_millis (asr_lease_remaining_ms r)) workerID sessionID).

Fixpoint parseCancellationDirectives (l : list CancellationDirectiveResponse)
    : result call_error (list CancellationDirective) :=
  match l with
  | [] => Ok []
  | r :: l' =>
    jobID ← answer_id (cdr_job_id r);
    attemptID ← answer_id (cdr_attempt_id r);
    leaseID ← answer_id (cdr_lease_id r);
    rest ← parseCancellationDirectives l';
    Ok (mkDirective jobID attemptID leaseID (cdr_cancel_requested_at r) :: rest)
  end.

Definition parseHeartbeat (request : HeartbeatRequest) (response : HeartbeatResponse)
    : result call_error HeartbeatResult :=
  sessionID ← answer_id (hbr_worker_session_id response);
  if negb (sessionID =? hb_session_id request)%N then Err OtherError
  else if negb (bool_decide (hbr_status response = session_status_String SessionHealthy)) then Err OtherError
  else if IsZero (hbr_last_heartbeat_at response) then Err OtherError
  else
    directives ← parseCancellationDirectives (hbr_cancellations response);
    Ok (mkHeartbeatResult sessionID SessionHealthy (hbr_last_heartbeat_at response) directives).

Definition parseRenewal (request : RenewalRequest) (response : RenewalResponse)
    : result call_error RenewalResult :=
  leaseID ← answer_id (rnr_lease_id response);
  if negb (leaseID =? f_lease_id (rq_fence request))%N then Err OtherError
  else if negb (rnr_renewal_version response =? rq_expected_version request + 1)%Z then Err OtherError
  else if (rnr_lease_remaining_ms response <? 0)%Z then Err OtherError
  else if IsZero (rnr_lease_expires_at response) then Err OtherError
  else Ok (mkRenewalResult leaseID (rnr_renewal_version response) (rnr_lease_expires_at response)
             (from_millis (rnr_lease_remaining_ms response)) (rnr_replayed response)).

Definition parseStartResult (fence : Fence) (response : StartResponse) : result call_error StartResult :=
  attemptID ← answer_id (sta_attempt_id response);
  if negb (attemptID =? f_attempt_id fence)%N then Err OtherError
  else if (sta_timeout_remaining_ms response <? 0)%Z then Err OtherError
  else if IsZero (sta_attempt_timeout_at response) || IsZero (sta_started_at response) then Err OtherError
  else Ok (mkStartResult attemptID (sta_started_at response) (sta_attempt_timeout_at response)
             (from_millis (sta_timeout_remaining_ms response)) (sta_replayed response)).

Definition parseOutcome (fence : Fence) (response : OutcomeResponse) : result call_error ClientOutcome :=
  jobID ← answer_id (our_job_id response);
  if negb (jobID =? f_job_id fence)%N then Err OtherError
  else if bool_decide (our_job_status response = "") || bool_decide (our_attempt_status response = "")
  then Err OtherError
  else if negb (Bool.eqb (is_None_b (our_retry_at response)) (is_None_b (our_retry_delay_ms response)))
  then Err OtherError
  else if is_Some_b (our_retry_at response)
          && negb (bool_decide (our_job_status response = "RETRY_WAIT"))
          && negb (bool_decide (our_job_status response = "QUEUED"))
  then Err OtherError
  else Ok (mkClientOutcome jobID (our_job_status response) (our_attempt_status response)
             (our_retry_at response) (from_millis <$> our_retry_delay_ms response)
             (default "" (our_dead_letter_reason response)) (our_replayed response)).

Definition parseSession (response : WorkerSessionResponse) : result call_error ClientSession :=
  workerID ← answer_id (wsr_worker_id response);
  sessionID ← answer_id (wsr_worker_session_id response);
  Ok (mkClientSession sessionID workerID (wsr_worker_name response) (wsr_hostname response)
        (wsr_worker_group response) (wsr_concurrency_limit response) (wsr_capabilities response)
        (wsr_supported_job_types response) (wsr_status response) (wsr_registered_at response)
        (wsr_last_heartbeat_at response)).
End parse.

(** ** Calls *)

Section client.
Context (cfg : ServerConfig) (l : Listener) (host workerKey : string).

Abbreviation C := (M Net call_error).

Definition now : C time := λ n, (Ok (nt_clock n (nt_readings n)), n <| nt_readings := S (nt_readings n) |>).

(** The code of an error answer; another body has none. *)
Definition error_code (b : ResponseBody) : string :=
  match b with ErrorBody code _ => code | _ => "" end.

(** [doJSON]: one request.  The worker decodes into the struct the server encoded, so
    that a body passes as it is. *)
Definition doJSON (method : string) (path : list string) (headers : list (string * string)) (body : string)
    : C ResponseBody := λ n,
  let s := nt_others n (nt_calls n) (nt_server n) in
  let n' := n <| nt_calls := S (nt_calls n) |> in
  match serve cfg l (mkRequest method host headers path [] body) s with
  | None => (Err OtherError, n' <| nt_server := s |>)
  | Some (a, s') =>
    match nt_faults n (nt_calls n) with
    | Some LostRequest => (Err OtherError, n' <| nt_server := s |>)
    | Some LostAnswer => (Err OtherError, n' <| nt_server := s' |>)
    | None =>
      if (an_status a <? 200)%Z || (300 <=? an_status a)%Z
      then (Err (RemoteError (an_status a) (error_code (an_body a))), n' <| nt_server := s' |>)
      else (Ok (an_body a), n' <| nt_server := s' |>)
    end
  end.

(** github.com/google/uuid, as the worker's process has it. *)
Definition client_text : C (uuid → string) := λ n, (Ok (uuid_String (sv_world (nt_server n))), n).
Definition client_parse : C (string → option uuid) := λ n, (Ok (uuid_Parse (sv_world (nt_server n))), n).

Definition lift {A} (r : result call_error A) : C A := λ n, (r, n).

Definition json_string (s : string) : string := append_string true s.
Definition json_strings (l : list string) : string :=
  "[" ++ String.concat "," (map json_string l) ++ "]".

(** The members every fenced body starts with. *)
Definition fence_body (text : uuid → string) (f : Fence) : list string :=
  [ member "job_id" (json_string (text (f_job_id f)));
    member "lease_id" (json_string (text (f_lease_id f)));
    member "worker_id" (json_string (text (f_worker_id f)));
    member "worker_session_id" (json_string (text (f_session_id f))) ].

(** [withWorkerKey]. *)
Definition withWorkerKey : list (string * string) :=
  if bool_decide (workerKey = "") then [] else [("Authorization", "Bearer " ++ workerKey)].

(** A nil slice is encoded as null, which the server reads as it reads the empty one. *)
Definition client_Register (reg : Registration) : C ClientSession :=
  text ← client_text;
  body ← doJSON "PUT" ["internal"; "v1"; "worker-sessions"; text (reg_session_id reg)] withWorkerKey
           (object [ member "worker_name" (json_string (reg_name reg));
                     member "hostname" (json_string (reg_hostname reg));
                     member "worker_group" (json_string (reg_worker_group reg));
                     member "concurrency_limit" (Itoa (reg_concurrency_limit reg));
                     member "capabilities" (json_strings (reg_capabilities reg));
                     member "supported_job_types" (json_strings (reg_supported_job_types reg)) ]);
  parse ← client_parse;
  lift match body with SessionBody r => parseSession parse r | _ => Err OtherError end.

Definition client_Heartbeat (request : HeartbeatRequest) : C HeartbeatResult :=
  text ← client_text;
  body ← doJSON "POST" ["internal"; "v1"; "worker-sessions"; text (hb_session_id request); "heartbeat"] []
           (object [ member "worker_id" (json_string (text (hb_worker_id request))) ]);
  parse ← client_parse;
  lift match body with HeartbeatBody r => parseHeartbeat parse request r | _ => Err OtherError end.

Definition client_RenewLease (request : RenewalRequest) : C RenewalResult :=
  text ← client_text;
  let f := rq_fence request in
  body ← doJSON "POST" ["internal"; "v1"; "leases"; text (f_lease_id f); "renew"] []
           (object [ member "job_id" (json_string (text (f_job_id f)));
                     member "attempt_id" (json_string (text (f_attempt_id f)));
                     member "worker_id" (json_string (text (f_worker_id f)));
                     member "worker_session_id" (json_string (text (f_session_id f)));
                     member "renewal_request_id" (json_string (text (rq_renewal_request_id request)));
                     member "expected_renewal_version" (Itoa (rq_expected_version request)) ]);
  parse ← client_parse;
  lift match body with RenewalBody r => parseRenewal parse request r | _ => Err OtherError end.

(** A claim's answer: the assignment must be for whom it was asked. *)
Definition claim_answer (parse : string → option uuid) (request : ClaimRequest) (started : time)
    (response : ClaimResponse) : result call_error LocalClaim :=
  d ← validateClaimResponse response;
  match clr_assignment response with
  | None => Ok (mkLocalClaim (mkClaimResult d None (clr_replayed response)) None)
  | Some r =>
    a ← parseAssignment parse r;
    if negb (as_worker_id a =? cq_worker_id request)%N || negb (as_session_id a =? cq_session_id request)%N
       || negb (bool_decide (as_queue a = cq_queue request))
    then Err OtherError
    else Ok (mkLocalClaim (mkClaimResult d (Some a) (clr_replayed response))
               (Some (started + executionBudget (as_lease_remaining a))%Z))
  end.

Definition client_Claim (request : ClaimRequest) : C LocalClaim :=
  started ← now;
  text ← client_text;
  body ← doJSON "POST" ["internal"; "v1"; "claims"] []
           (object [ member "worker_id" (json_string (text (cq_worker_id request)));
                     member "worker_session_id" (json_string (text (cq_session_id request)));
                     member "claim_request_id" (json_string (text (cq_claim_request_id request)));
                     member "queue" (json_string (cq_queue request)) ]);
  parse ← client_parse;
  lift match body with ClaimBody r => claim_answer parse request started r | _ => Err OtherError end.

Definition client_Start (fence : Fence) : C StartResult :=
  text ← client_text;
  body ← doJSON "POST" ["internal"; "v1"; "attempts"; text (f_attempt_id fence); "start"] []
           (object (fence_body text fence));
  parse ← client_parse;
  lift match body with StartBody r => parseStartResult parse fence r | _ => Err OtherError end.

Definition location_String (x : Location) : string :=
  match x with LocationInline => "inline" | LocationObject => "object" | LocationOther s => s end.

(** A member that is left out when it is empty. *)
Definition omit_empty (name value : string) : list string :=
  if bool_decide (value = "") then [] else [member name (json_string value)].

(** [toResultPayload] and its encoding; the inline body is itself JSON. *)
Definition result_body (raw : string → option string) (r : ResultRef) : option string :=
  inline ← match ref_inline r with
           | Some b => if bool_decide (b = "") then Some [] else x ← raw b; Some [member "inline_body" x]
           | None => Some []
           end;
  Some (object ([member "location" (json_string (location_String (ref_location r)))] ++ inline
          ++ omit_empty "object_bucket" (ref_bucket r) ++ omit_empty "object_key" (ref_key r)
          ++ [member "size_bytes" (Itoa (ref_size_bytes r))] ++ omit_empty "checksum_sha256" (ref_checksum r))%list).

Definition client_Succeed (fence : Fence) (result : option ResultRef) : C unit :=
  text ← client_text;
  match (match result with None => Some [] | Some r => x ← result_body marshal_raw r; Some [member "result" x] end) with
  | None => throw OtherError
  | Some result =>
    doJSON "POST" ["internal"; "v1"; "attempts"; text (f_attempt_id fence); "succeed"] []
      (object (fence_body text fence ++ result)%list);;
    mret tt
  end.

Definition client_Fail (report : FailureReport) : C ClientOutcome :=
  text ← client_text;
  let f := fr_fence report in
  body ← doJSON "POST" ["internal"; "v1"; "attempts"; text (f_attempt_id f); "fail"] []
           (object (fence_body text f ++
              [ member "outcome_request_id" (json_string (text (fr_outcome_request_id report)));
                member "failure_class" (json_string (class_String (fr_class report)));
                member "error_code" (json_string (fr_error_code report));
                member "error_message" (json_string (fr_error_message report)) ])%list);
  parse ← client_parse;
  lift match body with OutcomeBody r => parseOutcome parse f r | _ => Err OtherError end.

Definition client_AcknowledgeCancellation (ack : CancelAcknowledgment) : C ClientOutcome :=
  text ← client_text;
  let f := ca_fence ack in
  body ← doJSON "POST" ["internal"; "v1"; "attempts"; text (f_attempt_id f); "cancel"] []
           (object (fence_body text f ++
              [ member "outcome_request_id" (json_string (text (ca_outcome_request_id ack))) ])%list);
  parse ← client_parse;
  lift match body with OutcomeBody r => parseOutcome parse f r | _ => Err OtherError end.

(** The client is a control plane. *)
Definition http_control : ControlPlane Net := {|
  cp_Register := client_Register;
  cp_Heartbeat := client_Heartbeat;
  cp_Claim := client_Claim;
  cp_RenewLease := client_RenewLease;
  cp_Start := client_Start;
  cp_Succeed := client_Succeed;
  cp_Fail := client_Fail;
  cp_AcknowledgeCancellation := client_AcknowledgeCancellation |}.
End client.
