(* ===== verification/Handlers.v ===== *)
(** * Package worker: trusted handlers

    internal/worker/handler.go with the handlers of cmd/taskforge-worker, and
    lifecycle.SafeMessage, which bounds what a handler may report. *)

From S2P Require Import Prelude.
From S2P Require Import GoText.
From S2P Require Import GoJson.
From S2P Require Import GoMarshal.
From S2P Require Import GoDecoder.
From S2P Require Import Schema.
From S2P Require Import Lifecycle.
From S2P Require Import GoTime.
From S2P Require Import Submit.
From S2P Require Import GoBytes.

Local Open Scope string_scope.

(** ** Safe messages *)

(** Line breaks and tabs become spaces; other control characters go.  Bytes that are
    no UTF-8 become U+FFFD. *)
Definition clean_rune (r : N) : option N :=
  if (r =? 10)%N || (r =? 13)%N || (r =? 9)%N then Some 32%N
  else if IsControl r then None else Some r.

(** [strings.Fields], on runes. *)
Fixpoint fields_runes (word : list N) (rs : list N) : list (list N) :=
  match rs with
  | [] => match word with [] => [] | _ => [word] end
  | r :: rs' =>
    if IsSpace r then match word with [] => fields_runes [] rs' | _ => word :: fields_runes [] rs' end
    else fields_runes (word ++ [r])%list rs'
  end.

(** [isRuneStart]. *)
Definition isRuneStart (s : string) (i : nat) : bool :=
  match String.get i s with Some c => negb (cont c) | None => true end.

(** The longest prefix of at most [n] bytes that ends at a rune. *)
Fixpoint rune_boundary (s : string) (n : nat) : nat :=
  match n with
  | O => O
  | S n' => if isRuneStart s n then n else rune_boundary s n'
  end.

Definition SafeMessage (message : string) : string :=
  let message := TrimSpace message in
  if bool_decide (message = "") then ""
  else
    let words := fields_runes [] (omap clean_rune (runes message)) in
    let cleaned := String.concat " " (map encode_runes words) in
    if (String.length cleaned <=? MaxErrorMessageBytes)%nat then cleaned
    else take_string (rune_boundary cleaned MaxErrorMessageBytes) cleaned.

(** ** Handlers *)

Record Execution := mkExecution { ex_job_id : uuid; ex_attempt_id : uuid; ex_payload : string }.

(** What a handler fails with: a failure it classified, or an error or panic of any
    other kind. *)
Inductive handler_error :=
| FailureError (class : FailureClass) (code message : string)
| PlainError.

(** A handler; the flag says whether its context ends before its timer.  [None] is a
    handler that never returns, whatever becomes of its context. *)
Definition Handler : Type := Execution → bool → option (result handler_error string).

Definition Retryable (code message : string) : handler_error := FailureError ClassRetryable code message.
Definition Permanent (code message : string) : handler_error := FailureError ClassPermanent code message.

(** [Registry]: the handlers by job type. *)
Definition Registry : Type := gmap string Handler.

Inductive registry_error := EmptyJobType | NilHandler | AlreadyRegistered.

(** A nil handler is [None]. *)
Definition registry_Register (r : Registry) (jobType : string) (h : option Handler)
    : result registry_error Registry :=
  if bool_decide (jobType = "") then Err EmptyJobType
  else match h with
       | None => Err NilHandler
       | Some h => match r !! jobType with Some _ => Err AlreadyRegistered | None => Ok (<[jobType:=h]> r) end
       end.

Definition Lookup (r : Registry) (jobType : string) : option Handler := r !! jobType.

Definition Types (r : Registry) : list string := sort_Strings (map fst (map_to_list r)).

(** ** The demonstration handlers *)

Definition DemoEcho : Handler := λ e _, Some (Ok (ex_payload e)).

Definition demoFailureCode : string := "demo_failure".
Definition invalidPayloadCode : string := "invalid_payload".
Definition demoFailRetryableMessage : string := "demo.fail was asked to fail retryably".
Definition demoFailPermanentMessage : string := "demo.fail was asked to fail permanently".
Definition dq1 : string := String dq "".
Definition demoFailPayloadMessage : string :=
  "the payload must be exactly {" ++ dq1 ++ "class" ++ dq1 ++ ": " ++ dq1 ++ "retryable" ++ dq1 ++ "} or {"
  ++ dq1 ++ "class" ++ dq1 ++ ": " ++ dq1 ++ "permanent" ++ dq1 ++ "}".
Definition demoSleepPayloadMessage : string :=
  "the payload must be exactly {" ++ dq1 ++ "duration_ms" ++ dq1
  ++ ": n}, a whole number of milliseconds within the supported range".
Definition maxDemoSleepMillis : Z := MaxTimeoutSeconds * 1000.

(** The member names and values of exactly one object, none repeated, with exactly
    the wanted names.  A value nested as deep as the decoder goes is refused here,
    one level before Go would; no handler accepts one. *)
Definition decodeDemoPayload (payload : string) (wantKeys : list string)
    : option (list (string * string)) :=
  if negb (json_valid payload) then None
  else
    ms ← object_members payload;
    if bool_decide (NoDup (map fst ms)) && (length ms =? length wantKeys)%nat
       && forallb (λ k, existsb (λ m, bool_decide (m.1 = k)) ms) wantKeys
    then Some ms else None.

(** [members[k]]. *)
Definition lookup_member (ms : list (string * string)) (k : string) : string :=
  match List.find (λ m, bool_decide (m.1 = k)) ms with Some m => m.2 | None => "" end.

Definition DemoSleep : Handler := λ e ctxDone, Some
  match decodeDemoPayload (ex_payload e) ["duration_ms"] with
  | None => Err (Permanent invalidPayloadCode demoSleepPayloadMessage)
  | Some members =>
    match into_optional 0%Z into_int (lookup_member members "duration_ms") None with
    | Some (Some ms) =>
      if (ms <? 1)%Z || (maxDemoSleepMillis <? ms)%Z
      then Err (Permanent invalidPayloadCode demoSleepPayloadMessage)
      else if ctxDone then Err PlainError
      else Ok (object [member "slept_ms" (Itoa ms)])
    | _ => Err (Permanent invalidPayloadCode demoSleepPayloadMessage)
    end
  end.

Definition DemoFail : Handler := λ e _, Some
  match decodeDemoPayload (ex_payload e) ["class"] with
  | None => Err (Permanent invalidPayloadCode demoFailPayloadMessage)
  | Some members =>
    match into_optional "" into_string (lookup_member members "class") None with
    | Some (Some class) =>
      if bool_decide (class = "retryable") then Err (Retryable demoFailureCode demoFailRetryableMessage)
      else if bool_decide (class = "permanent") then Err (Permanent demoFailureCode demoFailPermanentMessage)
      else Err (Permanent invalidPayloadCode demoFailPayloadMessage)
    | _ => Err (Permanent invalidPayloadCode demoFailPayloadMessage)
    end
  end.

(** [registerTrustedHandlers]. *)
Definition trusted_handlers : list (string * Handler) :=
  [("demo.echo", DemoEcho); ("demo.fail", DemoFail); ("demo.sleep", DemoSleep)].

Definition registerTrustedHandlers (r : Registry) : result registry_error Registry :=
  fold_left (λ acc h, match acc with Ok r => registry_Register r h.1 (Some h.2) | Err e => Err e end)
    trusted_handlers (Ok r).

(** ** Examples *)

Definition obj1 (k v : string) : string := object [member k v].

Example demo_handlers :
  let run h p := h (mkExecution 1 2 p) false in
  run DemoSleep (obj1 "duration_ms" "5") = Some (Ok (obj1 "slept_ms" "5")) ∧
  run DemoSleep (obj1 "DURATION_MS" "5") = Some (Err (Permanent invalidPayloadCode demoSleepPayloadMessage)) ∧
  run DemoSleep (object [member "duration_ms" "5"; member "duration_ms" "6"])
    = Some (Err (Permanent invalidPayloadCode demoSleepPayloadMessage)) ∧
  run DemoFail (obj1 "class" (append_string true "retryable"))
    = Some (Err (Retryable demoFailureCode demoFailRetryableMessage)).
Proof. vm_compute. done. Qed.

Example safe_message_cleans :
  SafeMessage (" a" ++ String (ascii_of_nat 10) "" ++ " b" ++ String (ascii_of_nat 7) "" ++ " ") = "a b".
Proof. vm_compute. done. Qed.
