(* ===== verification/Runner.v ===== *)
(** * Package worker: the runner

    internal/worker/runner.go, renewal.go and cancellation.go: what a worker process
    does with a notification, from the claim to the report of the outcome, with its
    renewal and heartbeat loops and the registry of its attempts.

    A delivery is a computation over a [Process]: the control plane it calls, behind
    the interface [ControlPlane], the registry of attempts and the deliveries in
    flight, which it shares with the other slots, and what it cannot foresee: the
    readings of its clock, when its context ends, the arms its loops' selects take,
    what the heartbeat and the other slots do in between.  Every call it makes is
    kept in its log. *)

From S2P Require Import Prelude.
From S2P Require Import GoText.
From S2P Require Import GoTime.
From S2P Require Import Schema.
From S2P Require Import Lifecycle.
From S2P Require Import Outbox.
From S2P Require Import Notification.
From S2P Require Import Results.
From S2P Require Import WorkersTypes.
From S2P Require Import Keys.
From S2P Require Import Client.
From S2P Require Import Handlers.

Local Open Scope string_scope.

(** ** Configuration *)

Record RunnerConfig := mkRunnerConfig {
  rc_registration : Registration; rc_queue : string; rc_poll_wait : duration;
  rc_retry_attempts : Z; rc_retry_delay : duration; rc_error_backoff : duration;
  rc_shutdown_timeout : duration; rc_heartbeat_interval : duration; rc_session_stale_after : duration;
  rc_renew_interval : duration; rc_result_inline_threshold : Z; rc_results_bucket : string }.

#[export] Instance eta_RunnerConfig : Eta RunnerConfig := λ r,
  mkRunnerConfig (rc_registration r) (rc_queue r) (rc_poll_wait r) (rc_retry_attempts r)
    (rc_retry_delay r) (rc_error_backoff r) (rc_shutdown_timeout r) (rc_heartbeat_interval r)
    (rc_session_stale_after r) (rc_renew_interval r) (rc_result_inline_threshold r) (rc_results_bucket r).

(** What [NewRunner] makes of a configuration. *)
Definition at_least (floor v fallback : Z) : Z := if (v <? floor)%Z then fallback else v.
Definition NewRunner (c : RunnerConfig) : RunnerConfig :=
  c <| rc_retry_attempts := at_least 1 (rc_retry_attempts c) 1 |>
    <| rc_shutdown_timeout := at_least 1 (rc_shutdown_timeout c) (15 * Second) |>
    <| rc_heartbeat_interval := at_least 1 (rc_heartbeat_interval c) (5 * Second) |>
    <| rc_session_stale_after := at_least 1 (rc_session_stale_after c) (15 * Second) |>
    <| rc_renew_interval := at_least 1 (rc_renew_interval c) (10 * Second) |>
    <| rc_result_inline_threshold := at_least 1 (rc_result_inline_threshold c) (64 * 1024) |>.

(** ** What errors mean *)

Definition isCancellationRequested (e : call_error) : bool :=
  match e with
  | RemoteError _ code => bool_decide (code = "cancellation_requested")
  | Sentinel ErrCancellationRequested => true
  | _ => false
  end.

Definition isSessionLost (e : call_error) : bool :=
  match e with
  | RemoteError _ code => bool_decide (code = "worker_session_unavailable") || bool_decide (code = "fence_rejected")
  | Sentinel ErrSessionUnavailable | Sentinel ErrFenceRejected => true
  | _ => false
  end.

Definition isAuthorityLost (e : call_error) : bool :=
  match e with
  | RemoteError _ code =>
    existsb (λ c, bool_decide (code = c))
      ["worker_session_unavailable"; "fence_rejected"; "lease_expired"; "renewal_conflict"; "state_conflict"]
  | Sentinel ErrSessionUnavailable | Sentinel ErrFenceRejected | Sentinel ErrLeaseExpired
  | Sentinel ErrRenewalConflict | Sentinel ErrStateConflict => true
  | _ => false
  end.

(** What ends the whole process. *)
Inductive fatal := ErrSessionLost (e : call_error) | ErrHeartbeatStale.

Definition escalateSessionLoss (e : call_error) : option fatal :=
  if isSessionLost e then Some (ErrSessionLost e) else None.

Definition classifyHandlerError (e : handler_error) : FailureClass * string * string :=
  match e with
  | FailureError class code message =>
    if Class.ReportableByHandler class then (class, code, SafeMessage message)
    else (ClassRetryable, CodeHandlerError, MessageHandlerError)
  | PlainError => (ClassRetryable, CodeHandlerError, MessageHandlerError)
  end.

(** ** Flights

    The deliveries in progress: a flight per event, shared by pointer between the
    leader that created it and the followers that joined it, also after it has left
    the map. *)

(** What the leader of a delivery tells its followers. *)
Record decision := mkDecision { de_safeAck : bool; de_err : option fatal }.

Record flight := mkFlight { fl_decision : option decision; fl_followers : nat }.
Record flights := mkFlights { fl_map : gmap uuid nat; fl_heap : list flight }.

#[export] Instance eta_flight : Eta flight := λ r, mkFlight (fl_decision r) (fl_followers r).
#[export] Instance eta_flights : Eta flights := λ r, mkFlights (fl_map r) (fl_heap r).

(** The flight of the event, and whether the caller leads it. *)
Definition beginDelivery (eventID : uuid) (f : flights) : flights * nat * bool :=
  match fl_map f !! eventID with
  | Some ptr => (f <| fl_heap := alter (λ x, x <| fl_followers := S (fl_followers x) |>) ptr (fl_heap f) |>, ptr, false)
  | None =>
    let ptr := length (fl_heap f) in
    (mkFlights (<[eventID:=ptr]> (fl_map f)) (fl_heap f ++ [mkFlight None 0])%list, ptr, true)
  end.

(** [settleLocked]: the first decision stands. *)
Definition settle (d : decision) (x : flight) : flight :=
  match fl_decision x with Some _ => x | None => x <| fl_decision := Some d |> end.

Definition decideDelivery (ptr : nat) (d : decision) (f : flights) : flights :=
  f <| fl_heap := alter (settle d) ptr (fl_heap f) |>.

Definition endDelivery (eventID : uuid) (ptr : nat) (f : flights) : flights :=
  let f := decideDelivery ptr (mkDecision false None) f in
  f <| fl_map := delete eventID (fl_map f) |>.

(** ** The process *)

(** The contexts a directive can cancel, by number. *)
Record attemptEntry := mkAttemptEntry { ae_fence : Fence; ae_cancel : option nat; ae_canceled : bool }.

Inductive cause := errUserCanceled | errAttemptTimedOut | errAuthorityLost | errWorkerShutdown.
#[export] Instance cause_eq : EqDecision cause. Proof. solve_decision. Defined.

(** The arm a select of the renewal loop takes. *)
Inductive wake := WakeStop | WakeDone | WakeAuthority | WakeTick.

(** The calls of a delivery, with their answers. *)
Inductive action :=
| ActClaim (req : ClaimRequest) (r : result call_error LocalClaim)
| ActDelete (receipt : string)
| ActStart (fence : Fence) (r : result call_error StartResult)
| ActExecute (job_type : string) (e : Execution) (r : option (result handler_error string))
| ActRenew (req : RenewalRequest) (r : result call_error RenewalResult)
| ActPut (bucket key body : string) (r : result call_error unit)
| ActSucceed (fence : Fence) (ref : option ResultRef) (r : result call_error unit)
| ActFail (report : FailureReport) (r : result call_error ClientOutcome)
| ActCancel (ack : CancelAcknowledgment) (r : result call_error ClientOutcome).

Record Process (S : Type) := mkProcess {
  pr_control : S;
  pr_clock : nat → time; pr_readings : nat;
  pr_over : nat → bool; pr_looks : nat;
  pr_uuids : nat → uuid; pr_drawn : nat;
  pr_attempts : gmap uuid attemptEntry;
  pr_canceled : gset nat; pr_contexts : nat;
  pr_beats : nat → list CancellationDirective; pr_uses : nat;
  pr_wakes : nat → list wake; pr_phases : nat;
  pr_puts : nat → bool; pr_uploads : nat;
  pr_picks : nat → nat; pr_picked : nat;
  pr_flights : flights; pr_slots : nat → flights → flights; pr_shares : nat;
  pr_log : list action }.
Arguments mkProcess {S}. Arguments pr_control {S}. Arguments pr_clock {S}. Arguments pr_readings {S}.
Arguments pr_over {S}. Arguments pr_looks {S}. Arguments pr_uuids {S}. Arguments pr_drawn {S}.
Arguments pr_attempts {S}. Arguments pr_canceled {S}. Arguments pr_contexts {S}. Arguments pr_beats {S}.
Arguments pr_uses {S}. Arguments pr_wakes {S}. Arguments pr_phases {S}. Arguments pr_puts {S}.
Arguments pr_uploads {S}. Arguments pr_picks {S}. Arguments pr_picked {S}. Arguments pr_log {S}.
Arguments pr_flights {S}. Arguments pr_slots {S}. Arguments pr_shares {S}.

#[export] Instance eta_Process S : Eta (Process S) := λ r,
  mkProcess (pr_control r) (pr_clock r) (pr_readings r) (pr_over r) (pr_looks r) (pr_uuids r) (pr_drawn r)
    (pr_attempts r) (pr_canceled r) (pr_contexts r) (pr_beats r) (pr_uses r) (pr_wakes r) (pr_phases r)
    (pr_puts r) (pr_uploads r) (pr_picks r) (pr_picked r) (pr_flights r) (pr_slots r) (pr_shares r) (pr_log r).

(** ** The registry of attempts *)

Abbreviation attempts := (gmap uuid attemptEntry).

Definition reg_register (fence : Fence) (m : attempts) : attempts :=
  <[f_attempt_id fence := mkAttemptEntry fence None false]> m.
Definition reg_unregister (id : uuid) (m : attempts) : attempts := delete id m.
Definition wasCanceled (id : uuid) (m : attempts) : bool :=
  match m !! id with Some e => ae_canceled e | None => false end.

(** The entry with the context of [ctx], and whether that is to be cancelled. *)
Definition reg_bind (id : uuid) (ctx : nat) (m : attempts) : attempts * bool :=
  match m !! id with
  | Some e => (<[id := mkAttemptEntry (ae_fence e) (Some ctx) (ae_canceled e)]> m, ae_canceled e)
  | None => (m, false)
  end.

(** One directive: the context it cancels. *)
Definition deliver (d : CancellationDirective) (m : attempts) : attempts * option nat :=
  match m !! cd_attempt_id d with
  | Some e =>
    if negb (f_lease_id (ae_fence e) =? cd_lease_id d)%N || negb (f_job_id (ae_fence e) =? cd_job_id d)%N
    then (m, None)
    else (<[cd_attempt_id d := mkAttemptEntry (ae_fence e) (ae_cancel e) true]> m, ae_cancel e)
  | None => (m, None)
  end.

(** [deliverCancellations]. *)
Fixpoint deliver_all (l : list CancellationDirective) (m : attempts) (canceled : gset nat)
    : attempts * gset nat :=
  match l with
  | [] => (m, canceled)
  | d :: l' =>
    let '(m', ctx) := deliver d m in
    deliver_all l' m' (match ctx with Some c => {[c]} ∪ canceled | None => canceled end)
  end.

(** ** Steps of a process *)

Section runner.
Context {St : Type} `{ControlPlane St}.
Context (cfg : RunnerConfig) (registry : Registry) (objects : bool).

Abbreviation P := (M (Process St) call_error).

Definition attempt {A} (m : P A) : P (result call_error A) := λ p, let '(r, p') := m p in (Ok r, p').

Definition r_now : P time := λ p,
  (Ok (pr_clock p (pr_readings p)), p <| pr_readings := S (pr_readings p) |>).

(** [ctx.Err() != nil]. *)
Definition ctx_over : P bool := λ p, (Ok (pr_over p (pr_looks p)), p <| pr_looks := S (pr_looks p) |>).

Definition r_uuid : P uuid := λ p, (Ok (pr_uuids p (pr_drawn p)), p <| pr_drawn := S (pr_drawn p) |>).

Definition log (a : action) : P unit := λ p, (Ok tt, p <| pr_log := (pr_log p ++ [a])%list |>).

(** A call of the control plane. *)
Definition control_call {A} (m : M St call_error A) : P A := λ p,
  let '(r, s) := m (pr_control p) in (r, p <| pr_control := s |>).
Definition recorded {A} (act : result call_error A → action) (m : P A) : P A :=
  r ← attempt m; log (act r);; match r with Ok a => mret a | Err e => throw e end.
Definition call {A} (act : result call_error A → action) (m : M St call_error A) : P A :=
  recorded act (control_call m).

(** What the heartbeat loop delivered since the registry was last used. *)
Definition beats : P unit := λ p,
  let '(m, c) := deliver_all (pr_beats p (pr_uses p)) (pr_attempts p) (pr_canceled p) in
  (Ok tt, p <| pr_attempts := m |> <| pr_canceled := c |> <| pr_uses := S (pr_uses p) |>).

(** A use of the registry. *)
Definition on_registry {A} (f : attempts → attempts * A) : P A := λ p,
  let '(m, a) := f (pr_attempts p) in (Ok a, p <| pr_attempts := m |>).
Definition use {A} (f : attempts → attempts * A) : P A := beats;; on_registry f.

(** A use of the flights, after what the other slots did to them since the last. *)
Definition share {A} (f : flights → flights * A) : P A := λ p,
  let '(fl, a) := f (pr_slots p (pr_shares p) (pr_flights p)) in
  (Ok a, p <| pr_flights := fl |> <| pr_shares := S (pr_shares p) |>).

Definition new_context : P nat := λ p, (Ok (pr_contexts p), p <| pr_contexts := S (pr_contexts p) |>).

Definition cancel_context (ctx : nat) : P unit := λ p, (Ok tt, p <| pr_canceled := {[ctx]} ∪ pr_canceled p |>).

(** [bind]: a directive that came first is applied. *)
Definition bind_context (id : uuid) (ctx : nat) : P unit :=
  pending ← use (reg_bind id ctx);
  if (pending : bool) then cancel_context ctx else mret tt.

Definition is_canceled (ctx : nat) : P bool := λ p, (Ok (bool_decide (ctx ∈ pr_canceled p)), p).
Definition user_canceled (ctx : nat) : P bool := beats;; is_canceled ctx.

(** [waitContext]: whether the wait ran its course. *)
Definition waitContext : P bool := over ← ctx_over; mret (negb over).

(** [retry] with [n] attempts left after the first. *)
Fixpoint retry {A} (n : nat) (op : P A) : P A :=
  r ← attempt op;
  match r with
  | Ok a => mret a
  | Err e =>
    match n with
    | O => throw e
    | S n' =>
      if negb (retryable e) then throw e
      else
        go ← waitContext;
        if (go : bool) then retry n' op else throw OtherError
    end
  end.

Definition retries : nat := Z.to_nat (rc_retry_attempts cfg - 1).

(** ** Renewal *)

Record renewal := mkRenewalState {
  rl_version : Z; rl_pending : option (uuid * Z); rl_deadline : time;
  rl_lost : bool; rl_fatal : option fatal; rl_live : bool }.

#[local] Instance eta_renewal : Eta renewal := λ r,
  mkRenewalState (rl_version r) (rl_pending r) (rl_deadline r) (rl_lost r) (rl_fatal r) (rl_live r).

Definition lose (f : option fatal) (s : renewal) : renewal :=
  s <| rl_lost := true |> <| rl_fatal := match rl_fatal s with Some x => Some x | None => f end |>
    <| rl_live := false |>.
Definition leave (s : renewal) : renewal := s <| rl_live := false |>.

(** One turn of the loop of [startRenewal]. *)
Definition renew_turn (fence : Fence) (s : renewal) (w : wake) : P renewal :=
  match w with
  | WakeStop | WakeDone => mret (leave s)
  | WakeAuthority => mret (lose None s)
  | WakeTick =>
    t ← r_now;
    if negb (t <? rl_deadline s)%Z then mret (lose None s)
    else
      pending ← match rl_pending s with
                | Some x => mret x
                | None => id ← r_uuid; mret (id, rl_version s)
                end;
      let s := s <| rl_pending := Some pending |> in
      requestStarted ← r_now;
      let req := mkRenewal fence pending.1 pending.2 in
      r ← attempt (call (ActRenew req) (cp_RenewLease req));
      over ← ctx_over;
      if (over : bool) then mret (leave s)
      else match r with
           | Err e =>
             if isAuthorityLost e then mret (lose (escalateSessionLoss e) s)
             else
               t ← r_now;
               if negb (t <? rl_deadline s)%Z then mret (lose None s) else mret s
           | Ok result =>
             let renewedUntil := (requestStarted + executionBudget (rn_remaining result))%Z in
             t1 ← r_now;
             if negb (t1 <? rl_deadline s)%Z then mret (lose None s)
             else
               t2 ← r_now;
               if negb (t2 <? renewedUntil)%Z then mret (lose None s)
               else mret (s <| rl_pending := None |> <| rl_version := rn_renewal_version result |>
                            <| rl_deadline := renewedUntil |>)
           end
  end.

Fixpoint renew_turns (fence : Fence) (s : renewal) (l : list wake) : P renewal :=
  match l with
  | [] => mret s
  | w :: l' => if rl_live s then s' ← renew_turn fence s w; renew_turns fence s' l' else mret s
  end.

(** The loop beside what the delivery does meanwhile. *)
Definition renew_phase (fence : Fence) (s : renewal) : P renewal := λ p,
  renew_turns fence s (pr_wakes p (pr_phases p)) (p <| pr_phases := S (pr_phases p) |>).

Definition startRenewal (deadline : time) : renewal := mkRenewalState 0 None deadline false None true.

(** ** Results *)

(** The object key of a large result; [text] prints uuids. *)
Definition object_key (text : uuid → string) (scope : string) (fence : Fence) : string :=
  "results/" ++ scope ++ "/" ++ text (f_job_id fence) ++ "/" ++ text (f_attempt_id fence).

Definition put_answer : P unit := λ p,
  (if pr_puts p (pr_uploads p) then Ok tt else Err OtherError, p <| pr_uploads := S (pr_uploads p) |>).
Definition objects_Put (bucket key body : string) : P unit :=
  recorded (ActPut bucket key body) put_answer.

(** The result to report, or [None] when it could not be stored. *)
Definition prepareResult (text : uuid → string) (fence : Fence) (scope handlerResult : string)
    : P (option (option ResultRef)) :=
  let size := Z.of_nat (String.length handlerResult) in
  if bool_decide (handlerResult = "") then mret (Some None)
  else match Classify handlerResult (rc_result_inline_threshold cfg) with
       | LocationInline => mret (Some (Some (mkResultRef LocationInline (Some handlerResult) "" "" size "")))
       | _ =>
         if negb objects then mret None
         else
           let key := object_key text scope fence in
           r ← attempt (retry retries (objects_Put (rc_results_bucket cfg) key handlerResult));
           mret match r with
                | Ok _ => Some (Some (mkResultRef LocationObject None (rc_results_bucket cfg) key size
                                        (ChecksumSHA256 handlerResult)))
                | Err _ => None
                end
       end.

(** ** Reports *)

Definition reportFailure (fence : Fence) (e : handler_error) : P unit :=
  id ← r_uuid;
  let '(class, code, message) := classifyHandlerError e in
  let report := mkFailureReport fence id class code message in
  attempt (retry retries (call (ActFail report) (cp_Fail report)));; mret tt.

Definition acknowledgeCancellation (fence : Fence) : P unit :=
  id ← r_uuid;
  let ack := mkCancelAck fence id in
  attempt (retry retries (call (ActCancel ack) (cp_AcknowledgeCancellation ack)));; mret tt.

(** ** A delivery *)

(** The first of the causes that have happened. *)
Definition first_cause (l : list cause) : P (option cause) := λ p,
  let n := pr_picks p (pr_picked p) in
  (Ok match l with [] => None | _ => l !! (n mod length l)%nat end, p <| pr_picked := S (pr_picked p) |>).

Definition when {A} (b : bool) (x : A) : list A := if b then [x] else [].

(** What ended the handler's context, if anything did: a directive, the loss of the
    lease, the end of the process, or its deadline, which takes effect at some moment
    after it. *)
Definition handler_cause (ctx : nat) (lost : bool) (deadline : time) : P (option cause) :=
  user ← user_canceled ctx;
  over ← ctx_over;
  late ← ctx_over;
  t ← r_now;
  first_cause (when user errUserCanceled ++ when lost errAuthorityLost ++ when over errWorkerShutdown
               ++ when ((deadline <=? t)%Z && late) errAttemptTimedOut)%list.

(** [invokeHandler]: the handler may be told to stop, and may panic. *)
Definition invokeHandler (jobType : string) (h : Handler) (e : Execution)
    : P (option (result handler_error string)) :=
  over ← ctx_over; log (ActExecute jobType e (h e over));; mret (h e over).

(** How a goroutine leaves an attempt: with what ends the process, if anything; or not
    at all, inside a handler that does not return. *)
Inductive ending := StillRunning | Done (f : option fatal).

(** From the return of the handler to the report of its outcome. *)
Definition finish_attempt (text : uuid → string) (a : Assignment) (fence : Fence)
    (r : result handler_error string) (ctx : nat) (loop : renewal) (timeoutDeadline : time) : P (option fatal) :=
  why ← handler_cause ctx (rl_lost loop) timeoutDeadline;
  canceled ← use (λ m, (m, wasCanceled (f_attempt_id fence) m));
  ready ← match r with
          | Ok handlerResult =>
            if negb canceled && negb (bool_decide (why = Some errUserCanceled))
               && negb (bool_decide (why = Some errAttemptTimedOut))
               && negb (bool_decide (why = Some errAuthorityLost))
            then
              upload ← new_context;
              bind_context (f_attempt_id fence) upload;;
              prepareResult text fence (as_scope a) handlerResult
            else mret None
          | Err _ => mret None
          end;
  loop ← renew_phase fence loop;
  canceled' ← use (λ m, (m, wasCanceled (f_attempt_id fence) m));
  let canceled := canceled || canceled' in
  match rl_fatal loop with
  | Some f => mret (Some f)
  | None =>
    if canceled || bool_decide (why = Some errUserCanceled) then
      acknowledgeCancellation fence;; mret None
    else if bool_decide (why = Some errAttemptTimedOut) then mret None
    else if rl_lost loop || bool_decide (why = Some errAuthorityLost) then mret None
    else match r with
         | Err e =>
           over ← ctx_over;
           if (over : bool) then mret None else reportFailure fence e;; mret None
         | Ok _ =>
           match ready with
           | None => mret None
           | Some result =>
             r ← attempt (retry retries (call (ActSucceed fence result) (cp_Succeed fence result)));
             mret match r with Err e => escalateSessionLoss e | Ok _ => None end
           end
         end
  end.

(** The execution of a started attempt and its report. *)
Definition execute_attempt (text : uuid → string) (a : Assignment) (h : Handler) (fence : Fence)
    (timeoutStarted : time) (start : StartResult) (authorityDeadline : time) : P ending :=
  let timeoutDeadline := (timeoutStarted + executionBudget (st_remaining start))%Z in
  t ← r_now;
  over ← ctx_over;
  if (timeoutDeadline <=? t)%Z || over then mret (Done None)
  else
    ctx ← new_context;
    bind_context (f_attempt_id fence) ctx;;
    r ← invokeHandler (as_job_type a) h (mkExecution (as_job_id a) (as_attempt_id a) (as_payload a));
    loop ← renew_phase fence (startRenewal authorityDeadline);
    match r with
    | None => mret StillRunning
    | Some r => f ← finish_attempt text a fence r ctx loop timeoutDeadline; mret (Done f)
    end.

Definition assignment_fence (a : Assignment) : Fence :=
  mkFence (as_job_id a) (as_attempt_id a) (as_lease_id a) (as_worker_id a) (as_session_id a).

(** From the start of an assigned attempt on. *)
Definition run_attempt (text : uuid → string) (a : Assignment) (deadline : option time) (h : Handler)
    : P ending :=
  let fence := assignment_fence a in
  timeoutStarted ← r_now;
  r ← attempt (retry retries (call (ActStart fence) (cp_Start fence)));
  match r with
  | Err e =>
    if isSessionLost e then mret (Done (Some (ErrSessionLost e)))
    else
      canceled ← use (λ m, (m, wasCanceled (f_attempt_id fence) m));
      if canceled || isCancellationRequested e then acknowledgeCancellation fence;; mret (Done None)
      else mret (Done None)
  | Ok start =>
    authorityDeadline ← match deadline with
                        | Some d => mret d
                        | None => t ← r_now; mret (t + executionBudget (as_lease_remaining a))%Z
                        end;
    t ← r_now;
    if negb (t <? authorityDeadline)%Z then mret (Done None)
    else execute_attempt text a h fence timeoutStarted start authorityDeadline
  end.

(** [acknowledge]: a failure is only logged. *)
Definition acknowledge (receipt : string) : P unit := log (ActDelete receipt).

(** The claim of a delivery: the decision for its followers, and the claim. *)
Definition claim_delivery (req : ClaimRequest) : P (decision * option LocalClaim) :=
  r ← attempt (retry retries (call (ActClaim req) (cp_Claim req)));
  mret match r with
       | Err e => (mkDecision false (escalateSessionLoss e), None)
       | Ok claim => (mkDecision (SafeToAcknowledge (lc_result claim)) None, Some claim)
       end.

(** The delivery of a message to the leader of the flight [ptr]: its decision, which
    it shares before it acts on it, and how it ends. *)
Definition lead_delivery (text : uuid → string) (session : ClientSession) (eventID : uuid) (queue receipt : string)
    (ptr : nat) : P (decision * ending) :=
  '(d, claim) ← claim_delivery (mkClaimRequest (cs_worker_id session) (cs_id session) eventID queue);
  share (λ f, (decideDelivery ptr d f, tt));;
  match claim with
  | None => mret (d, Done (de_err d))
  | Some claim =>
    (if de_safeAck d then acknowledge receipt else mret tt);;
    match cl_disposition (lc_result claim), cl_assignment (lc_result claim) with
    | Claimed, Some a =>
      match Lookup registry (as_job_type a) with
      | None => mret (d, Done None)
      | Some h =>
        use (λ m, (reg_register (assignment_fence a) m, tt));;
        e ← run_attempt text a (lc_deadline claim) h;
        match e with
        | StillRunning => mret (d, StillRunning)
        | Done f =>
          use (λ m, (reg_unregister (as_attempt_id a) m, tt));;
          mret (d, Done f)
        end
      end
    | _, _ => mret (d, Done None)
    end
  end.

(** What became of a message: left with the broker, a follower's, with the decision it
    saw before its context ended, or a leader's. *)
Inductive delivered := Refused | Followed (d : option decision) | Led (d : decision) (e : ending).

(** A follower waits for the decision of its flight, and no longer than its context. *)
Definition follow_delivery (ptr : nat) (receipt : string) : P delivered :=
  over ← ctx_over;
  decided ← share (λ f, (f, fl_heap f !! ptr ≫= fl_decision));
  match (over : bool), decided with
  | false, Some d => (if de_safeAck d then acknowledge receipt else mret tt);; mret (Followed (Some d))
  | _, _ => mret (Followed None)
  end.

(** [processMessage].  A leader that is still in a handler has not left its flight. *)
Definition processMessage (parse : string → option uuid) (text : uuid → string) (session : ClientSession)
    (body receipt : string) : P delivered :=
  match decodeWorkNotification parse body with
  | Err _ => mret Refused
  | Ok n =>
    if negb (bool_decide (nt_queue n = rc_queue cfg)) then mret Refused
    else
      '(ptr, leader) ← share (λ f, let '(f', ptr, leader) := beginDelivery (nt_event_id n) f in (f', (ptr, leader)));
      if negb leader then follow_delivery ptr receipt
      else
        '(d, e) ← lead_delivery text session (nt_event_id n) (nt_queue n) receipt ptr;
        match e with
        | StillRunning => mret (Led d e)
        | Done _ => share (λ f, (endDelivery (nt_event_id n) ptr f, tt));; mret (Led d e)
        end
  end.

(** The error [processMessage] returns. *)
Definition delivered_error (r : delivered) : option fatal :=
  match r with
  | Followed (Some d) => de_err d
  | Led _ (Done f) => f
  | _ => None
  end.

(** ** Liveness *)

(** How the heartbeat loop goes on: from the last confirmation, or not at all. *)
Inductive beat := BeatOn (lastConfirmed : time) | BeatDone | BeatFatal (f : fatal).

(** [deliverCancellations] on the registry. *)
Definition deliverCancellations (l : list CancellationDirective) : P unit := λ p,
  let '(m, c) := deliver_all l (pr_attempts p) (pr_canceled p) in
  (Ok tt, p <| pr_attempts := m |> <| pr_canceled := c |>).

(** One tick of [runHeartbeat]. *)
Definition heartbeat_turn (session : ClientSession) (lastConfirmed : time) : P beat :=
  let staleAt := (lastConfirmed + rc_session_stale_after cfg)%Z in
  t ← r_now;
  if negb (t <? staleAt)%Z then mret (BeatFatal ErrHeartbeatStale)
  else
    r ← attempt (control_call (cp_Heartbeat (mkHeartbeat (cs_worker_id session) (cs_id session))));
    over ← ctx_over;
    if (over : bool) then mret BeatDone
    else match r with
         | Ok result =>
           deliverCancellations (hr_cancellations result);;
           t ← r_now;
           if negb (t <? staleAt)%Z then mret (BeatFatal ErrHeartbeatStale)
           else t' ← r_now; mret (BeatOn t')
         | Err e =>
           if isSessionLost e then mret (BeatFatal (ErrSessionLost e))
           else
             t ← r_now;
             if negb (t <? staleAt)%Z then mret (BeatFatal ErrHeartbeatStale) else mret (BeatOn lastConfirmed)
         end.

(** The loop, over the arms its select takes. *)
Fixpoint heartbeat_turns (session : ClientSession) (b : beat) (ticks : list bool) : P beat :=
  match ticks, b with
  | tick :: ticks', BeatOn last =>
    if (tick : bool) then b' ← heartbeat_turn session last; heartbeat_turns session b' ticks' else mret BeatDone
  | _, _ => mret b
  end.

Definition runHeartbeat (session : ClientSession) (ticks : list bool) : P beat :=
  t ← r_now; heartbeat_turns session (BeatOn t) ticks.

(** ** A slot *)

(** What a poll of the broker brings. *)
Inductive received := ReceiveError | ReceiveNothing | Receive (body receipt : string).

(** [runSlot], poll by poll: what ends the process.  A slot that is still in a handler
    polls no more. *)
Fixpoint runSlot (parse : string → option uuid) (text : uuid → string) (session : ClientSession)
    (polls : list received) : P ending :=
  match polls with
  | [] => mret (Done None)
  | poll :: polls' =>
    over ← ctx_over;
    if (over : bool) then mret (Done None)
    else match poll with
         | ReceiveError =>
           over ← ctx_over;
           if (over : bool) then mret (Done None)
           else
             go ← waitContext;
             if (go : bool) then runSlot parse text session polls' else mret (Done None)
         | ReceiveNothing => runSlot parse text session polls'
         | Receive body receipt =>
           r ← processMessage parse text session body receipt;
           match r, delivered_error r with
           | Led _ StillRunning, _ => mret StillRunning
           | _, Some f => mret (Done (Some f))
           | _, None => runSlot parse text session polls'
           end
         end
  end.
End runner.
