(* ===== verification/Wiring.v ===== *)
(** * The processes: what each main makes of its configuration

    cmd/taskforge-api, cmd/taskforge-scheduler, cmd/taskforge-reconciler,
    cmd/taskforge-outbox and cmd/taskforge-worker: the variables of the environment and
    of the .env file, the settings of each engine, the listeners the API opens, and the
    health server beside each engine.  Tracing, metrics, the connection to PostgreSQL, to
    the broker and to the object store, signals and the goroutines are left out. *)

From S2P Require Import Prelude.
From S2P Require Import GoText.
From S2P Require Import Schema.
From S2P Require Import Lifecycle.
From S2P Require Import WorkersTypes.
From S2P Require Import Outbox.
From S2P Require Import Publisher.
From S2P Require Import Hosts.
From S2P Require Import Api.
From S2P Require Import Dashboard.
From S2P Require Import Routes.
From S2P Require Import Config.
From S2P Require Import Services.
From S2P Require Import Handlers.
From S2P Require Import Runner.

Local Open Scope string_scope.

(** Why a process does not start. *)
Inductive refusal :=
| DotEnvRefused
| ConfigurationInvalid (l : list problem)
| HostsInvalid (e : hostallow.parse_error)
| HandlersInvalid.

Definition refused {E A} (f : E → refusal) (r : result E A) : result refusal A :=
  match r with Ok a => Ok a | Err e => Err (f e) end.

(** The environment after [LoadDotEnv], and the shared configuration. *)
Definition environment (dotenv : list string) (e : Environ) : result refusal Environ :=
  match LoadDotEnv dotenv e with (e', true) => Ok e' | (_, false) => Err DotEnvRefused end.
Definition loaded (dotenv : list string) (e : Environ) : result refusal Config :=
  match environment dotenv e with
  | Ok e' => refused ConfigurationInvalid (Load e')
  | Err r => Err r
  end.

(** The [workers.StoreConfig] of the API and of the reconciler; both have a jitter. *)
Definition store_config (c : Config) : StoreConfig :=
  mkStoreConfig (LeaseDuration c) (Config_RetryPolicy c) true.

(** ** taskforge-api *)

(** [planListeners]: the listeners a configuration opens, admin first. *)
Definition planListeners (c : Config) : list (Listener * string) :=
  let optional l addr := if bool_decide (TrimSpace addr = "") then [] else [(l, TrimSpace addr)] in
  ((ListenerAdmin, APIAddr c) :: optional ListenerPublic (APIPublicAddr c) ++
   optional ListenerControl (APIControlAddr c))%list.

Section api.
Context (objects : string → string → option string) (trace : Request → option TraceContext)
  (syntax quoted : string → string) (collate : string → string → bool) (ready : list (string * bool))
  (built placeholder : Assets).

(** The server of [run], wired with everything it can have. *)
Definition api_server (c : Config) : result refusal ServerConfig :=
  let server hosts :=
    mkServerConfig (store_config c) true true true true true true (Some (choose built placeholder).1) (Some objects) hosts
      (Z.to_nat (cfMaxRequestBytes c)) trace syntax quoted collate ready in
  if bool_decide (APIControlAddr c = "") then Ok (server [])
  else match ControlHostAllowlist c with Ok hosts => Ok (server hosts) | Err err => Err (HostsInvalid err) end.

(** The listeners with their handlers, [None] where building one panics. *)
Definition api_run (dotenv : list string) (e : Environ)
    : result refusal (list (Listener * string * option (list entry))) :=
  match loaded dotenv e with
  | Err r => Err r
  | Ok c =>
    match api_server c with
    | Err r => Err r
    | Ok cfg => Ok (map (λ p, (p, ListenerHandler cfg p.1)) (planListeners c))
    end
  end.
End api.

(** ** taskforge-scheduler, taskforge-reconciler, taskforge-outbox *)

Definition scheduler_config (c : Config) : SchedulerConfig :=
  mkSchedulerConfig (SchedulerBatchSize c) (SchedulerRenotifyAfter c).

Definition reconciler_config (c : Config) : ReconcilerConfig :=
  mkReconcilerConfig (SessionStaleAfter c) (ReconcilerBatchSize c).

Definition outbox_config (c : Config) : PublisherConfig :=
  mkPublisherConfig (OutboxBatchSize c) (OutboxPollInterval c) (OutboxClaimTimeout c)
    (BackoffPolicy.mk (OutboxBackoffBase c) (OutboxBackoffMax c) (OutboxBackoffMultiplier c) (OutboxBackoffJitter c)).

(** ** taskforge-worker *)

(** The runner's settings, with the session's fresh id. *)
Definition runner_config (c : Config) (w : WorkerConfig) (session : uuid) : RunnerConfig :=
  mkRunnerConfig
    (mkRegistration session (wcName w) (wcHostname w) (WorkerGroup w) (Concurrency w) (wcCapabilities w) [] None)
    (wcQueue w) (PollWait w) 3 (100 * Millisecond) Second (ShutdownTimeout w)
    (HeartbeatInterval c) (SessionStaleAfter c) (LeaseRenewInterval c)
    (ResultInlineThresholdBytes c) (ResultsBucket c).

Definition worker_run (url_Parse : string → option URL) (hostname : option string) (session : uuid)
    (dotenv : list string) (e : Environ) : result refusal (RunnerConfig * Registry) :=
  match environment dotenv e with
  | Err r => Err r
  | Ok e' =>
    match Load e', LoadWorker url_Parse hostname e' with
    | Err l, _ => Err (ConfigurationInvalid l)
    | _, Err l => Err (ConfigurationInvalid l)
    | Ok c, Ok w =>
      match ValidateWorkerTimings c w with
      | [] =>
        match registerTrustedHandlers ∅ with
        | Ok registry => Ok (NewRunner (runner_config c w session), registry)
        | Err _ => Err HandlersInvalid
        end
      | l => Err (ConfigurationInvalid l)
      end
    end
  end.

(** The registration [Runner.Run] sends: the registry says which job types it handles. *)
Definition sent_registration (cfg : RunnerConfig) (registry : Registry) : Registration :=
  let r := rc_registration cfg in
  mkRegistration (reg_session_id r) (reg_name r) (reg_hostname r) (reg_worker_group r)
    (reg_concurrency_limit r) (reg_capabilities r) (Types registry) (reg_worker_key_id r).

(** ** The health server of the four engines *)

(** The checks as they answer; [None] is net/http's own answer to a request no route
    takes.  The text of the metrics is left out. *)
Definition newHealthServer (metrics : bool) (ready : list (string * bool)) (method path : string)
    : option Answer :=
  if negb (bool_decide (method = "GET") || bool_decide (method = "HEAD")) then None
  else if bool_decide (path = "/healthz") then Some (mkAnswer 200 (StateBody "alive" []))
  else if bool_decide (path = "/readyz") then
    let components := map (λ c, (c.1, if (c.2 : bool) then "ok" else "unavailable")) ready in
    Some (if forallb snd ready then mkAnswer 200 (StateBody "ready" components)
          else mkAnswer 503 (StateBody "not_ready" components))
  else if metrics && bool_decide (path = "/metrics") then Some (mkAnswer 200 MetricsBody)
  else None.

(** ** The healthcheck subcommand of every binary *)

Definition Requested (args : list string) : bool :=
  match args with _ :: arg :: _ => bool_decide (arg = "healthcheck") | _ => false end.

(** [Probe]: what a GET of the liveness probe answers, [None] when it does not. *)
Definition Probe (get : string → option Z) (addr : string) : bool :=
  match SplitHostPort addr with
  | Some _ => bool_decide (get ("http://" ++ addr ++ "/healthz") = Some 200%Z)
  | None => false
  end.

(** [Run]: the exit code; a configuration that is invalid is not healthy. *)
Definition healthcheck_Run (get : string → option Z) (addr : result refusal string) : Z :=
  match addr with
  | Ok addr => if Probe get addr then 0 else 1
  | Err _ => 1
  end.

(** The address a binary probes is its own; the worker's is in its own settings. *)
Definition runHealthcheck (own : Config → string) (get : string → option Z) (dotenv : list string) (e : Environ) : Z :=
  healthcheck_Run get match loaded dotenv e with Ok c => Ok (own c) | Err r => Err r end.
Definition worker_runHealthcheck (url_Parse : string → option URL) (hostname : option string)
    (get : string → option Z) (dotenv : list string) (e : Environ) : Z :=
  healthcheck_Run get
    match environment dotenv e with
    | Err r => Err r
    | Ok e' => match LoadWorker url_Parse hostname e' with
               | Ok w => Ok (HealthAddr w)
               | Err l => Err (ConfigurationInvalid l)
               end
    end.
