(* ===== verification/Cli.v ===== *)
(** * Package cli: the command line client

    internal/cli: the flags (over a model of package flag and strconv.ParseInt), the
    commands and the one request each makes, and the exit code a response gives.  A
    request crosses as its decoded path and query.  The texts printed for a usage mistake
    are left out, as is [idle]'s wait. *)

From S2P Require Import Prelude.
From S2P Require Import GoText.
From S2P Require Import GoJson.
From S2P Require Import GoMarshal.
From S2P Require Import Schema.
From S2P Require Import GoTime.
From S2P Require Import Hosts.
From S2P Require Import Api.
From S2P Require Import Config.

Local Open Scope string_scope.

(** ** strconv.ParseInt(s, 0, 64) *)

Definition digit_in (base : Z) (c : ascii) : option Z :=
  let d := if is_digit c then Some (digit_val c)
           else if between 97 122 (lower c) then Some (Z.of_N (N_of_ascii (lower c)) - 87)%Z else None in
  match d with Some v => if (v <? base)%Z then Some v else None | None => None end.

(** The digits of a uint64, skipping underscores; [None] is a bad digit. *)
Fixpoint digits_in (base : Z) (s : string) (v : Z) : option Z :=
  match s with
  | "" => Some v
  | String c s' =>
    if Ascii.eqb c "_" then digits_in base s' v
    else match digit_in base c with Some d => digits_in base s' (v * base + d)%Z | None => None end
  end.

Definition base_prefix (s : string) : Z * string :=
  match s with
  | String "0" (String x (String c rest)) =>
    if Ascii.eqb (lower x) "b" then (2%Z, String c rest)
    else if Ascii.eqb (lower x) "o" then (8%Z, String c rest)
    else if Ascii.eqb (lower x) "x" then (16%Z, String c rest)
    else (8%Z, String x (String c rest))
  | String "0" rest => (8%Z, rest)
  | _ => (10%Z, s)
  end.

Definition ParseInt0 (s : string) : option Z :=
  let '(neg, body) := sign s in
  if bool_decide (body = "") then None
  else
    let '(base, digits) := base_prefix body in
    match digits_in base digits 0 with
    | None => None
    | Some v =>
      if contains_byte "_" digits && negb (underscoreOK body) then None
      else if neg then if (two63 <? v)%Z then None else Some (- v)%Z
      else if (two63 - 1 <? v)%Z then None else Some v
    end.

Example parse_ints :
  ParseInt0 "50" = Some 50%Z ∧ ParseInt0 "-0x1F" = Some (-31)%Z ∧ ParseInt0 "017" = Some 15%Z ∧
  ParseInt0 "1_000" = Some 1000%Z ∧ ParseInt0 "1__0" = None ∧ ParseInt0 "08" = None ∧ ParseInt0 "0" = Some 0%Z ∧
  ParseInt0 "9223372036854775808" = None ∧ ParseInt0 "-9223372036854775808" = Some (-9223372036854775808)%Z ∧
  ParseInt0 "" = None ∧ ParseInt0 "0b101" = Some 5%Z ∧ ParseInt0 "12a" = None.
Proof. vm_compute. done. Qed.

(** ** Package flag *)

Inductive flag_kind := FlagString | FlagInt | FlagStrings.
Definition flags : Type := list (string * flag_kind).

(** What was set, the latest first. *)
Record Parsed := mkParsed { ps_strings : list (string * string); ps_ints : list (string * Z); ps_rest : list string }.

Inductive flag_error := ErrHelp | ErrFlag.

(** The name of an argument that is a flag, and its value when it has one. *)
Inductive argument := NotAFlag | Terminator | BadSyntax | Flag (name : string) (value : option string).

Definition read_flag (s : string) : argument :=
  match s with
  | String "-" (String c rest) =>
    let name := if Ascii.eqb c "-" then rest else String c rest in
    if Ascii.eqb c "-" && bool_decide (rest = "") then Terminator
    else match name with
         | "" => BadSyntax
         | String first more =>
           if Ascii.eqb first "-" || Ascii.eqb first "=" then BadSyntax
           else match Cut "=" more with
                | Some (n, v) => Flag (String first n) (Some v)
                | None => Flag name None
                end
         end
  | _ => NotAFlag
  end.

(** [Value.Set]. *)
Definition set_flag (kind : flag_kind) (name value : string) (p : Parsed) : option Parsed :=
  match kind with
  | FlagString | FlagStrings => Some (mkParsed ((name, value) :: ps_strings p) (ps_ints p) (ps_rest p))
  | FlagInt =>
    match ParseInt0 value with
    | Some n => Some (mkParsed (ps_strings p) ((name, n) :: ps_ints p) (ps_rest p))
    | None => None
    end
  end.

Definition lookup_flag (formal : flags) (name : string) : option flag_kind :=
  match List.find (λ f, bool_decide (f.1 = name)) formal with Some f => Some f.2 | None => None end.

(** [FlagSet.Parse]. *)
Fixpoint flag_Parse (formal : flags) (args : list string) (p : Parsed) : result flag_error Parsed :=
  match args with
  | [] => Ok (mkParsed (ps_strings p) (ps_ints p) [])
  | arg :: args' =>
    match read_flag arg with
    | NotAFlag => Ok (mkParsed (ps_strings p) (ps_ints p) args)
    | Terminator => Ok (mkParsed (ps_strings p) (ps_ints p) args')
    | BadSyntax => Err ErrFlag
    | Flag name value =>
      match lookup_flag formal name with
      | None => Err (if bool_decide (name = "help") || bool_decide (name = "h") then ErrHelp else ErrFlag)
      | Some kind =>
        match value, args' with
        | Some v, _ =>
          match set_flag kind name v p with Some p' => flag_Parse formal args' p' | None => Err ErrFlag end
        | None, v :: args'' =>
          match set_flag kind name v p with Some p' => flag_Parse formal args'' p' | None => Err ErrFlag end
        | None, [] => Err ErrFlag
        end
      end
    end
  end.

Definition no_flags : Parsed := mkParsed [] [] [].
Definition string_flag (p : Parsed) (name def : string) : string :=
  match List.find (λ f, bool_decide (f.1 = name)) (ps_strings p) with Some f => f.2 | None => def end.
Definition int_flag (p : Parsed) (name : string) (def : Z) : Z :=
  match List.find (λ f, bool_decide (f.1 = name)) (ps_ints p) with Some f => f.2 | None => def end.
Definition strings_flag (p : Parsed) (name : string) : list string :=
  rev (map snd (List.filter (λ f, bool_decide (f.1 = name)) (ps_strings p))).

(** ** Exit codes *)

Definition ExitSuccess : Z := 0.
Definition ExitUsageError : Z := 1.
Definition ExitRequestRejected : Z := 2.
Definition ExitUnauthorized : Z := 3.
Definition ExitNotFound : Z := 4.
Definition ExitConflict : Z := 5.
Definition ExitInternalError : Z := 6.
Definition ExitServiceUnavailable : Z := 7.
Definition ExitTransportError : Z := 8.
Definition ExitUnexpectedResponse : Z := 9.

Definition apiErrorExitCodes : list (string * Z) :=
  [ ("malformed_json", ExitRequestRejected); ("payload_too_large", ExitRequestRejected);
    ("validation_failed", ExitRequestRejected); ("invalid_cursor", ExitRequestRejected);
    ("origin_refused", ExitRequestRejected); ("unauthorized", ExitUnauthorized); ("not_found", ExitNotFound);
    ("idempotency_conflict", ExitConflict); ("job_not_cancelable", ExitConflict);
    ("job_not_dead_lettered", ExitConflict); ("internal_error", ExitInternalError);
    ("service_unavailable", ExitServiceUnavailable) ].

Definition exitCodeForAPIError (code : string) : option Z :=
  match List.find (λ x, bool_decide (x.1 = code)) apiErrorExitCodes with Some x => Some x.2 | None => None end.

(** ** The client *)

Record cliClient := mkClient { BaseURL : string; APIKey : string }.

(** A request: its target's base, method, path, query, headers and body. *)
Record CliRequest := mkCliRequest {
  cr_base : string; cr_method : string; cr_path : list string; cr_query : list (string * string);
  cr_headers : list (string * string); cr_body : option string }.

(** [NewClient], and the [TrimRight] of slashes. *)
Fixpoint trim_slashes (s : string) : string :=
  match s with
  | "" => ""
  | String c s' =>
    match trim_slashes s' with
    | "" => if Ascii.eqb c "/" then "" else String c ""
    | t => String c t
    end
  end.
Definition NewClient (base key : string) : cliClient := mkClient (trim_slashes base) key.

Definition doWithAuth (c : cliClient) (method : string) (path : list string) (query headers : list (string * string))
    (body : option string) (useAuth : bool) : CliRequest :=
  mkCliRequest (BaseURL c) method path query
    ((if is_Some_b body then [("Content-Type", "application/json")] else []) ++ [("Accept", "application/json")] ++
     (if useAuth && negb (bool_decide (APIKey c = "")) then [("Authorization", ("Bearer " ++ APIKey c)%string)] else []) ++
     headers)%list body.
Definition client_do (c : cliClient) method path query headers body := doWithAuth c method path query headers body true.
Definition doUnauthenticated (c : cliClient) method path query body := doWithAuth c method path query [] body false.

Definition idempotent (key : string) : list (string * string) := [("Idempotency-Key", key)].
Definition set_string (name v : string) : list (string * string) :=
  if bool_decide (v = "") then [] else [(name, v)].
Definition set_limit (limit : Z) : list (string * string) := if (0 <? limit)%Z then [("limit", Itoa limit)] else [].

Definition client_SubmitJob c key body := client_do c "POST" ["v1"; "jobs"] [] (idempotent key) (Some body).
Definition client_GetJob c id := client_do c "GET" ["v1"; "jobs"; id] [] [] None.
Definition client_GetResult c id := client_do c "GET" ["v1"; "jobs"; id; "result"] [] [] None.
Definition client_ListJobs c status queue limit cursor :=
  client_do c "GET" ["v1"; "jobs"]
    (set_string "status" status ++ set_string "queue" queue ++ set_limit limit ++ set_string "cursor" cursor)%list
    [] None.
Definition client_ListJobAttempts c id := client_do c "GET" ["v1"; "jobs"; id; "attempts"] [] [] None.
Definition client_ListWorkers c limit cursor :=
  client_do c "GET" ["v1"; "workers"] (set_limit limit ++ set_string "cursor" cursor)%list [] None.
Definition client_ListQueues c := client_do c "GET" ["v1"; "queues"] [] [] None.
Definition client_CancelJob c id := client_do c "POST" ["v1"; "jobs"; id; "cancel"] [] [] None.
Definition client_RetryJob c id key := client_do c "POST" ["v1"; "jobs"; id; "retry"] [] (idempotent key) None.
Definition client_ListDLQ c limit cursor :=
  client_do c "GET" ["v1"; "dlq"] (set_limit limit ++ set_string "cursor" cursor)%list [] None.
Definition client_ReplayDLQ c id key := client_do c "POST" ["v1"; "dlq"; id; "replay"] [] (idempotent key) None.
Definition client_CreateAPIKey c body :=
  doUnauthenticated c "POST" ["internal"; "v1"; "api-keys"] [] (Some body).
Definition client_ListAPIKeys c limit :=
  doUnauthenticated c "GET" ["internal"; "v1"; "api-keys"] (set_limit limit) None.
Definition client_RevokeAPIKey c id :=
  doUnauthenticated c "POST" ["internal"; "v1"; "api-keys"; id; "revoke"] [] None.
Definition client_CreateWorkerKey c body :=
  doUnauthenticated c "POST" ["internal"; "v1"; "worker-keys"] [] (Some body).
Definition client_ListWorkerKeys c limit :=
  doUnauthenticated c "GET" ["internal"; "v1"; "worker-keys"] (set_limit limit) None.
Definition client_RevokeWorkerKey c id :=
  doUnauthenticated c "POST" ["internal"; "v1"; "worker-keys"; id; "revoke"] [] None.

(** ** The commands *)

(** What a command line comes to before the network: an exit code, or a request with the
    statuses that mean success. *)
Inductive step := Stop (code : Z) | Call (r : CliRequest) (success : list Z).

Definition jobSuccess : list Z := [200; 201]%Z.
Definition readSuccess : list Z := [200]%Z.
Definition createSuccess : list Z := [201]%Z.

Definition usageErrorf : step := Stop ExitUsageError.

(** [parseFlags]: a request for help of a command is a usage error. *)
Definition parseFlags (formal : flags) (args : list string) (k : Parsed → step) : step :=
  match flag_Parse formal args no_flags with Ok p => k p | Err _ => Stop ExitUsageError end.

Definition one_argument (p : Parsed) (k : string → step) : step :=
  match ps_rest p with [id] => k id | _ => usageErrorf end.
Definition no_argument (p : Parsed) (k : step) : step :=
  match ps_rest p with [] => k | _ => usageErrorf end.

Definition newIdempotencyKeyIfEmpty (fresh key : string) : string := if bool_decide (key = "") then fresh else key.

Definition json_text (s : string) : string := append_string true s.

(** [SubmitJobRequest] as JSON; a nil slice is null. *)
Definition submit_body (queue jobType payload : string) (priority maxAttempts timeoutSeconds : Z)
    (scheduledAt : string) (capabilities : list string) : string :=
  object ([ member "queue" (json_text queue); member "job_type" (json_text jobType); member "payload" payload;
            member "priority" (Itoa priority); member "max_attempts" (Itoa maxAttempts);
            member "timeout_seconds" (Itoa timeoutSeconds) ] ++
          (if bool_decide (scheduledAt = "") then [] else [member "scheduled_at" (json_text scheduledAt)]) ++
          [ member "required_capabilities"
              match capabilities with [] => "null" | l => ("[" ++ String.concat "," (map json_text l) ++ "]")%string end ])%list.

Definition key_body (scope name : string) : string :=
  object [ member "scope" (json_text scope); member "name" (json_text name) ].

Section commands.
(** [remarshal] is json.Unmarshal of the payload into a map and json.Marshal of that map,
    [None] when it is no JSON object; [fresh] is [uuid.NewString]; [url_Parse] is net/url's. *)
Context (remarshal : string → option string) (fresh : string) (url_Parse : string → option URL).

Definition cmdJobsSubmit (c : cliClient) (args : list string) : step :=
  parseFlags [ ("queue", FlagString); ("job-type", FlagString); ("payload", FlagString); ("priority", FlagInt);
               ("max-attempts", FlagInt); ("timeout-seconds", FlagInt); ("scheduled-at", FlagString);
               ("capability", FlagStrings); ("idempotency-key", FlagString) ] args (λ p,
    let queue := string_flag p "queue" "" in
    let jobType := string_flag p "job-type" "" in
    let payload := string_flag p "payload" "" in
    if bool_decide (queue = "") || bool_decide (jobType = "") || bool_decide (payload = "") then usageErrorf
    else match remarshal payload with
         | None => usageErrorf
         | Some payload =>
           Call (client_SubmitJob c (newIdempotencyKeyIfEmpty fresh (string_flag p "idempotency-key" ""))
                   (submit_body queue jobType payload (int_flag p "priority" 50) (int_flag p "max-attempts" 3)
                      (int_flag p "timeout-seconds" 300) (string_flag p "scheduled-at" "")
                      (strings_flag p "capability"))) jobSuccess
         end).

Definition cmdJobsGet (c : cliClient) (args : list string) : step :=
  parseFlags [] args (λ p, one_argument p (λ id, Call (client_GetJob c id) readSuccess)).
Definition cmdJobsResult (c : cliClient) (args : list string) : step :=
  parseFlags [] args (λ p, one_argument p (λ id, Call (client_GetResult c id) readSuccess)).
Definition cmdJobsCancel (c : cliClient) (args : list string) : step :=
  parseFlags [] args (λ p, one_argument p (λ id, Call (client_CancelJob c id) readSuccess)).
Definition cmdJobsRetry (c : cliClient) (args : list string) : step :=
  parseFlags [("idempotency-key", FlagString)] args (λ p, one_argument p (λ id,
    Call (client_RetryJob c id (newIdempotencyKeyIfEmpty fresh (string_flag p "idempotency-key" ""))) jobSuccess)).
Definition cmdJobsList (c : cliClient) (args : list string) : step :=
  parseFlags [("status", FlagString); ("queue", FlagString); ("limit", FlagInt); ("cursor", FlagString)] args (λ p,
    no_argument p (Call (client_ListJobs c (string_flag p "status" "") (string_flag p "queue" "")
      (int_flag p "limit" 0) (string_flag p "cursor" "")) readSuccess)).
Definition cmdJobsAttempts (c : cliClient) (args : list string) : step :=
  parseFlags [] args (λ p, one_argument p (λ id, Call (client_ListJobAttempts c id) readSuccess)).
Definition cmdWorkersList (c : cliClient) (args : list string) : step :=
  parseFlags [("limit", FlagInt); ("cursor", FlagString)] args (λ p,
    no_argument p (Call (client_ListWorkers c (int_flag p "limit" 0) (string_flag p "cursor" "")) readSuccess)).
Definition cmdQueuesList (c : cliClient) (args : list string) : step :=
  parseFlags [] args (λ p, no_argument p (Call (client_ListQueues c) readSuccess)).
Definition cmdDLQList (c : cliClient) (args : list string) : step :=
  parseFlags [("limit", FlagInt); ("cursor", FlagString)] args (λ p,
    Call (client_ListDLQ c (int_flag p "limit" 0) (string_flag p "cursor" "")) readSuccess).
Definition cmdDLQReplay (c : cliClient) (args : list string) : step :=
  parseFlags [("idempotency-key", FlagString)] args (λ p, one_argument p (λ id,
    Call (client_ReplayDLQ c id (newIdempotencyKeyIfEmpty fresh (string_flag p "idempotency-key" ""))) jobSuccess)).

(** [cmdAPIKeysCreate] and [cmdWorkerKeysCreate], which differ in the call, and so on. *)
Definition create_key (call : string → CliRequest) (args : list string) : step :=
  parseFlags [("scope", FlagString); ("name", FlagString)] args (λ p,
    let scope := string_flag p "scope" "" in
    let name := string_flag p "name" "" in
    if bool_decide (scope = "") || bool_decide (name = "") then usageErrorf
    else Call (call (key_body scope name)) createSuccess).
Definition list_keys (call : Z → CliRequest) (args : list string) : step :=
  parseFlags [("limit", FlagInt)] args (λ p, Call (call (int_flag p "limit" 0)) readSuccess).
Definition revoke_key (call : string → CliRequest) (args : list string) : step :=
  parseFlags [] args (λ p, one_argument p (λ id, Call (call id) readSuccess)).

Definition cmdAPIKeysCreate (c : cliClient) := create_key (client_CreateAPIKey c).
Definition cmdAPIKeysList (c : cliClient) := list_keys (client_ListAPIKeys c).
Definition cmdAPIKeysRevoke (c : cliClient) := revoke_key (client_RevokeAPIKey c).
Definition cmdWorkerKeysCreate (c : cliClient) := create_key (client_CreateWorkerKey c).
Definition cmdWorkerKeysList (c : cliClient) := list_keys (client_ListWorkerKeys c).
Definition cmdWorkerKeysRevoke (c : cliClient) := revoke_key (client_RevokeWorkerKey c).

Definition commands : list (string * (cliClient → list string → step)) :=
  [ ("jobs submit", cmdJobsSubmit); ("jobs get", cmdJobsGet); ("jobs list", cmdJobsList);
    ("jobs attempts", cmdJobsAttempts); ("jobs result", cmdJobsResult); ("jobs cancel", cmdJobsCancel);
    ("jobs retry", cmdJobsRetry); ("workers list", cmdWorkersList); ("queues list", cmdQueuesList);
    ("dlq list", cmdDLQList); ("dlq replay", cmdDLQReplay); ("api-keys create", cmdAPIKeysCreate);
    ("api-keys list", cmdAPIKeysList); ("api-keys revoke", cmdAPIKeysRevoke);
    ("worker-keys create", cmdWorkerKeysCreate); ("worker-keys list", cmdWorkerKeysList);
    ("worker-keys revoke", cmdWorkerKeysRevoke) ].

Definition ResolveBaseURL (flagValue envValue : string) : option string :=
  let value := if bool_decide (flagValue = "") then envValue else flagValue in
  if bool_decide (value = "") then Some "http://127.0.0.1:8080"
  else match url_Parse value with
       | Some u =>
         if negb (bool_decide (url_Scheme u = "http") || bool_decide (url_Scheme u = "https"))
            || bool_decide (url_Host u = "")
         then None else Some (trim_slashes value)
       | None => None
       end.

(** [Run] up to the network, with the two variables of the environment. *)
Definition cli_step (envURL envKey : string) (args : list string) : step :=
  match flag_Parse [("api-url", FlagString); ("api-key", FlagString)] args no_flags with
  | Err ErrHelp => Stop ExitSuccess
  | Err ErrFlag => Stop ExitUsageError
  | Ok p =>
    match ps_rest p with
    | [word] => Stop (if bool_decide (word = "idle") then ExitSuccess else ExitUsageError)
    | resource :: verb :: rest =>
      match List.find (λ x, bool_decide (x.1 = resource ++ " " ++ verb)) commands with
      | None => Stop ExitUsageError
      | Some cmd =>
        match ResolveBaseURL (string_flag p "api-url" "") envURL with
        | None => usageErrorf
        | Some base =>
          let key := string_flag p "api-key" "" in
          cmd.2 (NewClient base (if bool_decide (key = "") then envKey else key)) rest
        end
      end
    | [] => Stop ExitUsageError
    end
  end.
End commands.

(** ** The outcome *)

(** [emit]: the exit code a response gives, and whether its body goes to stdout. *)
Definition emit (success : list Z) (a : Answer) : Z * bool :=
  if bool_decide (an_status a ∈ success) then (ExitSuccess, true)
  else match an_body a with
       | ErrorBody code _ =>
         if bool_decide (code = "") then (ExitUnexpectedResponse, false)
         else (default ExitUnexpectedResponse (exitCodeForAPIError code), false)
       | _ => (ExitUnexpectedResponse, false)
       end.

(** [Run] over a network that answers or does not. *)
Definition cli_Run (send : CliRequest → option Answer) (s : step) : Z * bool :=
  match s with
  | Stop code => (code, false)
  | Call r success => match send r with Some a => emit success a | None => (ExitTransportError, false) end
  end.
