(* ===== verification/Migrate.v ===== *)
(** * Package database: migrations

    internal/database/migrate.go: the numbered files, the table of applied versions with
    their checksums, and a run that applies what is missing.  PostgreSQL's execution of a
    file is a parameter.  The advisory lock serializes runs, so a run is alone. *)

From S2P Require Import Prelude.
From S2P Require Import GoText.
From S2P Require Import Schema.
From S2P Require Import GoBytes.
From S2P Require Import Hosts.
From S2P Require Import Api.

Local Open Scope string_scope.

Record Migration := mkMigration { mg_Version : Z; mg_Name : string; mg_SQL : string; mg_Checksum : string }.

Inductive migration_error :=
| BadName (file : string) | BadVersion (file : string) | DuplicateVersion (version : Z) (file : string)
| ErrNoMigrations
| ModifiedAfterApplied (version : Z)
| ApplyFailed (version : Z)
| ConnectionFailed (version : Z).

(** The name without the suffix .sql. *)
Fixpoint cut_sql (s : string) : option string :=
  if bool_decide (s = ".sql") then Some ""
  else match s with
       | "" => None
       | String c s' => match cut_sql s' with Some t => Some (String c t) | None => None end
       end.

(** ** Loading *)

(** A file of the embedded directory and its content; [None] is a directory. *)
Definition file : Type := string * option string.

Fixpoint load_files (files : list file) (seen : list Z) : result migration_error (list Migration) :=
  match files with
  | [] => Ok []
  | (name, content) :: files' =>
    match content, cut_sql name with
    | Some body, Some base =>
      match Cut "_" base with
      | None => Err (BadName name)
      | Some (prefix, _) =>
        match Atoi prefix with
        | None => Err (BadVersion name)
        | Some version =>
          if bool_decide (version ∈ seen) then Err (DuplicateVersion version name)
          else match load_files files' (version :: seen) with
               | Ok l => Ok (mkMigration version name body (sha256_hex body) :: l)
               | Err e => Err e
               end
        end
      end
    | _, _ => load_files files' seen
    end
  end.

Definition by_version (x y : Migration) : bool := (mg_Version x <=? mg_Version y)%Z.
Definition LoadMigrations (files : list file) : result migration_error (list Migration) :=
  match load_files files [] with
  | Ok l => Ok (merge_sort (ordby by_version) l)
  | Err e => Err e
  end.

(** ** Applying *)

Section migrate.
(** What PostgreSQL makes of a file on a schema of its own, [None] where it refuses. *)
Context {S : Type} (exec : string → S → option S).

(** The schema, and the rows of schema_migrations: name and checksum by version. *)
Record Database := mkDatabase { mdb_schema : S; mdb_applied : gmap Z (string * string) }.

(** What the connection does to a migration: it fails before the commit, or the answer of
    the commit is lost. *)
Inductive lost := BeforeCommit | AfterCommit.

(** The transaction of one migration; the version is a 32-bit integer. *)
Definition apply_one (m : Migration) (d : Database) : option Database :=
  match exec (mg_SQL m) (mdb_schema d) with
  | Some s =>
    if (mg_Version m <? - 2 ^ 31)%Z || (2 ^ 31 <=? mg_Version m)%Z then None
    else Some (mkDatabase s (<[mg_Version m := (mg_Name m, mg_Checksum m)]> (mdb_applied d)))
  | None => None
  end.

(** The loop of [Migrate], with the table as it was read at its beginning. *)
Fixpoint apply_all (pending : list Migration) (applied : gmap Z string) (faults : list (option lost))
    (count : nat) (d : Database) : result migration_error nat * nat * Database :=
  match pending with
  | [] => (Ok count, count, d)
  | m :: pending' =>
    match applied !! mg_Version m with
    | Some have =>
      if bool_decide (have = mg_Checksum m) then apply_all pending' applied faults count d
      else (Err (ModifiedAfterApplied (mg_Version m)), count, d)
    | None =>
      match head faults, apply_one m d with
      | Some (Some BeforeCommit), _ => (Err (ConnectionFailed (mg_Version m)), count, d)
      | _, None => (Err (ApplyFailed (mg_Version m)), count, d)
      | Some (Some AfterCommit), Some d' => (Err (ConnectionFailed (mg_Version m)), count, d')
      | _, Some d' => apply_all pending' applied (tail faults) (Datatypes.S count) d'
      end
    end
  end.

Definition appliedMigrations (d : Database) : gmap Z string := snd <$> mdb_applied d.

Definition Migrate (files : list file) (faults : list (option lost)) (d : Database)
    : result migration_error nat * nat * Database :=
  match LoadMigrations files with
  | Err e => (Err e, 0, d)
  | Ok [] => (Err ErrNoMigrations, 0, d)
  | Ok pending => apply_all pending (appliedMigrations d) faults 0 d
  end.

(** ** What a run leaves *)

(** Versions are distinct, so that the table read at the beginning is as good as the
    current one. *)
Lemma load_files_versions files seen l :
  load_files files seen = Ok l → NoDup (mg_Version <$> l) ∧ ∀ m, m ∈ l → mg_Version m ∉ seen.
Proof.
  revert seen l. induction files as [|[name content] files IH]; intros seen l; simpl.
  - intros [= <-]. split; [constructor|]. intros m Hm. by apply not_elem_of_nil in Hm.
  - destruct content as [body|]; [|apply IH]. destruct (cut_sql name); [|apply IH].
    destruct (Cut "_" s) as [[prefix rest]|]; [|done]. destruct (Atoi prefix) as [version|]; [|done].
    case_bool_decide as Hin; [done|].
    destruct (load_files files (version :: seen)) as [l'|] eqn:Hl; [|done]. intros [= <-].
    destruct (IH _ _ Hl) as [Hnd Hseen]. split; simpl.
    + constructor; [|done]. intros (m & Hv & Hm)%list_elem_of_fmap.
      apply (Hseen m Hm). rewrite <-Hv. by left.
    + intros m [->|Hm]%elem_of_cons; [done|]. specialize (Hseen m Hm). set_solver.
Qed.

Lemma LoadMigrations_versions files l : LoadMigrations files = Ok l → NoDup (mg_Version <$> l).
Proof.
  unfold LoadMigrations. destruct (load_files files []) as [k|] eqn:Hk; [|done]. intros [= <-].
  apply load_files_versions in Hk as [Hnd _]. by rewrite merge_sort_Permutation.
Qed.

(** A fault-free run over the current table. *)
Fixpoint run (pending : list Migration) (d : Database) : option Database :=
  match pending with
  | [] => Some d
  | m :: pending' =>
    match mdb_applied d !! mg_Version m with
    | Some (_, have) => if bool_decide (have = mg_Checksum m) then run pending' d else None
    | None => match apply_one m d with Some d' => run pending' d' | None => None end
    end
  end.

Lemma apply_one_table m d d' :
  apply_one m d = Some d' → mdb_applied d' = <[mg_Version m := (mg_Name m, mg_Checksum m)]> (mdb_applied d).
Proof. unfold apply_one. destruct (exec _ _); [|done]. destruct (_ || _); [done|]. by intros [= <-]. Qed.

(** The snapshot and the table agree on what is still to come. *)
Definition agree (pending : list Migration) (applied : gmap Z string) (d : Database) : Prop :=
  ∀ m, m ∈ pending → applied !! mg_Version m = appliedMigrations d !! mg_Version m.

Lemma agree_next m pending applied d d' :
  NoDup (mg_Version <$> m :: pending) → agree (m :: pending) applied d → apply_one m d = Some d' →
  agree pending applied d'.
Proof.
  intros [Hni _]%NoDup_cons Ha Hone m' Hm'. rewrite Ha by (by right). unfold appliedMigrations.
  rewrite !lookup_fmap, (apply_one_table _ _ _ Hone), lookup_insert_ne; [done|].
  intros Heq. apply Hni. rewrite Heq. apply list_elem_of_fmap. eauto.
Qed.

Lemma agree_tail m pending applied d : agree (m :: pending) applied d → agree pending applied d.
Proof. intros Ha m' Hm'. apply Ha. by right. Qed.

Lemma apply_all_run pending applied count d d' :
  NoDup (mg_Version <$> pending) → agree pending applied d →
  (∃ n, apply_all pending applied [] count d = (Ok n, n, d')) ↔ run pending d = Some d'.
Proof.
  revert count d. induction pending as [|m pending IH]; intros count d Hnd Ha; simpl; [naive_solver|].
  pose proof Hnd as [Hni Hnd']%NoDup_cons.
  rewrite (Ha m) by (by left). unfold appliedMigrations. rewrite lookup_fmap.
  destruct (mdb_applied d !! mg_Version m) as [[name have]|]; simpl.
  - case_bool_decide; [|naive_solver]. apply IH; [done|by eapply agree_tail].
  - destruct (apply_one m d) as [d1|] eqn:Hone; [|naive_solver]. apply IH; [done|by eapply agree_next].
Qed.

(** What is recorded stays. *)
Lemma apply_all_keeps pending applied faults count d r n d1 v x :
  apply_all pending applied faults count d = (r, n, d1) → v ∉ mg_Version <$> pending →
  mdb_applied d !! v = Some x → mdb_applied d1 !! v = Some x.
Proof.
  revert faults count d. induction pending as [|m pending IH]; intros faults count d; simpl; [naive_solver|].
  intros H [Hne Hv]%not_elem_of_cons Hx. destruct (applied !! mg_Version m) as [have|].
  - case_bool_decide; [by eapply IH|naive_solver].
  - destruct (apply_one m d) as [d'|] eqn:Hone.
    + assert (mdb_applied d' !! v = Some x) by (by rewrite (apply_one_table _ _ _ Hone), lookup_insert_ne).
      destruct (head faults) as [[[]|]|]; simplify_eq; eauto.
    + destruct (head faults) as [[[]|]|]; simplify_eq; eauto.
Qed.

(** A recorded migration is skipped. *)
Lemma run_recorded m pending d name :
  mdb_applied d !! mg_Version m = Some (name, mg_Checksum m) → run (m :: pending) d = run pending d.
Proof. simpl. intros ->. by rewrite bool_decide_eq_true_2. Qed.

Lemma run_after_faults pending applied faults count d r n d1 d2 :
  NoDup (mg_Version <$> pending) → agree pending applied d →
  apply_all pending applied faults count d = (r, n, d1) → run pending d = Some d2 → run pending d1 = Some d2.
Proof.
  revert faults count d. induction pending as [|m pending IH]; intros faults count d Hnd Ha H Hrun; [naive_solver|].
  pose proof Hnd as [Hni Hnd']%NoDup_cons. simpl in H, Hrun. rewrite (Ha m) in H by (by left).
  unfold appliedMigrations in H. rewrite lookup_fmap in H.
  destruct (mdb_applied d !! mg_Version m) as [[name have]|] eqn:Hm; simpl in H.
  - case_bool_decide; [|done]. subst have.
    rewrite (run_recorded m _ _ name) by (by eapply apply_all_keeps). eapply IH; eauto using agree_tail.
  - destruct (apply_one m d) as [d'|] eqn:Hone; [|done].
    assert (mdb_applied d' !! mg_Version m = Some (mg_Name m, mg_Checksum m)) as Hd'
      by (by rewrite (apply_one_table _ _ _ Hone), lookup_insert_eq).
    assert (run (m :: pending) d = Some d2) as Hd by (simpl; by rewrite Hm, Hone).
    assert (run (m :: pending) d' = Some d2) as Hdd by (by rewrite (run_recorded m _ _ _ Hd')).
    destruct (head faults) as [[[]|]|]; simplify_eq; try done;
      rewrite (run_recorded m _ _ (mg_Name m)) by (by eapply apply_all_keeps); eauto using agree_next.
Qed.

Lemma run_records pending d d2 :
  NoDup (mg_Version <$> pending) → run pending d = Some d2 →
  (∀ v x, mdb_applied d !! v = Some x → mdb_applied d2 !! v = Some x) ∧
  ∀ m, m ∈ pending → appliedMigrations d2 !! mg_Version m = Some (mg_Checksum m).
Proof.
  revert d. induction pending as [|m pending IH]; intros d Hnd Hrun; simpl in Hrun.
  { simplify_eq. split; [done|]. intros m Hm. by apply not_elem_of_nil in Hm. }
  apply NoDup_cons in Hnd as [Hni Hnd]. unfold appliedMigrations in *.
  destruct (mdb_applied d !! mg_Version m) as [[name have]|] eqn:Hm.
  - case_bool_decide; [|done]. subst have. destruct (IH _ Hnd Hrun) as [H1 H2]. split; [done|].
    intros m' [->|Hm']%elem_of_cons; [|by apply H2]. by rewrite lookup_fmap, (H1 _ _ Hm).
  - destruct (apply_one m d) as [d'|] eqn:Hone; [|done]. destruct (IH _ Hnd Hrun) as [H1 H2].
    pose proof (apply_one_table _ _ _ Hone) as Ht. split.
    + intros v x Hx. apply H1. rewrite Ht, lookup_insert_ne; [done|congruence].
    + intros m' [->|Hm']%elem_of_cons; [|by apply H2].
      by rewrite lookup_fmap, (H1 _ (mg_Name m, mg_Checksum m)) by (by rewrite Ht, lookup_insert_eq).
Qed.

Lemma apply_all_idle pending applied faults count d :
  (∀ m, m ∈ pending → applied !! mg_Version m = Some (mg_Checksum m)) →
  apply_all pending applied faults count d = (Ok count, count, d).
Proof.
  induction pending as [|m pending IH]; intros Ha; simpl; [done|].
  rewrite (Ha m) by (by left). rewrite bool_decide_eq_true_2 by done. apply IH. intros m' Hm'. apply Ha. by right.
Qed.

(** C32: Migrations run once each, however often a run is cut short.  Whatever the
    connection does to a first run, also when a commit's answer is lost, a second run
    that is left alone ends with the very database that one undisturbed run would have
    made; after that every version is recorded with the checksum of its file, and a
    further run applies nothing. *)
Theorem interrupted_migration_resumes files faults d r n d1 k d2 :
  Migrate files faults d = (r, n, d1) → Migrate files [] d = (Ok k, k, d2) →
  (∃ k', Migrate files [] d1 = (Ok k', k', d2)) ∧
  (∃ l, LoadMigrations files = Ok l ∧
     ∀ m, m ∈ l → appliedMigrations d2 !! mg_Version m = Some (mg_Checksum m)) ∧
  ∀ faults', Migrate files faults' d2 = (Ok 0, 0, d2).
Proof.
  unfold Migrate. destruct (LoadMigrations files) as [l|] eqn:Hl; [|done].
  pose proof (LoadMigrations_versions _ _ Hl) as Hnd. intros H1 H2.
  assert (l ≠ []) as Hne by (by destruct l).
  assert (apply_all l (appliedMigrations d) faults 0 d = (r, n, d1)) as Hf by (by destruct l).
  assert (apply_all l (appliedMigrations d) [] 0 d = (Ok k, k, d2)) as Hok by (by destruct l).
  assert (run l d = Some d2) as Hrun by (eapply apply_all_run; eauto; done).
  destruct (run_records _ _ _ Hnd Hrun) as [_ Hrec]. split_and!.
  - assert (run l d1 = Some d2) as Hr1 by (eapply run_after_faults; eauto; done).
    apply (apply_all_run l (appliedMigrations d1) 0 d1 d2) in Hr1 as [k' Hk']; [|done|done].
    exists k'. by destruct l.
  - eauto.
  - intros faults'. destruct l; [done|]. by apply apply_all_idle.
Qed.
End migrate.

(** ** Two files and a commit whose answer is lost *)

Definition sample_files : list file :=
  [("0001_first.sql", Some "CREATE"); ("0002_second.sql", Some "ALTER"); ("README.md", Some ""); ("old", None)].

(** A schema that is the statements it has run. *)
Definition sample_exec (sql : string) (s : list string) : option (list string) := Some (s ++ [sql])%list.
Definition sample_start : Database (S := list string) := mkDatabase [] ∅.

Definition sample_run (faults : list (option lost)) (d : Database) : result migration_error nat * nat * Database :=
  Migrate sample_exec sample_files faults d.

Lemma interrupted_migration_resumes_witness :
  (sample_run [Some AfterCommit] sample_start).1 = (Err (ConnectionFailed 1), 0%nat) ∧
  mdb_schema (sample_run [Some AfterCommit] sample_start).2 = ["CREATE"] ∧
  ∃ k d2, sample_run [] (sample_run [Some AfterCommit] sample_start).2 = (Ok k, k, d2) ∧
    mdb_schema d2 = ["CREATE"; "ALTER"].
Proof.
  split; [vm_compute; reflexivity|]. split; [vm_compute; reflexivity|].
  destruct (interrupted_migration_resumes sample_exec sample_files [Some AfterCommit] sample_start
    (Err (ConnectionFailed 1)) 0 (sample_run [Some AfterCommit] sample_start).2 2 (sample_run [] sample_start).2)
    as ((k & Hk) & _).
  - vm_compute. reflexivity.
  - vm_compute. reflexivity.
  - exists k, (sample_run [] sample_start).2. split; [exact Hk|]. vm_compute. reflexivity.
Defined.

Example edited_migration_is_refused :
  (Migrate sample_exec [("0001_first.sql", Some "CREATE more"); ("0002_second.sql", Some "ALTER")] []
     (sample_run [Some AfterCommit] sample_start).2).1 = (Err (ModifiedAfterApplied 1), 0%nat) ∧
  LoadMigrations [("1_a.sql", Some ""); ("0001_b.sql", Some "")] = Err (DuplicateVersion 1 "0001_b.sql") ∧
  LoadMigrations [("first.sql", Some "")] = Err (BadName "first.sql").
Proof. vm_compute. done. Qed.
