(* ===== verification/Invariant.v ===== *)
(** * The cross-table invariant

    What holds between the rows of a TaskForge database after every committed
    transaction: who holds a lease and on what, how attempts are numbered and
    budgeted, which jobs have dead-letter entries, results and outbox events.
    Each group of facts is stated on the tables it reads, so that a write to
    another table leaves it alone by definition. *)

From S2P Require Import Prelude.
From S2P Require Import GoText.
From S2P Require Import Schema.
From S2P Require Import JobsStore.
From S2P Require Import WorkersStore.
From S2P Require Import WorkersOutcome.

(** ** Vocabulary *)

(** The statuses in which some worker holds the job. *)
Definition holds_lease (s : JobStatus) : bool :=
  match s with StatusLeased | StatusRunning | StatusCancelRequested => true | _ => false end.

(** The statuses in which the job waits for an attempt. *)
Definition waiting (s : JobStatus) : bool :=
  match s with StatusPending | StatusQueued | StatusRetryWait => true | _ => false end.

(** The statuses a job and its current attempt may have together. *)
Definition live (js : JobStatus) (st : AttemptStatus) : bool :=
  match js, st with
  | StatusLeased, AttemptLeased | StatusRunning, AttemptRunning
  | StatusCancelRequested, AttemptLeased | StatusCancelRequested, AttemptRunning => true
  | _, _ => false
  end.

(** What a job, an attempt and a lease keep for ever. *)
Definition job_def (j : Job) :=
  (j_scope j, j_queue j, j_type j, j_payload j, j_priority j, j_max_attempts j,
   j_timeout_seconds j, j_required_capabilities j, j_scheduled_at j, j_replayed_from j,
   j_created_at j).
Definition attempt_def (a : Attempt) :=
  (a_job_id a, a_scope a, a_queue a, a_number a, a_worker_id a, a_session_id a, a_created_at a).
Definition lease_def (l : Lease) :=
  (l_job_id l, l_attempt_id l, l_scope l, l_queue l, l_worker_id l, l_session_id l,
   l_claim_request_id l, l_acquired_at l).

Definition session_def (s : WorkerSession) :=
  (s_worker_id s, s_scope s, s_hostname s, s_worker_group s, s_concurrency_limit s,
   s_capabilities s, s_supported_job_types s, s_registered_at s, s_worker_key_id s).
Definition event_def (e : OutboxEvent) :=
  (e_type e, e_schema_version e, e_payload e, e_job_id e, e_generation e, e_traceparent e,
   e_tracestate e, e_created_at e).

(** The attempts of a job. *)
Definition number_of_attempts (ats : gmap uuid Attempt) (jid : uuid) : Z :=
  Z.of_nat (map_count (attempts_of jid) ats).

(** A lease names the job of its attempt, and all three agree on the rest. *)
Definition bound (j : Job) (a : Attempt) (l : Lease) : Prop :=
  a_job_id a = l_job_id l ∧ a_scope a = l_scope l ∧ a_queue a = l_queue l ∧
  a_worker_id a = l_worker_id l ∧ a_session_id a = l_session_id l ∧
  j_scope j = l_scope l ∧ j_queue j = l_queue l.

(** ** The invariant, by group *)

Record lease_inv (js : gmap uuid Job) (ats : gmap uuid Attempt) (ls : gmap uuid Lease) : Prop := {
  li_lease : ∀ lid l, ls !! lid = Some l → ∃ a j,
    ats !! l_attempt_id l = Some a ∧ js !! l_job_id l = Some j ∧ bound j a l ∧
    if is_active l
    then live (j_status j) (a_status a) = true ∧
         a_number a = number_of_attempts ats (l_job_id l)
    else isExecutingAttemptStatus (a_status a) = false;
  li_attempt : ∀ aid a, ats !! aid = Some a →
    ∃ lid l, ls !! lid = Some l ∧ l_attempt_id l = aid;
  li_job : ∀ jid j, js !! jid = Some j → holds_lease (j_status j) = true →
    ∃ lid l, ls !! lid = Some l ∧ l_job_id l = jid ∧ is_active l = true;
  li_unique : ∀ lid lid' l l', ls !! lid = Some l → ls !! lid' = Some l' →
    lease_conflict l l' = true → lid = lid';
}.

Record attempt_inv (js : gmap uuid Job) (ats : gmap uuid Attempt) : Prop := {
  ai_job : ∀ aid a, ats !! aid = Some a → ∃ j, js !! a_job_id a = Some j ∧
    (a_status a = AttemptSucceeded →
     j_status j = StatusSucceeded ∧ a_number a = number_of_attempts ats (a_job_id a));
  ai_number : ∀ aid a, ats !! aid = Some a →
    (1 ≤ a_number a ≤ number_of_attempts ats (a_job_id a))%Z;
  ai_contiguous : ∀ jid n, (1 ≤ n ≤ number_of_attempts ats jid)%Z →
    ∃ aid a, ats !! aid = Some a ∧ a_job_id a = jid ∧ a_number a = n;
  ai_unique : ∀ aid aid' a a', ats !! aid = Some a → ats !! aid' = Some a' →
    a_job_id a = a_job_id a' → a_number a = a_number a' → aid = aid';
  ai_budget : ∀ jid j, js !! jid = Some j →
    (number_of_attempts ats jid ≤ j_max_attempts j)%Z ∧
    (waiting (j_status j) = true → number_of_attempts ats jid < j_max_attempts j)%Z;
  ai_succeeded : ∀ jid j, js !! jid = Some j → j_status j = StatusSucceeded →
    ∃ aid a, ats !! aid = Some a ∧ a_job_id a = jid ∧ a_status a = AttemptSucceeded;
}.

(** Every generation of a job's eligibility has its outbox event. *)
Definition has_event (es : gmap uuid OutboxEvent) (jid : uuid) (gen : Z) : Prop :=
  ∃ eid e, es !! eid = Some e ∧ e_job_id e = Some jid ∧ e_generation e = Some gen.

Definition event_inv (js : gmap uuid Job) (es : gmap uuid OutboxEvent) : Prop :=
  ∀ jid j, js !! jid = Some j →
    (0 ≤ j_notification_generation j)%Z ∧
    (j_status j = StatusPending → j_notification_generation j = 0%Z) ∧
    (j_status j ≠ StatusPending → j_status j ≠ StatusCanceled →
     (1 ≤ j_notification_generation j)%Z) ∧
    (∀ g, (1 ≤ g ≤ j_notification_generation j)%Z → has_event es jid g).

Record dlq_inv (js : gmap uuid Job) (ds : gmap uuid DLQEntry) : Prop := {
  di_entry : ∀ eid e, ds !! eid = Some e →
    ∃ j, js !! d_job_id e = Some j ∧ j_status j = StatusDeadLettered;
  di_job : ∀ jid j, js !! jid = Some j → j_status j = StatusDeadLettered →
    ∃ eid e, ds !! eid = Some e ∧ d_job_id e = jid;
  di_unique : ∀ eid eid' e e', ds !! eid = Some e → ds !! eid' = Some e' →
    d_job_id e = d_job_id e' → eid = eid';
}.

Definition result_inv (js : gmap uuid Job) (ats : gmap uuid Attempt)
    (rs : gmap uuid ResultRow) : Prop :=
  ∀ jid r, rs !! jid = Some r → ∃ j a, js !! jid = Some j ∧ j_status j = StatusSucceeded ∧
    j_scope j = rs_scope r ∧ ats !! rs_attempt_id r = Some a ∧ a_job_id a = jid ∧
    a_status a = AttemptSucceeded.

Definition capacity_inv (qs : gmap string Queue) (ls : gmap uuid Lease) : Prop :=
  ∀ q row, qs !! q = Some row →
    (Z.of_nat (map_count (active_for_queue q) ls) ≤ q_max_concurrency row)%Z.

Definition session_inv (ss : gmap uuid WorkerSession) : Prop :=
  ∀ sid sid' s s', ss !! sid = Some s → ss !! sid' = Some s' →
    isCurrentSessionStatus (s_status s) = true → isCurrentSessionStatus (s_status s') = true →
    s_worker_id s = s_worker_id s' → sid = sid'.

Record request_inv (js : gmap uuid Job) (is_ : gmap (string * string) IdempotencyRecord)
    (rs : gmap (string * uuid * string) DLQReplay) : Prop := {
  ri_idem : ∀ scope key i, is_ !! (scope, key) = Some i →
    ∃ j, js !! i_job_id i = Some j ∧ j_scope j = scope;
  ri_replay : ∀ scope original key r, rs !! (scope, original, key) = Some r →
    ∃ j jo, js !! r_replacement_job_id r = Some j ∧ j_replayed_from j = Some original ∧
      j_scope j = scope ∧ js !! original = Some jo ∧ j_status jo = StatusDeadLettered ∧
      j_scope jo = scope;
}.

(** A job row passes the CHECKs of its table and its foreign keys resolve. *)
Definition job_ok (qs : gmap string Queue) (js : gmap uuid Job) (id : uuid) (j : Job) : Prop :=
  job_check id j = true ∧ is_Some (qs !! j_queue j) ∧
  ∀ o, j_replayed_from j = Some o → ∃ jo, js !! o = Some jo ∧ j_scope jo = j_scope j.

(** An attempt row does. *)
Definition attempt_ok (js : gmap uuid Job) (ss : gmap uuid WorkerSession) (a : Attempt) : Prop :=
  attempt_check a = true ∧
  (∃ j, js !! a_job_id a = Some j ∧ j_scope j = a_scope a ∧ j_queue j = a_queue a) ∧
  (∃ s, ss !! a_session_id a = Some s ∧ s_worker_id s = a_worker_id a ∧ s_scope s = a_scope a).

(** No other attempt has this outcome identity. *)
Definition attempt_free (ats : gmap uuid Attempt) (aid : uuid) (a : Attempt) : Prop :=
  ∀ k a' o, ats !! k = Some a' → a_outcome_request_id a = Some o →
    a_outcome_request_id a' = Some o → k = aid.

Record rows_inv (qs : gmap string Queue) (js : gmap uuid Job) (ats : gmap uuid Attempt)
    (ls : gmap uuid Lease) (ss : gmap uuid WorkerSession) : Prop := {
  ro_job : ∀ id j, js !! id = Some j → job_ok qs js id j;
  ro_attempt : ∀ aid a, ats !! aid = Some a → attempt_ok js ss a;
  ro_outcome : ∀ aid a, ats !! aid = Some a → attempt_free ats aid a;
  ro_lease : ∀ lid l, ls !! lid = Some l → lease_check l = true;
}.

Record Inv (d : DB) : Prop := {
  inv_rows : rows_inv (queues d) (jobs d) (job_attempts d) (leases d) (worker_sessions d);
  inv_leases : lease_inv (jobs d) (job_attempts d) (leases d);
  inv_attempts : attempt_inv (jobs d) (job_attempts d);
  inv_events : event_inv (jobs d) (outbox_events d);
  inv_dlq : dlq_inv (jobs d) (dlq_entries d);
  inv_results : result_inv (jobs d) (job_attempts d) (results d);
  inv_capacity : capacity_inv (queues d) (leases d);
  inv_sessions : session_inv (worker_sessions d);
  inv_requests : request_inv (jobs d) (idempotency_records d) (dlq_replays d);
}.

(** ** Automation for point updates *)

(** Split a lookup in an updated map: the row written, or an old row. *)
Ltac split_lookups :=
  repeat match goal with
  | H : <[_:=_]> _ !! _ = Some _ |- _ =>
    apply lookup_insert_Some in H as [[? ?]|[? ?]]; simplify_eq
  end.

(** A lookup at, or away from, the updated key. *)
Ltac lk :=
  repeat first
    [ rewrite lookup_insert_eq
    | rewrite lookup_insert_ne by congruence ].

Lemma job_def_fields j j' : job_def j' = job_def j →
  j_scope j' = j_scope j ∧ j_queue j' = j_queue j ∧ j_max_attempts j' = j_max_attempts j ∧
  j_replayed_from j' = j_replayed_from j.
Proof. unfold job_def. intros H. injection H. auto. Qed.

Lemma attempt_def_fields a a' : attempt_def a' = attempt_def a →
  a_job_id a' = a_job_id a ∧ a_scope a' = a_scope a ∧ a_queue a' = a_queue a ∧
  a_number a' = a_number a ∧ a_worker_id a' = a_worker_id a ∧ a_session_id a' = a_session_id a.
Proof. unfold attempt_def. intros H. injection H. auto 10. Qed.

Lemma lease_def_fields l l' : lease_def l' = lease_def l →
  l_job_id l' = l_job_id l ∧ l_attempt_id l' = l_attempt_id l ∧ l_scope l' = l_scope l ∧
  l_queue l' = l_queue l ∧ l_worker_id l' = l_worker_id l ∧ l_session_id l' = l_session_id l ∧
  l_claim_request_id l' = l_claim_request_id l.
Proof. unfold lease_def. intros H. injection H. auto 10. Qed.

(** An update that keeps an attempt's job keeps the counts. *)
Lemma number_of_attempts_update ats aid a a' jid :
  ats !! aid = Some a → a_job_id a' = a_job_id a →
  number_of_attempts (<[aid:=a']> ats) jid = number_of_attempts ats jid.
Proof.
  intros Ha Hj. unfold number_of_attempts.
  pose proof (map_count_insert (attempts_of jid) ats aid a' a Ha) as Hc.
  unfold attempts_of in *. rewrite Hj in Hc. lia.
Qed.

Lemma number_of_attempts_insert ats aid a jid :
  ats !! aid = None →
  number_of_attempts (<[aid:=a]> ats) jid =
    ((if bool_decide (a_job_id a = jid) then 1 else 0) + number_of_attempts ats jid)%Z.
Proof.
  intros Ha. unfold number_of_attempts. rewrite map_count_insert_new by done.
  unfold attempts_of, b2n. case_bool_decide; lia.
Qed.

(** The number the claim computes is the next one. *)
Lemma next_number js d jid :
  attempt_inv js (job_attempts d) →
  next_attempt_number d jid = (number_of_attempts (job_attempts d) jid + 1)%Z.
Proof.
  intros Hinv. unfold next_attempt_number. f_equal.
  set (rows := map_where (attempts_of jid) (job_attempts d)).
  assert (∀ l, (∀ kv, kv ∈ l → 0 ≤ a_number kv.2 ≤ number_of_attempts (job_attempts d) jid)%Z →
    (0 ≤ fold_right Z.max 0 (map (λ kv : uuid * Attempt, a_number kv.2) l))%Z ∧
    (l ≠ [] → fold_right Z.max 0 (map (λ kv : uuid * Attempt, a_number kv.2) l)
      ≤ number_of_attempts (job_attempts d) jid)%Z ∧
    ∀ kv, kv ∈ l → (a_number kv.2 ≤ fold_right Z.max 0
      (map (λ kv : uuid * Attempt, a_number kv.2) l))%Z) as Hmax.
  { induction l as [|kv l IH]; intros Hl; simpl.
    - repeat split; [lia| congruence |]. intros kv Hkv. by apply not_elem_of_nil in Hkv.
    - destruct IH as (IH0 & IH1 & IH2); [intros; apply Hl; by constructor|].
      assert (0 ≤ a_number kv.2 ≤ number_of_attempts (job_attempts d) jid)%Z
        by (apply Hl; constructor).
      repeat split; [lia| intros _ |].
      + destruct l; [simpl; lia|]. specialize (IH1 ltac:(done)). lia.
      + intros kv' Hkv. apply elem_of_cons in Hkv as [->|Hkv]; [lia|].
        specialize (IH2 kv' Hkv). lia. }
  destruct (Hmax rows) as (H0 & H1 & H2).
  { intros [aid a] Hin. apply map_where_spec in Hin as [Ha Hj].
    unfold attempts_of in Hj. bools. subst.
    pose proof (ai_number _ _ Hinv aid a Ha). simpl. lia. }
  assert (number_of_attempts (job_attempts d) jid = Z.of_nat (length rows)) as Hlen by done.
  destruct (decide (rows = [])) as [Hnil|Hne].
  { rewrite Hlen, Hnil. done. }
  specialize (H1 Hne). destruct (ai_contiguous _ _ Hinv jid (Z.of_nat (length rows)))
    as (aid & a & Ha & Hj & Hn).
  { rewrite Hlen. destruct rows; [done|simpl; lia]. }
  assert ((aid, a) ∈ rows) as Hin.
  { apply map_where_spec. split; [done|]. unfold attempts_of. by apply bool_decide_eq_true. }
  specialize (H2 _ Hin). simpl in H2. lia.
Qed.

(** ** Preservation, table by table *)

(** *** Rows *)

Lemma job_constraints_ok d id j :
  job_constraints d id j = None → job_ok (queues d) (jobs d) id j.
Proof.
  unfold job_constraints, job_is. intros (Hc & _ & Hf)%pg_verdict_None. bools.
  split_and!; [done| |].
  - destruct (queues d !! j_queue j); [by eexists|done].
  - intros o Ho. rewrite Ho in *. destruct (jobs d !! o) as [jo|]; [|done]. bools. eauto.
Qed.

Lemma attempt_constraints_ok d aid a :
  attempt_constraints d aid a = None →
  attempt_ok (jobs d) (worker_sessions d) a ∧ attempt_free (job_attempts d) aid a.
Proof.
  unfold attempt_constraints, job_is, session_is. intros (Hc & Hu & Hf)%pg_verdict_None. bools.
  split.
  - split_and!; [done| |].
    + destruct (jobs d !! a_job_id a) as [j|]; [|done]. bools. naive_solver.
    + destruct (worker_sessions d !! a_session_id a) as [s|]; [|done]. bools. naive_solver.
  - intros k a' o Hk Ho Ho'. rewrite map_any_false in Hu. specialize (Hu k a' Hk).
    destruct (decide (k = aid)) as [|Hne]; [done|].
    rewrite bool_decide_eq_false_2, Ho, Ho' in Hu by done. simpl in Hu. by bools.
Qed.

Lemma lease_constraints_check d lid l : lease_constraints d lid l = None → lease_check l = true.
Proof. unfold lease_constraints. by intros (? & _)%pg_verdict_None. Qed.

(** Job rows persist with their scope and queue, so what refers to them does. *)
Lemma rows_inv_job qs js ats ls ss id j :
  rows_inv qs js ats ls ss → job_ok qs js id j →
  (∀ j0, js !! id = Some j0 → j_scope j = j_scope j0 ∧ j_queue j = j_queue j0) →
  rows_inv qs (<[id:=j]> js) ats ls ss.
Proof.
  intros [Hj Ha Ho Hl] Hok Hold.
  assert (∀ k jk, js !! k = Some jk → ∃ jk', <[id:=j]> js !! k = Some jk' ∧
    j_scope jk' = j_scope jk ∧ j_queue jk' = j_queue jk) as Hk.
  { intros k jk Hk. destruct (decide (id = k)) as [->|Hne]; [exists j|exists jk]; lk; naive_solver. }
  assert (∀ k jk, job_ok qs js k jk → job_ok qs (<[id:=j]> js) k jk) as Hmono.
  { intros k jk (? & ? & Hr). split_and!; [done..|]. intros o Ho'.
    destruct (Hr o Ho') as (jo & Hjo & <-). destruct (Hk o jo Hjo) as (jo' & ? & ? & _). eauto. }
  split; [| |done..].
  - intros k jk Hkj. apply Hmono. split_lookups; eauto.
  - intros aid a (? & (j0 & Hj0 & Hs & Hq) & ?)%Ha. split_and!; [done| |done].
    destruct (Hk _ _ Hj0) as (j1 & ? & ? & ?). exists j1. split_and!; congruence.
Qed.

Lemma rows_inv_attempt qs js ats ls ss aid a :
  rows_inv qs js ats ls ss → attempt_ok js ss a → attempt_free ats aid a →
  rows_inv qs js (<[aid:=a]> ats) ls ss.
Proof.
  intros [Hj Ha Ho Hl] Hok Hfree. split; [done| | |done].
  - intros k ak Hk. split_lookups; eauto.
  - intros k ak Hk k' ak' o Hk' Ho1 Ho2. split_lookups; [done| | |by eapply Ho].
    + symmetry. by eapply Hfree.
    + by eapply Hfree.
Qed.

Lemma rows_inv_lease qs js ats ls ss lid l :
  rows_inv qs js ats ls ss → lease_check l = true → rows_inv qs js ats (<[lid:=l]> ls) ss.
Proof. intros [Hj Ha Ho Hl] Hok. split; [done..|]. intros k lk Hk. split_lookups; eauto. Qed.

Lemma session_def_fields s s' : session_def s' = session_def s →
  s_worker_id s' = s_worker_id s ∧ s_scope s' = s_scope s.
Proof. unfold session_def. intros H. injection H. auto. Qed.

Lemma rows_inv_session qs js ats ls ss sid s :
  rows_inv qs js ats ls ss →
  (∀ s0, ss !! sid = Some s0 → session_def s = session_def s0) →
  rows_inv qs js ats ls (<[sid:=s]> ss).
Proof.
  intros [Hj Ha Ho Hl] Hold. split; [done| |done..].
  intros aid a (? & ? & (s0 & Hs0 & Hw & Hsc))%Ha. split_and!; [done..|].
  destruct (decide (sid = a_session_id a)) as [->|Hne]; [|exists s0; by lk].
  destruct (session_def_fields _ _ (Hold s0 Hs0)). exists s. lk. split_and!; congruence.
Qed.

(** An update that keeps an attempt's identity keeps its references. *)
Lemma attempt_ok_update js ss a a' :
  attempt_ok js ss a → attempt_def a' = attempt_def a → attempt_check a' = true →
  attempt_ok js ss a'.
Proof.
  intros (_ & Hj & Hs) (Hjob & Hsc & Hq & _ & Hw & Hse)%attempt_def_fields Hc.
  unfold attempt_ok. rewrite Hjob, Hsc, Hq, Hw, Hse. done.
Qed.

(** *** Outbox events *)

Lemma has_event_insert es jid g eid e :
  es !! eid = None → has_event es jid g → has_event (<[eid:=e]> es) jid g.
Proof. intros Hn (eid' & e' & He & ?). exists eid', e'. by lk. Qed.

Lemma event_inv_grow js es eid e :
  es !! eid = None → event_inv js es → event_inv js (<[eid:=e]> es).
Proof.
  intros Hn He jid j Hj. destruct (He jid j Hj) as (? & ? & ? & ?).
  repeat split; eauto using has_event_insert.
Qed.

Lemma event_inv_job js es id j :
  event_inv js es →
  (0 ≤ j_notification_generation j)%Z →
  (j_status j = StatusPending → j_notification_generation j = 0%Z) →
  (j_status j ≠ StatusPending → j_status j ≠ StatusCanceled →
   (1 ≤ j_notification_generation j)%Z) →
  (∀ g, (1 ≤ g ≤ j_notification_generation j)%Z → has_event es id g) →
  event_inv (<[id:=j]> js) es.
Proof. intros He ? ? ? ? jid j' Hl. split_lookups; eauto. Qed.

(** A job whose generation stays. *)
Lemma event_inv_same js es id j j' :
  event_inv js es → js !! id = Some j →
  j_notification_generation j' = j_notification_generation j →
  j_status j' ≠ StatusPending →
  (j_status j = StatusPending → j_status j' = StatusCanceled) →
  (j_status j = StatusCanceled → j_status j' = StatusCanceled) →
  event_inv (<[id:=j']> js) es.
Proof.
  intros He Hj Hg Hp Hc Hc'. destruct (He id j Hj) as (H0 & H1 & H2 & H3).
  apply event_inv_job; rewrite ?Hg; [done..|naive_solver| |done].
  intros _ Hnc. apply H2; naive_solver.
Qed.

(** The next generation of a job, with its event. *)
Lemma event_inv_next js es id j j' eid e :
  event_inv js es → js !! id = Some j →
  j_notification_generation j' = (j_notification_generation j + 1)%Z →
  j_status j' ≠ StatusPending →
  es !! eid = None → e_job_id e = Some id →
  e_generation e = Some (j_notification_generation j') →
  event_inv (<[id:=j']> js) (<[eid:=e]> es).
Proof.
  intros He Hj Hg Hp Hn Hid Hgen. destruct (He id j Hj) as (H0 & H1 & H2 & H3).
  apply event_inv_job; [by apply event_inv_grow|lia|congruence|lia|].
  intros g Hgb. destruct (decide (g = j_notification_generation j')) as [->|].
  - exists eid, e. lk. done.
  - apply has_event_insert; [done|]. apply H3. lia.
Qed.

(** *** Dead-letter entries *)

Lemma dlq_inv_job js ds id j :
  dlq_inv js ds → (∀ j0, js !! id = Some j0 → j_status j0 ≠ StatusDeadLettered) →
  j_status j ≠ StatusDeadLettered → dlq_inv (<[id:=j]> js) ds.
Proof.
  intros [He Hj Hu] Hold Hnew. split; [|by intros; split_lookups; eauto|done].
  intros eid e Hl. destruct (He eid e Hl) as (j0 & Hj0 & Hs).
  exists j0. rewrite lookup_insert_ne; [done|]. intros ?; subst. by eapply Hold.
Qed.

Lemma dlq_inv_same js ds id j j' :
  dlq_inv js ds → js !! id = Some j → j_status j' = j_status j → dlq_inv (<[id:=j']> js) ds.
Proof.
  intros [He Hj Hu] Hl Hs. split; [| |done].
  - intros eid e Hle. destruct (He eid e Hle) as (j0 & Hj0 & Hs0).
    destruct (decide (id = d_job_id e)) as [Heq|Hne]; [exists j'|exists j0; by lk].
    subst id. lk. split; congruence.
  - intros jid j0 Hl0 Hs0. split_lookups; [eapply (Hj jid); [eassumption|congruence]|eauto].
Qed.

Lemma dlq_inv_dead js ds id j j' eid e :
  dlq_inv js ds → js !! id = Some j → j_status j ≠ StatusDeadLettered →
  j_status j' = StatusDeadLettered → ds !! eid = None → d_job_id e = id →
  dlq_inv (<[id:=j']> js) (<[eid:=e]> ds).
Proof.
  intros [He Hj Hu] Hl Hold Hnew Hn Hid.
  assert (∀ k e0, ds !! k = Some e0 → d_job_id e0 ≠ id) as Hfresh.
  { intros k e0 Hk Heq. destruct (He k e0 Hk) as (j0 & ? & ?). congruence. }
  split.
  - intros k e0 Hk. split_lookups; [exists j'; by lk|].
    destruct (He k e0) as (j0 & ? & ?); [done|]. exists j0. rewrite lookup_insert_ne; [done|].
    intros Heq. by eapply (Hfresh k e0).
  - intros jid j0 Hl0 Hs0. split_lookups; [exists eid, e; by lk|].
    destruct (Hj jid j0) as (k & e0 & ? & ?); [done..|]. exists k, e0. lk; done.
  - intros k k' e0 e1 H0 H1 Heq. split_lookups; [done| | |eauto].
    + exfalso. eapply (Hfresh k e0); [done|congruence].
    + exfalso. eapply (Hfresh k' e1); [done|congruence].
Qed.

(** *** Results *)

Lemma result_inv_job js ats rs id j :
  result_inv js ats rs → (∀ j0, js !! id = Some j0 → j_status j0 ≠ StatusSucceeded) →
  result_inv (<[id:=j]> js) ats rs.
Proof.
  intros Hr Hold jid r Hl. destruct (Hr jid r Hl) as (j0 & a & ? & ? & ? & ?).
  exists j0, a. rewrite lookup_insert_ne; [done|]. intros ?; subst. by eapply Hold.
Qed.

Lemma result_inv_attempt js ats rs aid a :
  result_inv js ats rs → (∀ a0, ats !! aid = Some a0 → a_status a0 ≠ AttemptSucceeded) →
  result_inv js (<[aid:=a]> ats) rs.
Proof.
  intros Hr Hold jid r Hl. destruct (Hr jid r Hl) as (j0 & a0 & ? & ? & ? & ? & ? & ?).
  exists j0, a0. rewrite lookup_insert_ne; [done|]. intros ?; subst. by eapply Hold.
Qed.

Lemma result_inv_new js ats rs id j a r :
  result_inv js ats rs → rs !! id = None → js !! id = Some j → j_status j = StatusSucceeded →
  j_scope j = rs_scope r → ats !! rs_attempt_id r = Some a → a_job_id a = id →
  a_status a = AttemptSucceeded → result_inv js ats (<[id:=r]> rs).
Proof. intros Hr ? ? ? ? ? ? ? jid r' Hl. split_lookups; eauto 10. Qed.

(** *** Capacity *)

(** Closing or renewing a lease never takes capacity. *)
Lemma capacity_inv_update qs ls lid l l' :
  capacity_inv qs ls → ls !! lid = Some l → l_queue l' = l_queue l →
  (is_active l' = true → is_active l = true) → capacity_inv qs (<[lid:=l']> ls).
Proof.
  intros Hc Hl Hq Ha q row Hrow. specialize (Hc q row Hrow).
  pose proof (map_count_insert (active_for_queue q) ls lid l' l Hl) as Hn.
  assert (b2n (active_for_queue q lid l') ≤ b2n (active_for_queue q lid l)).
  { unfold active_for_queue. rewrite Hq. destruct (is_active l'); [rewrite Ha by done; lia|].
    rewrite andb_false_r. simpl. lia. }
  lia.
Qed.

Lemma capacity_inv_insert qs ls lid l row :
  capacity_inv qs ls → ls !! lid = None → qs !! l_queue l = Some row →
  (Z.of_nat (map_count (active_for_queue (l_queue l)) ls) < q_max_concurrency row)%Z →
  capacity_inv qs (<[lid:=l]> ls).
Proof.
  intros Hc Hl Hq Hlt q row' Hrow. rewrite map_count_insert_new by done.
  destruct (decide (q = l_queue l)) as [->|Hne].
  - simplify_eq. unfold b2n. case_match; lia.
  - specialize (Hc q row' Hrow). unfold active_for_queue at 1.
    rewrite bool_decide_eq_false_2 by done. simpl. lia.
Qed.

(** *** Sessions *)

Lemma session_inv_put d sid s :
  session_inv (worker_sessions d) → session_constraints d sid s = None →
  session_inv (<[sid:=s]> (worker_sessions d)).
Proof.
  intros Hs Hc. unfold session_constraints in Hc. apply pg_verdict_None in Hc as (_ & Hu & _).
  apply negb_true_iff, andb_false_iff in Hu.
  assert (∀ k s', worker_sessions d !! k = Some s' → k ≠ sid →
    isCurrentSessionStatus (s_status s) = true → isCurrentSessionStatus (s_status s') = true →
    s_worker_id s ≠ s_worker_id s') as Hno.
  { intros k s' Hk Hne H1 H2 Heq. destruct Hu as [Hu|Hu]; [congruence|].
    rewrite map_any_false in Hu. specialize (Hu k s' Hk).
    rewrite bool_decide_eq_false_2, H2, bool_decide_eq_true_2 in Hu by done. done. }
  intros k k' s0 s1 H0 H1 C0 C1 Heq. split_lookups; [done| | |by eapply Hs].
  - exfalso. eapply (Hno k s0); by eauto.
  - exfalso. eapply (Hno k' s1); by eauto.
Qed.

(** *** Idempotency and replay records *)

Lemma request_inv_job js is_ rs id j j' :
  request_inv js is_ rs → js !! id = Some j → job_def j' = job_def j →
  (j_status j = StatusDeadLettered → j_status j' = StatusDeadLettered) →
  request_inv (<[id:=j']> js) is_ rs.
Proof.
  intros [Hi Hr] Hj Hd Hs. apply job_def_fields in Hd as (Hsc & _ & _ & Hrep).
  assert (∀ k j0, js !! k = Some j0 → ∃ j1, <[id:=j']> js !! k = Some j1 ∧
    j_scope j1 = j_scope j0 ∧ j_replayed_from j1 = j_replayed_from j0 ∧
    (j_status j0 = StatusDeadLettered → j_status j1 = StatusDeadLettered)) as Hk.
  { intros k j0 Hk. destruct (decide (id = k)) as [->|]; lk; simplify_eq; eauto 10. }
  split.
  - intros scope key i Hl. destruct (Hi _ _ _ Hl) as (j0 & Hj0 & <-).
    destruct (Hk _ _ Hj0) as (j1 & ? & ? & ?). eauto.
  - intros scope o key r Hl. destruct (Hr _ _ _ _ Hl) as (j0 & jo & H0 & ? & ? & Ho & ? & ?).
    destruct (Hk _ _ H0) as (j1 & ? & ? & ? & ?), (Hk _ _ Ho) as (j2 & ? & ? & ? & ?).
    exists j1, j2. repeat split; try congruence; eauto.
Qed.

Lemma request_inv_new js is_ rs id j :
  request_inv js is_ rs → js !! id = None → request_inv (<[id:=j]> js) is_ rs.
Proof.
  intros [Hi Hr] Hj. split.
  - intros scope key i Hl. destruct (Hi _ _ _ Hl) as (j0 & ? & ?). exists j0. lk; done.
  - intros scope o key r Hl. destruct (Hr _ _ _ _ Hl) as (j0 & jo & ? & ? & ? & ? & ? & ?).
    exists j0, jo. lk; done.
Qed.

Lemma request_inv_idem js is_ rs scope key i j :
  request_inv js is_ rs → js !! i_job_id i = Some j → j_scope j = scope →
  request_inv js (<[(scope, key):=i]> is_) rs.
Proof. intros [Hi Hr] ? ?. split; [|done]. intros. split_lookups; eauto. Qed.

Lemma request_inv_replay js is_ rs scope original key r j jo :
  request_inv js is_ rs → js !! r_replacement_job_id r = Some j →
  j_replayed_from j = Some original → j_scope j = scope → js !! original = Some jo →
  j_status jo = StatusDeadLettered → j_scope jo = scope →
  request_inv js is_ (<[(scope, original, key):=r]> rs).
Proof. intros [Hi Hr] ? ? ? ? ? ?. split; [done|]. intros. split_lookups; eauto 10. Qed.

(** *** Attempts *)

(** A job of which no attempt exists yet. *)
Lemma number_of_attempts_none js ats id :
  attempt_inv js ats → js !! id = None → number_of_attempts ats id = 0%Z.
Proof.
  intros Ha Hn. destruct (decide (number_of_attempts ats id = 0%Z)) as [|Hne]; [done|].
  destruct (ai_contiguous _ _ Ha id 1) as (aid & a & Hl & Hj & _).
  { unfold number_of_attempts in *. lia. }
  destruct (ai_job _ _ Ha aid a Hl) as (j & Hj' & _). congruence.
Qed.

Lemma attempt_inv_new_job js ats id j :
  attempt_inv js ats → js !! id = None → j_status j ≠ StatusSucceeded →
  (1 ≤ j_max_attempts j)%Z → attempt_inv (<[id:=j]> js) ats.
Proof.
  intros Ha Hn Hs Hmax. pose proof (number_of_attempts_none js ats id Ha Hn) as H0.
  destruct Ha as [Hj Hnum Hc Hu Hb Hsu]. split; [|done..| |].
  - intros aid a Hl. destruct (Hj aid a Hl) as (j0 & ? & ?). exists j0. by lk.
  - intros jid j' Hl. split_lookups; [lia|eauto].
  - intros jid j' Hl Hs'. split_lookups; eauto.
Qed.

Lemma attempt_inv_job js ats id j j' :
  attempt_inv js ats → js !! id = Some j → job_def j' = job_def j →
  (waiting (j_status j') = true → number_of_attempts ats id < j_max_attempts j)%Z →
  (j_status j' = StatusSucceeded ↔ j_status j = StatusSucceeded) →
  attempt_inv (<[id:=j']> js) ats.
Proof.
  intros [Hj Hnum Hc Hu Hb Hsu] Hl Hd Hw Hss. apply job_def_fields in Hd as (_ & _ & Hmax & _).
  split; [|done..| |].
  - intros aid a Hla. destruct (Hj aid a Hla) as (j0 & Hj0 & Hs0).
    destruct (decide (id = a_job_id a)) as [Heq|Hne]; [|exists j0; by lk].
    subst. exists j'. lk. split; [done|]. intros Ha. simplify_eq. naive_solver.
  - intros jid j0 Hl0. split_lookups; [|eauto]. rewrite Hmax.
    split; [by eapply Hb|done].
  - intros jid j0 Hl0 Hs0. split_lookups; [|eauto]. eapply (Hsu jid); [eassumption|naive_solver].
Qed.

(** The attempt of a claim. *)
Lemma attempt_inv_claim js ats id j j' aid a :
  attempt_inv js ats → js !! id = Some j → job_def j' = job_def j →
  j_status j = StatusQueued → waiting (j_status j') = false →
  j_status j' ≠ StatusSucceeded → ats !! aid = None → a_job_id a = id →
  a_number a = (number_of_attempts ats id + 1)%Z → a_status a ≠ AttemptSucceeded →
  attempt_inv (<[id:=j']> js) (<[aid:=a]> ats).
Proof.
  intros Ha Hl Hd Hq Hw Hns Hn Hid Hnum Hs.
  destruct (ai_budget _ _ Ha id j Hl) as [_ Hlt]. rewrite Hq in Hlt. specialize (Hlt eq_refl).
  assert (attempt_inv (<[id:=j']> js) ats) as Ha'.
  { eapply attempt_inv_job; [done..|congruence|]. split; congruence. }
  apply job_def_fields in Hd as (_ & _ & Hmax & _).
  destruct Ha' as [Hj Hnu Hc Hu Hb Hsu]. split.
  - intros k a0 Hk. split_lookups; [exists j'; lk; naive_solver|].
    destruct (Hj k a0) as (j0 & Hj0 & Hs0); [done|]. exists j0. split; [done|]. intros Hsa.
    destruct (Hs0 Hsa) as [Hsj ->]. split; [done|].
    rewrite number_of_attempts_insert by done. rewrite bool_decide_eq_false_2; [lia|].
    intros Heq. rewrite <-Heq, lookup_insert_eq in Hj0. congruence.
  - intros k a0 Hk. rewrite number_of_attempts_insert by done.
    split_lookups; [rewrite bool_decide_eq_true_2 by done; unfold number_of_attempts in *; lia|].
    specialize (Hnu k a0). case_bool_decide; naive_solver lia.
  - intros jid n Hb'. rewrite number_of_attempts_insert in Hb' by done.
    destruct (decide (a_job_id a = jid ∧ n = a_number a)) as [[<- ->]|Hne].
    + exists aid, a. by lk.
    + destruct (Hc jid n) as (k & a0 & ? & ? & ?).
      { case_bool_decide; [|lia]. subst jid. split; [lia|]. rewrite <-Hid in Hnum.
        assert (n ≠ a_number a) by naive_solver. lia. }
      exists k, a0. by lk.
  - intros k k' a0 a1 H0 H1 Hjj Hnn. split_lookups; [done| | |by eapply Hu].
    + specialize (Hnu k a0 ltac:(done)). rewrite Hjj, Hnn in Hnu. lia.
    + specialize (Hnu k' a1 ltac:(done)). rewrite <-Hjj, <-Hnn in Hnu. lia.
  - intros jid j0 Hl0. rewrite number_of_attempts_insert by done. split_lookups.
    + rewrite bool_decide_eq_true_2 by done. rewrite Hmax. split; [lia|congruence].
    + rewrite bool_decide_eq_false_2 by congruence. apply Hb. by lk.
  - intros jid j0 Hl0 Hs0. destruct (Hsu jid j0 Hl0 Hs0) as (k & a0 & ? & ? & ?).
    exists k, a0. by lk.
Qed.

(** The current attempt of a job and the job move together. *)
Lemma attempt_inv_pair js ats id j j' aid a a' :
  attempt_inv js ats → js !! id = Some j → ats !! aid = Some a → a_job_id a = id →
  job_def j' = job_def j → attempt_def a' = attempt_def a →
  a_number a = number_of_attempts ats id →
  a_status a ≠ AttemptSucceeded → j_status j ≠ StatusSucceeded →
  (a_status a' = AttemptSucceeded ↔ j_status j' = StatusSucceeded) →
  (waiting (j_status j') = true → a_number a < j_max_attempts j)%Z →
  attempt_inv (<[id:=j']> js) (<[aid:=a']> ats).
Proof.
  intros [Hj Hnu Hc Hu Hb Hsu] Hl Hla Hid Hd Hda Hnum Hsa Hsj Hss Hw.
  apply job_def_fields in Hd as (_ & _ & Hmax & _).
  apply attempt_def_fields in Hda as (Hjob & _ & _ & Hn & _).
  pose proof (λ jid, number_of_attempts_update ats aid a a' jid Hla Hjob) as Hcount.
  split.
  - intros k a0 Hk. rewrite Hcount. split_lookups.
    + exists j'. rewrite Hjob. lk. split; [done|]. naive_solver congruence.
    + destruct (Hj k a0) as (j0 & Hj0 & Hs0); [done|].
      destruct (decide (a_job_id a0 = a_job_id a)) as [Heq|Hne].
      * rewrite Heq in *. exists j'. lk. split; [done|]. intros Hsa0.
        destruct (Hs0 Hsa0) as [? _]. congruence.
      * exists j0. by lk.
  - intros k a0 Hk. rewrite Hcount. split_lookups; [rewrite Hjob, Hn|]; eauto.
  - intros jid n Hb'. rewrite Hcount in Hb'. destruct (Hc jid n Hb') as (k & a0 & ? & ? & ?).
    destruct (decide (aid = k)) as [->|]; [exists k, a'|exists k, a0]; lk; [|done].
    simplify_eq. rewrite Hjob, Hn. done.
  - intros k k' a0 a1 H0 H1. split_lookups; rewrite ?Hjob, ?Hn; [done|eauto..].
  - intros jid j0 Hl0. rewrite Hcount. split_lookups; [|eauto]. rewrite Hmax.
    split; [by eapply Hb|]. intros Hw'. specialize (Hw Hw'). lia.
  - intros jid j0 Hl0 Hs0. split_lookups.
    + exists aid, a'. lk. naive_solver.
    + destruct (Hsu jid j0) as (k & a0 & ? & ? & ?); [done..|]. exists k, a0. by lk.
Qed.

(** *** Leases *)

Lemma lease_conflict_sym l l' : lease_conflict l l' = lease_conflict l' l.
Proof.
  unfold lease_conflict, is_Some_b, is_None_b. f_equal; [f_equal; [f_equal|]|].
  - apply bool_decide_ext; naive_solver.
  - apply bool_decide_ext; naive_solver.
  - f_equal; [apply andb_comm|apply bool_decide_ext; naive_solver].
  - destruct (l_last_renewal_request_id l), (l_last_renewal_request_id l'); simpl;
      try done; apply bool_decide_ext; naive_solver.
Qed.

(** A row conflicts with no other row of [leases]: the unique indexes admit it. *)
Definition lease_free (ls : gmap uuid Lease) (lid : uuid) (l : Lease) : Prop :=
  ∀ k l', ls !! k = Some l' → k ≠ lid → lease_conflict l l' = false.

Lemma lease_constraints_free d lid l :
  lease_constraints d lid l = None → lease_free (leases d) lid l.
Proof.
  unfold lease_constraints. intros (_ & Hc & _)%pg_verdict_None k l' Hk Hne.
  rewrite negb_true_iff, map_any_false in Hc. specialize (Hc k l' Hk).
  by rewrite bool_decide_eq_false_2 in Hc.
Qed.

Lemma lease_unique_put ls lid l :
  lease_free ls lid l →
  (∀ k k' l1 l2, ls !! k = Some l1 → ls !! k' = Some l2 →
    lease_conflict l1 l2 = true → k = k') →
  ∀ k k' l1 l2, <[lid:=l]> ls !! k = Some l1 → <[lid:=l]> ls !! k' = Some l2 →
    lease_conflict l1 l2 = true → k = k'.
Proof.
  intros Hno Hu k k' l1 l2 H1 H2 Hcf. split_lookups; [done| | |by eapply Hu].
  - rewrite lease_conflict_sym, (Hno k l1) in Hcf by done. done.
  - rewrite (Hno k' l2) in Hcf by done. done.
Qed.

Lemma lease_conflict_attempt l l' : l_attempt_id l = l_attempt_id l' → lease_conflict l l' = true.
Proof. intros Heq. unfold lease_conflict. by rewrite bool_decide_eq_true_2. Qed.

Lemma lease_conflict_job l l' :
  l_job_id l = l_job_id l' → is_active l = true → is_active l' = true →
  lease_conflict l l' = true.
Proof.
  unfold is_active, lease_conflict. intros Heq -> ->.
  rewrite (bool_decide_eq_true_2 (l_job_id l' = l_job_id l)) by done.
  by rewrite orb_true_r.
Qed.

Lemma bound_job j j' a l :
  bound j a l → j_scope j' = j_scope j → j_queue j' = j_queue j → bound j' a l.
Proof. unfold bound. intros (?&?&?&?&?&?&?) -> ->. done. Qed.

(** A write to [jobs] that leaves the holders alone. *)
Lemma lease_inv_job js ats ls id j j' :
  lease_inv js ats ls → js !! id = Some j → job_def j' = job_def j →
  (holds_lease (j_status j') = true → holds_lease (j_status j) = true) →
  (∀ st, live (j_status j) st = true → live (j_status j') st = true) →
  lease_inv (<[id:=j']> js) ats ls.
Proof.
  intros [Hl Ha Hj Hu] Hid Hd Hh Hlive. apply job_def_fields in Hd as (Hsc & Hq & _ & _).
  split; [|done| |done].
  - intros lid l Hll. destruct (Hl lid l Hll) as (a & j0 & Hat & Hjb & Hb & Hif).
    destruct (decide (id = l_job_id l)) as [Heq|Hne]; [|exists a, j0; by lk].
    subst id. simplify_eq. exists a, j'. lk. split_and!; [done..|by eapply bound_job|].
    destruct (is_active l); [|done]. destruct Hif. auto.
  - intros jid j0 Hl0 Hh0. split_lookups; [|eauto]. eapply Hj; eauto.
Qed.

Lemma lease_inv_new_job js ats ls id j :
  lease_inv js ats ls → js !! id = None → holds_lease (j_status j) = false →
  lease_inv (<[id:=j]> js) ats ls.
Proof.
  intros [Hl Ha Hj Hu] Hid Hh. split; [|done| |done].
  - intros lid l Hll. destruct (Hl lid l Hll) as (a & j0 & ? & ? & ?). exists a, j0. by lk.
  - intros jid j0 Hl0 Hh0. split_lookups; [congruence|eauto].
Qed.

(** The claim: the job's only active lease, on its new attempt. *)
Lemma lease_inv_claim js ats ls id j j' aid a lid l :
  lease_inv js ats ls → attempt_inv js ats →
  js !! id = Some j → job_def j' = job_def j → j_status j = StatusQueued →
  j_status j' = StatusLeased → ats !! aid = None → ls !! lid = None →
  lease_free ls lid l → is_active l = true →
  l_job_id l = id → l_attempt_id l = aid → bound j' a l → a_status a = AttemptLeased →
  a_number a = (number_of_attempts ats id + 1)%Z →
  lease_inv (<[id:=j']> js) (<[aid:=a]> ats) (<[lid:=l]> ls).
Proof.
  intros [Hl Ha Hj Hu] Hai Hid Hd Hq Hs Hna Hnl Hc Hact Hljob Hlat Hb Hsa Hn.
  apply job_def_fields in Hd as (Hsc & Hqu & _).
  assert (∀ k l0, ls !! k = Some l0 → l_job_id l0 = id → is_active l0 = false) as Hfree.
  { intros k l0 Hk Heq. destruct (Hl k l0 Hk) as (a0 & j0 & _ & Hj0 & _ & Hif).
    rewrite Heq in Hj0. simplify_eq. destruct (is_active l0); [|done].
    rewrite Hq in Hif. by destruct Hif. }
  split; [| | |by eapply lease_unique_put].
  - intros k l0 Hk. split_lookups.
    + exists a, j'. lk. rewrite Hact. split_and!; try done; [by rewrite Hs, Hsa|].
      rewrite number_of_attempts_insert by done.
      rewrite bool_decide_eq_true_2 by apply Hb. lia.
    + destruct (Hl k l0) as (a0 & j0 & Ha0 & Hj0 & Hb0 & Hif); [done|].
      destruct (decide (l_job_id l0 = l_job_id l)) as [Heq|Hne].
      * exists a0, j'. rewrite Heq in *. simplify_eq. lk.
        rewrite (Hfree k l0) in * by done. split_and!; try done.
        by eapply bound_job.
      * exists a0, j0. lk. split_and!; try done. destruct (is_active l0); [|done].
        destruct Hif as [? ->]. split; [done|]. rewrite number_of_attempts_insert by done.
        rewrite bool_decide_eq_false_2; [lia|]. destruct Hb. congruence.
  - intros k a0 Hk. split_lookups; [exists lid, l; by lk|].
    destruct (Ha k a0) as (lid0 & l0 & ? & ?); [done|]. exists lid0, l0. by lk.
  - intros jid j0 Hl0 Hh. split_lookups; [exists lid, l; by lk|].
    destruct (Hj jid j0) as (lid0 & l0 & ? & ? & ?); [done..|]. exists lid0, l0. by lk.
Qed.

(** The active lease of a job, its attempt and the job move together: they stay
    live, or the lease ends and nobody holds the job. *)
Lemma lease_inv_triple js ats ls id j j' aid a a' lid l l' :
  lease_inv js ats ls → js !! id = Some j → ats !! aid = Some a →
  ls !! lid = Some l → l_job_id l = id → l_attempt_id l = aid → is_active l = true →
  job_def j' = job_def j → attempt_def a' = attempt_def a → lease_def l' = lease_def l →
  (l' = l ∨ lease_free ls lid l') →
  (if is_active l' then live (j_status j') (a_status a') = true
   else isExecutingAttemptStatus (a_status a') = false ∧ holds_lease (j_status j') = false) →
  lease_inv (<[id:=j']> js) (<[aid:=a']> ats) (<[lid:=l']> ls).
Proof.
  intros [Hl Ha Hj Hu] Hid Haid Hlid Hljob Hlat Hact Hd Hda Hdl Hc Hnew.
  apply job_def_fields in Hd as (Hsc & Hqu & _).
  apply attempt_def_fields in Hda as (Hjob & Hasc & Haqu & Han & Haw & Has).
  apply lease_def_fields in Hdl as (Hlj & Hla & Hlsc & Hlq & Hlw & Hls & _).
  pose proof (λ jid, number_of_attempts_update ats aid a a' jid Haid Hjob) as Hcount.
  destruct (Hl lid l Hlid) as (a1 & j1 & Ha1 & Hj1 & Hb1 & Hif1).
  rewrite Hljob, Hlat in *. simplify_eq. rewrite Hact in Hif1. destruct Hif1 as [Hlive Hnum].
  split; [| | |destruct Hc as [->|Hc]; [by rewrite insert_id|by eapply lease_unique_put]].
  - intros k l0 Hk. split_lookups.
    + exists a', j'. rewrite Hla, Hlj, Hcount. lk. split_and!; [done..| |].
      * unfold bound in *. destruct_and!. split_and!; congruence.
      * destruct (is_active l0); [|naive_solver]. split; [done|]. congruence.
    + destruct (Hl k l0) as (a0 & j0 & Ha0 & Hj0 & Hb0 & Hif); [done|].
      assert (l_attempt_id l0 ≠ l_attempt_id l) as Hna.
      { intros Heq. assert (k = lid); [|congruence].
        eapply Hu; [done..|]. by apply lease_conflict_attempt. }
      destruct (decide (l_job_id l0 = l_job_id l)) as [Heq|Hne].
      * exists a0, j'. rewrite Heq, Hcount in *. simplify_eq. lk.
        destruct (is_active l0) eqn:Hact0.
        { assert (k = lid); [|congruence]. eapply Hu; [done..|]. by apply lease_conflict_job. }
        split_and!; try done. by eapply bound_job.
      * exists a0, j0. rewrite Hcount. by lk.
  - intros k a0 Hk. split_lookups.
    + exists lid, l'. lk. done.
    + destruct (Ha k a0) as (lid0 & l0 & ? & ?); [done|].
      destruct (decide (lid = lid0)) as [->|]; [congruence|]. exists lid0, l0. by lk.
  - intros jid j0 Hl0 Hh. split_lookups.
    + destruct (is_active l') eqn:Hact'; [|naive_solver congruence]. exists lid, l'. by lk.
    + destruct (Hj jid j0) as (lid0 & l0 & ? & ? & ?); [done..|].
      destruct (decide (lid = lid0)) as [->|]; [congruence|]. exists lid0, l0. by lk.
Qed.
