(* ===== verification/Transitions.v ===== *)
(** * The transition matrix

    docs/ARCHITECTURE.md section 4 as a relation on databases: the rows of the
    matrix (submission, eligibility, claim, start, the terminal outcomes,
    cancellation, replay), each with its preconditions on the session, the lease,
    the deadline, the budget and the failure class, and the bookkeeping writes
    (sessions, renewals, the outbox).  The instant of a decision is the one its
    rows record.  One row differs from the document, which knows no retry without
    a delay: a failure or timeout whose delay is zero is queued at once.  Every
    transition preserves the cross-table invariant and moves each job along an
    edge of the job state machine. *)

From S2P Require Import Prelude.
From S2P Require Import GoText.
From S2P Require Import Schema.
From S2P Require Import Lifecycle.
From S2P Require Import Outbox.
From S2P Require Import JobsStore.
From S2P Require Import WorkersStore.
From S2P Require Import WorkersOutcome.
From S2P Require Import Invariant.

(** ** The job state machine *)
Inductive edge : JobStatus → JobStatus → Prop :=
| e_eligible s : promotable s = true → edge s StatusQueued
| e_claim : edge StatusQueued StatusLeased
| e_start : edge StatusLeased StatusRunning
| e_success : edge StatusRunning StatusSucceeded
| e_retry s : Executing s = true → edge s StatusRetryWait
| e_requeue s : Executing s = true → edge s StatusQueued
| e_dead_letter s : Executing s = true → edge s StatusDeadLettered
| e_cancel s t : cancel_target s = Some t → edge s t
| e_canceled : edge StatusCancelRequested StatusCanceled.

Lemma terminal_no_edge s t : edge s t → Terminal s = false.
Proof.
  intros []; try done.
  all: match goal with s : JobStatus |- _ => destruct s; done end.
Qed.

(** ** The transitions *)

Definition new_event (d : DB) (jid : uuid) (gen : Z) (eid : uuid) (e : OutboxEvent) : Prop :=
  outbox_events d !! eid = None ∧ e_job_id e = Some jid ∧ e_generation e = Some gen.

(** A job row replaced by one of the same definition. *)
Record moves (d : DB) (id : uuid) (j j' : Job) : Prop := {
  mv_row : jobs d !! id = Some j;
  mv_def : job_def j' = job_def j;
  mv_ok : job_ok (queues d) (jobs d) id j';
}.

(** The active lease of a job ends, and its attempt with it. *)
Record closes (d : DB) (id : uuid) (j j' : Job) (aid : uuid) (a a' : Attempt)
    (lid : uuid) (l l' : Lease) : Prop := {
  cl_job : moves d id j j';
  cl_attempt : job_attempts d !! aid = Some a;
  cl_lease : leases d !! lid = Some l;
  cl_lease_job : l_job_id l = id;
  cl_lease_attempt : l_attempt_id l = aid;
  cl_active : is_active l = true;
  cl_ended : is_active l' = false;
  cl_adef : attempt_def a' = attempt_def a;
  cl_ldef : lease_def l' = lease_def l;
  cl_unique : lease_free (leases d) lid l';
  cl_acheck : attempt_check a' = true;
  cl_afree : attempt_free (job_attempts d) aid a';
  cl_lcheck : lease_check l' = true;
}.

(** The three rows written. *)
Definition write (d : DB) (id : uuid) (j' : Job) (aid : uuid) (a' : Attempt)
    (lid : uuid) (l' : Lease) : DB :=
  d <| jobs := <[id:=j']> (jobs d) |> <| job_attempts := <[aid:=a']> (job_attempts d) |>
    <| leases := <[lid:=l']> (leases d) |>.

Definition add_event (d : DB) (eid : uuid) (e : OutboxEvent) : DB :=
  d <| outbox_events := <[eid:=e]> (outbox_events d) |>.

Definition put_job (d : DB) (id : uuid) (j : Job) : DB := d <| jobs := <[id:=j]> (jobs d) |>.

(** The outcomes other than success and cancellation. *)
Definition failed_outcome (st : AttemptStatus) : bool :=
  match st with AttemptFailed | AttemptTimedOut | AttemptAbandoned => true | _ => false end.

(** The deadline had passed when the lease was released, and the lease had not lapsed before it. *)
Definition past_deadline (a : Attempt) (l : Lease) : bool :=
  match a_timeout_at a, l_released_at l with
  | Some t, Some r => (t <=? r)%Z && (t <=? l_expires_at l)%Z
  | _, _ => false
  end.
(** TIMED_OUT exactly past the deadline, ABANDONED otherwise. *)
Definition precedence (a : Attempt) (l : Lease) : bool :=
  match a_status a with
  | AttemptTimedOut => past_deadline a l
  | AttemptAbandoned => negb (past_deadline a l)
  | _ => true
  end.

(** ** The preconditions of the matrix *)

(** "Current healthy session": the session the lease was given to. *)
Definition healthy (d : DB) (l : Lease) : Prop :=
  ∃ s, worker_sessions d !! l_session_id l = Some s ∧ s_status s = SessionHealthy.

(** "Exact live fence, before the deadline", at the instant [t]. *)
Record authorized (d : DB) (a : Attempt) (l : Lease) (t : time) : Prop := {
  au_session : healthy d l;
  au_lease : (t < l_expires_at l)%Z;
  au_deadline : ∀ to, a_timeout_at a = Some to → (t < to)%Z;
}.

(** How an attempt fails at [t], and as which class: reported by its worker, by
    its deadline, or with its lease. *)
Inductive fails (d : DB) (a a' : Attempt) (l l' : Lease) (t : time) : FailureClass → Prop :=
| fails_reported class :
    authorized d a l t → a_status a = AttemptRunning → a_status a' = AttemptFailed →
    l_status l' = LeaseReleased → class = ClassRetryable ∨ class = ClassPermanent →
    fails d a a' l l' t class
| fails_timeout to :
    a_timeout_at a = Some to → is_Some (a_started_at a) → (to ≤ t)%Z → (to ≤ l_expires_at l)%Z →
    a_status a' = AttemptTimedOut →
    l_status l' = (if (t <? l_expires_at l)%Z then LeaseReleased else LeaseExpired) →
    fails d a a' l l' t ClassTimedOut
| fails_abandoned :
    (l_expires_at l ≤ t)%Z → (∀ to, a_timeout_at a = Some to → (t < to)%Z ∨ (l_expires_at l < to)%Z) →
    a_status a' = AttemptAbandoned → l_status l' = LeaseExpired →
    fails d a a' l l' t ClassAbandoned.

(** A failure, recorded. *)
Record finishes (d : DB) (a a' : Attempt) (l l' : Lease) (t : time) (class : FailureClass) : Prop := {
  fi_case : fails d a a' l l' t class;
  fi_class : a_failure_class a' = Some class;
  fi_finished : a_finished_at a' = Some t;
  fi_released : l_released_at l' = Some t;
  fi_deadline : a_timeout_at a' = a_timeout_at a;
  fi_expiry : l_expires_at l' = l_expires_at l;
}.

Lemma finishes_failed d a a' l l' t class :
  finishes d a a' l l' t class → failed_outcome (a_status a') = true.
Proof.
  intros [Hc _ _ _ _ _].
  destruct Hc as [? _ _ Hs|? _ _ _ _ Hs|_ _ Hs]; unfold failed_outcome; by rewrite Hs.
Qed.

Lemma finishes_precedence d a a' l l' t class :
  finishes d a a' l l' t class → precedence a' l' = true.
Proof.
  intros [Hc _ _ Hr Hd He]. unfold precedence, past_deadline. rewrite Hr, Hd, He.
  destruct Hc as [? _ _ Hs|to Hto _ Ht Hl Hs|_ Hno Hs]; rewrite Hs; [done| |].
  - rewrite Hto. apply andb_true_iff. by rewrite !Z.leb_le.
  - destruct (a_timeout_at a) as [to|]; [|done]. apply negb_true_iff, andb_false_iff.
    rewrite !Z.leb_gt. by apply Hno.
Qed.

(** What a claim requires of the session and of the queue. *)
Record admits (d : DB) (j : Job) (l : Lease) (row : Queue) (s : WorkerSession) : Prop := {
  ad_healthy : s_status s = SessionHealthy;
  ad_group : s_worker_group s = q_worker_group row;
  ad_limit : (Z.of_nat (map_count (active_for_worker (l_worker_id l)) (leases d)) < s_concurrency_limit s)%Z;
  ad_type : j_type j ∈ s_supported_job_types s;
  ad_capabilities : Forall (λ c, c ∈ s_capabilities s) (j_required_capabilities j);
}.

Inductive transition (d : DB) : DB → Prop :=
| t_accept id j eid e :
    jobs d !! id = None → job_ok (queues d) (jobs d) id j → j_status j = StatusQueued →
    j_notification_generation j = 1%Z → new_event d id 1 eid e →
    transition d (add_event (put_job d id j) eid e)
| t_delay id j :
    jobs d !! id = None → job_ok (queues d) (jobs d) id j → j_status j = StatusPending →
    j_notification_generation j = 0%Z → j_scheduled_at j = Some (j_available_at j) →
    transition d (put_job d id j)
| t_idempotency scope key i j :
    jobs d !! i_job_id i = Some j → j_scope j = scope →
    idempotency_records d !! (scope, key) = None →
    transition d (d <| idempotency_records := <[(scope, key):=i]> (idempotency_records d) |>)
| t_replay scope original key r j jo :
    jobs d !! r_replacement_job_id r = Some j → j_replayed_from j = Some original →
    j_scope j = scope → jobs d !! original = Some jo → j_status jo = StatusDeadLettered →
    j_scope jo = scope → dlq_replays d !! (scope, original, key) = None →
    (∃ k e, dlq_entries d !! k = Some e ∧ d_job_id e = original) →
    transition d (d <| dlq_replays := <[(scope, original, key):=r]> (dlq_replays d) |>)
| t_eligible id j j' eid e :
    moves d id j j' → promotable (j_status j) = true → j_status j' = StatusQueued →
    j_notification_generation j' = (j_notification_generation j + 1)%Z →
    new_event d id (j_notification_generation j') eid e →
    (j_available_at j ≤ j_updated_at j')%Z →
    transition d (add_event (put_job d id j') eid e)
| t_renotify id j j' eid e :
    moves d id j j' → j_status j = StatusQueued → j_status j' = StatusQueued →
    j_notification_generation j' = j_notification_generation j →
    new_event d id (j_notification_generation j) eid e →
    map_any (pending_for id (j_notification_generation j)) (outbox_events d) = false →
    transition d (add_event (put_job d id j') eid e)
| t_cancel id j j' :
    moves d id j j' → cancel_target (j_status j) = Some (j_status j') →
    j_notification_generation j' = j_notification_generation j →
    j_cancel_requested_at j' = Some (j_updated_at j') →
    transition d (put_job d id j')
| t_claim id j j' aid a lid l row s :
    moves d id j j' → j_status j = StatusQueued → j_status j' = StatusLeased →
    j_notification_generation j' = j_notification_generation j →
    job_attempts d !! aid = None → leases d !! lid = None →
    lease_free (leases d) lid l → is_active l = true → l_job_id l = id →
    l_attempt_id l = aid → bound j' a l → a_status a = AttemptLeased →
    attempt_ok (jobs d) (worker_sessions d) a → attempt_free (job_attempts d) aid a →
    lease_check l = true → a_number a = next_attempt_number d id → queues d !! l_queue l = Some row →
    (Z.of_nat (map_count (active_for_queue (l_queue l)) (leases d)) < q_max_concurrency row)%Z →
    worker_sessions d !! l_session_id l = Some s → admits d j l row s →
    (attempt_count d id < j_max_attempts j)%Z →
    transition d (write d id j' aid a lid l)
| t_start id j j' aid a a' lid l t :
    moves d id j j' → job_attempts d !! aid = Some a → leases d !! lid = Some l →
    l_job_id l = id → l_attempt_id l = aid → is_active l = true →
    attempt_def a' = attempt_def a → attempt_check a' = true →
    attempt_free (job_attempts d) aid a' → a_status a = AttemptLeased →
    a_status a' = AttemptRunning → j_status j = StatusLeased → j_status j' = StatusRunning →
    j_notification_generation j' = j_notification_generation j →
    healthy d l → (t < l_expires_at l)%Z → a_started_at a' = Some t →
    a_timeout_at a' = Some (t + j_timeout_seconds j * Second)%Z →
    transition d ((put_job d id j') <| job_attempts := <[aid:=a']> (job_attempts d) |>)
| t_succeed id j j' aid a a' lid l l' rs t :
    closes d id j j' aid a a' lid l l' →
    j_status j = StatusRunning → j_status j' = StatusSucceeded →
    a_status a = AttemptRunning → a_status a' = AttemptSucceeded →
    l_status l' = LeaseCompleted →
    j_notification_generation j' = j_notification_generation j →
    (rs = results d ∨ ∃ r, results d !! id = None ∧ rs_attempt_id r = aid ∧
      rs_scope r = j_scope j ∧ rs = <[id:=r]> (results d)) →
    authorized d a l t → a_finished_at a' = Some t → l_released_at l' = Some t →
    transition d ((write d id j' aid a' lid l') <| results := rs |>)
| t_retry id j j' aid a a' lid l l' t class ms :
    closes d id j j' aid a a' lid l l' → Executing (j_status j) = true →
    j_status j' = StatusRetryWait → finishes d a a' l l' t class →
    (a_number a < j_max_attempts j)%Z →
    j_notification_generation j' = j_notification_generation j →
    class = ClassRetryable ∨ class = ClassTimedOut →
    a_retry_delay_ms a' = Some ms → (0 < ms)%Z →
    a_retry_at a' = Some (timestamptz (t + ms * Millisecond)) → a_retry_at a' = Some (j_available_at j') →
    transition d (write d id j' aid a' lid l')
| t_requeue id j j' aid a a' lid l l' eid e t class :
    closes d id j j' aid a a' lid l l' → Executing (j_status j) = true →
    j_status j' = StatusQueued → finishes d a a' l l' t class →
    (a_number a < j_max_attempts j)%Z →
    j_notification_generation j' = (j_notification_generation j + 1)%Z →
    new_event d id (j_notification_generation j') eid e →
    class ≠ ClassPermanent → a_retry_delay_ms a' = Some 0%Z → j_available_at j' = t →
    transition d (add_event (write d id j' aid a' lid l') eid e)
| t_dead_letter id j j' aid a a' lid l l' eid e t class :
    closes d id j j' aid a a' lid l l' → Executing (j_status j) = true →
    j_status j' = StatusDeadLettered → finishes d a a' l l' t class →
    j_notification_generation j' = j_notification_generation j →
    dlq_entries d !! eid = None → d_job_id e = id → d_terminal_attempt_id e = Some aid →
    (class = ClassPermanent ∧ d_reason e = ReasonPermanentFailure) ∨
      (class ≠ ClassPermanent ∧ (j_max_attempts j ≤ a_number a)%Z ∧ d_reason e = ReasonAttemptsExhausted) →
    a_retry_delay_ms a' = None →
    transition d ((write d id j' aid a' lid l') <| dlq_entries := <[eid:=e]> (dlq_entries d) |>)
| t_canceled id j j' aid a a' lid l l' t :
    closes d id j j' aid a a' lid l l' → j_status j = StatusCancelRequested →
    j_status j' = StatusCanceled → a_status a' = AttemptCanceled →
    j_notification_generation j' = j_notification_generation j →
    a_finished_at a' = Some t → l_released_at l' = Some t →
    (healthy d l ∧ (t < l_expires_at l)%Z ∧ l_status l' = LeaseReleased) ∨
      ((l_expires_at l ≤ t)%Z ∧ l_status l' = LeaseExpired) →
    transition d (write d id j' aid a' lid l')
| t_renew lid l l' j a :
    leases d !! lid = Some l → is_active l = true → is_active l' = true →
    lease_def l' = lease_def l → lease_free (leases d) lid l' → lease_check l' = true →
    jobs d !! l_job_id l = Some j → Executing (j_status j) = true →
    job_attempts d !! l_attempt_id l = Some a → authorized d a l (l_renewed_at l') →
    l_renewal_version l' = (l_renewal_version l + 1)%Z →
    transition d (d <| leases := <[lid:=l']> (leases d) |>)
| t_worker wid w :
    (∀ w0, workers d !! wid = Some w0 → wk_scope w = wk_scope w0) →
    transition d (d <| workers := <[wid:=w]> (workers d) |>)
| t_session sid s :
    session_constraints d sid s = None →
    (∀ s0, worker_sessions d !! sid = Some s0 → session_def s = session_def s0 ∧
      (isCurrentSessionStatus (s_status s0) = true ∨ s = s0)) →
    transition d (d <| worker_sessions := <[sid:=s]> (worker_sessions d) |>)
| t_event eid e e' :
    outbox_events d !! eid = Some e → e_status e = EventPending → event_def e' = event_def e →
    transition d (d <| outbox_events := <[eid:=e']> (outbox_events d) |>).

(** ** Every transition moves each job along an edge *)

(** A job that exists stays, keeps its definition, and its status stays or
    follows an edge. *)
Definition follows (d d' : DB) : Prop :=
  ∀ id j, jobs d !! id = Some j → ∃ j', jobs d' !! id = Some j' ∧
    job_def j' = job_def j ∧ rtc edge (j_status j) (j_status j').

#[export] Instance follows_preorder : PreOrder follows.
Proof.
  split.
  - intros d id j Hj. eauto using rtc_refl.
  - intros d1 d2 d3 H12 H23 id j Hj.
    destruct (H12 id j Hj) as (j2 & Hj2 & Hd2 & He2).
    destruct (H23 id j2 Hj2) as (j3 & Hj3 & Hd3 & He3).
    exists j3. split_and!; [done|congruence|by etrans].
Qed.

Lemma follows_new d d' id j :
  jobs d' = <[id:=j]> (jobs d) → jobs d !! id = None → follows d d'.
Proof. intros Heq Hn k jk Hk. exists jk. rewrite Heq. lk. auto using rtc_refl. Qed.

Lemma follows_move d d' id j j' :
  moves d id j j' → jobs d' = <[id:=j']> (jobs d) → rtc edge (j_status j) (j_status j') →
  follows d d'.
Proof.
  intros [Hj Hd _] Heq He k jk Hk. rewrite Heq.
  destruct (decide (id = k)) as [->|Hne]; [|exists jk; lk; auto using rtc_refl].
  rewrite Hj in Hk. injection Hk as <-. exists j'. by lk.
Qed.

Lemma follows_same d d' : jobs d' = jobs d → follows d d'.
Proof. intros Heq id j Hj. exists j. rewrite Heq. auto using rtc_refl. Qed.

(** Close a [follows] goal for a transition that moves one job. *)
Ltac follow_edge :=
  match goal with
  | H : closes _ _ _ _ _ _ _ _ _ _ |- _ => pose proof (cl_job _ _ _ _ _ _ _ _ _ _ H)
  | _ => idtac
  end;
  eapply follows_move; [eassumption|reflexivity|];
  first [ by congruence
        | match goal with H1 : j_status ?j = _, H2 : j_status _ = _ |- _ =>
            rewrite H1, H2; (reflexivity || (apply rtc_once; constructor; done)) end
        | match goal with H2 : j_status ?j' = _ |- rtc _ _ (j_status ?j') =>
            rewrite H2; apply rtc_once; constructor; done end
        | apply rtc_once; constructor; done ].

Theorem transition_follows d d' : transition d d' → follows d d'.
Proof.
  destruct 1; try (by apply follows_same); try (by eapply follows_new); follow_edge.
Qed.

(** ** Every transition preserves the invariant *)

(** What the invariant says of a lease being closed. *)
Lemma closes_inv d id j j' aid a a' lid l l' :
  Inv d → closes d id j j' aid a a' lid l l' →
  a_job_id a = id ∧ a_number a = number_of_attempts (job_attempts d) id ∧
  live (j_status j) (a_status a) = true ∧ l_queue l' = l_queue l ∧ j_scope j = l_scope l.
Proof.
  intros Hi [[Hj _ _] Ha Hl Hlj Hla Hact _ _ Hld _ _ _ _].
  destruct (li_lease _ _ _ (inv_leases _ Hi) lid l Hl) as (a0 & j0 & Ha0 & Hj0 & Hb & Hif).
  rewrite Hla, Hlj in *. rewrite Hact in Hif. destruct Hif as [Hlive Hn].
  rewrite Ha in Ha0. injection Ha0 as <-. rewrite Hj in Hj0. injection Hj0 as <-.
  apply lease_def_fields in Hld as (_ & _ & _ & Hq & _).
  unfold bound in Hb. destruct_and!. split_and!; congruence.
Qed.

Lemma live_not_succeeded js st :
  live js st = true → js ≠ StatusSucceeded ∧ js ≠ StatusDeadLettered ∧
  js ≠ StatusPending ∧ js ≠ StatusCanceled ∧ st ≠ AttemptSucceeded ∧
  holds_lease js = true.
Proof. destruct js, st; naive_solver. Qed.

(** The rows of a job, its attempt and its lease, replaced. *)
Lemma rows_inv_move qs js ats ls ss id j j' :
  rows_inv qs js ats ls ss → js !! id = Some j → job_def j' = job_def j →
  job_ok qs js id j' → rows_inv qs (<[id:=j']> js) ats ls ss.
Proof.
  intros Hr Hj (? & ? & _)%job_def_fields Hok. apply rows_inv_job; [done..|].
  intros j0 Hj0. split; congruence.
Qed.

Lemma rows_inv_write qs js ats ls ss id j j' aid a a' lid l' :
  rows_inv qs js ats ls ss → js !! id = Some j → job_def j' = job_def j →
  job_ok qs js id j' → ats !! aid = Some a → attempt_def a' = attempt_def a →
  attempt_check a' = true → attempt_free ats aid a' → lease_check l' = true →
  rows_inv qs (<[id:=j']> js) (<[aid:=a']> ats) (<[lid:=l']> ls) ss.
Proof.
  intros Hr Hj Hd Hok Ha Had Hac Haf Hlc. apply rows_inv_lease; [|done].
  assert (rows_inv qs (<[id:=j']> js) ats ls ss) as Hr' by by eapply rows_inv_move.
  apply rows_inv_attempt; [done| |done]. eapply attempt_ok_update; [|done..].
  by eapply (ro_attempt _ _ _ _ _ Hr').
Qed.

(** The tables every close writes. *)
Lemma closes_tables d id j j' aid a a' lid l l' :
  Inv d → closes d id j j' aid a a' lid l l' →
  isExecutingAttemptStatus (a_status a') = false → holds_lease (j_status j') = false →
  (a_status a' = AttemptSucceeded ↔ j_status j' = StatusSucceeded) →
  (waiting (j_status j') = true → a_number a < j_max_attempts j)%Z →
  rows_inv (queues d) (<[id:=j']> (jobs d)) (<[aid:=a']> (job_attempts d))
    (<[lid:=l']> (leases d)) (worker_sessions d) ∧
  lease_inv (<[id:=j']> (jobs d)) (<[aid:=a']> (job_attempts d)) (<[lid:=l']> (leases d)) ∧
  attempt_inv (<[id:=j']> (jobs d)) (<[aid:=a']> (job_attempts d)) ∧
  result_inv (<[id:=j']> (jobs d)) (<[aid:=a']> (job_attempts d)) (results d) ∧
  capacity_inv (queues d) (<[lid:=l']> (leases d)) ∧
  request_inv (<[id:=j']> (jobs d)) (idempotency_records d) (dlq_replays d).
Proof.
  intros Hi Hc He Hh Hss Hw. pose proof (closes_inv _ _ _ _ _ _ _ _ _ _ Hi Hc)
    as (Haj & Hn & Hlive & Hq & Hscope).
  apply live_not_succeeded in Hlive as (? & ? & ? & ? & ? & ?).
  destruct Hc as [[Hj Hd Hck] Ha Hl Hlj Hla Hact Hend Had Hld Hu Hac Haf Hlc]. split_and!.
  - by eapply rows_inv_write; [apply inv_rows|..].
  - eapply lease_inv_triple; eauto; [by apply inv_leases|]. by rewrite Hend.
  - eapply attempt_inv_pair; eauto. by apply inv_attempts.
  - apply result_inv_job; [|congruence].
    apply result_inv_attempt; [by apply inv_results|congruence].
  - eapply capacity_inv_update; [by apply inv_capacity|done..|congruence].
  - eapply request_inv_job; [by apply inv_requests|done..|congruence].
Qed.

(** A close that keeps the job's generation keeps its events; one that does not
    dead-letter keeps the entries. *)
Lemma closes_events d id j j' aid a a' lid l l' :
  Inv d → closes d id j j' aid a a' lid l l' →
  j_notification_generation j' = j_notification_generation j →
  j_status j' ≠ StatusPending → event_inv (<[id:=j']> (jobs d)) (outbox_events d).
Proof.
  intros Hi Hc Hg Hp. pose proof (closes_inv _ _ _ _ _ _ _ _ _ _ Hi Hc) as (_ & _ & Hlive & _).
  apply live_not_succeeded in Hlive as (? & ? & ? & ? & ? & ?).
  destruct Hc as [[Hj Hd Hck] _ _ _ _ _ _ _ _ _ _ _ _].
  eapply event_inv_same; eauto; [by apply inv_events|done..].
Qed.

Lemma closes_dlq d id j j' aid a a' lid l l' :
  Inv d → closes d id j j' aid a a' lid l l' →
  j_status j' ≠ StatusDeadLettered → dlq_inv (<[id:=j']> (jobs d)) (dlq_entries d).
Proof.
  intros Hi Hc Hp. pose proof (closes_inv _ _ _ _ _ _ _ _ _ _ Hi Hc) as (_ & _ & Hlive & _).
  apply live_not_succeeded in Hlive as (? & ? & ? & ? & ? & ?).
  destruct Hc as [[Hj Hd Hck] _ _ _ _ _ _ _ _ _ _ _ _].
  apply dlq_inv_job; [by apply inv_dlq|congruence|done].
Qed.

(** The statuses of the failed outcomes. *)
Lemma failed_outcome_status st :
  failed_outcome st = true → isExecutingAttemptStatus st = false ∧ st ≠ AttemptSucceeded.
Proof. by destruct st. Qed.

(** A write to one job that no worker holds, with or without a new event. *)
Lemma moves_tables d id j j' es :
  Inv d → moves d id j j' →
  (holds_lease (j_status j') = true → holds_lease (j_status j) = true) →
  (∀ st, live (j_status j) st = true → live (j_status j') st = true) →
  (waiting (j_status j') = true → waiting (j_status j) = true) →
  j_status j' ≠ StatusSucceeded → j_status j ≠ StatusSucceeded →
  j_status j' ≠ StatusDeadLettered → j_status j ≠ StatusDeadLettered →
  event_inv (<[id:=j']> (jobs d)) es →
  Inv ((put_job d id j') <| outbox_events := es |>).
Proof.
  intros Hi [Hj Hd Hck] Hh Hlive Hw ? ? ? ? Hev. split; simpl.
  - by eapply rows_inv_move; [apply inv_rows|..].
  - eapply lease_inv_job; eauto. by apply inv_leases.
  - eapply attempt_inv_job; eauto; [by apply inv_attempts| |naive_solver].
    intros Hw'. apply (ai_budget _ _ (inv_attempts _ Hi) id j Hj). auto.
  - done.
  - apply dlq_inv_job; [by apply inv_dlq|congruence|done].
  - apply result_inv_job; [by apply inv_results|congruence].
  - by apply inv_capacity.
  - by apply inv_sessions.
  - eapply request_inv_job; [by apply inv_requests|done..|congruence].
Qed.

(** A new job. *)
Lemma new_job_tables d id j es :
  Inv d → jobs d !! id = None → job_ok (queues d) (jobs d) id j →
  j_status j = StatusQueued ∨ j_status j = StatusPending →
  event_inv (<[id:=j]> (jobs d)) es →
  Inv ((put_job d id j) <| outbox_events := es |>).
Proof.
  intros Hi Hn Hck Hs Hev.
  assert (1 ≤ j_max_attempts j)%Z as Hmax
    by (destruct Hck as [Hck _]; unfold job_check in Hck; bools; lia).
  split; simpl.
  - apply rows_inv_job; [by apply inv_rows|done|congruence].
  - apply lease_inv_new_job; [by apply inv_leases|done|]. by destruct Hs as [-> | ->].
  - apply attempt_inv_new_job; [by apply inv_attempts|done| |done]. destruct Hs; congruence.
  - done.
  - apply dlq_inv_job; [by apply inv_dlq|congruence|]. destruct Hs; congruence.
  - apply result_inv_job; [by apply inv_results|congruence].
  - by apply inv_capacity.
  - by apply inv_sessions.
  - apply request_inv_new; [by apply inv_requests|done].
Qed.

Lemma event_inv_new_job d id j :
  Inv d → jobs d !! id = None → j_status j = StatusPending →
  j_notification_generation j = 0%Z → event_inv (<[id:=j]> (jobs d)) (outbox_events d).
Proof. intros Hi Hn Hs Hg. apply event_inv_job; [by apply inv_events|..]; try congruence; lia. Qed.

Lemma event_inv_accept d id j eid e :
  Inv d → jobs d !! id = None → j_status j = StatusQueued →
  j_notification_generation j = 1%Z → new_event d id 1 eid e →
  event_inv (<[id:=j]> (jobs d)) (<[eid:=e]> (outbox_events d)).
Proof.
  intros Hi Hn Hs Hg (He & Hid & Hgen).
  apply event_inv_job; [by apply event_inv_grow; [|apply inv_events]|lia|congruence|lia|].
  intros g Hb. assert (g = 1%Z) as -> by lia. exists eid, e. by lk.
Qed.

Lemma inv_accept d id j eid e :
  Inv d → jobs d !! id = None → job_ok (queues d) (jobs d) id j → j_status j = StatusQueued →
  j_notification_generation j = 1%Z → new_event d id 1 eid e →
  Inv (add_event (put_job d id j) eid e).
Proof.
  intros. apply (new_job_tables _ _ _ (<[eid:=e]> (outbox_events d))); [done..|by left|].
  by apply event_inv_accept.
Qed.

Lemma inv_moves_next d id j j' eid e :
  Inv d → moves d id j j' → promotable (j_status j) = true → j_status j' = StatusQueued →
  j_notification_generation j' = (j_notification_generation j + 1)%Z →
  new_event d id (j_notification_generation j') eid e →
  Inv (add_event (put_job d id j') eid e).
Proof.
  intros Hi Hm Hp Hs Hg (He & Hid & Hgen).
  assert (j_status j = StatusPending ∨ j_status j = StatusRetryWait) as Hj
    by (unfold promotable in Hp; destruct (j_status j); try done; auto).
  eapply (moves_tables _ _ j _ (<[eid:=e]> (outbox_events d))); rewrite ?Hs;
    try done; try (destruct Hj as [Hj|Hj]; rewrite Hj; (done || by intros [])).
  destruct Hm as [Hrow _ _]. eapply event_inv_next; eauto; [by apply inv_events|congruence].
Qed.

Lemma inv_renotify d id j j' eid e :
  Inv d → moves d id j j' → j_status j = StatusQueued → j_status j' = StatusQueued →
  j_notification_generation j' = j_notification_generation j →
  new_event d id (j_notification_generation j) eid e →
  Inv (add_event (put_job d id j') eid e).
Proof.
  intros Hi Hm Hs Hs' Hg (He & Hid & Hgen).
  eapply (moves_tables _ _ j _ (<[eid:=e]> (outbox_events d))); rewrite ?Hs, ?Hs'; try done.
  apply event_inv_grow; [done|]. destruct Hm as [Hrow _ _].
  eapply event_inv_same; [by apply inv_events|done|done|congruence..].
Qed.

Lemma inv_cancel d id j j' :
  Inv d → moves d id j j' → cancel_target (j_status j) = Some (j_status j') →
  j_notification_generation j' = j_notification_generation j → Inv (put_job d id j').
Proof.
  intros Hi Hm Ht Hg. eapply (moves_tables _ _ j _ (outbox_events d)); try done.
  1-7: destruct (j_status j), (j_status j'); simplify_eq/=; try done; intros []; done.
  destruct Hm as [Hrow _ _].
  eapply event_inv_same; eauto; [by apply inv_events|..];
    destruct (j_status j), (j_status j'); simplify_eq/=; done.
Qed.

Lemma inv_claim d id j j' aid a lid l row :
  Inv d → moves d id j j' → j_status j = StatusQueued → j_status j' = StatusLeased →
  j_notification_generation j' = j_notification_generation j →
  job_attempts d !! aid = None → leases d !! lid = None →
  lease_free (leases d) lid l → is_active l = true → l_job_id l = id →
  l_attempt_id l = aid → bound j' a l → a_status a = AttemptLeased →
  attempt_ok (jobs d) (worker_sessions d) a → attempt_free (job_attempts d) aid a →
  lease_check l = true → a_number a = next_attempt_number d id → queues d !! l_queue l = Some row →
  (Z.of_nat (map_count (active_for_queue (l_queue l)) (leases d)) < q_max_concurrency row)%Z →
  Inv (write d id j' aid a lid l).
Proof.
  intros Hi [Hj Hd Hck] Hs Hs' Hg Ha Hl Hlc Hact Hlj Hla Hb Has Hao Haf Hlck Hn Hq Hcap.
  rewrite (next_number _ _ _ (inv_attempts _ Hi)) in Hn. split; simpl.
  - apply rows_inv_lease; [|done].
    assert (rows_inv (queues d) (<[id:=j']> (jobs d)) (job_attempts d) (leases d)
      (worker_sessions d)) as Hrows by (by eapply rows_inv_move; [apply inv_rows|..]).
    apply rows_inv_attempt; [done| |done]. destruct Hao as (Hac & (j0 & Hj0 & ? & ?) & Hse).
    split_and!; [done| |done]. apply job_def_fields in Hd as (? & ? & _).
    destruct Hb as (Haj & _). exists j'. rewrite Haj, Hlj in *. lk. split_and!; congruence.
  - eapply lease_inv_claim; eauto; [by apply inv_leases|by apply inv_attempts].
  - eapply attempt_inv_claim; eauto; rewrite ?Hs', ?Has; try done; [by apply inv_attempts|].
    unfold bound in Hb. destruct_and!. congruence.
  - eapply event_inv_same; [by apply inv_events|done|done|congruence..].
  - apply dlq_inv_job; [by apply inv_dlq|congruence|congruence].
  - apply result_inv_job; [|congruence].
    apply result_inv_attempt; [by apply inv_results|congruence].
  - eapply capacity_inv_insert; eauto. by apply inv_capacity.
  - by apply inv_sessions.
  - eapply request_inv_job; [by apply inv_requests|done..|congruence].
Qed.

Lemma inv_start d id j j' aid a a' lid l :
  Inv d → moves d id j j' → job_attempts d !! aid = Some a → leases d !! lid = Some l →
  l_job_id l = id → l_attempt_id l = aid → is_active l = true →
  attempt_def a' = attempt_def a → attempt_check a' = true →
  attempt_free (job_attempts d) aid a' → a_status a = AttemptLeased →
  a_status a' = AttemptRunning → j_status j = StatusLeased → j_status j' = StatusRunning →
  j_notification_generation j' = j_notification_generation j →
  Inv ((put_job d id j') <| job_attempts := <[aid:=a']> (job_attempts d) |>).
Proof.
  intros Hi [Hj Hd Hck] Ha Hl Hlj Hla Hact Had Hac Haf Has Has' Hs Hs' Hg.
  destruct (li_lease _ _ _ (inv_leases _ Hi) lid l Hl) as (a0 & j0 & Ha0 & Hj0 & Hb & Hif).
  rewrite Hla in Ha0. rewrite Hlj, Hact in Hif. destruct Hif as [_ Hn].
  rewrite Ha in Ha0. injection Ha0 as <-. split; simpl.
  - rewrite <-(insert_id (leases d) lid l) by done.
    eapply rows_inv_write; [by apply inv_rows|done..|].
    by eapply (ro_lease _ _ _ _ _ (inv_rows _ Hi)).
  - rewrite <-(insert_id (leases d) lid l) by done.
    eapply lease_inv_triple; [by apply inv_leases|done..|by left|].
    by rewrite Hact, Hs', Has'.
  - eapply attempt_inv_pair; [by apply inv_attempts|done|done| |done..| | | |];
      rewrite ?Hs, ?Hs', ?Has, ?Has'; try done. destruct Hb. congruence.
  - eapply event_inv_same; [by apply inv_events|done|done|congruence..].
  - apply dlq_inv_job; [by apply inv_dlq|congruence|congruence].
  - apply result_inv_job; [|congruence].
    apply result_inv_attempt; [by apply inv_results|congruence].
  - by apply inv_capacity.
  - by apply inv_sessions.
  - eapply request_inv_job; [by apply inv_requests|done..|congruence].
Qed.

Lemma inv_succeed d id j j' aid a a' lid l l' rs :
  Inv d → closes d id j j' aid a a' lid l l' →
  j_status j' = StatusSucceeded → a_status a' = AttemptSucceeded →
  j_notification_generation j' = j_notification_generation j →
  (rs = results d ∨ ∃ r, results d !! id = None ∧ rs_attempt_id r = aid ∧
    rs_scope r = j_scope j ∧ rs = <[id:=r]> (results d)) →
  Inv ((write d id j' aid a' lid l') <| results := rs |>).
Proof.
  intros Hi Hc Hs Hs' Hg Hr.
  destruct (closes_tables _ _ _ _ _ _ _ _ _ _ Hi Hc) as (? & ? & ? & Hres & ? & ?);
    rewrite ?Hs, ?Hs'; try done.
  pose proof (closes_inv _ _ _ _ _ _ _ _ _ _ Hi Hc) as (Haj & _).
  split; simpl; try done.
  - eapply closes_events; eauto. congruence.
  - eapply closes_dlq; eauto. congruence.
  - destruct Hr as [-> | (r & Hn & Hra & Hrs & ->)]; [done|].
    destruct (job_def_fields _ _ (mv_def _ _ _ _ (cl_job _ _ _ _ _ _ _ _ _ _ Hc))) as (Hsc & _).
    destruct (attempt_def_fields _ _ (cl_adef _ _ _ _ _ _ _ _ _ _ Hc)) as (Hja & _).
    apply (result_inv_new _ _ _ _ j' a'); [done|done|by lk|done|congruence| |congruence|done].
    rewrite Hra. by lk.
  - by apply inv_sessions.
Qed.

Lemma inv_fail d id j j' aid a a' lid l l' es ds :
  Inv d → closes d id j j' aid a a' lid l l' → failed_outcome (a_status a') = true →
  holds_lease (j_status j') = false → j_status j' ≠ StatusSucceeded →
  (waiting (j_status j') = true → a_number a < j_max_attempts j)%Z →
  event_inv (<[id:=j']> (jobs d)) es → dlq_inv (<[id:=j']> (jobs d)) ds →
  Inv ((write d id j' aid a' lid l') <| outbox_events := es |> <| dlq_entries := ds |>).
Proof.
  intros Hi Hc Hf Hh Hs Hw He Hd. apply failed_outcome_status in Hf as [Hf1 Hf2].
  destruct (closes_tables _ _ _ _ _ _ _ _ _ _ Hi Hc) as (? & ? & ? & ? & ? & ?);
    [done|done|naive_solver|done|].
  split; simpl; try done. by apply inv_sessions.
Qed.

Lemma inv_retry d id j j' aid a a' lid l l' :
  Inv d → closes d id j j' aid a a' lid l l' → j_status j' = StatusRetryWait →
  failed_outcome (a_status a') = true → (a_number a < j_max_attempts j)%Z →
  j_notification_generation j' = j_notification_generation j →
  Inv (write d id j' aid a' lid l').
Proof.
  intros Hi Hc Hs Hf Hn Hg.
  apply (inv_fail d id j j' aid a a' lid l l' (outbox_events d) (dlq_entries d));
    rewrite ?Hs; try done.
  - eapply closes_events; eauto; congruence.
  - eapply closes_dlq; eauto; congruence.
Qed.

Lemma inv_requeue d id j j' aid a a' lid l l' eid e :
  Inv d → closes d id j j' aid a a' lid l l' → j_status j' = StatusQueued →
  failed_outcome (a_status a') = true → (a_number a < j_max_attempts j)%Z →
  j_notification_generation j' = (j_notification_generation j + 1)%Z →
  new_event d id (j_notification_generation j') eid e →
  Inv (add_event (write d id j' aid a' lid l') eid e).
Proof.
  intros Hi Hc Hs Hf Hn Hg (He & Hid & Hgen).
  change (add_event (write d id j' aid a' lid l') eid e) with
    ((write d id j' aid a' lid l') <| outbox_events := <[eid:=e]> (outbox_events d) |>
       <| dlq_entries := dlq_entries d |>).
  eapply inv_fail; eauto; rewrite ?Hs; try done.
  - eapply event_inv_next; eauto; [by apply inv_events|by apply Hc|congruence].
  - eapply closes_dlq; eauto; congruence.
Qed.

Lemma inv_dead_letter d id j j' aid a a' lid l l' eid e :
  Inv d → closes d id j j' aid a a' lid l l' → j_status j' = StatusDeadLettered →
  failed_outcome (a_status a') = true →
  j_notification_generation j' = j_notification_generation j →
  dlq_entries d !! eid = None → d_job_id e = id →
  Inv ((write d id j' aid a' lid l') <| dlq_entries := <[eid:=e]> (dlq_entries d) |>).
Proof.
  intros Hi Hc Hs Hf Hg Hn Hid.
  apply (inv_fail d id j j' aid a a' lid l l' (outbox_events d) (<[eid:=e]> (dlq_entries d)));
    rewrite ?Hs; try done.
  - eapply closes_events; eauto; congruence.
  - pose proof (closes_inv _ _ _ _ _ _ _ _ _ _ Hi Hc) as (_ & _ & Hl & _).
    apply live_not_succeeded in Hl as (_ & Hl & _).
    eapply dlq_inv_dead; eauto; [by apply inv_dlq|by apply Hc].
Qed.

Lemma inv_canceled d id j j' aid a a' lid l l' :
  Inv d → closes d id j j' aid a a' lid l l' → j_status j' = StatusCanceled →
  a_status a' = AttemptCanceled →
  j_notification_generation j' = j_notification_generation j →
  Inv (write d id j' aid a' lid l').
Proof.
  intros Hi Hc Hs Ha Hg.
  destruct (closes_tables _ _ _ _ _ _ _ _ _ _ Hi Hc) as (? & ? & ? & ? & ? & ?);
    rewrite ?Hs, ?Ha; try done.
  split; simpl; try done; [eapply closes_events|eapply closes_dlq|by apply inv_sessions];
    eauto; congruence.
Qed.

Lemma inv_renew d lid l l' :
  Inv d → leases d !! lid = Some l → is_active l = true → is_active l' = true →
  lease_def l' = lease_def l → lease_free (leases d) lid l' → lease_check l' = true →
  Inv (d <| leases := <[lid:=l']> (leases d) |>).
Proof.
  intros [Hr Hl Ha He Hd Hrs Hc Hs Hq] Hlid Hact Hact' Hdef Hcon Hck. split; simpl; try done.
  - by apply rows_inv_lease.
  - destruct (li_lease _ _ _ Hl lid l Hlid) as (a & j & Haid & Hj & _ & Hif).
    rewrite <-(insert_id (jobs d) _ _ Hj), <-(insert_id (job_attempts d) _ _ Haid).
    eapply lease_inv_triple; eauto. rewrite Hact'. rewrite Hact in Hif. apply Hif.
  - apply lease_def_fields in Hdef as (_ & _ & _ & Hlq & _). eapply capacity_inv_update; eauto.
Qed.

Lemma inv_event d eid e e' :
  Inv d → outbox_events d !! eid = Some e → event_def e' = event_def e →
  Inv (d <| outbox_events := <[eid:=e']> (outbox_events d) |>).
Proof.
  intros [Hr Hl Ha He Hd Hrs Hc Hs Hq] Heid Hdef.
  assert (e_job_id e' = e_job_id e ∧ e_generation e' = e_generation e) as [Hj Hg]
    by (unfold event_def in Hdef; by simplify_eq).
  split; simpl; try done.
  intros jid j Hjid. destruct (He jid j Hjid) as (? & ? & ? & Hev). repeat split; try done.
  intros g Hb. destruct (Hev g Hb) as (k & e0 & Hk & ? & ?).
  destruct (decide (eid = k)) as [->|]; [exists k, e'|exists k, e0]; lk; [|done].
  rewrite Heid in Hk. injection Hk as <-. split_and!; congruence.
Qed.

(** The invariant is inductive. *)
Theorem transition_inv d d' : transition d d' → Inv d → Inv d'.
Proof.
  intros Ht Hi. destruct Ht;
    [ by eapply inv_accept
    | apply (new_job_tables _ _ _ (outbox_events d)); [done..|by right|by apply event_inv_new_job]
    | destruct Hi; split; simpl; try done; by eapply request_inv_idem
    | destruct Hi; split; simpl; try done; by eapply request_inv_replay
    | by eapply inv_moves_next | by eapply inv_renotify | by eapply inv_cancel
    | by eapply inv_claim | by eapply inv_start | by eapply inv_succeed
    | eapply inv_retry; by eauto using finishes_failed
    | eapply inv_requeue; by eauto using finishes_failed
    | eapply inv_dead_letter; by eauto using finishes_failed
    | by eapply inv_canceled | by eapply inv_renew
    | destruct Hi; by split
    | destruct Hi; split; simpl; try done;
        [apply rows_inv_session; [done|naive_solver]|by apply session_inv_put]
    | by eapply inv_event ].
Qed.
