(* ===== verification/Refinement.v ===== *)
(** * Every operation implements the transition matrix

    For each operation of the job and worker stores and of the outbox: whatever
    it returns, the database it leaves is the one it found, or is reached from it
    by the transitions of the matrix. *)

From S2P Require Import Prelude.
From S2P Require Import GoText.
From S2P Require Import GoFloat.
From S2P Require Import Schema.
From S2P Require Import Lifecycle.
From S2P Require Import Submit.
From S2P Require Import Outbox.
From S2P Require Import JobsStore.
From S2P Require Import Results.
From S2P Require Import WorkersTypes.
From S2P Require Import WorkersStore.
From S2P Require Import WorkersOutcome.
From S2P Require Import Invariant.
From S2P Require Import Transitions.

Import RetryPolicy.

Definition steps : relation DB := rtc transition.

#[export] Instance steps_preorder : PreOrder steps.
Proof. unfold steps. apply _. Qed.

Lemma steps_one d d' : transition d d' → steps d d'.
Proof. apply rtc_once. Qed.

(** ** Runs, seen from the database *)

Lemma clock_db w t w' : clock_timestamp w = (Ok t, w') → db w' = db w.
Proof. unfold clock_timestamp. naive_solver. Qed.
Lemma now_db w t w' : now_tx w = (Ok t, w') → db w' = db w.
Proof. unfold now_tx. naive_solver. Qed.
Lemma uuid_db w t w' : uuid_New w = (Ok t, w') → db w' = db w.
Proof. unfold uuid_New. naive_solver. Qed.
Lemma uuid_text_db u w t w' : uuid_text u w = (Ok t, w') → db w' = db w.
Proof. unfold uuid_text. naive_solver. Qed.
Lemma jsonb_db s w t w' : to_jsonb s w = (Ok t, w') → db w' = db w.
Proof. by intros [_ ->]%to_jsonb_ok. Qed.
Lemma jitter_db w t w' : jitter_Float64 w = (Ok t, w') → db w' = db w.
Proof. unfold jitter_Float64. naive_solver. Qed.
Lemma arch_db w t w' : get_arch w = (Ok t, w') → db w' = db w.
Proof. unfold get_arch. naive_solver. Qed.
Lemma get_db_ok w d w' : get_db w = (Ok d, w') → d = db w ∧ w' = w.
Proof. unfold get_db. naive_solver. Qed.
Lemma on_unique_ok {A} e (m : Tx A) w a w' :
  on_unique_violation e m w = (Ok a, w') → m w = (Ok a, w').
Proof. unfold on_unique_violation. repeat case_match; naive_solver. Qed.

Section statement_db.
Context {K V : Type} `{Table K V}.

Lemma sql_insert_db k v w u w' :
  sql_insert k v w = (Ok u, w') →
  tget (db w) !! k = None ∧ tcheck (db w) k v = None ∧
  db w' = tput (<[k:=v]> (tget (db w))) (db w).
Proof. intros (? & ? & ->)%sql_insert_ok. done. Qed.

Lemma sql_update_db k p f w r w' :
  sql_update k p f w = (Ok r, w') →
  (r = None ∧ db w' = db w) ∨
  (∃ v, tget (db w) !! k = Some v ∧ p v = true ∧ tcheck (db w) k (f v) = None ∧
    r = Some (f v) ∧ db w' = tput (<[k:=f v]> (tget (db w))) (db w)).
Proof. intros [(? & -> & _)|(v & ? & ? & ? & ? & ->)]%sql_update_ok; [by left|right; eauto 10]. Qed.

Lemma sql_insert_or_nothing_db k v w b w' :
  sql_insert_or_nothing k v w = (Ok b, w') →
  (b = false ∧ is_Some (tget (db w) !! k) ∧ db w' = db w) ∨
  (b = true ∧ tget (db w) !! k = None ∧ tcheck (db w) k v = None ∧
   db w' = tput (<[k:=v]> (tget (db w))) (db w)).
Proof. intros [(? & ? & ->)|(? & ? & ? & ->)]%sql_insert_or_nothing_ok; naive_solver. Qed.
End statement_db.

(** Invert a successful run, keeping of each world only its database. *)
Ltac db_inv1 :=
  match goal with
  | H : get_db _ = (Ok _, _) |- _ => apply get_db_ok in H as [? ?]; subst
  | H : clock_timestamp _ = (Ok _, _) |- _ => apply clock_db in H
  | H : now_tx _ = (Ok _, _) |- _ => apply now_db in H
  | H : uuid_New _ = (Ok _, _) |- _ => apply uuid_db in H
  | H : to_jsonb _ _ = (Ok _, _) |- _ => apply jsonb_db in H
  | H : uuid_text _ _ = (Ok _, _) |- _ => apply uuid_text_db in H
  | H : jitter_Float64 _ = (Ok _, _) |- _ => apply jitter_db in H
  | H : get_arch _ = (Ok _, _) |- _ => apply arch_db in H
  | H : on_unique_violation _ _ _ = (Ok _, _) |- _ => apply on_unique_ok in H
  | H : sql_get _ _ = (Ok _, _) |- _ => apply sql_get_ok in H as [? ?]; subst
  | H : sql_insert _ _ _ = (Ok _, _) |- _ => apply sql_insert_db in H as (? & ? & H)
  | H : sql_insert_or_nothing _ _ _ = (Ok _, _) |- _ =>
    apply sql_insert_or_nothing_db in H as [(? & ? & H)|(? & ? & ? & H)]
  | H : sql_update _ _ _ _ = (Ok _, _) |- _ =>
    apply sql_update_db in H as [(? & H)|(? & ? & ? & ? & ? & H)]
  | H : commit _ _ = (Ok _, _) |- _ => unfold commit in H
  | H : no_commit _ _ = (Ok _, _) |- _ => unfold no_commit in H
  | H : is_None_b (Some _) = true |- _ => discriminate H
  | H : is_None_b None = false |- _ => discriminate H
  | H : db ?w' = _ |- _ => is_var w'; rewrite H in *; clear H
  | H : true = false |- _ => discriminate H
  | H : false = true |- _ => discriminate H
  | H : Some _ = None |- _ => discriminate H
  | H : None = Some _ |- _ => discriminate H
  end.
Ltac db_inv := repeat (run_inv1 || db_inv1).

(** ** Writes and checks *)

#[export] Hint Resolve job_constraints_ok steps_one : taskforge.

Lemma InsertWorkAvailableTx_ok jid q gen trace w id w' :
  InsertWorkAvailableTx jid q gen trace w = (Ok id, w') →
  (1 ≤ gen)%Z ∧ ∃ e, new_event (db w) jid gen id e ∧ db w' = add_event (db w) id e.
Proof.
  unfold InsertWorkAvailableTx. intros H.
  destruct (gen <? 1)%Z eqn:Hg; [by apply throw_ok in H|]. bools.
  destruct (trace_columns trace) as [tp ts] eqn:Ht. db_inv. split; [lia|].
  eexists. split; [|reflexivity]. by split_and!.
Qed.

(** ** The outbox *)

Lemma sql_update_event id p f w r w' :
  sql_update id p f w = (Ok r, w') →
  (∀ e, p e = true → e_status e = EventPending) → (∀ e, event_def (f e) = event_def e) →
  steps (db w) (db w').
Proof.
  intros H Hp Hf. apply sql_update_db in H as [(_ & ->)|(e & He & Hpe & _ & _ & ->)]; [done|].
  apply steps_one. eapply t_event; [exact He|by apply Hp|apply Hf].
Qed.

Lemma event_pending_status e : event_pending e = true → e_status e = EventPending.
Proof. unfold event_pending. intros. by bools. Qed.

Lemma steps_committed {A} (body : Tx (bool * A)) :
  (∀ w a w', body w = (Ok (true, a), w') → steps (db w) (db w')) →
  effects steps (transaction body).
Proof. intros Hb. apply effects_transaction; [apply _|done]. Qed.

(** An update of one outbox row inside a transaction. *)
Ltac event_update :=
  apply steps_committed; intros; run_inv;
  match goal with
  | Hn : now_tx _ = _, Hu : sql_update _ _ _ ?w = (_, ?w') |- _ =>
    apply now_db in Hn;
    assert (steps (db w) (db w')) as Hs by 
      (eapply sql_update_event; [exact Hu|apply event_pending_status|done]);
    unfold commit in *; run_inv; by rewrite <-Hn
  end.

Lemma MarkPublished_steps id : effects steps (MarkPublished id).
Proof. event_update. Qed.
Lemma RecordFailure_steps id cause after : effects steps (RecordFailure id cause after).
Proof. event_update. Qed.
Lemma ReleaseClaim_steps id : effects steps (ReleaseClaim id).
Proof. event_update. Qed.

(** A loop of single steps. *)
Lemma for_each_steps {A S} (f : S → A → Tx S) l s w s' w' :
  (∀ s x w s' w', f s x w = (Ok s', w') → steps (db w) (db w')) →
  for_each f s l w = (Ok s', w') → steps (db w) (db w').
Proof.
  intros Hf. revert s w. induction l as [|x l IH]; intros s w H; simpl in H.
  - by apply ret_ok in H as [_ ->].
  - apply bind_ok in H as (s1 & w1 & H1 & H2). etrans; [by eapply Hf|by eapply IH].
Qed.

(** The loop of [ClaimDue]: each row is updated once, so it is still the due row
    the scan found. *)
Lemma claim_loop_steps now timeout rows acc w r w' :
  NoDup rows.*1 →
  (∀ k e, (k, e) ∈ rows → outbox_events (db w) !! k = Some e ∧ e_status e = EventPending) →
  for_each (λ acc kv,
      r ← sql_update kv.1 (λ _, true) (claim_event now timeout);
      mret (match r with Some e => acc ++ [scan_event kv.1 e] | None => acc end))
    acc rows w = (Ok r, w') →
  steps (db w) (db w').
Proof.
  revert acc w. induction rows as [|[k e] rows IH]; intros acc w Hnd Hrows H; simpl in H.
  { by apply ret_ok in H as [_ ->]. }
  simpl in Hnd. apply NoDup_cons in Hnd as [Hk Hnd].
  apply bind_ok in H as (acc1 & w1 & H & Hrest). cbv beta in H.
  apply bind_ok in H as (row & w2 & Hu & [Heq ->]%ret_ok). apply sql_update_db in Hu.
  destruct (Hrows k e) as [Hke Hpe]; [by constructor|].
  assert (∀ w3, (∀ k', k' ≠ k → outbox_events (db w3) !! k' = outbox_events (db w) !! k') →
    ∀ k' e', (k', e') ∈ rows → outbox_events (db w3) !! k' = Some e' ∧ e_status e' = EventPending)
    as Hframe.
  { intros w3 H3 k' e' Hin. rewrite H3; [apply Hrows; by constructor|].
    intros ->. apply Hk. apply list_elem_of_fmap. by exists (k, e'). }
  destruct Hu as [(_ & Hdb)|(e0 & He0 & _ & _ & _ & Hdb)].
  - rewrite <-Hdb. eapply IH; [done| |exact Hrest]. apply Hframe. by rewrite Hdb.
  - etrans; [|eapply IH; [done| |exact Hrest]].
    + rewrite Hdb. apply steps_one. change (outbox_events (db w) !! k = Some e0) in He0.
      rewrite Hke in He0. injection He0 as <-. by apply (t_event (db w) k e).
    + apply Hframe. intros k' Hne. rewrite Hdb. simpl. by lk.
Qed.

Lemma map_where_keys_NoDup {V} (f : uuid → V → bool) (m : gmap uuid V) :
  NoDup (map_where f m).*1.
Proof.
  unfold map_where. pose proof (NoDup_fst_map_to_list m) as Hnd.
  induction (map_to_list m) as [|x l IH]; simpl in *; [constructor|].
  apply NoDup_cons in Hnd as [Hx Hnd]. destruct (f x.1 x.2); simpl; [|auto].
  apply NoDup_cons. split; [|auto]. intros Hin. apply Hx.
  apply list_elem_of_fmap in Hin as (y & Hy & Hin%list_elem_of_In).
  apply filter_In in Hin as [Hin _]. apply list_elem_of_fmap. exists y.
  by rewrite list_elem_of_In.
Qed.

Lemma map_select_keys_NoDup {V} (f : uuid → V → bool) le (m : gmap uuid V) n :
  NoDup (take n (map_select f le m)).*1.
Proof.
  rewrite fmap_take. eapply sublist_NoDup; [|apply sublist_take].
  unfold map_select. rewrite merge_sort_Permutation. apply map_where_keys_NoDup.
Qed.

Lemma ClaimDue_steps limit timeout : effects steps (ClaimDue limit timeout).
Proof.
  apply steps_committed. intros w a w' H. run_inv.
  apply now_db in H. apply get_db_ok in H0 as [-> ->]. unfold commit in *. run_inv.
  rewrite <-H. eapply claim_loop_steps; [apply map_select_keys_NoDup| |eassumption].
  intros k e (i & Hin%list_elem_of_lookup_2 & _)%elem_of_take.
  apply map_select_elem in Hin as [? Hd].
  unfold due_event in Hd. by bools.
Qed.

(** ** Submission, cancellation, the scheduler, replay *)

Lemma lock_queue_ok name w q w' : lock_queue name w = (Ok q, w') → w' = w.
Proof. unfold lock_queue. intros H. by db_inv. Qed.

Lemma job_in_scope_ok scope id w j w' :
  job_in_scope scope id w = (Ok j, w') → w' = w ∧ jobs (db w) !! id = Some j ∧ j_scope j = scope.
Proof.
  unfold job_in_scope. intros H. db_inv. by bools.
Qed.

Lemma resolve_reads {A} (m : Tx A) : (∀ w, db (m w).2 = db w) → effects steps m.
Proof. intros. apply effects_read; [apply _|done]. Qed.

Lemma job_in_scope_read scope id w : db (job_in_scope scope id w).2 = db w.
Proof.
  unfold job_in_scope, mbind, M_bind, sql_get, mret, M_ret, throw. by repeat case_match.
Qed.

Lemma resolveExisting_read scope key fp w : db (resolveExisting scope key fp w).2 = db w.
Proof.
  unfold resolveExisting, getByID.
  unfold mbind, M_bind at 1, sql_get. simpl.
  destruct (idempotency_records (db w) !! (scope, key)) as [r|]; [|done].
  destruct (negb _); [done|]. unfold M_bind.
  pose proof (job_in_scope_read scope (i_job_id r) w).
  by destruct (job_in_scope scope (i_job_id r) w) as [[?|?] ?].
Qed.

Lemma resolveExisting_steps scope key fp : effects steps (resolveExisting scope key fp).
Proof. apply resolve_reads, resolveExisting_read. Qed.

(** The job a submission stores. *)
Lemma stored_new_job scope req t created payload :
  let j := stored_job payload (new_job scope req t created) in
  (j_status j = StatusQueued ∧ j_notification_generation j = 1%Z) ∨
  (j_status j = StatusPending ∧ j_notification_generation j = 0%Z ∧ j_scheduled_at j = Some (j_available_at j)).
Proof.
  unfold stored_job, new_job. simpl.
  destruct (n_scheduled_at req) as [at_|]; simpl; [|by left].
  destruct (t <? at_)%Z; simpl; auto.
Qed.

(** A new job and its request record, written in the order of the code. *)
Lemma steps_submitted d id j scope key i :
  jobs d !! id = None → job_ok (queues d) (jobs d) id j → j_status j = StatusPending →
  j_notification_generation j = 0%Z → j_scheduled_at j = Some (j_available_at j) →
  i_job_id i = id → j_scope j = scope →
  idempotency_records d !! (scope, key) = None →
  steps d ((put_job d id j)
    <| idempotency_records := <[(scope, key):=i]> (idempotency_records d) |>).
Proof.
  intros Hn Hc Hs Hg Hsch Hi Hsc Hnone. eapply rtc_l; [by apply (t_delay d id j)|].
  apply steps_one. apply (t_idempotency (put_job d id j) scope key i j); [|done..].
  rewrite Hi. apply lookup_insert_eq.
Qed.

Lemma steps_accepted d id j scope key i eid e :
  jobs d !! id = None → job_ok (queues d) (jobs d) id j → j_status j = StatusQueued →
  j_notification_generation j = 1%Z → i_job_id i = id → j_scope j = scope →
  idempotency_records d !! (scope, key) = None → new_event d id 1 eid e →
  steps d (add_event ((put_job d id j)
    <| idempotency_records := <[(scope, key):=i]> (idempotency_records d) |>) eid e).
Proof.
  intros Hn Hc Hs Hg Hi Hsc Hnone He. eapply rtc_l; [by apply (t_accept d id j eid e)|].
  apply steps_one.
  apply (t_idempotency (add_event (put_job d id j) eid e) scope key i j); [|done..].
  rewrite Hi. apply lookup_insert_eq.
Qed.

Lemma submit_tx_steps scope key fp req trace : effects steps (submit_tx scope key fp req trace).
Proof.
  apply steps_committed. intros w a w' H. db_inv.
  all: pose proof (stored_new_job scope req x x1 x5) as Hs; simpl in Hs; bools.
  - apply InsertWorkAvailableTx_ok in H5 as (_ & e & He & Heq). rewrite H4 in *.
    rewrite Heq. destruct Hs as [[Hs Hg]|[Hs _]]; [|unfold stored_job in Hs; simpl in *; congruence].
    apply (steps_accepted (db w) x3 (stored_job x5 (new_job scope req x x1))); try done.
    + by eapply job_constraints_ok.
    + unfold stored_job in Hg. simpl in Hg. by rewrite <-Hg.
  - destruct Hs as [[Hs _]|(Hs & Hg & Hsch)]; [unfold stored_job in Hs; simpl in *; congruence|].
    apply (steps_submitted (db w) x3 (stored_job x5 (new_job scope req x x1))); try done.
    by eapply job_constraints_ok.
Qed.

Lemma Submit_steps scope key req trace : effects steps (Submit scope key req trace).
Proof.
  unfold Submit. cbv zeta. apply effects_bind; [apply _|by apply resolve_reads|].
  intros ex. destruct (negb ex); [apply effects_throw, _|].
  apply effects_bind; [apply _|apply submit_tx_steps|].
  intros [[id j]|]; [apply effects_ret, _|apply resolveExisting_steps].
Qed.

Lemma HasPendingWorkAvailableTx_ok id gen w b w' :
  HasPendingWorkAvailableTx id gen w = (Ok b, w') →
  w' = w ∧ b = map_any (pending_for id gen) (outbox_events (db w)).
Proof. unfold HasPendingWorkAvailableTx. intros H. db_inv. done. Qed.

(** Inversion that knows the locking reads. *)
Ltac op_inv1 :=
  match goal with
  | H : lock_queue _ _ = (Ok _, _) |- _ => apply lock_queue_ok in H; subst
  | H : job_in_scope _ _ _ = (Ok _, _) |- _ => apply job_in_scope_ok in H as (? & ? & ?); subst
  | H : HasPendingWorkAvailableTx _ _ _ = (Ok _, _) |- _ =>
    apply HasPendingWorkAvailableTx_ok in H as [? ?]; subst
  | H : InsertWorkAvailableTx _ _ _ _ _ = (Ok _, _) |- _ =>
    apply InsertWorkAvailableTx_ok in H as (? & ? & ? & H)
  end.
Ltac op_inv := repeat (run_inv1 || db_inv1 || op_inv1).

Lemma RequestCancel_steps scope id : effects steps (RequestCancel scope id).
Proof.
  apply steps_committed. intros w a w' H. op_inv; [done|]. bools. apply steps_one.
  eapply t_cancel; [split; [eassumption|done|by eapply job_constraints_ok]|..]; simpl; congruence.
Qed.

(** A row that passed the constraints of [jobs], as a move. *)
Ltac job_moves := split; [eassumption|done|by eapply job_constraints_ok].

Lemma promoteDueJob_steps id : effects steps (promoteDueJob id).
Proof.
  apply steps_committed. intros w a w' H. op_inv. bools. apply steps_one.
  eapply t_eligible; [job_moves|..]; simpl; try eassumption; congruence.
Qed.

Lemma renotifyStrandedJob_steps id after : effects steps (renotifyStrandedJob id after).
Proof.
  apply steps_committed. intros w a w' H. op_inv. bools. apply steps_one.
  eapply t_renotify; [job_moves|..]; simpl; try eassumption; try congruence.
  match goal with H : j_notification_generation _ = _ |- _ => rewrite H end. eassumption.
Qed.

Lemma resolveExistingReplay_read scope id key w : db (resolveExistingReplay scope id key w).2 = db w.
Proof.
  unfold resolveExistingReplay, getByID.
  unfold mbind, M_bind at 1, sql_get. simpl.
  destruct (dlq_replays (db w) !! (scope, id, key)) as [r|]; [|done]. unfold M_bind.
  pose proof (job_in_scope_read scope (r_replacement_job_id r) w).
  by destruct (job_in_scope scope (r_replacement_job_id r) w) as [[?|?] ?].
Qed.

Lemma resolveExistingReplay_steps scope id key : effects steps (resolveExistingReplay scope id key).
Proof. apply resolve_reads, resolveExistingReplay_read. Qed.

Lemma steps_replayed d id j scope original key r jo eid e :
  jobs d !! id = None → job_ok (queues d) (jobs d) id j → j_status j = StatusQueued →
  j_notification_generation j = 1%Z → r_replacement_job_id r = id → j_scope j = scope →
  j_replayed_from j = Some original → jobs d !! original = Some jo →
  j_status jo = StatusDeadLettered → j_scope jo = scope →
  dlq_replays d !! (scope, original, key) = None → new_event d id 1 eid e →
  (∃ k e, dlq_entries d !! k = Some e ∧ d_job_id e = original) →
  steps d (add_event ((put_job d id j)
    <| dlq_replays := <[(scope, original, key):=r]> (dlq_replays d) |>) eid e).
Proof.
  intros Hn Hc Hs Hg Hi Hsc Hfrom Ho Hdl Hosc Hnone He Hdlq.
  eapply rtc_l; [by apply (t_accept d id j eid e)|]. apply steps_one.
  apply (t_replay (add_event (put_job d id j) eid e) scope original key r j jo);
    simpl; try done; [rewrite Hi; apply lookup_insert_eq|].
  rewrite lookup_insert_ne; [done|congruence].
Qed.

Lemma replay_tx_steps scope id key : effects steps (replay_tx scope id key).
Proof.
  apply steps_committed. intros w a w' H. op_inv. bools.
  apply (steps_replayed (db w) x9 ((replacement_job (j_scope x3) id x3 x7) <| j_payload := x11 |>)
    (j_scope x3) id key (mkReplay x9) x3); try done.
  - by eapply job_constraints_ok.
  - match goal with H : map_any _ _ = true |- _ => apply map_any_true in H as (k & e & ? & He) end.
    bools. eauto.
Qed.

Lemma Replay_steps scope id key : effects steps (Replay scope id key).
Proof.
  apply effects_bind; [apply _|apply replay_tx_steps|].
  intros [[rid j]|]; [apply effects_ret, _|apply resolveExistingReplay_steps].
Qed.

(** ** Registration and sessions *)

Lemma sql_update_session id p f w r w' :
  sql_update (V := WorkerSession) id p f w = (Ok r, w') →
  (∀ s, p s = true → isCurrentSessionStatus (s_status s) = true) →
  (∀ s, session_def (f s) = session_def s) →
  steps (db w) (db w').
Proof.
  intros H Hp Hf. apply sql_update_db in H as [(_ & ->)|(s & Hs & Hps & Hc & _ & ->)]; [done|].
  apply steps_one, t_session; [done|]. intros s0 Hs0.
  change (worker_sessions (db w) !! id = Some s) in Hs. rewrite Hs in Hs0. injection Hs0 as <-.
  split; [apply Hf|left; by apply Hp].
Qed.

Lemma fence_prior_sessions_steps wid w u w' :
  fence_prior_sessions wid w = (Ok u, w') → steps (db w) (db w').
Proof.
  unfold fence_prior_sessions. intros H. run_inv. apply get_db_ok in H as [-> ->].
  eapply for_each_steps; [|eassumption]. intros s x w1 s' w2 Hb. cbv beta in Hb. run_inv.
  apply clock_db in H. rewrite <-H. eapply sql_update_session; [eassumption| |done].
  intros s0 Hp. cbv beta in Hp. by bools.
Qed.

Lemma upsert_worker_steps scope name w id w' :
  upsert_worker scope name w = (Ok id, w') → steps (db w) (db w').
Proof.
  unfold upsert_worker. intros H. db_inv; try done; apply steps_one, t_worker;
    intros wk Hw0; match goal with H : tget _ !! _ = _ |- _ =>
      pose proof (eq_trans (eq_sym Hw0) H); by simplify_eq end.
Qed.

Lemma validated_read fields w : db (validated fields w).2 = db w.
Proof. unfold validated. by destruct fields. Qed.

Lemma validated_steps {A} fields (m : Tx A) :
  effects steps m → effects steps (validated fields;; m).
Proof.
  intros Hm. apply effects_bind; [apply _|apply resolve_reads, validated_read|done].
Qed.

(** A validated operation, with what its fields satisfy. *)
Lemma valid_steps {A} fields (m : Tx A) :
  (fields = [] → effects steps m) → effects steps (validated fields;; m).
Proof.
  intros Hm. destruct fields as [|e fields]; [by apply validated_steps, Hm|].
  intros w r w' Hrun. unfold mbind, M_bind in Hrun. simpl in Hrun. by injection Hrun as _ <-.
Qed.

Lemma Register_steps scope reg : effects steps (Register scope reg).
Proof.
  unfold Register. apply effects_bind; [apply _| |].
  - apply validated_steps, effects_ret, _.
  - intros out. apply steps_committed. intros w a w' H. run_inv.
    all: unfold readSessionForUpdate, commit in *; run_inv.
    all: match goal with H : upsert_worker _ _ _ = _ |- _ => apply upsert_worker_steps in H end.
    all: repeat match goal with H : get_db _ = _ |- _ => apply get_db_ok in H as [? ?]; subst end.
    + done.
    + apply fence_prior_sessions_steps in H1. db_inv. etrans; [eassumption|].
      etrans; [eassumption|]. apply steps_one, t_session; [done|]. intros s0 Hs0.
      match goal with H : _ !! _ = None |- _ => discriminate (eq_trans (eq_sym Hs0) H) end.
Qed.

Lemma Heartbeat_steps scope req : effects steps (Heartbeat scope req).
Proof.
  apply validated_steps, steps_committed. intros w a w' H. run_inv.
  apply sql_get_ok in H as [Hrow ->]. apply clock_db in H0 as Hdb.
  match goal with H : sql_update _ _ _ _ = _ |- _ => apply sql_update_session in H end.
  - by db_inv.
  - intros s' Hs'. cbv beta in Hs'. bools. by rewrite Hs'.
  - done.
Qed.

Lemma markSessionStale_steps id after : effects steps (markSessionStale id after).
Proof.
  apply steps_committed. intros w a w' H. run_inv; unfold no_commit in *; try by db_inv.
  apply sql_get_ok in H as [Hrow ->]. apply clock_db in H0 as Hdb.
  match goal with H : sql_update _ _ _ _ = _ |- _ => apply sql_update_session in H; [|done..] end.
  by db_inv.
Qed.

(** ** Claims *)

Lemma setLeaseRemaining_db a w a' w' :
  setLeaseRemaining a w = (Ok a', w') → db w' = db w.
Proof. unfold setLeaseRemaining. intros H. by db_inv. Qed.

Lemma lookupClaim_ok id w r w' :
  lookupClaim id w = (Ok r, w') → w' = w ∧ r = lookup_claim (db w) id.
Proof. unfold lookupClaim. intros H. by db_inv. Qed.

Lemma issue_claim_steps cfg scope req id j row s w a w' :
  issue_claim cfg scope req id j w = (Ok (true, a), w') →
  jobs (db w) !! id = Some j → j_scope j = scope → j_queue j = cq_queue req →
  queues (db w) !! cq_queue req = Some row →
  (Z.of_nat (map_count (active_for_queue (cq_queue req)) (leases (db w)))
   < q_max_concurrency row)%Z →
  worker_sessions (db w) !! cq_session_id req = Some s → s_status s = SessionHealthy →
  s_worker_group s = q_worker_group row →
  (Z.of_nat (map_count (active_for_worker (cq_worker_id req)) (leases (db w))) < s_concurrency_limit s)%Z →
  j_type j ∈ s_supported_job_types s →
  Forall (λ c, c ∈ s_capabilities s) (j_required_capabilities j) →
  (attempt_count (db w) id < j_max_attempts j)%Z →
  steps (db w) (db w').
Proof.
  unfold issue_claim. intros H Hj Hsc Hqu Hrow Hcap Hse Hhe Hgr Hlim Hty Hcaps Hbud. db_inv. bools.
  change (jobs (db w) !! id = Some x3) in H11. simplify_eq. apply steps_one.
  eapply (t_claim (db w) id x3 _ x _ x1 _ row s); try done; simpl.
  - split; [done|done|by eapply job_constraints_ok].
  - exact (lease_constraints_free _ _ _ H8).
  - exact (proj1 (attempt_constraints_ok _ _ _ H10)).
  - exact (lease_constraints_check _ _ _ H8).
  - by rewrite Hqu.
  - by rewrite Hqu.
Qed.

Lemma claim_order_total : Total (ordby claim_order).
Proof.
  intros [i x] [k y]. unfold ordby, claim_order, then_by. simpl.
  destruct (Z.compare_spec (j_priority y) (j_priority x)),
    (Z.compare_spec (j_priority x) (j_priority y)); try lia; auto.
  destruct (Z.compare_spec (j_available_at x) (j_available_at y)),
    (Z.compare_spec (j_available_at y) (j_available_at x)); try lia; auto.
  destruct (Z.compare_spec (j_created_at x) (j_created_at y)),
    (Z.compare_spec (j_created_at y) (j_created_at x)); try lia; auto.
  rewrite !N.leb_le. lia.
Qed.

Lemma claim_new_steps cfg scope req q s w a w' :
  claim_new cfg scope req q s w = (Ok (true, a), w') →
  queues (db w) !! cq_queue req = Some q → worker_sessions (db w) !! cq_session_id req = Some s →
  s_status s = SessionHealthy → steps (db w) (db w').
Proof.
  unfold claim_new, commitNoClaim. intros H Hq Hs Hhe. db_inv; try done.
  match goal with H : map_select ?f ?le ?m = (?id, ?j) :: _ |- _ =>
    assert ((id, j) ∈ map_select f le m) as Hin by (rewrite H; constructor) end.
  apply map_select_elem in Hin as [Hj Hc]. unfold claimable in Hc. bools.
  match goal with H : issue_claim _ _ _ _ _ ?w1 = _, E : db ?w1 = db w |- _ =>
    rewrite <-E in *; eapply issue_claim_steps; [exact H|..] end; eauto.
  match goal with H : forallb _ _ = true |- _ => rewrite forallb_forall in H; apply Forall_forall end.
  intros c Hc%list_elem_of_In. apply (bool_decide_eq_true_1 (c ∈ s_capabilities s)). auto.
Qed.

Lemma claim_tx_steps cfg scope req : effects steps (claim_tx cfg scope req).
Proof.
  apply steps_committed. intros w a w' H. run_inv.
  all: repeat match goal with
    | H : get_db _ = _ |- _ => apply get_db_ok in H as [? ?]; subst
    | H : lookupClaim _ _ = _ |- _ => apply lookupClaim_ok in H as [? ?]; subst
    end.
  - unfold commitNoClaim, commit in *. by run_inv.
  - match goal with H : setLeaseRemaining _ _ = _ |- _ => apply setLeaseRemaining_db in H as Hdb end.
    unfold commit in *. run_inv. by rewrite Hdb.
  - bools. destruct_and!. by eapply claim_new_steps.
Qed.

Lemma Claim_steps cfg scope req : effects steps (Claim cfg scope req).
Proof.
  apply validated_steps. destruct (_ <=? 0)%Z; [apply effects_throw, _|].
  apply effects_bind; [apply _|by apply resolve_reads|].
  intros r. destruct (match r with _ => _ end); [apply effects_throw, _|apply claim_tx_steps].
Qed.

(** ** The fenced operations *)

(** What a successful lock of the authority rows found. *)
Record fenced (d : DB) (scope : string) (f : Fence) (st : fenceState) (s : WorkerSession)
    (j : Job) (a : Attempt) (l : Lease) : Prop := {
  fd_session : worker_sessions d !! f_session_id f = Some s;
  fd_session_bound : s_worker_id s = f_worker_id f ∧ s_scope s = scope;
  fd_job : jobs d !! f_job_id f = Some j;
  fd_attempt : job_attempts d !! f_attempt_id f = Some a;
  fd_lease : leases d !! f_lease_id f = Some l;
  fd_lease_job : l_job_id l = f_job_id f;
  fd_lease_attempt : l_attempt_id l = f_attempt_id f;
  fd_lease_worker : l_worker_id l = f_worker_id f ∧ l_session_id l = f_session_id f;
  fd_scope : j_scope j = scope ∧ a_scope a = scope ∧ l_scope l = scope;
  fd_state : st = fence_state scope s j a l (fs_server_now st);
}.

Lemma lockAuthorityRows_ok scope f w st w' :
  lockAuthorityRows scope f w = (Ok st, w') →
  db w' = db w ∧ ∃ s j a l, fenced (db w) scope f st s j a l.
Proof.
  unfold lockAuthorityRows. intros H. op_inv. split; [done|].
  unfold fence_lease, fence_session, fence_rows in *.
  repeat match goal with
  | H : (o ← _; _) = Some _ |- _ => apply bind_Some in H as (? & ? & H)
  | H : (if bool_decide _ then _ else _) = Some _ |- _ => case_bool_decide; [|discriminate H]
  end.
  simplify_eq. destruct_and!. eexists _, _, _, _. split; eauto.
Qed.

Lemma lockFence_ok scope f w st w' :
  lockFence scope f w = (Ok st, w') →
  db w' = db w ∧ fs_session_healthy st = true ∧ ∃ s j a l, fenced (db w) scope f st s j a l.
Proof.
  unfold lockFence. intros H. run_inv. bools.
  apply lockAuthorityRows_ok in H as [? ?]. auto.
Qed.

Lemma lockFenceForReconciliation_ok scope f w r w' :
  lockFenceForReconciliation scope f w = (Ok r, w') →
  match r with
  | None => True
  | Some st => db w' = db w ∧ ∃ s j a l, fenced (db w) scope f st s j a l
  end.
Proof.
  unfold lockFenceForReconciliation, on_fence_rejected.
  destruct (_ ≫= _) as [[st|e] w1] eqn:Hrun.
  2: { by destruct e; intros [= <- <-]. }
  intros [= <- <-]. apply bind_ok in Hrun as (st' & w2 & Hl & [<- ->]%ret_ok).
  by apply lockAuthorityRows_ok.
Qed.

Lemma leaseUsable_active st : leaseUsable st = true → fs_lease_status st = LeaseActive.
Proof. unfold leaseUsable. intros. by bools. Qed.

(** A transaction that locks the authority rows first: its effect is that of the
    rest, on rows the fence names. *)
Section locked.
Context {A : Type} (scope : string) (f : Fence).

Lemma locked_steps (body : fenceState → Tx (bool * A)) :
  (∀ st s j a l w r w', fenced (db w) scope f st s j a l →
    body st w = (Ok (true, r), w') → steps (db w) (db w')) →
  effects steps (transaction (st ← lockAuthorityRows scope f; body st)).
Proof.
  intros Hb. apply steps_committed. intros w r w' (st & w1 & Hl & H)%bind_ok.
  apply lockAuthorityRows_ok in Hl as (Hdb & s & j & a & l & Hf). rewrite <-Hdb in *.
  by eapply Hb.
Qed.

Lemma locked_healthy_steps (body : fenceState → Tx (bool * A)) :
  (∀ st s j a l w r w', fenced (db w) scope f st s j a l → fs_session_healthy st = true →
    body st w = (Ok (true, r), w') → steps (db w) (db w')) →
  effects steps (transaction (st ← lockFence scope f; body st)).
Proof.
  intros Hb. apply steps_committed. intros w r w' (st & w1 & Hl & H)%bind_ok.
  apply lockFence_ok in Hl as (Hdb & Hh & s & j & a & l & Hf). rewrite <-Hdb in *.
  by eapply Hb.
Qed.

Lemma locked_reconcile_steps (body : fenceState → Tx (bool * A)) (r0 : A) :
  (∀ st s j a l w r w', fenced (db w) scope f st s j a l →
    body st w = (Ok (true, r), w') → steps (db w) (db w')) →
  effects steps (transaction (
    locked ← lockFenceForReconciliation scope f;
    match locked with None => no_commit r0 | Some st => body st end)).
Proof.
  intros Hb. apply steps_committed. intros w r w' (st & w1 & Hl & H)%bind_ok.
  apply lockFenceForReconciliation_ok in Hl. destruct st as [st|].
  - destruct Hl as (Hdb & s & j & a & l & Hf). rewrite <-Hdb in *. by eapply Hb.
  - unfold no_commit in H. apply ret_ok in H as [? _]. simplify_eq.
Qed.
End locked.

(** The state of the fence, as statuses of its rows. *)
Lemma fenced_status d scope f st s j a l :
  fenced d scope f st s j a l →
  fs_job_status st = j_status j ∧ fs_attempt_status st = a_status a ∧
  fs_lease_status st = l_status l ∧ fs_attempt_number st = a_number a ∧
  fs_max_attempts st = j_max_attempts j ∧ fs_queue st = l_queue l ∧ fs_scope st = scope.
Proof. intros Hf. rewrite (fd_state _ _ _ _ _ _ _ _ Hf). done. Qed.

(** What the state of the fence says of the authority of its worker. *)
Lemma fenced_healthy d scope f st s j a l :
  fenced d scope f st s j a l → fs_session_healthy st = true → healthy d l.
Proof.
  intros Hf Hh. rewrite (fd_state _ _ _ _ _ _ _ _ Hf) in Hh. simpl in Hh. bools. exists s.
  destruct (fd_lease_worker _ _ _ _ _ _ _ _ Hf) as [_ ->]. split; [apply Hf|done].
Qed.

Lemma fenced_live d scope f st s j a l :
  fenced d scope f st s j a l → leaseUsable st = true → (fs_server_now st < l_expires_at l)%Z.
Proof.
  intros Hf. unfold leaseUsable. intros [_ Hl%Z.ltb_lt]%andb_true_iff.
  by rewrite (fd_state _ _ _ _ _ _ _ _ Hf) in Hl at 2.
Qed.

Lemma fenced_lapsed d scope f st s j a l :
  fenced d scope f st s j a l → (fs_expires_at st ≤ fs_server_now st)%Z → (l_expires_at l ≤ fs_server_now st)%Z.
Proof. intros Hf. by rewrite (fd_state _ _ _ _ _ _ _ _ Hf) at 1. Qed.

Lemma fenced_authorized d scope f st s j a l :
  fenced d scope f st s j a l → fs_session_healthy st = true → leaseUsable st = true →
  timedOut st = false → authorized d a l (fs_server_now st).
Proof.
  intros Hf Hh Hl Ht. split; [by eapply fenced_healthy|by eapply fenced_live|].
  intros to Hto. unfold timedOut in Ht. rewrite (fd_state _ _ _ _ _ _ _ _ Hf) in Ht. simpl in Ht.
  rewrite Hto in Ht. by apply negb_false_iff, Z.ltb_lt in Ht.
Qed.

Lemma active_lease l : l_status l = LeaseActive → is_active l = true.
Proof. unfold is_active. intros ->. done. Qed.

Lemma Start_steps scope f : effects steps (Start scope f).
Proof.
  apply validated_steps, locked_healthy_steps. intros st s j a l w r w' Hf Hh H.
  destruct (fenced_status _ _ _ _ _ _ _ _ Hf) as (_ & _ & Hl & _).
  db_inv; [done|]. bools. pose proof (fenced_live _ _ _ _ _ _ _ _ Hf Hb) as Hlive. apply leaseUsable_active in Hb. apply steps_one.
  eapply (t_start (db w) (f_job_id f) x _ (f_attempt_id f) x0 _ (f_lease_id f) l (fs_server_now st));
    try (done || apply Hf).
  - job_moves.
  - apply active_lease. congruence.
  - match goal with H : tcheck _ _ _ = None |- _ =>
      exact (proj1 (proj1 (attempt_constraints_ok _ _ _ H))) end.
  - match goal with H : tcheck _ _ _ = None |- _ =>
      exact (proj2 (attempt_constraints_ok _ _ _ H)) end.
  - by eapply fenced_healthy.
  - simpl. simpl in *. do 3 f_equal. congruence.
Qed.

Lemma InsertResultTx_db r w u w' :
  InsertResultTx r w = (Ok u, w') →
  ∃ row, results (db w) !! R_JobID r = None ∧ rs_attempt_id row = R_AttemptID r ∧
    rs_scope row = R_Scope r ∧
    db w' = (db w) <| results := <[R_JobID r:=row]> (results (db w)) |>.
Proof.
  unfold InsertResultTx, nullableJSON. intros H. db_inv;
    (eexists; split_and!; [eassumption| | |reflexivity]; done).
Qed.

(** The update of each authority row, on the row the fence locked. *)
Section closing.
Context (scope : string) (f : Fence) (st : fenceState) (s : WorkerSession).
Context (j : Job) (a : Attempt) (l : Lease).

Lemma job_update_ok p g w r w' :
  sql_update (f_job_id f) p g w = (Ok r, w') → is_None_b r = false →
  jobs (db w) !! f_job_id f = Some j →
  r = Some (g j) ∧ p j = true ∧ job_ok (queues (db w)) (jobs (db w)) (f_job_id f) (g j) ∧
  db w' = put_job (db w) (f_job_id f) (g j).
Proof.
  intros H Hr Hj. apply sql_update_db in H as [(-> & _)|(x & Hx & Hp & Hc & -> & ->)]; [done|].
  injection (eq_trans (eq_sym Hx) Hj) as ->.
  split_and!; [done..|exact (job_constraints_ok _ _ _ Hc)|done].
Qed.

Lemma attempt_update_ok p g w r w' :
  sql_update (f_attempt_id f) p g w = (Ok r, w') → is_None_b r = false →
  job_attempts (db w) !! f_attempt_id f = Some a →
  r = Some (g a) ∧ p a = true ∧ attempt_check (g a) = true ∧
  attempt_free (job_attempts (db w)) (f_attempt_id f) (g a) ∧
  db w' = (db w) <| job_attempts := <[f_attempt_id f:=g a]> (job_attempts (db w)) |>.
Proof.
  intros H Hr Ha. apply sql_update_db in H as [(-> & _)|(x & Hx & Hp & Hc & -> & ->)]; [done|].
  injection (eq_trans (eq_sym Hx) Ha) as ->.
  apply attempt_constraints_ok in Hc as [[Hac _] Haf]. done.
Qed.

Lemma lease_update_ok p g w r w' :
  sql_update (f_lease_id f) p g w = (Ok r, w') → is_None_b r = false →
  leases (db w) !! f_lease_id f = Some l →
  r = Some (g l) ∧ p l = true ∧ lease_free (leases (db w)) (f_lease_id f) (g l) ∧
  lease_check (g l) = true ∧
  db w' = (db w) <| leases := <[f_lease_id f:=g l]> (leases (db w)) |>.
Proof.
  intros H Hr Hl. apply sql_update_db in H as [(-> & _)|(x & Hx & Hp & Hc & -> & ->)]; [done|].
  injection (eq_trans (eq_sym Hx) Hl) as ->.
  split_and!; [done..|exact (lease_constraints_free _ _ _ Hc)|
    exact (lease_constraints_check _ _ _ Hc)|done].
Qed.

Lemma release_lease_ok status t w u w' :
  release_lease (f_lease_id f) status t w = (Ok u, w') →
  leases (db w) !! f_lease_id f = Some l →
  let l' := l <| l_status := status |> <| l_released_at := Some t |> in
  is_active l = true ∧ lease_free (leases (db w)) (f_lease_id f) l' ∧ lease_check l' = true ∧
  db w' = (db w) <| leases := <[f_lease_id f:=l']> (leases (db w)) |>.
Proof.
  unfold release_lease. intros H Hl. run_inv.
  by eapply lease_update_ok in H as (_ & ? & ? & ? & ?).
Qed.

(** The three rows of the fence, closed. *)
Lemma fenced_closes d j' a' l' :
  fenced d scope f st s j a l → is_active l = true →
  job_def j' = job_def j → job_ok (queues d) (jobs d) (f_job_id f) j' →
  attempt_def a' = attempt_def a → attempt_check a' = true →
  attempt_free (job_attempts d) (f_attempt_id f) a' →
  lease_def l' = lease_def l → is_active l' = false →
  lease_free (leases d) (f_lease_id f) l' → lease_check l' = true →
  closes d (f_job_id f) j j' (f_attempt_id f) a a' (f_lease_id f) l l'.
Proof.
  intros Hf ? ? ? ? ? ? ? ? ? ?. split; try done; try apply Hf. by split; [apply Hf|..].
Qed.
End closing.

Lemma inactive_lease l : l_status l ≠ LeaseActive → is_active l = false.
Proof. unfold is_active. intros. by apply bool_decide_eq_false_2. Qed.

Lemma Succeed_steps scope f res : effects steps (Succeed scope f res).
Proof.
  apply validated_steps, locked_steps. intros st s j a l w r w' Hf H.
  run_inv; unfold commit in *; run_inv; [done|..]; bools.
  all: match goal with
    | H1 : sql_update _ _ _ _ = _, H2 : sql_update _ _ _ _ = _, H3 : sql_update _ _ _ _ = _ |- _ =>
      eapply job_update_ok in H1 as (_ & Hj & Hjo & Hd1); [|done|apply Hf];
      eapply attempt_update_ok in H2 as (_ & Ha & Hac & Haf & Hd2);
        [|done|rewrite Hd1; apply Hf];
      eapply lease_update_ok in H3 as (_ & Hl & Hlf & Hlc & Hd3);
        [|done|rewrite Hd2, Hd1; apply Hf]
    end.
  all: rewrite Hd2, Hd1 in *; simpl in Haf, Hlf; bools; apply steps_one.
  - match goal with H : InsertResultTx _ _ = _ |- _ =>
      apply InsertResultTx_db in H as (row & Hn & Hra & Hrs & ->) end. rewrite Hd3 in *.
    eapply (t_succeed (db w) (f_job_id f) j _ (f_attempt_id f) a _ (f_lease_id f) l _ _ (fs_server_now st));
      [eapply fenced_closes; eauto; done|done..| |by eapply fenced_authorized|done|done].
    right. exists row. split_and!; try done. rewrite Hrs. simpl. symmetry. apply Hf.
  - rewrite Hd3. eapply (t_succeed (db w) (f_job_id f) j _ (f_attempt_id f) a _ (f_lease_id f) l
      _ (results (db w)) (fs_server_now st));
      [eapply fenced_closes; eauto; done|done..|by left|by eapply fenced_authorized|done|done].
Qed.

(** ** Terminal outcomes *)

Lemma InsertDLQEntryTx_db scope q id aid reason t w eid w' :
  InsertDLQEntryTx scope q id aid reason t w = (Ok eid, w') →
  ∃ e, dlq_entries (db w) !! eid = None ∧ d_job_id e = id ∧ d_terminal_attempt_id e = aid ∧
    d_reason e = reason ∧ Reason_Valid reason = true ∧
    db w' = (db w) <| dlq_entries := <[eid:=e]> (dlq_entries (db w)) |>.
Proof.
  unfold InsertDLQEntryTx. intros H. db_inv. bools.
  eexists. split_and!; [eassumption| | | |done|reflexivity]; done.
Qed.

Lemma setJobStatus_ok f j status at_ t w u w' :
  setJobStatus (f_job_id f) status at_ t w = (Ok u, w') →
  jobs (db w) !! f_job_id f = Some j →
  ∃ j', isExecutingJobStatus (j_status j) = true ∧ job_def j' = job_def j ∧
    j_status j' = status ∧ j_notification_generation j' = j_notification_generation j ∧
    (∀ t', at_ = Some t' → j_available_at j' = timestamptz t') ∧
    job_ok (queues (db w)) (jobs (db w)) (f_job_id f) j' ∧
    db w' = put_job (db w) (f_job_id f) j'.
Proof.
  unfold setJobStatus. intros H Hj. run_inv.
  eapply job_update_ok in H as (_ & Hp & Hok & Hd); [|done..].
  eexists. split_and!; [done| | | | |exact Hok|exact Hd]; destruct at_; naive_solver.
Qed.

Lemma requeueJob_ok f j t w g w' :
  requeueJob (f_job_id f) t w = (Ok g, w') → jobs (db w) !! f_job_id f = Some j →
  ∃ j', isExecutingJobStatus (j_status j) = true ∧ job_def j' = job_def j ∧
    j_status j' = StatusQueued ∧
    j_notification_generation j' = (j_notification_generation j + 1)%Z ∧
    g = j_notification_generation j' ∧ j_available_at j' = t ∧
    job_ok (queues (db w)) (jobs (db w)) (f_job_id f) j' ∧
    db w' = put_job (db w) (f_job_id f) j'.
Proof.
  unfold requeueJob. intros H Hj. run_inv.
  eapply job_update_ok in H as (Heq & Hp & Hok & Hd); [|done..]. injection Heq as ->.
  eexists. split_and!; [done| | | | | |exact Hok|exact Hd]; done.
Qed.

(** The attempt and the lease a terminal outcome closes before it moves the job. *)
Lemma close_rows scope st f s j a l g status w r w1 w2 u :
  fenced (db w) scope f st s j a l →
  sql_update (f_attempt_id f) (λ a, isExecutingAttemptStatus (a_status a)) g w
    = (Ok (Some r), w1) →
  release_lease (f_lease_id f) status (fs_server_now st) w1 = (Ok u, w2) →
  (∀ a, attempt_def (g a) = attempt_def a) → status ≠ LeaseActive →
  let l' := l <| l_status := status |> <| l_released_at := Some (fs_server_now st) |> in
  r = g a ∧ db w2 = (db w) <| job_attempts := <[f_attempt_id f:=g a]> (job_attempts (db w)) |>
    <| leases := <[f_lease_id f:=l']> (leases (db w)) |> ∧
  ∀ j', job_def j' = job_def j → job_ok (queues (db w)) (jobs (db w)) (f_job_id f) j' →
    closes (db w) (f_job_id f) j j' (f_attempt_id f) a (g a) (f_lease_id f) l l'.
Proof.
  intros Hf Hu Hr Hg Hs l'.
  eapply attempt_update_ok in Hu as (Heq & _ & Hac & Haf & Hd1); [|done|apply Hf].
  injection Heq as ->.
  eapply release_lease_ok in Hr as (Hact & Hlf & Hlc & Hd2); [|rewrite Hd1; apply Hf].
  rewrite Hd2, Hd1 in *. split_and!; [done..|]. intros j' Hd Hok.
  eapply fenced_closes; eauto. by apply inactive_lease.
Qed.

(** What a retry decision says of the class and of the budget. *)
Definition decides (st : fenceState) (class : FailureClass) (dec : Decision) : Prop :=
  if Retry dec
  then (fs_attempt_number st < fs_max_attempts st)%Z ∧
    (class = ClassRetryable ∨ class = ClassTimedOut ∨ class = ClassAbandoned ∧ DecisionDelay dec = 0%Z)
  else (class = ClassPermanent ∧ DeadLetterReason dec = ReasonPermanentFailure) ∨
    (class ≠ ClassPermanent ∧ (fs_max_attempts st ≤ fs_attempt_number st)%Z ∧
     DeadLetterReason dec = ReasonAttemptsExhausted).

(** The rows of a failure, as the transaction that decided on it stores them. *)
Definition failure_stored (d : DB) (st : fenceState) (o : attemptOutcome) (a : Attempt) (l : Lease) : Prop :=
  ∀ delay at_, attempt_check (close_attempt st o delay at_ a) = true →
    fails d a (close_attempt st o delay at_ a)
      l (l <| l_status := ao_lease_status o |> <| l_released_at := Some (fs_server_now st) |>)
      (fs_server_now st) (ao_class o).

Lemma timestamptz_idem t : timestamptz (timestamptz t) = timestamptz t.
Proof. unfold timestamptz. Z.to_euclidean_division_equations. lia. Qed.

Lemma finalizeAttempt_steps scope st f s j a l o dec w r w' :
  fenced (db w) scope f st s j a l → finalizeAttempt st f o dec w = (Ok r, w') →
  ao_lease_status o ≠ LeaseActive → decides st (ao_class o) dec → failure_stored (db w) st o a l →
  steps (db w) (db w').
Proof.
  intros Hf H Hls Hdec Hst. unfold finalizeAttempt in H.
  destruct (fenced_status _ _ _ _ _ _ _ _ Hf) as (_ & _ & _ & Hn & Hm & _).
  run_inv; match goal with H : on_unique_violation _ _ _ = _ |- _ => apply on_unique_ok in H end.
  all: match goal with
    | H1 : sql_update _ _ _ _ = _, H2 : release_lease _ _ _ _ = _ |- _ =>
      destruct (close_rows _ _ _ _ _ _ _ _ _ _ _ _ _ _ Hf H1 H2) as (-> & Hd & Hcl); [done..|]
    end.
  all: match goal with
    | H : setJobStatus _ _ _ _ _ = _ |- _ =>
      eapply setJobStatus_ok in H as (j' & Hex & Hdef & Hs & Hg & Hav & Hok & Hd');
        [|rewrite Hd; apply Hf]
    | H : requeueJob _ _ _ = _ |- _ =>
      eapply requeueJob_ok in H as (j' & Hex & Hdef & Hs & Hg & -> & Hav & Hok & Hd');
        [|rewrite Hd; apply Hf]
    end; rewrite Hd in *; specialize (Hcl j' Hdef Hok); apply steps_one.
  all: match type of Hcl with closes _ _ _ _ _ _ ?a' _ _ ?l' =>
    assert (finishes (db w) a a' l l' (fs_server_now st) (ao_class o)) as Hfin
      by (split; [apply Hst, Hcl|done..]) end.
  all: unfold decides in Hdec; rewrite Hb, Hn, Hm in Hdec.
  - rewrite Hd'. eapply (t_retry (db w)); [exact Hcl|done|done|exact Hfin|apply Hdec|done|..].
    + destruct Hdec as (_ & [?|[?|[_ Hz]]]); [by left|by right|]. rewrite Hz in Hb0. done.
    + done.
    + by apply Z.ltb_lt.
    + done.
    + specialize (Hav _ eq_refl). rewrite Hav, timestamptz_idem. done.
  - match goal with H : InsertWorkAvailableTx _ _ _ _ _ = _ |- _ =>
      apply InsertWorkAvailableTx_ok in H as (_ & e & He & ->) end. rewrite Hd' in *.
    eapply (t_requeue (db w)); [exact Hcl|done|done|exact Hfin|apply Hdec|done|exact He|..|exact Hav].
    + destruct Hdec as (_ & Hc). intros Hp. rewrite Hp in Hc. by destruct Hc as [?|[?|[? _]]].
    + pose proof (cl_acheck _ _ _ _ _ _ _ _ _ _ Hcl) as Hck. unfold attempt_check in Hck. simpl in *. bools.
      f_equal. lia.
  - match goal with H : InsertDLQEntryTx _ _ _ _ _ _ _ = _ |- _ =>
      apply InsertDLQEntryTx_db in H as (e & Hnone & Hid & Hat & Hre & _ & ->) end.
    rewrite Hd' in *. eapply (t_dead_letter (db w)); [exact Hcl|done|done|exact Hfin|done..| |done].
    by rewrite Hre.
Qed.

Lemma finalizeCancellation_steps scope st f s j a l oid ls w r w' :
  fenced (db w) scope f st s j a l → finalizeCancellation st f oid ls w = (Ok r, w') →
  (healthy (db w) l ∧ (fs_server_now st < l_expires_at l)%Z ∧ ls = LeaseReleased) ∨
    ((l_expires_at l ≤ fs_server_now st)%Z ∧ ls = LeaseExpired) →
  steps (db w) (db w').
Proof.
  intros Hf H Hcase. unfold finalizeCancellation in H.
  assert (ls ≠ LeaseActive) as Hls by (destruct Hcase as [(_ & _ & ->)|[_ ->]]; done). run_inv.
  match goal with H : on_unique_violation _ _ _ = _ |- _ => apply on_unique_ok in H end.
  destruct x as [a'|]; [|done].
  match goal with
  | H1 : sql_update (f_attempt_id f) _ _ _ = _, H2 : release_lease _ _ _ _ = _ |- _ =>
    destruct (close_rows _ _ _ _ _ _ _ _ _ _ _ _ _ _ Hf H1 H2) as (-> & Hd & Hcl); [done..|]
  end.
  match goal with H : sql_update (f_job_id f) _ _ _ = _ |- _ =>
    eapply job_update_ok in H as (_ & Hp & Hok & Hd'); [|done|rewrite Hd; apply Hf] end.
  rewrite Hd in *. bools. rewrite Hd'. apply steps_one.
  eapply (t_canceled (db w)); [by apply Hcl|done..|by destruct Hcase; [left|right]].
Qed.

Lemma decideRetry_ok cfg class st w r w' :
  decideRetry cfg class st w = (Ok r, w') → db w' = db w ∧ ∀ dec, r = Ok dec → decides st class dec.
Proof.
  unfold decideRetry, jitter_sample. intros H. db_inv; split; try done; intros dec Hdec; unfold Decide in Hdec.
  all: destruct class; try discriminate; simplify_eq/=; try (by left).
  all: destruct (fs_attempt_number st <? fs_max_attempts st)%Z eqn:Hlt; simplify_eq/=; bools; unfold decides; simpl;
    first [by auto|right; by split_and!].
Qed.

Lemma rejectForeign_ok oid aid w u w' :
  rejectForeignOutcomeIdentity oid aid w = (Ok u, w') →
  w' = w ∧ ∀ k a, job_attempts (db w) !! k = Some a → a_outcome_request_id a = Some oid →
    ∃ a', job_attempts (db w) !! aid = Some a' ∧ a_outcome_request_id a' = Some oid.
Proof.
  unfold rejectForeignOutcomeIdentity. intros H. db_inv; bools; subst.
  - split; [done|]. intros k a' _ _. apply map_find_Some in Hm as [Hl Ho]. bools. eauto.
  - split; [done|]. intros k a Hk Ha. pose proof (map_find_None _ _ Hm k a Hk) as Hno.
    simpl in Hno. by rewrite bool_decide_eq_true_2 in Hno.
Qed.

Lemma lift_ok {A} (r : result error A) w a w' : lift r w = (Ok a, w') → r = Ok a ∧ w' = w.
Proof. destruct r; simpl; intros H; db_inv; done. Qed.

Ltac decide_inv :=
  match goal with H : decideRetry _ _ _ _ = _ |- _ => apply decideRetry_ok in H as [Hdb Hdec] end;
  try match goal with H : lift _ _ = _ |- _ => apply lift_ok in H as [-> ->] end.

Lemma Fail_steps cfg scope report : effects steps (Fail cfg scope report).
Proof.
  apply valid_steps. intros Hvalid. apply locked_steps. intros st s j a l w r w' Hf H. run_inv.
  - apply lift_ok in H as [_ ->]. unfold commit in *. by run_inv.
  - apply rejectForeign_ok in H as [-> _]. decide_inv.
    unfold commit in *. run_inv. rewrite <-Hdb in *. bools.
    destruct (fenced_status _ _ _ _ _ _ _ _ Hf) as (_ & Hast & _).
    eapply finalizeAttempt_steps; [exact Hf|eassumption|done|by apply Hdec|].
    intros delay at_ _. apply fails_reported; try done; [by eapply fenced_authorized|congruence|].
    apply app_eq_nil in Hvalid as [_ Hvalid]. apply app_eq_nil in Hvalid as [_ Hvalid].
    apply app_eq_nil in Hvalid as [Hvalid _]. simpl. destruct (fr_class report); (by auto) || discriminate.
Qed.

Lemma AcknowledgeCancellation_steps scope ack : effects steps (AcknowledgeCancellation scope ack).
Proof.
  apply validated_steps, locked_steps. intros st s j a l w r w' Hf H. run_inv.
  - unfold commit in *. by run_inv.
  - apply rejectForeign_ok in H as [-> _]. unfold commit in *. run_inv. bools.
    eapply finalizeCancellation_steps; [done..|]. left.
    split_and!; [by eapply fenced_healthy|by eapply fenced_live|done].
Qed.

Lemma RenewLease_steps cfg scope req : effects steps (RenewLease cfg scope req).
Proof.
  apply validated_steps. destruct (_ <=? 0)%Z; [apply effects_throw, _|].
  apply locked_healthy_steps. intros st s j a l w r w' Hf Hh H. db_inv; try done.
  bools. apply steps_one.
  destruct (fenced_status _ _ _ _ _ _ _ _ Hf) as (Hjs & _).
  match goal with H : tget _ !! _ = Some ?x |- _ => assert (x = l) as -> by
    (pose proof (fd_lease _ _ _ _ _ _ _ _ Hf) as Hrow; exact (Some_inj _ _ (eq_trans (eq_sym H) Hrow))) end.
  match goal with H : tcheck _ _ _ = None |- _ =>
    eapply (t_renew (db w) _ _ _ j a); [eassumption|done|done|done|exact (lease_constraints_free _ _ _ H)|
      exact (lease_constraints_check _ _ _ H)|..] end.
  - rewrite (fd_lease_job _ _ _ _ _ _ _ _ Hf). apply Hf.
  - by rewrite <-Hjs.
  - rewrite (fd_lease_attempt _ _ _ _ _ _ _ _ Hf). apply Hf.
  - by eapply fenced_authorized.
  - done.
Qed.

(** ** Reconciliation *)

Lemma finalizeTimeout_steps cfg scope st f s j a l stats w r w' :
  fenced (db w) scope f st s j a l → finalizeTimeout cfg st f stats w = (Ok r, w') →
  fs_lease_status st = LeaseActive → timedOutBeforeLapse st = true → steps (db w) (db w').
Proof.
  unfold finalizeTimeout. intros Hf H Hact Hp. run_inv.
  decide_inv. rewrite <-Hdb in *.
  eapply finalizeAttempt_steps; [exact Hf|eassumption|simpl; by destruct (_ && _)|by apply Hdec|].
  intros delay at_ Hck. unfold timedOutBeforeLapse, timedOut in Hp.
  rewrite (fd_state _ _ _ _ _ _ _ _ Hf) in Hp, Hact. simpl in Hp, Hact.
  destruct (a_timeout_at a) as [to|] eqn:Hto; [|done]. rewrite andb_true_iff, !negb_true_iff, !Z.ltb_ge in Hp.
  destruct Hp as [Hle Hnow]. apply (fails_timeout _ _ _ _ _ _ to); [done| |done|done|done|].
  - unfold attempt_check in Hck. simpl in Hck. rewrite Hto in Hck. bools. by destruct (a_started_at a).
  - simpl. rewrite (fd_state _ _ _ _ _ _ _ _ Hf). simpl. rewrite Hact. simpl.
    by destruct (fs_server_now st <? l_expires_at l)%Z.
Qed.

(** A due timeout of a live lease comes before the lapse. *)
Lemma due_before_lapse st : leaseUsable st = true → timedOut st = true → timedOutBeforeLapse st = true.
Proof.
  unfold leaseUsable, timedOutBeforeLapse. intros [_ Hl%Z.ltb_lt]%andb_true_iff Ht. rewrite Ht. unfold timedOut in Ht.
  destruct (fs_timeout_at st) as [t|]; [|done]. apply negb_true_iff, Z.ltb_ge in Ht. rewrite (proj2 (Z.ltb_ge _ _)) by lia. done.
Qed.

Lemma reconcileDueTimeout_tx_steps cfg scope f stats :
  effects steps (reconcileDueTimeout_tx cfg scope f stats).
Proof.
  apply locked_reconcile_steps. intros st s j a l w r w' Hf H. run_inv.
  - unfold no_commit in *. db_inv.
  - unfold commit in *. run_inv. rewrite !orb_false_iff, !negb_false_iff in Hb. destruct Hb as [[[Hl Ht] _] _].
    eapply finalizeTimeout_steps; [done|done|by apply leaseUsable_active|by apply due_before_lapse].
Qed.

Lemma reconcileExpiredLease_tx_steps cfg scope f stats :
  effects steps (reconcileExpiredLease_tx cfg scope f stats).
Proof.
  apply locked_reconcile_steps. intros st s j a l w r w' Hf H.
  run_inv; unfold no_commit, commit in *; run_inv; try done; bools.
  all: match goal with H : (fs_expires_at _ ≤ _)%Z |- _ => eapply fenced_lapsed in H; [|exact Hf] end.
  - eapply finalizeCancellation_steps; [done..|by right].
  - by eapply finalizeTimeout_steps.
  - decide_inv. rewrite <-Hdb in *.
    eapply finalizeAttempt_steps; [exact Hf|eassumption|done|by apply Hdec|].
    intros delay at_ _. apply fails_abandoned; try done. intros to Hto.
    match goal with H : timedOutBeforeLapse st = false |- _ =>
      unfold timedOutBeforeLapse, timedOut in H; rewrite (fd_state _ _ _ _ _ _ _ _ Hf) in H; simpl in H;
      rewrite Hto, andb_false_iff, !negb_false_iff, !Z.ltb_lt in H; destruct H; auto end.
Qed.

(** ** Whole sweeps *)

(** A guard, the clock, the rows: then one transaction per row. *)
Ltac sweep :=
  repeat match goal with
  | |- effects _ (if ?b then _ else _) => destruct b; [apply effects_throw, _|]
  end;
  do 2 (apply effects_bind; [apply _|by apply resolve_reads|]; intros ?);
  apply effects_for_each; [apply _|]; intros ? ?.

(** The transaction's answer, counted. *)
Ltac counted := apply effects_bind; [apply _| |intros ?; apply effects_ret, _].

Lemma PromoteDueJobs_steps limit : effects steps (PromoteDueJobs limit).
Proof. unfold PromoteDueJobs. sweep. counted. apply promoteDueJob_steps. Qed.

Lemma RenotifyStrandedQueued_steps after limit :
  effects steps (RenotifyStrandedQueued after limit).
Proof. unfold RenotifyStrandedQueued. sweep. counted. apply renotifyStrandedJob_steps. Qed.

Lemma MarkStaleSessions_steps after limit : effects steps (MarkStaleSessions after limit).
Proof. unfold MarkStaleSessions. sweep. counted. apply markSessionStale_steps. Qed.

Lemma reconcileDueTimeout_steps cfg id stats : effects steps (reconcileDueTimeout cfg id stats).
Proof.
  unfold reconcileDueTimeout. apply effects_bind; [apply _|by apply resolve_reads|].
  intros d. repeat case_match; try (apply effects_ret, _). apply reconcileDueTimeout_tx_steps.
Qed.

Lemma reconcileExpiredLease_steps cfg id stats :
  effects steps (reconcileExpiredLease cfg id stats).
Proof.
  unfold reconcileExpiredLease. apply effects_bind; [apply _|by apply resolve_reads|].
  intros [l|]; [apply reconcileExpiredLease_tx_steps|apply effects_ret, _].
Qed.

Lemma ReconcileDueTimeouts_steps cfg limit : effects steps (ReconcileDueTimeouts cfg limit).
Proof. unfold ReconcileDueTimeouts. sweep. apply reconcileDueTimeout_steps. Qed.

Lemma ReconcileExpiredLeases_steps cfg limit : effects steps (ReconcileExpiredLeases cfg limit).
Proof. unfold ReconcileExpiredLeases. sweep. apply reconcileExpiredLease_steps. Qed.
