(* ===== verification/System.v ===== *)
(** * The running system

    Any number of API servers, workers, schedulers, reconcilers and publishers
    act on one database.  Each of their transactions is a step; between two steps
    anything else may happen, so a history is any sequence of transactions with
    any arguments, clock readings, uuids, jitter samples and stored JSON.  The
    theorems say what holds of every database such a history reaches. *)

From S2P Require Import Prelude.
From S2P Require Import GoText.
From S2P Require Import GoFloat.
From S2P Require Import Schema.
From S2P Require Import Lifecycle.
From S2P Require Import Submit.
From S2P Require Import Outbox.
From S2P Require Import JobsStore.
From S2P Require Import Results.
From S2P Require Import WorkersTypes.
From S2P Require Import WorkersStore.
From S2P Require Import WorkersOutcome.
From S2P Require Import Invariant.
From S2P Require Import Transitions.
From S2P Require Import Refinement.

(** ** Histories *)

(** The transactions of the program, with their arguments. *)
Inductive call :=
| CallSubmit (scope key fingerprint : string) (req : NormalizedRequest) (trace : option TraceContext)
| CallRequestCancel (scope : string) (jobID : uuid)
| CallPromote (jobID : uuid)
| CallRenotify (jobID : uuid) (after : duration)
| CallReplay (scope : string) (jobID : uuid) (key : string)
| CallRegister (scope : string) (reg : Registration)
| CallClaim (cfg : StoreConfig) (scope : string) (req : ClaimRequest)
| CallStart (scope : string) (f : Fence)
| CallSucceed (scope : string) (f : Fence) (res : option ResultRef)
| CallFail (cfg : StoreConfig) (scope : string) (report : FailureReport)
| CallAcknowledge (scope : string) (ack : CancelAcknowledgment)
| CallHeartbeat (scope : string) (req : HeartbeatRequest)
| CallRenew (cfg : StoreConfig) (scope : string) (req : RenewalRequest)
| CallMarkStale (sessionID : uuid) (after : duration)
| CallTimeout (cfg : StoreConfig) (scope : string) (f : Fence) (stats : ReconcileStats)
| CallExpire (cfg : StoreConfig) (scope : string) (f : Fence) (stats : ReconcileStats)
| CallClaimDue (limit : nat) (claimTimeout : duration)
| CallMarkPublished (id : uuid)
| CallRecordFailure (id : uuid) (cause : string) (retryAfter : duration)
| CallReleaseClaim (id : uuid).

Definition exec (c : call) (w : World) : World :=
  match c with
  | CallSubmit scope key fp req trace => (submit_tx scope key fp req trace w).2
  | CallRequestCancel scope id => (RequestCancel scope id w).2
  | CallPromote id => (promoteDueJob id w).2
  | CallRenotify id after => (renotifyStrandedJob id after w).2
  | CallReplay scope id key => (replay_tx scope id key w).2
  | CallRegister scope reg => (Register scope reg w).2
  | CallClaim cfg scope req => (claim_tx cfg scope req w).2
  | CallStart scope f => (Start scope f w).2
  | CallSucceed scope f res => (Succeed scope f res w).2
  | CallFail cfg scope report => (Fail cfg scope report w).2
  | CallAcknowledge scope ack => (AcknowledgeCancellation scope ack w).2
  | CallHeartbeat scope req => (Heartbeat scope req w).2
  | CallRenew cfg scope req => (RenewLease cfg scope req w).2
  | CallMarkStale id after => (markSessionStale id after w).2
  | CallTimeout cfg scope f stats => (reconcileDueTimeout_tx cfg scope f stats w).2
  | CallExpire cfg scope f stats => (reconcileExpiredLease_tx cfg scope f stats w).2
  | CallClaimDue limit timeout => (ClaimDue limit timeout w).2
  | CallMarkPublished id => (MarkPublished id w).2
  | CallRecordFailure id cause after => (RecordFailure id cause after w).2
  | CallReleaseClaim id => (ReleaseClaim id w).2
  end.

(** One transaction, in any world around the database. *)
Definition sys_step (d d' : DB) : Prop := ∃ c w, db w = d ∧ db (exec c w) = d'.

(** The databases reached from a fresh one with the queues [qs]. *)
Definition fresh (qs : gmap string Queue) : DB := mkDB qs ∅ ∅ ∅ ∅ ∅ ∅ ∅ ∅ ∅ ∅.
Definition reachable (qs : gmap string Queue) (d : DB) : Prop := rtc sys_step (fresh qs) d.

(** [CHECK (max_concurrency > 0)]. *)
Definition queues_ok (qs : gmap string Queue) : Prop :=
  map_Forall (λ _ q, (0 < q_max_concurrency q)%Z) qs.

Lemma effects_run {A} (m : Tx A) w : effects steps m → steps (db w) (db (m w).2).
Proof. intros Hm. destruct (m w) as [r w'] eqn:Hrun. by eapply Hm. Qed.

(** Every transaction of the program is a sequence of matrix transitions. *)
Lemma exec_steps c w : steps (db w) (db (exec c w)).
Proof.
  destruct c; apply effects_run.
  - apply submit_tx_steps.
  - apply RequestCancel_steps.
  - apply promoteDueJob_steps.
  - apply renotifyStrandedJob_steps.
  - apply replay_tx_steps.
  - apply Register_steps.
  - apply claim_tx_steps.
  - apply Start_steps.
  - apply Succeed_steps.
  - apply Fail_steps.
  - apply AcknowledgeCancellation_steps.
  - apply Heartbeat_steps.
  - apply RenewLease_steps.
  - apply markSessionStale_steps.
  - apply reconcileDueTimeout_tx_steps.
  - apply reconcileExpiredLease_tx_steps.
  - apply ClaimDue_steps.
  - apply MarkPublished_steps.
  - apply RecordFailure_steps.
  - apply ReleaseClaim_steps.
Qed.

Lemma steps_inv d d' : steps d d' → Inv d → Inv d'.
Proof. induction 1 as [|d1 d2 d3 Ht _ IH]; [done|]. intros Hi. by eapply IH, transition_inv. Qed.

Lemma steps_follows d d' : steps d d' → follows d d'.
Proof.
  induction 1 as [|d1 d2 d3 Ht _ IH]; [done|]. etrans; [by apply transition_follows|done].
Qed.

Lemma fresh_inv qs : queues_ok qs → Inv (fresh qs).
Proof.
  intros Hq. split; simpl; try (by intros ? ? ?); [by split; intros; simplify_map_eq|..].
  - by split; intros; simplify_map_eq.
  - split; try (by intros; simplify_map_eq).
    + intros jid n Hn. unfold number_of_attempts, map_count, map_where in Hn.
      rewrite map_to_list_empty in Hn. simpl in Hn. lia.
  - by split; intros; simplify_map_eq.
  - intros q row Hrow. unfold map_count, map_where. rewrite map_to_list_empty. simpl.
    specialize (Hq q row Hrow). simpl in Hq. lia.
  - by split; intros; simplify_map_eq.
Qed.

(** A history is a sequence of matrix transitions too. *)
Lemma history_steps d d' : rtc sys_step d d' → steps d d'.
Proof.
  induction 1 as [|d1 d2 d3 H12 _ IH]; [done|].
  destruct H12 as (c & w & <- & <-). etrans; [apply exec_steps|done].
Qed.

Lemma reachable_Inv qs d : queues_ok qs → reachable qs d → Inv d.
Proof. intros Hq Hr. eapply steps_inv; [by apply history_steps|by apply fresh_inv]. Qed.
