(* ===== verification/Scenario.v ===== *)
(** * Concrete histories

    A small system that runs: one queue of capacity one, one worker, a clock that
    advances a second at every reading.  The databases it reaches are evaluated,
    not described; the theorems of the other files are applied to them. *)

From S2P Require Import Prelude.
From S2P Require Import GoText.
From S2P Require Import GoFloat.
From S2P Require Import GoTime.
From S2P Require Import Schema.
From S2P Require Import Lifecycle.
From S2P Require Import Submit.
From S2P Require Import Outbox.
From S2P Require Import JobsStore.
From S2P Require Import Results.
From S2P Require Import WorkersTypes.
From S2P Require Import WorkersStore.
From S2P Require Import WorkersOutcome.
From S2P Require Import Invariant.
From S2P Require Import Transitions.
From S2P Require Import Refinement.
From S2P Require Import System.

(** ** The pieces *)

Definition sc_queues : gmap string Queue := {[ "default"%string := mkQueue 1 "default" ]}.

(** Uuids in decimal. *)
Definition sc_uuid_String (u : uuid) : string := Itoa (Z.of_N u).
Definition sc_uuid_Parse (s : string) : option uuid :=
  match digits s with
  | (ds, EmptyString) => Some (Z.to_N (atoi_acc 0 ds))
  | _ => None
  end.

(** A world around [d] whose clock reads [start] and then a second more each
    time, and whose uuids are [base], [base + 1], ... *)
Definition sc_world (d : DB) (start : time) (base : N) : World :=
  mkWorld d (λ n, (start + Z.of_nat n * Second)%Z) 0 0 (λ n, (base + N.of_nat n)%N) 0
    (λ _, f64_0) 0 Some (λ _, 0%Z) sc_uuid_String sc_uuid_Parse.

Lemma sc_world_db d start base : db (sc_world d start base) = d.
Proof. done. Qed.

(** The same database at a later time. *)
Lemma sc_later d start base : rtc sys_step d (db (sc_world d start base)).
Proof. apply rtc_refl. Qed.

Definition sc_req : NormalizedRequest :=
  mkNormalized "default" "echo" "{}" 50 2 60 [] None.

Definition sc_fp : string := String.concat "" (repeat "0123456789abcdef"%string 4).

Definition sc_reg : Registration :=
  mkRegistration 7 "worker-a" "host-a" "default" 2 [] ["echo"%string] None.

Definition sc_cfg : StoreConfig :=
  mkStoreConfig (30 * Second) (RetryPolicy.mk Second (10 * Second) f64_2 f64_0) false.

(** The calls of a history, each with the clock it starts at and its uuids. *)
Definition sc_run (calls : list (call * time * N)) (d : DB) : DB :=
  fold_left (λ d '(c, t, u), db (exec c (sc_world d t u))) calls d.

Lemma sc_run_reachable qs calls d :
  reachable qs d → reachable qs (sc_run calls d).
Proof.
  revert d. induction calls as [|[[c t] u] calls IH]; intros d Hd; [done|]. simpl. apply IH.
  eapply rtc_r; [exact Hd|]. exists c, (sc_world d t u). done.
Qed.

Lemma sc_queues_ok : queues_ok sc_queues.
Proof. apply map_Forall_singleton. simpl. lia. Qed.

Definition sec (s : Z) : time := (s * Second)%Z.

(** ** A history *)

Definition sc_claim (request : uuid) : ClaimRequest := mkClaimRequest 200 7 request "default".

(** The first attempt: job 100, attempt 300, lease 301, worker 200, session 7. *)
Definition sc_fence : Fence := mkFence 100 300 301 200 7.
Definition sc_fence2 : Fence := mkFence 100 600 601 200 7.

Definition sc_submitted : list (call * time * N) :=
  [ (CallSubmit "t1" "key" sc_fp sc_req None, sec 1000, 100%N);
    (CallRegister "t1" sc_reg, sec 1010, 200%N) ].
Definition sc_claimed : list (call * time * N) :=
  sc_submitted ++ [ (CallClaim sc_cfg "t1" (sc_claim 77), sec 1020, 300%N) ].
Definition sc_running : list (call * time * N) :=
  sc_claimed ++ [ (CallStart "t1" sc_fence, sec 1030, 400%N) ].

Definition sc_report : FailureReport :=
  mkFailureReport sc_fence 88 ClassRetryable "handler_error" "the backend was away".
Definition sc_result : ResultRef := mkResultRef LocationInline (Some "{}"%string) "" "" 2 "".

Definition sc_succeeded : list (call * time * N) :=
  sc_running ++ [ (CallSucceed "t1" sc_fence (Some sc_result), sec 1040, 500%N) ].
Definition sc_failed : list (call * time * N) :=
  sc_running ++ [ (CallFail sc_cfg "t1" sc_report, sec 1040, 500%N) ].
(** The retry: promoted, claimed again (attempt 600, lease 601), started. *)
Definition sc_retried : list (call * time * N) :=
  sc_failed ++
  [ (CallPromote 100, sec 1050, 550%N);
    (CallClaim sc_cfg "t1" (sc_claim 78), sec 1060, 600%N);
    (CallStart "t1" sc_fence2, sec 1070, 700%N) ].
(** The second attempt is abandoned with no budget left. *)
Definition sc_dead : list (call * time * N) :=
  sc_retried ++ [ (CallExpire sc_cfg "t1" sc_fence2 ReconcileStats_zero, sec 1200, 800%N) ].
Definition sc_cancelling : list (call * time * N) :=
  sc_running ++ [ (CallRequestCancel "t1" 100, sec 1035, 450%N) ].

(** Two renewals carry the lease past the execution deadline at 1091 s. *)
Definition sc_renewed : list (call * time * N) :=
  sc_running ++ [ (CallRenew sc_cfg "t1" (mkRenewal sc_fence 91 0), sec 1045, 500%N);
                  (CallRenew sc_cfg "t1" (mkRenewal sc_fence 92 1), sec 1070, 500%N) ].

(** The database a history from the fresh system reaches. *)
Definition at_end (calls : list (call * time * N)) : DB := sc_run calls (fresh sc_queues).

Lemma at_end_reachable calls : reachable sc_queues (at_end calls).
Proof. apply sc_run_reachable, rtc_refl. Qed.

Lemma at_end_Inv calls : Inv (at_end calls).
Proof. eapply reachable_Inv; [apply sc_queues_ok|apply at_end_reachable]. Qed.

Lemma at_end_app calls calls' : rtc sys_step (at_end calls) (at_end (calls ++ calls')).
Proof.
  unfold at_end, sc_run. rewrite fold_left_app.
  generalize (fold_left (λ d '(c, t, u), db (exec c (sc_world d t u))) calls (fresh sc_queues)).
  induction calls' as [|[[c t] u] calls' IH]; intros d; [apply rtc_refl|]. simpl.
  eapply rtc_l; [by exists c, (sc_world d t u)|apply IH].
Qed.

Lemma at_end_last calls c t u :
  at_end (calls ++ [(c, t, u)]) = db (exec c (sc_world (at_end calls) t u)).
Proof. unfold at_end, sc_run. by rewrite fold_left_app. Qed.

(** The status of the job along the histories. *)
Example sc_statuses :
  (λ calls, j_status <$> jobs (at_end calls) !! 100%N) <$>
    [sc_submitted; sc_claimed; sc_running; sc_succeeded; sc_failed; sc_retried; sc_dead;
     sc_cancelling] =
  Some <$> [StatusQueued; StatusLeased; StatusRunning; StatusSucceeded; StatusRetryWait;
     StatusRunning; StatusDeadLettered; StatusCancelRequested].
Proof. vm_compute. reflexivity. Qed.
