(* ===== verification/History.v ===== *)
(** * What a history never changes

    Terminal jobs, closed attempts and leases, ended sessions, published events,
    dead-letter entries, results, idempotency and replay records are permanent;
    every other row keeps its identity. *)

From S2P Require Import Prelude.
From S2P Require Import GoText.
From S2P Require Import Schema.
From S2P Require Import JobsStore.
From S2P Require Import WorkersStore.
From S2P Require Import WorkersOutcome.
From S2P Require Import Invariant.
From S2P Require Import Transitions.
From S2P Require Import Refinement.
From S2P Require Import System.

(** [m'] has every row of [m]; rows that are [final] are the same, the others keep
    what [key] reads of them. *)
Definition keeps {K V D : Type} `{Countable K} (key : V → D) (final : V → bool)
    (m m' : gmap K V) : Prop :=
  ∀ k v, m !! k = Some v → ∃ v', m' !! k = Some v' ∧ key v' = key v ∧ (final v = true → v' = v).

Section keeps.
Context {K V D : Type} `{Countable K} (key : V → D) (final : V → bool).

#[export] Instance keeps_preorder : PreOrder (keeps (K:=K) key final).
Proof.
  split.
  - intros m k v Hk. eauto.
  - intros m1 m2 m3 H12 H23 k v Hk.
    destruct (H12 k v Hk) as (v2 & Hk2 & Hkey2 & Hf2).
    destruct (H23 k v2 Hk2) as (v3 & Hk3 & Hkey3 & Hf3).
    exists v3. split_and!; [done|congruence|]. intros Hf.
    specialize (Hf2 Hf) as ->. by apply Hf3.
Qed.

Lemma keeps_new (m : gmap K V) k v : m !! k = None → keeps key final m (<[k:=v]> m).
Proof. intros Hn k' v' Hk'. exists v'. rewrite lookup_insert_ne by congruence. done. Qed.

Lemma keeps_update (m : gmap K V) k v v' :
  m !! k = Some v → key v' = key v → final v = false → keeps key final m (<[k:=v']> m).
Proof.
  intros Hk Hkey Hf k0 v0 Hk0. destruct (decide (k = k0)) as [->|Hne].
  - exists v'. rewrite lookup_insert_eq. simplify_eq. split_and!; [done..|congruence].
  - exists v0. by rewrite lookup_insert_ne.
Qed.
End keeps.

Definition always {V : Type} (_ : V) : bool := true.

(** ** The permanent part of a database *)
Record permanent (d d' : DB) : Prop := {
  pm_queues : queues d' = queues d;
  pm_jobs : keeps job_def (λ j, Terminal (j_status j)) (jobs d) (jobs d');
  pm_attempts : keeps attempt_def (λ a, negb (isExecutingAttemptStatus (a_status a)))
    (job_attempts d) (job_attempts d');
  pm_leases : keeps lease_def (λ l, negb (is_active l)) (leases d) (leases d');
  pm_sessions : keeps session_def (λ s, negb (isCurrentSessionStatus (s_status s)))
    (worker_sessions d) (worker_sessions d');
  pm_events : keeps event_def (λ e, bool_decide (e_status e = EventPublished))
    (outbox_events d) (outbox_events d');
  pm_dlq : keeps id always (dlq_entries d) (dlq_entries d');
  pm_results : keeps id always (results d) (results d');
  pm_idem : keeps id always (idempotency_records d) (idempotency_records d');
  pm_replays : keeps id always (dlq_replays d) (dlq_replays d');
}.

#[export] Instance permanent_preorder : PreOrder permanent.
Proof.
  split.
  - intros d. split; reflexivity.
  - intros d1 d2 d3 [] []. split; [congruence|etrans; eassumption..].
Qed.

Lemma cancel_target_not_terminal s t : cancel_target s = Some t → Terminal s = false.
Proof. by destruct s. Qed.

Lemma executing_not_terminal s : Executing s = true → Terminal s = false.
Proof. by destruct s. Qed.

Lemma promotable_not_terminal s : promotable s = true → Terminal s = false.
Proof. by destruct s. Qed.

#[export] Hint Resolve cancel_target_not_terminal executing_not_terminal
  promotable_not_terminal : taskforge.

(** The rows a close writes were all open. *)
Lemma closes_permanent d id j j' aid a a' lid l l' :
  Inv d → closes d id j j' aid a a' lid l l' → Terminal (j_status j) = false →
  permanent d (write d id j' aid a' lid l').
Proof.
  intros Hi Hc Ht. pose proof (closes_inv _ _ _ _ _ _ _ _ _ _ Hi Hc) as (_ & _ & Hlive & _).
  assert (isExecutingAttemptStatus (a_status a) = true) as Hex
    by (by destruct (j_status j), (a_status a)).
  destruct Hc as [[Hj Hd Hck] Ha Hl Hlj Hla Hact Hend Had Hld Hu _ _ _].
  split; simpl; try reflexivity.
  - by eapply keeps_update.
  - eapply keeps_update; [done..|]. by rewrite Hex.
  - eapply keeps_update; [done..|]. by rewrite Hact.
Qed.

Lemma moves_permanent d id j j' es :
  moves d id j j' → Terminal (j_status j) = false →
  keeps event_def (λ e, bool_decide (e_status e = EventPublished)) (outbox_events d) es →
  permanent d ((put_job d id j') <| outbox_events := es |>).
Proof.
  intros [Hj Hd Hck] Ht He. split; simpl; try reflexivity; [by eapply keeps_update|done].
Qed.

(** One more row in a table that never had its key. *)
Lemma permanent_results d id r :
  results d !! id = None → permanent d (d <| results := <[id:=r]> (results d) |>).
Proof. intros Hn. split; simpl; try reflexivity. by apply keeps_new. Qed.
Lemma permanent_dlq d id e :
  dlq_entries d !! id = None → permanent d (d <| dlq_entries := <[id:=e]> (dlq_entries d) |>).
Proof. intros Hn. split; simpl; try reflexivity. by apply keeps_new. Qed.
Lemma permanent_event d id e :
  outbox_events d !! id = None → permanent d (add_event d id e).
Proof. intros Hn. split; simpl; try reflexivity. by apply keeps_new. Qed.

Lemma claim_permanent d id j j' aid a lid l :
  moves d id j j' → j_status j = StatusQueued → job_attempts d !! aid = None →
  leases d !! lid = None → permanent d (write d id j' aid a lid l).
Proof.
  intros [Hj Hd Hck] Hs Ha Hl. split; simpl; try reflexivity; try by apply keeps_new.
  eapply keeps_update; [done..|]. by rewrite Hs.
Qed.

Lemma start_permanent d id j j' aid a a' :
  moves d id j j' → j_status j = StatusLeased → job_attempts d !! aid = Some a →
  attempt_def a' = attempt_def a → a_status a = AttemptLeased →
  permanent d ((put_job d id j') <| job_attempts := <[aid:=a']> (job_attempts d) |>).
Proof.
  intros [Hj Hd Hck] Hs Ha Had Has. split; simpl; try reflexivity.
  - eapply keeps_update; [done..|]. by rewrite Hs.
  - eapply keeps_update; [done..|]. by rewrite Has.
Qed.

Lemma transition_permanent d d' : transition d d' → Inv d → permanent d d'.
Proof.
  intros Ht Hi. destruct Ht.
  - destruct H3 as (He & _). split; simpl; try reflexivity; by apply keeps_new.
  - split; simpl; try reflexivity. by apply keeps_new.
  - split; simpl; try reflexivity. by apply keeps_new.
  - split; simpl; try reflexivity. by apply keeps_new.
  - eapply (moves_permanent d id j j' (<[eid:=e]> (outbox_events d))); eauto with taskforge.
    apply keeps_new, H3.
  - eapply (moves_permanent d id j j' (<[eid:=e]> (outbox_events d))); eauto; [by rewrite H0|].
    apply keeps_new, H3.
  - apply (moves_permanent d id j j' (outbox_events d)); eauto with taskforge. reflexivity.
  - by eapply claim_permanent.
  - by eapply start_permanent.
  - etrans; [eapply closes_permanent; eauto; by rewrite H0|].
    destruct H6 as [-> | (r & Hn & _ & _ & ->)]; [reflexivity|].
    by apply (permanent_results (write d id j' aid a' lid l')).
  - eapply closes_permanent; eauto with taskforge.
  - etrans; [eapply closes_permanent; eauto with taskforge|]. apply (permanent_event (write d id j' aid a' lid l')), H5.
  - etrans; [eapply closes_permanent; eauto with taskforge|]. by apply (permanent_dlq (write d id j' aid a' lid l')).
  - eapply closes_permanent; eauto. by rewrite H0.
  - split; simpl; try reflexivity. eapply keeps_update; [done..|]. by rewrite H0.
  - by split.
  - split; simpl; try reflexivity. destruct (worker_sessions d !! sid) as [s0|] eqn:Hs0.
    + destruct (H0 s0 eq_refl) as [Hdef [Hcur| ->]]; [|by rewrite insert_id].
      eapply keeps_update; [done..|]. by rewrite Hcur.
    + by apply keeps_new.
  - split; simpl; try reflexivity. eapply keeps_update; [done..|]. by rewrite H0.
Qed.

Lemma steps_permanent d d' : steps d d' → Inv d → permanent d d'.
Proof.
  induction 1 as [|d1 d2 d3 Ht _ IH]; intros Hi; [reflexivity|].
  etrans; [by apply transition_permanent|]. apply IH. by eapply transition_inv.
Qed.

(** Along any history. *)
Lemma history_permanent d d' : rtc sys_step d d' → Inv d → permanent d d'.
Proof. intros. by apply steps_permanent; [apply history_steps|]. Qed.

(** ** Timed out or abandoned *)

(** Every attempt that ended with its lease did so by the rule of precedence. *)
Definition precedent (d : DB) : Prop := ∀ aid a lid l,
  job_attempts d !! aid = Some a → leases d !! lid = Some l → l_attempt_id l = aid → precedence a l = true.

Lemma executing_precedence a l : isExecutingAttemptStatus (a_status a) = true → precedence a l = true.
Proof. unfold precedence. by destruct (a_status a). Qed.
Lemma other_precedence a l : a_status a ∈ [AttemptSucceeded; AttemptCanceled] → precedence a l = true.
Proof. unfold precedence. set_unfold. by intros [-> | [-> | []]]. Qed.

Lemma closes_precedent d id j j' aid a a' lid l l' :
  Inv d → closes d id j j' aid a a' lid l l' → precedent d → precedence a' l' = true →
  precedent (write d id j' aid a' lid l').
Proof.
  intros Hi Hc Hp Hpr k b m r Hk Hm Hr. destruct Hc as [_ Ha Hl _ Hla _ _ _ Hld _ _ _ _]. simpl in Hk, Hm.
  apply lease_def_fields in Hld as (_ & Hla' & _).
  destruct (decide (m = lid)) as [->|Hne]; rewrite ?lookup_insert_eq, ?lookup_insert_ne in Hm by done.
  - simplify_eq. rewrite Hla' in Hk. rewrite lookup_insert_eq in Hk. by injection Hk as <-.
  - destruct (decide (k = aid)) as [->|Hka]; rewrite ?lookup_insert_eq, ?lookup_insert_ne in Hk by done; [|by eapply Hp].
    destruct Hne. apply (li_unique _ _ _ (inv_leases _ Hi) m lid r l Hm Hl).
    unfold lease_conflict. by rewrite bool_decide_eq_true_2 by congruence.
Qed.

Lemma transition_precedent d d' : transition d d' → Inv d → precedent d → precedent d'.
Proof.
  intros Ht Hi Hp. destruct Ht; try exact Hp.
  - (* claim *) intros k b m r Hk Hm Hr. simpl in Hk, Hm.
    destruct (decide (k = aid)) as [->|Hne]; rewrite ?lookup_insert_eq, ?lookup_insert_ne in Hk by done.
    + injection Hk as <-. apply executing_precedence. by rewrite H10.
    + destruct (decide (m = lid)) as [->|Hm']; rewrite ?lookup_insert_eq, ?lookup_insert_ne in Hm by done; [|by eapply Hp].
      injection Hm as <-. congruence.
  - (* start *) intros k b m r Hk Hm Hr. simpl in Hk, Hm.
    destruct (decide (k = aid)) as [->|Hne]; rewrite ?lookup_insert_eq, ?lookup_insert_ne in Hk by done; [|by eapply Hp].
    injection Hk as <-. apply executing_precedence. by rewrite H9.
  - eapply closes_precedent; eauto. apply other_precedence. rewrite H3. by left.
  - eapply closes_precedent; eauto using finishes_precedence.
  - eapply (closes_precedent d); eauto using finishes_precedence.
  - eapply (closes_precedent d); eauto using finishes_precedence.
  - eapply closes_precedent; eauto. apply other_precedence. rewrite H2. right. by left.
  - (* renew *) intros k b m r Hk Hm Hr. simpl in Hk, Hm.
    destruct (decide (m = lid)) as [->|Hm']; rewrite ?lookup_insert_eq, ?lookup_insert_ne in Hm by done; [|by eapply Hp].
    injection Hm as <-. apply lease_def_fields in H2 as (_ & Hla & _).
    destruct (li_lease _ _ _ (inv_leases _ Hi) lid l H) as (a0 & j0 & Ha & _ & _ & Hif). rewrite H0 in Hif.
    apply executing_precedence. assert (a0 = b) as -> by congruence. destruct Hif as [Hl _].
    by destruct (j_status j0), (a_status b).
Qed.

Lemma history_precedent d d' : rtc sys_step d d' → Inv d → precedent d → precedent d'.
Proof.
  intros Hs%history_steps. induction Hs as [|d1 d2 d3 Ht _ IH]; [done|]. intros Hi Hp.
  apply IH; [by eapply transition_inv|by eapply transition_precedent].
Qed.
Lemma reachable_precedent qs d : queues_ok qs → reachable qs d → precedent d.
Proof.
  intros Hq Hr. eapply history_precedent; [exact Hr|by apply fresh_inv|].
  intros aid a lid l Ha. simpl in Ha. by rewrite lookup_empty in Ha.
Qed.
