(* ===== verification/Safety.v ===== *)
(** * What holds of every reachable database

    The system-level theorems: the cross-table invariant and what it says of
    leases, capacity, attempts, dead letters, notifications, successes and
    sessions; the job state machine; what no history changes. *)

From S2P Require Import Prelude.
From S2P Require Import GoText.
From S2P Require Import GoFloat.
From S2P Require Import Schema.
From S2P Require Import Lifecycle.
From S2P Require Import Submit.
From S2P Require Import Outbox.
From S2P Require Import JobsStore.
From S2P Require Import Results.
From S2P Require Import WorkersTypes.
From S2P Require Import WorkersStore.
From S2P Require Import WorkersOutcome.
From S2P Require Import Invariant.
From S2P Require Import Transitions.
From S2P Require Import Refinement.
From S2P Require Import System.
From S2P Require Import History.
From S2P Require Import Scenario.

(** ** Implementation of the matrix *)


(** C10: whatever transactions run, in any order and interleaving, the database
    satisfies the cross-table invariant. *)
Theorem invariant_holds qs d : queues_ok qs → reachable qs d → Inv d.
Proof. apply reachable_Inv. Qed.

Lemma invariant_holds_witness : Inv (at_end sc_retried).
Proof. apply (invariant_holds sc_queues); [apply sc_queues_ok|apply at_end_reachable]. Defined.

(** ** Leases *)

(** C1: a job is LEASED, RUNNING or CANCEL_REQUESTED exactly when one ACTIVE
    lease names it; that lease is unique, and it binds the job to an attempt in
    the matching status, which is the latest attempt of the job. *)
Theorem exclusive_execution qs d id j :
  queues_ok qs → reachable qs d → jobs d !! id = Some j →
  (holds_lease (j_status j) = true ↔
   ∃ lid l, leases d !! lid = Some l ∧ l_job_id l = id ∧ is_active l = true) ∧
  (∀ lid l lid' l', leases d !! lid = Some l → leases d !! lid' = Some l' →
     l_job_id l = id → l_job_id l' = id → is_active l = true → is_active l' = true →
     lid = lid' ∧ ∃ a, job_attempts d !! l_attempt_id l = Some a ∧ a_job_id a = id ∧
       live (j_status j) (a_status a) = true ∧ a_number a = attempt_count d id).
Proof.
  intros Hq Hr Hj. pose proof (reachable_Inv qs d Hq Hr) as Hi.
  destruct (inv_leases _ Hi) as [Hl _ Hjob Hu].
  assert (∀ lid l, leases d !! lid = Some l → l_job_id l = id → is_active l = true →
    ∃ a, job_attempts d !! l_attempt_id l = Some a ∧ a_job_id a = id ∧
      live (j_status j) (a_status a) = true ∧ a_number a = attempt_count d id) as Hlive.
  { intros lid l Hlid Hid Hact. destruct (Hl lid l Hlid) as (a & j0 & Ha & Hj0 & Hb & Hif).
    rewrite Hact in Hif. destruct Hif, Hb as [Haj _]. rewrite Hid in *. simplify_eq. eauto. }
  split; [split|].
  - by apply Hjob.
  - intros (lid & l & Hlid & Hid & Hact). destruct (Hlive lid l Hlid Hid Hact) as (a & _ & _ & Hv & _).
    by apply live_not_succeeded in Hv as (_ & _ & _ & _ & _ & ?).
  - intros lid l lid' l' H1 H2 E1 E2 A1 A2. split; [|by eauto].
    eapply Hu; [done..|]. apply lease_conflict_job; congruence.
Qed.

Lemma exclusive_execution_witness :
  ∃ j, jobs (at_end sc_retried) !! 100%N = Some j ∧
  (holds_lease (j_status j) = true ↔
   ∃ lid l, leases (at_end sc_retried) !! lid = Some l ∧ l_job_id l = 100%N ∧
     is_active l = true).
Proof.
  eexists. split; [vm_compute; reflexivity|].
  apply (exclusive_execution sc_queues (at_end sc_retried) 100%N);
    [apply sc_queues_ok|apply at_end_reachable|vm_compute; reflexivity].
Defined.



(** ** Attempts *)

(** The attempts of a job are numbered 1, 2, ..., n without gap or repetition,
    n is at most [max_attempts], and a job that waits for an attempt (PENDING,
    QUEUED or RETRY_WAIT) still has budget for it. *)
Theorem attempts_numbered_within_budget qs d id j :
  queues_ok qs → reachable qs d → jobs d !! id = Some j →
  (∀ n, (1 ≤ n ≤ attempt_count d id)%Z ↔
     ∃ aid a, job_attempts d !! aid = Some a ∧ a_job_id a = id ∧ a_number a = n) ∧
  (∀ aid a aid' a', job_attempts d !! aid = Some a → job_attempts d !! aid' = Some a' →
     a_job_id a = id → a_job_id a' = id → a_number a = a_number a' → aid = aid') ∧
  (attempt_count d id ≤ j_max_attempts j)%Z ∧
  (waiting (j_status j) = true → attempt_count d id < j_max_attempts j)%Z.
Proof.
  intros Hq Hr Hj. destruct (inv_attempts _ (reachable_Inv qs d Hq Hr)) as [_ Hn Hc Hu Hb _].
  split_and!; [|intros; eapply Hu; eauto; congruence|by eapply Hb..].
  intros n. split; [apply Hc|]. intros (aid & a & Ha & <- & <-). by eapply Hn.
Qed.

Lemma attempts_numbered_within_budget_witness :
  ∃ j, jobs (at_end sc_retried) !! 100%N = Some j ∧ attempt_count (at_end sc_retried) 100 = 2%Z ∧
  ∃ aid a, job_attempts (at_end sc_retried) !! aid = Some a ∧ a_job_id a = 100%N ∧
    a_number a = 1%Z.
Proof.
  eexists. split; [vm_compute; reflexivity|]. split; [vm_compute; reflexivity|].
  apply (attempts_numbered_within_budget sc_queues (at_end sc_retried) 100%N _
    sc_queues_ok (at_end_reachable sc_retried) ltac:(vm_compute; reflexivity)).
  vm_compute. split; discriminate.
Defined.

(** A job is SUCCEEDED exactly when one of its attempts is; that attempt is
    unique and is the last one, so a job never succeeds twice and nothing runs
    after the success. *)
Theorem success_is_unique qs d id j :
  queues_ok qs → reachable qs d → jobs d !! id = Some j →
  (j_status j = StatusSucceeded ↔
   ∃ aid a, job_attempts d !! aid = Some a ∧ a_job_id a = id ∧ a_status a = AttemptSucceeded) ∧
  (∀ aid a aid' a', job_attempts d !! aid = Some a → job_attempts d !! aid' = Some a' →
     a_job_id a = id → a_job_id a' = id → a_status a = AttemptSucceeded →
     (a_number a' ≤ a_number a)%Z ∧ (a_status a' = AttemptSucceeded → aid = aid')).
Proof.
  intros Hq Hr Hj. destruct (inv_attempts _ (reachable_Inv qs d Hq Hr)) as [Hjob Hn _ Hu _ Hs].
  split; [split|].
  - by apply Hs.
  - intros (aid & a & Ha & <- & Hst). destruct (Hjob aid a Ha) as (j0 & Hj0 & Himp).
    simplify_eq. by apply Himp.
  - intros aid a aid' a' Ha Ha' Hid Hid' Hst.
    destruct (Hjob aid a Ha) as (j0 & _ & Himp). destruct (Himp Hst) as [_ Hlast].
    pose proof (Hn aid' a' Ha') as Hb'. rewrite Hid' in Hb'. rewrite Hid in Hlast.
    split; [lia|]. intros Hst'. eapply Hu; [done..|congruence|].
    destruct (Hjob aid' a' Ha') as (j1 & _ & Himp'). destruct (Himp' Hst') as [_ Hlast'].
    rewrite Hid' in Hlast'. lia.
Qed.

Lemma success_is_unique_witness :
  ∃ j, jobs (at_end sc_succeeded) !! 100%N = Some j ∧ j_status j = StatusSucceeded ∧
  ∃ aid a, job_attempts (at_end sc_succeeded) !! aid = Some a ∧ a_job_id a = 100%N ∧
    a_status a = AttemptSucceeded.
Proof.
  eexists. split; [vm_compute; reflexivity|]. split; [vm_compute; reflexivity|].
  apply (success_is_unique sc_queues (at_end sc_succeeded) 100%N _
    sc_queues_ok (at_end_reachable sc_succeeded) ltac:(vm_compute; reflexivity)).
  vm_compute. reflexivity.
Defined.

(** ** Dead letters, notifications, results *)

(** A job is DEAD_LETTERED exactly when it has a dead-letter entry, and it
    never has two. *)
Theorem dead_letter_exactly_once qs d id j :
  queues_ok qs → reachable qs d → jobs d !! id = Some j →
  (j_status j = StatusDeadLettered ↔
   ∃ eid e, dlq_entries d !! eid = Some e ∧ d_job_id e = id) ∧
  (∀ eid e eid' e', dlq_entries d !! eid = Some e → dlq_entries d !! eid' = Some e' →
     d_job_id e = id → d_job_id e' = id → eid = eid').
Proof.
  intros Hq Hr Hj. destruct (inv_dlq _ (reachable_Inv qs d Hq Hr)) as [He Hjob Hu].
  split; [split|intros; eapply Hu; eauto; congruence].
  - by apply Hjob.
  - intros (eid & e & Hl & <-). destruct (He eid e Hl) as (j0 & Hj0 & ?). congruence.
Qed.

Lemma dead_letter_exactly_once_witness :
  ∃ j, jobs (at_end sc_dead) !! 100%N = Some j ∧ j_status j = StatusDeadLettered ∧
  ∃ eid e, dlq_entries (at_end sc_dead) !! eid = Some e ∧ d_job_id e = 100%N.
Proof.
  eexists. split; [vm_compute; reflexivity|]. split; [vm_compute; reflexivity|].
  apply (dead_letter_exactly_once sc_queues (at_end sc_dead) 100%N _
    sc_queues_ok (at_end_reachable sc_dead) ltac:(vm_compute; reflexivity)).
  vm_compute. reflexivity.
Defined.



(** A stored result belongs to a SUCCEEDED job of the same scope, and names
    its SUCCEEDED attempt. *)
Theorem result_belongs_to_success qs d id r :
  queues_ok qs → reachable qs d → results d !! id = Some r →
  ∃ j a, jobs d !! id = Some j ∧ j_status j = StatusSucceeded ∧ j_scope j = rs_scope r ∧
    job_attempts d !! rs_attempt_id r = Some a ∧ a_job_id a = id ∧ a_status a = AttemptSucceeded.
Proof. intros Hq Hr. apply (inv_results _ (reachable_Inv qs d Hq Hr)). Qed.

Lemma result_belongs_to_success_witness :
  ∃ r, results (at_end sc_succeeded) !! 100%N = Some r ∧
  ∃ j a, jobs (at_end sc_succeeded) !! 100%N = Some j ∧ j_status j = StatusSucceeded ∧
    j_scope j = rs_scope r ∧ job_attempts (at_end sc_succeeded) !! rs_attempt_id r = Some a ∧
    a_job_id a = 100%N ∧ a_status a = AttemptSucceeded.
Proof.
  eexists. split; [vm_compute; reflexivity|].
  apply (result_belongs_to_success sc_queues); [apply sc_queues_ok|apply at_end_reachable|].
  vm_compute. reflexivity.
Defined.

(** A worker has at most one current session (STARTING, HEALTHY or
    DRAINING), and a session that was fenced or went stale never changes again. *)
Theorem one_current_session qs d d' sid sid' s s' :
  queues_ok qs → reachable qs d → rtc sys_step d d' →
  worker_sessions d !! sid = Some s → worker_sessions d !! sid' = Some s' →
  s_worker_id s = s_worker_id s' → isCurrentSessionStatus (s_status s) = true →
  (isCurrentSessionStatus (s_status s') = true → sid = sid') ∧
  (isCurrentSessionStatus (s_status s') = false → worker_sessions d' !! sid' = Some s').
Proof.
  intros Hq Hr Hd Hs Hs' Hw Hc. pose proof (reachable_Inv qs d Hq Hr) as Hi. split.
  - intros Hc'. by eapply (inv_sessions _ Hi).
  - intros Hc'. destruct (pm_sessions _ _ (history_permanent _ _ Hd Hi) sid' s' Hs')
      as (s1 & Hl & _ & Hf). rewrite Hl. f_equal. apply Hf. by rewrite Hc'.
Qed.

(** A second process of the same worker registers: session 7 is fenced. *)
Definition sc_replaced : list (call * time * N) :=
  sc_running ++
  [ (CallRegister "t1" (mkRegistration 8 "worker-a" "host-a" "default" 2 [] ["echo"%string] None),
     sec 1033, 440%N) ].

Lemma one_current_session_witness :
  ∃ s s', worker_sessions (at_end sc_replaced) !! 8%N = Some s ∧
    worker_sessions (at_end sc_replaced) !! 7%N = Some s' ∧
    isCurrentSessionStatus (s_status s) = true ∧ s_status s' = SessionOffline ∧
    worker_sessions (at_end sc_replaced) !! 7%N = Some s'.
Proof.
  eexists _, _. split; [vm_compute; reflexivity|]. split; [vm_compute; reflexivity|].
  split; [vm_compute; reflexivity|]. split; [vm_compute; reflexivity|].
  eapply (one_current_session sc_queues (at_end sc_replaced) (at_end sc_replaced) 8%N 7%N);
    [apply sc_queues_ok|apply at_end_reachable|apply rtc_refl| | | | |];
    vm_compute; reflexivity.
Defined.

(** ** Histories *)

(** Whatever happens, a job that exists stays, its definition (scope, queue,
    type, payload, priority, budget, timeout, capabilities, schedule, origin,
    creation time) never changes, and its status moves only along the edges of
    the documented state machine. *)
Theorem jobs_follow_state_machine d d' id j :
  rtc sys_step d d' → jobs d !! id = Some j →
  ∃ j', jobs d' !! id = Some j' ∧ job_def j' = job_def j ∧
    rtc edge (j_status j) (j_status j').
Proof. intros Hd. apply (steps_follows _ _ (history_steps _ _ Hd)). Qed.

Lemma jobs_follow_state_machine_witness :
  ∃ j, jobs (at_end sc_running) !! 100%N = Some j ∧
  ∃ j', jobs (at_end sc_dead) !! 100%N = Some j' ∧ job_def j' = job_def j ∧
    rtc edge StatusRunning (j_status j').
Proof.
  eexists. split; [vm_compute; reflexivity|].
  apply (jobs_follow_state_machine (at_end sc_running) (at_end sc_dead) 100%N);
    [|vm_compute; reflexivity].
  unfold sc_dead, sc_retried, sc_failed. rewrite <-!app_assoc. apply at_end_app.
Defined.

(** C17: outcomes are final.  Along any history from a reachable database, a
    terminal job, an attempt that is no longer LEASED or RUNNING, a lease that is
    no longer ACTIVE, a published event, a dead-letter entry, a result and an
    idempotency record keep exactly their rows. *)
Theorem outcomes_are_final qs d d' :
  queues_ok qs → reachable qs d → rtc sys_step d d' →
  (∀ id j, jobs d !! id = Some j → Terminal (j_status j) = true → jobs d' !! id = Some j) ∧
  (∀ id a, job_attempts d !! id = Some a → isExecutingAttemptStatus (a_status a) = false →
     job_attempts d' !! id = Some a) ∧
  (∀ id l, leases d !! id = Some l → is_active l = false → leases d' !! id = Some l) ∧
  (∀ id e, outbox_events d !! id = Some e → e_status e = EventPublished →
     outbox_events d' !! id = Some e) ∧
  dlq_entries d ⊆ dlq_entries d' ∧ results d ⊆ results d' ∧
  idempotency_records d ⊆ idempotency_records d' ∧ dlq_replays d ⊆ dlq_replays d'.
Proof.
  intros Hq Hr Hd. pose proof (history_permanent d d' Hd (reachable_Inv qs d Hq Hr)) as Hp.
  split_and!.
  - intros id j Hj Ht. by destruct (pm_jobs _ _ Hp id j Hj) as (? & ? & _ & <-).
  - intros id a Ha Hx. destruct (pm_attempts _ _ Hp id a Ha) as (v & Hv & _ & Hf).
    rewrite Hv. f_equal. apply Hf.
    by rewrite Hx.
  - intros id l Hl Hx. destruct (pm_leases _ _ Hp id l Hl) as (v & Hv & _ & Hf).
    rewrite Hv. f_equal. apply Hf.
    by rewrite Hx.
  - intros id e He Hx. destruct (pm_events _ _ Hp id e He) as (v & Hv & _ & Hf).
    rewrite Hv. f_equal. apply Hf.
    by apply bool_decide_eq_true_2.
  - apply map_subseteq_spec. intros k v Hk. by destruct (pm_dlq _ _ Hp k v Hk) as (? & ? & _ & <-).
  - apply map_subseteq_spec. intros k v Hk.
    by destruct (pm_results _ _ Hp k v Hk) as (? & ? & _ & <-).
  - apply map_subseteq_spec. intros k v Hk. by destruct (pm_idem _ _ Hp k v Hk) as (? & ? & _ & <-).
  - apply map_subseteq_spec. intros k v Hk.
    by destruct (pm_replays _ _ Hp k v Hk) as (? & ? & _ & <-).
Qed.

Lemma outcomes_are_final_witness :
  ∃ a, job_attempts (at_end sc_failed) !! 300%N = Some a ∧
    a_status a = AttemptFailed ∧ job_attempts (at_end sc_dead) !! 300%N = Some a.
Proof.
  eexists. split; [vm_compute; reflexivity|]. split; [vm_compute; reflexivity|].
  destruct (outcomes_are_final sc_queues (at_end sc_failed) (at_end sc_dead))
    as (_ & Ha & _); [apply sc_queues_ok|apply at_end_reachable| |].
  - unfold sc_dead, sc_retried. rewrite <-app_assoc. apply at_end_app.
  - apply Ha; vm_compute; reflexivity.
Defined.
