(* ===== verification/Running.v ===== *)
(** * Running the operations forward

    The answer and the database of a statement or a transaction whose guards are
    known: the rules with which the operations are evaluated, one line of code at
    a time. *)

From S2P Require Import Prelude.
From S2P Require Import GoText.
From S2P Require Import GoFloat.
From S2P Require Import Schema.
From S2P Require Import Lifecycle.
From S2P Require Import Outbox.
From S2P Require Import JobsStore.
From S2P Require Import WorkersTypes.
From S2P Require Import WorkersStore.
From S2P Require Import WorkersOutcome.
From S2P Require Import Invariant.
From S2P Require Import Transitions.
From S2P Require Import Refinement.

(** The clock reading a transaction takes first, after [BEGIN]. *)
Definition first_reading (w : World) : time := timestamptz (clock w (S (reads w))).

(** A run by its answer. *)
Lemma run_answer {A} (m : Tx A) w r : (m w).1 = r → m w = (r, (m w).2).
Proof. intros <-. by destruct (m w). Qed.

(** ** Transactions *)

Lemma transaction_commits {A} (body : Tx (bool * A)) w a w' :
  body (begin_tx w) = (Ok (true, a), w') → transaction body w = (Ok a, w').
Proof. unfold transaction. by intros ->. Qed.

(** A transaction whose body reaches the commit, and the database it leaves. *)
Lemma commits_with {A} (body : Tx (bool * A)) w a w' d :
  body (begin_tx w) = (Ok (true, a), w') → db w' = d →
  ∃ w', transaction body w = (Ok a, w') ∧ db w' = d.
Proof. intros Hb Hd. exists w'. split; [by apply transaction_commits|done]. Qed.

Lemma transaction_skips {A} (body : Tx (bool * A)) w a w' :
  body (begin_tx w) = (Ok (false, a), w') →
  transaction body w = (Ok a, w' <| db := db w |>).
Proof. unfold transaction. by intros ->. Qed.

Lemma transaction_fails {A} (body : Tx (bool * A)) w e w' :
  body (begin_tx w) = (Err e, w') → transaction body w = (Err e, w' <| db := db w |>).
Proof. unfold transaction. by intros ->. Qed.

(** ** Statements *)
Section statements.
Context {K V : Type} `{Table K V}.

Lemma sql_insert_run k v w :
  tget (db w) !! k = None → tcheck (db w) k v = None →
  sql_insert k v w = (Ok tt, w <| db := tput (<[k:=v]> (tget (db w))) (db w) |>).
Proof. unfold sql_insert. by intros -> ->. Qed.

Lemma sql_insert_fresh_run k v w :
  tget (db w) !! k = None → tcheck (db w) k v = None →
  sql_insert_or_nothing k v w = (Ok true, w <| db := tput (<[k:=v]> (tget (db w))) (db w) |>).
Proof. unfold sql_insert_or_nothing. by intros -> ->. Qed.

Lemma sql_insert_conflict_run k v v' w :
  tget (db w) !! k = Some v' → sql_insert_or_nothing k v w = (Ok false, w).
Proof. unfold sql_insert_or_nothing. by intros ->. Qed.

Lemma sql_update_run k p f v w :
  tget (db w) !! k = Some v → p v = true → tcheck (db w) k (f v) = None →
  sql_update k p f w =
    (Ok (Some (f v)), w <| db := tput (<[k:=f v]> (tget (db w))) (db w) |>).
Proof. unfold sql_update. by intros -> -> ->. Qed.

Lemma sql_get_run k w : sql_get k w = (Ok (tget (db w) !! k), w).
Proof. done. Qed.
End statements.

Lemma job_in_scope_run scope id j w :
  jobs (db w) !! id = Some j → j_scope j = scope → job_in_scope scope id w = (Ok j, w).
Proof.
  intros Hj <-. unfold job_in_scope. erewrite bind_run by apply sql_get_run. simpl.
  rewrite Hj. by rewrite bool_decide_eq_true_2.
Qed.

(** A job of another scope is as absent as a job that does not exist. *)
Lemma job_in_scope_absent scope id w :
  (∀ j, jobs (db w) !! id = Some j → j_scope j ≠ scope) →
  job_in_scope scope id w = (Err ErrJobNotFound, w).
Proof.
  intros Hj. unfold job_in_scope. erewrite bind_run by apply sql_get_run. simpl.
  destruct (jobs (db w) !! id) as [j|]; [|done]. rewrite bool_decide_eq_false_2; [done|auto].
Qed.

Lemma lock_queue_run name q w : queues (db w) !! name = Some q → lock_queue name w = (Ok q, w).
Proof. intros Hq. unfold lock_queue. erewrite bind_run by done. by rewrite Hq. Qed.

(** The locking prologue of a job operation: routed, queue locked, read again. *)
Lemma routed_run {A} scope id j (k : Job → Tx A) w :
  Inv (db w) → jobs (db w) !! id = Some j → j_scope j = scope →
  (routed ← job_in_scope scope id; lock_queue (j_queue routed);;
   j ← job_in_scope scope id; k j) w = k j w.
Proof.
  intros Hi Hj Hs. destruct (ro_job _ _ _ _ _ (inv_rows _ Hi) id j Hj) as (_ & [q Hq] & _).
  erewrite bind_run by (by apply job_in_scope_run). erewrite bind_run by (by eapply lock_queue_run).
  by erewrite bind_run by (by apply job_in_scope_run).
Qed.

(** ** Constraints of rewritten rows *)

Lemma job_ok_constraints d id j :
  job_ok (queues d) (jobs d) id j → job_constraints d id j = None.
Proof.
  intros (Hc & [q Hq] & Hr). unfold job_constraints. apply pg_verdict_None. split_and!; [done..|].
  rewrite Hq. simpl. destruct (j_replayed_from j) as [o|]; [|done].
  destruct (Hr o eq_refl) as (jo & Hjo & Hs). unfold job_is. rewrite Hjo.
  by apply bool_decide_eq_true_2.
Qed.

(** A job row rewritten in its mutable columns passes what it passed before, when
    the columns that depend on each other are rewritten together. *)
Lemma job_ok_move qs js id j j' :
  job_ok qs js id j → job_def j' = job_def j →
  (j_status j' = StatusPending → j_status j = StatusPending) →
  is_Some_b (j_cancel_requested_at j') =
    bool_decide (j_status j' = StatusCancelRequested ∨ j_status j' = StatusCanceled) →
  ((0 < j_notification_generation j')%Z ∧ is_Some (j_last_notification_at j') ∨
   j_notification_generation j' = j_notification_generation j ∧
   j_last_notification_at j' = j_last_notification_at j) →
  job_ok qs js id j'.
Proof.
  intros (Hc & Hq & Hr) Hdef Hp Hcan Hgen. unfold job_def in Hdef.
  injection Hdef as E1 E2 E3 E4 E5 E6 E7 E8 Hsch E9 _.
  unfold job_ok, job_check in *. rewrite E1, E2, E3, E4, E5, E6, E7, E9, Hcan, Hsch.
  split_and!; [|done..].
  rewrite !andb_true_iff in *. destruct Hc as (((Hc & Hpend) & _) & Hg). split_and!; try tauto.
  - destruct (bool_decide (j_status j' = StatusPending)) eqn:Hs; [|done]. bools.
    by rewrite bool_decide_eq_true_2 in Hpend by auto.
  - apply eqb_reflx.
  - destruct Hgen as [[Hpos [t ->]]|[-> ->]]; [|done].
    by rewrite (proj2 (Z.ltb_lt _ _) Hpos), orb_true_r.
Qed.

Definition canceling (s : JobStatus) : bool :=
  bool_decide (s = StatusCancelRequested ∨ s = StatusCanceled).

Lemma job_check_canceling id j :
  job_check id j = true → is_Some_b (j_cancel_requested_at j) = canceling (j_status j).
Proof.
  unfold job_check. rewrite !andb_true_iff. intros ((_ & Hc) & _). by apply eqb_prop in Hc.
Qed.

(** A move between statuses that are both, or neither, of cancellation. *)
Lemma job_ok_status qs js id j j' :
  job_ok qs js id j → job_def j' = job_def j → j_status j' ≠ StatusPending →
  j_cancel_requested_at j' = j_cancel_requested_at j →
  canceling (j_status j') = canceling (j_status j) →
  ((0 < j_notification_generation j')%Z ∧ is_Some (j_last_notification_at j') ∨
   j_notification_generation j' = j_notification_generation j ∧
   j_last_notification_at j' = j_last_notification_at j) →
  job_ok qs js id j'.
Proof.
  intros Hok Hd Hp Hc Hs Hg. eapply job_ok_move; [exact Hok|done| | |done]; [done|].
  rewrite Hc. destruct Hok as [Hck _]. rewrite (job_check_canceling _ _ Hck). done.
Qed.

Lemma attempt_ok_constraints d aid a :
  attempt_ok (jobs d) (worker_sessions d) a → attempt_free (job_attempts d) aid a →
  (∀ k a', job_attempts d !! k = Some a' → a_job_id a' = a_job_id a →
    a_number a' = a_number a → k = aid) →
  attempt_constraints d aid a = None.
Proof.
  intros (Hc & (j & Hj & Hsc & Hq) & (s & Hs & Hw & Hss)) Hfree Hnum.
  unfold attempt_constraints. apply pg_verdict_None. split_and!; [done| |].
  - apply negb_true_iff, map_any_false. intros k a' Hk.
    destruct (decide (k = aid)) as [->|Hne]; [by rewrite bool_decide_eq_true_2|].
    rewrite bool_decide_eq_false_2 by done. simpl. apply orb_false_iff. split.
    + apply bool_decide_eq_false. intros [Hj' Hn]. by apply Hne, (Hnum k a').
    + destruct (a_outcome_request_id a) as [o|] eqn:Ho; [|done]. simpl.
      apply bool_decide_eq_false. intros Ho'. by apply Hne, (Hfree k a' o).
  - unfold job_is, session_is. rewrite Hj, Hs. by rewrite !bool_decide_eq_true_2.
Qed.

Lemma attempt_free_same ats aid a a' :
  attempt_free ats aid a → a_outcome_request_id a' = a_outcome_request_id a →
  attempt_free ats aid a'.
Proof. unfold attempt_free. by intros Hf ->. Qed.

(** A rewritten attempt keeps its references and, when its outcome identity stays,
    its place in the unique indexes. *)
Lemma attempt_update_constraints d aid a a' :
  Inv d → job_attempts d !! aid = Some a → attempt_def a' = attempt_def a →
  attempt_check a' = true → attempt_free (job_attempts d) aid a' →
  attempt_constraints d aid a' = None.
Proof.
  intros Hi Ha Hdef Hc Hfree. apply attempt_ok_constraints; [|done|].
  - eapply attempt_ok_update; [|done..]. by eapply (ro_attempt _ _ _ _ _ (inv_rows _ Hi)).
  - apply attempt_def_fields in Hdef as (Hj & _ & _ & Hn & _). intros k a0 Hk Hkj Hkn.
    eapply (ai_unique _ _ (inv_attempts _ Hi)); [exact Hk|exact Ha|congruence..].
Qed.

(** ** The fence *)

(** The rows a fence names, in the order the code locks them. *)
Record names_rows (d : DB) (scope : string) (f : Fence) (s : WorkerSession) (j : Job)
    (a : Attempt) (l : Lease) : Prop := {
  nr_lease : leases d !! f_lease_id f = Some l;
  nr_lease_binds : l_job_id l = f_job_id f ∧ l_attempt_id l = f_attempt_id f ∧
    l_worker_id l = f_worker_id f ∧ l_session_id l = f_session_id f ∧ l_scope l = scope;
  nr_session : worker_sessions d !! f_session_id f = Some s;
  nr_job : jobs d !! f_job_id f = Some j;
  nr_attempt : job_attempts d !! f_attempt_id f = Some a;
}.

(** On a consistent database the lease decides: the session, attempt, job and
    queue it names are there and agree. *)
Lemma names_rows_bound d scope f s j a l :
  Inv d → names_rows d scope f s j a l →
  bound j a l ∧ s_worker_id s = f_worker_id f ∧ s_scope s = scope ∧
  is_Some (queues d !! l_queue l).
Proof.
  intros Hi [Hl (Hlj & Hla & Hlw & Hls & Hsc) Hs Hj Ha].
  destruct (li_lease _ _ _ (inv_leases _ Hi) _ _ Hl) as (a0 & j0 & Ha0 & Hj0 & Hb & _).
  rewrite Hla, Hlj in *. rewrite Ha in Ha0. rewrite Hj in Hj0. injection Ha0 as <-.
  injection Hj0 as <-. split; [done|].
  destruct (ro_attempt _ _ _ _ _ (inv_rows _ Hi) _ _ Ha) as (_ & _ & (s0 & Hs0 & Hw & Hss)).
  destruct (ro_job _ _ _ _ _ (inv_rows _ Hi) _ _ Hj) as (_ & Hq & _).
  destruct Hb as (_ & Hasc & _ & Haw & Has & _ & Hjq).
  rewrite Has, Hls, Hs in Hs0. injection Hs0 as <-. rewrite <-Hjq.
  split_and!; [congruence..|done].
Qed.

Lemma lockAuthorityRows_run scope f s j a l w :
  Inv (db w) → names_rows (db w) scope f s j a l →
  lockAuthorityRows scope f w =
    (Ok (fence_state scope s j a l (timestamptz (clock w (reads w)))),
     w <| reads := S (reads w) |>).
Proof.
  intros Hi Hn. destruct (names_rows_bound _ _ _ _ _ _ _ Hi Hn)
    as ((Haj & Hasc & _ & Haw & Has & Hjsc & _) & Hsw & Hss & [q Hq]).
  destruct Hn as [Hl (Hlj & Hla & Hlw & Hls & Hsc) Hs Hj Ha].
  unfold lockAuthorityRows. erewrite bind_run by reflexivity.
  unfold fence_lease. rewrite Hl. simpl. rewrite bool_decide_eq_true_2 by done.
  erewrite bind_run by (by eapply lock_queue_run).
  unfold fence_session. rewrite Hs. simpl. rewrite bool_decide_eq_true_2 by done.
  unfold fence_rows. rewrite Hj, Ha, Hl. simpl.
  rewrite bool_decide_eq_true_2 by (split_and!; congruence). reflexivity.
Qed.

(** An active lease's job and attempt are live. *)
Lemma names_rows_live d scope f s j a l :
  Inv d → names_rows d scope f s j a l → l_status l = LeaseActive →
  live (j_status j) (a_status a) = true ∧ a_number a = number_of_attempts (job_attempts d) (f_job_id f).
Proof.
  intros Hi [Hl (Hlj & Hla & _) Hs Hj Ha] Hact.
  destruct (li_lease _ _ _ (inv_leases _ Hi) _ _ Hl) as (a0 & j0 & Ha0 & Hj0 & _ & Hif).
  rewrite Hla in Ha0. rewrite Hlj in Hj0, Hif. rewrite (active_lease l Hact) in Hif.
  rewrite Ha in Ha0. rewrite Hj in Hj0. by simplify_eq.
Qed.

Lemma lockFence_run scope f s j a l w :
  Inv (db w) → names_rows (db w) scope f s j a l → s_status s = SessionHealthy →
  lockFence scope f w =
    (Ok (fence_state scope s j a l (timestamptz (clock w (reads w)))),
     w <| reads := S (reads w) |>).
Proof.
  intros Hi Hn Hs. unfold lockFence. erewrite bind_run by (by apply lockAuthorityRows_run).
  simpl. by rewrite bool_decide_eq_true_2.
Qed.

Lemma leaseUsable_run scope s j a l now :
  l_status l = LeaseActive → (now < l_expires_at l)%Z →
  leaseUsable (fence_state scope s j a l now) = true.
Proof.
  intros Hl Hlt. unfold leaseUsable. simpl. rewrite Hl. simpl. by apply Z.ltb_lt.
Qed.

(** The rows a fence names pass their constraints. *)
Lemma names_rows_ok d scope f s j a l :
  Inv d → names_rows d scope f s j a l →
  job_ok (queues d) (jobs d) (f_job_id f) j ∧ attempt_check a = true ∧
  attempt_free (job_attempts d) (f_attempt_id f) a ∧ lease_check l = true.
Proof.
  intros Hi [Hl _ _ Hj Ha]. destruct (inv_rows _ Hi) as [Hr1 Hr2 Hr3 Hr4].
  split_and!; eauto. by eapply Hr2.
Qed.

Lemma validated_run {A} fields (m : Tx A) w :
  fields = [] → (validated fields;; m) w = m w.
Proof. by intros ->. Qed.

(** A fence with five uuids passes [ValidateFence]. *)
Definition fence_valid (f : Fence) : Prop :=
  f_job_id f ≠ uuid_Nil ∧ f_attempt_id f ≠ uuid_Nil ∧ f_lease_id f ≠ uuid_Nil ∧
  f_worker_id f ≠ uuid_Nil ∧ f_session_id f ≠ uuid_Nil.

Lemma fence_valid_fields f : fence_valid f → fence_fields f = [].
Proof.
  intros (? & ? & ? & ? & ?). unfold fence_fields, require_uuid.
  by rewrite !bool_decide_eq_false_2.
Qed.
