(* ===== verification/Fingerprints.v ===== *)
(** * The request fingerprint is a code

    internal/jobs/submit.go, [Fingerprint]: the byte stream it hashes determines
    the request, because every field is preceded by its length and the
    capabilities by their number. *)

From S2P Require Import Prelude.
From S2P Require Import GoText.
From S2P Require Import GoTime.
From S2P Require Import GoBytes.
From S2P Require Import Schema.
From S2P Require Import Submit.

Local Open Scope Z_scope.
#[local] Ltac Zify.zify_post_hook ::= Z.to_euclidean_division_equations.

(** ** Big-endian lengths *)

Lemma be_bytes_range n x : Forall (λ b, 0 ≤ b < 256) (be_bytes n x).
Proof.
  revert x. induction n as [|n IH]; intros x; simpl; [constructor|].
  apply Forall_app. split; [apply IH|]. repeat constructor.
  all: change 255 with (Z.ones 8); rewrite Z.land_ones by lia; apply Z.mod_pos_bound; lia.
Qed.

Lemma be_bytes_length n x : length (be_bytes n x) = n.
Proof. revert x. induction n as [|n IH]; intros x; simpl; [done|]. rewrite length_app, IH. simpl. lia. Qed.

Lemma be_bytes_inj n x y :
  0 ≤ x < 256 ^ Z.of_nat n → 0 ≤ y < 256 ^ Z.of_nat n → be_bytes n x = be_bytes n y → x = y.
Proof.
  revert x y. induction n as [|n IH]; intros x y Hx Hy Heq.
  { simpl in *. lia. }
  simpl in Heq. apply app_inj_tail in Heq as [Heq Hlast].
  change 255 with (Z.ones 8) in Hlast. rewrite !Z.land_ones in Hlast by lia.
  change (2 ^ 8) with 256 in Hlast. rewrite !Z.shiftr_div_pow2 in Heq by lia.
  change (2 ^ 8) with 256 in Heq.
  rewrite Nat2Z.inj_succ, Z.pow_succ_r in Hx, Hy by lia.
  assert (x / 256 = y / 256) by (apply IH; [lia..|done]). lia.
Qed.

Lemma string_of_bytes_length bs : String.length (string_of_bytes bs) = length bs.
Proof.
  unfold string_of_bytes. induction bs as [|b bs IH]; simpl; [done|]. by rewrite IH.
Qed.

Lemma string_of_bytes_inj bs bs' :
  Forall (λ b, 0 ≤ b < 256) bs → Forall (λ b, 0 ≤ b < 256) bs' →
  string_of_bytes bs = string_of_bytes bs' → bs = bs'.
Proof.
  unfold string_of_bytes. revert bs'. induction bs as [|b bs IH]; intros [|b' bs'] Hb Hb' Heq;
    simplify_eq/=; [done|].
  apply Forall_cons in Hb as [Hb Hbs], Hb' as [Hb' Hbs'].
  f_equal; [|by apply IH].
  assert (N_of_ascii (ascii_of_N (Z.to_N b)) = N_of_ascii (ascii_of_N (Z.to_N b'))) as Hn by congruence.
  rewrite !N_ascii_embedding in Hn by lia. lia.
Qed.

(** ** Length-prefixed fields *)

(** A Go string's length fits the eight bytes. *)
Definition field_fits (s : string) : Prop := Z.of_nat (String.length s) < 256 ^ 8.

Lemma write_prefixed_inj s s' t t' :
  field_fits s → field_fits s' →
  (write_prefixed s ++ t)%string = (write_prefixed s' ++ t')%string → s = s' ∧ t = t'.
Proof.
  unfold field_fits, write_prefixed. intros Hs Hs' Heq. rewrite !append_assoc_str in Heq.
  apply append_inj_length in Heq as [Hlen Hrest].
  2: by rewrite !string_of_bytes_length, !be_bytes_length.
  apply string_of_bytes_inj in Hlen; [|apply be_bytes_range..].
  apply be_bytes_inj in Hlen; [|simpl in *; lia..].
  by apply append_inj_length in Hrest; [|lia].
Qed.

Lemma concat_cons s l : String.concat "" (s :: l) = (s ++ String.concat "" l)%string.
Proof.
  destruct l as [|s' l]; [|done]. simpl.
  induction s as [|c s IH]; [done|]. rewrite append_cons. by rewrite <-IH.
Qed.

Lemma stream_inj l l' :
  Forall field_fits l → Forall field_fits l' →
  String.concat "" (map write_prefixed l) = String.concat "" (map write_prefixed l') → l = l'.
Proof.
  revert l'. induction l as [|s l IH]; intros [|s' l'] Hl Hl' Heq; [done|..].
  - apply (f_equal String.length) in Heq. simpl map in Heq. rewrite concat_cons in Heq.
    unfold write_prefixed in Heq. rewrite !length_append, string_of_bytes_length, be_bytes_length in Heq.
    simpl in Heq. lia.
  - apply (f_equal String.length) in Heq. simpl map in Heq. rewrite concat_cons in Heq.
    unfold write_prefixed in Heq. rewrite !length_append, string_of_bytes_length, be_bytes_length in Heq.
    simpl in Heq. lia.
  - simpl map in Heq. rewrite !concat_cons in Heq.
    apply Forall_cons in Hl as [Hs Hl], Hl' as [Hs' Hl'].
    apply write_prefixed_inj in Heq as [-> Heq]; [|done..]. f_equal. by apply IH.
Qed.

(** ** Decimal numbers *)

(** The value of a string of decimal digits. *)
Fixpoint decimal_value (acc : Z) (s : string) : Z :=
  match s with
  | EmptyString => acc
  | String c s' => decimal_value (acc * 10 + (Z.of_N (N_of_ascii c) - 48)) s'
  end.

Lemma decimal_value_app acc s t :
  decimal_value acc (s ++ t)%string = decimal_value (decimal_value acc s) t.
Proof. revert acc. induction s as [|c s IH]; intros acc; [done|]. apply IH. Qed.

Lemma digit_value n : 0 ≤ n < 10 → Z.of_N (N_of_ascii (digit n)) - 48 = n.
Proof. intros Hn. unfold digit. rewrite N_ascii_embedding by lia. lia. Qed.

Lemma itoa_aux_value fuel n :
  0 ≤ n < 10 ^ Z.of_nat fuel → decimal_value 0 (itoa_aux fuel n) = n.
Proof.
  revert n. induction fuel as [|f IH]; intros n Hn; [simpl in *; lia|].
  cbn [itoa_aux]. rewrite decimal_value_app. cbn [decimal_value].
  rewrite digit_value by lia. rewrite Nat2Z.inj_succ, Z.pow_succ_r in Hn by lia.
  destruct (Z.ltb_spec n 10); [simpl; lia|]. rewrite IH by lia. lia.
Qed.

Lemma itoa_aux_head fuel n : 0 ≤ n → ∀ s, itoa_aux fuel n ≠ String "-" s.
Proof.
  revert n. induction fuel as [|f IH]; intros n Hn s; [done|]. cbn [itoa_aux].
  destruct (Z.ltb_spec n 10).
  - rewrite append_nil. intros Heq. injection Heq as Heq _.
    apply (f_equal N_of_ascii) in Heq. unfold digit in Heq.
    rewrite N_ascii_embedding in Heq by lia. simpl in Heq. lia.
  - specialize (IH (n / 10) ltac:(lia)). destruct (itoa_aux f (n / 10)) as [|c s'].
    + rewrite append_nil. intros Heq. injection Heq as Heq _.
      apply (f_equal N_of_ascii) in Heq. unfold digit in Heq.
      rewrite N_ascii_embedding in Heq by lia. simpl in Heq. lia.
    + rewrite append_cons. intros Heq. injection Heq as -> _. by eapply IH.
Qed.

Definition int64 (x : Z) : Prop := - 2 ^ 63 ≤ x < 2 ^ 63.

Lemma Itoa_inj n m : - 10 ^ 20 < n < 10 ^ 20 → - 10 ^ 20 < m < 10 ^ 20 → Itoa n = Itoa m → n = m.
Proof.
  intros Hn Hm. unfold Itoa.
  destruct (Z.ltb_spec n 0), (Z.ltb_spec m 0); intros Heq.
  - assert (itoa_aux 20 (- n) = itoa_aux 20 (- m)) as Heq' by congruence.
    apply (f_equal (decimal_value 0)) in Heq'.
    rewrite !itoa_aux_value in Heq' by (simpl Z.of_nat; lia). lia.
  - exfalso. symmetry in Heq. by eapply itoa_aux_head; [|exact Heq].
  - exfalso. by eapply itoa_aux_head; [|exact Heq].
  - apply (f_equal (decimal_value 0)) in Heq.
    by rewrite !itoa_aux_value in Heq by (simpl Z.of_nat; lia).
Qed.

(** ** Instants *)

Lemma decimal_atoi acc s : decimal_value acc s = atoi_acc acc s.
Proof.
  revert acc. induction s as [|c s IH]; intros acc; [done|]. cbn [decimal_value atoi_acc]. rewrite IH.
  f_equal. unfold digit_val, code. lia.
Qed.

Lemma year_digits_value u : 0 ≤ u < 10 ^ 20 → decimal_value 0 (year_digits u) = u.
Proof.
  intros Hu. unfold year_digits. destruct (Z.ltb_spec u 10000).
  - rewrite decimal_atoi, atoi_padded by lia. rewrite Z.mod_small; [done|]. change (10 ^ Z.of_nat 4) with 10000. lia.
  - by apply itoa_aux_value.
Qed.

Lemma year_digits_head u s : year_digits u ≠ String "-" s.
Proof. intros Heq. pose proof (year_digits_spec u) as H. by rewrite Heq in H. Qed.

(** A year ends at the first dash after its digits. *)
Lemma append_year_inj y y' r r' :
  Z.abs y < 10 ^ 20 → Z.abs y' < 10 ^ 20 →
  (append_year y ++ String "-" r)%string = (append_year y' ++ String "-" r')%string → y = y' ∧ r = r'.
Proof.
  assert (∀ u u', 0 ≤ u < 10 ^ 20 → 0 ≤ u' < 10 ^ 20 →
    (year_digits u ++ String "-" r)%string = (year_digits u' ++ String "-" r')%string → u = u' ∧ r = r') as Hpos.
  { intros u u' Hu Hu' Heq. apply (f_equal digits) in Heq. rewrite !digits_run in Heq by (done || apply year_digits_spec).
    injection Heq as Heq ->. split; [|done]. rewrite <-(year_digits_value u), <-(year_digits_value u') by done.
    by rewrite Heq. }
  assert (∀ u r s, (year_digits u ++ String "-" r)%string = String "-" s → year_digits u = ""%string) as Hneg.
  { intros u r0 s0. destruct (year_digits u) as [|c d] eqn:Hd; [done|]. rewrite append_cons. intros [= -> _].
    by apply year_digits_head in Hd. }
  assert (∀ u, 0 ≤ u < 10 ^ 20 → year_digits u ≠ ""%string) as Hne.
  { intros u Hu Hd. unfold year_digits in Hd. apply (f_equal String.length) in Hd. destruct (u <? 10000).
    - by rewrite (proj2 (padded_digits 4 u)) in Hd.
    - cbn [itoa_aux] in Hd. rewrite length_append in Hd. simpl in Hd. lia. }
  intros Hy Hy' Heq. unfold append_year in Heq.
  destruct (Z.ltb_spec y 0), (Z.ltb_spec y' 0); rewrite ?append_cons in Heq.
  - injection Heq as Heq. apply Hpos in Heq as [? ->]; [split; [lia|done]|lia..].
  - symmetry in Heq. apply Hneg, Hne in Heq; [done|lia].
  - apply Hneg, Hne in Heq; [done|lia].
  - apply Hpos in Heq; [done|lia..].
Qed.

(** What Go's [time.Time] holds: seconds from the year 1 in 64 bits. *)
Definition time_fits (t : time) : Prop := int64 (t / 1000000000 + 62135596800).

Lemma time_fits_year t : time_fits t → Z.abs (civil_from_days (t / 1000000000 / 86400)).1.1 < 10 ^ 20.
Proof.
  unfold time_fits, int64. intros Ht. set (z := t / 1000000000 / 86400) in *.
  assert (- 2 ^ 63 ≤ z ≤ 2 ^ 63) as Hz by lia. clearbody z.
  destruct (civil_from_days z) as [[y m] d] eqn:H. simpl.
  destruct (civil_from_days_spec _ _ _ _ H) as (Hd & Hm & Hdd). clear H.
  unfold days_from_civil in Hd. assert (daysIn m y ≤ 31) by (unfold daysIn; repeat case_match; lia).
  assert (0 ≤ (153 * ((m + 9) mod 12) + 2) / 5 + d - 1 ≤ 368) by lia.
  destruct (m <=? 2) eqn:E; bools; lia.
Qed.

(** Different instants have different texts. *)
Lemma format_inj t t' :
  time_fits t → time_fits t' → format_RFC3339Nano t = format_RFC3339Nano t' → t = t'.
Proof.
  intros Ht%time_fits_year Ht'%time_fits_year Heq.
  destruct (format_split t) as (y & rest & E & [r ->] & Hp & Hy).
  destruct (format_split t') as (y' & rest' & E' & [r' ->] & Hp' & Hy').
  rewrite E, E' in Heq. apply append_year_inj in Heq as [-> ->]; [congruence|by rewrite <-Hy|by rewrite <-Hy'].
Qed.

(** ** Requests *)

#[local] Opaque format_RFC3339Nano Itoa.

(** What Go's types give: 64-bit integers, strings that fit in memory. *)
Definition request_fits (n : NormalizedRequest) : Prop :=
  Forall field_fits (fingerprint_fields n) ∧ int64 (n_priority n) ∧ int64 (n_max_attempts n) ∧
  int64 (n_timeout_seconds n) ∧ int64 (Z.of_nat (length (n_required_capabilities n))) ∧
  (∀ t, n_scheduled_at n = Some t → time_fits t).

Lemma schedule_fields_inj (s s' : option time) :
  (∀ t, s = Some t → time_fits t) → (∀ t, s' = Some t → time_fits t) →
  match s with Some t => [scheduledAtFingerprintTag; format_RFC3339Nano t] | None => [] end =
  match s' with Some t => [scheduledAtFingerprintTag; format_RFC3339Nano t] | None => [] end →
  s = s'.
Proof.
  destruct s as [t|], s' as [t'|]; intros Ht Ht' Heq; try discriminate; [|done].
  f_equal. apply format_inj; [by apply Ht|by apply Ht'|congruence].
Qed.

Lemma Itoa_int64 n m : int64 n → int64 m → Itoa n = Itoa m → n = m.
Proof. unfold int64. intros. apply Itoa_inj; [lia..|done]. Qed.

(** C20: no two requests hash the same bytes.  For requests as Go's types hold them
    (64-bit integers, instants of 64-bit seconds, fields of less than 2^64 bytes): if the
    byte streams of two normalized requests are equal, the requests are equal, in queue,
    type, payload, priority, attempt budget, timeout, capabilities (in order) and
    scheduled instant, to the nanosecond and in any year: the length prefixes and the
    capability count leave no way to shift bytes from one field to another, and the text
    of an instant leads back to it. *)
Theorem fingerprint_stream_determines_request n n' :
  request_fits n → request_fits n' → fingerprint_stream n = fingerprint_stream n' → n = n'.
Proof.
  intros (Hf & Hp & Hm & Ht & Hc & Hs) (Hf' & Hp' & Hm' & Ht' & Hc' & Hs') Heq.
  apply stream_inj in Heq; [|done..]. unfold fingerprint_fields in Heq.
  rewrite <-!app_comm_cons in Heq. injection Heq as Hq Hty Hpl Hpr Hma Hti Hca Hrest.
  apply Itoa_int64 in Hpr, Hma, Hti, Hca; [|done..]. apply Nat2Z.inj in Hca.
  apply app_inj_1 in Hrest as [Hcaps Hsched]; [|done].
  apply schedule_fields_inj in Hsched; [|done..]. destruct n, n'; simpl in *; congruence.
Qed.

(** One schedule written with two offsets is one request; the instants of the years 0
    and 10000 are two, with two streams. *)
Lemma fingerprint_stream_determines_request_witness :
  let n s := mkNormalized "q" "t" "{}" 0 1 60 ["gpu"%string] (parse_RFC3339 s) in
  n "9999-12-31T23:59:59-01:00"%string = n "9999-12-31T23:29:59-01:30"%string ∧
  fingerprint_stream (n "9999-12-31T23:59:59-01:00"%string) ≠
    fingerprint_stream (n "0000-01-01T00:59:59Z"%string).
Proof.
  intros n.
  assert (∀ s t, parse_RFC3339 s = Some t → time_fits t →
    Forall field_fits (fingerprint_fields (n s)) → request_fits (n s)) as Hfit.
  { intros s t Hs Ht Hf. split; [exact Hf|]. split_and!; [split; vm_compute; done..|].
    simpl. rewrite Hs. intros t' Heq. injection Heq as <-. exact Ht. }
  assert (∀ s t, parse_RFC3339 s = Some t → forallb (λ f, String.length f <? 1000)%nat
    (fingerprint_fields (n s)) = true → Forall field_fits (fingerprint_fields (n s))) as Hfields.
  { intros s t _ Hall. apply Forall_forall. intros f Hin. rewrite forallb_forall in Hall.
    apply list_elem_of_In, Hall, Nat.ltb_lt in Hin. unfold field_fits.
    change (256 ^ 8) with 18446744073709551616. lia. }
  assert (parse_RFC3339 "9999-12-31T23:59:59-01:00" = Some 253402304399000000000) as H1
    by (vm_compute; reflexivity).
  assert (parse_RFC3339 "9999-12-31T23:29:59-01:30" = Some 253402304399000000000) as H2
    by (vm_compute; reflexivity).
  assert (parse_RFC3339 "0000-01-01T00:59:59Z" = Some (-62167215601000000000)) as H3
    by (vm_compute; reflexivity).
  assert (request_fits (n "9999-12-31T23:59:59-01:00"%string)) as F1.
  { eapply Hfit; [exact H1|unfold time_fits, int64; lia|]. eapply Hfields; [exact H1|vm_compute; reflexivity]. }
  assert (request_fits (n "9999-12-31T23:29:59-01:30"%string)) as F2.
  { eapply Hfit; [exact H2|unfold time_fits, int64; lia|]. eapply Hfields; [exact H2|vm_compute; reflexivity]. }
  assert (request_fits (n "0000-01-01T00:59:59Z"%string)) as F3.
  { eapply Hfit; [exact H3|unfold time_fits, int64; lia|]. eapply Hfields; [exact H3|vm_compute; reflexivity]. }
  split.
  - apply (fingerprint_stream_determines_request _ _ F1 F2). vm_compute. reflexivity.
  - intros Heq. apply (fingerprint_stream_determines_request _ _ F1 F3) in Heq.
    unfold n in Heq. rewrite H1, H3 in Heq. discriminate Heq.
Defined.
