(* ===== verification/JobsTheorems.v ===== *)
(** * Package jobs: what its operations do

    Submission under an idempotency key, cancellation, promotion,
    re-notification and replay, on every branch. *)

From S2P Require Import Prelude.
From S2P Require Import GoText.
From S2P Require Import GoFloat.
From S2P Require Import GoTime.
From S2P Require Import GoBytes.
From S2P Require Import Schema.
From S2P Require Import Lifecycle.
From S2P Require Import Submit.
From S2P Require Import Outbox.
From S2P Require Import JobsStore.
From S2P Require Import Results.
From S2P Require Import WorkersTypes.
From S2P Require Import WorkersStore.
From S2P Require Import WorkersOutcome.
From S2P Require Import Invariant.
From S2P Require Import Transitions.
From S2P Require Import Refinement.
From S2P Require Import System.
From S2P Require Import History.
From S2P Require Import Scenario.
From S2P Require Import Running.

(** ** Cancellation *)

(** The row a cancellation writes. *)
Definition canceled_row (j : Job) (target : JobStatus) (now : time) : Job :=
  j <| j_status := target |> <| j_cancel_requested_at := Some now |> <| j_updated_at := now |>.

(** What [RequestCancel] answers, and the database it leaves, by the job's status. *)
Definition cancel_spec (id : uuid) (j : Job) (now : time) (d : DB) : result error CancelResult * DB :=
  match cancel_target (j_status j) with
  | Some target => (Ok (mkCancelResult id target (Some now) false),
                    put_job d id (canceled_row j target now))
  | None =>
    if bool_decide (j_status j = StatusCancelRequested ∨ j_status j = StatusCanceled)
    then (Ok (mkCancelResult id (j_status j) (j_cancel_requested_at j) true), d)
    else (Err ErrJobNotCancelable, d)
  end.

Lemma canceling_or s :
  bool_decide (s = StatusCancelRequested) || bool_decide (s = StatusCanceled) =
  bool_decide (s = StatusCancelRequested ∨ s = StatusCanceled).
Proof. by destruct s. Qed.

Lemma canceling_target s t : cancel_target s = Some t →
  bool_decide (s = StatusCancelRequested) || bool_decide (s = StatusCanceled) = false.
Proof. by destruct s. Qed.

Lemma canceled_row_ok qs js id j target now :
  job_ok qs js id j → cancel_target (j_status j) = Some target →
  job_ok qs js id (canceled_row j target now).
Proof.
  intros Hok Ht. eapply job_ok_move; [exact Hok|done| | |by right];
    simpl; destruct (j_status j); simplify_eq/=; done.
Qed.

(** [RequestCancel] is total and exact on a consistent database.  PENDING,
    QUEUED and RETRY_WAIT jobs become CANCELED, LEASED and RUNNING jobs become
    CANCEL_REQUESTED, both stamped with the post-lock clock; a second request
    answers the first one's timestamp and writes nothing; SUCCEEDED and
    DEAD_LETTERED jobs are refused and unchanged; a job of another scope is
    reported as not found. *)
Theorem RequestCancel_decides scope id w :
  Inv (db w) →
  ∃ w', RequestCancel scope id w =
    (match jobs (db w) !! id with
     | Some j => if bool_decide (j_scope j = scope)
                 then (cancel_spec id j (first_reading w) (db w)).1 else Err ErrJobNotFound
     | None => Err ErrJobNotFound
     end, w') ∧
  db w' = match jobs (db w) !! id with
          | Some j => if bool_decide (j_scope j = scope)
                      then (cancel_spec id j (first_reading w) (db w)).2 else db w
          | None => db w
          end.
Proof.
  intros Hi. unfold RequestCancel.
  destruct (jobs (db w) !! id) as [j|] eqn:Hj.
  2: { eexists. split; [apply transaction_fails, bind_run_err, job_in_scope_absent|done].
       simpl. congruence. }
  case_bool_decide as Hs.
  2: { eexists. split; [apply transaction_fails, bind_run_err, job_in_scope_absent|done].
       simpl. congruence. }
  pose proof (ro_job _ _ _ _ _ (inv_rows _ Hi) id j Hj) as Hok.
  unfold cancel_spec. destruct (cancel_target (j_status j)) as [target|] eqn:Ht.
  - eapply commits_with.
    + rewrite (routed_run scope id j) by done. erewrite bind_run by reflexivity.
      rewrite (canceling_target _ _ Ht), Ht. etrans; [eapply bind_run, (sql_update_run id _ _ j)|reflexivity].
      * done.
      * by rewrite !bool_decide_eq_true_2.
      * by apply job_ok_constraints, canceled_row_ok.
    + reflexivity.
  - case_bool_decide as Hc.
    + eapply commits_with.
      * rewrite (routed_run scope id j) by done. erewrite bind_run by reflexivity.
        rewrite canceling_or, bool_decide_eq_true_2 by done. reflexivity.
      * reflexivity.
    + eexists. split; [apply transaction_fails|done]. rewrite (routed_run scope id j) by done.
      erewrite bind_run by reflexivity. by rewrite canceling_or, bool_decide_eq_false_2, Ht.
Qed.

Lemma RequestCancel_decides_witness :
  ∃ w', RequestCancel "t1" 100 (sc_world (at_end sc_running) (sec 1035) 450) =
    (Ok (mkCancelResult 100 StatusCancelRequested (Some (sec 1036)) false), w') ∧
  j_status <$> jobs (db w') !! 100%N = Some StatusCancelRequested.
Proof.
  destruct (RequestCancel_decides "t1" 100 (sc_world (at_end sc_running) (sec 1035) 450)
    (at_end_Inv sc_running)) as (w' & Hrun & Hdb).
  exists w'. rewrite Hrun, Hdb. split; vm_compute; reflexivity.
Defined.

(** ** Submission *)

(** The row the transaction of a submission inserts. *)
Definition submitted_row (scope : string) (req : NormalizedRequest) (w : World) : Job :=
  stored_job (default EmptyString (jsonb w (n_payload req)))
    (new_job scope req (first_reading w) (txstart (begin_tx w))).

(** Why the insert of the job row is refused, before the key is looked at: PostgreSQL
    cannot store the payload, the uuid is taken, or the row fails a constraint. *)
Definition insert_refusal (scope : string) (req : NormalizedRequest) (w : World) : option error :=
  match jsonb w (n_payload req) with
  | None => Some (ErrPg untranslatable_character)
  | Some _ =>
    match jobs (db w) !! uuids w (drawn w) with
    | Some _ => Some (ErrPg unique_violation)
    | None => ErrPg <$> job_constraints (db w) (uuids w (drawn w)) (submitted_row scope req w)
    end
  end.

(** A row of an existing queue that passes the CHECKs of the table is not refused. *)
Lemma insert_admitted scope req w :
  is_Some (queues (db w) !! n_queue req) → jobs (db w) !! uuids w (drawn w) = None →
  is_Some (jsonb w (n_payload req)) → job_check (uuids w (drawn w)) (submitted_row scope req w) = true →
  insert_refusal scope req w = None.
Proof.
  intros [q Hq] Hn [p Hp] Hc. unfold insert_refusal. rewrite Hp, Hn.
  unfold job_constraints. rewrite (proj2 (pg_verdict_None _ _ _)); [done|]. split_and!; [done..|]. simpl. by rewrite Hq.
Qed.

(** Once the key is taken, the transaction inserts nothing. *)
Lemma submit_tx_taken scope key fp req trace w rec :
  idempotency_records (db w) !! (scope, key) = Some rec →
  ∃ w', submit_tx scope key fp req trace w =
      (match insert_refusal scope req w with Some e => Err e | None => Ok None end, w') ∧ db w' = db w.
Proof.
  intros Hrec. unfold insert_refusal.
  assert (∀ m : Tx (bool * option (uuid * Job)),
    (∀ e w', m (begin_tx w) = (Err e, w') → transaction m w = (Err e, w' <| db := db w |>)) ∧
    (∀ w', m (begin_tx w) = (Ok (false, None), w') → transaction m w = (Ok None, w' <| db := db w |>))) as Hm.
  { intros m. split; intros; [by apply transaction_fails|by apply transaction_skips]. }
  destruct (jsonb w (n_payload req)) as [p|] eqn:Hp.
  2: { eexists. split; [apply Hm|reflexivity]. do 3 erewrite bind_run by reflexivity. cbv zeta.
       apply bind_run_err. unfold to_jsonb. simpl. by rewrite Hp. }
  destruct (jobs (db w) !! uuids w (drawn w)) as [j|] eqn:Hn.
  { eexists. split; [apply Hm|reflexivity]. do 3 erewrite bind_run by reflexivity. cbv zeta.
    erewrite bind_run by (apply to_jsonb_run; exact Hp). apply bind_run_err. unfold sql_insert. simpl. by rewrite Hn. }
  destruct (job_constraints _ _ _) as [c|] eqn:Hc; unfold submitted_row in Hc; rewrite Hp in Hc.
  { eexists. split; [apply Hm|reflexivity]. do 3 erewrite bind_run by reflexivity. cbv zeta.
    erewrite bind_run by (apply to_jsonb_run; exact Hp). apply bind_run_err. unfold sql_insert.
    simpl. rewrite Hn. unfold first_reading in Hc. by setoid_rewrite Hc. }
  eexists. split; [apply Hm|reflexivity]. do 3 erewrite bind_run by reflexivity. cbv zeta.
  erewrite bind_run by (apply to_jsonb_run; exact Hp).
  erewrite bind_run by (apply sql_insert_run; [exact Hn|exact Hc]).
  erewrite bind_run by (eapply sql_insert_conflict_run; exact Hrec). reflexivity.
Qed.

Lemma resolveExisting_run scope key fp rec j w :
  idempotency_records (db w) !! (scope, key) = Some rec →
  jobs (db w) !! i_job_id rec = Some j → j_scope j = scope →
  resolveExisting scope key fp w =
    (if bool_decide (i_fingerprint rec = fp) then Ok (mkSubmitResult (i_job_id rec) j true)
     else Err ErrIdempotencyConflict, w).
Proof.
  intros Hrec Hj Hs. unfold resolveExisting. erewrite bind_run by apply sql_get_run. simpl.
  rewrite Hrec. case_bool_decide as Hfp; simpl; [|done].
  by erewrite bind_run by (by apply job_in_scope_run).
Qed.

(** A submission that answers has its record. *)
Lemma Submit_recorded scope key req trace w r w' :
  Submit scope key req trace w = (Ok r, w') →
  idempotency_records (db w') !! (scope, key) = Some (mkIdem (Fingerprint req) (sr_job_id r)).
Proof.
  unfold Submit. cbv zeta. intros H. run_inv.
  - unfold submit_tx in *. match goal with H : transaction _ _ = _ |- _ =>
      apply transaction_ok in H as (b & w1 & H & ->) end. db_inv.
    all: repeat match goal with H : InsertWorkAvailableTx _ _ _ _ _ = _ |- _ =>
      apply InsertWorkAvailableTx_ok in H as (_ & ? & _ & H) end.
    all: simpl in *; repeat match goal with H : db _ = _ |- _ => rewrite H; clear H end; simpl.
    all: apply lookup_insert_eq.
  - unfold resolveExisting, getByID in *. op_inv. bools. simpl.
    match goal with H : Some ?i = _ |- _ =>
      transitivity (Some i); [exact (eq_sym H)|by destruct i; simplify_eq/=] end.
Qed.


Definition sc_empty_world : World := sc_world (fresh sc_queues) (sec 1000) 100.
(** The world after the first submission, a thousand seconds later. *)
Definition sc_second_world : World :=
  sc_world (db (Submit "t1" "key" sc_req None sc_empty_world).2) (sec 2000) 900.


(** A submission whose transaction committed. *)
Lemma submit_tx_committed scope key fp req trace w id job w' :
  submit_tx scope key fp req trace w = (Ok (Some (id, job)), w') →
  let row := submitted_row scope req w in
  id = uuids w (drawn w) ∧ job = new_job scope req (first_reading w) (txstart (begin_tx w)) ∧
  jsonb w (n_payload req) = Some (j_payload row) ∧
  jobs (db w) !! id = None ∧ idempotency_records (db w) !! (scope, key) = None ∧
  ∃ es, db w' = (put_job (db w) id row)
      <| idempotency_records := <[(scope, key):=mkIdem fp id]> (idempotency_records (db w)) |>
      <| outbox_events := es |> ∧
    if bool_decide (j_status row = StatusQueued)
    then ∃ eid e, new_event (db w) id 1 eid e ∧ es = <[eid:=e]> (outbox_events (db w))
    else es = outbox_events (db w).
Proof.
  intros H row. unfold submit_tx in H. apply transaction_ok in H as (b & w1 & H & ->).
  erewrite bind_run in H by reflexivity. erewrite bind_run in H by reflexivity.
  erewrite bind_run in H by reflexivity. cbv zeta in H.
  apply bind_ok in H as (p & w2 & [Hp ->]%to_jsonb_ok & H). change (jsonb w (n_payload req) = Some p) in Hp.
  subst row. unfold submitted_row. rewrite Hp. db_inv; bools.
  - match goal with H : InsertWorkAvailableTx _ _ _ _ _ = _ |- _ =>
      apply InsertWorkAvailableTx_ok in H as (_ & e & He & ->) end.
    match goal with H : db _ = _ |- _ => rewrite H in * end.
    split_and!; [done..|]. eexists. split; [reflexivity|].
    rewrite bool_decide_eq_true_2 by done. eexists _, e. split; [|reflexivity].
    destruct He as (He1 & He2 & He3). split_and!; [exact He1|exact He2|].
    rewrite He3. f_equal. unfold new_job in *. simpl in *.
    destruct (n_scheduled_at req) as [t|]; simpl in *; [|done].
    by destruct (_ <? t)%Z.
  - split_and!; [done..|]. eexists. split; [reflexivity|].
    by rewrite bool_decide_eq_false_2.
Qed.

(** A new submission stores exactly the request.  The row has the request's
    queue, type, payload (as PostgreSQL stores it), priority, budget, timeout and
    capabilities; without a schedule, or with one that is due by the post-lock
    clock, the job is QUEUED, available at that clock reading, with generation 1
    and one outbox event of that generation; with a future schedule it is
    PENDING, available at the scheduled instant, with generation 0 and no event.
    The idempotency record is written with it, and nothing else changes. *)
Theorem Submit_stores_request scope key req trace w r w' :
  Submit scope key req trace w = (Ok r, w') → sr_replayed r = false →
  let row := submitted_row scope req w in
  let due := match n_scheduled_at req with
             | Some t => negb (first_reading w <? t)%Z | None => true end in
  sr_job_id r = uuids w (drawn w) ∧ jobs (db w) !! sr_job_id r = None ∧
  jsonb w (n_payload req) = Some (j_payload row) ∧
  idempotency_records (db w) !! (scope, key) = None ∧
  j_status row = (if due then StatusQueued else StatusPending) ∧
  j_available_at row =
    timestamptz (if due then first_reading w else default 0%Z (n_scheduled_at req)) ∧
  j_notification_generation row = (if due then 1 else 0)%Z ∧
  ∃ es, db w' = (put_job (db w) (sr_job_id r) row)
      <| idempotency_records := <[(scope, key):=mkIdem (Fingerprint req) (sr_job_id r)]>
           (idempotency_records (db w)) |> <| outbox_events := es |> ∧
    if due
    then ∃ eid e, new_event (db w) (sr_job_id r) 1 eid e ∧ es = <[eid:=e]> (outbox_events (db w))
    else es = outbox_events (db w).
Proof.
  intros H Hnew. unfold Submit in H. cbv zeta in H. run_inv.
  2: { unfold resolveExisting in *. run_inv. simpl in Hnew. discriminate. }
  unfold queueExists in *. match goal with H : (_ ≫= _) w = _ |- _ =>
    erewrite bind_run in H by reflexivity; apply ret_ok in H as [_ <-] end.
  match goal with H : submit_tx _ _ _ _ _ _ = _ |- _ =>
    apply submit_tx_committed in H as (-> & -> & ? & ? & ? & es & Hdb & Hes) end.
  simpl. split_and!; [done..| | | |].
  all: unfold new_job in *; simpl in *.
  1-3: destruct (n_scheduled_at req) as [t|]; simpl; [|done]; by destruct (first_reading w <? t)%Z.
  exists es. split; [exact Hdb|].
  destruct (n_scheduled_at req) as [t|]; simpl in *; [|done].
  by destruct (first_reading w <? t)%Z.
Qed.

Lemma Submit_stores_request_witness :
  sr_replayed (mkSubmitResult 100 (new_job "t1" sc_req (sec 1001) (sec 1000)) false) = false ∧
  j_status (submitted_row "t1" sc_req sc_empty_world) = StatusQueued ∧
  idempotency_records (db sc_empty_world) !! ("t1"%string, "key"%string) = None.
Proof.
  split; [reflexivity|].
  destruct (Submit_stores_request "t1" "key" sc_req None sc_empty_world
    (mkSubmitResult 100 (new_job "t1" sc_req (sec 1001) (sec 1000)) false)
    (Submit "t1" "key" sc_req None sc_empty_world).2) as (_ & _ & _ & Hi & Hs & _).
  - apply run_answer. vm_compute. reflexivity.
  - reflexivity.
  - exact (conj Hs Hi).
Defined.
