(* ===== verification/WorkersTheorems.v ===== *)
(** * Package workers: what its operations do

    Authority: what a worker must hold for its call to change anything.  Then the
    claim, start, renewal, success, failure, cancellation and reconciliation. *)

From S2P Require Import Prelude.
From S2P Require Import GoText.
From S2P Require Import GoFloat.
From S2P Require Import Schema.
From S2P Require Import Lifecycle.
From S2P Require Import Submit.
From S2P Require Import Outbox.
From S2P Require Import JobsStore.
From S2P Require Import Results.
From S2P Require Import WorkersTypes.
From S2P Require Import WorkersStore.
From S2P Require Import WorkersOutcome.
From S2P Require Import Invariant.
From S2P Require Import Transitions.
From S2P Require Import Refinement.
From S2P Require Import System.
From S2P Require Import History.
From S2P Require Import Scenario.
From S2P Require Import Running.

Import RetryPolicy.

(** ** Authority *)

(** The calls a worker makes with the fence of an attempt. *)
Inductive fenced_call :=
| FencedStart
| FencedSucceed (res : option ResultRef)
| FencedFail (cfg : StoreConfig) (outcome : uuid) (class : FailureClass) (code message : string)
| FencedAcknowledge (outcome : uuid)
| FencedRenew (cfg : StoreConfig) (request : uuid) (version : Z).

Definition fenced_exec (scope : string) (f : Fence) (c : fenced_call) (w : World) : World :=
  match c with
  | FencedStart => (Start scope f w).2
  | FencedSucceed res => (Succeed scope f res w).2
  | FencedFail cfg outcome class code message =>
    (Fail cfg scope (mkFailureReport f outcome class code message) w).2
  | FencedAcknowledge outcome => (AcknowledgeCancellation scope (mkCancelAck f outcome) w).2
  | FencedRenew cfg request version =>
    (RenewLease cfg scope (mkRenewal f request version) w).2
  end.

(** The lock reads the clock once, after the rows. *)
Lemma lockAuthorityRows_clock scope f w st w' :
  lockAuthorityRows scope f w = (Ok st, w') →
  fs_server_now st = timestamptz (clock w (reads w)).
Proof.
  unfold lockAuthorityRows, lock_queue, clock_timestamp. intros H. db_inv. done.
Qed.

(** The holder of a fence: the session is HEALTHY, the lease is ACTIVE and not
    expired at [now], and job, attempt, lease, worker, session and scope are the
    ones the fence names. *)
Record has_authority (d : DB) (scope : string) (f : Fence) (now : time) : Prop := {
  au_session : ∃ s, worker_sessions d !! f_session_id f = Some s ∧ s_status s = SessionHealthy ∧
    s_worker_id s = f_worker_id f ∧ s_scope s = scope;
  au_lease : ∃ l, leases d !! f_lease_id f = Some l ∧ l_status l = LeaseActive ∧
    (now < l_expires_at l)%Z ∧ l_job_id l = f_job_id f ∧ l_attempt_id l = f_attempt_id f ∧
    l_worker_id l = f_worker_id f ∧ l_session_id l = f_session_id f ∧ l_scope l = scope;
  au_attempt : ∃ a, job_attempts d !! f_attempt_id f = Some a ∧ a_scope a = scope ∧
    isExecutingAttemptStatus (a_status a) = true;
  au_job : ∃ j, jobs d !! f_job_id f = Some j ∧ j_scope j = scope ∧
    holds_lease (j_status j) = true;
}.

(** What the guards of an operation say of the rows it locked. *)
Lemma guards_authority d scope f st s j a l :
  fenced d scope f st s j a l → fs_session_healthy st = true → leaseUsable st = true →
  isExecutingAttemptStatus (fs_attempt_status st) = true →
  holds_lease (fs_job_status st) = true →
  has_authority d scope f (fs_server_now st).
Proof.
  intros Hf Hh Hu Ha Hj. unfold leaseUsable in Hu.
  rewrite (fd_state _ _ _ _ _ _ _ _ Hf) in Hh, Hu, Ha, Hj |- *. simpl in *. bools.
  destruct Hf as [Hs [Hsw Hss] Hjob Hat Hl Hlj Hla [Hlw Hls] (Hjs & Has & Hlsc) _].
  split; eauto 12.
Qed.

(** A fenced transaction that changed the database ran its body to the commit. *)
Lemma locked_changes {A} scope f (body : fenceState → Tx (bool * A)) w :
  db (transaction (st ← lockAuthorityRows scope f; body st) w).2 ≠ db w →
  ∃ st s j a l w1 r w', fenced (db w) scope f st s j a l ∧ fs_server_now st = first_reading w ∧
    db w1 = db w ∧ body st w1 = (Ok (true, r), w') ∧ db w' ≠ db w.
Proof.
  set (whole := (st ← lockAuthorityRows scope f; body st) : Tx (bool * A)).
  unfold transaction. destruct (whole (begin_tx w)) as [[[[] r]|e] w'] eqn:Hrun; [|done..].
  simpl. intros Hne. unfold whole in Hrun. apply bind_ok in Hrun as (st & w1 & Hl & Hb).
  pose proof (lockAuthorityRows_clock _ _ _ _ _ Hl) as Hnow.
  apply lockAuthorityRows_ok in Hl as (Hdb & s & j & a & l & Hf).
  exists st, s, j, a, l, w1, r, w'. split_and!; try done.
Qed.

Lemma validated_changes {A} fields (m : Tx A) w :
  db ((validated fields;; m) w).2 ≠ db w → db (m w).2 ≠ db w.
Proof. unfold validated. destruct fields; [|done]. by unfold mbind, M_bind. Qed.

Lemma lockFence_body {A} scope f (body : fenceState → Tx (bool * A)) :
  ∀ w, (st ← lockFence scope f; body st) w =
    (st ← lockAuthorityRows scope f;
     if negb (fs_session_healthy st) then throw ErrFenceRejected else body st) w.
Proof.
  intros w. unfold lockFence, mbind, M_bind.
  destruct (lockAuthorityRows scope f w) as [[st|e] w1]; [|done]. by destruct (negb _).
Qed.

Lemma transaction_ext {A} (b1 b2 : Tx (bool * A)) w :
  (∀ w, b1 w = b2 w) → transaction b1 w = transaction b2 w.
Proof. intros Heq. unfold transaction. by rewrite Heq. Qed.

(** C2: no write without authority.  If a worker's start, success, failure,
    cancellation or renewal changes the database at all, then at the clock
    reading taken after the row locks its session is HEALTHY, its lease is ACTIVE
    and unexpired, the attempt is executing, the job is held, and all six
    identities of the fence match the rows.  A replaced or stale worker, one whose
    lease lapsed, and one with a forged identity change nothing. *)
Theorem write_requires_authority scope f c w :
  db (fenced_exec scope f c w) ≠ db w → has_authority (db w) scope f (first_reading w).
Proof.
  destruct c; simpl; intros Hne; apply validated_changes in Hne.
  5: destruct (_ <=? 0)%Z; [done|].
  1, 5: rewrite (transaction_ext _ _ w (lockFence_body scope f _)) in Hne.
  all: apply locked_changes in Hne as (st & s & j & a & l & w1 & r & w' & Hf & <- & Hdb & Hb & Hne).
  all: rewrite <-Hdb in *; run_inv; unfold commit, no_commit in *; run_inv; try done; bools.
  all: try match goal with H : lift _ _ = _ |- _ => apply lift_ok in H as [_ ->]; done end.
  all: try match goal with H : sql_get _ _ = _ |- _ => apply sql_get_ok in H as [_ ->]; done end.
  all: try match goal with H : get_db _ = _ |- _ => apply get_db_ok in H as [_ ->] end.
  all: eapply guards_authority; [exact Hf|done|done|..].
  all: repeat match goal with
    | H : fs_job_status _ = _ |- _ => rewrite H
    | H : fs_attempt_status _ = _ |- _ => rewrite H
    end; try done.
  by destruct (fs_job_status st).
Qed.

Lemma write_requires_authority_witness :
  let w := sc_world (at_end sc_claimed) (sec 1030) 400 in
  db (fenced_exec "t1" sc_fence FencedStart w) ≠ db w ∧
  has_authority (db w) "t1" sc_fence (first_reading w).
Proof.
  intros w.
  assert (db (fenced_exec "t1" sc_fence FencedStart w) ≠ db w) as Hne.
  { intros Heq. apply (f_equal (λ d, j_status <$> jobs d !! 100%N)) in Heq.
    vm_compute in Heq. discriminate. }
  split; [exact Hne|]. exact (write_requires_authority "t1" sc_fence FencedStart w Hne).
Defined.

(** ** Start *)

(** The attempt and the job a start writes. *)
Definition started_attempt (a : Attempt) (j : Job) (now : time) : Attempt :=
  a <| a_status := AttemptRunning |> <| a_started_at := Some now |>
    <| a_timeout_at := Some (now + j_timeout_seconds j * Second)%Z |>.
Definition started_job (j : Job) (now : time) : Job :=
  j <| j_status := StatusRunning |> <| j_updated_at := now |>.

Lemma started_attempt_check a j now :
  attempt_check a = true → a_status a = AttemptLeased → (1 ≤ j_timeout_seconds j)%Z →
  (a_created_at a ≤ now)%Z → attempt_check (started_attempt a j now) = true.
Proof.
  unfold attempt_check, times_consistent. simpl. intros Hc Hst Ht Hle. rewrite Hst in Hc.
  rewrite !andb_true_iff in *. destruct_and!. split_and!; try done.
  - by apply Z.leb_le.
  - by destruct (a_finished_at a).
  - apply Z.ltb_lt. unfold Second. lia.
Qed.

(** A start by the holder of a live claim succeeds.  With a HEALTHY session
    and an ACTIVE, unexpired lease on a LEASED job, [Start] answers, makes the
    attempt and the job RUNNING at the post-lock clock reading and fixes the
    execution deadline at exactly [timeout_seconds] after it; no other row
    changes. *)
Theorem Start_begins_attempt scope f s j a l w :
  Inv (db w) → fence_valid f → names_rows (db w) scope f s j a l →
  s_status s = SessionHealthy → l_status l = LeaseActive →
  (first_reading w < l_expires_at l)%Z → j_status j = StatusLeased →
  (a_created_at a ≤ first_reading w)%Z →
  let now := first_reading w in
  let deadline := (now + j_timeout_seconds j * Second)%Z in
  ∃ w', Start scope f w =
    (Ok (mkStartResult (f_attempt_id f) now deadline (j_timeout_seconds j * Second)%Z false), w') ∧
  db w' = (put_job (db w) (f_job_id f) (started_job j now))
    <| job_attempts := <[f_attempt_id f:=started_attempt a j now]> (job_attempts (db w)) |>.
Proof.
  intros Hi Hv Hn Hs Hact Hexp Hj Hcr now deadline.
  destruct (names_rows_live _ _ _ _ _ _ _ Hi Hn Hact) as [Hlive _]. rewrite Hj in Hlive.
  destruct (names_rows_ok _ _ _ _ _ _ _ Hi Hn) as (Hjok & Hac & Haf & _).
  assert (a_status a = AttemptLeased) as Ha by (by destruct (a_status a)).
  assert (1 ≤ j_timeout_seconds j)%Z as Ht
    by (destruct Hjok as (Hc & _); unfold job_check in Hc; bools; lia).
  unfold Start, ValidateFence. rewrite validated_run by (by apply fence_valid_fields).
  eapply commits_with.
  erewrite bind_run by (by apply lockFence_run).
  rewrite leaseUsable_run by done. simpl. rewrite Hj, Ha. simpl.
  erewrite bind_run by apply sql_get_run. simpl. rewrite (nr_job _ _ _ _ _ _ _ Hn).
  change (timestamptz (clock w (S (reads w)))) with now. erewrite bind_run.
  2: { apply (sql_update_run (f_attempt_id f) _ _ a); [apply Hn|by rewrite bool_decide_eq_true_2|].
       apply attempt_update_constraints with a; [done|apply Hn|done| |].
       - by apply started_attempt_check.
       - by apply attempt_free_same with a. }
  cbn [is_None_b]. cbv beta iota. erewrite bind_run.
  2: { apply (sql_update_run (f_job_id f) _ _ j); [apply Hn|by rewrite bool_decide_eq_true_2|].
       apply job_ok_constraints. eapply (job_ok_status _ _ _ j); try done; [|by right].
       simpl. by rewrite Hj. }
  all: reflexivity.
Qed.

Lemma Start_begins_attempt_witness :
  ∃ w', Start "t1" sc_fence (sc_world (at_end sc_claimed) (sec 1030) 400) =
    (Ok (mkStartResult 300 (sec 1031) (sec 1091) (sec 60) false), w') ∧
  a_status <$> job_attempts (db w') !! 300%N = Some AttemptRunning.
Proof.
  destruct (Start_begins_attempt "t1" sc_fence
    (mkSession 200 "t1" "host-a" "default" 2 [] ["echo"%string] SessionHealthy (sec 1011) (sec 1011)
       None None)
    (mkJob "t1" "default" "echo" "{}" StatusLeased 50 2 60 [] None (sec 1001) None None 1
       (Some (sec 1001)) (sec 1000) (sec 1022))
    (mkAttempt 100 "t1" "default" 1 200 7 AttemptLeased None None (sec 1020) None None None None
       None None None)
    (mkLease 100 300 "t1" "default" 200 7 77 LeaseActive (sec 1022) (sec 1052) (sec 1022) None 0
       None)
    (sc_world (at_end sc_claimed) (sec 1030) 400)) as (w' & Hrun & Hdb).
  - apply (at_end_Inv sc_claimed).
  - by vm_compute.
  - split; [vm_compute; reflexivity|done|vm_compute; reflexivity..].
  - done.
  - done.
  - by vm_compute.
  - done.
  - vm_compute. discriminate.
  - exists w'. rewrite Hdb. split; [exact Hrun|vm_compute; reflexivity].
Defined.

(** ** Renewal *)

(** The lease a renewal writes. *)
Definition renewed_lease (cfg : StoreConfig) (req : RenewalRequest) (l : Lease) (now : time) : Lease :=
  l <| l_renewed_at := now |> <| l_expires_at := timestamptz (now + cfg_lease_duration cfg) |>
    <| l_renewal_version := (l_renewal_version l + 1)%Z |>
    <| l_last_renewal_request_id := Some (rq_renewal_request_id req) |>.

(** A locked transaction that answered. *)
Lemma lockFence_answers {A} scope f (body : fenceState → Tx (bool * A)) w r w' :
  transaction (st ← lockFence scope f; body st) w = (Ok r, w') →
  ∃ st s j a l w1 b w2, fenced (db w) scope f st s j a l ∧ fs_server_now st = first_reading w ∧
    fs_session_healthy st = true ∧ db w1 = db w ∧ body st w1 = (Ok (b, r), w2) ∧
    db w' = if b then db w2 else db w.
Proof.
  intros (b & w2 & H & ->)%transaction_ok. apply bind_ok in H as (st & w1 & Hl & Hb).
  unfold lockFence in Hl. run_inv. bools.
  match goal with H : lockAuthorityRows _ _ _ = _ |- _ =>
    pose proof (lockAuthorityRows_clock _ _ _ _ _ H) as Hnow;
    apply lockAuthorityRows_ok in H as (Hdb & s & j & a & l & Hf) end.
  exists st, s, j, a, l, w1, b, w2. split_and!; try done. by destruct b.
Qed.

Lemma fenced_names_rows d scope f st s j a l :
  fenced d scope f st s j a l → names_rows d scope f s j a l.
Proof. intros [Hs _ Hj Ha Hl ? ? [] (_ & _ & ?) _]. by split. Qed.

(** What a renewal that answered found and did. *)
Lemma RenewLease_effect cfg scope req w r w' :
  RenewLease cfg scope req w = (Ok r, w') →
  let now := first_reading w in (∀ w, ValidateRenewal req w = (Ok tt, w)) ∧
  ∃ s j a l, names_rows (db w) scope (rq_fence req) s j a l ∧
    s_status s = SessionHealthy ∧ l_status l = LeaseActive ∧ (now < l_expires_at l)%Z ∧
    timedOut (fence_state scope s j a l now) = false ∧
    isExecutingJobStatus (j_status j) = true ∧ isExecutingAttemptStatus (a_status a) = true ∧
    (0 < cfg_lease_duration cfg)%Z ∧ rn_lease_id r = f_lease_id (rq_fence req) ∧
    rn_remaining r = remainingUntil (rn_expires_at r) now ∧
    if rn_replayed r
    then db w' = db w ∧ l_last_renewal_request_id l = Some (rq_renewal_request_id req) ∧
      l_renewal_version l = (rq_expected_version req + 1)%Z ∧
      rn_renewal_version r = l_renewal_version l ∧ rn_expires_at r = l_expires_at l
    else let l' := renewed_lease cfg req l now in
      l_renewal_version l = rq_expected_version req ∧
      db w' = (db w) <| leases := <[f_lease_id (rq_fence req):=l']> (leases (db w)) |> ∧
      rn_renewal_version r = l_renewal_version l' ∧ rn_expires_at r = l_expires_at l'.
Proof.
  intros H now. unfold RenewLease in H. apply bind_ok in H as ([] & w0 & Hv & H).
  apply validated_ok in Hv as [Hv ->]. split; [intros w0; unfold ValidateRenewal; by rewrite Hv|].
  destruct (_ <=? 0)%Z eqn:Hdur; [by apply throw_ok in H|]. bools.
  apply lockFence_answers in H as (st & s & j & a & l & w1 & b & w2 & Hf & Hnow & Hh & Hdb & Hb & Hd).
  pose proof (fd_state _ _ _ _ _ _ _ _ Hf) as Hst. pose proof (fd_lease _ _ _ _ _ _ _ _ Hf) as Hl.
  apply fenced_names_rows in Hf. exists s, j, a, l. fold now in Hnow. rewrite Hnow in Hst.
  rewrite <-Hdb in Hl. subst st. clear Hnow.
  run_inv; unfold commit in *; run_inv; bools; unfold leaseUsable in *; bools; simpl in *; bools.
  2: repeat match goal with
       | H : get_db _ = _ |- _ => apply get_db_ok in H as [_ ->]
       | H : on_unique_violation _ _ _ = _ |- _ => apply on_unique_ok in H
       | H : sql_update _ _ _ _ = _ |- _ => eapply lease_update_ok in H as (Hr & Hp & _ & _ & Hw); [|done..]
       end; injection Hr as ->; bools; rewrite Hdb in Hw.
  all: split_and!; try done; try congruence.
  by rewrite Hd, Hw.
Qed.

(** What a renewal may do.  A renewal that answers ran with a HEALTHY
    session, on an ACTIVE lease unexpired at the post-lock clock, before the
    attempt's execution deadline.  Either it repeats the last renewal, and nothing
    changes, or it presented the lease's current version and rewrites that one
    lease row: the version grows by one and the lease expires exactly
    [lease_duration] after the reading.  The attempt, and so its execution
    deadline, is never touched. *)
Theorem RenewLease_extends_lease cfg scope req w r w' :
  RenewLease cfg scope req w = (Ok r, w') →
  let f := rq_fence req in
  let now := first_reading w in
  ∃ s a l, worker_sessions (db w) !! f_session_id f = Some s ∧ s_status s = SessionHealthy ∧
    job_attempts (db w) !! f_attempt_id f = Some a ∧
    (∀ t, a_timeout_at a = Some t → (now < t)%Z) ∧
    leases (db w) !! f_lease_id f = Some l ∧ l_status l = LeaseActive ∧
    (now < l_expires_at l)%Z ∧
    (rn_replayed r = true ∧ db w' = db w ∧
       l_last_renewal_request_id l = Some (rq_renewal_request_id req) ∨
     rn_replayed r = false ∧ l_renewal_version l = rq_expected_version req ∧
       db w' = (db w) <| leases := <[f_lease_id f:=renewed_lease cfg req l now]> (leases (db w)) |>).
Proof.
  intros H f now. apply RenewLease_effect in H
    as (_ & s & j & a & l & [Hl _ Hs _ Ha] & Hh & Hact & Hexp & Ht & _ & _ & _ & _ & _ & Hr).
  exists s, a, l. split_and!; try done.
  - intros t Hta. unfold timedOut in Ht. simpl in Ht. rewrite Hta in Ht. bools. lia.
  - destruct (rn_replayed r); [left|right]; simpl in Hr; destruct_and!; done.
Qed.

Lemma RenewLease_extends_lease_witness :
  let w := sc_world (at_end sc_running) (sec 1040) 500 in
  let req := mkRenewal sc_fence 91 0 in
  (RenewLease sc_cfg "t1" req w).1 = Ok (mkRenewalResult 301 1 (sec 1071) (sec 30) false) ∧
  ∃ s, worker_sessions (db w) !! 7%N = Some s ∧ s_status s = SessionHealthy.
Proof.
  intros w req.
  assert ((RenewLease sc_cfg "t1" req w).1 = Ok (mkRenewalResult 301 1 (sec 1071) (sec 30) false))
    as Hrun by (vm_compute; reflexivity).
  split; [exact Hrun|].
  destruct (RenewLease_extends_lease _ _ _ _ _ _ (run_answer _ _ _ Hrun)) as (s & _ & _ & Hs & Hh & _).
  exists s. split; [exact Hs|exact Hh].
Defined.

(** The renewal of a lease that already carries the request identity. *)
Lemma RenewLease_replays cfg scope req w s j a l :
  Inv (db w) → ValidateRenewal req w = (Ok tt, w) → (0 < cfg_lease_duration cfg)%Z →
  names_rows (db w) scope (rq_fence req) s j a l → s_status s = SessionHealthy →
  l_status l = LeaseActive → (first_reading w < l_expires_at l)%Z →
  timedOut (fence_state scope s j a l (first_reading w)) = false →
  isExecutingJobStatus (j_status j) = true → isExecutingAttemptStatus (a_status a) = true →
  l_last_renewal_request_id l = Some (rq_renewal_request_id req) →
  l_renewal_version l = (rq_expected_version req + 1)%Z →
  ∃ w', RenewLease cfg scope req w =
    (Ok (mkRenewalResult (f_lease_id (rq_fence req)) (l_renewal_version l) (l_expires_at l)
      (remainingUntil (l_expires_at l) (first_reading w)) true), w') ∧ db w' = db w.
Proof.
  intros Hi Hv Hd Hn Hs Hact Hexp Ht Hj Ha Hreq Hver.
  unfold RenewLease. erewrite bind_run by exact Hv.
  rewrite (proj2 (Z.leb_gt _ _)) by lia. eapply commits_with.
  erewrite bind_run by (by apply lockFence_run).
  change (timestamptz (clock (begin_tx w) (reads (begin_tx w)))) with (first_reading w).
  rewrite leaseUsable_run, Ht by done. simpl. rewrite Hj, Ha. simpl.
  rewrite bool_decide_eq_true_2 by done. rewrite (proj2 (Z.eqb_eq _ _) Hver).
  all: reflexivity.
Qed.

(** A lost renewal response costs nothing.  When a renewal answered and the
    worker sends the same request again while the lease and the execution deadline
    still stand, the second call answers with the version and the expiry of the
    first, says it is a replay, and changes nothing: one logical renewal extends
    the lease once. *)
Theorem RenewLease_retry_extends_once cfg scope req w r w' w2 :
  Inv (db w) → RenewLease cfg scope req w = (Ok r, w') → db w2 = db w' →
  (first_reading w2 < rn_expires_at r)%Z →
  (∀ a t, job_attempts (db w) !! f_attempt_id (rq_fence req) = Some a → a_timeout_at a = Some t →
    (first_reading w2 < t)%Z) →
  ∃ r2 w3, RenewLease cfg scope req w2 = (Ok r2, w3) ∧ db w3 = db w2 ∧ rn_replayed r2 = true ∧
    rn_lease_id r2 = rn_lease_id r ∧ rn_renewal_version r2 = rn_renewal_version r ∧
    rn_expires_at r2 = rn_expires_at r.
Proof.
  intros Hi H Hdb Hexp Hto.
  assert (Inv (db w2)) as Hi2.
  { rewrite Hdb. eapply steps_inv; [|exact Hi]. eapply RenewLease_steps, H. }
  apply RenewLease_effect in H
    as (Hv & s & j & a & l & Hn & Hs & Hact & Hlt & Ht & Hj & Ha & Hd & Hid & _ & Hr).
  assert (∀ l2, timedOut (fence_state scope s j a l2 (first_reading w2)) = false) as Ht2.
  { intros l2. unfold timedOut. simpl. destruct (a_timeout_at a) as [t|] eqn:Hta; [|done].
    apply negb_false_iff, Z.ltb_lt. eapply Hto; [apply Hn|done]. }
  destruct (rn_replayed r); simpl in Hr.
  - destruct Hr as (Heq & Hreq & Hver & Hrv & Hre). rewrite Hre in Hexp.
    destruct (RenewLease_replays cfg scope req w2 s j a l) as (w3 & Hrun & Hw3); try done.
    { by rewrite Hdb, Heq. }
    eexists _, w3. split; [exact Hrun|]. simpl. by rewrite Hid, Hrv, Hre.
  - destruct Hr as (Hver & Heq & Hrv & Hre). rewrite Hre in Hexp.
    destruct (RenewLease_replays cfg scope req w2 s j a
      (renewed_lease cfg req l (first_reading w))) as (w3 & Hrun & Hw3); try done.
    { rewrite Hdb, Heq. destruct Hn as [Hl Hb ? ? ?]. split; try done. simpl. by rewrite lookup_insert_eq. }
    { simpl. by rewrite Hver. }
    eexists _, w3. split; [exact Hrun|]. simpl in *. by rewrite Hid, Hrv, Hre.
Qed.

Lemma RenewLease_retry_extends_once_witness :
  let w := sc_world (at_end sc_running) (sec 1040) 500 in
  let req := mkRenewal sc_fence 91 0 in
  let w2 := sc_world (db (RenewLease sc_cfg "t1" req w).2) (sec 1050) 600 in
  ∃ r2 w3, RenewLease sc_cfg "t1" req w2 = (Ok r2, w3) ∧ rn_renewal_version r2 = 1%Z ∧
    rn_expires_at r2 = sec 1071.
Proof.
  intros w req w2.
  assert ((RenewLease sc_cfg "t1" req w).1 = Ok (mkRenewalResult 301 1 (sec 1071) (sec 30) false))
    as Hrun by (vm_compute; reflexivity).
  destruct (RenewLease_retry_extends_once sc_cfg "t1" req w _ _ w2 (at_end_Inv sc_running)
    (run_answer _ _ _ Hrun)) as (r2 & w3 & Hr & _ & _ & _ & Hv & He).
  - apply sc_world_db.
  - vm_compute. reflexivity.
  - intros a t Ha. assert (a_timeout_at a = Some (sec 1091)) as ->.
    { apply (f_equal (fmap a_timeout_at)) in Ha. vm_compute in Ha. vm_compute. congruence. }
    intros Ht. assert (t = sec 1091) as -> by congruence. vm_compute. reflexivity.
  - exists r2, w3. split; [exact Hr|split; [exact Hv|exact He]].
Defined.
