(* ===== verification/Outcomes.v ===== *)
(** * Package workers: terminal outcomes and their replay

    What a failure report decides, that a repeated report answers with the same
    decision after any history, and what success, cancellation and the reconciler
    do to the rows of an attempt. *)

From S2P Require Import Prelude.
From S2P Require Import GoText.
From S2P Require Import GoFloat.
From S2P Require Import Schema.
From S2P Require Import Lifecycle.
From S2P Require Import Outbox.
From S2P Require Import JobsStore.
From S2P Require Import Results.
From S2P Require Import WorkersTypes.
From S2P Require Import WorkersStore.
From S2P Require Import WorkersOutcome.
From S2P Require Import Invariant.
From S2P Require Import Transitions.
From S2P Require Import Refinement.
From S2P Require Import System.
From S2P Require Import History.
From S2P Require Import Scenario.
From S2P Require Import Running.
From S2P Require Import WorkersTheorems.

Import RetryPolicy.

(** ** What a finalization writes *)

(** The whole milliseconds a decision schedules. *)
Definition decision_ms (dec : Decision) : Z := Z.quot (DecisionDelay dec) Millisecond.

(** The attempt row a finalization writes, from the decision. *)
Definition closed_attempt (st : fenceState) (o : attemptOutcome) (dec : Decision) (a : Attempt)
    : Attempt :=
  close_attempt st o (if Retry dec then Some (decision_ms dec) else None)
    (if Retry dec then Some (fs_server_now st + decision_ms dec * Millisecond)%Z else None) a.

Definition decision_status (dec : Decision) : JobStatus :=
  if Retry dec then if (0 <? decision_ms dec)%Z then StatusRetryWait else StatusQueued
  else StatusDeadLettered.

(** The answer of a finalization: what it stored. *)
Definition decision_answer (f : Fence) (o : attemptOutcome) (dec : Decision) (a' : Attempt)
    (replayed : bool) : OutcomeResult :=
  mkOutcomeResult (f_job_id f) (decision_status dec) (ao_status o) (a_retry_at a')
    ((λ ms, (ms * Millisecond)%Z) <$> a_retry_delay_ms a')
    (if Retry dec then ReasonOther "" else DeadLetterReason dec) replayed.

(** A finalization that answered closed the attempt, ended the lease, and moved the
    job where the decision says. *)
Lemma finalizeAttempt_ok scope st f s j a l o dec w r w' :
  fenced (db w) scope f st s j a l → finalizeAttempt st f o dec w = (Ok r, w') →
  ao_lease_status o ≠ LeaseActive →
  let a' := closed_attempt st o dec a in
  let l' := l <| l_status := ao_lease_status o |> <| l_released_at := Some (fs_server_now st) |> in
  r = decision_answer f o dec a' false ∧ attempt_check a' = true ∧
  job_attempts (db w') = <[f_attempt_id f:=a']> (job_attempts (db w)) ∧
  leases (db w') = <[f_lease_id f:=l']> (leases (db w)) ∧
  worker_sessions (db w') = worker_sessions (db w) ∧
  ∃ j', jobs (db w') = <[f_job_id f:=j']> (jobs (db w)) ∧ job_def j' = job_def j ∧
    j_status j' = decision_status dec ∧
    (decision_status dec = StatusRetryWait → ∃ t, a_retry_at a' = Some t ∧
       j_available_at j' = timestamptz t).
Proof.
  intros Hf H Hls a' l'. unfold finalizeAttempt in H.
  unfold decision_answer, decision_status, a', closed_attempt, decision_ms.
  run_inv; match goal with H : on_unique_violation _ _ _ = _ |- _ => apply on_unique_ok in H end.
  all: match goal with
    | H1 : sql_update _ _ _ _ = _, H2 : release_lease _ _ _ _ = _ |- _ =>
      destruct (close_rows _ _ _ _ _ _ _ _ _ _ _ _ _ _ Hf H1 H2) as (-> & Hd & Hcl); [done..|]
    end.
  all: match goal with
    | H : setJobStatus _ _ _ _ _ = _ |- _ =>
      eapply setJobStatus_ok in H as (j' & _ & Hdef & Hs & _ & Hav & Hok & Hd');
        [|rewrite Hd; apply Hf]
    | H : requeueJob _ _ _ = _ |- _ =>
      eapply requeueJob_ok in H as (j' & _ & Hdef & Hs & _ & _ & _ & Hok & Hd');
        [|rewrite Hd; apply Hf]
    end; rewrite Hd in Hok, Hd'; specialize (Hcl j' Hdef Hok).
  all: try match goal with H : InsertWorkAvailableTx _ _ _ _ _ = _ |- _ =>
      apply InsertWorkAvailableTx_ok in H as (_ & e & _ & ->) end.
  all: try match goal with H : InsertDLQEntryTx _ _ _ _ _ _ _ = _ |- _ =>
      apply InsertDLQEntryTx_db in H as (e & _ & _ & _ & _ & _ & ->) end.
  all: split_and!; [done|apply Hcl|simpl; by rewrite Hd'..|].
  all: exists j'; split_and!; [simpl; by rewrite Hd'|done|done|]; try discriminate.
  eexists. split; [reflexivity|]. by apply Hav.
Qed.

(** ** The rows of a fence, after any history *)

(** The rows a fence names stay, and the closed ones stay as they are. *)
Lemma names_rows_history d d' scope f s j a l :
  permanent d d' → names_rows d scope f s j a l →
  ∃ s' j' a' l', names_rows d' scope f s' j' a' l' ∧
    (Terminal (j_status j) = true → j' = j) ∧
    (isExecutingAttemptStatus (a_status a) = false → a' = a) ∧
    (is_active l = false → l' = l).
Proof.
  intros Hp [Hl (Hlj & Hla & Hlw & Hls & Hlsc) Hs Hj Ha].
  destruct (pm_jobs _ _ Hp _ _ Hj) as (j' & Hj' & _ & Hjf).
  destruct (pm_attempts _ _ Hp _ _ Ha) as (a' & Ha' & _ & Haf).
  destruct (pm_leases _ _ Hp _ _ Hl) as (l' & Hl' & Hld & Hlf).
  destruct (pm_sessions _ _ Hp _ _ Hs) as (s' & Hs' & _ & _).
  apply lease_def_fields in Hld as (? & ? & ? & ? & ? & ? & _).
  exists s', j', a', l'. split_and!; [split; [done|split_and!; congruence|done..]|done|..].
  - intros He. apply Haf. by rewrite He.
  - intros He. apply Hlf. by rewrite He.
Qed.

(** ** Failure reports *)

Definition replay_of (r : OutcomeResult) : OutcomeResult :=
  mkOutcomeResult (or_job_id r) (or_job_status r) (or_attempt_status r) (or_retry_at r)
    (or_retry_delay r) (or_dead_letter_reason r) true.

Definition fail_outcome (report : FailureReport) : attemptOutcome :=
  mkAttemptOutcome AttemptFailed (fr_class report) (fr_error_code report)
    (fr_error_message report) (Some (fr_outcome_request_id report)) LeaseReleased.

Lemma nullable_deref v : derefString (nullableString v) = v.
Proof. unfold derefString, nullableString. case_bool_decide; [by subst|done]. Qed.

(** The reason a refused retry gives is the one a replay derives from the class. *)
Lemma Decide_reason arch p class n used max sample dec :
  Decide arch p class n used max sample = Ok dec → Retry dec = false →
  DeadLetterReason dec =
    if bool_decide (Some class = Some ClassPermanent) then ReasonPermanentFailure
    else ReasonAttemptsExhausted.
Proof.
  unfold Decide. intros H Hr. destruct class; try discriminate; simplify_eq/=; try done.
  all: destruct (used <? max)%Z; simplify_eq/=; done.
Qed.

(** A stored decision replays as the answer it was given with. *)
Lemma replayed_decision scope st report dec a arch p n used max sample s2 j2 l2 now :
  let a' := closed_attempt st (fail_outcome report) dec a in
  Decide arch p (fr_class report) n used max sample = Ok dec → attempt_check a' = true →
  replayedOutcome (fence_state scope s2 j2 a' l2 now) report =
    Ok (decision_answer (fr_fence report) (fail_outcome report) dec a' true).
Proof.
  intros a' Hdec Hc. unfold replayedOutcome. cbn -[derefString nullableString].
  rewrite bool_decide_eq_true_2 by done. rewrite !nullable_deref, !bool_decide_eq_true_2 by done.
  cbn -[derefString nullableString]. unfold decidedJobStatus, decision_answer, decision_status. simpl.
  pose proof (Decide_reason _ _ _ _ _ _ _ _ Hdec) as Hreason.
  unfold attempt_check in Hc. rewrite !andb_true_iff in Hc. simpl in Hc.
  destruct (Retry dec); simpl in *.
  - destruct Hc as ((_ & Hms) & _). apply Z.leb_le in Hms.
    destruct (decision_ms dec =? 0)%Z eqn:Hz; bools.
    + rewrite Hz. done.
    + rewrite (proj2 (Z.ltb_lt _ _)) by lia. done.
  - by rewrite Hreason.
Qed.

Lemma decideRetry_Decide cfg class st w r w' :
  decideRetry cfg class st w = (Ok r, w') → db w' = db w ∧ ∃ arch sample,
    r = Decide arch (cfg_retry_policy cfg) class (fs_attempt_number st) (fs_attempt_number st)
          (fs_max_attempts st) sample.
Proof. unfold decideRetry, jitter_sample. intros H. db_inv; eauto. Qed.

(** A locked transaction that answered, without the health check. *)
Lemma lockAuthority_answers {A} scope f (body : fenceState → Tx (bool * A)) w r w' :
  transaction (st ← lockAuthorityRows scope f; body st) w = (Ok r, w') →
  ∃ st s j a l w1 b w2, fenced (db w) scope f st s j a l ∧ fs_server_now st = first_reading w ∧
    db w1 = db w ∧ body st w1 = (Ok (b, r), w2) ∧ db w' = if b then db w2 else db w.
Proof.
  intros (b & w2 & H & ->)%transaction_ok. apply bind_ok in H as (st & w1 & Hl & Hb).
  pose proof (lockAuthorityRows_clock _ _ _ _ _ Hl) as Hnow.
  apply lockAuthorityRows_ok in Hl as (Hdb & s & j & a & l & Hf).
  exists st, s, j, a, l, w1, b, w2. split_and!; try done. by destruct b.
Qed.

(** A report that decided: the budget it saw, and the rows it left. *)
Lemma Fail_ok cfg scope report w r w' :
  Fail cfg scope report w = (Ok r, w') → or_replayed r = false →
  (∀ w, ValidateFailureReport report w = (Ok tt, w)) ∧
  ∃ st s j a l dec, fenced (db w) scope (fr_fence report) st s j a l ∧
    (∃ arch sample, Decide arch (cfg_retry_policy cfg) (fr_class report) (a_number a) (a_number a)
       (j_max_attempts j) sample = Ok dec) ∧
    let a' := closed_attempt st (fail_outcome report) dec a in
    r = decision_answer (fr_fence report) (fail_outcome report) dec a' false ∧
    attempt_check a' = true ∧ fs_server_now st = first_reading w ∧
    ∃ s' j' l', names_rows (db w') scope (fr_fence report) s' j' a' l' ∧
      j_status j' = decision_status dec ∧
      (decision_status dec = StatusRetryWait → ∃ t, a_retry_at a' = Some t ∧
         j_available_at j' = timestamptz t).
Proof.
  intros H Hnr. unfold Fail in H. apply bind_ok in H as ([] & w0 & Hv & H).
  apply validated_ok in Hv as [Hv ->]. split; [intros w0; unfold ValidateFailureReport; by rewrite Hv|].
  apply lockAuthority_answers in H as (st & s & j & a & l & w1 & b & w2 & Hf & Hnow & Hdb & Hb & Hd).
  run_inv.
  - apply lift_ok in H as [H ->]. unfold commit in *. run_inv. unfold replayedOutcome in H.
    repeat case_match; simplify_eq.
  - apply rejectForeign_ok in H as [-> _]. unfold commit in *. run_inv.
    match goal with H : decideRetry _ _ _ _ = _ |- _ =>
      apply decideRetry_Decide in H as (Hdb2 & arch & sample & Hdec) end.
    destruct (fenced_status _ _ _ _ _ _ _ _ Hf) as (_ & _ & _ & Hn & Hm & _).
    rewrite Hn, Hm in Hdec.
    match goal with H : finalizeAttempt _ _ _ _ _ = _ |- _ =>
      eapply finalizeAttempt_ok in H as (Hr & Hc & Hat & Hle & Hse & j' & Hjo & _ & Hjs & Hav);
        [|rewrite Hdb2, Hdb; exact Hf|done] end.
    exists st, s, j, a, l. eexists. split_and!; [done|by eauto|exact Hr|exact Hc|done|].
    rewrite Hd. eexists s, j', _. split_and!; [|exact Hjs|exact Hav].
    split; [by rewrite Hle, lookup_insert_eq|..].
    + simpl. split_and!; apply Hf.
    + rewrite Hse, Hdb2, Hdb. apply Hf.
    + by rewrite Hjo, lookup_insert_eq.
    + by rewrite Hat, lookup_insert_eq.
Qed.

(** C12: a failure is decided once.  When a report decided (retry at a time, immediate
    requeue, or dead letter), the same report sent again, after any later history
    of the system and under any configuration, answers with that very decision
    field for field (job status, attempt status, retry time, delay and reason),
    marked as a replay, and changes nothing: even when the job has since been
    retried, succeeded or been cancelled, and when the session is gone. *)
Theorem Fail_decides_once cfg cfg2 scope report w r w' w2 :
  Inv (db w) → Fail cfg scope report w = (Ok r, w') → or_replayed r = false →
  rtc sys_step (db w') (db w2) →
  ∃ w3, Fail cfg2 scope report w2 = (Ok (replay_of r), w3) ∧ db w3 = db w2.
Proof.
  intros Hi H Hnr Hh. assert (Inv (db w')) as Hi' by (eapply steps_inv; [eapply Fail_steps, H|done]).
  apply Fail_ok in H as (Hv & st & s & j & a & l & dec & Hf & (arch & sample & Hdec) & Hr & Hc & _ &
    s' & j' & l' & Hn' & _); [|done].
  destruct (names_rows_history _ _ _ _ _ _ _ _ (history_permanent _ _ Hh Hi') Hn')
    as (s2 & j2 & a2 & l2 & Hn2 & _ & Ha2 & _). specialize (Ha2 eq_refl) as ->.
  assert (Inv (db w2)) as Hi2 by (eapply steps_inv; [by apply history_steps|done]).
  unfold Fail. erewrite bind_run by apply Hv. eapply commits_with.
  - erewrite bind_run by (by apply lockAuthorityRows_run).
    rewrite bool_decide_eq_true_2 by done.
    erewrite replayed_decision by done. simpl. rewrite Hr. reflexivity.
  - reflexivity.
Qed.

Lemma exec_Fail cfg scope report w :
  exec (CallFail cfg scope report) w = (Fail cfg scope report w).2.
Proof. done. Qed.

(** Reported at 1040 s, retried, abandoned and dead-lettered by 1200 s, and the
    report sent again then. *)
Lemma Fail_decides_once_witness :
  let w := sc_world (at_end sc_running) (sec 1040) 500 in
  let w2 := sc_world (at_end sc_dead) (sec 1300) 900 in
  let r := mkOutcomeResult 100 StatusRetryWait AttemptFailed (Some (sec 1042)) (Some (sec 1))
             (ReasonOther "") in
  (Fail sc_cfg "t1" sc_report w).1 = Ok (r false) ∧
  ∃ w3, Fail sc_cfg "t1" sc_report w2 = (Ok (r true), w3) ∧ db w3 = db w2.
Proof.
  intros w w2 r.
  assert ((Fail sc_cfg "t1" sc_report w).1 = Ok (r false)) as Hrun by (vm_compute; reflexivity).
  split; [exact Hrun|].
  apply (Fail_decides_once sc_cfg sc_cfg "t1" sc_report w (r false) _ w2 (at_end_Inv sc_running)
    (run_answer _ _ _ Hrun) eq_refl).
  pose proof (at_end_last sc_running (CallFail sc_cfg "t1" sc_report) (sec 1040) 500) as Heq.
  rewrite exec_Fail in Heq. fold w sc_failed in Heq. rewrite <-Heq.
  unfold w2. rewrite sc_world_db. unfold sc_dead, sc_retried. rewrite <-app_assoc.
  apply at_end_app.
Defined.

(** ** The retry policy *)

Lemma Delay_within arch p n sample :
  Validate p = true → ∃ ms, Delay arch p n sample = (ms * Millisecond)%Z ∧
    (0 ≤ ms * Millisecond ≤ Max p)%Z ∧ ∀ arch', Delay arch' p n sample = Delay arch p n sample.
Proof.
  intros (Hb & Hm & Hr)%Validate_bounds.
  destruct (Delay_spec arch p n sample) as (ms & Hd & H0 & Hle & Ha).
  cbv zeta in Hle. rewrite (proj2 (Z.leb_gt (Base p) 0)) in Hle by lia.
  rewrite (proj2 (Z.ltb_ge (Max p) (Base p))) in Hle by lia.
  pose proof (capMillis_le (Max p)) as Hcap.
  exists ms. split_and!; [done|unfold Millisecond; lia| |done]. unfold Millisecond in *. lia.
Qed.

(** C19: the retry delay.  For every policy the configuration accepts, every attempt
    number and every jitter sample (even NaN, infinite or outside [0, 1)), the
    delay is a whole number of milliseconds between zero and the policy's maximum,
    whatever the machine does with out-of-range float conversions: the exponential
    growth saturates, it never overflows. *)
Theorem retry_delay_bounded p :
  Validate p = true → ∀ arch n sample,
  ∃ ms, Delay arch p n sample = (ms * Millisecond)%Z ∧
    (0 ≤ Delay arch p n sample ≤ Max p)%Z ∧
    ∀ arch', Delay arch' p n sample = Delay arch p n sample.
Proof.
  intros Hv arch n sample. destruct (Delay_within arch p n sample Hv) as (ms & Hd & Hb & Ha).
  exists ms. rewrite Hd at 2 3. done.
Qed.

Lemma retry_delay_bounded_witness :
  let p := mk Second (10 * Second) f64_2 f64_1 in
  Validate p = true ∧ (0 ≤ Delay (λ _, 0%Z) p 1000000 (Some f64_0) ≤ 10 * Second)%Z.
Proof.
  intros p. assert (Validate p = true) as Hv by (vm_compute; reflexivity). split; [exact Hv|].
  destruct (retry_delay_bounded p Hv (λ _, 0%Z) 1000000%Z (Some f64_0)) as (ms & _ & Hb & _).
  exact Hb.
Defined.

Lemma timestamptz_add t ms :
  timestamptz (timestamptz t + ms * Millisecond)%Z = (timestamptz t + ms * Millisecond)%Z.
Proof. unfold timestamptz, Millisecond. Z.to_euclidean_division_equations. lia. Qed.

(** What a decision schedules, for a class a handler may report. *)
Lemma Decide_schedule arch p class n used max sample dec :
  Decide arch p class n used max sample = Ok dec → Class.ReportableByHandler class = true →
  Validate p = true →
  if bool_decide (class = ClassPermanent) || (max <=? used)%Z then Retry dec = false
  else Retry dec = true ∧ (0 ≤ decision_ms dec * Millisecond ≤ Max p)%Z.
Proof.
  intros H Hrep Hv. unfold decision_ms.
  destruct (Delay_within arch p n sample Hv) as (ms & Hd & Hb & _).
  destruct class; try done; unfold Decide in H; simpl in *.
  - rewrite Z.leb_antisym. destruct (used <? max)%Z; simplify_eq/=; [|done].
    rewrite Hd, Z.quot_mul by done. done.
  - by simplify_eq.
Qed.

Lemma report_class report w :
  ValidateFailureReport report w = (Ok tt, w) → Class.ReportableByHandler (fr_class report) = true.
Proof.
  intros [H _]%validated_ok. apply app_nil in H as [_ H]. apply app_nil in H as [_ H].
  apply app_nil in H as [H _]. unfold field_if in H. by destruct (Class.ReportableByHandler _).
Qed.

(** What a failure report decides.  A PERMANENT failure, or any failure of the
    last attempt the job may make, dead-letters the job with that reason.  A
    RETRYABLE failure with budget left schedules a retry a whole number of
    milliseconds after the post-lock clock, at most the policy's maximum, and the
    job waits exactly until then (with a zero delay it is queued at once). *)
Theorem Fail_applies_policy cfg scope report w r w' :
  Fail cfg scope report w = (Ok r, w') → or_replayed r = false →
  Validate (cfg_retry_policy cfg) = true →
  ∃ j a j', jobs (db w) !! f_job_id (fr_fence report) = Some j ∧
    job_attempts (db w) !! f_attempt_id (fr_fence report) = Some a ∧
    jobs (db w') !! f_job_id (fr_fence report) = Some j' ∧ j_status j' = or_job_status r ∧
    if bool_decide (fr_class report = ClassPermanent) || (j_max_attempts j <=? a_number a)%Z
    then or_job_status r = StatusDeadLettered ∧ or_retry_at r = None ∧
      or_dead_letter_reason r =
        (if bool_decide (fr_class report = ClassPermanent) then ReasonPermanentFailure
         else ReasonAttemptsExhausted)
    else ∃ ms, (0 ≤ ms * Millisecond ≤ Max (cfg_retry_policy cfg))%Z ∧
      or_retry_delay r = Some (ms * Millisecond)%Z ∧
      or_retry_at r = Some (first_reading w + ms * Millisecond)%Z ∧
      or_job_status r = (if (0 <? ms)%Z then StatusRetryWait else StatusQueued) ∧
      ((0 < ms)%Z → j_available_at j' = (first_reading w + ms * Millisecond)%Z).
Proof.
  intros H Hnr Hv. apply Fail_ok in H as (Hval & st & s & j & a & l & dec & Hf &
    (arch & sample & Hdec) & Hr & _ & Hnow & s' & j' & l' & Hn' & Hjs & Hav); [|done].
  pose proof (Decide_reason _ _ _ _ _ _ _ _ Hdec) as Hreason.
  pose proof (Decide_schedule _ _ _ _ _ _ _ _ Hdec (report_class _ _ (Hval w)) Hv) as Hsch.
  exists j, a, j'. split_and!; [apply Hf|apply Hf|apply Hn'|by rewrite Hr|]. rewrite Hr. simpl.
  destruct (_ || _).
  - unfold decision_status. rewrite Hsch. split_and!; [done..|]. rewrite Hreason by done.
    do 2 case_bool_decide; congruence.
  - destruct Hsch as [Hret Hms]. unfold decision_status in *. rewrite Hret in *.
    exists (decision_ms dec). unfold first_reading in *.
    split_and!; try done; try apply Hms.
    { simpl. by rewrite Hnow, timestamptz_add. }
    intros Hpos. rewrite (proj2 (Z.ltb_lt _ _) Hpos) in Hav.
    destruct (Hav eq_refl) as (t & Ht & ->). simpl in Ht. rewrite Hret in Ht. simpl in Ht.
    injection Ht as <-. by rewrite Hnow, !timestamptz_add.
Qed.

Lemma Fail_applies_policy_witness :
  let w := sc_world (at_end sc_running) (sec 1040) 500 in
  let r := mkOutcomeResult 100 StatusRetryWait AttemptFailed (Some (sec 1042)) (Some (sec 1))
             (ReasonOther "") false in
  (Fail sc_cfg "t1" sc_report w).1 = Ok r ∧
  ∃ j', jobs (db (Fail sc_cfg "t1" sc_report w).2) !! 100%N = Some j' ∧
    j_status j' = StatusRetryWait.
Proof.
  intros w r.
  assert ((Fail sc_cfg "t1" sc_report w).1 = Ok r) as Hrun by (vm_compute; reflexivity).
  split; [exact Hrun|].
  destruct (Fail_applies_policy sc_cfg "t1" sc_report w r _ (run_answer _ _ _ Hrun))
    as (j & a & j' & _ & _ & Hj & Hs & _).
  - reflexivity.
  - vm_compute. reflexivity.
  - exists j'. split; [exact Hj|exact Hs].
Defined.

(** ** Success *)

(** The rows of a fence, rewritten in place. *)
Lemma names_rows_put d d' scope f s j a l j' a' l' :
  names_rows d scope f s j a l → leases d' !! f_lease_id f = Some l' →
  job_attempts d' !! f_attempt_id f = Some a' → jobs d' !! f_job_id f = Some j' →
  worker_sessions d' = worker_sessions d → lease_def l' = lease_def l →
  names_rows d' scope f s j' a' l'.
Proof.
  intros [Hl (? & ? & ? & ? & ?) Hs Hj Ha] Hl' Ha' Hj' Hse Hdef.
  apply lease_def_fields in Hdef as (? & ? & ? & ? & ? & ? & _).
  split; [done|split_and!; congruence|congruence|done|done].
Qed.

(** The rows a success leaves. *)
Definition succeeded_rows (d : DB) (scope : string) (f : Fence) : Prop :=
  ∃ s j a l, names_rows d scope f s j a l ∧ j_status j = StatusSucceeded ∧
    a_status a = AttemptSucceeded ∧ l_status l = LeaseCompleted.

Lemma Succeed_ok scope f res w u w' :
  Succeed scope f res w = (Ok u, w') → fence_fields f = [] ∧ succeeded_rows (db w') scope f.
Proof.
  unfold Succeed. intros H. apply bind_ok in H as ([] & w0 & Hv & H).
  apply validated_ok in Hv as [Hv ->]. split; [exact Hv|].
  apply lockAuthority_answers in H as (st & s & j & a & l & w1 & b & w2 & Hf & Hnow & Hdb & Hb & Hd).
  pose proof (fenced_names_rows _ _ _ _ _ _ _ _ Hf) as Hn.
  destruct (fenced_status _ _ _ _ _ _ _ _ Hf) as (Hjs & Has & Hls & _).
  rewrite <-Hdb in Hf.
  run_inv; unfold commit in *; run_inv; bools.
  { exists s, j, a, l. destruct Hb0 as (? & ? & ?). rewrite Hd, Hdb. split_and!; congruence || done. }
  all: match goal with
    | H1 : sql_update _ _ _ _ = _, H2 : sql_update _ _ _ _ = _, H3 : sql_update _ _ _ _ = _ |- _ =>
      eapply job_update_ok in H1 as (_ & _ & _ & Hd1); [|done|apply Hf];
      eapply attempt_update_ok in H2 as (_ & _ & _ & _ & Hd2); [|done|rewrite Hd1; apply Hf];
      eapply lease_update_ok in H3 as (_ & _ & _ & _ & Hd3); [|done|rewrite Hd2, Hd1; apply Hf]
    end.
  all: try match goal with H : InsertResultTx _ _ = _ |- _ =>
      apply InsertResultTx_db in H as (row & _ & _ & _ & Hd4); rewrite Hd4 in Hd end.
  all: rewrite Hd3, Hd2, Hd1 in Hd; eexists s, _, _, _; split;
    [eapply (names_rows_put (db w)); [exact Hn|..]|].
  all: try (rewrite Hd; simpl; rewrite ?lookup_insert_eq, ?Hdb; reflexivity).
  all: done.
Qed.

(** A success is final and may be reported again.  Once a success was accepted,
    the job, the attempt and the lease are SUCCEEDED, SUCCEEDED and COMPLETED; after
    any later history the same report, whatever result it now carries, is accepted
    again and changes nothing, even from a session that is gone. *)
Theorem Succeed_idempotent scope f res res2 w w' w2 :
  Inv (db w) → Succeed scope f res w = (Ok tt, w') → rtc sys_step (db w') (db w2) →
  succeeded_rows (db w') scope f ∧ succeeded_rows (db w2) scope f ∧
  ∃ w3, Succeed scope f res2 w2 = (Ok tt, w3) ∧ db w3 = db w2.
Proof.
  intros Hi H Hh. assert (Inv (db w')) as Hi' by (eapply steps_inv; [eapply Succeed_steps, H|done]).
  apply Succeed_ok in H as (Hv & Hrows). split; [exact Hrows|].
  destruct Hrows as (s & j & a & l & Hn & Hj & Ha & Hl).
  destruct (names_rows_history _ _ _ _ _ _ _ _ (history_permanent _ _ Hh Hi') Hn)
    as (s2 & j2 & a2 & l2 & Hn2 & Hj2 & Ha2 & Hl2).
  rewrite Hj in Hj2. rewrite Ha in Ha2.
  rewrite (Hj2 eq_refl), (Ha2 eq_refl), (Hl2 (inactive_lease l ltac:(by rewrite Hl))) in Hn2.
  assert (Inv (db w2)) as Hi2 by (eapply steps_inv; [by apply history_steps|done]).
  split; [by exists s2, j, a, l|]. unfold Succeed, ValidateFence. rewrite validated_run by done.
  eapply commits_with.
  - erewrite bind_run by (by apply lockAuthorityRows_run). simpl.
    rewrite bool_decide_eq_true_2 by done. reflexivity.
  - reflexivity.
Qed.

Lemma exec_Succeed scope f res w : exec (CallSucceed scope f res) w = (Succeed scope f res w).2.
Proof. done. Qed.

Lemma Succeed_idempotent_witness :
  let w := sc_world (at_end sc_running) (sec 1040) 500 in
  let w2 := sc_world (at_end sc_succeeded) (sec 2000) 900 in
  (Succeed "t1" sc_fence (Some sc_result) w).1 = Ok tt ∧
  ∃ w3, Succeed "t1" sc_fence None w2 = (Ok tt, w3) ∧ db w3 = db w2.
Proof.
  intros w w2.
  assert ((Succeed "t1" sc_fence (Some sc_result) w).1 = Ok tt) as Hrun by (vm_compute; reflexivity).
  split; [exact Hrun|].
  destruct (Succeed_idempotent "t1" sc_fence (Some sc_result) None w _ w2 (at_end_Inv sc_running)
    (run_answer _ _ _ Hrun)) as (_ & _ & Hagain); [|exact Hagain].
  pose proof (at_end_last sc_running (CallSucceed "t1" sc_fence (Some sc_result)) (sec 1040) 500) as Heq.
  rewrite exec_Succeed in Heq. fold w sc_succeeded in Heq. rewrite <-Heq. apply sc_later.
Defined.
