(* ===== verification/Recovery.v ===== *)
(** * Package workers: recovery

    The reconciler completes: a due timeout and an expired lease always end in an
    outcome.  The statements of a finalization meet every constraint of the
    schema, so nothing but a lost race stops the sweep. *)

From S2P Require Import Prelude.
From S2P Require Import GoText.
From S2P Require Import GoFloat.
From S2P Require Import Schema.
From S2P Require Import Lifecycle.
From S2P Require Import Outbox.
From S2P Require Import JobsStore.
From S2P Require Import WorkersTypes.
From S2P Require Import WorkersStore.
From S2P Require Import WorkersOutcome.
From S2P Require Import Invariant.
From S2P Require Import Transitions.
From S2P Require Import Refinement.
From S2P Require Import System.
From S2P Require Import Scenario.
From S2P Require Import Running.
From S2P Require Import Outcomes.

Import RetryPolicy.

(** ** Programs that answer *)

Definition answers {A} (m : Tx A) (w : World) : Prop := ∃ r w', m w = (Ok r, w').

Lemma bind_answers {A B} (m : Tx A) (k : A → Tx B) w a w' :
  m w = (Ok a, w') → answers (k a) w' → answers (m ≫= k) w.
Proof. intros Hm (r & w2 & Hk). exists r, w2. by erewrite bind_run. Qed.

Lemma ret_answers {A} (a : A) w : answers (mret a) w.
Proof. by eexists _, _. Qed.

Lemma on_unique_run {A} e (m : Tx A) w a w' :
  m w = (Ok a, w') → on_unique_violation e m w = (Ok a, w').
Proof. unfold on_unique_violation. by intros ->. Qed.

(** ** The rows a finalization writes pass their constraints *)

(** The texts of an outcome are what the schema accepts. *)
Definition outcome_texts (o : attemptOutcome) : Prop :=
  match_name 63 (ao_error_code o) = true ∧ (String.length (ao_error_message o) ≤ 512)%nat ∧
  pg_no_cntrl (ao_error_message o) = true.

Lemma closed_attempt_check st o dec a :
  attempt_check a = true → isExecutingAttemptStatus (a_status a) = true →
  (ao_status o = AttemptAbandoned ∨
   failed_outcome (ao_status o) = true ∧ a_status a = AttemptRunning) →
  (∀ t, a_started_at a = Some t → (t ≤ fs_server_now st)%Z) →
  match ao_class o with ClassOther _ => false | _ => true end = true → outcome_texts o →
  (Retry dec = true → (0 ≤ decision_ms dec)%Z) →
  attempt_check (closed_attempt st o dec a) = true.
Proof.
  unfold attempt_check, times_consistent. rewrite !andb_true_iff.
  intros (((((((((Hs & Hn) & Ht) & Hst) & _) & _) & _) & _) & _) & Hto) Hex Ho Hle Hcl (Hc & Hl & Hm) Hd.
  simpl. split_and!; try done.
  - destruct Ho as [->|[Hf Hrun]]; [done|]. rewrite Hrun in Ht. apply andb_true_iff in Ht as [Ht _].
    by destruct (ao_status o); rewrite ?Ht.
  - destruct (a_started_at a) as [t|]; [|done]. apply Z.leb_le. by apply Hle.
  - unfold nullableString. by case_bool_decide.
  - unfold nullableString. case_bool_decide; [done|]. rewrite Hm, andb_true_r. by apply Nat.leb_le.
  - destruct (Retry dec); [|done]. simpl. apply Z.leb_le. by apply Hd.
Qed.

Definition ended_lease (l : Lease) (status : LeaseStatus) (t : time) : Lease :=
  l <| l_status := status |> <| l_released_at := Some t |>.

Lemma ended_lease_check l status t :
  lease_check l = true → status ≠ LeaseActive → (l_acquired_at l ≤ t)%Z →
  lease_check (ended_lease l status t) = true.
Proof.
  unfold lease_check. rewrite !andb_true_iff. simpl. intros (((((? & ?) & _) & ?) & _) & ?) Hs Ht.
  rewrite bool_decide_eq_false_2 by done. split_and!; try tauto; try done. by apply Z.leb_le.
Qed.

Lemma ended_lease_conflict l status t l' :
  status ≠ LeaseActive → lease_conflict (ended_lease l status t) l' = true →
  lease_conflict l l' = true.
Proof.
  unfold lease_conflict. simpl. intros Hs. rewrite (bool_decide_eq_false_2 (status = _)) by done.
  simpl. rewrite !orb_true_iff. intuition discriminate.
Qed.

(** The lease of a fence, ended after its attempt was rewritten. *)
Lemma ended_lease_constraints d scope f s j a l a' status t :
  Inv d → names_rows d scope f s j a l → attempt_def a' = attempt_def a →
  status ≠ LeaseActive → (l_acquired_at l ≤ t)%Z →
  lease_constraints (d <| job_attempts := <[f_attempt_id f:=a']> (job_attempts d) |>)
    (f_lease_id f) (ended_lease l status t) = None.
Proof.
  intros Hi Hn Hdef Hs Ht.
  destruct (names_rows_bound _ _ _ _ _ _ _ Hi Hn) as ((B1 & B2 & B3 & B4 & B5 & B6 & B7) & Hsw & Hss & _).
  destruct (names_rows_ok _ _ _ _ _ _ _ Hi Hn) as (_ & _ & _ & Hlc).
  destruct Hn as [Hl (Hlj & Hla & Hlw & Hls & Hsc) Hse Hj Ha].
  apply attempt_def_fields in Hdef as (D1 & D2 & D3 & D4 & D5 & D6).
  unfold lease_constraints. apply pg_verdict_None. split_and!.
  - by apply ended_lease_check.
  - apply negb_true_iff, map_any_false. simpl. intros k l' Hk.
    destruct (decide (k = f_lease_id f)) as [->|Hne]; [by rewrite bool_decide_eq_true_2|].
    rewrite (bool_decide_eq_false_2 _ Hne). simpl.
    apply not_true_iff_false. intros Hc%ended_lease_conflict; [|done].
    by apply Hne, eq_sym, (li_unique _ _ _ (inv_leases _ Hi) _ _ _ _ Hl Hk).
  - unfold job_is, session_is, attempt_binding. simpl.
    rewrite Hlj, Hls, Hla, Hj, Hse, lookup_insert_eq.
    rewrite !bool_decide_eq_true_2 by (split_and!; congruence). done.
Qed.

(** ** The statements of a finalization answer *)

(** What the environment promises an insertion: the next uuid is not a row yet,
    and PostgreSQL stores the document of a notification as an object. *)
Record supplies (w : World) : Prop := {
  su_event : outbox_events (db w) !! uuids w (drawn w) = None;
  su_entry : dlq_entries (db w) !! uuids w (drawn w) = None;
  su_jsonb : ∀ queue job, ∃ t,
    jsonb w (work_available_data queue job) = Some t ∧ jsonb_object t = true;
}.

(** Only the tables of the fence changed since. *)
Record same_supplies (w w' : World) : Prop := {
  ss_events : outbox_events (db w') = outbox_events (db w);
  ss_entries : dlq_entries (db w') = dlq_entries (db w);
  ss_uuids : uuids w' = uuids w;
  ss_drawn : drawn w' = drawn w;
  ss_jsonb : jsonb w' = jsonb w;
}.

Lemma supplies_later w w' : supplies w → same_supplies w w' → supplies w'.
Proof.
  intros [He Hd Hj] [E1 E2 E3 E4 E5].
  split; rewrite ?E1, ?E2, ?E3, ?E4, ?E5; assumption.
Qed.

Lemma update_same_supplies {K V} `{Table K V} k (v : V) w :
  outbox_events (tput (<[k:=v]> (tget (db w))) (db w)) = outbox_events (db w) →
  dlq_entries (tput (<[k:=v]> (tget (db w))) (db w)) = dlq_entries (db w) →
  same_supplies w (w <| db := tput (<[k:=v]> (tget (db w))) (db w) |>).
Proof. by split. Qed.

(** A notification of this generation, stored and waiting for the publisher. *)
Definition pending_event (e : OutboxEvent) (job : uuid) (gen : Z) (now : time) : Prop :=
  e_job_id e = Some job ∧ e_generation e = Some gen ∧ e_status e = EventPending ∧
  e_available_at e = now.

Lemma InsertWorkAvailableTx_run job queue gen w :
  supplies w → (1 ≤ gen)%Z → is_Some (jobs (db w) !! job) →
  ∃ e w', InsertWorkAvailableTx job queue gen None w = (Ok (uuids w (drawn w)), w') ∧
    db w' = add_event (db w) (uuids w (drawn w)) e ∧ pending_event e job gen (txstart w).
Proof.
  intros [He _ Hj] Hg [j Hjob]. unfold InsertWorkAvailableTx.
  rewrite (proj2 (Z.ltb_ge _ _) Hg).
  destruct (Hj queue (uuid_String w job)) as (t & Ht & Hobj).
  eexists _, _. split.
  { etrans; [eapply bind_run; reflexivity|]. etrans; [eapply bind_run; reflexivity|].
    etrans; [eapply bind_run, to_jsonb_run; exact Ht|].
    etrans; [eapply bind_run; reflexivity|]. simpl.
    etrans; [eapply bind_run, sql_insert_run; [exact He|]|reflexivity].
    simpl. unfold event_constraints. apply pg_verdict_None. simpl. rewrite Hjob. split_and!; try done.
    unfold event_check. simpl. rewrite Hobj. simpl.
    by rewrite (proj2 (Z.leb_le _ _) Hg). }
  split; [reflexivity|done].
Qed.

Lemma InsertWorkAvailableTx_answers job queue gen w :
  supplies w → (1 ≤ gen)%Z → is_Some (jobs (db w) !! job) →
  answers (InsertWorkAvailableTx job queue gen None) w.
Proof.
  intros Hs Hg Hj. destruct (InsertWorkAvailableTx_run job queue gen w) as (e & w' & H & _); [done..|].
  by eexists _, _.
Qed.

Lemma InsertDLQEntryTx_answers scope queue job aid reason t w j a :
  supplies w → Reason_Valid reason = true → scope_ok scope = true →
  jobs (db w) !! job = Some j → j_scope j = scope ∧ j_queue j = queue →
  job_attempts (db w) !! aid = Some a → a_job_id a = job ∧ a_scope a = scope ∧ a_queue a = queue →
  (∀ k e, dlq_entries (db w) !! k = Some e → d_job_id e ≠ job) →
  answers (InsertDLQEntryTx scope queue job (Some aid) reason t) w.
Proof.
  intros [_ He _] Hr Hsc Hj Hjb Ha Hab Hno. unfold InsertDLQEntryTx. rewrite Hr. simpl.
  eapply bind_answers; [reflexivity|]. eapply bind_answers; [|apply ret_answers].
  apply on_unique_run, sql_insert_run; [exact He|].
  simpl. unfold dlq_constraints, job_is. simpl. rewrite Hj, Ha. apply pg_verdict_None.
  rewrite Hsc, !bool_decide_eq_true_2 by done. split_and!; [by destruct reason| |done].
  apply negb_true_iff, map_any_false. intros k e Hk.
  rewrite (bool_decide_eq_false_2 (d_job_id e = job)) by eauto. by rewrite andb_false_r.
Qed.

(** The job of a fence may leave execution for any status but PENDING. *)
Lemma job_move_run f j j' p g w :
  jobs (db w) !! f_job_id f = Some j → p j = true → g j = j' →
  job_ok (queues (db w)) (jobs (db w)) (f_job_id f) j' →
  sql_update (f_job_id f) p g w =
    (Ok (Some j'), w <| db := put_job (db w) (f_job_id f) j' |>).
Proof.
  intros Hj Hp <- Hok. rewrite (sql_update_run (f_job_id f) p g j); [done..|].
  by apply job_ok_constraints.
Qed.

Lemma setJobStatus_run f j status at_ t w :
  jobs (db w) !! f_job_id f = Some j → isExecutingJobStatus (j_status j) = true →
  job_ok (queues (db w)) (jobs (db w)) (f_job_id f) j →
  status ≠ StatusPending → canceling status = false →
  ∃ j' w', setJobStatus (f_job_id f) status at_ t w = (Ok tt, w') ∧
    db w' = put_job (db w) (f_job_id f) j' ∧ job_def j' = job_def j ∧ same_supplies w w'.
Proof.
  intros Hj Hex Hok Hp Hc. eexists _, _. split.
  { etrans; [eapply bind_run, (job_move_run f j); [done|done|reflexivity|]|reflexivity].
    destruct at_; (eapply job_ok_status; [exact Hok|done..| |by right]); simpl; rewrite Hc;
      by destruct (j_status j). }
  split_and!; [reflexivity|by destruct at_|by split].
Qed.

Lemma setJobStatus_then {B} f j status at_ t (k : unit → Tx B) w :
  jobs (db w) !! f_job_id f = Some j → isExecutingJobStatus (j_status j) = true →
  job_ok (queues (db w)) (jobs (db w)) (f_job_id f) j →
  status ≠ StatusPending → canceling status = false →
  (∀ j' w', db w' = put_job (db w) (f_job_id f) j' → job_def j' = job_def j →
     same_supplies w w' → answers (k tt) w') →
  answers (setJobStatus (f_job_id f) status at_ t ≫= k) w.
Proof.
  intros Hj Hex Hok Hp Hc Hk.
  destruct (setJobStatus_run f j status at_ t w) as (j' & w' & Hrun & ? & ? & ?); [done..|].
  eapply bind_answers; [exact Hrun|eauto].
Qed.

Lemma requeueJob_run f j t w :
  jobs (db w) !! f_job_id f = Some j → isExecutingJobStatus (j_status j) = true →
  job_ok (queues (db w)) (jobs (db w)) (f_job_id f) j → (0 ≤ j_notification_generation j)%Z →
  ∃ j' w', requeueJob (f_job_id f) t w = (Ok (j_notification_generation j + 1)%Z, w') ∧
    db w' = put_job (db w) (f_job_id f) j' ∧ same_supplies w w'.
Proof.
  intros Hj Hex Hok Hg. eexists _, _. split.
  { etrans; [eapply bind_run, (job_move_run f j); [done|done|reflexivity|]|reflexivity].
    eapply job_ok_status; [exact Hok|done..| |left; split; [simpl; lia|by eexists]].
    simpl. by destruct (j_status j). }
  split_and!; [done|by split].
Qed.

Section finalize.
Context (scope : string) (f : Fence) (s : WorkerSession) (j : Job) (a : Attempt) (l : Lease).
Context (st : fenceState) (o : attemptOutcome) (dec : Decision) (w : World).
Hypothesis Hi : Inv (db w).
Hypothesis Hn : names_rows (db w) scope f s j a l.
Hypothesis Hsup : supplies w.
Hypothesis Hst : st = fence_state scope s j a l (fs_server_now st).
Hypothesis Hact : l_status l = LeaseActive.
Hypothesis Hjob : isExecutingJobStatus (j_status j) = true.
Hypothesis Hls : ao_lease_status o ≠ LeaseActive.
Hypothesis Hacq : (l_acquired_at l ≤ fs_server_now st)%Z.

(** The database once the attempt and the lease are closed. *)
Definition closed_db (a' : Attempt) (l' : Lease) : DB :=
  (db w) <| job_attempts := <[f_attempt_id f:=a']> (job_attempts (db w)) |>
         <| leases := <[f_lease_id f:=l']> (leases (db w)) |>.

Lemma close_run g :
  (∀ a, attempt_def (g a) = attempt_def a) → attempt_check (g a) = true →
  attempt_free (job_attempts (db w)) (f_attempt_id f) (g a) →
  let l' := ended_lease l (ao_lease_status o) (fs_server_now st) in
  ∃ w1 w2, sql_update (f_attempt_id f) (λ a, isExecutingAttemptStatus (a_status a)) g w
      = (Ok (Some (g a)), w1) ∧
    release_lease (f_lease_id f) (ao_lease_status o) (fs_server_now st) w1 = (Ok tt, w2) ∧
    db w2 = closed_db (g a) l' ∧ same_supplies w w2.
Proof.
  clear Hjob. intros Hdef Hc Hfree l'.
  destruct (names_rows_live _ _ _ _ _ _ _ Hi Hn Hact) as [Hlive _].
  set (w1 := w <| db := (db w) <| job_attempts := <[f_attempt_id f:=g a]> (job_attempts (db w)) |> |>).
  exists w1, (w1 <| db := closed_db (g a) l' |>). split_and!.
  - rewrite (sql_update_run (f_attempt_id f) _ g a); [done|apply Hn| |].
    + by destruct (j_status j), (a_status a).
    + by eapply attempt_update_constraints; [|apply Hn|..].
  - etrans; [eapply bind_run, (sql_update_run (f_lease_id f) _ _ l)|done].
    + apply Hn.
    + by apply active_lease.
    + by eapply (ended_lease_constraints (db w) scope f s j a l).
  - done.
  - by split.
Qed.

(** The dead letter of the job, once its rows are closed. *)
Lemma dead_letter_then {B} a' l' j' w2 w3 reason (k : uuid → Tx B) :
  db w2 = closed_db a' l' → db w3 = put_job (db w2) (f_job_id f) j' →
  attempt_def a' = attempt_def a → job_def j' = job_def j → supplies w3 →
  Reason_Valid reason = true → (∀ e w4, answers (k e) w4) →
  answers (InsertDLQEntryTx (fs_scope st) (fs_queue st) (f_job_id f) (Some (f_attempt_id f))
    reason (fs_server_now st) ≫= k) w3.
Proof.
  intros Hd2 Hd3 Hadef Hdef Hs Hr Hk.
  destruct (names_rows_bound _ _ _ _ _ _ _ Hi Hn) as ((B1 & B2 & B3 & _ & _ & B6 & B7) & _ & _ & _).
  destruct (names_rows_ok _ _ _ _ _ _ _ Hi Hn) as (_ & Hac & _).
  destruct Hn as [Hl (Hlj & _ & _ & _ & Hsc) _ Hj Ha]. apply job_def_fields in Hdef.
  apply attempt_def_fields in Hadef.
  pose proof (f_equal fs_scope Hst) as Hfs. pose proof (f_equal fs_queue Hst) as Hfq. simpl in *.
  destruct (InsertDLQEntryTx_answers (fs_scope st) (fs_queue st) (f_job_id f) (f_attempt_id f)
    reason (fs_server_now st) w3 j' a') as (e & w4 & Hins); try done.
  all: rewrite ?Hd3, ?Hd2; simpl; rewrite ?lookup_insert_eq; try done.
  - unfold attempt_check in Hac. rewrite !andb_true_iff in Hac.
    replace (fs_scope st) with (a_scope a) by congruence. tauto.
  - split; naive_solver congruence.
  - split_and!; naive_solver congruence.
  - intros eid e He Heq. destruct (di_entry _ _ (inv_dlq _ Hi) _ _ He) as (j0 & Hj0 & Hdl).
    rewrite Heq, Hj in Hj0. injection Hj0 as <-. by rewrite Hdl in Hjob.
  - eapply bind_answers; [exact Hins|apply Hk].
Qed.

(** A finalization whose rows pass their checks runs to its answer. *)
Lemma finalizeAttempt_answers :
  attempt_check (closed_attempt st o dec a) = true → ao_outcome_request_id o = None →
  (Retry dec = false → Reason_Valid (DeadLetterReason dec) = true) →
  answers (finalizeAttempt st f o dec) w.
Proof.
  intros Hc Hout Hreason. destruct (names_rows_ok _ _ _ _ _ _ _ Hi Hn) as (Hjok & Hac & Haf & _).
  destruct (close_run (close_attempt st o (if Retry dec then Some (decision_ms dec) else None)
    (if Retry dec then Some (fs_server_now st + decision_ms dec * Millisecond)%Z else None)))
    as (w1 & w2 & Hu & Hr & Hd2 & Hs2); [done|done| |].
  { eapply attempt_free_same; [exact Haf|]. simpl. by rewrite Hout. }
  assert (jobs (db w2) !! f_job_id f = Some j) as Hj2 by (rewrite Hd2; apply Hn).
  assert (job_ok (queues (db w2)) (jobs (db w2)) (f_job_id f) j) as Hjok2 by (by rewrite Hd2).
  unfold finalizeAttempt.
  eapply bind_answers; [apply on_unique_run, Hu|]. eapply bind_answers; [exact Hr|].
  destruct (Retry dec) eqn:Hret.
  - fold (decision_ms dec). destruct (0 <? decision_ms dec)%Z.
    + eapply setJobStatus_then; [exact Hj2|done..|]. intros. apply ret_answers.
    + edestruct requeueJob_run as (j' & w3 & Hset & Hd3 & Hs3); [exact Hj2|done..| |].
      { by eapply (inv_events _ Hi), Hn. }
      eapply bind_answers; [exact Hset|].
      edestruct InsertWorkAvailableTx_answers as (e & w4 & Hins);
        [eapply supplies_later; [eapply supplies_later; [exact Hsup|exact Hs2]|exact Hs3]|..].
      3: eapply bind_answers; [exact Hins|apply ret_answers].
      { pose proof (proj1 (inv_events _ Hi _ _ (nr_job _ _ _ _ _ _ _ Hn))). lia. }
      { rewrite Hd3. simpl. rewrite lookup_insert_eq. by eexists. }
  - eapply setJobStatus_then; [exact Hj2|done..|]. intros j' w3 Hd3 Hdef Hs3.
    eapply dead_letter_then; [exact Hd2|exact Hd3|done|exact Hdef| |by apply Hreason|].
    { eapply supplies_later; [eapply supplies_later; [exact Hsup|exact Hs2]|exact Hs3]. }
    intros. apply ret_answers.
Qed.
End finalize.

(** ** A reconciler's outcome, from the decision to the rows *)

Lemma names_rows_fenced d scope f s j a l now :
  Inv d → names_rows d scope f s j a l →
  fenced d scope f (fence_state scope s j a l now) s j a l.
Proof.
  intros Hi Hn. destruct (names_rows_bound _ _ _ _ _ _ _ Hi Hn) as (Hb & Hsw & Hss & _).
  destruct Hb as (_ & B2 & _ & _ & _ & B6 & _). destruct Hn as [? (? & ? & ? & ? & ?) ? ? ?].
  split; try done. split_and!; congruence.
Qed.

(** The delay the retry policy gives after this attempt, with the next sample of the
    jitter source if the store has one. *)
Definition policy_delay (cfg : StoreConfig) (w : World) (number : Z) : duration :=
  Delay (arch w) (cfg_retry_policy cfg) number
    (if cfg_jitter cfg then Some (samples w (sampled w)) else None).

(** A timeout or an abandonment always has a decision. *)
Lemma decideRetry_run cfg class st w :
  class = ClassTimedOut ∨ class = ClassAbandoned →
  ∃ dec w', decideRetry cfg class st w = (Ok (Ok dec), w') ∧ db w' = db w ∧ same_supplies w w' ∧
    Retry dec = (fs_attempt_number st <? fs_max_attempts st)%Z ∧
    (Retry dec = true → (0 ≤ decision_ms dec)%Z) ∧
    (Retry dec = false → DeadLetterReason dec = ReasonAttemptsExhausted) ∧
    (class = ClassAbandoned → decision_ms dec = 0%Z) ∧
    (Retry dec = true → class = ClassTimedOut →
       (decision_ms dec * Millisecond)%Z = policy_delay cfg w (fs_attempt_number st)).
Proof.
  intros Hcl. set (n := fs_attempt_number st). set (max := fs_max_attempts st).
  assert (∀ sample, ∃ dec, Decide (arch w) (cfg_retry_policy cfg) class n n max sample = Ok dec ∧
    Retry dec = (n <? max)%Z ∧ (Retry dec = true → (0 ≤ decision_ms dec)%Z) ∧
    (Retry dec = false → DeadLetterReason dec = ReasonAttemptsExhausted) ∧
    (class = ClassAbandoned → decision_ms dec = 0%Z) ∧
    (Retry dec = true → class = ClassTimedOut →
       (decision_ms dec * Millisecond)%Z = Delay (arch w) (cfg_retry_policy cfg) n sample)) as Hdec.
  { intros sample. destruct (Delay_spec (arch w) (cfg_retry_policy cfg) n sample) as (ms & Hd & H0 & _).
    unfold Decide, decision_ms. destruct Hcl as [-> | ->]; destruct (n <? max)%Z; eexists;
      (split_and!; [reflexivity|done|..]); try done; simpl.
    all: rewrite Hd, Z.quot_mul by done; done. }
  unfold decideRetry, jitter_sample, policy_delay. destruct (cfg_jitter cfg).
  - destruct (Hdec (Some (samples w (sampled w)))) as (dec & Heq & Hrest).
    exists dec, (w <| sampled := S (sampled w) |>). split_and!; try apply Hrest; [|done|by split].
    unfold mbind, M_bind, jitter_Float64, get_arch, mret, M_ret. fold n max. simpl. by rewrite Heq.
  - destruct (Hdec None) as (dec & Heq & Hrest).
    exists dec, w. split_and!; try apply Hrest; [|done|by split].
    unfold mbind, M_bind, jitter_Float64, get_arch, mret, M_ret. fold n max. simpl. by rewrite Heq.
Qed.

(** The rows of a fence after an outcome: the attempt and the lease ended, the job
    where it goes. *)
Definition left_by (d : DB) (f : Fence) (att : AttemptStatus) (lea : LeaseStatus)
    (job : JobStatus) : Prop :=
  a_status <$> job_attempts d !! f_attempt_id f = Some att ∧
  l_status <$> leases d !! f_lease_id f = Some lea ∧
  j_status <$> jobs d !! f_job_id f = Some job.

Lemma attempt_executing d scope f s j a l :
  Inv d → names_rows d scope f s j a l → l_status l = LeaseActive →
  isExecutingAttemptStatus (a_status a) = true.
Proof.
  intros Hi Hn Hact. destruct (names_rows_live _ _ _ _ _ _ _ Hi Hn Hact) as [Hlive _].
  by destruct (j_status j), (a_status a).
Qed.

Section reconcile.
Context (scope : string) (f : Fence) (s : WorkerSession) (j : Job) (a : Attempt) (l : Lease).
Context (now : time) (w : World).
Hypothesis Hi : Inv (db w).
Hypothesis Hn : names_rows (db w) scope f s j a l.
Hypothesis Hsup : supplies w.
Hypothesis Hact : l_status l = LeaseActive.
Hypothesis Hacq : (l_acquired_at l ≤ now)%Z.
Hypothesis Hstart : ∀ t, a_started_at a = Some t → (t ≤ now)%Z.

Let st := fence_state scope s j a l now.

Lemma outcome_run cfg class o :
  class = ClassTimedOut ∧ ao_status o = AttemptTimedOut ∧ a_status a = AttemptRunning ∨
  class = ClassAbandoned ∧ ao_status o = AttemptAbandoned →
  ao_class o = class → outcome_texts o → ao_outcome_request_id o = None →
  ao_lease_status o ≠ LeaseActive → isExecutingJobStatus (j_status j) = true →
  ∃ dec w1 r w2, decideRetry cfg class st w = (Ok (Ok dec), w1) ∧
    finalizeAttempt st f o dec w1 = (Ok r, w2) ∧ or_job_status r = decision_status dec ∧
    left_by (db w2) f (ao_status o) (ao_lease_status o) (decision_status dec) ∧
    Retry dec = (a_number a <? j_max_attempts j)%Z ∧
    (class = ClassAbandoned → decision_ms dec = 0%Z) ∧
    (Retry dec = true → class = ClassTimedOut →
       (decision_ms dec * Millisecond)%Z = policy_delay cfg w (a_number a)) ∧
    (decision_status dec = StatusRetryWait → j_available_at <$> jobs (db w2) !! f_job_id f =
       Some (timestamptz (now + decision_ms dec * Millisecond))).
Proof.
  intros Hcl Hoc Htx Hout Hls Hjob.
  destruct (decideRetry_run cfg class st w) as (dec & w1 & Hdec & Hdb1 & Hs1 & Hret & Hms & Hre & Hz & Hpol);
    [naive_solver|].
  destruct (names_rows_ok _ _ _ _ _ _ _ Hi Hn) as (_ & Hac & _).
  assert (attempt_check (closed_attempt st o dec a) = true) as Hck.
  { apply closed_attempt_check; try done; [by eapply attempt_executing| |].
    - destruct Hcl as [(_ & -> & ->)|(_ & ->)]; auto.
    - rewrite Hoc. by destruct Hcl as [[-> _]|[-> _]]. }
  rewrite <-Hdb1 in Hi, Hn. pose proof (supplies_later _ _ Hsup Hs1) as Hsup1.
  destruct (finalizeAttempt_answers scope f s j a l st o dec w1) as (r & w2 & Hfin); try done.
  { intros Hr. by rewrite Hre. }
  pose proof (names_rows_fenced _ _ _ _ _ _ _ now Hi Hn) as Hf.
  destruct (finalizeAttempt_ok _ _ _ _ _ _ _ _ _ _ _ _ Hf Hfin Hls)
    as (-> & _ & Hat & Hle & _ & j' & Hjo & _ & Hjs & Hav).
  exists dec, w1. eexists _, w2. split; [exact Hdec|]. split; [exact Hfin|]. split; [done|].
  split; [|split_and!; try done].
  - unfold left_by. rewrite Hat, Hle, Hjo, !lookup_insert_eq. simpl. by rewrite Hjs.
  - intros Hw. destruct (Hav Hw) as (t & Ht & Hja). rewrite Hjo, lookup_insert_eq. simpl. rewrite Hja.
    revert Ht. simpl. unfold decision_status in Hw. destruct (Retry dec); [|done]. intros [= <-].
    by rewrite timestamptz_idem.
Qed.

(** Cancellation of an abandoned attempt, by the reconciler. *)
Lemma cancel_attempt_check : attempt_check (cancel_attempt st None a) = true.
Proof.
  destruct (names_rows_ok _ _ _ _ _ _ _ Hi Hn) as (_ & Hac & _). revert Hac.
  unfold attempt_check, times_consistent. rewrite !andb_true_iff. simpl.
  intros (((((((((? & ?) & _) & ?) & _) & _) & _) & _) & ?) & ?). split_and!; try done.
  destruct (a_started_at a) as [t|]; [|done]. apply Z.leb_le. by apply Hstart.
Qed.

Lemma cancellation_run :
  j_status j = StatusCancelRequested →
  ∃ r w2, finalizeCancellation st f None LeaseExpired w = (Ok r, w2) ∧
    left_by (db w2) f AttemptCanceled LeaseExpired StatusCanceled.
Proof.
  intros Hj. destruct (names_rows_ok _ _ _ _ _ _ _ Hi Hn) as (Hjok & _ & Haf & _).
  destruct (close_run scope f s j a l st
    (mkAttemptOutcome AttemptCanceled ClassCanceled "" "" None LeaseExpired) w) with
    (g := cancel_attempt st None) as (w1 & w2 & Hu & Hr & Hd2 & _); try done.
  { apply cancel_attempt_check. }
  eexists _, _. split.
  - unfold finalizeCancellation. etrans; [eapply bind_run, on_unique_run, Hu|]. simpl.
    etrans; [eapply bind_run, Hr|].
    etrans; [eapply bind_run, (job_move_run f j); [rewrite Hd2; apply Hn|by rewrite Hj|reflexivity|]|].
    + rewrite Hd2. eapply job_ok_status; [exact Hjok|done..| |by right]. simpl. by rewrite Hj.
    + reflexivity.
  - unfold left_by. simpl. rewrite Hd2. simpl. by rewrite !lookup_insert_eq.
Qed.
End reconcile.

(** ** The expired lease *)

(** The outcome of an attempt whose lease lapsed, from what is stored: a deadline
    at or before the lapse was a timeout, anything else abandonment. *)
Definition deadline_by (t : option time) (limit : time) : bool :=
  match t with Some t => (t <=? limit)%Z | None => false end.

Definition lapse_outcome (j : Job) (a : Attempt) (l : Lease) : AttemptStatus :=
  if bool_decide (j_status j = StatusCancelRequested) then AttemptCanceled
  else if deadline_by (a_timeout_at a) (l_expires_at l) then AttemptTimedOut else AttemptAbandoned.

(** Where the job of a lapsed lease goes. *)
Definition lapse_destination (cfg : StoreConfig) (w : World) (j : Job) (a : Attempt) (l : Lease) : JobStatus :=
  match lapse_outcome j a l with
  | AttemptCanceled => StatusCanceled
  | out =>
    if (a_number a <? j_max_attempts j)%Z
    then if bool_decide (out = AttemptTimedOut) && (0 <? policy_delay cfg w (a_number a))%Z
         then StatusRetryWait else StatusQueued
    else StatusDeadLettered
  end.

(** Once the lease has lapsed, how late the reconciler comes does not matter. *)
Lemma timedOutBeforeLapse_lapsed scope s j a l now :
  (l_expires_at l ≤ now)%Z →
  timedOutBeforeLapse (fence_state scope s j a l now) = deadline_by (a_timeout_at a) (l_expires_at l).
Proof.
  intros Hle. unfold timedOutBeforeLapse, timedOut, deadline_by. simpl.
  destruct (a_timeout_at a) as [t|]; [|done]. rewrite <-!Z.leb_antisym.
  destruct (t <=? l_expires_at l)%Z eqn:Ht; [|done]. bools. apply Z.leb_le. lia.
Qed.

(** An attempt with a deadline has started. *)
Lemma deadline_running d scope f s j a l limit :
  Inv d → names_rows d scope f s j a l → l_status l = LeaseActive →
  deadline_by (a_timeout_at a) limit = true → a_status a = AttemptRunning.
Proof.
  intros Hi Hn Hact Hd. destruct (names_rows_ok _ _ _ _ _ _ _ Hi Hn) as (_ & Hac & _).
  pose proof (attempt_executing _ _ _ _ _ _ _ Hi Hn Hact) as Hex.
  unfold attempt_check, times_consistent in Hac. rewrite !andb_true_iff in Hac.
  destruct Hac as (((((((((_ & _) & Ht) & _) & _) & _) & _) & _) & _) & Hto).
  destruct (a_timeout_at a); [|done]. destruct (a_started_at a); [|done].
  by destruct (a_status a).
Qed.

(** A decision of the policy for a lapse of this class. *)
Definition decision_of_lapse (cfg : StoreConfig) (w : World) (cls : FailureClass) (dec : Decision) (j : Job)
    (a : Attempt) : Prop :=
  Retry dec = (a_number a <? j_max_attempts j)%Z ∧ (cls = ClassAbandoned → decision_ms dec = 0%Z) ∧
  (Retry dec = true → cls = ClassTimedOut → (decision_ms dec * Millisecond)%Z = policy_delay cfg w (a_number a)).

Lemma lapse_destined cfg w cls dec j a l :
  j_status j ≠ StatusCancelRequested → decision_of_lapse cfg w cls dec j a →
  lapse_outcome j a l = AttemptTimedOut ∧ cls = ClassTimedOut ∨
  lapse_outcome j a l = AttemptAbandoned ∧ cls = ClassAbandoned →
  decision_status dec = lapse_destination cfg w j a l.
Proof.
  intros Hj (Hr & Hz & Hp) Hout. unfold lapse_destination, decision_status. rewrite <-Hr.
  destruct Hout as [[-> ->]|[-> ->]]; destruct (Retry dec) eqn:Hret; simpl; try done.
  - rewrite <-Hp by done. destruct (0 <? decision_ms dec)%Z eqn:H0; bools.
    + by rewrite (proj2 (Z.ltb_lt 0 (decision_ms dec * Millisecond))) by (unfold Millisecond; lia).
    + by rewrite (proj2 (Z.ltb_ge 0 (decision_ms dec * Millisecond))) by (unfold Millisecond; lia).
  - by rewrite Hz.
Qed.

Lemma lockForReconciliation_run scope f s j a l w :
  Inv (db w) → names_rows (db w) scope f s j a l →
  lockFenceForReconciliation scope f w =
    (Ok (Some (fence_state scope s j a l (timestamptz (clock w (reads w))))),
     w <| reads := S (reads w) |>).
Proof.
  intros Hi Hn. unfold lockFenceForReconciliation, on_fence_rejected.
  by erewrite bind_run by (by apply lockAuthorityRows_run).
Qed.

(** What the finalization of a timeout counts and leaves. *)
Lemma finalizeTimeout_run cfg scope f s j a l now stats w :
  Inv (db w) → names_rows (db w) scope f s j a l → supplies w → l_status l = LeaseActive →
  (l_acquired_at l ≤ now)%Z → (∀ t, a_started_at a = Some t → (t ≤ now)%Z) →
  a_status a = AttemptRunning → isExecutingJobStatus (j_status j) = true →
  let lea := if (now <? l_expires_at l)%Z then LeaseReleased else LeaseExpired in
  ∃ dec stats' w', finalizeTimeout cfg (fence_state scope s j a l now) f stats w = (Ok stats', w') ∧
    ExpiredLeases stats' = ExpiredLeases stats ∧ TimedOutAttempts stats' = TimedOutAttempts stats ∧
    decision_of_lapse cfg w ClassTimedOut dec j a ∧
    left_by (db w') f AttemptTimedOut lea (decision_status dec) ∧
    (decision_status dec = StatusRetryWait → j_available_at <$> jobs (db w') !! f_job_id f =
       Some (timestamptz (now + decision_ms dec * Millisecond))).
Proof.
  intros Hi Hn Hsup Hact Hacq Hstart Hrun Hjob lea.
  set (o := mkAttemptOutcome AttemptTimedOut ClassTimedOut CodeTimeout MessageTimeout None lea).
  assert (lea ≠ LeaseActive) as Hlea by (unfold lea; by destruct (_ <? _)%Z).
  destruct (outcome_run scope f s j a l now w Hi Hn Hsup Hact Hacq Hstart cfg ClassTimedOut o)
    as (dec & w1 & r & w2 & Hdec & Hfin & Hr & Hleft & Hret & Hz & Hpol & Hav); try done.
  { left. done. }
  { vm_compute. repeat split; lia. }
  exists dec. eexists _, w2. split.
  - unfold finalizeTimeout. etrans; [eapply bind_run, Hdec|]. etrans; [by eapply bind_run|].
    simpl. rewrite Hact. simpl.
    replace (if negb _ then LeaseExpired else LeaseReleased) with lea
      by (unfold lea; by destruct (_ <? _)%Z).
    etrans; [eapply bind_run, Hfin|]. reflexivity.
  - split_and!; try done; by destruct (bool_decide _).
Qed.

(** The world in which a transaction has taken its locks. *)
Definition locked_world (w : World) : World := (begin_tx w) <| reads := S (S (reads w)) |>.

Lemma locked_supplies w : supplies w → supplies (locked_world w).
Proof. intros Hs. eapply supplies_later; [exact Hs|by split]. Qed.

Lemma reconciliation_commits {A} scope f s j a l (k : option fenceState → Tx (bool * A)) b w w' :
  Inv (db w) → names_rows (db w) scope f s j a l →
  k (Some (fence_state scope s j a l (first_reading w))) (locked_world w) = (Ok (true, b), w') →
  transaction (lockFenceForReconciliation scope f ≫= k) w = (Ok b, w').
Proof.
  intros Hi Hn Hk. apply transaction_commits. etrans; [|exact Hk].
  by apply bind_run, lockForReconciliation_run.
Qed.

Section expired.
Context (cfg : StoreConfig) (scope : string) (f : Fence) (s : WorkerSession) (j : Job).
Context (a : Attempt) (l : Lease) (stats : ReconcileStats) (w : World).
Hypothesis Hi : Inv (db w).
Hypothesis Hn : names_rows (db w) scope f s j a l.
Hypothesis Hsup : supplies w.
Hypothesis Hact : l_status l = LeaseActive.
Hypothesis Hexp : (l_expires_at l ≤ first_reading w)%Z.
Hypothesis Hstart : ∀ t, a_started_at a = Some t → (t ≤ first_reading w)%Z.

Lemma expired_acquired : (l_acquired_at l ≤ first_reading w)%Z.
Proof.
  destruct (names_rows_ok _ _ _ _ _ _ _ Hi Hn) as (_ & _ & _ & Hlc). unfold lease_check in Hlc.
  bools. lia.
Qed.

(** The guards of the sweep on a lapsed lease. *)
Lemma expired_guards :
  (first_reading w <? l_expires_at l)%Z = false ∧ isExecutingAttemptStatus (a_status a) = true ∧
  (j_status j = StatusCancelRequested ∨
   j_status j ≠ StatusCancelRequested ∧ isExecutingJobStatus (j_status j) = true).
Proof.
  pose proof (attempt_executing _ _ _ _ _ _ _ Hi Hn Hact) as Hex.
  destruct (names_rows_live _ _ _ _ _ _ _ Hi Hn Hact) as [Hlive _].
  split_and!; [by apply Z.ltb_ge|done|]. destruct (j_status j); auto.
Qed.

Definition recovered : Prop :=
  ∃ stats' w', reconcileExpiredLease_tx cfg scope f stats w = (Ok stats', w') ∧
    ExpiredLeases stats' = S (ExpiredLeases stats) ∧
    left_by (db w') f (lapse_outcome j a l) LeaseExpired (lapse_destination cfg w j a l) ∧
    (lapse_destination cfg w j a l = StatusRetryWait → j_available_at <$> jobs (db w') !! f_job_id f =
       Some (timestamptz (first_reading w + policy_delay cfg w (a_number a)))).

Lemma expired_canceled : j_status j = StatusCancelRequested → recovered.
Proof.
  intros Hcan. destruct expired_guards as (Hlt & Hex & _).
  destruct (cancellation_run scope f s j a l (first_reading w) (locked_world w))
    as (r & w2 & Hrun & Hleft); try done; [apply expired_acquired|].
  eexists _, w2. split.
  { eapply reconciliation_commits; [done|done|]. simpl. rewrite Hact, Hlt, Hex, Hcan. simpl.
    etrans; [eapply bind_run, Hrun|]. reflexivity. }
  unfold lapse_destination, lapse_outcome. by rewrite bool_decide_eq_true_2.
Qed.

Lemma expired_timeout :
  j_status j ≠ StatusCancelRequested → isExecutingJobStatus (j_status j) = true →
  deadline_by (a_timeout_at a) (l_expires_at l) = true → recovered.
Proof.
  intros Hcan%(bool_decide_eq_false_2 _) Hjob Hdl. destruct expired_guards as (Hlt & Hex & _).
  pose proof (timedOutBeforeLapse_lapsed scope s j a l _ Hexp) as Htb. rewrite Hdl in Htb.
  destruct (finalizeTimeout_run cfg scope f s j a l (first_reading w) stats (locked_world w))
    as (dec & stats' & w2 & Hrun & He & _ & Hdec & Hleft & Hav);
    try done; [by apply locked_supplies|apply expired_acquired|by eapply deadline_running|].
  eexists _, w2. split.
  { eapply reconciliation_commits; [done|done|]. simpl.
    rewrite Hact, Hlt, Hex, Hcan, Hjob, Htb. simpl.
    etrans; [eapply bind_run, Hrun|]. reflexivity. }
  rewrite Hlt in Hleft. simpl. rewrite He. split; [done|].
  assert (lapse_outcome j a l = AttemptTimedOut) as Hout by (unfold lapse_outcome; by rewrite Hcan, Hdl).
  rewrite <-(lapse_destined cfg w ClassTimedOut dec j a l), Hout;
    [|by apply bool_decide_eq_false in Hcan|exact Hdec|by left].
  split; [exact Hleft|]. intros Hw. rewrite (Hav Hw). destruct Hdec as (_ & _ & Hpol).
  unfold policy_delay in Hpol |- *. rewrite Hpol; [done| |done].
  unfold decision_status in Hw. by destruct (Retry dec).
Qed.

Lemma expired_abandoned :
  j_status j ≠ StatusCancelRequested → isExecutingJobStatus (j_status j) = true →
  deadline_by (a_timeout_at a) (l_expires_at l) = false → recovered.
Proof.
  intros Hcan%(bool_decide_eq_false_2 _) Hjob Hdl. destruct expired_guards as (Hlt & Hex & _).
  pose proof (timedOutBeforeLapse_lapsed scope s j a l _ Hexp) as Htb. rewrite Hdl in Htb.
  destruct (outcome_run scope f s j a l (first_reading w) (locked_world w)) with
    (cfg := cfg) (class := ClassAbandoned)
    (o := mkAttemptOutcome AttemptAbandoned ClassAbandoned CodeAbandoned MessageAbandoned
      None LeaseExpired)
    as (dec & w1 & r & w2 & Hdec & Hfin & Hr & Hleft & Hret & Hz & Hpol & Hav); try done.
  { by apply locked_supplies. } { apply expired_acquired. } { by right. }
  { vm_compute. repeat split; lia. }
  eexists _, w2. split.
  { eapply reconciliation_commits; [done|done|]. simpl.
    rewrite Hact, Hlt, Hex, Hcan, Hjob, Htb. simpl.
    etrans; [eapply bind_run, Hdec|]. etrans; [by eapply bind_run|].
    etrans; [eapply bind_run, Hfin|]. reflexivity. }
  split; [by destruct (bool_decide (or_job_status r = _))|].
  assert (lapse_outcome j a l = AttemptAbandoned) as Hout by (unfold lapse_outcome; by rewrite Hcan, Hdl).
  rewrite <-(lapse_destined cfg w ClassAbandoned dec j a l), Hout;
    [|by apply bool_decide_eq_false in Hcan|by split|by right].
  split; [exact Hleft|]. intros Hw. unfold decision_status in Hw.
  rewrite Hz in Hw by done. by destruct (Retry dec).
Qed.

Lemma expired_tx_run : recovered.
Proof.
  destruct expired_guards as (_ & _ & [Hcan|[Hcan Hjob]]); [by apply expired_canceled|].
  destruct (deadline_by (a_timeout_at a) (l_expires_at l)) eqn:Hdl;
    [by apply expired_timeout|by apply expired_abandoned].
Qed.
End expired.

(** The fence the sweep builds from a lease row. *)
Definition lease_fence (lid : uuid) (l : Lease) : Fence :=
  mkFence (l_job_id l) (l_attempt_id l) lid (l_worker_id l) (l_session_id l).

Lemma lease_names_rows d lid l j a :
  Inv d → leases d !! lid = Some l → jobs d !! l_job_id l = Some j →
  job_attempts d !! l_attempt_id l = Some a →
  ∃ s, names_rows d (l_scope l) (lease_fence lid l) s j a l.
Proof.
  intros Hi Hl Hj Ha. destruct (li_lease _ _ _ (inv_leases _ Hi) _ _ Hl) as (a0 & j0 & Ha0 & _ & Hb & _).
  rewrite Ha in Ha0. injection Ha0 as <-.
  destruct (ro_attempt _ _ _ _ _ (inv_rows _ Hi) _ _ Ha) as (_ & _ & (s & Hs & _)).
  destruct Hb as (_ & _ & _ & _ & Hbs & _). rewrite Hbs in Hs. by exists s.
Qed.



(** ** The due timeout *)

(** An attempt has one lease. *)
Lemma attempt_lease_found d lid l :
  Inv d → leases d !! lid = Some l →
  map_find (λ _ l', bool_decide (l_attempt_id l' = l_attempt_id l)) (leases d) = Some (lid, l).
Proof.
  intros Hi Hl. destruct (map_find _ _) as [[lid' l']|] eqn:Hf.
  - apply map_find_Some in Hf as [Hl' Heq]. bools.
    assert (lid = lid') as <-; [|congruence].
    eapply (li_unique _ _ _ (inv_leases _ Hi)); [exact Hl|exact Hl'|]. unfold lease_conflict.
    by rewrite (bool_decide_eq_true_2 _ Heq).
  - pose proof (map_find_None _ _ Hf _ _ Hl) as Hno. simpl in Hno. by bools.
Qed.

(** A deadline is enforced while the worker still holds its lease.  When the
    reconciler reaches a RUNNING attempt past its execution deadline whose lease is
    still live, it always completes: the attempt is TIMED_OUT, the lease RELEASED
    (so the worker loses its authority), and the job retried under the policy or
    dead-lettered when its attempts are used up. *)
Theorem reconcileDueTimeout_times_out cfg lid l j a t stats w :
  Inv (db w) → supplies w → leases (db w) !! lid = Some l → l_status l = LeaseActive →
  jobs (db w) !! l_job_id l = Some j → j_status j = StatusRunning →
  job_attempts (db w) !! l_attempt_id l = Some a →
  a_timeout_at a = Some t → (t ≤ first_reading w)%Z →
  (l_acquired_at l ≤ first_reading w < l_expires_at l)%Z →
  ∃ stats' w' js, reconcileDueTimeout cfg (l_attempt_id l) stats w = (Ok stats', w') ∧
    TimedOutAttempts stats' = S (TimedOutAttempts stats) ∧
    left_by (db w') (lease_fence lid l) AttemptTimedOut LeaseReleased js ∧
    js ∈ if (a_number a <? j_max_attempts j)%Z then [StatusRetryWait; StatusQueued]
         else [StatusDeadLettered].
Proof.
  intros Hi Hsup Hl Hact Hj Hjr Ha Hta Hle [Hacq Hlt].
  destruct (lease_names_rows _ _ _ _ _ Hi Hl Hj Ha) as [s Hn].
  assert (a_status a = AttemptRunning) as Har
    by (eapply (deadline_running _ _ _ _ _ _ _ t); [done..|]; rewrite Hta; simpl; apply Z.leb_refl).
  destruct (names_rows_bound _ _ _ _ _ _ _ Hi Hn) as ((B1 & B2 & _ & B4 & B5 & _) & _).
  destruct (finalizeTimeout_run cfg (l_scope l) (lease_fence lid l) s j a l (first_reading w) stats
    (locked_world w)) as (dec & stats' & w2 & Hrun & _ & Hto & [Hret _] & Hleft & _); try done.
  { by apply locked_supplies. }
  { intros t0 Ht0. destruct (names_rows_ok _ _ _ _ _ _ _ Hi Hn) as (_ & Hac & _).
    unfold attempt_check in Hac. rewrite Hta, Ht0 in Hac. bools. lia. }
  { by rewrite Hjr. }
  rewrite (proj2 (Z.ltb_lt _ _) Hlt) in Hleft.
  eexists _, w2, (decision_status dec). split; [|split; [|split; [exact Hleft|]]].
  - unfold reconcileDueTimeout. etrans; [by eapply bind_run|]. simpl. rewrite Ha.
    rewrite (attempt_lease_found _ _ _ Hi Hl), B1, B2, B4, B5. fold (lease_fence lid l).
    eapply reconciliation_commits; [done|done|]. simpl.
    rewrite leaseUsable_run, Hjr, Har by done. unfold timedOut. simpl. rewrite Hta.
    rewrite (proj2 (Z.ltb_ge _ _) Hle). simpl. etrans; [eapply bind_run, Hrun|]. reflexivity.
  - simpl. by rewrite Hto.
  - unfold decision_status. rewrite Hret. destruct (_ <? _)%Z; [|set_solver].
    destruct (0 <? _)%Z; set_solver.
Qed.

Lemma reconcileDueTimeout_times_out_witness :
  let w := sc_world (at_end sc_renewed) (sec 1095) 800 in
  ∃ stats' w' js, reconcileDueTimeout sc_cfg 300 ReconcileStats_zero w = (Ok stats', w') ∧
    left_by (db w') sc_fence AttemptTimedOut LeaseReleased js ∧ js ∈ [StatusRetryWait; StatusQueued].
Proof.
  intros w.
  destruct (reconcileDueTimeout_times_out sc_cfg 301
    (mkLease 100 300 "t1" "default" 200 7 77 LeaseActive (sec 1022) (sec 1101) (sec 1071) None 2
       (Some 92%N))
    (mkJob "t1" "default" "echo" "{}" StatusRunning 50 2 60 [] None (sec 1001) None None 1
       (Some (sec 1001)) (sec 1000) (sec 1031))
    (mkAttempt 100 "t1" "default" 1 200 7 AttemptRunning (Some (sec 1031)) None (sec 1020)
       (Some (sec 1091)) None None None None None None)
    (sec 1091) ReconcileStats_zero w (at_end_Inv sc_renewed))
    as (stats' & w' & js & Hrun & _ & Hleft & Hjs).
  - split; [vm_compute; reflexivity..|]. intros q u. eexists. split; reflexivity.
  - vm_compute. reflexivity.
  - reflexivity.
  - vm_compute. reflexivity.
  - reflexivity.
  - vm_compute. reflexivity.
  - reflexivity.
  - vm_compute. discriminate.
  - vm_compute. split; [discriminate|reflexivity].
  - exists stats', w', js. split; [exact Hrun|split; [exact Hleft|exact Hjs]].
Defined.
