(* ===== verification/Claims.v ===== *)
(** * Package workers: claims

    Which job a claim assigns, under which limits, and what a worker may conclude
    when it acknowledges a notification. *)

From S2P Require Import Prelude.
From S2P Require Import GoText.
From S2P Require Import GoFloat.
From S2P Require Import Schema.
From S2P Require Import Lifecycle.
From S2P Require Import Outbox.
From S2P Require Import JobsStore.
From S2P Require Import WorkersTypes.
From S2P Require Import WorkersStore.
From S2P Require Import WorkersOutcome.
From S2P Require Import Invariant.
From S2P Require Import Transitions.
From S2P Require Import Refinement.
From S2P Require Import System.
From S2P Require Import Scenario.
From S2P Require Import Running.

(** ** The claim order *)

Lemma then_by_trans c12 c23 c13 (r12 r23 r13 : bool) :
  (c12 = Lt → c23 = Lt → c13 = Lt) → (c12 = Eq → c23 = Eq → c13 = Eq) →
  (c12 = Eq → c23 = Lt → c13 = Lt) → (c12 = Lt → c23 = Eq → c13 = Lt) →
  (r12 = true → r23 = true → r13 = true) →
  then_by c12 r12 = true → then_by c23 r23 = true → then_by c13 r13 = true.
Proof.
  destruct c12, c23; simpl; intros H1 H2 H3 H4 Hr; try discriminate; intros;
    rewrite ?H1, ?H2, ?H3, ?H4 by done; simpl; auto.
Qed.

(** A comparison of integers followed by a transitive rest is transitive. *)
Lemma then_by_Z_trans (x y z : Z) (r12 r23 r13 : bool) :
  (r12 = true → r23 = true → r13 = true) →
  then_by (Z.compare x y) r12 = true → then_by (Z.compare y z) r23 = true →
  then_by (Z.compare x z) r13 = true.
Proof.
  apply then_by_trans; rewrite ?Z.compare_lt_iff, ?Z.compare_eq_iff; lia.
Qed.

Lemma claim_order_trans : Transitive (ordby claim_order).
Proof.
  intros [i x] [k y] [m z]. unfold ordby, claim_order. simpl.
  apply then_by_trans; rewrite ?Z.compare_lt_iff, ?Z.compare_eq_iff; try lia.
  do 2 apply then_by_Z_trans. rewrite !N.leb_le. lia.
Qed.

(** ** What a claim answers *)

(** A job a session may be given at [now]. *)
Record eligible (d : DB) (scope queue : string) (s : WorkerSession) (now : time) (id : uuid)
    (j : Job) : Prop := {
  el_place : j_scope j = scope ∧ j_queue j = queue;
  el_queued : j_status j = StatusQueued;
  el_due : (j_available_at j ≤ now)%Z;
  el_capable : ∀ c, c ∈ j_required_capabilities j → c ∈ s_capabilities s;
  el_type : j_type j ∈ s_supported_job_types s;
  el_budget : (Z.of_nat (map_count (λ _ a, bool_decide (a_job_id a = id)) (job_attempts d))
    < j_max_attempts j)%Z;
}.

(** Higher priority first, then earlier eligibility, then age, then identity. *)
Definition goes_first (id : uuid) (j : Job) (id' : uuid) (j' : Job) : Prop :=
  (j_priority j' < j_priority j)%Z ∨
  j_priority j' = j_priority j ∧
  ((j_available_at j < j_available_at j')%Z ∨
   j_available_at j = j_available_at j' ∧
   ((j_created_at j < j_created_at j')%Z ∨
    j_created_at j = j_created_at j' ∧ (id ≤ id')%N)).

Lemma claimable_eligible d scope queue s now id j :
  claimable d scope queue (s_capabilities s) (s_supported_job_types s) now id j = true ↔
  eligible d scope queue s now id j.
Proof.
  unfold claimable, attempt_count, attempts_of.
  rewrite !andb_true_iff, !bool_decide_eq_true, Z.leb_le, Z.ltb_lt, forallb_forall. split.
  - intros ((((((? & ?) & ?) & ?) & Hc) & ?) & ?). split; try done.
    intros c Hin%list_elem_of_In. by apply Hc, bool_decide_eq_true in Hin.
  - intros [[] ? ? Hc ? ?]. split_and!; try done. intros c Hin%list_elem_of_In.
    by apply bool_decide_eq_true, Hc.
Qed.

Lemma claim_order_goes_first id j id' j' :
  claim_order (id, j) (id', j') = true → goes_first id j id' j'.
Proof.
  unfold claim_order, goes_first, then_by. simpl.
  destruct (Z.compare_spec (j_priority j') (j_priority j)); [|by auto 10|done].
  destruct (Z.compare_spec (j_available_at j) (j_available_at j')); [|by auto 10|done].
  destruct (Z.compare_spec (j_created_at j) (j_created_at j')); [|by auto 10|done].
  intros Hle%N.leb_le. by auto 10.
Qed.

(** The readings of the clock in a claim: when it looks for a job, and after. *)
Definition second_reading (w : World) : time := timestamptz (clock w (S (S (reads w)))).

(** The queue and the HEALTHY session a claim names. *)
Definition claimant (d : DB) (scope : string) (req : ClaimRequest) (q : Queue) (s : WorkerSession) : Prop :=
  queues d !! cq_queue req = Some q ∧ worker_sessions d !! cq_session_id req = Some s ∧
  s_status s = SessionHealthy ∧ s_worker_id s = cq_worker_id req ∧ s_scope s = scope.

(** The assignment hands this job to the claimant. *)
Definition describes (asg : Assignment) (scope : string) (req : ClaimRequest) (j : Job) : Prop :=
  as_scope asg = scope ∧ as_queue asg = cq_queue req ∧ as_queue asg = j_queue j ∧
  as_job_type asg = j_type j ∧ as_payload asg = j_payload j ∧ as_priority asg = j_priority j ∧
  as_timeout_seconds asg = j_timeout_seconds j ∧
  as_required_capabilities asg = j_required_capabilities j ∧
  as_worker_id asg = cq_worker_id req ∧ as_session_id asg = cq_session_id req.

(** A claim that assigned a job. *)
Record assigned (cfg : StoreConfig) (scope : string) (req : ClaimRequest) (w : World) (d' : DB)
    (q : Queue) (s : WorkerSession) (asg : Assignment) (j : Job) : Prop := {
  as_row : jobs (db w) !! as_job_id asg = Some j;
  as_describes : describes asg scope req j;
  as_eligible : eligible (db w) scope (cq_queue req) s (first_reading w) (as_job_id asg) j;
  as_first : ∀ id' j', jobs (db w) !! id' = Some j' →
    eligible (db w) scope (cq_queue req) s (first_reading w) id' j' → goes_first (as_job_id asg) j id' j';
  as_group : s_worker_group s = q_worker_group q;
  as_queue_room : (Z.of_nat (map_count (active_for_queue (cq_queue req)) (leases (db w)))
    < q_max_concurrency q)%Z;
  as_worker_room : (Z.of_nat (map_count (active_for_worker (cq_worker_id req)) (leases (db w)))
    < s_concurrency_limit s)%Z;
  as_next : as_attempt_number asg = next_attempt_number (db w) (as_job_id asg);
  as_attempt : ∃ a, job_attempts d' !! as_attempt_id asg = Some a ∧ a_status a = AttemptLeased ∧
    a_job_id a = as_job_id asg ∧ a_number a = as_attempt_number asg ∧ a_scope a = scope ∧
    a_worker_id a = cq_worker_id req ∧ a_session_id a = cq_session_id req;
  as_lease : ∃ l, leases d' !! as_lease_id asg = Some l ∧ l_status l = LeaseActive ∧
    l_attempt_id l = as_attempt_id asg ∧ l_claim_request_id l = cq_claim_request_id req ∧
    l_acquired_at l = second_reading w ∧ l_expires_at l = as_lease_expires_at asg ∧
    as_lease_expires_at asg = timestamptz (second_reading w + cfg_lease_duration cfg)%Z ∧
    as_lease_remaining asg = cfg_lease_duration cfg;
  as_job : ∃ j', jobs d' !! as_job_id asg = Some j' ∧ j_status j' = StatusLeased;
}.

(** A claim that repeats what is stored of an earlier one. *)
Record repeated (scope : string) (req : ClaimRequest) (w : World) (asg : Assignment) (j : Job) (a : Attempt)
    (l : Lease) : Prop := {
  rp_lease : leases (db w) !! as_lease_id asg = Some l;
  rp_claim : l_claim_request_id l = cq_claim_request_id req;
  rp_attempt : job_attempts (db w) !! as_attempt_id asg = Some a ∧ l_attempt_id l = as_attempt_id asg ∧
    a_number a = as_attempt_number asg ∧ a_worker_id a = cq_worker_id req ∧ a_session_id a = cq_session_id req;
  rp_job : jobs (db w) !! as_job_id asg = Some j ∧ a_job_id a = as_job_id asg;
  rp_describes : describes asg scope req j;
  rp_expiry : as_lease_expires_at asg = l_expires_at l;
  rp_remaining : as_lease_remaining asg = Z.max 0 (l_expires_at l - first_reading w);
}.

Lemma issue_claim_ok cfg scope req jobID j w b r w' :
  issue_claim cfg scope req jobID j w = (Ok (b, r), w') → jobs (db w) !! jobID = Some j →
  j_queue j = cq_queue req →
  b = true ∧ ∃ asg, r = mkClaimResult Claimed (Some asg) false ∧ as_job_id asg = jobID ∧
    describes asg scope req j ∧
    as_attempt_number asg = next_attempt_number (db w) jobID ∧
    (∃ a, job_attempts (db w') !! as_attempt_id asg = Some a ∧ a_status a = AttemptLeased ∧
      a_job_id a = jobID ∧ a_number a = as_attempt_number asg ∧ a_scope a = scope ∧
      a_worker_id a = cq_worker_id req ∧ a_session_id a = cq_session_id req) ∧
    (∃ l, leases (db w') !! as_lease_id asg = Some l ∧ l_status l = LeaseActive ∧
      l_attempt_id l = as_attempt_id asg ∧ l_claim_request_id l = cq_claim_request_id req ∧
      l_acquired_at l = timestamptz (clock w (reads w)) ∧ l_expires_at l = as_lease_expires_at asg ∧
      as_lease_expires_at asg = timestamptz (timestamptz (clock w (reads w)) + cfg_lease_duration cfg)%Z ∧
      as_lease_remaining asg = cfg_lease_duration cfg) ∧
    (∃ j', jobs (db w') !! jobID = Some j' ∧ j_status j' = StatusLeased).
Proof.
  unfold issue_claim. intros H Hj Hq.
  apply bind_ok in H as (aid & w1 & [= <- <-] & H). apply bind_ok in H as (lid & w2 & [= <- <-] & H).
  apply bind_ok in H as (d & w3 & [= <- <-] & H). apply bind_ok in H as (t & w4 & [= <- <-] & H).
  apply bind_ok in H as ([] & w5 & Hins & H).
  assert (clock w5 = clock w ∧ reads w5 = reads w) as [Hck Hrd].
  { apply sql_insert_ok in Hins as (_ & _ & ->). done. }
  apply bind_ok in H as (acq & w6 & [= <- <-] & H). rewrite Hck, Hrd in H.
  db_inv. simpl in *. split; [done|]. eexists; split; [reflexivity|]; simpl. do 3 (split; [done|]).
  rewrite !lookup_insert_eq. split; [|split]; eexists; (split; [reflexivity|]); done.
Qed.

(** What a claim decides, by what it answers. *)
Definition claim_verdict (cfg : StoreConfig) (scope : string) (req : ClaimRequest) (w w' : World)
    (r : ClaimResult) : Prop :=
  ∃ q s, claimant (db w) scope req q s ∧
  let none_eligible := ∀ id j, jobs (db w) !! id = Some j →
    ¬ eligible (db w) scope (cq_queue req) s (first_reading w) id j in
  match cl_disposition r with
  | Claimed =>
    ∃ asg j, cl_assignment r = Some asg ∧
      (cl_replayed r = true ∧ db w' = db w ∧ (∃ a l, repeated scope req w asg j a l) ∨
       cl_replayed r = false ∧ assigned cfg scope req w (db w') q s asg j)
  | QueueEmpty => cl_assignment r = None ∧ db w' = db w ∧ none_eligible ∧
      ∀ id j, jobs (db w) !! id = Some j → due_in_queue scope (cq_queue req) (second_reading w) id j = false
  | DuplicateNotification => cl_assignment r = None ∧ db w' = db w ∧
      ∃ lid l a, leases (db w) !! lid = Some l ∧ l_claim_request_id l = cq_claim_request_id req ∧
        job_attempts (db w) !! l_attempt_id l = Some a ∧
        (a_worker_id a, a_session_id a) ≠ (cq_worker_id req, cq_session_id req)
  | NoEligibleJob => cl_assignment r = None ∧ db w' = db w ∧
      (s_worker_group s ≠ q_worker_group q ∨
       none_eligible ∧ ∃ id j, jobs (db w) !! id = Some j ∧
         due_in_queue scope (cq_queue req) (second_reading w) id j = true)
  | CapacityExhausted => cl_assignment r = None ∧ db w' = db w ∧ s_worker_group s = q_worker_group q ∧
      (q_max_concurrency q ≤ Z.of_nat (map_count (active_for_queue (cq_queue req)) (leases (db w))) ∨
       s_concurrency_limit s ≤ Z.of_nat (map_count (active_for_worker (cq_worker_id req)) (leases (db w))))%Z
  end.

Lemma none_selected d scope queue s now :
  map_select (claimable d scope queue (s_capabilities s) (s_supported_job_types s) now) claim_order (jobs d) = [] →
  ∀ id j, jobs d !! id = Some j → ¬ eligible d scope queue s now id j.
Proof.
  intros Hno id j Hj He%claimable_eligible.
  assert ((id, j) ∈ map_select (claimable d scope queue (s_capabilities s) (s_supported_job_types s) now)
    claim_order (jobs d)) as Hin by (by apply map_select_elem).
  rewrite Hno in Hin. by apply not_elem_of_nil in Hin.
Qed.

Lemma claim_new_ok cfg scope req q s w b r w' :
  claim_new cfg scope req q s (begin_tx w) = (Ok (b, r), w') → claimant (db w) scope req q s →
  b = true ∧ claim_verdict cfg scope req w w' r.
Proof.
  unfold claim_new, commitNoClaim, commit. intros H Hcl.
  destruct (bool_decide (s_worker_group s = _)) eqn:Hg; simpl in H; bools.
  2: { injection H as <- <- <-. split; [done|]. exists q, s. split; [done|]. split_and!; try done. by left. }
  apply bind_ok in H as (d & w1 & [= <- <-] & H). cbn [db begin_tx] in H.
  destruct (_ <=? _)%Z eqn:Hq in H; bools.
  { injection H as <- <- <-. split; [done|]. exists q, s. split; [done|]. split_and!; try done. by left. }
  destruct (_ <=? _)%Z eqn:Hw in H; bools.
  { injection H as <- <- <-. split; [done|]. exists q, s. split; [done|]. split_and!; try done. by right. }
  apply bind_ok in H as (now & w2 & [= <- <-] & H). cbn [clock reads begin_tx] in H.
  change (timestamptz (clock w (S (reads w)))) with (first_reading w) in H.
  change (db (begin_tx w)) with (db w) in *.
  destruct (map_select _ _ _) as [|[id j] rest] eqn:Hsel.
  - pose proof (none_selected _ _ _ _ _ Hsel) as Hno.
    apply bind_ok in H as (now' & w3 & [= <- <-] & H).
    cbn [clock reads begin_tx] in H. fold (second_reading w) in H.
    destruct (map_any _ _) eqn:Hany; injection H as <- <- <-; (split; [done|]); exists q, s; (split; [done|]).
    + split_and!; [done..|]. right. split; [done|]. by apply map_any_true in Hany.
    + split_and!; [done..|]. by apply map_any_false.
  - assert ((id, j) ∈ map_select (claimable (db w) scope (cq_queue req) (s_capabilities s)
      (s_supported_job_types s) (first_reading w)) claim_order (jobs (db w))) as Hin
      by (rewrite Hsel; constructor).
    pose proof (λ k v, map_select_head _ _ _ (id, j) _ k v claim_order_trans claim_order_total Hsel) as Hfirst.
    apply map_select_elem in Hin as [Hj Hc%claimable_eligible].
    apply issue_claim_ok in H as (-> & asg & -> & <- & Hdes & Hnext & Ha & Hl & Hjob); [|done|apply Hc].
    split; [done|]. exists q, s. split; [done|]. exists asg, j. split; [done|right]. split; [done|].
    split; try done; [lia..|]. intros id' j' Hj' He.
    apply claim_order_goes_first, Hfirst; [done|by apply claimable_eligible].
Qed.

Lemma lookup_claim_rows d claim asg :
  lookup_claim d claim = Some asg →
  ∃ l a j, leases d !! as_lease_id asg = Some l ∧ l_claim_request_id l = claim ∧
    job_attempts d !! l_attempt_id l = Some a ∧ jobs d !! a_job_id a = Some j ∧
    asg = mkAssignment (a_scope a) (a_job_id a) (j_queue j) (j_type j) (j_payload j)
      (j_priority j) (j_timeout_seconds j) (j_required_capabilities j)
      (l_attempt_id l) (a_number a) (as_lease_id asg) (l_expires_at l) 0 (a_worker_id a) (a_session_id a).
Proof.
  unfold lookup_claim. intros H.
  apply bind_Some in H as ([lid l] & Hf & H). apply map_find_Some in Hf as [Hl Hc]. bools.
  apply bind_Some in H as (a & Ha & H). apply bind_Some in H as (j & Hj & H).
  injection H as <-. by exists l, a, j.
Qed.

Lemma remainingUntil_max t now : remainingUntil t now = Z.max 0 (t - now).
Proof. unfold remainingUntil. destruct (_ <? 0)%Z eqn:H; bools; lia. Qed.

Lemma claim_known_ok cfg scope req q s existing w :
  claimant (db w) scope req q s → lookup_claim (db w) (cq_claim_request_id req) = Some existing →
  as_scope existing = scope → as_queue existing = cq_queue req →
  if bool_decide (as_worker_id existing = cq_worker_id req ∧ as_session_id existing = cq_session_id req)
  then ∀ asg w', setLeaseRemaining existing (begin_tx w) = (Ok asg, w') →
    claim_verdict cfg scope req w w' (mkClaimResult Claimed (Some asg) true)
  else claim_verdict cfg scope req w (begin_tx w) (mkClaimResult DuplicateNotification None false).
Proof.
  intros Hcl (l & a & j & Hl & Hc & Ha & Hj & Heq)%lookup_claim_rows Hsc Hq.
  case_bool_decide as Hown.
  - intros asg w' [= <- <-]. exists q, s. split; [done|]. eexists _, j. split; [done|left]. split; [done|].
    split; [done|]. exists a, l. rewrite Heq in Hown, Hsc, Hq |- *. simpl in *. destruct Hown as [Hw Hs].
    split; simpl; try done. rewrite remainingUntil_max. done.
  - exists q, s. split; [done|]. split_and!; [done..|]. exists (as_lease_id existing), l, a. split_and!; try done.
    intros [= Hw Hs]. apply Hown. by rewrite Heq.
Qed.

Lemma claim_tx_ok cfg scope req w r w' :
  claim_tx cfg scope req w = (Ok r, w') → claim_verdict cfg scope req w w' r.
Proof.
  intros (b & w2 & H & ->)%transaction_ok.
  apply bind_ok in H as (d & w1 & [= <- <-] & H). change (db (begin_tx w)) with (db w) in H.
  destruct (queues (db w) !! _) as [q|] eqn:Hq; [|done].
  destruct (worker_sessions (db w) !! _) as [s|] eqn:Hs; [|done].
  destruct (bool_decide _) eqn:Hh in H; [|done]. apply bool_decide_eq_true_1 in Hh as (Hw & Hsc & Hh).
  assert (claimant (db w) scope req q s) as Hcl by done.
  apply bind_ok in H as (ex & w1 & [= <- <-] & H). change (db (begin_tx w)) with (db w) in H.
  destruct (lookup_claim _ _) as [ex|] eqn:Hl.
  - destruct (bool_decide _) eqn:Hp in H; [|done]. apply bool_decide_eq_true_1 in Hp as [Hp1 Hp2].
    pose proof (claim_known_ok cfg scope req q s ex w Hcl Hl Hp1 Hp2) as Hk.
    destruct (bool_decide _) eqn:Ho in H; simpl in H, Hk; rewrite Ho in Hk.
    + apply bind_ok in H as (asg & w1 & Hset & [= <- <- <-]). by apply Hk.
    + injection H as <- <- <-. exact Hk.
  - by apply claim_new_ok in H as (-> & Hv).
Qed.

Lemma Claim_ok cfg scope req w r w' :
  Claim cfg scope req w = (Ok r, w') → claim_verdict cfg scope req w w' r.
Proof.
  unfold Claim, lookupClaim. intros H. apply bind_ok in H as ([] & w0 & Hv & H).
  apply validated_ok in Hv as [_ ->]. destruct (_ <=? 0)%Z; [by apply throw_ok in H|].
  apply bind_ok in H as (p & w1 & [= <- <-] & H). destruct (lookup_claim _ _) as [ex|]; simpl in H.
  - destruct (bool_decide _); [by apply claim_tx_ok|done].
  - by apply claim_tx_ok.
Qed.

(** C14: what a claim answers, on every branch, for the HEALTHY session of the worker and
    scope that asks.  A new assignment is a job that is QUEUED and due at the reading of
    the database's clock at which the claim looks, of the session's scope and queue,
    whose required capabilities and type the session declares and whose attempt budget is
    not used up; no other such job comes before it by priority, then eligibility, then
    age; the queue and the worker were below their concurrency limits; the attempt, an
    ACTIVE lease of exactly the configured duration from the next reading and the LEASED
    job are stored.  A replay is of a claim by the same worker and session and repeats
    what is stored of it: its job, attempt and lease, with what remains of the lease.  A
    duplicate was claimed by another session; capacity is exhausted only at a limit;
    with no eligible job either the worker group differs or none was claimable but some
    was due; an empty queue has no due job.  None of these writes anything. *)
Theorem Claim_assigns_first cfg scope req w r w' :
  Claim cfg scope req w = (Ok r, w') → claim_verdict cfg scope req w w' r.
Proof. apply Claim_ok. Qed.

Lemma Claim_assigns_first_witness :
  let w := sc_world (at_end sc_submitted) (sec 1020) 300 in
  ∃ r, (Claim sc_cfg "t1" (sc_claim 77) w).1 = Ok r ∧ cl_disposition r = Claimed ∧
    claim_verdict sc_cfg "t1" (sc_claim 77) w (Claim sc_cfg "t1" (sc_claim 77) w).2 r.
Proof.
  intros w. set (asg := mkAssignment "t1" 100 "default" "echo" "{}" 50 60 [] 300 1 301 (sec 1052)
    (sec 30) 200 7).
  assert ((Claim sc_cfg "t1" (sc_claim 77) w).1 = Ok (mkClaimResult Claimed (Some asg) false))
    as Hrun by (vm_compute; reflexivity).
  eexists. split; [exact Hrun|]. split; [reflexivity|].
  exact (Claim_assigns_first sc_cfg "t1" (sc_claim 77) w _ _ (run_answer _ _ _ Hrun)).
Defined.

(** An acknowledged notification is never lost work.  When the answer of a claim
    lets the worker acknowledge its notification, either a lease made by this very
    claim request is stored, or at a clock reading during the claim no job of the
    scope and queue was QUEUED and due. *)
Theorem acknowledgement_is_safe cfg scope req w r w' :
  Claim cfg scope req w = (Ok r, w') → SafeToAcknowledge r = true →
  (∃ lid l, leases (db w') !! lid = Some l ∧ l_claim_request_id l = cq_claim_request_id req) ∨
  (∃ now, ∀ id j, jobs (db w') !! id = Some j → due_in_queue scope (cq_queue req) now id j = false).
Proof.
  intros (q & s & _ & H)%Claim_ok Hs. unfold SafeToAcknowledge in Hs.
  destruct (cl_disposition r); simpl in Hs.
  - left. destruct H as (asg & j & _ & [(_ & -> & a & l & Hr)|(_ & Has)]).
    + exists (as_lease_id asg), l. split; apply Hr.
    + destruct (as_lease _ _ _ _ _ _ _ _ _ Has) as (l & Hl & _ & _ & Hc & _). eauto.
  - right. destruct H as (_ & -> & _ & Hno). eauto.
  - left. destruct H as (_ & -> & lid & l & a & Hl & Hc & _). eauto.
  - done.
  - done.
Qed.

Lemma acknowledgement_is_safe_witness :
  let w := sc_world (at_end sc_succeeded) (sec 1060) 600 in
  (Claim sc_cfg "t1" (sc_claim 79) w).1 = Ok (mkClaimResult QueueEmpty None false) ∧
  let d := db (Claim sc_cfg "t1" (sc_claim 79) w).2 in
  (∃ lid l, leases d !! lid = Some l ∧ l_claim_request_id l = 79%N) ∨
  (∃ now, ∀ id j, jobs d !! id = Some j → due_in_queue "t1" "default" now id j = false).
Proof.
  intros w.
  assert ((Claim sc_cfg "t1" (sc_claim 79) w).1 = Ok (mkClaimResult QueueEmpty None false))
    as Hrun by (vm_compute; reflexivity).
  split; [exact Hrun|].
  exact (acknowledgement_is_safe sc_cfg "t1" (sc_claim 79) w _ _ (run_answer _ _ _ Hrun) eq_refl).
Defined.
