(* ===== verification/OutboxTheorems.v ===== *)
(** * Package outbox: claims of the publisher

    What [ClaimDue] hands out and hides, and that two publishers never hold the
    same event while its claim lasts. *)

From S2P Require Import Prelude.
From S2P Require Import GoText.
From S2P Require Import Schema.
From S2P Require Import Lifecycle.
From S2P Require Import Outbox.
From S2P Require Import WorkersStore.
From S2P Require Import Invariant.
From S2P Require Import Transitions.
From S2P Require Import Refinement.
From S2P Require Import System.
From S2P Require Import Scenario.
From S2P Require Import Running.

(** The rows a claim at [now] takes: due, in order, at most [limit]. *)
Definition due_events (limit : nat) (now : time) (d : DB) : list (uuid * OutboxEvent) :=
  take limit (map_select (due_event now) event_order (outbox_events d)).

Lemma due_events_elem limit now d k e :
  (k, e) ∈ due_events limit now d → outbox_events d !! k = Some e ∧ due_event now k e = true.
Proof. intros H%elem_of_take. destruct H as (i & Hi & _). by eapply map_select_elem, list_elem_of_lookup_2. Qed.

Lemma due_events_NoDup limit now d : NoDup (due_events limit now d).*1.
Proof.
  unfold due_events. rewrite fmap_take. eapply sublist_NoDup; [|apply sublist_take].
  apply map_select_NoDup.
Qed.

(** The loop of [ClaimDue] over rows that are each there once. *)
Lemma claim_rows_ok now timeout due acc w evs w' :
  for_each (λ acc kv,
      r ← sql_update kv.1 (λ _, true) (claim_event now timeout);
      mret (match r with Some e => acc ++ [scan_event kv.1 e] | None => acc end)) acc due w
    = (Ok evs, w') →
  NoDup due.*1 → (∀ k e, (k, e) ∈ due → outbox_events (db w) !! k = Some e) →
  evs = acc ++ map (λ kv, scan_event kv.1 (claim_event now timeout kv.2)) due ∧
  (∀ k e, (k, e) ∈ due → outbox_events (db w') !! k = Some (claim_event now timeout e)) ∧
  (∀ k, k ∉ due.*1 → outbox_events (db w') !! k = outbox_events (db w) !! k).
Proof.
  revert acc w. induction due as [|[k e] due IH]; simpl; intros acc w H Hnd Hin.
  { apply ret_ok in H as [-> ->]. rewrite app_nil_r. set_solver. }
  apply bind_ok in H as (acc' & w1 & H1 & H). apply bind_ok in H1 as (r & w0 & Hu & Hr).
  apply ret_ok in Hr as [Hacc Hw]. subst w1.
  apply sql_update_ok in Hu as [(_ & _ & Hno)|(x & Hx & _ & _ & -> & Hw0)].
  { specialize (Hno e (Hin k e ltac:(set_solver))). discriminate. }
  subst acc'. simpl in Hx. rewrite (Hin k e) in Hx by set_solver. injection Hx as <-.
  apply NoDup_cons in Hnd as [Hk Hnd]. pose proof (f_equal db Hw0) as Hd. simpl in Hd.
  apply IH in H as (-> & Hclaimed & Hrest); [|done|].
  2: { intros k' e' Hin'. rewrite Hd. simpl. rewrite lookup_insert_ne; [apply Hin; set_solver|].
       intros ->. apply Hk. by apply (list_elem_of_fmap_2 fst due (k', e')). }
  split_and!.
  - by rewrite <-app_assoc.
  - intros k' e' [[= -> ->]|Hin']%elem_of_cons; [|by apply Hclaimed].
    rewrite Hrest by done. by rewrite Hd; simpl; rewrite lookup_insert_eq.
  - intros k' [Hne Hk']%not_elem_of_cons. rewrite Hrest by done. rewrite Hd. simpl.
    by rewrite lookup_insert_ne.
Qed.

Lemma ClaimDue_ok limit timeout w evs w' :
  ClaimDue limit timeout w = (Ok evs, w') →
  let now := timestamptz (clock w (reads w)) in
  let due := due_events limit now (db w) in
  evs = map (λ kv, scan_event kv.1 (claim_event now timeout kv.2)) due ∧
  (∀ k e, (k, e) ∈ due → outbox_events (db w') !! k = Some (claim_event now timeout e)) ∧
  (∀ k, k ∉ due.*1 → outbox_events (db w') !! k = outbox_events (db w) !! k).
Proof.
  intros H now due. unfold ClaimDue in H. apply transaction_ok in H as (b & w1 & H & ->).
  erewrite bind_run in H by reflexivity. erewrite bind_run in H by reflexivity. cbv zeta in H.
  apply bind_ok in H as (evs' & w2 & Hloop & H). apply ret_ok in H as [[= Hb He] ->].
  subst b evs'. apply claim_rows_ok in Hloop; [exact Hloop|apply due_events_NoDup|].
  intros k e Hin. by eapply due_events_elem.
Qed.

(** What a publisher claims.  [ClaimDue] hands out only pending events that are
    available at the transaction's time, each once, with this attempt counted; it
    hands out at most [limit] of them, and all of them when there are fewer.  A
    second publisher whose transaction starts before the claim timeout has passed
    gets none of the events of the first. *)
Theorem ClaimDue_exclusive limit limit2 timeout timeout2 w evs w1 w2 evs2 w3 :
  ClaimDue limit timeout w = (Ok evs, w1) → db w2 = db w1 →
  ClaimDue limit2 timeout2 w2 = (Ok evs2, w3) →
  let now := timestamptz (clock w (reads w)) in
  let now2 := timestamptz (clock w2 (reads w2)) in
  (now2 < now + make_interval timeout)%Z →
  NoDup (map ev_id evs) ∧ (length evs ≤ limit)%nat ∧
  (∀ v, v ∈ evs → ∃ e, outbox_events (db w) !! ev_id v = Some e ∧ due_event now (ev_id v) e = true ∧
    ev_attempts v = (e_attempts e + 1)%Z) ∧
  ((length evs < limit)%nat → ∀ k e, outbox_events (db w) !! k = Some e →
    due_event now k e = true → k ∈ map ev_id evs) ∧
  (∀ v, v ∈ evs → ev_id v ∉ map ev_id evs2).
Proof.
  intros H1 Hdb H2 now now2 Hlt.
  apply ClaimDue_ok in H1 as (-> & Hcl & _). apply ClaimDue_ok in H2 as (-> & _ & _).
  fold now in Hcl. fold now. fold now2. set (due := due_events limit now (db w)) in *.
  assert (∀ v, v ∈ map (λ kv, scan_event kv.1 (claim_event now timeout kv.2)) due →
    ∃ k e, v = scan_event k (claim_event now timeout e) ∧ (k, e) ∈ due) as Hmap.
  { intros v Hv%list_elem_of_In. apply in_map_iff in Hv as ([k e] & <- & Hin). exists k, e.
    split; [done|by apply list_elem_of_In]. }
  split_and!.
  - rewrite map_map. simpl. apply (due_events_NoDup limit now (db w)).
  - rewrite length_map. unfold due, due_events. rewrite length_take. lia.
  - intros v (k & e & -> & Hin)%Hmap. apply due_events_elem in Hin as [Hk Hd]. by exists e.
  - rewrite length_map, map_map. unfold due, due_events. rewrite length_take. simpl.
    intros Hlen k e Hk Hd. rewrite take_ge by lia.
    apply (list_elem_of_fmap_2 fst _ (k, e)), map_select_elem. done.
  - intros v (k & e & -> & Hin)%Hmap. rewrite map_map. simpl.
    intros Hv%list_elem_of_In. apply in_map_iff in Hv as ([k2 e2] & Hk2 & Hin2).
    simpl in Hk2. subst k2.
    apply list_elem_of_In, due_events_elem in Hin2 as [Hk2 Hd2].
    rewrite Hdb, (Hcl _ _ Hin) in Hk2. injection Hk2 as <-.
    unfold due_event in Hd2. simpl in Hd2. bools. lia.
Qed.

Lemma ClaimDue_exclusive_witness :
  let w := sc_world (at_end sc_submitted) (sec 1015) 300 in
  let w2 := sc_world (db (ClaimDue 10 (sec 30) w).2) (sec 1020) 300 in
  let evs := [mkOutEvent 101 "work.available" 1
    (work_available_data "default" "100") None 1 (sec 1000)] in
  (ClaimDue 10 (sec 30) w).1 = Ok evs ∧ (ClaimDue 10 (sec 30) w2).1 = Ok [] ∧ NoDup (map ev_id evs).
Proof.
  intros w w2 evs.
  assert ((ClaimDue 10 (sec 30) w).1 = Ok evs) as H1 by (vm_compute; reflexivity).
  assert ((ClaimDue 10 (sec 30) w2).1 = Ok []) as H2 by (vm_compute; reflexivity).
  split; [exact H1|]. split; [exact H2|].
  exact (proj1 (ClaimDue_exclusive 10 10 (sec 30) (sec 30) w evs _ w2 [] _ (run_answer _ _ _ H1)
    (sc_world_db _ _ _) (run_answer _ _ _ H2) ltac:(vm_compute; reflexivity))).
Defined.
