(* ===== verification/PublisherTheorems.v ===== *)
(** * Package outbox: what the publisher guarantees

    A rely-guarantee argument: as long as everyone else marks an event published
    only after the broker has taken its message, so does this publisher, whatever
    happens between its steps.  And a drain ends. *)

From S2P Require Import Prelude.
From S2P Require Import GoText.
From S2P Require Import GoFloat.
From S2P Require Import Schema.
From S2P Require Import Lifecycle.
From S2P Require Import Outbox.
From S2P Require Import Publisher.
From S2P Require Import WorkersStore.
From S2P Require Import Invariant.
From S2P Require Import Transitions.
From S2P Require Import Refinement.
From S2P Require Import System.
From S2P Require Import Scenario.
From S2P Require Import History.
From S2P Require Import Running.
From S2P Require Import OutboxTheorems.

(** ** The contract between the publishers *)

(** Every published event's message is at the broker. *)
Definition delivered (text : uuid → string) (s : Shared) : Prop :=
  ∀ id e, outbox_events s.1 !! id = Some e → e_status e = EventPublished →
  ∃ body, Body text (scan_event id e) = Some body ∧ body ∈ s.2.

(** What a part of the system may do: run transactions of the program and add
    messages, so that every published event has been delivered. *)
Definition rely (text : uuid → string) (s s' : Shared) : Prop :=
  rtc sys_step s.1 s'.1 ∧ s.2 ⊆ s'.2 ∧ (delivered text s → delivered text s').

#[export] Instance rely_preorder text : PreOrder (rely text).
Proof.
  split; [by intros [d l]; repeat split|].
  intros x y z (H1 & H2 & H3) (H4 & H5 & H6). split_and!; [by etrans|by etrans|auto].
Qed.

(** The broker's answer: no error means that it has the message. *)
Definition honest (answer : nat → string → bool * option string) : Prop :=
  ∀ n body, (answer n body).2 = None → (answer n body).1 = true.

(** ** Rows that become published *)

(** No event becomes published. *)
Definition none_published (d d' : DB) : Prop :=
  ∀ id e, outbox_events d' !! id = Some e → e_status e = EventPublished →
  outbox_events d !! id = Some e.

Lemma delivered_unchanged text d d' l :
  none_published d d' → delivered text (d, l) → delivered text (d', l).
Proof. intros Hn Hd id e He Hp. apply (Hd id e); [by apply Hn|done]. Qed.

Lemma ClaimDue_none_published limit timeout w :
  none_published (db w) (db (ClaimDue limit timeout w).2).
Proof.
  destruct (ClaimDue limit timeout w) as [[evs|err] w'] eqn:H.
  - apply ClaimDue_ok in H as (_ & Hcl & Hrest). intros id e He Hp. simpl in *.
    set (due := due_events _ _ _) in *. destruct (decide (id ∈ due.*1)) as [Hin|Hout].
    + apply list_elem_of_fmap_1 in Hin as ([k e0] & -> & Hin). simpl in *.
      rewrite (Hcl _ _ Hin) in He. injection He as <-. simpl in Hp.
      apply due_events_elem in Hin as [_ Hd]. unfold due_event in Hd. bools. congruence.
    + by rewrite <-(Hrest id Hout).
  - simpl. rewrite (transaction_err _ _ _ _ H). by intros id e.
Qed.

(** The pending events, which [PendingCount] counts. *)
Definition pending (d : DB) : gset uuid :=
  list_to_set (map_where (λ _, event_pending) (outbox_events d)).*1.

Lemma elem_of_pending d id :
  id ∈ pending d ↔ ∃ e, outbox_events d !! id = Some e ∧ e_status e = EventPending.
Proof.
  unfold pending. rewrite elem_of_list_to_set, list_elem_of_fmap. split.
  - intros ([k e] & -> & [He Hp]%map_where_spec). exists e. unfold event_pending in Hp. by bools.
  - intros (e & He & Hs). exists (id, e). split; [done|]. apply map_where_spec. split; [done|].
    unfold event_pending. by rewrite Hs.
Qed.

Lemma pending_size d : size (pending d) = map_count (λ _, event_pending) (outbox_events d).
Proof.
  unfold pending. rewrite size_list_to_set; [by rewrite length_fmap|].
  eapply sublist_NoDup; [|apply filter_keys_sublist]. apply NoDup_fst_map_to_list.
Qed.

(** An update of one pending event. *)
Lemma update_pending {A} (id : uuid) (f : time → OutboxEvent → OutboxEvent) (answer : option OutboxEvent → A) w :
  let m := transaction (now ← now_tx; r ← sql_update id event_pending (f now); commit (answer r)) in
  (db (m w).2 = db w ∧ (∀ a, (m w).1 = Ok a → id ∉ pending (db w))) ∨
  ∃ e now r, outbox_events (db w) !! id = Some e ∧ e_status e = EventPending ∧
    m w = (Ok (answer (Some r)), (m w).2) ∧ r = f now e ∧
    outbox_events (db (m w).2) = <[id:=f now e]> (outbox_events (db w)).
Proof.
  intros m. destruct (m w) as [[a|err] w'] eqn:H; [|left; split; [by eapply transaction_err|done]].
  unfold m in H. apply transaction_ok in H as (b & w1 & H & ->).
  erewrite bind_run in H by reflexivity. apply bind_ok in H as (r & w2 & Hu & H).
  apply ret_ok in H as [[= <- <-] <-]. apply sql_update_ok in Hu.
  destruct Hu as [(_ & -> & Hno)|(e & He & Hp & _ & -> & ->)]; [left; split; [done|]|right].
  { intros _ _ (e & He & Hs)%elem_of_pending. specialize (Hno e He). unfold event_pending in Hno.
    by rewrite Hs in Hno. }
  unfold event_pending in Hp. bools. eexists e, _, _. split_and!; [done|done|done|done|done].
Qed.

Lemma RecordFailure_changes id cause after w :
  db (RecordFailure id cause after w).2 = db w ∨
  ∃ e e', outbox_events (db w) !! id = Some e ∧ e_status e = EventPending ∧
    e_status e' = EventPending ∧
    outbox_events (db (RecordFailure id cause after w).2) = <[id:=e']> (outbox_events (db w)).
Proof.
  destruct (update_pending id (λ now e, e <| e_last_error := Some (if (maxStoredError <? String.length cause)%nat
      then String.substring 0 maxStoredError cause else cause) |>
    <| e_available_at := (now + make_interval after)%Z |>) (λ _, tt) w)
    as [[Hd _]|(e & now & r & He & Hs & _ & -> & Hd)]; [by left|right].
  eexists e, _. split; [done|]. split; [done|]. split; [|exact Hd]. exact Hs.
Qed.

Lemma RecordFailure_none_published id cause after w :
  none_published (db w) (db (RecordFailure id cause after w).2).
Proof.
  destruct (RecordFailure_changes id cause after w) as [->|(e & e' & _ & _ & Hs' & Hes)]; [by intros i x|].
  intros i x Hx Hp. rewrite Hes in Hx. apply lookup_insert_Some in Hx as [[<- <-]|[_ Hx]]; [congruence|done].
Qed.

Lemma MarkPublished_changes id w :
  (db (MarkPublished id w).2 = db w ∧
    ∀ a, (MarkPublished id w).1 = Ok a → id ∉ pending (db w)) ∨
  ∃ e e', outbox_events (db w) !! id = Some e ∧ e_status e = EventPending ∧
    (MarkPublished id w).1 = Ok true ∧ event_def e' = event_def e ∧ e_status e' = EventPublished ∧
    outbox_events (db (MarkPublished id w).2) = <[id:=e']> (outbox_events (db w)).
Proof.
  destruct (update_pending id (λ now e, e <| e_status := EventPublished |>
      <| e_published_at := Some now |> <| e_last_error := None |>) is_Some_b w)
    as [Hd|(e & now & r & He & Hs & Ha & -> & Hd)]; [by left|right].
  exists e, (e <| e_status := EventPublished |> <| e_published_at := Some now |>
               <| e_last_error := None |>).
  split_and!; [done|done| |done|done|exact Hd].
  change (MarkPublished id w = (Ok true, (MarkPublished id w).2)) in Ha. by rewrite Ha.
Qed.

(** The envelope holds what an event never changes. *)
Lemma Body_def text id e e' :
  event_def e = event_def e' → Body text (scan_event id e) = Body text (scan_event id e').
Proof.
  unfold event_def. intros [= E1 E2 E3 _ _ E4 E5 E6].
  unfold Body, event_Envelope, scan_event. simpl. by rewrite E1, E2, E3, E4, E5, E6.
Qed.

(** [v] is the publisher's copy of a row. *)
Definition copy_of (text : uuid → string) (d : DB) (v : Event) : Prop :=
  ∃ e, outbox_events d !! ev_id v = Some e ∧ Body text v = Body text (scan_event (ev_id v) e).

Lemma copy_of_stable text d d' v :
  rtc sys_step d d' → Inv d → copy_of text d v → copy_of text d' v.
Proof.
  intros Hd Hi (e & He & Hb).
  destruct (pm_events _ _ (history_permanent _ _ Hd Hi) _ _ He) as (e' & He' & Hdef & _).
  exists e'. split; [done|]. rewrite Hb. by apply Body_def.
Qed.

Lemma MarkPublished_delivered text v body w l :
  delivered text (db w, l) → copy_of text (db w) v → Body text v = Some body → body ∈ l →
  delivered text (db (MarkPublished (ev_id v) w).2, l).
Proof.
  intros Hd (e0 & He0 & Hb0) Hb Hin.
  destruct (MarkPublished_changes (ev_id v) w) as [[-> _]|(e & e' & He & _ & _ & Hdef & _ & Hes)]; [done|].
  intros i x Hx Hp. simpl in Hx. rewrite Hes in Hx.
  apply lookup_insert_Some in Hx as [[<- <-]|[_ Hx]]; [|by apply (Hd i x)].
  exists body. split; [|done]. rewrite He0 in He. injection He as ->.
  rewrite <-Hb, Hb0. symmetry. by apply Body_def.
Qed.

(** ** The world around a transaction stays *)

Definition keeps_text {A} (m : Tx A) : Prop := ∀ w, uuid_String (m w).2 = uuid_String w.

Lemma keeps_text_bind {A B} (m : Tx A) (f : A → Tx B) :
  keeps_text m → (∀ a, keeps_text (f a)) → keeps_text (m ≫= f).
Proof.
  intros Hm Hf w. unfold mbind, M_bind. specialize (Hm w).
  destruct (m w) as [[a|e] w1]; simpl in *; [by rewrite Hf|done].
Qed.

Lemma keeps_text_update (id : uuid) p (f : OutboxEvent → OutboxEvent) :
  keeps_text (sql_update id p f).
Proof. intros w. unfold sql_update. repeat case_match; done. Qed.

Lemma keeps_text_for_each {A S} (f : S → A → Tx S) l s :
  (∀ s a, keeps_text (f s a)) → keeps_text (for_each f s l).
Proof.
  intros Hf. revert s. induction l as [|a l IH]; intros s; [done|].
  by apply keeps_text_bind; [|intros s'; apply IH].
Qed.

Lemma keeps_text_transaction {A} (m : Tx (bool * A)) : keeps_text m → keeps_text (transaction m).
Proof.
  intros Hm w. unfold transaction. specialize (Hm (begin_tx w)).
  destruct (m (begin_tx w)) as [[[[] a]|e] w1]; done.
Qed.

Lemma ClaimDue_text limit timeout : keeps_text (ClaimDue limit timeout).
Proof.
  apply keeps_text_transaction, keeps_text_bind; [done|intros now].
  apply keeps_text_bind; [done|intros d]. apply keeps_text_bind; [|done].
  apply keeps_text_for_each. intros s a. by apply keeps_text_bind; [apply keeps_text_update|].
Qed.

Lemma MarkPublished_text id : keeps_text (MarkPublished id).
Proof.
  apply keeps_text_transaction, keeps_text_bind; [done|intros now].
  by apply keeps_text_bind; [apply keeps_text_update|].
Qed.

Lemma RecordFailure_text id cause after : keeps_text (RecordFailure id cause after).
Proof.
  apply keeps_text_transaction, keeps_text_bind; [done|intros now].
  by apply keeps_text_bind; [apply keeps_text_update|].
Qed.

(** ** Steps of a publisher among others *)
Section guarantee.
Context (o : nat → Shared → Shared) (b : nat → string → bool * option string)
  (text : uuid → string).
Hypothesis others_rely : ∀ n s, Inv s.1 → rely text s (o n s).
Hypothesis broker_honest : honest b.

Record around (p : PWorld) : Prop := {
  ar_others : others p = o; ar_broker : broker p = b;
  ar_text : uuid_String (store p) = text; ar_inv : Inv (db (store p)) }.

(** [P] before, [Q] of the answer after; the guarantee in between. *)
Definition triple {A} (P : Shared → Prop) (m : Pub A) (Q : A → Shared → Prop) : Prop :=
  ∀ p, around p → P (shared p) →
  ∃ a p', m p = (Ok a, p') ∧ around p' ∧ rely text (shared p) (shared p') ∧ Q a (shared p').

(** Assertions that others leave true. *)
Definition stable (P : Shared → Prop) : Prop := ∀ s s', rely text s s' → Inv s.1 → P s → P s'.

Lemma triple_ret {A} (a : A) P : triple P (mret a) (λ _, P).
Proof. intros p Ha HP. exists a, p. split_and!; [done|done|reflexivity|done]. Qed.

Lemma triple_bind {A B} (m : Pub A) (f : A → Pub B) P Q R :
  triple P m Q → (∀ a, triple (Q a) (f a) R) → triple P (m ≫= f) R.
Proof.
  intros Hm Hf p Ha HP. destruct (Hm p Ha HP) as (a & p1 & E1 & Ha1 & Hr1 & HQ).
  destruct (Hf a p1 Ha1 HQ) as (x & p2 & E2 & Ha2 & Hr2 & HR).
  exists x, p2. split_and!; [|done|by etrans|done]. by rewrite (bind_run _ _ _ _ _ E1).
Qed.

Lemma triple_weaken {A} (m : Pub A) P P' Q Q' :
  triple P m Q → (∀ s, P' s → P s) → (∀ a s, Q a s → Q' a s) → triple P' m Q'.
Proof. intros Hm HP HQ p Ha H. destruct (Hm p Ha (HP _ H)) as (a & p' & ?). naive_solver. Qed.

(** A step that reads what does not matter here. *)
Lemma triple_read {A} (m : Pub A) P :
  (∀ p, ∃ a p', m p = (Ok a, p') ∧ shared p' = shared p ∧ others p' = others p ∧
    broker p' = broker p ∧ uuid_String (store p') = uuid_String (store p)) →
  triple P m (λ _, P).
Proof.
  intros Hm p [H1 H2 H3 H4] HP. destruct (Hm p) as (a & p' & E & Es & Eo & Eb & Et).
  assert (db (store p') = db (store p)) as Ed by (by injection Es).
  exists a, p'. rewrite Es. split_and!; [done|split; congruence|reflexivity|done].
Qed.

Lemma around_interact p :
  around p → around (interact p) ∧ rely text (shared p) (shared (interact p)) ∧
  shared (interact p) = o (ticks p) (shared p).
Proof.
  intros [H1 H2 H3 H4]. assert (shared (interact p) = o (ticks p) (shared p)) as Es.
  { unfold interact, shared. simpl. rewrite H1. unfold shared. by destruct (o _ _). }
  pose proof (others_rely (ticks p) (shared p) H4) as Hr. rewrite Es. split_and!; [|done|done].
  split; [done..|]. change (db (store (interact p))) with (shared (interact p)).1. rewrite Es.
  eapply steps_inv; [apply history_steps, Hr|done].
Qed.

(** A store call whose transaction keeps the guarantee and establishes [Q]. *)
Lemma triple_store {A} (m : Tx A) P Q :
  stable P → keeps_text m →
  (∀ w, sys_step (db w) (db (m w).2)) →
  (∀ w l, P (db w, l) → delivered text (db w, l) → delivered text (db (m w).2, l)) →
  (∀ w l a w', Inv (db w) → P (db w, l) → m w = (Ok a, w') → Q (Ok a) (db w', l)) →
  (∀ e s, Q (Err e) s) →
  triple P (store_call m) Q.
Proof.
  intros Hst Htext Hstep Hdel Hok Herr p Ha HP.
  destruct (around_interact p Ha) as ([H1 H2 H3 H4] & Hr & Es).
  assert (P (shared (interact p))) as HP' by (eapply Hst; [exact Hr|apply Ha|done]).
  assert (rely text (shared p) (db (m (store (interact p))).2, accepted (interact p))) as Hr'.
  { etrans; [exact Hr|]. split; [apply rtc_once, Hstep|]. split; [done|]. by apply Hdel. }
  assert (around ((interact p) <| store := (m (store (interact p))).2 |>)) as Ha'.
  { split; [done|done|by rewrite <-H3; apply Htext|]. eapply steps_inv; [apply history_steps, (proj1 Hr')|apply Ha]. }
  unfold store_call. destruct (faults p (ticks p)) as [[e|e]|].
  - eexists _, (interact p). split_and!; [done|done|done|apply Herr].
  - eexists _, _. split_and!; [done|done|done|apply Herr].
  - eexists _, _. split_and!; [done|done|done|].
    destruct (m (store (interact p))) as [[a|e] w'] eqn:Hm; [|apply Herr].
    eapply Hok; [exact H4|exact HP'|exact Hm].
Qed.

Definition anything {A} (_ : A) (_ : Shared) : Prop := True.

Lemma triple_done {A} (m : Pub A) P Q : triple P m Q → triple P m anything.
Proof. intros Hm. by eapply triple_weaken. Qed.

Lemma recordFailure_triple cfg e cause P : triple P (recordFailure cfg e cause) anything.
Proof.
  apply (triple_weaken _ (λ _, True) _ anything); [|done|done].
  eapply triple_bind; [apply triple_read; intros p; by eexists _, _|intros a].
  eapply triple_bind.
  { destruct (f64_lt _ _); [|apply triple_ret].
    eapply triple_bind; [apply triple_read; intros p; by eexists _, _|intros s; apply triple_ret]. }
  intros sample. cbv zeta. eapply triple_bind; [|intros r; eapply triple_done, triple_ret].
  apply (triple_store _ _ anything); [done|apply RecordFailure_text| |..|done|done].
  - intros w. by exists (CallRecordFailure (ev_id e) cause
      (BackoffPolicy.Delay a (Backoff cfg) (ev_attempts e) sample)), w.
  - intros w l _. apply delivered_unchanged, RecordFailure_none_published.
Qed.

Lemma copy_stable v : stable (λ s, copy_of text s.1 v).
Proof. intros s s' (H & _) Hi. by apply copy_of_stable. Qed.

Lemma copies_stable vs : stable (λ s, Forall (copy_of text s.1) vs).
Proof. intros s s' Hr Hi. apply List.Forall_impl. intros v. by eapply copy_stable. Qed.

(** The broker has the message of the publisher's copy. *)
Definition sent (v : Event) (body : string) (s : Shared) : Prop :=
  copy_of text s.1 v ∧ Body text v = Some body ∧ body ∈ s.2.

Lemma sent_stable v body : stable (sent v body).
Proof.
  intros s s' Hr Hi (Hc & Hb & Hin). split_and!; [by eapply copy_stable|done|].
  destruct Hr as (_ & Hsub & _). by apply Hsub.
Qed.

Lemma broker_triple v body :
  Body text v = Some body →
  triple (λ s, copy_of text s.1 v) (broker_Publish body)
    (λ err s, err = None → sent v body s).
Proof.
  intros Hb p Ha HP. destruct (around_interact p Ha) as (Hi & Hr & Es).
  assert (copy_of text (shared (interact p)).1 v) as HP' by (eapply copy_stable; [exact Hr|apply Ha|done]).
  unfold broker_Publish. pose proof (broker_honest (ticks p) body) as Hh. rewrite (ar_broker _ Ha).
  destruct (b (ticks p) body) as [[] err]; simpl in Hh.
  - eexists _, _. split_and!; [done|by destruct Hi| |].
    + etrans; [exact Hr|]. split_and!; [done|set_solver|]. intros Hd id e He Hp.
      destruct (Hd id e He Hp) as (bo & Hbo & Hin). exists bo. split; [done|]. set_solver.
    + intros _. split_and!; [done|done|]. simpl. left.
  - eexists _, _. split_and!; [done|done|done|]. intros ->. by discriminate Hh.
Qed.

Lemma body_triple v P : triple P (get_Body v) (λ r s, r = Body text v ∧ P s).
Proof.
  intros p Ha HP. eexists _, p. split_and!; [done|done|reflexivity| |done]. by rewrite (ar_text _ Ha).
Qed.

(** A fact that does not depend on the shared state. *)
Lemma triple_pure {A} (m : Pub A) (F : Prop) P Q :
  (F → triple P m Q) → triple (λ s, F ∧ P s) m Q.
Proof. intros Hm p Ha [HF HP]. by apply Hm. Qed.

Lemma failed_triple cfg v cause st P : triple P (failed cfg v cause st) anything.
Proof.
  eapply triple_bind; [apply recordFailure_triple|intros ?; eapply triple_done, triple_ret].
Qed.

Lemma publish_event_triple cfg st v :
  triple (λ s, copy_of text s.1 v) (publish_event cfg st v) anything.
Proof.
  eapply triple_bind; [apply body_triple|]. intros [body|]; apply triple_pure; intros Hb.
  2: { eapply triple_bind; [apply triple_read; intros p; by eexists _, _|intros ?; apply failed_triple]. }
  eapply triple_bind; [by apply broker_triple|]. intros [cause|]; [apply failed_triple|].
  apply (triple_weaken _ (sent v body) _ anything); [|intros s Hs; by apply Hs|done].
  eapply triple_bind; [|intros [[]|e]; eapply triple_done, triple_ret].
  apply (triple_store _ _ anything); [apply sent_stable|apply MarkPublished_text| |..|done|done].
  - intros w. by exists (CallMarkPublished (ev_id v)), w.
  - intros w l (Hc & Hbo & Hin) Hd. by eapply MarkPublished_delivered.
Qed.

Lemma triple_frame {A} (m : Pub A) P R :
  stable R → triple P m anything → triple (λ s, P s ∧ R s) m (λ _, R).
Proof.
  intros HR Hm p Ha [HP HRs]. destruct (Hm p Ha HP) as (a & p' & E & Ha' & Hr & _).
  exists a, p'. split_and!; [done..|]. eapply HR; [exact Hr|apply Ha|done].
Qed.

Lemma publish_all_triple cfg st vs :
  triple (λ s, Forall (copy_of text s.1) vs) (publish_all cfg st vs) anything.
Proof.
  revert st. induction vs as [|v vs IH]; intros st; [eapply triple_done, triple_ret|].
  eapply triple_bind; [apply triple_read; intros p; by eexists _, _|].
  intros [err|]; [eapply triple_done, triple_ret|].
  eapply triple_weaken; [|intros s Hs; apply List.Forall_cons_iff in Hs; exact Hs|done].
  eapply triple_bind; [apply triple_frame; [apply copies_stable|apply publish_event_triple]|].
  intros st'. apply IH.
Qed.

Lemma RunOnce_triple cfg : triple (λ _, True) (RunOnce cfg) anything.
Proof.
  eapply (triple_bind _ _ _ (λ r s, ∀ vs, r = Ok vs → Forall (copy_of text s.1) vs)).
  - apply triple_store; [done|apply ClaimDue_text| |..|done].
    + intros w. by exists (CallClaimDue (Z.to_nat (BatchSize cfg)) (ClaimTimeout cfg)), w.
    + intros w l _. apply delivered_unchanged, ClaimDue_none_published.
    + intros w l evs w' _ _ H vs [= <-]. apply ClaimDue_ok in H as (-> & Hcl & _).
      apply List.Forall_forall. intros v Hv. apply in_map_iff in Hv as ([k e] & <- & Hin).
      apply list_elem_of_In in Hin. eexists. split; [by apply Hcl|done].
  - intros [vs|e]; [|eapply triple_done, triple_ret].
    eapply triple_weaken; [apply publish_all_triple|intros s Hs; by apply Hs|done].
Qed.

Lemma drain_triple fuel cfg : triple (λ _, True) (drain fuel cfg) anything.
Proof.
  induction fuel as [|fuel IH]; [eapply triple_done, triple_ret|].
  eapply triple_bind; [apply RunOnce_triple|]. intros [st [e|]]; [eapply triple_done, triple_ret|].
  eapply triple_bind; [apply triple_read; intros p; by eexists _, _|]. intros c.
  destruct (_ || _); [eapply triple_done, triple_ret|exact IH].
Qed.

Lemma Run_triple fuel cfg arms : triple (λ _, True) (Run fuel cfg arms) anything.
Proof.
  induction arms as [|[] arms IH]; [eapply triple_done, triple_ret..|].
  eapply triple_bind; [apply drain_triple|intros ?; exact IH].
Qed.
End guarantee.

(** C21: at-least-once publication.  Let every other part of the system run
    transactions of the program between any two steps of a publisher, and mark an
    event published only when the broker has its message; let the broker answer
    without an error only when it took the message.  Then a publisher that runs any
    number of drains, with any store faults, cancellations, broker errors, encoding
    errors and lost answers, does the same: it only runs transactions of the
    program, it takes no message back, and whenever every published event has been
    delivered before, every published event has been delivered after, with the body
    its row still encodes to.  Any number of publishers can thus run together. *)
Theorem published_was_delivered fuel cfg arms qs p r p' :
  queues_ok qs → reachable qs (db (store p)) → honest (broker p) →
  let text := uuid_String (store p) in
  (∀ n s, Inv s.1 → rely text s (others p n s)) →
  Run fuel cfg arms p = (r, p') →
  rely text (shared p) (shared p').
Proof.
  intros Hq Hreach Hb text Ho Hrun.
  destruct (Run_triple (others p) (broker p) text Ho Hb fuel cfg arms p) as (a & p1 & E & _ & Hr & _);
    [by split; [..|by eapply reachable_Inv]|done|].
  rewrite Hrun in E. by injection E as _ ->.
Qed.

(** *** Two publishers at work *)

Definition sc_pub_cfg : PublisherConfig :=
  NewPublisher (mkPublisherConfig 0 0 0 (BackoffPolicy.mk Second (300 * Second) f64_2 f64_0)).

(** A publisher at [start] whose broker takes every message and whose answer to
    interaction number [lost] is lost. *)
Definition sc_publisher (s : Shared) (start : time) (lost : nat) (o : nat → Shared → Shared) : PWorld :=
  mkPWorld (sc_world s.1 start 900) s.2 0 o
    (λ n _, (true, if (n =? lost)%nat then Some "i/o timeout"%string else None))
    (λ _, None) (λ _, None) (λ _, ""%string).

(** One drain of a publisher of its own, between two steps of another. *)
Definition sc_peer (n : nat) (s : Shared) : Shared :=
  if (n =? 3)%nat
  then shared (Run 3 sc_pub_cfg [Tick] (sc_publisher s (sec 2000) 99 (λ _ s, s))).2 else s.

Lemma sc_publisher_shared s start lost o : shared (sc_publisher s start lost o) = s.
Proof. by destruct s. Qed.

Lemma sc_publisher_honest s start lost o : honest (broker (sc_publisher s start lost o)).
Proof. done. Qed.

Lemma sc_peer_rely n s : Inv s.1 → rely sc_uuid_String s (sc_peer n s).
Proof.
  intros Hi. unfold sc_peer. destruct (n =? 3)%nat; [|reflexivity].
  destruct (Run_triple (λ _ s, s) (λ n _, (true, if (n =? 99)%nat then Some "i/o timeout"%string else None))
    sc_uuid_String (λ _ s _, reflexivity s) (sc_publisher_honest s (sec 2000) 99 (λ _ s, s)) 3 sc_pub_cfg [Tick]
    (sc_publisher s (sec 2000) 99 (λ _ s, s))) as (a & p' & E & _ & Hr & _); [by split|done|].
  rewrite sc_publisher_shared in Hr. by rewrite E.
Qed.

(** The broker takes the first publisher's message and the answer is lost; the
    second publishes the event again, the first finds it published. *)
Lemma published_was_delivered_witness :
  let p := sc_publisher (at_end sc_submitted, []) (sec 1015) 2 sc_peer in
  let p' := (Run 2 sc_pub_cfg [Tick] p).2 in
  map (λ kv, e_status kv.2) (map_to_list (outbox_events (shared p').1)) = [EventPublished] ∧
  length (shared p').2 = 2%nat ∧ delivered sc_uuid_String (shared p').
Proof.
  intros p p'. split; [vm_compute; reflexivity|]. split; [vm_compute; reflexivity|].
  destruct (published_was_delivered 2 sc_pub_cfg [Tick] sc_queues p _ p' sc_queues_ok
    (at_end_reachable sc_submitted) (sc_publisher_honest _ _ _ _) sc_peer_rely
    (surjective_pairing _)) as (_ & _ & Hd).
  apply Hd. intros id e He Hs.
  assert (map_Forall (λ _ e, e_status e = EventPending) (outbox_events (at_end sc_submitted))) as Hall
    by (apply (bool_decide_eq_true_1 _); vm_compute; reflexivity).
  specialize (Hall id e He). simpl in Hall. congruence.
Defined.

(** ** A drain ends *)

(** Nobody else adds events while a drain runs. *)
Definition quiet (o : nat → Shared → Shared) : Prop :=
  ∀ n s, pending (o n s).1 ⊆ pending s.1.

(** Steps that keep the others, and add no pending event. *)
Definition shrinks {A} (m : Pub A) : Prop := ∀ p a p',
  quiet (others p) → m p = (Ok a, p') →
  others p' = others p ∧ pending (shared p').1 ⊆ pending (shared p).1.

Lemma shrinks_bind {A B} (m : Pub A) (f : A → Pub B) :
  shrinks m → (∀ a, shrinks (f a)) → shrinks (m ≫= f).
Proof.
  intros Hm Hf p b p2 Hq H. apply bind_ok in H as (a & p1 & H1 & H2).
  destruct (Hm _ _ _ Hq H1) as [Ho Hp]. destruct (Hf a p1 b p2) as [Ho' Hp']; [by rewrite Ho|done|].
  split; [congruence|set_solver].
Qed.

Lemma shrinks_read {A} (m : Pub A) :
  (∀ p a p', m p = (Ok a, p') → shared p' = shared p ∧ others p' = others p) → shrinks m.
Proof. intros Hm p a p' _ H. destruct (Hm _ _ _ H) as [-> ->]. done. Qed.

Lemma shrinks_store {A} (m : Tx A) :
  (∀ w, pending (db (m w).2) ⊆ pending (db w)) → shrinks (store_call m).
Proof.
  intros Hm p a p' Hq H. unfold store_call in H. pose proof (Hq (ticks p) (shared p)) as Hs.
  specialize (Hm (store (interact p))). change (db (store (interact p))) with (others p (ticks p) (shared p)).1 in Hm.
  repeat case_match; simplify_eq/=; split; try done; set_solver.
Qed.

(** An answered store call is a run of its transaction. *)
Lemma store_call_ok {A} (m : Tx A) p a p' :
  store_call m p = (Ok (Ok a), p') → m (store (interact p)) = (Ok a, store p').
Proof.
  unfold store_call. destruct (faults p (ticks p)) as [[]|]; intros H; try by injection H.
  destruct (m (store (interact p))) as [r w'] eqn:Hm. simpl in H. by injection H as -> <-.
Qed.

Lemma shrinks_broker body : shrinks (broker_Publish body).
Proof.
  intros p a p' Hq H. unfold broker_Publish in H. pose proof (Hq (ticks p) (shared p)) as Hs.
  repeat case_match; simplify_eq/=; split; done.
Qed.

Lemma pending_keeps d d' :
  (∀ id e', outbox_events d' !! id = Some e' → e_status e' = EventPending →
    ∃ e, outbox_events d !! id = Some e ∧ e_status e = EventPending) →
  pending d' ⊆ pending d.
Proof. intros H id (e' & He' & Hs)%elem_of_pending. apply elem_of_pending. by eapply H. Qed.

Lemma ClaimDue_pending limit timeout w : pending (db (ClaimDue limit timeout w).2) ⊆ pending (db w).
Proof.
  destruct (ClaimDue limit timeout w) as [[evs|err] w'] eqn:H;
    [|simpl; by rewrite (transaction_err _ _ _ _ H)].
  apply ClaimDue_ok in H as (_ & Hcl & Hrest). apply pending_keeps. intros id e' He' Hs. simpl in *.
  set (due := due_events _ _ _) in *. destruct (decide (id ∈ due.*1)) as [Hin|Hout].
  - apply list_elem_of_fmap_1 in Hin as ([k e0] & -> & Hin). simpl in *.
    rewrite (Hcl _ _ Hin) in He'. injection He' as <-. exists e0.
    split; [|done]. by eapply due_events_elem.
  - rewrite (Hrest id Hout) in He'. by exists e'.
Qed.

Lemma MarkPublished_pending id w :
  pending (db (MarkPublished id w).2) ⊆ pending (db w) ∧
  (∀ b, (MarkPublished id w).1 = Ok b → id ∉ pending (db (MarkPublished id w).2)).
Proof.
  destruct (MarkPublished_changes id w) as [[-> Hno]|(e & e' & He & Hs & _ & _ & Hs' & Hes)]; [done|].
  split.
  - apply pending_keeps. intros i x Hx Hp. rewrite Hes in Hx.
    apply lookup_insert_Some in Hx as [[<- <-]|[_ Hx]]; [congruence|by exists x].
  - intros b _ (x & Hx & Hp)%elem_of_pending. rewrite Hes, lookup_insert_eq in Hx. congruence.
Qed.

Lemma RecordFailure_pending id cause after w :
  pending (db (RecordFailure id cause after w).2) ⊆ pending (db w).
Proof.
  destruct (RecordFailure_changes id cause after w) as [->|(e & e' & He & Hs & Hs' & Hes)]; [done|].
  apply pending_keeps. intros i x Hx Hp. rewrite Hes in Hx.
  apply lookup_insert_Some in Hx as [[<- <-]|[_ Hx]]; [by exists e|by exists x].
Qed.

Lemma shrinks_ret {A} (a : A) : shrinks (mret a).
Proof. apply shrinks_read. by intros p a' p' [_ ->]%ret_ok. Qed.

Lemma shrinks_recordFailure cfg e cause : shrinks (recordFailure cfg e cause).
Proof.
  apply shrinks_bind; [apply shrinks_read; by intros p a p' [= _ <-]|intros a].
  apply shrinks_bind.
  { destruct (f64_lt _ _); [|apply shrinks_ret].
    apply shrinks_bind; [apply shrinks_read; by intros p s p' [= _ <-]|intros s; apply shrinks_ret]. }
  intros s. cbv zeta. apply shrinks_bind; [|intros ?; apply shrinks_ret].
  apply shrinks_store. intros w. apply RecordFailure_pending.
Qed.

(** A publication that does not fail leaves its event published. *)
Lemma publish_event_ends cfg st v p st' p' :
  quiet (others p) → publish_event cfg st v p = (Ok st', p') →
  others p' = others p ∧ pending (shared p').1 ⊆ pending (shared p).1 ∧
  Claimed st' = Claimed st ∧ (Failed st ≤ Failed st')%nat ∧
  (Failed st' = Failed st → ev_id v ∉ pending (shared p').1).
Proof.
  intros Hq H. unfold publish_event in H. erewrite bind_run in H by reflexivity.
  assert (∀ cause p0, quiet (others p0) → failed cfg v cause st p0 = (Ok st', p') →
    (others p' = others p0 ∧ pending (shared p').1 ⊆ pending (shared p0).1) ∧
    Claimed st' = Claimed st ∧ Failed st' = S (Failed st)) as Hfail.
  { intros cause p0 Hq0 (u & p1 & H1 & H2)%bind_ok. apply ret_ok in H2 as [<- <-]. simpl.
    split; [|done]. by eapply shrinks_recordFailure. }
  destruct (Body _ v) as [body|].
  2: { erewrite bind_run in H by reflexivity. apply Hfail in H as ([? ?] & ? & ?); [|done]. naive_solver lia. }
  apply bind_ok in H as (err & p1 & Hb & H). apply shrinks_broker in Hb as [Ho1 Hp1]; [|done].
  rewrite <-Ho1 in Hq |- *. destruct err as [cause|].
  { apply Hfail in H as ([-> ?] & ? & ?); [|done]. split_and!; [done|set_solver|done|lia|lia]. }
  apply bind_ok in H as (marked & p2 & Hm & H).
  assert (p2 = p' ∧ Claimed st' = Claimed st ∧ (Failed st ≤ Failed st')%nat ∧
    (Failed st' = Failed st → ∃ b, marked = Ok b)) as (-> & Hc & Hf & Hmk).
  { destruct marked as [[]|e]; apply ret_ok in H as [<- <-]; simpl; naive_solver lia. }
  destruct (shrinks_store (MarkPublished (ev_id v)) (λ w, proj1 (MarkPublished_pending _ w)) _ _ _ Hq Hm)
    as [Ho2 Hp2].
  split_and!; [done|set_solver|done|done|]. intros [b ->]%Hmk.
  apply store_call_ok in Hm. pose proof (proj2 (MarkPublished_pending (ev_id v) (store (interact p1))) b) as Hno.
  rewrite Hm in Hno. by apply Hno.
Qed.

Lemma publish_all_ends cfg vs st p st' p' :
  quiet (others p) → publish_all cfg st vs p = (Ok (st', None), p') →
  others p' = others p ∧ pending (shared p').1 ⊆ pending (shared p).1 ∧
  Claimed st' = Claimed st ∧ (Failed st ≤ Failed st')%nat ∧
  (Failed st' = Failed st → ∀ v, v ∈ vs → ev_id v ∉ pending (shared p').1).
Proof.
  revert st p. induction vs as [|v vs IH]; intros st p Hq H.
  { apply ret_ok in H as [[= <-] <-]. split_and!; [done..|]. intros _ v Hv. by apply not_elem_of_nil in Hv. }
  simpl in H. erewrite bind_run in H by reflexivity. destruct (ctx_err p (ticks p)); [by apply ret_ok in H as [? _]|].
  apply bind_ok in H as (st1 & p1 & H1 & H).
  apply publish_event_ends in H1 as (Ho1 & Hp1 & Hc1 & Hf1 & Hn1); [|done].
  simpl in Ho1, Hp1. apply IH in H as (Ho & Hp & Hc & Hf & Hn); [|by rewrite Ho1].
  split_and!; [congruence|set_solver|congruence|lia|].
  intros Hz v' [->|Hv']%elem_of_cons; [|by apply Hn; [lia|]].
  intros Hin. apply Hn1; [lia|]. by apply Hp.
Qed.

(** The events of a claim were pending, each once. *)
Lemma ClaimDue_ids limit timeout w evs w' :
  ClaimDue limit timeout w = (Ok evs, w') →
  NoDup (map ev_id evs) ∧ ∀ v, v ∈ evs → ev_id v ∈ pending (db w).
Proof.
  intros (-> & _ & _)%ClaimDue_ok. rewrite map_map. simpl. split; [apply due_events_NoDup|].
  intros v Hv%list_elem_of_In. apply in_map_iff in Hv as ([k e] & <- & Hin).
  apply list_elem_of_In, due_events_elem in Hin as [Hk Hd]. apply elem_of_pending. exists e.
  unfold due_event in Hd. by bools.
Qed.

(** A pass without failures publishes what it claimed. *)
Lemma RunOnce_ends cfg p st p' :
  quiet (others p) → RunOnce cfg p = (Ok (st, None), p') →
  others p' = others p ∧
  (Failed st = 0%nat → (size (pending (shared p').1) + Claimed st ≤ size (pending (shared p).1))%nat).
Proof.
  intros Hq H. unfold RunOnce in H. apply bind_ok in H as (r & p1 & H1 & H).
  destruct r as [evs|e]; [|by apply ret_ok in H as [[= ?] _]].
  pose proof (shrinks_store (ClaimDue _ _) (λ w, ClaimDue_pending _ _ w) _ _ _ Hq H1) as [Ho1 Hp1].
  apply publish_all_ends in H as (Ho & Hp & Hc & _ & Hn); [|by rewrite Ho1].
  split; [congruence|]. intros Hz. simpl in Hc. specialize (Hn Hz).
  apply store_call_ok, ClaimDue_ids in H1 as [Hnd Hin].
  set (ids := list_to_set (map ev_id evs) : gset uuid).
  assert (ids ⊆ pending (shared p).1) as Hsub.
  { intros i Hi. apply elem_of_list_to_set, list_elem_of_fmap_1 in Hi as (v & -> & Hv).
    apply (Hq (ticks p) (shared p)), (Hin v Hv). }
  assert (pending (shared p').1 ⊆ pending (shared p).1 ∖ ids) as Hdiff.
  { intros i Hi. apply elem_of_difference. split; [set_solver|]. intros Hv.
    apply elem_of_list_to_set, list_elem_of_fmap_1 in Hv as (v & -> & Hv). by apply (Hn v). }
  apply subseteq_size in Hdiff. rewrite size_difference in Hdiff by done.
  apply subseteq_size in Hsub. rewrite Hc.
  replace (length evs) with (size ids); [lia|]. unfold ids.
  rewrite size_list_to_set by done. by rewrite length_map.
Qed.

(** The publisher handles every error itself. *)
Definition answers {A} (m : Pub A) : Prop := ∀ p, ∃ a p', m p = (Ok a, p').

Lemma answers_bind {A B} (m : Pub A) (f : A → Pub B) :
  answers m → (∀ a, answers (f a)) → answers (m ≫= f).
Proof.
  intros Hm Hf p. destruct (Hm p) as (a & p1 & H). destruct (Hf a p1) as (b & p2 & H2).
  exists b, p2. by rewrite (bind_run _ _ _ _ _ H).
Qed.

Lemma answers_ret {A} (a : A) : answers (mret a).
Proof. intros p. by eexists _, _. Qed.

Lemma answers_store {A} (m : Tx A) : answers (store_call m).
Proof. intros p. unfold store_call. destruct (faults p (ticks p)) as [[]|]; by eexists _, _. Qed.

Lemma answers_broker body : answers (broker_Publish body).
Proof. intros p. unfold broker_Publish. destruct (broker _ _ _). by eexists _, _. Qed.

Lemma answers_ctx : answers ctx_Err.
Proof. intros p. by eexists _, _. Qed.

Create HintDb publisher.
#[local] Hint Resolve answers_bind answers_ret answers_store answers_broker answers_ctx : publisher.

Lemma answers_failed cfg e cause st : answers (failed cfg e cause st).
Proof.
  apply answers_bind; [|auto with publisher]. apply answers_bind; [intros p; by eexists _, _|intros a].
  apply answers_bind; [|intros s; cbv zeta; auto with publisher].
  destruct (f64_lt _ _); [|auto with publisher].
  apply answers_bind; [intros p; by eexists _, _|auto with publisher].
Qed.

Lemma answers_publish_event cfg st v : answers (publish_event cfg st v).
Proof.
  apply answers_bind; [intros p; by eexists _, _|]. intros [body|].
  - apply answers_bind; [auto with publisher|]. intros [cause|]; [apply answers_failed|].
    apply answers_bind; [auto with publisher|]. intros [[]|e]; auto with publisher.
  - apply answers_bind; [intros p; by eexists _, _|intros cause; apply answers_failed].
Qed.

Lemma answers_publish_all cfg st vs : answers (publish_all cfg st vs).
Proof.
  revert st. induction vs as [|v vs IH]; intros st; [apply answers_ret|].
  apply answers_bind; [auto with publisher|]. intros [e|]; [auto with publisher|].
  apply answers_bind; [apply answers_publish_event|intros st'; apply IH].
Qed.

Lemma answers_RunOnce cfg : answers (RunOnce cfg).
Proof.
  apply answers_bind; [auto with publisher|].
  intros [evs|e]; [apply answers_publish_all|auto with publisher].
Qed.

Lemma NewPublisher_batch cfg : (1 ≤ BatchSize (NewPublisher cfg))%Z.
Proof. simpl. destruct (BatchSize cfg <? 1)%Z eqn:H; bools; lia. Qed.

Lemma drain_ends cfg fuel p :
  (1 ≤ BatchSize cfg)%Z → quiet (others p) →
  (Z.of_nat (size (pending (shared p).1)) < Z.of_nat fuel * BatchSize cfg)%Z →
  ∃ p', drain fuel cfg p = (Ok true, p').
Proof.
  intros Hb. revert p. induction fuel as [|fuel IH]; intros p Hq Hsize; [lia|]. simpl.
  destruct (answers_RunOnce cfg p) as ([st err] & p1 & H1). rewrite (bind_run _ _ _ _ _ H1).
  destruct err as [e|]; [by eexists|]. erewrite bind_run by reflexivity.
  destruct (_ || _) eqn:Hstop; [by eexists|]. bools.
  apply RunOnce_ends in H1 as [Ho1 Hle]; [|done]. apply IH; simpl; [by rewrite Ho1|].
  match goal with H : (0 <? Failed st)%nat = false |- _ => apply Nat.ltb_ge in H end.
  unfold shared in Hle, Hsize |- *. cbn [fst snd store] in *.
  specialize (Hle ltac:(lia)). rewrite Nat2Z.inj_succ in Hsize. lia.
Qed.

(** C22: a drain ends.  While nobody adds events to the outbox, whatever else the
    other parts of the system do and however the broker, the connection and the
    context behave, a drain of a publisher returns: after more passes than the
    pending events fill batches, because every pass that makes it go on has
    published a full batch and published events never come back. *)
Theorem drain_terminates cfg fuel p d n :
  quiet (others p) → PendingCount (store p) = (Ok n, d) →
  (Z.of_nat n < Z.of_nat fuel * BatchSize (NewPublisher cfg))%Z →
  ∃ p', drain fuel (NewPublisher cfg) p = (Ok true, p').
Proof.
  intros Hq Hn Hlt. injection Hn as Hn _. apply drain_ends; [apply NewPublisher_batch|done|].
  rewrite pending_size. unfold shared. simpl. by rewrite Hn.
Qed.

Lemma drain_terminates_witness :
  let p := sc_publisher (at_end sc_submitted, []) (sec 1015) 99 (λ _ s, s) in
  (PendingCount (store p)).1 = Ok 1%nat ∧ ∃ p', drain 1 sc_pub_cfg p = (Ok true, p').
Proof.
  intros p. assert ((PendingCount (store p)).1 = Ok 1%nat) as Hn by (vm_compute; reflexivity).
  split; [exact Hn|].
  eapply (drain_terminates _ 1 p); [by intros n s|by apply run_answer|vm_compute; reflexivity].
Defined.
