(* ===== verification/JobsProgress.v ===== *)
(** * Package jobs: the scheduler, replay and cancellation over time

    A due job is always promoted, a stranded one always notified again, a replay
    copies a dead-lettered job and leaves it, a cancellation cannot be undone. *)

From S2P Require Import Prelude.
From S2P Require Import GoText.
From S2P Require Import GoFloat.
From S2P Require Import Schema.
From S2P Require Import Lifecycle.
From S2P Require Import Outbox.
From S2P Require Import JobsStore.
From S2P Require Import WorkersTypes.
From S2P Require Import WorkersStore.
From S2P Require Import WorkersOutcome.
From S2P Require Import Invariant.
From S2P Require Import Transitions.
From S2P Require Import Refinement.
From S2P Require Import System.
From S2P Require Import Scenario.
From S2P Require Import Running.
From S2P Require Import Recovery.

(** ** Cancellation over time *)

Lemma cancelling_edges s t :
  rtc edge s t → s = StatusCancelRequested ∨ s = StatusCanceled →
  t = StatusCancelRequested ∨ t = StatusCanceled.
Proof.
  induction 1 as [|s s' t He _ IH]; intros Hs; [done|]. apply IH.
  destruct Hs as [-> | ->]; inversion He; simplify_eq; auto.
Qed.

(** C13: a cancellation wins every later race.  Once a job is CANCEL_REQUESTED or
    CANCELED, no history of submissions, claims, starts, successes, failures,
    timeouts, recoveries or sweeps, in any order, brings it to any other status:
    it never succeeds, retries, is dead-lettered or runs again. *)
Theorem cancellation_wins d d' id j :
  rtc sys_step d d' → jobs d !! id = Some j →
  j_status j = StatusCancelRequested ∨ j_status j = StatusCanceled →
  ∃ j', jobs d' !! id = Some j' ∧
    (j_status j' = StatusCancelRequested ∨ j_status j' = StatusCanceled).
Proof.
  intros Hd Hj Hs.
  destruct (steps_follows _ _ (history_steps _ _ Hd) _ _ Hj) as (j' & Hj' & _ & He).
  exists j'. split; [done|]. by eapply cancelling_edges.
Qed.

(** A cancelled job whose worker then reports success. *)
Lemma cancellation_wins_witness :
  let late := sc_cancelling ++ [ (CallSucceed "t1" sc_fence None, sec 1040, 500%N) ] in
  ∃ j', jobs (at_end late) !! 100%N = Some j' ∧
    (j_status j' = StatusCancelRequested ∨ j_status j' = StatusCanceled).
Proof.
  intros late.
  apply (cancellation_wins (at_end sc_cancelling) (at_end late) 100%N
    (mkJob "t1" "default" "echo" "{}" StatusCancelRequested 50 2 60 [] None (sec 1001)
       (Some (sec 1036)) None 1 (Some (sec 1001)) (sec 1000) (sec 1036))).
  - apply at_end_app.
  - vm_compute. reflexivity.
  - left. reflexivity.
Defined.

(** ** Promotion *)

Definition promoted_job (j : Job) (now : time) : Job :=
  j <| j_status := StatusQueued |> <| j_updated_at := now |>
    <| j_notification_generation := (j_notification_generation j + 1)%Z |>
    <| j_last_notification_at := Some now |>.

(** Steps through the reads of a job, the lock of its queue and the clock. *)
Ltac relock Hj Hq :=
  etrans; [eapply bind_run, sql_get_run|]; simpl; rewrite Hj;
  etrans; [eapply bind_run; by eapply lock_queue_run|];
  etrans; [eapply bind_run, sql_get_run|]; simpl; rewrite Hj;
  etrans; [eapply bind_run; reflexivity|].

Lemma promoted_job_ok qs js id j now :
  job_ok qs js id j → promotable (j_status j) = true → (0 ≤ j_notification_generation j)%Z →
  job_ok qs js id (promoted_job j now).
Proof.
  intros Hok Hp Hg. eapply job_ok_status; [exact Hok|done..| |left; split; [simpl; lia|by eexists]].
  simpl. by destruct (j_status j).
Qed.

(** A due job is promoted, and only a due one.  [promoteDueJob] on a PENDING or
    RETRY_WAIT job whose time has come at the post-lock clock always makes it
    QUEUED, advances its notification generation by one and stores a pending
    work.available event of that generation, in one transaction; on any other job
    it changes nothing. *)
Theorem promoteDueJob_decides id j w :
  Inv (db w) → supplies w → jobs (db w) !! id = Some j →
  let now := first_reading w in
  if promotable (j_status j) && (j_available_at j <=? now)%Z
  then ∃ e w', promoteDueJob id w = (Ok true, w') ∧
    db w' = add_event (put_job (db w) id (promoted_job j now)) (uuids w (drawn w)) e ∧
    pending_event e id (j_notification_generation j + 1) (timestamptz (clock w (reads w)))
  else ∃ w', promoteDueJob id w = (Ok false, w') ∧ db w' = db w.
Proof.
  intros Hi Hsup Hj now.
  destruct (ro_job _ _ _ _ _ (inv_rows _ Hi) id j Hj) as (Hck & [q Hq] & Hrep).
  assert (job_ok (queues (db w)) (jobs (db w)) id j) as Hok by (by split_and!).
  destruct (inv_events _ Hi id j Hj) as (Hg & _).
  unfold promoteDueJob.
  destruct (promotable (j_status j)) eqn:Hp; simpl.
  2: { eexists. split; [apply transaction_skips; relock Hj Hq; by rewrite Hp|done]. }
  destruct (j_available_at j <=? now)%Z eqn:Hdue; bools.
  2: { eexists. split; [apply transaction_skips; relock Hj Hq|done]. rewrite Hp.
       by rewrite (proj2 (Z.ltb_lt _ _)). }
  set (w1 := (locked_world w) <| db := put_job (db w) id (promoted_job j now) |>).
  destruct (InsertWorkAvailableTx_run id (j_queue j) (j_notification_generation j + 1) w1)
    as (e & w2 & Hins & Hd & He).
  { eapply supplies_later; [exact Hsup|by split]. } { lia. }
  { simpl. rewrite lookup_insert_eq. by eexists. }
  exists e, w2. split; [|split; [exact Hd|exact He]]. apply transaction_commits. relock Hj Hq.
  rewrite Hp, (proj2 (Z.ltb_ge _ _)) by done. simpl. etrans; [eapply bind_run|].
  { apply (sql_update_run id _ _ j); [done|by rewrite bool_decide_eq_true_2, Z.eqb_refl|].
    by apply job_ok_constraints, promoted_job_ok. }
  etrans; [eapply bind_run, Hins|]. reflexivity.
Qed.

Lemma promoteDueJob_decides_witness :
  let w := sc_world (at_end sc_failed) (sec 1050) 550 in
  ∃ e w', promoteDueJob 100 w = (Ok true, w') ∧ pending_event e 100 2 (sec 1050) ∧
    j_status <$> jobs (db w') !! 100%N = Some StatusQueued.
Proof.
  intros w.
  pose proof (promoteDueJob_decides 100
    (mkJob "t1" "default" "echo" "{}" StatusRetryWait 50 2 60 [] None (sec 1042) None None 1
       (Some (sec 1001)) (sec 1000) (sec 1041)) w (at_end_Inv sc_failed)) as H.
  destruct H as (e & w' & Hrun & Hdb & He).
  - split; [vm_compute; reflexivity..|]. intros q u. eexists. split; reflexivity.
  - vm_compute. reflexivity.
  - exists e, w'. split; [exact Hrun|]. split; [exact He|]. rewrite Hdb. reflexivity.
Defined.

(** ** Replay of a dead-lettered job *)

(** The row a replay inserts. *)
Definition replacement_row (scope : string) (id : uuid) (o : Job) (payload : string) (w : World)
    : Job :=
  (replacement_job scope id o (first_reading w)) <| j_payload := payload |>.

Lemma replay_tx_committed scope id key w rid n w' :
  replay_tx scope id key w = (Ok (Some (rid, n)), w') →
  ∃ o p eid e, jobs (db w) !! id = Some o ∧ j_scope o = scope ∧ j_status o = StatusDeadLettered ∧
    jsonb w (j_payload o) = Some p ∧ n = replacement_job scope id o (first_reading w) ∧ jobs (db w) !! rid = None ∧
    dlq_replays (db w) !! (scope, id, key) = None ∧ new_event (db w) rid 1 eid e ∧
    db w' = add_event ((put_job (db w) rid (replacement_row scope id o p w))
      <| dlq_replays := <[(scope, id, key):=mkReplay rid]> (dlq_replays (db w)) |>) eid e.
Proof.
  unfold replay_tx. intros H. apply transaction_ok in H as (b & w1 & H & ->).
  unfold job_in_scope, lock_queue in H. run_inv; unfold commit, no_commit in *; run_inv; bools; [|done].
  repeat match goal with
    | H : get_db _ = _ |- _ => apply get_db_ok in H as [-> ->]
    | H : sql_get _ _ = _ |- _ => apply sql_get_ok in H as [H ->]
    | H : clock_timestamp _ = _ |- _ => injection H as <- <-
    | H : uuid_New _ = _ |- _ => injection H as <- <-
    | H : to_jsonb _ _ = _ |- _ => apply to_jsonb_ok in H as [Hp ->]
    | H : sql_insert _ _ _ = _ |- _ => apply sql_insert_ok in H as (Hn & _ & ->)
    | H : sql_insert_or_nothing _ _ _ = _ |- _ =>
        apply sql_insert_or_nothing_ok in H as [(? & _)|(_ & Hk & _ & ->)]; [done|]
    | H : InsertWorkAvailableTx _ _ _ _ _ = _ |- _ =>
        apply InsertWorkAvailableTx_ok in H as (_ & e & He & Hdb)
    end.
  eexists _, _, _, e. split_and!; [by symmetry| | |exact Hp| | | | |exact Hdb]; done.
Qed.

(** A replay makes a new job and leaves the old one.  A replay that is not a
    repetition found a DEAD_LETTERED job of the caller's scope; it adds, in one
    transaction, a QUEUED job under a new identity that copies the queue, type,
    payload, priority, attempt budget, timeout and capabilities and names the
    original, the replay record of the key, and the notification of the new job;
    the original's row, its dead-letter entry and its attempts stay as they are. *)
Theorem Replay_copies_definition scope id key w r w' :
  Replay scope id key w = (Ok r, w') → rr_replayed r = false →
  ∃ o n, jobs (db w) !! id = Some o ∧ j_scope o = scope ∧ j_status o = StatusDeadLettered ∧
    jobs (db w') = <[rr_replacement_id r:=n]> (jobs (db w)) ∧
    jobs (db w) !! rr_replacement_id r = None ∧ jobs (db w') !! id = Some o ∧
    j_queue n = j_queue o ∧ j_type n = j_type o ∧ jsonb w (j_payload o) = Some (j_payload n) ∧
    j_priority n = j_priority o ∧ j_max_attempts n = j_max_attempts o ∧
    j_timeout_seconds n = j_timeout_seconds o ∧
    j_required_capabilities n = j_required_capabilities o ∧ j_scope n = scope ∧
    j_status n = StatusQueued ∧ j_replayed_from n = Some id ∧
    has_event (outbox_events (db w')) (rr_replacement_id r) 1 ∧
    dlq_replays (db w') !! (scope, id, key) = Some (mkReplay (rr_replacement_id r)) ∧
    dlq_entries (db w') = dlq_entries (db w) ∧ job_attempts (db w') = job_attempts (db w).
Proof.
  unfold Replay. intros H Hnew. run_inv.
  2: { unfold resolveExistingReplay in *. run_inv. simpl in Hnew. discriminate. }
  simpl. match goal with H : replay_tx _ _ _ _ = _ |- _ =>
    apply replay_tx_committed in H as (o & p & eid & e & Ho & Hs & Hd & Hp & _ & Hn & Hk & (Hen & He1 & He2) & ->)
  end.
  exists o, (replacement_row scope id o p w). simpl.
  split_and!; try done.
  - rewrite lookup_insert_ne; [done|]. intros ->. congruence.
  - exists eid, e. by rewrite lookup_insert_eq.
  - by rewrite lookup_insert_eq.
Qed.

Lemma Replay_copies_definition_witness :
  let w := sc_world (at_end sc_dead) (sec 1300) 900 in
  let n := replacement_job "t1" 100
    (mkJob "t1" "default" "echo" "{}" StatusDeadLettered 50 2 60 [] None (sec 1042) None None 2
       (Some (sec 1051)) (sec 1000) (sec 1201)) (sec 1301) in
  (Replay "t1" 100 "again" w).1 = Ok (mkReplayResult 100 900 n false) ∧
  ∃ o, jobs (db w) !! 100%N = Some o ∧ j_status o = StatusDeadLettered.
Proof.
  intros w n.
  assert ((Replay "t1" 100 "again" w).1 = Ok (mkReplayResult 100 900 n false)) as Hrun
    by (vm_compute; reflexivity).
  split; [exact Hrun|].
  destruct (Replay_copies_definition "t1" 100 "again" w _ _ (run_answer _ _ _ Hrun) eq_refl)
    as (o & _ & Ho & _ & Hd & _). exists o. split; [exact Ho|exact Hd].
Defined.

(** ** Re-notification *)

Definition renotified_job (j : Job) (now : time) : Job :=
  j <| j_last_notification_at := Some now |>.

(** When a queued job counts as stranded under the lock. *)
Definition stranded (d : DB) (id : uuid) (j : Job) (now : time) (after : duration) : bool :=
  bool_decide (j_status j = StatusQueued)
  && match j_last_notification_at j with Some t => (t <? now - after)%Z | None => false end
  && negb (map_any (pending_for id (j_notification_generation j)) (outbox_events d)).

Lemma queued_generation d id j :
  Inv d → jobs d !! id = Some j → j_status j = StatusQueued → (1 ≤ j_notification_generation j)%Z.
Proof. intros Hi Hj Hs. by apply (inv_events _ Hi id j Hj); rewrite Hs. Qed.

Lemma renotified_job_ok qs js id j now :
  job_ok qs js id j → j_status j = StatusQueued → (1 ≤ j_notification_generation j)%Z →
  job_ok qs js id (renotified_job j now).
Proof.
  intros Hok Hs Hg. eapply job_ok_status; [exact Hok|done| |done|done|].
  - simpl. by rewrite Hs.
  - left. split; [simpl; lia|by eexists].
Qed.

(** A stranded job is notified again, and only a stranded one.  A QUEUED job
    whose last notification is older than the interval and that has no pending
    event of its generation always gets a new pending event of the same
    generation, together with the new notification time; any other job is left
    alone. *)
Theorem renotifyStrandedJob_decides id j after w :
  Inv (db w) → supplies w → jobs (db w) !! id = Some j →
  let now := first_reading w in
  if stranded (db w) id j now after
  then ∃ e w', renotifyStrandedJob id after w = (Ok true, w') ∧
    db w' = add_event (put_job (db w) id (renotified_job j now)) (uuids w (drawn w)) e ∧
    pending_event e id (j_notification_generation j) (timestamptz (clock w (reads w)))
  else ∃ w', renotifyStrandedJob id after w = (Ok false, w') ∧ db w' = db w.
Proof.
  intros Hi Hsup Hj now.
  pose proof (ro_job _ _ _ _ _ (inv_rows _ Hi) id j Hj) as Hok. pose proof Hok as (_ & [q Hq] & _).
  unfold renotifyStrandedJob, stranded, HasPendingWorkAvailableTx.
  destruct (bool_decide (j_status j = StatusQueued)) eqn:Hs; simpl.
  2: { eexists. split; [apply transaction_skips; relock Hj Hq|done]. rewrite Hs.
       by destruct (j_last_notification_at j). }
  bools. pose proof (queued_generation _ _ _ Hi Hj Hs) as Hg.
  destruct (j_last_notification_at j) as [last|] eqn:Hlast; simpl.
  2: { eexists. split; [apply transaction_skips; relock Hj Hq|done]. by rewrite Hlast. }
  destruct (last <? now - after)%Z eqn:Hold; unfold now, first_reading in Hold; simpl.
  2: { eexists. split; [apply transaction_skips; relock Hj Hq|done]. rewrite Hlast.
       rewrite bool_decide_eq_true_2, (proj2 (Z.ltb_ge _ 1)) by done. simpl.
       by rewrite Hold. }
  destruct (map_any _ _) eqn:Hp; simpl.
  { eexists. split; [apply transaction_skips; relock Hj Hq|done]. rewrite Hlast.
    rewrite bool_decide_eq_true_2, (proj2 (Z.ltb_ge _ 1)) by done. simpl. rewrite Hold. simpl.
    erewrite bind_run by reflexivity. simpl. by rewrite Hp. }
  set (w1 := (locked_world w) <| db := put_job (db w) id (renotified_job j now) |>).
  destruct (InsertWorkAvailableTx_run id (j_queue j) (j_notification_generation j) w1)
    as (e & w2 & Hins & Hd & He).
  { eapply supplies_later; [exact Hsup|by split]. } { lia. }
  { simpl. rewrite lookup_insert_eq. by eexists. }
  exists e, w2. split; [|split; [exact Hd|exact He]]. apply transaction_commits. relock Hj Hq.
  rewrite Hlast. rewrite bool_decide_eq_true_2, (proj2 (Z.ltb_ge _ 1)) by done. simpl.
  rewrite Hold. simpl. erewrite bind_run by reflexivity. simpl. rewrite Hp.
  etrans; [eapply bind_run|].
  { apply (sql_update_run id _ _ j); [done|by rewrite bool_decide_eq_true_2, Z.eqb_refl|].
    by apply job_ok_constraints, renotified_job_ok. }
  etrans; [eapply bind_run, Hins|]. reflexivity.
Qed.

(** The notification of a submitted job was published, and nothing came of it. *)
Definition sc_stranded : list (call * time * N) :=
  sc_submitted ++ [ (CallMarkPublished 101, sec 1015, 300%N) ].

Lemma renotifyStrandedJob_decides_witness :
  let w := sc_world (at_end sc_stranded) (sec 1500) 550 in
  ∃ e w', renotifyStrandedJob 100 (sec 60) w = (Ok true, w') ∧ pending_event e 100 1 (sec 1500).
Proof.
  intros w.
  destruct (renotifyStrandedJob_decides 100
    (mkJob "t1" "default" "echo" "{}" StatusQueued 50 2 60 [] None (sec 1001) None None 1
       (Some (sec 1001)) (sec 1000) (sec 1000)) (sec 60) w (at_end_Inv sc_stranded))
    as (e & w' & Hrun & _ & He).
  - split; [vm_compute; reflexivity..|]. intros q u. eexists. split; reflexivity.
  - vm_compute. reflexivity.
  - exists e, w'. split; [exact Hrun|exact He].
Defined.

(** ** Tenants *)

(** Tenants are isolated.  A caller of another scope cannot tell a job from one
    that does not exist: reading, cancelling and replaying all answer that there
    is no such job, and change nothing. *)
Theorem other_scope_sees_nothing scope id key w :
  (∀ j, jobs (db w) !! id = Some j → j_scope j ≠ scope) →
  (Get scope id w).1 = Err ErrJobNotFound ∧ db (Get scope id w).2 = db w ∧
  (RequestCancel scope id w).1 = Err ErrJobNotFound ∧ db (RequestCancel scope id w).2 = db w ∧
  (Replay scope id key w).1 = Err ErrJobNotFound ∧ db (Replay scope id key w).2 = db w.
Proof.
  intros Hno. assert (job_in_scope scope id (begin_tx w) = (Err ErrJobNotFound, begin_tx w)) as Htx
    by (by apply job_in_scope_absent).
  assert (RequestCancel scope id w = (Err ErrJobNotFound, (begin_tx w) <| db := db w |>)) as ->
    by (by apply transaction_fails, bind_run_err).
  assert (Replay scope id key w = (Err ErrJobNotFound, (begin_tx w) <| db := db w |>)) as ->
    by (by apply bind_run_err, transaction_fails, bind_run_err).
  unfold Get, getByID. by rewrite job_in_scope_absent.
Qed.

Lemma other_scope_sees_nothing_witness :
  let w := sc_world (at_end sc_dead) (sec 1300) 900 in
  (Get "t1" 100 w).1 ≠ Err ErrJobNotFound ∧ (Get "t2" 100 w).1 = Err ErrJobNotFound ∧
  (Replay "t2" 100 "again" w).1 = Err ErrJobNotFound.
Proof.
  intros w. split; [vm_compute; discriminate|].
  destruct (other_scope_sees_nothing "t2" 100 "again" w) as (Hg & _ & _ & _ & Hr & _).
  - assert (j_scope <$> jobs (db w) !! 100%N = Some "t1"%string) as Hs by (vm_compute; reflexivity).
    intros j Hj. rewrite Hj in Hs. simpl in Hs. congruence.
  - split; [exact Hg|exact Hr].
Defined.
