(* ===== verification/ServicesTheorems.v ===== *)
(** * A pass of the scheduler leaves no due job behind

    The sweeps as wholes: with a clock that does not run backwards and fresh uuids, a
    pass ends without an error, every due job it selected is queued with a notification
    waiting, and every stranded one has a notification waiting again.  A service's loop,
    among the steps of other processes, is a history of single steps. *)

From S2P Require Import Prelude.
From S2P Require Import Schema.
From S2P Require Import Outbox.
From S2P Require Import JobsStore.
From S2P Require Import WorkersTypes.
From S2P Require Import WorkersStore.
From S2P Require Import WorkersOutcome.
From S2P Require Import Services.
From S2P Require Import Invariant.
From S2P Require Import Transitions.
From S2P Require Import Refinement.
From S2P Require Import System.
From S2P Require Import Scenario.
From S2P Require Import Running.
From S2P Require Import Recovery.
From S2P Require Import JobsProgress.

(** ** What a statement leaves of its surroundings *)

(** The sources of time, ids and documents stay, and are only used further. *)
Record onward (w w' : World) : Prop := {
  on_clock : clock w' = clock w;
  on_uuids : uuids w' = uuids w;
  on_jsonb : jsonb w' = jsonb w;
  on_reads : (reads w ≤ reads w')%nat;
  on_drawn : (drawn w ≤ drawn w')%nat }.

#[export] Instance onward_preorder : PreOrder onward.
Proof. split; [by split|]. intros w1 w2 w3 [] []. split; congruence || lia. Qed.

Definition orderly {A} (m : Tx A) : Prop := ∀ w, onward w (m w).2.

Lemma orderly_bind {A B} (m : Tx A) (f : A → Tx B) : orderly m → (∀ a, orderly (f a)) → orderly (m ≫= f).
Proof.
  intros Hm Hf w. specialize (Hm w). unfold mbind, M_bind. destruct (m w) as [[a|e] w1]; [|done].
  etrans; [exact Hm|apply Hf].
Qed.

Lemma orderly_ret {A} (a : A) : orderly (mret a : Tx A).
Proof. intros w. by split. Qed.

Lemma orderly_throw {A} e : orderly (throw e : Tx A).
Proof. intros w. by split. Qed.

Lemma orderly_transaction {A} (body : Tx (bool * A)) : orderly body → orderly (transaction body).
Proof.
  intros Hb w. unfold transaction. specialize (Hb (begin_tx w)).
  assert (onward w (begin_tx w)) as Hw by (split; simpl; auto).
  destruct (body (begin_tx w)) as [[[[] a]|e] w1]; simpl in *; etrans; try exact Hw; [done| |];
    etrans; [exact Hb|by split|exact Hb|by split].
Qed.

Ltac orderly_run := intros w; repeat case_match; by split.

Lemma orderly_get {K V} `{Table K V} (k : K) : orderly (sql_get k).
Proof. orderly_run. Qed.
Lemma orderly_insert {K V} `{Table K V} (k : K) v : orderly (sql_insert k v).
Proof. unfold sql_insert. orderly_run. Qed.
Lemma orderly_update {K V} `{Table K V} (k : K) p f : orderly (sql_update k p f).
Proof. unfold sql_update. orderly_run. Qed.
Lemma orderly_to_jsonb s : orderly (to_jsonb s).
Proof. unfold to_jsonb. orderly_run. Qed.
Lemma orderly_clock : orderly clock_timestamp.
Proof. intros w. split; simpl; auto. Qed.
Lemma orderly_uuid_New : orderly uuid_New.
Proof. intros w. split; simpl; auto. Qed.
Lemma orderly_reads : orderly now_tx ∧ orderly get_db ∧ ∀ u, orderly (uuid_text u).
Proof. split_and!; [orderly_run..|intros u; orderly_run]. Qed.

Create HintDb orderly.
#[export] Hint Resolve orderly_ret orderly_throw orderly_get orderly_insert orderly_update orderly_to_jsonb
  orderly_clock orderly_uuid_New : orderly.
#[export] Hint Extern 1 (orderly now_tx) => apply orderly_reads : orderly.
#[export] Hint Extern 1 (orderly get_db) => apply orderly_reads : orderly.
#[export] Hint Extern 1 (orderly (uuid_text _)) => apply orderly_reads : orderly.

(** Walk through a body: its binds and its branches. *)
Ltac orderly :=
  repeat first
  [ progress intros
  | solve [auto with orderly]
  | apply orderly_transaction
  | apply orderly_bind
  | match goal with |- orderly (match ?x with _ => _ end) => destruct x end
  | match goal with |- orderly (if ?x then _ else _) => destruct x end ].

Lemma InsertWorkAvailableTx_orderly job queue gen trace : orderly (InsertWorkAvailableTx job queue gen trace).
Proof. unfold InsertWorkAvailableTx. orderly. Qed.
#[export] Hint Resolve InsertWorkAvailableTx_orderly : orderly.

Lemma promoteDueJob_orderly id : orderly (promoteDueJob id).
Proof. unfold promoteDueJob, lock_queue, no_commit, commit. orderly. Qed.

Lemma renotifyStrandedJob_orderly id after : orderly (renotifyStrandedJob id after).
Proof. unfold renotifyStrandedJob, lock_queue, no_commit, commit, HasPendingWorkAvailableTx. orderly. Qed.

(** A body that says it acted has drawn an id. *)
Definition draws (body : Tx (bool * bool)) : Prop :=
  ∀ w b w', body w = (Ok (b, true), w') → (drawn w < drawn w')%nat.

Lemma draws_bind {A} (m : Tx A) (f : A → Tx (bool * bool)) : orderly m → (∀ a, draws (f a)) → draws (m ≫= f).
Proof.
  intros Hm Hf w b w'. rewrite bind_ok. intros (a & w1 & H1 & H2). apply Hf in H2.
  specialize (Hm w). rewrite H1 in Hm. destruct Hm; simpl in *. lia.
Qed.

Lemma draws_insert job queue gen trace : draws (InsertWorkAvailableTx job queue gen trace;; commit true).
Proof.
  intros w b w'. rewrite bind_ok. intros (u & w1 & H1 & H2). unfold commit, mret, M_ret in H2. simplify_eq.
  unfold InsertWorkAvailableTx in H1. destruct (gen <? 1)%Z; [done|].
  erewrite bind_run in H1 by reflexivity.
  match type of H1 with ?m ?s = _ =>
    assert (onward s (m s).2) as Ho; [revert H1; generalize s; intros s0 _|rewrite H1 in Ho; destruct Ho; simpl in *; lia] end.
  apply orderly_bind; orderly.
Qed.

Lemma draws_skip : draws (no_commit false).
Proof. intros w b w'. unfold no_commit, mret, M_ret. naive_solver. Qed.

Lemma draws_throw e : draws (throw e).
Proof. intros w b w'. unfold throw. naive_solver. Qed.

#[export] Hint Resolve draws_skip draws_throw draws_insert : orderly.

Ltac draws :=
  repeat first
  [ progress intros
  | solve [auto with orderly]
  | apply draws_bind; [solve [orderly]|]
  | match goal with |- draws (match ?x with _ => _ end) => destruct x end
  | match goal with |- draws (if ?x then _ else _) => destruct x end ].

Lemma transaction_draws body w w' :
  draws body → transaction body w = (Ok true, w') → (drawn w < drawn w')%nat.
Proof.
  intros Hd (b & w1 & Hb & ->)%transaction_ok. apply Hd in Hb. by destruct b.
Qed.

Lemma promoteDueJob_draws id w w' : promoteDueJob id w = (Ok true, w') → (drawn w < drawn w')%nat.
Proof. apply transaction_draws. unfold lock_queue. draws. Qed.

Lemma renotifyStrandedJob_draws id after w w' :
  renotifyStrandedJob id after w = (Ok true, w') → (drawn w < drawn w')%nat.
Proof. apply transaction_draws. unfold lock_queue, HasPendingWorkAvailableTx. draws. Qed.

(** ** Enough for a whole sweep *)

(** Every id still to be drawn is fresh, and PostgreSQL stores every notification. *)
Record plenty (w : World) : Prop := {
  pl_events : ∀ n, (drawn w ≤ n)%nat → outbox_events (db w) !! uuids w n = None;
  pl_entries : ∀ n, (drawn w ≤ n)%nat → dlq_entries (db w) !! uuids w n = None;
  pl_distinct : ∀ n m, (drawn w ≤ n)%nat → (drawn w ≤ m)%nat → uuids w n = uuids w m → n = m;
  pl_jsonb : ∀ queue job, ∃ t, jsonb w (work_available_data queue job) = Some t ∧ jsonb_object t = true }.

(** The clock does not run backwards. *)
Definition steady (w : World) : Prop := ∀ n m, (reads w ≤ n ≤ m)%nat → (clock w n ≤ clock w m)%Z.

Lemma plenty_supplies w : plenty w → supplies w.
Proof. intros []. split; auto. Qed.

Lemma plenty_same w w' : plenty w → onward w w' → db w' = db w → plenty w'.
Proof.
  intros [] [Hc Hu Hj Hr Hd] Hdb. split; rewrite ?Hdb, ?Hu, ?Hj; auto with lia.
Qed.

Lemma plenty_event w w' d e :
  plenty w → onward w w' → (drawn w < drawn w')%nat → db w' = add_event d (uuids w (drawn w)) e →
  outbox_events d = outbox_events (db w) → dlq_entries d = dlq_entries (db w) → plenty w'.
Proof.
  intros [He Hq Hu Hj] [_ Eu Ej _ _] Hlt Hdb Hde Hdq. split; rewrite ?Hdb, ?Eu, ?Ej; simpl; rewrite ?Hde, ?Hdq.
  - intros n Hn. rewrite lookup_insert_ne; [apply He; lia|]. intros Heq%Hu; lia.
  - intros n Hn. apply Hq. lia.
  - intros n m Hn Hm. apply Hu; lia.
  - done.
Qed.

Lemma steady_onward w w' : steady w → onward w w' → steady w'.
Proof. intros Hs [Hc _ _ Hr _] n m Hn. rewrite Hc. apply Hs. lia. Qed.

Lemma timestamptz_mono s t : (s ≤ t)%Z → (timestamptz s ≤ timestamptz t)%Z.
Proof. intros H. unfold timestamptz. pose proof (Z.div_le_mono s t 1000). lia. Qed.

(** A time that has passed stays passed. *)
Lemma reading_onward w w' :
  steady w → onward w w' → (timestamptz (clock w (reads w)) ≤ timestamptz (clock w' (reads w')))%Z.
Proof. intros Hs [Hc _ _ Hr _]. rewrite Hc. apply timestamptz_mono, Hs. lia. Qed.

Lemma reading_first w : steady w → (timestamptz (clock w (reads w)) ≤ first_reading w)%Z.
Proof. intros Hs. apply timestamptz_mono, Hs. lia. Qed.

Record ready (w : World) : Prop := { rd_inv : Inv (db w); rd_plenty : plenty w; rd_steady : steady w }.

(** A notification of this generation waits for the publisher. *)
Definition notified (d : DB) (id : uuid) (gen : Z) : Prop :=
  map_any (pending_for id gen) (outbox_events d) = true.

Lemma notified_new d id gen k e t : pending_event e id gen t → notified (add_event d k e) id gen.
Proof.
  intros (Hj & Hg & Hs & _). apply map_any_true. exists k, e. simpl. rewrite lookup_insert_eq. split; [done|].
  unfold pending_for. by rewrite bool_decide_eq_true_2.
Qed.

Lemma notified_kept d d' id gen k e :
  notified d id gen → outbox_events d' = outbox_events d → outbox_events d !! k = None →
  notified (add_event d' k e) id gen.
Proof.
  unfold notified. rewrite !map_any_true. intros (k' & v & Hk & Hv) He Hf. exists k', v. simpl. rewrite He.
  rewrite lookup_insert_ne; [done|congruence].
Qed.

(** What the two operations of the scheduler leave when they act. *)
Lemma scheduled_ready w w' id j' e (m : Tx bool) :
  ready w → orderly m → effects steps m → m w = (Ok true, w') → (drawn w < drawn w')%nat →
  db w' = add_event (put_job (db w) id j') (uuids w (drawn w)) e → ready w' ∧ onward w w'.
Proof.
  intros [Hi Hp Hs] Ho He Hrun Hd Hdb. pose proof (Ho w) as Hon. rewrite Hrun in Hon. split; [|done]. split.
  - eapply steps_inv; [by eapply He|done].
  - by eapply plenty_event.
  - by eapply steady_onward.
Qed.

Lemma skipped_ready w w' (m : Tx bool) b :
  ready w → orderly m → m w = (Ok b, w') → db w' = db w → ready w' ∧ onward w w'.
Proof.
  intros [Hi Hp Hs] Ho Hrun Hdb. pose proof (Ho w) as Hon. rewrite Hrun in Hon. split; [|done]. split.
  - by rewrite Hdb.
  - by eapply plenty_same.
  - by eapply steady_onward.
Qed.

(** ** A sweep, item by item *)

Section sweep.
Context (step : uuid → Tx bool) (count : bool → SchedulerStats) (B : bool → Prop)
  (R : World → Prop) (P Q : World → uuid → Prop).

(** An item whose turn comes while [P] holds of it ends with [Q], and disturbs no other. *)
Hypothesis Hstep : ∀ w id, R w → P w id → ∃ b w', step id w = (Ok b, w') ∧ B b ∧ R w' ∧ Q w' id ∧
  ∀ id', id' ≠ id → (P w id' → P w' id') ∧ (Q w id' → Q w' id').

Lemma sweep_all (l : list (uuid * Job)) (before : list uuid) s w :
  NoDup l.*1 → R w → (∀ id, id ∈ l.*1 → P w id) → (∀ id, id ∈ before → id ∉ l.*1 ∧ Q w id) →
  ∃ bs w', for_each (λ stats kv, b ← step kv.1; mret (SchedulerStats_Add stats (count b))) s l w =
      (Ok (fold_left (λ s b, SchedulerStats_Add s (count b)) bs s), w') ∧
    length bs = length l ∧ Forall B bs ∧ R w' ∧ ∀ id, id ∈ before ∨ id ∈ l.*1 → Q w' id.
Proof.
  revert before s w. induction l as [|[id j] l IH]; intros before s w Hnd HR HP HQ; simpl.
  - exists [], w. split_and!; try done. intros id [Hb|Hb]; [by apply HQ|by apply not_elem_of_nil in Hb].
  - simpl in Hnd. apply NoDup_cons in Hnd as [Hni Hnd].
    destruct (Hstep w id) as (b & w1 & Hrun & HB & HR1 & HQ1 & Hoth); [done|apply HP; simpl; left|].
    destruct (IH (id :: before) (SchedulerStats_Add s (count b)) w1) as (bs & w' & Hbs & Hlen & HBs & HR' & HQ').
    + done.
    + done.
    + intros id' Hin. apply Hoth; [by intros ->|]. apply HP. simpl. by right.
    + intros id' [->|Hb]%elem_of_cons; [done|]. destruct (HQ _ Hb) as [Hn Hq].
      apply not_elem_of_cons in Hn as [Hne Hn]. split; [done|]. by apply Hoth.
    + exists (b :: bs), w'. split_and!; simpl; auto.
      * erewrite bind_run by (erewrite bind_run by exact Hrun; reflexivity). exact Hbs.
      * intros id' Hin. apply HQ'. rewrite !elem_of_cons in *. tauto.
Qed.
End sweep.

(** ** Promotion *)

Section promotion.
(** The generations the jobs had when the sweep began. *)
Context (gen : uuid → Z).

Definition due (w : World) (id : uuid) : Prop :=
  ∃ j, jobs (db w) !! id = Some j ∧ promotable (j_status j) = true ∧ j_notification_generation j = gen id ∧
    (j_available_at j ≤ timestamptz (clock w (reads w)))%Z.

Definition promoted (d : DB) (id : uuid) : Prop :=
  ∃ j, jobs d !! id = Some j ∧ j_status j = StatusQueued ∧ j_notification_generation j = (gen id + 1)%Z ∧
    notified d id (gen id + 1).

Lemma promote_step w id :
  ready w → due w id →
  ∃ b w', promoteDueJob id w = (Ok b, w') ∧ b = true ∧ ready w' ∧ promoted (db w') id ∧
    ∀ id', id' ≠ id → (due w id' → due w' id') ∧ (promoted (db w) id' → promoted (db w') id').
Proof.
  intros Hr (j & Hj & Hp & Hg & Hav). pose proof Hr as [Hi Hpl Hs].
  pose proof (reading_first w Hs) as Hfirst.
  pose proof (promoteDueJob_decides id j w Hi (plenty_supplies _ Hpl) Hj) as H. cbv zeta in H.
  rewrite Hp, (proj2 (Z.leb_le _ _)) in H by lia. destruct H as (e & w' & Hrun & Hdb & He).
  destruct (scheduled_ready _ _ _ _ _ _ Hr (promoteDueJob_orderly id) (promoteDueJob_steps id) Hrun
    (promoteDueJob_draws _ _ _ Hrun) Hdb) as [Hr' Hon].
  exists true, w'. split_and!; [done|done|done| |].
  - exists (promoted_job j (first_reading w)). rewrite Hdb. simpl. rewrite lookup_insert_eq.
    split_and!; [done|done|by rewrite Hg|]. rewrite <-Hg. by eapply notified_new.
  - intros id' Hne. split.
    + intros (j' & Hj' & ? & ? & ?). exists j'. rewrite Hdb. simpl. rewrite lookup_insert_ne by done.
      pose proof (reading_onward w w' Hs Hon). split_and!; try done. lia.
    + intros (j' & Hj' & ? & ? & ?). exists j'. rewrite Hdb. simpl. rewrite lookup_insert_ne by done.
      split_and!; try done. eapply notified_kept; [done|done|]. by apply pl_events.
Qed.
End promotion.

(** ** Re-notification *)

Section renotification.
Context (after : duration).

Definition overdue (w : World) (id : uuid) : Prop :=
  ∃ j t, jobs (db w) !! id = Some j ∧ j_status j = StatusQueued ∧ j_last_notification_at j = Some t ∧
    (t < timestamptz (clock w (reads w)) - after)%Z.

Definition waiting (d : DB) (id : uuid) : Prop :=
  ∃ j, jobs d !! id = Some j ∧ j_status j = StatusQueued ∧ notified d id (j_notification_generation j).

(** It disturbs nothing that was promoted before. *)
Lemma renotify_step gen (batch : list uuid) w id :
  ready w ∧ (∀ id', id' ∈ batch → promoted gen (db w) id') → overdue w id →
  ∃ b w', renotifyStrandedJob id after w = (Ok b, w') ∧ True ∧
    (ready w' ∧ ∀ id', id' ∈ batch → promoted gen (db w') id') ∧ waiting (db w') id ∧
    ∀ id', id' ≠ id → (overdue w id' → overdue w' id') ∧ (waiting (db w) id' → waiting (db w') id').
Proof.
  intros [Hr Hpr] (j & t & Hj & Hq & Ht & Hold). pose proof Hr as [Hi Hpl Hs].
  pose proof (reading_first w Hs) as Hfirst.
  pose proof (renotifyStrandedJob_decides id j after w Hi (plenty_supplies _ Hpl) Hj) as H. cbv zeta in H.
  destruct (stranded (db w) id j (first_reading w) after) eqn:Hst.
  - destruct H as (e & w' & Hrun & Hdb & He).
    destruct (scheduled_ready _ _ _ _ _ _ Hr (renotifyStrandedJob_orderly id after) (renotifyStrandedJob_steps id after)
      Hrun (renotifyStrandedJob_draws _ _ _ _ Hrun) Hdb) as [Hr' Hon].
    assert (∀ id' g, notified (db w) id' g → notified (db w') id' g) as Hkept.
    { intros id' g Hn. rewrite Hdb. eapply notified_kept; [done|done|]. by apply pl_events. }
    exists true, w'. split_and!; [done|done|done| | |].
    + intros id' Hin. destruct (Hpr id' Hin) as (j' & Hj' & ? & ? & ?). destruct (decide (id' = id)) as [->|Hne].
      * exists (renotified_job j (first_reading w)). rewrite Hdb at 1. simpl. rewrite lookup_insert_eq.
        simplify_eq. split_and!; auto.
      * exists j'. rewrite Hdb at 1. simpl. rewrite lookup_insert_ne by done. split_and!; auto.
    + exists (renotified_job j (first_reading w)). rewrite Hdb. simpl. rewrite lookup_insert_eq.
      split_and!; [done|done|]. by eapply notified_new.
    + intros id' Hne. pose proof (reading_onward w w' Hs Hon). split.
      * intros (j' & t' & Hj' & ? & ? & ?). exists j', t'. rewrite Hdb. simpl. rewrite lookup_insert_ne by done.
        split_and!; try done. lia.
      * intros (j' & Hj' & ? & ?). exists j'. rewrite Hdb at 1. simpl. rewrite lookup_insert_ne by done.
        split_and!; auto.
  - destruct H as (w' & Hrun & Hdb).
    destruct (skipped_ready _ _ _ _ Hr (renotifyStrandedJob_orderly id after) Hrun Hdb) as [Hr' Hon].
    exists false, w'. rewrite Hdb. split_and!; [done|done|done|done| |].
    + exists j. split_and!; [done|done|]. unfold stranded in Hst. rewrite Hq, Ht in Hst.
      rewrite bool_decide_eq_true_2, (proj2 (Z.ltb_lt _ _)) in Hst by (done || lia). simpl in Hst.
      by apply negb_false_iff in Hst.
    + intros id' Hne. split; [|done]. intros (j' & t' & Hj' & ? & ? & ?). exists j', t'. rewrite Hdb.
      pose proof (reading_onward w w' Hs Hon). split_and!; try done. lia.
Qed.
End renotification.

(** ** The pass *)

Definition generation_in (d : DB) (id : uuid) : Z :=
  match jobs d !! id with Some j => j_notification_generation j | None => 0 end.

(** The rows the two scans select. *)
Definition due_batch (w : World) (limit : Z) : list (uuid * Job) :=
  take (Z.to_nat limit) (map_select (due_job (timestamptz (clock w (reads w)))) job_due_order (jobs (db w))).
Definition stranded_batch (w : World) (after : duration) (limit : Z) : list (uuid * Job) :=
  take (Z.to_nat limit)
    (map_select (stranded_job (timestamptz (clock w (reads w))) after) job_stranded_order (jobs (db w))).

Lemma batch_NoDup {K V} `{Countable K} (m : gmap K V) f le n : NoDup (take n (map_select f le m)).*1.
Proof. eapply sublist_NoDup; [apply (map_select_NoDup f le m)|]. rewrite fmap_take. apply sublist_take. Qed.

Lemma batch_elem {K V} `{Countable K} (m : gmap K V) f le n k :
  k ∈ (take n (map_select f le m)).*1 → ∃ v, m !! k = Some v ∧ f k v = true.
Proof.
  intros ([k' v] & -> & Hin)%list_elem_of_fmap. exists v. apply (map_select_elem f le m).
  eapply elem_of_sublist; [exact Hin|]. apply sublist_take.
Qed.

Lemma ready_scan w : ready w → ready (w <| reads := S (reads w) |>).
Proof.
  intros [Hi Hp Hs]. assert (onward w (w <| reads := S (reads w) |>)) as Ho by (split; simpl; auto).
  split; [done|by eapply plenty_same|by eapply steady_onward].
Qed.

Lemma promoted_count bs s :
  Forall (λ b, b = true) bs →
  fold_left (λ s b, SchedulerStats_Add s (if (b : bool) then mkSchedulerStats 1 0 0 else mkSchedulerStats 0 0 1)) bs s =
  mkSchedulerStats (PromotedJobs s + length bs) (Renotified s) (SchedulerSkipped s).
Proof.
  intros Hb. revert s. induction Hb as [|b bs -> _ IH]; intros s; simpl.
  - destruct s; simpl. by rewrite Nat.add_0_r.
  - rewrite IH. unfold SchedulerStats_Add. simpl. f_equal; lia.
Qed.

Lemma PromoteDueJobs_all limit w :
  ready w → (1 ≤ limit)%Z →
  ∃ w', PromoteDueJobs limit w = (Ok (mkSchedulerStats (length (due_batch w limit)) 0 0), w') ∧ ready w' ∧
    ∀ id, id ∈ (due_batch w limit).*1 → promoted (generation_in (db w)) (db w') id.
Proof.
  intros Hr Hl. unfold PromoteDueJobs. rewrite (proj2 (Z.ltb_ge _ _)) by done.
  do 2 erewrite bind_run by reflexivity. simpl.
  set (w1 := w <| reads := S (reads w) |>). fold (due_batch w limit).
  destruct (sweep_all promoteDueJob
    (λ b, if b then mkSchedulerStats 1 0 0 else mkSchedulerStats 0 0 1) (λ b, b = true) ready
    (due (generation_in (db w))) (λ w', promoted (generation_in (db w)) (db w'))
    (promote_step (generation_in (db w))) (due_batch w limit) [] SchedulerStats_zero w1)
    as (bs & w' & Hrun & Hlen & HB & Hr' & HQ).
  - apply batch_NoDup.
  - by apply ready_scan.
  - intros id (j & Hj & Hd)%batch_elem. unfold due_job in Hd. bools. exists j. unfold generation_in. simpl.
    rewrite Hj. split_and!; try done. pose proof (rd_steady _ Hr) as Hs.
    assert (onward w w1) as Ho by (split; simpl; auto). pose proof (reading_onward _ _ Hs Ho). simpl in *. lia.
  - intros id Hin. by apply not_elem_of_nil in Hin.
  - exists w'. rewrite promoted_count in Hrun by done. simpl in Hrun. rewrite Hlen in Hrun.
    split_and!; [exact Hrun|done|auto].
Qed.

Lemma renotified_count bs s :
  let s' := fold_left (λ s b, SchedulerStats_Add s
    (if (b : bool) then mkSchedulerStats 0 1 0 else mkSchedulerStats 0 0 1)) bs s in
  PromotedJobs s' = PromotedJobs s ∧
  (Renotified s' + SchedulerSkipped s' = Renotified s + SchedulerSkipped s + length bs)%nat.
Proof.
  revert s. induction bs as [|b bs IH]; intros s; simpl; [lia|].
  destruct (IH (SchedulerStats_Add s (if b then mkSchedulerStats 0 1 0 else mkSchedulerStats 0 0 1))) as [-> ->].
  destruct b; unfold SchedulerStats_Add; simpl; lia.
Qed.

Lemma RenotifyStrandedQueued_all gen (batch : list uuid) after limit w :
  ready w → (∀ id, id ∈ batch → promoted gen (db w) id) →
  (1 ≤ limit)%Z → (0 < after)%Z → (after mod 1000 = 0)%Z →
  ∃ s w', RenotifyStrandedQueued after limit w = (Ok s, w') ∧ ready w' ∧ PromotedJobs s = 0%nat ∧
    (Renotified s + SchedulerSkipped s = length (stranded_batch w after limit))%nat ∧
    (∀ id, id ∈ batch → promoted gen (db w') id) ∧
    ∀ id, id ∈ (stranded_batch w after limit).*1 → waiting (db w') id.
Proof.
  intros Hr Hp Hl Ha Hm. unfold RenotifyStrandedQueued.
  rewrite (proj2 (Z.leb_gt _ _)), (proj2 (Z.ltb_ge _ _)) by done.
  do 2 erewrite bind_run by reflexivity. simpl.
  set (w1 := w <| reads := S (reads w) |>). fold (stranded_batch w after limit).
  destruct (sweep_all (λ id, renotifyStrandedJob id after)
    (λ b, if b then mkSchedulerStats 0 1 0 else mkSchedulerStats 0 0 1) (λ _, True)
    (λ w', ready w' ∧ ∀ id, id ∈ batch → promoted gen (db w') id) (overdue after) (λ w', waiting (db w'))
    (renotify_step after gen batch) (stranded_batch w after limit) [] SchedulerStats_zero w1)
    as (bs & w' & Hrun & Hlen & _ & [Hr' Hp'] & HQ).
  - apply batch_NoDup.
  - split; [by apply ready_scan|done].
  - intros id (j & Hj & Hd)%batch_elem. unfold stranded_job in Hd. bools.
    destruct (j_last_notification_at j) as [t|] eqn:Ht; [|done]. bools. exists j, t. split_and!; try done.
    assert (make_interval after = after) as Hmi.
    { unfold make_interval. apply Z.div_exact in Hm; [|done].
      replace (after + 500)%Z with (500 + after / 1000 * 1000)%Z by lia. rewrite Z.div_add by done.
      change (500 / 1000)%Z with 0%Z. lia. }
    pose proof (rd_steady _ Hr) as Hs. assert (onward w w1) as Ho by (split; simpl; auto).
    pose proof (reading_onward _ _ Hs Ho). simpl in *. lia.
  - intros id Hin. by apply not_elem_of_nil in Hin.
  - eexists _, w'. split; [exact Hrun|]. destruct (renotified_count bs SchedulerStats_zero) as [H1 H2].
    split_and!; [done|exact H1|by rewrite H2, Hlen|done|auto].
Qed.

(** A pass of the scheduler leaves no due job behind.  With ids that do not collide
    and a clock that does not run backwards, a pass ends without an error and keeps the
    invariant; it promotes every due job its scan selected, the oldest first and all of
    them when they are no more than the batch, so that each is QUEUED one generation
    further with a notification waiting; and every stranded job its second scan selected
    has a notification of its generation waiting. *)
Theorem scheduler_pass_completes cfg w :
  ready w → (1 ≤ sd_batch_size cfg)%Z → (0 < sd_renotify_after cfg)%Z → (sd_renotify_after cfg mod 1000 = 0)%Z →
  ∃ stats w1 w', scheduler_RunOnce cfg w = (Ok stats, w') ∧ ready w' ∧
    PromotedJobs stats = length (due_batch w (sd_batch_size cfg)) ∧
    (∀ id, id ∈ (due_batch w (sd_batch_size cfg)).*1 → promoted (generation_in (db w)) (db w') id) ∧
    PromoteDueJobs (sd_batch_size cfg) w = (Ok (mkSchedulerStats (PromotedJobs stats) 0 0), w1) ∧
    (∀ id, id ∈ (stranded_batch w1 (sd_renotify_after cfg) (sd_batch_size cfg)).*1 → waiting (db w') id) ∧
    (Renotified stats + SchedulerSkipped stats =
       length (stranded_batch w1 (sd_renotify_after cfg) (sd_batch_size cfg)))%nat.
Proof.
  intros Hr Hl Ha Hm. destruct (PromoteDueJobs_all (sd_batch_size cfg) w Hr Hl) as (w1 & Hrun1 & Hr1 & Hp1).
  destruct (RenotifyStrandedQueued_all (generation_in (db w)) _ (sd_renotify_after cfg) (sd_batch_size cfg) w1
    Hr1 Hp1 Hl Ha Hm) as (s2 & w2 & Hrun2 & Hr2 & Hz & Hc & Hp2 & Hw2).
  eexists _, w1, w2. split.
  { unfold scheduler_RunOnce. erewrite bind_run by exact Hrun1. erewrite bind_run by exact Hrun2. reflexivity. }
  simpl. rewrite Hz, Nat.add_0_r. split_and!; try done.
Qed.

(** ** The loops *)

Lemma scheduler_RunOnce_steps cfg : effects steps (scheduler_RunOnce cfg).
Proof.
  unfold scheduler_RunOnce. apply effects_bind; [apply _|apply PromoteDueJobs_steps|intros].
  apply effects_bind; [apply _|apply RenotifyStrandedQueued_steps|intros]. apply effects_ret, _.
Qed.

Lemma reconciler_RunOnce_steps store cfg : effects steps (reconciler_RunOnce store cfg).
Proof.
  unfold reconciler_RunOnce. apply effects_bind; [apply _|apply MarkStaleSessions_steps|intros].
  apply effects_bind; [apply _|apply ReconcileDueTimeouts_steps|intros].
  apply effects_bind; [apply _|apply ReconcileExpiredLeases_steps|intros]. apply effects_ret, _.
Qed.

(** Whatever its passes meet, the loop of a service takes the database through steps of
    the system; [tn_others] are the other processes, which do the same. *)
Theorem service_Run_steps {A} (pass : Tx A) turns w :
  effects steps pass → Forall (λ t, ∀ v, steps (db v) (db (tn_others t v))) turns →
  steps (db w) (db (service_Run pass turns w).1).
Proof.
  intros Hp Ht. revert w. induction Ht as [|t turns Ho _ IH]; intros w; simpl; [done|].
  etrans; [apply Ho|]. destruct (tn_done t); [done|].
  destruct (pass (tn_others t w)) as [[a|e] w'] eqn:Hrun; (etrans; [by eapply Hp|]); [apply IH|].
  by destruct (tn_over t).
Qed.

(** ** A pass over a retried job *)

Lemma sc_world_ready calls start base :
  map_any (λ k _, (base <=? k)%N) (outbox_events (at_end calls)) = false →
  map_any (λ k _, (base <=? k)%N) (dlq_entries (at_end calls)) = false →
  ready (sc_world (at_end calls) start base).
Proof.
  rewrite !map_any_false. intros He Hd. split.
  - apply at_end_Inv.
  - split; simpl.
    + intros n _. destruct (outbox_events (at_end calls) !! (base + N.of_nat n)%N) eqn:Hk; [|done].
      apply He in Hk. apply N.leb_gt in Hk. lia.
    + intros n _. destruct (dlq_entries (at_end calls) !! (base + N.of_nat n)%N) eqn:Hk; [|done].
      apply Hd in Hk. apply N.leb_gt in Hk. lia.
    + lia.
    + eauto.
  - intros n m Hnm. simpl. unfold Second. lia.
Qed.

Lemma scheduler_pass_completes_witness :
  let cfg := mkSchedulerConfig 50 (60 * Second) in
  let w := sc_world (at_end sc_failed) (sec 1050) 550 in
  (due_batch w 50).*1 = [100%N] ∧
  ∃ stats w', scheduler_RunOnce cfg w = (Ok stats, w') ∧ PromotedJobs stats = 1%nat ∧
    promoted (λ _, 1%Z) (db w') 100.
Proof.
  intros cfg w. assert ((due_batch w 50).*1 = [100%N]) as Hb by (vm_compute; reflexivity).
  split; [exact Hb|].
  destruct (scheduler_pass_completes cfg w) as (stats & w1 & w' & Hrun & _ & Hc & Hp & _).
  - apply sc_world_ready; vm_compute; reflexivity.
  - done.
  - done.
  - done.
  - change (sd_batch_size cfg) with 50%Z in Hc, Hp. exists stats, w'. split_and!; [exact Hrun| |].
    + rewrite Hc, <-(length_fmap fst). by rewrite Hb.
    + assert (generation_in (db w) 100%N = 1%Z) as Hg by (vm_compute; reflexivity).
      destruct (Hp 100%N) as (j & Hj & Hs & Hgj & Hn); [rewrite Hb; left|].
      rewrite Hg in Hgj, Hn. exists j. split; [exact Hj|]. split; [exact Hs|]. split; [exact Hgj|exact Hn].
Defined.
