(* ===== verification/CanonicalTheorems.v ===== *)
(** * Canonical JSON is canonical

    Reading what [writeCanonical] wrote gives the value back with its keys
    sorted, so a canonical document is its own canonical form, and two documents
    have one canonical form exactly when they are one value up to the order of
    their keys. *)

From S2P Require Import Prelude.
From S2P Require Import GoText.
From S2P Require Import GoJson.
From S2P Require Import Canonical.
From S2P Require Import GoBytes.

Local Open Scope string_scope.
#[local] Ltac Zify.zify_post_hook ::= Z.to_euclidean_division_equations.

(** ** String literals *)

Lemma hex_value_lower n : (n < 16)%N → hex_value (hex_lower n) = Some n.
Proof.
  intros Hn. unfold hex_value, hex_lower, between.
  destruct (n <? 10)%N eqn:H; [apply N.ltb_lt in H|apply N.ltb_ge in H];
    rewrite code_ascii by lia; nbool; simpl; f_equal; lia.
Qed.

Lemma ascii_ne c n : code c ≠ n → (n < 256)%N → Ascii.eqb c (ascii_of_N n) = false.
Proof. intros H Hn. apply Ascii.eqb_neq. intros ->. by rewrite code_ascii in H. Qed.

Lemma escape_short c r : next_item (String bs (String c r)) = escape_item (String c r).
Proof. done. Qed.

(** A rune written without an escape is read as itself. *)
Lemma next_item_raw r t :
  scalar r → r ≠ 34%N → r ≠ 92%N → (32 ≤ r)%N → next_item (encode_rune r ++ t) = ItemRune r t.
Proof.
  intros Hr H1 H2 H3. destruct (encode_cons r) as (c & s & He).
  assert (code c = r ∨ 128 ≤ code c)%N as Hc.
  { unfold encode_rune in He. unfold scalar in Hr.
    repeat case_match; injection He as <- _; bools;
      repeat match goal with
      | H : (_ <? _)%N = true |- _ => apply N.ltb_lt in H
      | H : (_ <? _)%N = false |- _ => apply N.ltb_ge in H end;
      rewrite code_ascii by lia; lia. }
  assert (next_item (encode_rune r ++ t) =
    let '(u, n) := decode_rune (encode_rune r ++ t) in
    ItemRune u (drop_string n (encode_rune r ++ t))) as ->.
  { rewrite He, append_cons. unfold next_item, dq.
    rewrite (ascii_ne c 34) by lia. change bs with (ascii_of_N 92). rewrite (ascii_ne c 92) by lia.
    rewrite (proj2 (N.ltb_ge _ _)) by lia. done. }
  rewrite decode_encode by done. by rewrite (proj2 (take_drop_append _ _)).
Qed.

Lemma escape_item_u a b c d t x :
  scan_hex4 (String a (String b (String c (String d t)))) = Some (x, t) → is_surrogate x = false →
  escape_item (String "u" (String a (String b (String c (String d t))))) = ItemRune x t.
Proof. intros Hx Hs. unfold escape_item. simpl (code "u"). rewrite Hx, Hs. done. Qed.

(** Every written rune is read back. *)
Lemma next_item_escape h r t :
  scalar r → next_item (escape_rune h (r, encode_rune r) ++ t) = ItemRune r t.
Proof.
  intros Hr. unfold escape_rune.
  destruct (r <? 128)%N eqn:Hlt; [apply N.ltb_lt in Hlt|apply N.ltb_ge in Hlt].
  - destruct ((r =? 92) || (r =? 34))%N eqn:H1.
    { apply orb_true_iff in H1 as [->%N.eqb_eq| ->%N.eqb_eq]; done. }
    apply orb_false_iff in H1 as [?%N.eqb_neq ?%N.eqb_neq].
    destruct (r =? 8)%N eqn:E1; [by apply N.eqb_eq in E1 as ->|].
    destruct (r =? 12)%N eqn:E2; [by apply N.eqb_eq in E2 as ->|].
    destruct (r =? 10)%N eqn:E3; [by apply N.eqb_eq in E3 as ->|].
    destruct (r =? 13)%N eqn:E4; [by apply N.eqb_eq in E4 as ->|].
    destruct (r =? 9)%N eqn:E5; [by apply N.eqb_eq in E5 as ->|].
    destruct (_ || _) eqn:H2; [clear H2|apply orb_false_iff in H2 as [H2%N.ltb_ge _]; by apply next_item_raw].
    rewrite !append_cons, append_nil, escape_short. apply escape_item_u.
    + unfold scan_hex4. rewrite !hex_value_lower by lia. simpl. do 2 f_equal. lia.
    + unfold is_surrogate. nbool. done.
  - assert ((r =? RuneError)%N && (String.length (encode_rune r) =? 1)%nat = false) as ->.
    { unfold encode_rune. nbool. repeat case_match; simpl; by rewrite andb_false_r. }
    destruct ((r =? 8232) || (r =? 8233))%N eqn:H1.
    { apply orb_true_iff in H1 as [->%N.eqb_eq| ->%N.eqb_eq]; done. }
    apply next_item_raw; [done|lia..].
Qed.

Definition body (h : bool) (rs : list N) : string :=
  String.concat "" (map (λ r, escape_rune h (r, encode_rune r)) rs).

Lemma body_cons h r rs : body h (r :: rs) = escape_rune h (r, encode_rune r) ++ body h rs.
Proof. apply concat_empty_cons. Qed.

Lemma escape_rune_length h r : (1 ≤ String.length (escape_rune h (r, encode_rune r)))%nat.
Proof.
  unfold escape_rune. destruct (encode_cons r) as (c & s & ->).
  repeat case_match; rewrite ?append_cons; cbn [String.length]; lia.
Qed.

Lemma scan_string_body h rs t fuel :
  Forall scalar rs → (length rs < fuel)%nat →
  scan_string fuel (body h rs ++ String dq t) = Some (encode_runes rs, t).
Proof.
  intros Hrs. revert fuel. induction Hrs as [|r rs Hr Hrs IH]; intros [|fuel] Hf; simpl in Hf; [lia| |lia|].
  { done. }
  rewrite body_cons, append_assoc_str. cbn [scan_string]. rewrite next_item_escape by done.
  rewrite IH by lia. simpl. by rewrite encode_runes_cons.
Qed.

Lemma body_length h rs : (length rs ≤ String.length (body h rs))%nat.
Proof.
  induction rs as [|r rs IH]; [done|]. rewrite body_cons, length_append.
  pose proof (escape_rune_length h r). cbn [length]. lia.
Qed.

Lemma append_string_body h rs :
  Forall scalar rs → append_string h (encode_runes rs) = String dq (body h rs ++ String dq "").
Proof. intros Hrs. unfold append_string, body. by rewrite segments_encode, map_map. Qed.

Lemma trim_quoted s : TrimRight_newline ((s ++ String dq "") ++ String newline "") = s ++ String dq "".
Proof.
  induction s as [|c s IH]; [done|]. rewrite !append_cons. cbn [TrimRight_newline]. rewrite IH.
  by destruct s.
Qed.

Lemma writeCanonicalString_append s : writeCanonicalString s = append_string false s.
Proof. unfold writeCanonicalString, append_string. rewrite <-append_cons. apply trim_quoted. Qed.

(** A written string literal is read as the string. *)
Lemma json_string_appended h s t :
  utf8_valid s → ∃ r, append_string h s ++ t = String dq r ∧ json_string r = Some (s, t).
Proof.
  intros (rs & Hrs & ->). rewrite append_string_body by done.
  eexists. split; [by rewrite append_cons|]. unfold json_string.
  rewrite append_assoc_str, append_cons, append_nil. apply scan_string_body; [done|].
  rewrite length_append. pose proof (body_length h rs). simpl. lia.
Qed.

Lemma json_string_written s t :
  utf8_valid s → ∃ r, writeCanonicalString s ++ t = String dq r ∧ json_string r = Some (s, t).
Proof. rewrite writeCanonicalString_append. apply json_string_appended. Qed.

(** Everything a literal can denote is a scalar value. *)
Lemma hex_value_bound c n : hex_value c = Some n → (n < 16)%N.
Proof.
  unfold hex_value. repeat case_match; intros [= <-];
    repeat match goal with H : between _ _ _ = true |- _ => apply between_spec in H end; lia.
Qed.

Lemma scan_hex4_bound s u r : scan_hex4 s = Some (u, r) → (u < 65536)%N.
Proof.
  unfold scan_hex4. intros H. do 4 (destruct s as [|? s]; [done|]).
  simplify_option_eq. repeat match goal with H : hex_value _ = Some _ |- _ =>
    apply hex_value_bound in H end. lia.
Qed.

Lemma pair_scalar u v d : utf16_DecodeRune u v = Some d → scalar d.
Proof.
  unfold utf16_DecodeRune. case_match eqn:H; intros [= <-]. bools.
  repeat match goal with
  | H : (_ <? _)%N = true |- _ => apply N.ltb_lt in H
  | H : (_ <=? _)%N = true |- _ => apply N.leb_le in H end.
  unfold scalar. lia.
Qed.

Lemma next_item_scalar s u r : next_item s = ItemRune u r → scalar u.
Proof.
  unfold next_item, escape_item. intros H.
  repeat case_match; simplify_eq; try (left; done).
  all: try (right; done).
  - left. bools. repeat match goal with
    | H : _ || _ = true |- _ => apply orb_true_iff in H as [H|H] end;
      match goal with H : (code _ =? _)%N = true |- _ => apply N.eqb_eq in H; rewrite H; done end.
  - by eapply pair_scalar.
  - match goal with H : scan_hex4 _ = Some _ |- _ => apply scan_hex4_bound in H end.
    match goal with H : is_surrogate _ = false |- _ => unfold is_surrogate in H;
      apply andb_false_iff in H as [?%N.leb_gt|?%N.ltb_ge] end; unfold scalar; lia.
  - match goal with H : decode_rune ?s = _ |- _ => pose proof (decode_scalar s); by rewrite H in * end.
Qed.

Lemma scan_string_valid fuel s t r : scan_string fuel s = Some (t, r) → utf8_valid t.
Proof.
  revert s t. induction fuel as [|fuel IH]; intros s t H; simpl in H; [done|].
  destruct (next_item s) as [r'|u r'|] eqn:Hn; [|simplify_option_eq|done].
  { injection H as <- <-. by exists []. }
  destruct (scan_string fuel r') as [[t' r'']|] eqn:Ht; [|done]. simplify_eq/=.
  apply IH in Ht as (rs & Hrs & ->). exists (u :: rs). split.
  - constructor; [by eapply next_item_scalar|done].
  - by rewrite encode_runes_cons.
Qed.

(** ** Numbers *)

(** What may follow a number without changing it. *)
Definition number_ends (t : string) : Prop :=
  match t with
  | "" => True
  | String c _ => is_digit c = false ∧ c ≠ "."%char ∧ is_exp c = false
  end.

Lemma digits_again s d r : digits s = (d, r) → ∀ t,
  match t with String c _ => is_digit c = false | "" => True end → digits (d ++ t) = (d, t).
Proof.
  revert d r. induction s as [|c s IH]; intros d r H t Ht; simpl in H.
  { simplify_eq. destruct t; [done|]. simpl. by rewrite Ht. }
  destruct (is_digit c) eqn:Hc.
  - destruct (digits s) as [d' r'] eqn:Hs. simplify_eq. rewrite append_cons. simpl.
    by rewrite Hc, (IH d' r).
  - simplify_eq. destruct t; [done|]. simpl. by rewrite Ht.
Qed.

Lemma digits1_again s d r t : digits1 s = Some (d, r) →
  match t with String c _ => is_digit c = false | "" => True end → digits1 (d ++ t) = Some (d, t).
Proof.
  unfold digits1. intros H Ht. destruct (digits s) as [[|c d'] r'] eqn:Hs; [done|].
  simplify_eq. by rewrite (digits_again _ _ _ Hs).
Qed.

Lemma digits1_head s d r : digits1 s = Some (d, r) → ∃ c d', d = String c d' ∧ is_digit c = true.
Proof.
  unfold digits1. destruct s as [|c s]; [done|]. simpl. destruct (is_digit c) eqn:Hc; [|done].
  destruct (digits s). intros. simplify_eq. eauto.
Qed.

Lemma scan_exponent_again s e r t : scan_exponent s = Some (e, r) → number_ends t →
  scan_exponent (e ++ t) = Some (e, t).
Proof.
  intros H Ht. unfold scan_exponent in H. destruct s as [|c s].
  { simplify_eq. destruct t; [done|]. simpl. by destruct Ht as (_ & _ & ->). }
  destruct (is_exp c) eqn:Hc.
  2:{ simplify_eq. destruct t; [done|]. simpl. by destruct Ht as (_ & _ & ->). }
  assert (match t with String c _ => is_digit c = false | "" => True end) as Htd
    by (destruct t; [done|apply Ht]).
  destruct s as [|g s]; [done|]. destruct (is_sign g) eqn:Hg.
  - destruct (digits1 s) as [[d r']|] eqn:Hd; simplify_eq/=.
    rewrite Hc, Hg. by rewrite (digits1_again _ _ _ t Hd Htd).
  - destruct (digits1 (String g s)) as [[d r']|] eqn:Hd; simplify_eq/=.
    rewrite Hc. destruct (digits1_head _ _ _ Hd) as (c' & d' & -> & Hd').
    rewrite append_cons. cbn [is_sign].
    assert (is_sign c' = false) as ->.
    { unfold is_digit in Hd'. apply between_spec in Hd'. unfold is_sign. nbool. done. }
    rewrite <-append_cons. by rewrite (digits1_again _ _ _ t Hd Htd).
Qed.

(** What may follow an integer part, and a fraction. *)
Definition not_digit (t : string) : Prop :=
  match t with "" => True | String c _ => is_digit c = false end.
Definition fraction_ends (t : string) : Prop :=
  match t with "" => True | String c _ => is_digit c = false ∧ c ≠ "."%char end.

Lemma is_exp_not_digit c : is_exp c = true → is_digit c = false ∧ c ≠ "."%char.
Proof.
  unfold is_exp, is_digit, between. intros H. split; [|by intros ->].
  apply orb_true_iff in H as [H%N.eqb_eq|H%N.eqb_eq]; rewrite H; done.
Qed.

Lemma exponent_follows s e r t : scan_exponent s = Some (e, r) → number_ends t → fraction_ends (e ++ t).
Proof.
  intros H Ht. destruct e as [|c e].
  { destruct t; [done|]. by destruct Ht as (? & ? & _). }
  unfold scan_exponent in H. destruct s as [|c' s]; [done|]. destruct (is_exp c') eqn:Hc; [|done].
  enough (c = c') as -> by by apply is_exp_not_digit.
  destruct s as [|g s]; [done|]. destruct (is_sign g).
  - destruct (digits1 s) as [[]|]; by simplify_eq/=.
  - destruct (digits1 (String g s)) as [[]|]; by simplify_eq/=.
Qed.

Lemma scan_fraction_again s f r t : scan_fraction s = Some (f, r) → fraction_ends t →
  scan_fraction (f ++ t) = Some (f, t) ∧ not_digit (f ++ t).
Proof.
  intros H Ht.
  assert (f = "" ∨ ∃ s' d, s = String "." s' ∧ digits1 s' = Some (d, r) ∧ f = String "." d) as [->|Hf].
  { unfold scan_fraction in H. destruct s as [|c s']; [left; congruence|].
    destruct (Ascii.eqb c ".") eqn:Hc.
    - apply Ascii.eqb_eq in Hc as ->. right. destruct (digits1 s') as [[d r']|] eqn:Hd; simplify_eq/=.
      by exists s', d.
    - left. destruct c as [[] [] [] [] [] [] [] []]; simpl in *; congruence. }
  - destruct t as [|c t]; [done|]. destruct Ht as [Hd Hc]. split; [|done].
    rewrite append_nil. unfold scan_fraction.
    destruct c as [[] [] [] [] [] [] [] []]; done.
  - destruct Hf as (s' & d & -> & Hd & ->). split; [|done]. rewrite append_cons.
    unfold scan_fraction. rewrite (digits1_again _ _ _ t Hd); [done|].
    destruct t; [done|]. by destruct Ht.
Qed.

Lemma scan_integer_again s i r t : scan_integer s = Some (i, r) → not_digit t →
  scan_integer (i ++ t) = Some (i, t).
Proof.
  intros H Ht. unfold scan_integer in H. destruct s as [|c s]; [done|].
  destruct (Ascii.eqb c "0") eqn:Hc; [by simplify_eq|].
  pose proof (digits1_again _ _ _ t H Ht) as Ha.
  assert (∃ i', i = String c i') as [i' ->].
  { unfold digits1 in H. simpl in H. destruct (is_digit c); [|done].
    destruct (digits s). simplify_eq. eauto. }
  rewrite append_cons in *. unfold scan_integer. by rewrite Hc.
Qed.

Lemma scan_integer_head s i r : scan_integer s = Some (i, r) → ∃ c i', i = String c i' ∧ is_digit c = true.
Proof.
  unfold scan_integer. destruct s as [|c s]; [done|]. case_match.
  - intros [= <- _]. by eexists _, _.
  - apply digits1_head.
Qed.

Lemma scan_unsigned_again s u r t : scan_unsigned s = Some (u, r) → number_ends t →
  scan_unsigned (u ++ t) = Some (u, t) ∧ ∃ c u', u = String c u' ∧ is_digit c = true.
Proof.
  unfold scan_unsigned. intros H Ht.
  destruct (scan_integer s) as [[i r1]|] eqn:Hi; [|done]. simpl in H.
  destruct (scan_fraction r1) as [[f r2]|] eqn:Hf; [|done]. simpl in H.
  destruct (scan_exponent r2) as [[e r3]|] eqn:He; [|done]. simplify_eq/=.
  destruct (scan_fraction_again _ _ _ _ Hf (exponent_follows _ _ _ _ He Ht)) as [Hf' Hn].
  rewrite !append_assoc_str, (scan_integer_again _ _ _ _ Hi Hn). simpl. rewrite Hf'. simpl.
  rewrite (scan_exponent_again _ _ _ _ He Ht). split; [done|].
  destruct (scan_integer_head _ _ _ Hi) as (c & i' & -> & Hc). rewrite append_cons. eauto.
Qed.

(** The literal of a number is read again, whatever delimiter follows. *)
Lemma scan_number_again s n r : scan_number s = Some (n, r) → ∀ t, number_ends t →
  scan_number (n ++ t) = Some (n, t) ∧
  ∃ c n', n = String c n' ∧ (is_digit c = true ∨ c = "-"%char).
Proof.
  intros H t Ht.
  assert ((∃ s' u, scan_unsigned s' = Some (u, r) ∧ n = String "-" u) ∨ scan_unsigned s = Some (n, r))
    as [(s' & u & Hu & ->)|Hu].
  { unfold scan_number in H. destruct s as [|c s']; [by right|].
    destruct (Ascii.eqb c "-") eqn:Hc.
    - apply Ascii.eqb_eq in Hc as ->. left. destruct (scan_unsigned s') as [[u r']|] eqn:Hu; simplify_eq/=.
      by eexists _, _.
    - right. destruct c as [[] [] [] [] [] [] [] []]; done. }
  - destruct (scan_unsigned_again _ _ _ _ Hu Ht) as [Ha _]. rewrite append_cons.
    unfold scan_number. rewrite Ha. split; [done|]. eauto.
  - destruct (scan_unsigned_again _ _ _ _ Hu Ht) as [Ha (c & u' & -> & Hc)].
    split; [|by eauto]. rewrite append_cons in *. unfold scan_number.
    destruct c as [[] [] [] [] [] [] [] []]; done.
Qed.

(** ** Values *)

Section json_induction.
Context (P : json → Prop) (Hnull : P JNull) (Hbool : ∀ b, P (JBool b)) (Hnum : ∀ n, P (JNumber n))
  (Hstr : ∀ s, P (JString s)) (Harr : ∀ vs, Forall P vs → P (JArray vs))
  (Hobj : ∀ m, Forall (λ kv, P kv.2) m → P (JObject m)).

Fixpoint json_strong_ind (v : json) : P v :=
  match v with
  | JNull => Hnull
  | JBool b => Hbool b
  | JNumber n => Hnum n
  | JString s => Hstr s
  | JArray vs => Harr vs ((fix go l : Forall P l :=
      match l with
      | [] => @List.Forall_nil _ P
      | x :: l' => @List.Forall_cons _ P x l' (json_strong_ind x) (go l')
      end) vs)
  | JObject m => Hobj m ((fix go l : Forall (λ kv, P kv.2) l :=
      match l with
      | [] => @List.Forall_nil _ (λ kv, P kv.2)
      | kv :: l' => @List.Forall_cons _ (λ kv, P kv.2) kv l' (json_strong_ind kv.2) (go l')
      end) m)
  end.
End json_induction.

(** Keys sorted at every level: what two documents must share to be the same
    value. *)
Fixpoint sort_keys (v : json) : json :=
  match v with
  | JArray items => JArray (map sort_keys items)
  | JObject members => JObject (sort_members (map (λ kv, (kv.1, sort_keys kv.2)) members))
  | _ => v
  end.

(** The values the reader can produce with [room] levels of nesting left. *)
Fixpoint readable (room : Z) (v : json) : Prop :=
  match v with
  | JNumber n => ∃ s r, scan_number s = Some (n, r)
  | JString s => utf8_valid s
  | JArray items =>
    (0 < room)%Z ∧ foldr (λ x P, readable (room - 1) x ∧ P) True items
  | JObject members =>
    (0 < room)%Z ∧ NoDup (map fst members) ∧
    foldr (λ kx P, (utf8_valid kx.1 ∧ readable (room - 1) kx.2) ∧ P) True members
  | _ => True
  end.

Lemma foldr_Forall {A} (Q : A → Prop) l : foldr (λ x P, Q x ∧ P) True l ↔ Forall Q l.
Proof. induction l as [|x l IH]; simpl; [by rewrite Forall_nil|]. by rewrite IH, Forall_cons. Qed.

Lemma readable_array room vs :
  readable room (JArray vs) ↔ (0 < room)%Z ∧ Forall (readable (room - 1)) vs.
Proof. simpl. by rewrite foldr_Forall. Qed.

Lemma readable_object room m :
  readable room (JObject m) ↔ (0 < room)%Z ∧ NoDup (map fst m) ∧
    Forall (λ kx, utf8_valid kx.1 ∧ readable (room - 1) kx.2) m.
Proof. simpl. by rewrite (foldr_Forall (λ kx, utf8_valid kx.1 ∧ readable (room - 1) kx.2)). Qed.

Lemma map_put_keys k v m x : x ∈ map fst (map_put k v m) ↔ x = k ∨ x ∈ map fst m.
Proof.
  induction m as [|[k' v'] m IH]; simpl; [by rewrite list_elem_of_singleton, elem_of_nil; naive_solver|].
  destruct (String.eqb k k') eqn:E; simpl; rewrite !elem_of_cons, ?IH; [|naive_solver].
  apply String.eqb_eq in E as ->. naive_solver.
Qed.

Lemma map_put_NoDup k v m : NoDup (map fst m) → NoDup (map fst (map_put k v m)).
Proof.
  induction m as [|[k' v'] m IH]; simpl; intros H; [apply NoDup_singleton|].
  inversion_clear H as [|? ? Hk Hm].
  destruct (String.eqb k k') eqn:E; simpl.
  - apply String.eqb_eq in E as ->. by constructor.
  - constructor; [|by apply IH]. rewrite map_put_keys. intros [->|?]; [|done].
    by rewrite String.eqb_refl in E.
Qed.

Lemma map_put_Forall (Q : string * json → Prop) k v m : Q (k, v) → Forall Q m → Forall Q (map_put k v m).
Proof.
  intros Hk. induction 1 as [|[k' v'] m Hx Hm IH]; simpl; [by constructor|].
  destruct (String.eqb k k'); by constructor.
Qed.

Lemma map_put_new k v m : k ∉ map fst m → map_put k v m = (m ++ [(k, v)])%list.
Proof.
  induction m as [|[k' v'] m IH]; simpl; intros Hk; [done|].
  rewrite elem_of_cons in Hk.
  destruct (String.eqb k k') eqn:E; [apply String.eqb_eq in E; naive_solver|].
  by rewrite IH by naive_solver.
Qed.

(** The reader produces readable values. *)
Lemma parse_readable fuel :
  (∀ room s v r, parse_value fuel room s = Some (v, r) → readable room v) ∧
  (∀ room s vs r, parse_items fuel room s = Some (vs, r) → Forall (readable room) vs) ∧
  (∀ room m s m' r, parse_members fuel room m s = Some (m', r) →
     NoDup (map fst m) → Forall (λ kx, utf8_valid kx.1 ∧ readable room kx.2) m →
     NoDup (map fst m') ∧ Forall (λ kx, utf8_valid kx.1 ∧ readable room kx.2) m').
Proof.
  induction fuel as [|f (IHv & IHi & IHm)]; [done|]. split_and!.
  - intros room s v r H. cbn [parse_value] in H.
    destruct (skip_space s) as [|c t]; [done|].
    destruct (Ascii.eqb c "{").
    { destruct (room <=? 0)%Z eqn:Hr; [done|]. bools.
      destruct (skip_space t) as [|c' r']; [done|]. destruct (Ascii.eqb c' "}"); simplify_eq.
      { apply readable_object. split_and!; [lia|constructor..]. }
      destruct (parse_members f (room - 1) [] t) as [[m r'']|] eqn:Hm; [|done]. simpl in H.
      simplify_eq. apply readable_object. split; [lia|]. apply IHm in Hm as []; [done|constructor..]. }
    destruct (Ascii.eqb c "[").
    { destruct (room <=? 0)%Z eqn:Hr; [done|]. bools.
      destruct (skip_space t) as [|c' r']; [done|]. destruct (Ascii.eqb c' "]"); simplify_eq.
      { apply readable_array. split; [lia|constructor]. }
      destruct (parse_items f (room - 1) t) as [[vs r'']|] eqn:Hi; [|done]. simpl in H.
      simplify_eq. apply readable_array. split; [lia|]. by eapply IHi. }
    destruct (Ascii.eqb c dq).
    { destruct (json_string t) as [[u r']|] eqn:Hu; simplify_eq/=. by eapply scan_string_valid. }
    destruct (Ascii.eqb c "t"); [destruct (strip_prefix _ _); by simplify_eq/=|].
    destruct (Ascii.eqb c "f"); [destruct (strip_prefix _ _); by simplify_eq/=|].
    destruct (Ascii.eqb c "n"); [destruct (strip_prefix _ _); by simplify_eq/=|].
    destruct (scan_number (String c t)) as [[n r']|] eqn:Hn; simplify_eq/=. by exists (String c t), r.
  - intros room s vs r H. cbn [parse_items] in H.
    destruct (parse_value f room s) as [[v r1]|] eqn:Hv; [|done]. simpl in H. apply IHv in Hv.
    destruct (skip_space r1) as [|c r2]; [done|]. destruct (Ascii.eqb c ",").
    + destruct (parse_items f room r2) as [[vs' r']|] eqn:Hi; simplify_eq/=.
      constructor; [done|]. by eapply IHi.
    + destruct (Ascii.eqb c "]"); [|done]. simplify_eq. by constructor.
  - intros room m s m' r H Hnd Hm. cbn [parse_members] in H.
    destruct (skip_space s) as [|q r0]; [done|]. destruct (negb (Ascii.eqb q dq)); [done|].
    destruct (json_string r0) as [[k r1]|] eqn:Hk; [|done]. simpl in H.
    destruct (skip_space r1) as [|c r2]; [done|]. destruct (negb (Ascii.eqb c ":")); [done|].
    destruct (parse_value f room r2) as [[v r3]|] eqn:Hv; [|done]. simpl in H. apply IHv in Hv.
    assert (NoDup (map fst (map_put k v m)) ∧
      Forall (λ kx, utf8_valid kx.1 ∧ readable room kx.2) (map_put k v m)) as [Hnd' Hm'].
    { split; [by apply map_put_NoDup|]. apply map_put_Forall; [|done].
      split; [by eapply scan_string_valid|done]. }
    destruct (skip_space r3) as [|c' r4]; [done|]. destruct (Ascii.eqb c' ","); [by eapply IHm|].
    destruct (Ascii.eqb c' "}"); by simplify_eq.
Qed.

(** ** Sorting by key *)

#[export] Instance key_order_trans {A} : Transitive (ordby (key_order (A:=A))).
Proof.
  intros x y z Hxy Hyz. unfold ordby, key_order in *.
  apply Is_true_true. transitivity y.1; by apply Is_true_true.
Qed.

#[export] Instance key_order_total {A} : Total (ordby (key_order (A:=A))).
Proof. intros x y. apply String.leb_total. Qed.

(** With distinct keys the sorted list is unique. *)
Lemma sorted_members_unique {A} (l1 l2 : list (string * A)) :
  NoDup (map fst l1) → StronglySorted (ordby key_order) l1 → StronglySorted (ordby key_order) l2 →
  l1 ≡ₚ l2 → l1 = l2.
Proof.
  intros Hnd H1 H2 Hp. apply (StronglySorted_unique_strong (ordby key_order)); try done.
  intros [k x] [k' x'] Hin Hin' Hle Hle'. rewrite <-Hp in Hin'.
  assert (k = k') as -> by (by apply String.leb_antisym). f_equal.
  apply elem_of_Permutation in Hin as [l Hl]. rewrite Hl in Hnd, Hin'. simpl in Hnd.
  apply NoDup_cons in Hnd as [Hk _]. apply elem_of_cons in Hin' as [[= ->]|Hin']; [done|].
  destruct Hk. apply list_elem_of_In, in_map_iff. exists (k', x'). split; [done|]. by apply list_elem_of_In.
Qed.

Lemma sort_members_sorted {A} (m : list (string * A)) : StronglySorted (ordby key_order) (sort_members m).
Proof. apply StronglySorted_merge_sort; apply _. Qed.

Lemma sort_members_Permutation {A} (m : list (string * A)) : sort_members m ≡ₚ m.
Proof. apply merge_sort_Permutation. Qed.

Lemma sort_members_NoDup {A} (m : list (string * A)) :
  NoDup (map fst m) → NoDup (map fst (sort_members m)).
Proof. by rewrite sort_members_Permutation. Qed.

Lemma map_snd_sorted {A B} (f : A → B) (l : list (string * A)) :
  StronglySorted (ordby key_order) l →
  StronglySorted (ordby key_order) (map (λ kx, (kx.1, f kx.2)) l).
Proof.
  induction 1 as [|x l Hl IH Hx]; simpl; constructor; [done|].
  apply Forall_map. by eapply Forall_impl.
Qed.

Lemma map_snd_keys {A B} (f : A → B) (l : list (string * A)) :
  map fst (map (λ kx, (kx.1, f kx.2)) l) = map fst l.
Proof. by rewrite map_map. Qed.

(** Sorting commutes with a change of the values. *)
Lemma sort_members_map {A B} (f : A → B) (m : list (string * A)) :
  NoDup (map fst m) →
  sort_members (map (λ kx, (kx.1, f kx.2)) m) = map (λ kx, (kx.1, f kx.2)) (sort_members m).
Proof.
  intros Hnd. apply sorted_members_unique.
  - apply sort_members_NoDup. by rewrite map_snd_keys.
  - apply sort_members_sorted.
  - apply map_snd_sorted, sort_members_sorted.
  - rewrite sort_members_Permutation. by rewrite <-(sort_members_Permutation m) at 1.
Qed.

Lemma sort_members_again {A} (m : list (string * A)) :
  NoDup (map fst m) → StronglySorted (ordby key_order) m → sort_members m = m.
Proof.
  intros. apply sorted_members_unique; [by apply sort_members_NoDup|apply sort_members_sorted|done|].
  apply sort_members_Permutation.
Qed.

(** ** Reading what was written *)

Definition write_member (kv : string * json) : string :=
  writeCanonicalString kv.1 ++ ":" ++ writeCanonical kv.2.

Lemma write_object m : NoDup (map fst m) →
  writeCanonical (JObject m) = "{" ++ String.concat "," (map write_member (sort_members m)) ++ "}".
Proof. intros Hnd. simpl. rewrite sort_members_map by done. by rewrite map_map. Qed.

Lemma sort_keys_object m : NoDup (map fst m) →
  sort_keys (JObject m) = JObject (map (λ kv, (kv.1, sort_keys kv.2)) (sort_members m)).
Proof. intros Hnd. simpl. by rewrite sort_members_map. Qed.

Lemma written_string_head s : ∃ r, writeCanonicalString s = String dq r.
Proof. rewrite writeCanonicalString_append. unfold append_string. eauto. Qed.

(** Every written value starts with a byte that is neither space nor a closing
    bracket. *)
Lemma written_head room v : readable room v →
  ∃ c s, writeCanonical v = String c s ∧ is_json_space c = false ∧ Ascii.eqb c "]" = false.
Proof.
  destruct v as [|[]|n|s|vs|m]; intros Hv; try (by eexists _, _).
  - destruct Hv as (s & r & Hn). destruct (scan_number_again _ _ _ Hn "" I) as (_ & c & n' & -> & Hc).
    exists c, n'. split; [done|]. destruct Hc as [Hc| ->]; [|done].
    unfold is_digit in Hc. apply between_spec in Hc. unfold is_json_space. nbool. split; [done|].
    by apply (ascii_ne c 93); lia.
  - destruct (written_string_head s) as [r Hr]. exists dq, r. done.
Qed.

Lemma skip_space_head c s : is_json_space c = false → skip_space (String c s) = String c s.
Proof. simpl. by intros ->. Qed.

(** [writeCanonical v] followed by a delimiter is read as [v] with its keys
    sorted. *)
Definition reads_back (v : json) : Prop := ∀ room fuel t,
  readable room v → number_ends t →
  (2 * String.length (writeCanonical v ++ t) + 1 ≤ fuel)%nat →
  parse_value fuel room (writeCanonical v ++ t) = Some (sort_keys v, t).

Lemma items_read_back room vs : Forall reads_back vs → Forall (readable room) vs → vs ≠ [] →
  ∀ fuel t,
  (2 * String.length (String.concat "," (map writeCanonical vs) ++ String "]" t) + 2 ≤ fuel)%nat →
  parse_items fuel room (String.concat "," (map writeCanonical vs) ++ String "]" t)
    = Some (map sort_keys vs, t).
Proof.
  intros Hb Hr Hne. induction Hb as [|v vs Hv Hb IH]; [done|].
  apply Forall_cons in Hr as [Hrv Hr]. intros [|fuel] t Hf; [lia|].
  cbn [parse_items map]. destruct vs as [|v' vs].
  - simpl String.concat in *. rewrite Hv; [done|done|done|lia].
  - set (rest := String.concat "," (map writeCanonical (v' :: vs))) in *.
    change (String.concat "," (map writeCanonical (v :: v' :: vs))) with (writeCanonical v ++ "," ++ rest)
      in Hf.
    change (String.concat "," (writeCanonical v :: map writeCanonical (v' :: vs)))
      with (writeCanonical v ++ "," ++ rest).
    rewrite !append_assoc_str, !append_cons, append_nil in *.
    rewrite Hv; [|done|done|lia]. cbn [mbind option_bind].
    rewrite skip_space_head by done. simpl (Ascii.eqb _ _). cbv iota.
    rewrite IH; [done|done|done|]. rewrite length_append in Hf. cbn [String.length] in Hf. lia.
Qed.

Lemma members_read_back room sm : Forall (λ kv, reads_back kv.2) sm →
  Forall (λ kx, utf8_valid kx.1 ∧ readable room kx.2) sm → sm ≠ [] →
  ∀ fuel acc t, NoDup (map fst acc ++ map fst sm) →
  (2 * String.length (String.concat "," (map write_member sm) ++ String "}" t) + 2 ≤ fuel)%nat →
  parse_members fuel room acc (String.concat "," (map write_member sm) ++ String "}" t)
    = Some ((acc ++ map (λ kv, (kv.1, sort_keys kv.2)) sm)%list, t).
Proof.
  intros Hb Hr Hne. induction Hb as [|[k v] sm Hv Hb IH]; [done|].
  apply Forall_cons in Hr as [[Hk Hrv] Hr]. intros [|fuel] acc t Hnd Hf; [lia|].
  simpl in Hk, Hrv, Hv.
  assert (∃ tail, String.concat "," (map write_member ((k, v) :: sm)) ++ String "}" t =
    writeCanonicalString k ++ String ":" (writeCanonical v ++ tail) ∧
    (tail = String "}" t ∧ sm = [] ∨
     tail = String "," (String.concat "," (map write_member sm) ++ String "}" t) ∧ sm ≠ []))
    as (tail & E & Hcase).
  { destruct sm as [|kv' sm].
    - exists (String "}" t). split; [|by left]. simpl. unfold write_member. simpl.
      by rewrite !append_assoc_str.
    - exists (String "," (String.concat "," (map write_member (kv' :: sm)) ++ String "}" t)).
      split; [|by right].
      assert (String.concat "," (map write_member ((k, v) :: kv' :: sm)) =
        write_member (k, v) ++ "," ++ String.concat "," (map write_member (kv' :: sm))) as -> by done.
      unfold write_member at 1. simpl (_.1). simpl (_.2). by rewrite !append_assoc_str. }
  rewrite E in *. destruct (json_string_written k (String ":" (writeCanonical v ++ tail)) Hk)
    as (r & Hq & Hs).
  cbn [parse_members]. rewrite Hq, skip_space_head by done. simpl (negb _). cbv iota.
  rewrite Hs. cbn [mbind option_bind]. rewrite skip_space_head by done. simpl (negb _). cbv iota.
  rewrite !length_append in Hf. cbn [String.length] in Hf. rewrite length_append in Hf.
  assert (k ∉ map fst acc) as Hnew.
  { intros Hin. apply NoDup_app in Hnd as (_ & Hd & _). apply (Hd k Hin). simpl. by left. }
  rewrite Hv; [|done|by destruct Hcase as [[-> _]|[-> _]]|rewrite length_append; lia].
  cbn [mbind option_bind]. rewrite map_put_new by done.
  destruct Hcase as [[-> ->]|[-> Hsm]]; rewrite skip_space_head by done; simpl (Ascii.eqb _ _); cbv iota.
  - done.
  - rewrite IH; [|done|done| |].
    + cbn [map]. by rewrite <-app_assoc.
    + rewrite map_app. cbn [map]. by rewrite <-app_assoc.
    + cbn [String.length] in Hf. lia.
Qed.

Lemma writes_read_back v : reads_back v.
Proof.
  induction v as [|[]|n|s|vs IH|m IH] using json_strong_ind;
    intros room [|fuel] t Hr Ht Hf; try lia; try done.
  - destruct Hr as (s & r & Hn). destruct (scan_number_again _ _ _ Hn t Ht) as (Ha & c & n' & -> & Hc).
    change (writeCanonical (JNumber (String c n'))) with (String c n') in *.
    rewrite append_cons in *. cbn [parse_value].
    assert (45 ≤ code c ≤ 57)%N as Hb.
    { destruct Hc as [Hc| ->]; [|done]. unfold is_digit in Hc. apply between_spec in Hc. lia. }
    rewrite skip_space_head by (unfold is_json_space; nbool; done).
    assert (∀ x, (58 <=? code x)%N || (code x <? 45)%N = true → Ascii.eqb c x = false) as Hne.
    { intros x [Hx%N.leb_le|Hx%N.ltb_lt]%orb_true_iff; apply Ascii.eqb_neq; intros ->; lia. }
    rewrite !Hne by done. by rewrite Ha.
  - destruct (json_string_written s t Hr) as (r & Hq & Hs).
    change (writeCanonical (JString s)) with (writeCanonicalString s). rewrite Hq.
    cbn [parse_value]. rewrite skip_space_head by done. simpl (Ascii.eqb _ _). cbv iota. by rewrite Hs.
  - apply readable_array in Hr as [Hroom Hr]. destruct vs as [|v vs].
    { simpl. by rewrite (proj2 (Z.leb_gt room 0)) by lia. }
    set (inner := String.concat "," (map writeCanonical (v :: vs))).
    assert (writeCanonical (JArray (v :: vs)) ++ t = String "[" (inner ++ String "]" t)) as E.
    { change (writeCanonical (JArray (v :: vs))) with ("[" ++ inner ++ "]").
      by rewrite !append_assoc_str. }
    rewrite E in *. cbn [parse_value]. rewrite skip_space_head by done.
    simpl (Ascii.eqb _ _). cbv iota. rewrite (proj2 (Z.leb_gt room 0)) by lia.
    assert (∃ c r, inner ++ String "]" t = String c r ∧ is_json_space c = false ∧ Ascii.eqb c "]" = false)
      as (c & r & Ei & Hc & Hc').
    { destruct (written_head (room - 1) v) as (c & r & Hv & Hs & Hb); [by inversion Hr|].
      unfold inner. destruct vs as [|v' vs]; cbn [map String.concat]; rewrite Hv; eauto. }
    assert (parse_items fuel (room - 1) (inner ++ String "]" t) = Some (map sort_keys (v :: vs), t)) as Hi.
    { apply items_read_back; [done|done|done|]. fold inner. cbn [String.length] in Hf. lia. }
    rewrite Ei in *. rewrite skip_space_head, Hc', Hi by done. done.
  - apply readable_object in Hr as (Hroom & Hnd & Hr).
    rewrite write_object, sort_keys_object in * by done.
    pose proof (sort_members_Permutation m) as Hp.
    rewrite <-Hp in Hr, IH. apply sort_members_NoDup in Hnd.
    set (sm := sort_members m) in *. clearbody sm. clear m Hp. destruct sm as [|kv sm].
    { simpl. by rewrite (proj2 (Z.leb_gt room 0)) by lia. }
    set (inner := String.concat "," (map write_member (kv :: sm))) in *.
    assert (("{" ++ inner ++ "}") ++ t = String "{" (inner ++ String "}" t)) as E.
    { by rewrite !append_assoc_str. }
    rewrite E in *. cbn [parse_value]. rewrite skip_space_head by done.
    simpl (Ascii.eqb _ _). cbv iota. rewrite (proj2 (Z.leb_gt room 0)) by lia.
    assert (∃ r, inner ++ String "}" t = String dq r) as (r & Ei).
    { destruct (written_string_head kv.1) as [r Hk].
      unfold inner. destruct sm as [|kv' sm]; cbn [map String.concat]; unfold write_member at 1;
        rewrite Hk; eauto. }
    assert (parse_members fuel (room - 1) [] (inner ++ String "}" t) =
      Some (map (λ kv, (kv.1, sort_keys kv.2)) (kv :: sm), t)) as Hi.
    { apply (members_read_back _ _ IH Hr); [done|done|]. fold inner. cbn [String.length] in Hf. lia. }
    rewrite Ei in *. rewrite skip_space_head by done. simpl (Ascii.eqb _ _). cbv iota.
    by rewrite Hi.
Qed.

Lemma write_sort_keys room v : readable room v → writeCanonical (sort_keys v) = writeCanonical v.
Proof.
  revert room. induction v as [|[]|n|s|vs IH|m IH] using json_strong_ind; intros room Hr; try done.
  - apply readable_array in Hr as [_ Hr]. simpl. rewrite map_map. do 3 f_equal.
    apply map_ext_Forall. rewrite Forall_forall in *. intros v Hin. by eapply IH, Hr.
  - apply readable_object in Hr as (_ & Hnd & Hr). rewrite sort_keys_object, (write_object m) by done.
    rewrite write_object by (rewrite map_snd_keys; by apply sort_members_NoDup).
    rewrite sort_members_again;
      [|rewrite map_snd_keys; by apply sort_members_NoDup|apply map_snd_sorted, sort_members_sorted].
    rewrite map_map. do 3 f_equal. apply map_ext_Forall.
    rewrite sort_members_Permutation. rewrite Forall_forall in *. intros kv Hin.
    unfold write_member. simpl. by rewrite (IH kv Hin (room - 1)%Z (proj2 (Hr kv Hin))).
Qed.

(** A document the decoder accepted, written, is read as the sorted value with
    nothing left. *)
Lemma canonical_read raw v rest :
  json_value raw = Some (v, rest) →
  json_value (writeCanonical v) = Some (sort_keys v, "") ∧ writeCanonical (sort_keys v) = writeCanonical v.
Proof.
  intros H. apply (proj1 (parse_readable _)) in H. split; [|by eapply write_sort_keys].
  unfold json_value. rewrite <-(append_empty_r (writeCanonical v)) at 2.
  apply writes_read_back; [done|done|]. rewrite append_empty_r. lia.
Qed.


