(* ===== verification/JsonObjects.v ===== *)
(** * Reading the JSON that structs are written as

    Objects written member by member, compactly or with a space after each
    separator, are read back: the value of [json_value], and the members of
    [object_members] with their raw texts.  Plain texts, which are written as they
    are, and their compaction. *)

From S2P Require Import Prelude.
From S2P Require Import GoText.
From S2P Require Import GoJson.
From S2P Require Import GoTime.
From S2P Require Import GoMarshal.
From S2P Require Import Canonical.
From S2P Require Import GoBytes.
From S2P Require Import CanonicalTheorems.

Local Open Scope string_scope.

(** ** Texts of values *)

(** [x] is a text of [v] that opens at most [n] containers. *)
Definition reads (n : Z) (x : string) (v : json) : Prop :=
  (∃ c r, x = String c r ∧ is_json_space c = false) ∧
  ∀ fuel room t, (2 * String.length x < fuel)%nat → (n ≤ room)%Z → number_ends t →
    parse_value fuel room (x ++ t) = Some (v, t).

Lemma reads_string h s : utf8_valid s → reads 0 (append_string h s) (JString s).
Proof.
  intros Hs. split; [by eexists _, _|]. intros [|fuel] room t Hf _ _; [lia|].
  destruct (json_string_appended h s t Hs) as (r & Hr & Hj). cbn [parse_value]. rewrite Hr.
  change (skip_space (String dq r)) with (String dq r). cbn -[json_string]. by rewrite Hj.
Qed.

Lemma reads_one : reads 0 "1" (JNumber "1").
Proof.
  split; [by eexists _, _|]. intros [|fuel] room t Hf _ Ht; [lia|].
  cbn [parse_value]. change ("1" ++ t) with (String "1" t).
  change (skip_space (String "1" t)) with (String "1" t).
  cbn -[scan_number]. assert (scan_number "1" = Some ("1", "")) as Hn by reflexivity.
  destruct (scan_number_again _ _ _ Hn t Ht) as [E _]. change ("1" ++ t) with (String "1" t) in E.
  by rewrite E.
Qed.

Lemma skip_space_same c r : is_json_space c = false → skip_space (String c r) = String c r.
Proof. intros Hc. simpl. by rewrite Hc. Qed.

Lemma skip_space_skips sp c r :
  sp = "" ∨ sp = " " → is_json_space c = false → skip_space (sp ++ String c r) = String c r.
Proof.
  intros Hsp Hc. pose proof (skip_space_same c r Hc) as E.
  destruct Hsp as [-> | ->]; [exact E|]. change (" " ++ String c r) with (String " " (String c r)).
  change (skip_space (String " " (String c r))) with (skip_space (String c r)). exact E.
Qed.

(** ** Objects *)

Section object.
Context (sp : string) (Hsp : sp = "" ∨ sp = " ").

Definition member_text (kx : string * string) : string :=
  append_string true kx.1 ++ ":" ++ sp ++ kx.2.
Definition members_text (ms : list (string * string)) : string :=
  String.concat ("," ++ sp) (map member_text ms).
Definition object_text (ms : list (string * string)) : string := "{" ++ members_text ms ++ "}".

(** A member's name, its text and the value of its text. *)
Definition good (n : Z) (m : string * string * json) : Prop :=
  utf8_valid m.1.1 ∧ reads n m.1.2 m.2.

Lemma members_text_cons m ms :
  members_text (m :: ms) =
  member_text m ++ match ms with [] => "" | _ => "," ++ sp ++ members_text ms end.
Proof.
  unfold members_text. destruct ms as [|m' ms]; simpl.
  - by rewrite append_empty_r.
  - by rewrite append_assoc_str.
Qed.

(** What follows a member's value. *)
Definition after_member (ms : list (string * string)) (t : string) : string :=
  match ms with [] => String "}" t | _ => String "," (sp ++ members_text ms ++ String "}" t) end.

Lemma members_text_after m ms t :
  members_text (m :: ms) ++ String "}" t =
  append_string true m.1 ++ String ":" (sp ++ m.2 ++ after_member ms t).
Proof.
  rewrite members_text_cons. unfold member_text, after_member.
  destruct ms as [|m' ms]; rewrite ?append_empty_r, !append_assoc_str; reflexivity.
Qed.

Lemma after_member_ends ms t : number_ends (after_member ms t).
Proof. by destruct ms. Qed.

(** Lengths, for the fuel. *)
Lemma members_length m ms :
  (String.length m.2 + 3 + match ms with [] => 0 | _ => S (String.length (members_text ms)) end
   ≤ String.length (members_text (m :: ms)))%nat.
Proof.
  rewrite members_text_cons. unfold member_text, append_string.
  repeat (rewrite ?length_append; cbn [String.length]). destruct ms; cbn [String.length]; [lia|].
  repeat (rewrite ?length_append; cbn [String.length]). lia.
Qed.

Lemma members_count ms : (length ms ≤ String.length (members_text ms))%nat.
Proof.
  induction ms as [|m ms IH]; [cbn; lia|]. pose proof (members_length m ms).
  destruct ms; cbn [length] in *; lia.
Qed.

Lemma parse_members_text n ms : Forall (good n) ms → ms ≠ [] → ∀ fuel room acc t sp0,
  (2 * String.length (members_text (map fst ms)) < fuel)%nat → (n ≤ room)%Z →
  sp0 = "" ∨ sp0 = sp →
  parse_members fuel room acc (sp0 ++ members_text (map fst ms) ++ String "}" t)
    = Some (fold_left (λ acc m, map_put m.1.1 m.2 acc) ms acc, t).
Proof.
  induction 1 as [|[[k x] v] ms [Hk [(c & r & Ex & Hc) Hx]] Hms IH]; [done|]. cbn [fst snd] in *. subst x.
  intros _ [|fuel] room acc t sp0 Hf Hroom Hsp0; [lia|]. cbn [map] in *.
  pose proof (members_length (k, String c r) (map fst ms)) as Hlen. cbn [fst snd] in *.
  rewrite members_text_after. cbn [fst snd parse_members].
  destruct (json_string_appended true k (String ":" (sp ++ String c r ++ after_member (map fst ms) t)) Hk)
    as (r0 & Hr0 & Hj).
  rewrite Hr0, skip_space_skips by (naive_solver || done). cbn -[json_string parse_value skip_space].
  rewrite Hj. cbn -[parse_value skip_space].
  change (skip_space (String ":" ?y)) with (String ":" y). cbn -[parse_value skip_space].
  assert (parse_value fuel room (sp ++ String c r ++ after_member (map fst ms) t)
    = Some (v, after_member (map fst ms) t)) as ->.
  { transitivity (parse_value fuel room (String c r ++ after_member (map fst ms) t)).
    - destruct fuel as [|fuel]; [lia|]. cbn [parse_value].
      change (String c r ++ ?y) with (String c (r ++ y)).
      by rewrite skip_space_skips, skip_space_same.
    - apply Hx; [lia|done|apply after_member_ends]. }
  cbn -[parse_value skip_space parse_members]. destruct ms as [|m' ms]; [done|].
  cbn -[parse_value skip_space parse_members members_text].
  apply IH; [done|cbn [map] in *; lia|done|by right].
Qed.

Lemma object_text_open ms t : object_text ms ++ t = String "{" (members_text ms ++ String "}" t).
Proof. unfold object_text. by rewrite !append_assoc_str. Qed.

Lemma members_text_head m ms : ∃ r, members_text (m :: ms) = String dq r.
Proof. rewrite members_text_cons. unfold member_text, append_string. eauto. Qed.

Lemma reads_object n ms :
  Forall (good n) ms → ms ≠ [] → (0 ≤ n)%Z →
  reads (n + 1) (object_text (map fst ms))
    (JObject (fold_left (λ acc m, map_put m.1.1 m.2 acc) ms [])).
Proof.
  intros Hms Hne Hn. split; [by eexists _, _|]. intros [|fuel] room t Hf Hroom Ht; [lia|].
  assert (S (String.length (members_text (map fst ms))) ≤ String.length (object_text (map fst ms)))%nat as Hl
    by (unfold object_text; rewrite !length_append; cbn [String.length]; lia).
  rewrite object_text_open. cbn [parse_value]. rewrite skip_space_same by done.
  cbn -[parse_members skip_space members_text Z.sub]. destruct (room <=? 0)%Z eqn:Hr; bools; [lia|].
  pose proof (parse_members_text n ms Hms Hne fuel (room - 1) [] t "" ltac:(lia) ltac:(lia)
    ltac:(by left)) as Hp.
  destruct ms as [|m ms]; [done|]. destruct (members_text_head m.1 (map fst ms)) as [r Hm].
  change (map fst (m :: ms)) with (m.1 :: map fst ms) in *. rewrite Hm in *.
  change (String dq r ++ ?y) with (String dq (r ++ y)) in *. rewrite skip_space_same by done.
  change ("" ++ ?y) with y in Hp. change (Ascii.eqb dq "}") with false. cbv beta iota. by rewrite Hp.
Qed.

Lemma json_value_reads n x v t :
  reads n x v → (n ≤ maxNestingDepth)%Z → number_ends t → json_value (x ++ t) = Some (v, t).
Proof. intros [_ Hx] Hn Ht. apply Hx; [rewrite length_append; lia|done..]. Qed.

Lemma before_append x t : before (x ++ t) t = x.
Proof.
  unfold before. rewrite length_append, Nat.add_sub.
  induction x as [|c x IH]; [by destruct t|]. rewrite append_cons. cbn [String.length String.substring].
  by rewrite IH.
Qed.

Lemma raw_members_text n ms : Forall (good n) ms → (n ≤ maxNestingDepth)%Z → ms ≠ [] → ∀ fuel sp0,
  (length ms ≤ fuel)%nat → sp0 = "" ∨ sp0 = sp →
  raw_members fuel (sp0 ++ members_text (map fst ms) ++ "}") = Some (map fst ms).
Proof.
  intros Hms Hn. induction Hms as [|[[k x] v] ms [Hk Hx] Hms IH]; [done|].
  intros _ [|fuel] sp0 Hf Hsp0; cbn [length] in Hf; [lia|]. cbn [fst snd map] in *.
  rewrite members_text_after. cbn [fst snd raw_members].
  destruct (json_string_appended true k (String ":" (sp ++ x ++ after_member (map fst ms) "")) Hk)
    as (r0 & Hr0 & Hj).
  rewrite Hr0, skip_space_skips by (naive_solver || done). cbn -[json_string json_value skip_space].
  rewrite Hj. cbn -[json_value skip_space].
  change (skip_space (String ":" ?y)) with (String ":" y). cbn -[json_value skip_space before].
  assert (skip_space (sp ++ x ++ after_member (map fst ms) "") = x ++ after_member (map fst ms) "") as ->.
  { destruct Hx as [(c & r & -> & Hc) _]. change (String c r ++ ?y) with (String c (r ++ y)).
    by apply skip_space_skips. }
  rewrite (json_value_reads n x v) by (done || apply after_member_ends).
  cbn -[json_value skip_space before raw_members]. rewrite before_append.
  destruct ms as [|m' ms]; [done|]. cbn -[json_value skip_space before raw_members members_text].
  cbn [map] in IH. rewrite skip_space_same by done. cbn -[raw_members members_text].
  rewrite IH; [done|done|cbn [length] in *; lia|by right].
Qed.

Lemma object_members_text n ms :
  Forall (good n) ms → (n ≤ maxNestingDepth)%Z → ms ≠ [] →
  object_members (object_text (map fst ms)) = Some (map fst ms).
Proof.
  intros Hms Hn Hne. rewrite <-(append_empty_r (object_text _)), object_text_open. unfold object_members.
  rewrite skip_space_same by done. cbn -[raw_members skip_space members_text String.length].
  destruct ms as [|m ms]; [done|]. destruct (members_text_head m.1 (map fst ms)) as [r Hm].
  pose proof (raw_members_text n (m :: ms) Hms Hn Hne) as Hraw.
  change (map fst (m :: ms)) with (m.1 :: map fst ms) in *.
  assert (skip_space (members_text (m.1 :: map fst ms) ++ "}") = String dq (r ++ "}")) as -> by (by rewrite Hm).
  cbn -[raw_members members_text String.length].
  apply (Hraw _ ""); [|by left]. rewrite length_append.
  pose proof (members_count (m.1 :: map fst ms)) as Hc. cbn [length] in *. rewrite length_map in Hc. lia.
Qed.

Lemma json_valid_reads n x v : reads n x v → (n ≤ maxNestingDepth)%Z → json_valid x = true.
Proof.
  intros Hx Hn. unfold json_valid. rewrite <-(append_empty_r x), (json_value_reads n x v) by done. done.
Qed.

(** An object into a struct: its members, one after the other. *)
Lemma into_struct_object {S} (fields : list (field S)) n ms x :
  Forall (good n) ms → ms ≠ [] → (0 ≤ n < maxNestingDepth)%Z →
  into_struct fields (object_text (map fst ms)) x = store_members fields (map fst ms) x.
Proof.
  intros Hms Hne Hn. unfold into_struct. pose proof (reads_object n ms Hms Hne ltac:(lia)) as Hr.
  rewrite <-(append_empty_r (object_text _)), (json_value_reads _ _ _ "" Hr ltac:(lia)) by done.
  rewrite append_empty_r. erewrite object_members_text by (done || lia). done.
Qed.

Lemma Unmarshal_object {S} (fields : list (field S)) n ms x :
  Forall (good n) ms → ms ≠ [] → (0 ≤ n < maxNestingDepth)%Z →
  Unmarshal fields (object_text (map fst ms)) x = store_members fields (map fst ms) x.
Proof.
  intros Hms Hne Hn. unfold Unmarshal. pose proof (reads_object n ms Hms Hne ltac:(lia)) as Hr.
  rewrite (json_valid_reads _ _ _ Hr) by lia. by eapply into_struct_object.
Qed.

Lemma into_string_reads n x s y : reads n x (JString s) → (n ≤ maxNestingDepth)%Z → into_string x y = Some s.
Proof.
  intros Hx Hn. unfold into_string. by rewrite <-(append_empty_r x), (json_value_reads _ _ _ _ Hx Hn).
Qed.
End object.

(** ** Plain texts *)

(** Printable ASCII that JSON and HTML leave alone. *)
Definition plain_char (c : ascii) : bool :=
  between 32 126 c
  && negb ((code c =? 34)%N || (code c =? 92)%N || (code c =? 60)%N || (code c =? 62)%N || (code c =? 38)%N).
Definition plain (s : string) : bool := all_chars plain_char s.

Definition quoted (s : string) : string := String dq (s ++ String dq "").

Lemma plain_char_spec c : plain_char c = true →
  (32 ≤ code c ≤ 126)%N ∧ code c ≠ 34%N ∧ code c ≠ 92%N ∧ code c ≠ 60%N ∧ code c ≠ 62%N ∧ code c ≠ 38%N.
Proof.
  unfold plain_char. intros [Hb Hn]%andb_true_iff. apply between_spec in Hb.
  apply negb_true_iff in Hn. rewrite !orb_false_iff, !N.eqb_neq in Hn. naive_solver.
Qed.

Lemma encode_plain c : plain_char c = true → encode_rune (code c) = String c "".
Proof.
  intros (Hb & _)%plain_char_spec. unfold encode_rune.
  rewrite (proj2 (N.ltb_lt (code c) 128)) by lia. by rewrite ascii_code.
Qed.

Lemma plain_utf8 s : plain s = true → ∃ rs, Forall scalar rs ∧ s = encode_runes rs ∧
  ∀ h, body h rs = s.
Proof.
  induction s as [|c s IH]; intros Hs; [by exists []|].
  unfold plain in Hs. simpl in Hs. apply andb_true_iff in Hs as [Hc Hs].
  destruct (IH Hs) as (rs & Hrs & -> & Hb). exists (code c :: rs).
  pose proof (plain_char_spec c Hc) as (H1 & H2 & H3 & H4 & H5 & H6). split_and!.
  - constructor; [|done]. left. lia.
  - rewrite encode_runes_cons, encode_plain by done. done.
  - intros h. rewrite body_cons, Hb, encode_plain by done. unfold escape_rune. nbool. simpl.
    by rewrite andb_false_r.
Qed.

Lemma plain_valid s : plain s = true → utf8_valid s.
Proof. intros (rs & Hrs & -> & _)%plain_utf8. by exists rs. Qed.

Lemma plain_quoted h s : plain s = true → append_string h s = quoted s.
Proof.
  intros (rs & Hrs & -> & Hb)%plain_utf8. rewrite append_string_body by done. by rewrite Hb.
Qed.

Lemma reads_quoted s : plain s = true → reads 0 (quoted s) (JString s).
Proof. intros Hs. rewrite <-(plain_quoted true s Hs). by apply reads_string, plain_valid. Qed.

Lemma all_chars_impl (p q : ascii → bool) s :
  (∀ c, p c = true → q c = true) → all_chars p s = true → all_chars q s = true.
Proof.
  intros Hpq. induction s as [|c s IH]; [done|]. simpl. rewrite !andb_true_iff. naive_solver.
Qed.

Lemma digit_plain c : is_digit c = true → plain_char c = true.
Proof. intros H%between_spec. unfold plain_char, between. nbool. done. Qed.

Lemma name_plain c : name_char c = true → plain_char c = true.
Proof.
  unfold name_char, name_head. rewrite !orb_true_iff, !between_spec, !N.eqb_eq. intros H.
  unfold plain_char, between. nbool. done.
Qed.

Lemma match_name_plain n s : match_name n s = true → plain s = true.
Proof.
  destruct s as [|c s]; [done|]. simpl. intros H. bools. unfold plain. simpl. apply andb_true_iff. split.
  - apply name_plain. unfold name_char. match goal with H : name_head c = true |- _ => by rewrite H end.
  - by eapply all_chars_impl; [apply name_plain|].
Qed.

(** ** Compaction of plain texts *)

Lemma line_separator_none c s : code c ≠ 226%N → line_separator c s = None.
Proof. intros Hc. unfold line_separator. destruct s as [|? [|? s]]; nbool; done. Qed.

Lemma compact_plain_char f q e c s : plain_char c = true → q = true ∨ c ≠ " "%char →
  e = false →
  compact_chars (S f) q e (String c s) = String c (compact_chars f q false s).
Proof.
  intros Hc Hq ->. pose proof (plain_char_spec c Hc) as (H1 & H2 & H3 & H4 & H5 & H6).
  cbn [compact_chars]. rewrite line_separator_none by lia. unfold html_escape. nbool.
  assert (negb q && is_json_space c = false) as ->.
  { destruct Hq as [-> | Hq]; [done|]. unfold is_json_space. 
    assert (code c ≠ 32%N). { intros E. apply Hq. rewrite <-(ascii_code c), E. done. }
    nbool. by destruct q. }
  assert (Ascii.eqb c dq = false ∧ Ascii.eqb c bs = false) as [-> ->].
  { split; [apply (ascii_ne c 34)|apply (ascii_ne c 92)]; lia. }
  by destruct q.
Qed.

Lemma compact_inside s f t : plain s = true →
  compact_chars (String.length s + S f) true false (s ++ String dq t)
    = s ++ String dq (compact_chars f false false t).
Proof.
  induction s as [|c s IH]; intros Hs.
  - cbn [String.length Nat.add]. change ("" ++ ?y) with y. cbn [compact_chars].
    rewrite line_separator_none by done. done.
  - unfold plain in Hs. simpl in Hs. apply andb_true_iff in Hs as [Hc Hs].
    rewrite !append_cons. cbn [String.length Nat.add]. rewrite compact_plain_char by (auto || done).
    by rewrite IH.
Qed.

Lemma compact_quoted s f t : plain s = true →
  compact_chars (String.length (quoted s) + f) false false (quoted s ++ t)
    = quoted s ++ compact_chars f false false t.
Proof.
  intros Hs. unfold quoted. rewrite !append_cons, !append_assoc_str, !append_cons, !append_nil.
  replace (String.length (String dq (s ++ String dq "")) + f)%nat with (S (String.length s + S f))
    by (cbn; rewrite length_append; cbn; lia).
  cbn [compact_chars]. rewrite line_separator_none by done. cbn. by rewrite compact_inside.
Qed.
