(* ===== verification/NormalizeTheorems.v ===== *)
(** * What request validation guarantees

    [Normalize] reports exactly the fields that are wrong, and what it lets
    through is what the schema admits, so that a valid submission to a known
    queue is accepted. *)

From S2P Require Import Prelude.
From S2P Require Import GoText.
From S2P Require Import GoTime.
From S2P Require Import GoJson.
From S2P Require Import GoBytes.
From S2P Require Import Schema.
From S2P Require Import Lifecycle.
From S2P Require Import Outbox.
From S2P Require Import Canonical.
From S2P Require Import Submit.
From S2P Require Import JobsStore.
From S2P Require Import CanonicalTheorems.
From S2P Require Import Invariant.
From S2P Require Import Transitions.
From S2P Require Import Refinement.
From S2P Require Import System.
From S2P Require Import Scenario.
From S2P Require Import Running.
From S2P Require Import Fingerprints.
From S2P Require Import JobsTheorems.

Local Open Scope string_scope.

(** ** The problems of a request *)

(** What is wrong with a request, by field. *)
Inductive bad_field (e : string → string) (r : SubmitRequest) : string → Prop :=
| bad_queue : queueNamePattern (TrimSpace (q_queue r)) = false → bad_field e r "queue"
| bad_type : jobTypePattern (TrimSpace (q_type r)) = false → bad_field e r "job_type"
| bad_payload :
    (∀ t, CanonicalJSON e (q_payload r) ≠ Ok (String "{" t)) → bad_field e r "payload"
| bad_priority n :
    q_priority r = Some n → ¬ (0 ≤ n ≤ 100)%Z → bad_field e r "priority"
| bad_max_attempts n :
    q_max_attempts r = Some n → ¬ (1 ≤ n ≤ 100)%Z → bad_field e r "max_attempts"
| bad_timeout n :
    q_timeout_seconds r = Some n → ¬ (1 ≤ n ≤ 86400)%Z → bad_field e r "timeout_seconds"
| bad_schedule s :
    q_scheduled_at r = Some s → parse_RFC3339 (TrimSpace s) = None → bad_field e r "scheduled_at"
| bad_count :
    (16 < length (q_required_capabilities r))%nat → bad_field e r "required_capabilities"
| bad_capability i c :
    (length (q_required_capabilities r) ≤ 16)%nat → q_required_capabilities r !! i = Some c →
    capabilityPattern (TrimSpace c) = false →
    bad_field e r ("required_capabilities[" ++ Itoa (Z.of_nat i) ++ "]").

(** [errs] names [f]. *)
Definition reports (errs : list FieldError) (f : string) : Prop := ∃ m, mkFieldError f m ∈ errs.

Lemma reports_nil f : reports [] f ↔ False.
Proof. unfold reports. split; [|done]. by intros (m & Hm%elem_of_nil). Qed.

Lemma reports_app l1 l2 f : reports (l1 ++ l2)%list f ↔ reports l1 f ∨ reports l2 f.
Proof. unfold reports. setoid_rewrite elem_of_app. naive_solver. Qed.

Lemma reports_cons g m l f : reports (mkFieldError g m :: l) f ↔ f = g ∨ reports l f.
Proof. unfold reports. setoid_rewrite elem_of_cons. naive_solver. Qed.

Lemma reports_one g m f : reports [mkFieldError g m] f ↔ f = g.
Proof. rewrite reports_cons, reports_nil. naive_solver. Qed.

Lemma match_name_empty n : match_name n "" = false.
Proof. done. Qed.

Lemma name_problems_reports field pattern n name f :
  reports (name_problems field pattern (match_name n) name) f ↔
  f = field ∧ match_name n name = false.
Proof.
  unfold name_problems. case_bool_decide as He.
  - subst. rewrite reports_one, match_name_empty. naive_solver.
  - destruct (match_name n name); simpl; [rewrite reports_nil|rewrite reports_one]; naive_solver.
Qed.

Lemma empty_payload e : ∀ t, CanonicalJSON e "" ≠ Ok t.
Proof. done. Qed.

Lemma payload_reports e raw f :
  reports (normalize_payload e raw).2 f ↔
  f = "payload" ∧ ∀ t, CanonicalJSON e raw ≠ Ok (String "{" t).
Proof.
  unfold normalize_payload. destruct (String.length raw =? 0)%nat eqn:Hl.
  { apply Nat.eqb_eq in Hl. destruct raw; [|done]. simpl. rewrite reports_one.
    pose proof (empty_payload e). naive_solver. }
  destruct (CanonicalJSON e raw) as [c|x]; [|simpl; rewrite reports_one; naive_solver].
  destruct c as [|c s]; [simpl; rewrite reports_one; naive_solver|].
  destruct (decide (c = "{"%char)) as [->|Hc].
  - simpl. rewrite reports_nil. naive_solver.
  - assert (reports [mkFieldError "payload" "must be a JSON object"] f ↔
      f = "payload" ∧ ∀ t, Ok (String c s) ≠ Ok (E:=string) (String "{" t)) as <-
      by (rewrite reports_one; naive_solver).
    destruct c as [[] [] [] [] [] [] [] []]; done.
Qed.

Lemma number_reports field suffix deflt lo hi v f :
  reports (normalize_number field suffix deflt lo hi v).2 f ↔
  f = field ∧ ∃ n, v = Some n ∧ ¬ (lo ≤ n ≤ hi)%Z.
Proof.
  unfold normalize_number. destruct v as [n|]; simpl; [|rewrite reports_nil; naive_solver].
  destruct (n <? lo)%Z eqn:H1; [|destruct (hi <? n)%Z eqn:H2]; simpl; bools;
    rewrite ?reports_one, ?reports_nil; split; try done.
  - intros ->. split; [done|]. exists n. split; [done|lia].
  - naive_solver.
  - intros ->. split; [done|]. exists n. split; [done|lia].
  - naive_solver.
  - intros (_ & n' & [= <-] & Hn). lia.
Qed.

Lemma schedule_reports v f :
  reports (normalize_schedule v).2 f ↔
  f = "scheduled_at" ∧ ∃ s, v = Some s ∧ parse_RFC3339 (TrimSpace s) = None.
Proof.
  unfold normalize_schedule. destruct v as [s|]; simpl; [|rewrite reports_nil; naive_solver].
  destruct (parse_RFC3339 (TrimSpace s)) eqn:Hp; simpl; rewrite ?reports_one, ?reports_nil; naive_solver.
Qed.

Lemma collect_reports i seen l f :
  reports (collect_capabilities i seen l).2 f ↔
  ∃ k c, l !! k = Some c ∧ capabilityPattern (TrimSpace c) = false ∧
    f = "required_capabilities[" ++ Itoa (i + Z.of_nat k) ++ "]".
Proof.
  revert i seen. induction l as [|c l IH]; intros i seen; simpl; [rewrite reports_nil; naive_solver|].
  assert (∀ seen' P, (P ↔ reports (collect_capabilities (i + 1) seen' l).2 f) →
    (capabilityPattern (TrimSpace c) = true) →
    (P ↔ ∃ k c', (c :: l) !! k = Some c' ∧ capabilityPattern (TrimSpace c') = false ∧
      f = "required_capabilities[" ++ Itoa (i + Z.of_nat k) ++ "]")) as Hgood.
  { intros seen' P -> Hc. rewrite IH. split.
    - intros (k & c' & Hk & Hp & ->). exists (S k), c'. split_and!; [done..|]. do 3 f_equal. lia.
    - intros ([|k] & c' & Hk & Hp & ->); simpl in Hk; [congruence|].
      exists k, c'. split_and!; [done..|]. do 3 f_equal. lia. }
  destruct (capabilityPattern (TrimSpace c)) eqn:Hc; simpl.
  - case_bool_decide; [by apply (Hgood seen)|].
    destruct (collect_capabilities (i + 1) (TrimSpace c :: seen) l) eqn:E.
    apply (Hgood (TrimSpace c :: seen)); [by rewrite E|done].
  - destruct (collect_capabilities (i + 1) seen l) as [out errs] eqn:E. simpl.
    rewrite reports_cons. specialize (IH (i + 1)%Z seen). rewrite E in IH. simpl in IH. rewrite IH. split.
    + intros [->|(k & c' & Hk & Hp & ->)].
      * exists 0%nat, c. split_and!; [done..|]. by rewrite Z.add_0_r.
      * exists (S k), c'. split_and!; [done..|]. do 3 f_equal. lia.
    + intros ([|k] & c' & Hk & Hp & ->); simpl in Hk.
      * left. by rewrite Z.add_0_r.
      * right. exists k, c'. split_and!; [done..|]. do 3 f_equal. lia.
Qed.

Lemma capabilities_reports l f :
  reports (normalizeCapabilities l).2 f ↔
  (f = "required_capabilities" ∧ (16 < length l)%nat) ∨
  (length l ≤ 16)%nat ∧ ∃ i c, l !! i = Some c ∧ capabilityPattern (TrimSpace c) = false ∧
    f = "required_capabilities[" ++ Itoa (Z.of_nat i) ++ "]".
Proof.
  unfold normalizeCapabilities, MaxRequiredCapabilities.
  destruct (16 <? length l)%nat eqn:Hl; [apply Nat.ltb_lt in Hl|apply Nat.ltb_ge in Hl].
  - simpl. rewrite reports_one. split; [naive_solver|]. intros [[-> _]|[? _]]; [done|lia].
  - pose proof (collect_reports 0 [] l f) as Hc. destruct (collect_capabilities 0 [] l). simpl in *.
    rewrite Hc. split; [naive_solver|]. intros [[_ ?]|[_ ?]]; [lia|done].
Qed.

(** ** The capability set *)

Lemma collect_values i seen l :
  let out := (collect_capabilities i seen l).1 in
  (∀ c, c ∈ out ↔ c ∉ seen ∧ capabilityPattern c = true ∧ ∃ x, x ∈ l ∧ c = TrimSpace x) ∧
  NoDup out ∧ (length out ≤ length l)%nat.
Proof.
  revert i seen. induction l as [|x l IH]; intros i seen; simpl.
  { split_and!; [|constructor|done]. intros c. rewrite elem_of_nil.
    split; [done|]. intros (_ & _ & y & Hy%elem_of_nil & _). done. }
  destruct (capabilityPattern (TrimSpace x)) eqn:Hx; simpl.
  - case_bool_decide as Hseen.
    + destruct (IH (i + 1)%Z seen) as (Hin & Hnd & Hlen). split_and!; [|done|lia].
      intros c. rewrite Hin. setoid_rewrite elem_of_cons. naive_solver.
    + destruct (IH (i + 1)%Z (TrimSpace x :: seen)) as (Hin & Hnd & Hlen).
      destruct (collect_capabilities (i + 1) (TrimSpace x :: seen) l) as [out errs]. simpl in *.
      split_and!; [|constructor; [rewrite Hin, elem_of_cons; naive_solver|done]|lia].
      intros c. rewrite elem_of_cons, Hin. setoid_rewrite elem_of_cons.
      destruct (decide (c = TrimSpace x)) as [->|]; naive_solver.
  - destruct (IH (i + 1)%Z seen) as (Hin & Hnd & Hlen).
    destruct (collect_capabilities (i + 1) seen l) as [out errs]. simpl in *.
    split_and!; [|done|lia]. intros c. rewrite Hin. setoid_rewrite elem_of_cons.
    split; [naive_solver|]. intros (? & Hc & y & [->|?] & ->); [congruence|naive_solver].
Qed.

#[export] Instance leb_trans : Transitive (ordby String.leb).
Proof.
  intros x y z Hxy Hyz. unfold ordby in *. apply Is_true_true. transitivity y; by apply Is_true_true.
Qed.

#[export] Instance leb_total : Total (ordby String.leb).
Proof. intros x y. apply String.leb_total. Qed.

(** The sorted set of the trimmed names. *)
Lemma capabilities_values l :
  (normalizeCapabilities l).2 = [] →
  let out := (normalizeCapabilities l).1 in
  (∀ c, c ∈ out ↔ ∃ x, x ∈ l ∧ c = TrimSpace x) ∧ NoDup out ∧
  StronglySorted (ordby String.leb) out ∧ (length out ≤ 16)%nat ∧
  Forall (λ c, capabilityPattern c = true) out.
Proof.
  intros Hnone.
  assert (∀ f, ¬ reports (normalizeCapabilities l).2 f) as Hno.
  { intros f. rewrite Hnone. by intros ?%reports_nil. }
  assert (∀ x, x ∈ l → capabilityPattern (TrimSpace x) = true) as Hall.
  { intros x [k Hk]%list_elem_of_lookup. destruct (capabilityPattern (TrimSpace x)) eqn:Hx; [done|].
    destruct (decide (length l ≤ 16)%nat).
    - exfalso. eapply Hno. apply capabilities_reports. right. split; [done|]. eauto 6.
    - exfalso. apply (Hno "required_capabilities"). apply capabilities_reports. left. split; [done|lia]. }
  assert (length l ≤ 16)%nat as Hlen.
  { destruct (decide (length l ≤ 16)%nat); [done|].
    exfalso. apply (Hno "required_capabilities"). apply capabilities_reports. left. split; [done|lia]. }
  clear Hno Hnone. unfold normalizeCapabilities, MaxRequiredCapabilities.
  rewrite (proj2 (Nat.ltb_ge _ _) Hlen).
  destruct (collect_values 0 [] l) as (Hin & Hnd & Hle).
  destruct (collect_capabilities 0 [] l) as [out errs]. simpl in *.
  pose proof (merge_sort_Permutation (ordby String.leb) out) as Hp. fold (sort_Strings out) in Hp.
  assert (∀ c, c ∈ sort_Strings out ↔ ∃ x, x ∈ l ∧ c = TrimSpace x) as Hspec.
  { intros c. rewrite Hp, Hin, elem_of_nil. naive_solver. }
  split_and!; [done|by rewrite Hp|apply StronglySorted_merge_sort; apply _|rewrite Hp; lia|].
  apply Forall_forall. intros c (x & Hx & ->)%Hspec. by apply Hall.
Qed.

(** ** Normalization *)

(** The request a valid submission stands for. *)
Definition normal_request (r : SubmitRequest) (payload : string) (caps : list string)
    : NormalizedRequest :=
  mkNormalized (TrimSpace (q_queue r)) (TrimSpace (q_type r)) payload
    (default 50%Z (q_priority r)) (default 3%Z (q_max_attempts r))
    (default 300%Z (q_timeout_seconds r)) caps
    (q_scheduled_at r ≫= λ s, parse_RFC3339 (TrimSpace s)).

(** [caps] is the sorted set of the names [l] after trimming. *)
Definition capability_set (l caps : list string) : Prop :=
  (∀ c, c ∈ caps ↔ ∃ x, x ∈ l ∧ c = TrimSpace x) ∧ NoDup caps ∧
  StronglySorted (ordby String.leb) caps.

Lemma number_value field suffix deflt lo hi v :
  (normalize_number field suffix deflt lo hi v).1 = default deflt v.
Proof. by destruct v. Qed.

Lemma app_nil_inv {A} (l1 l2 : list A) : (l1 ++ l2)%list = [] → l1 = [] ∧ l2 = [].
Proof. by destruct l1, l2. Qed.

Lemma reports_none l : (∀ f, ¬ reports l f) → l = [].
Proof. destruct l as [|[f m] l]; [done|]. intros H. destruct (H f). exists m. by left. Qed.

Lemma payload_value e raw : (normalize_payload e raw).2 = [] →
  ∃ t, CanonicalJSON e raw = Ok (String "{" t) ∧ (normalize_payload e raw).1 = String "{" t.
Proof.
  unfold normalize_payload. destruct (String.length raw =? 0)%nat; [done|].
  destruct (CanonicalJSON e raw) as [[|c s]|]; [done| |done].
  destruct (decide (c = "{"%char)) as [->|Hc]; [by exists s|].
  destruct c as [[] [] [] [] [] [] [] []]; done.
Qed.

Lemma schedule_value v : (normalize_schedule v).2 = [] →
  (normalize_schedule v).1 = v ≫= λ s, parse_RFC3339 (TrimSpace s).
Proof. unfold normalize_schedule. destruct v as [s|]; [|done]. simpl. by destruct (parse_RFC3339 _). Qed.

(** The problems [Normalize] collects are those of [bad_field]. *)
Definition problems_of (e : string → string) (r : SubmitRequest) : list FieldError :=
  (name_problems "queue" name_pattern queueNamePattern (TrimSpace (q_queue r))
   ++ name_problems "job_type" "^[a-z0-9][a-z0-9._-]{0,127}$" jobTypePattern (TrimSpace (q_type r))
   ++ (normalize_payload e (q_payload r)).2
   ++ (normalize_number "priority" "" 50 0 100 (q_priority r)).2
   ++ (normalize_number "max_attempts" " (it counts the first attempt)" 3 1 100 (q_max_attempts r)).2
   ++ (normalize_number "timeout_seconds" "" 300 1 86400 (q_timeout_seconds r)).2
   ++ (normalize_schedule (q_scheduled_at r)).2
   ++ (normalizeCapabilities (q_required_capabilities r)).2)%list.

Lemma problems_reports e r f : reports (problems_of e r) f ↔ bad_field e r f.
Proof.
  unfold problems_of. rewrite !reports_app. unfold queueNamePattern, jobTypePattern.
  rewrite !name_problems_reports, payload_reports, !number_reports, schedule_reports,
    capabilities_reports. split.
  - intros [[-> H]|[[-> H]|[[-> H]|[(-> & n & ? & ?)|[(-> & n & ? & ?)|[(-> & n & ? & ?)|
      [(-> & s & ? & ?)|[[-> H]|(? & i & c & ? & ? & ->)]]]]]]]]; by econstructor.
  - destruct 1; naive_solver.
Qed.

Lemma Normalize_unfold e r :
  Normalize e r = match problems_of e r with
                  | [] => Ok (normal_request r (normalize_payload e (q_payload r)).1
                                (normalizeCapabilities (q_required_capabilities r)).1)
                  | errs => Err errs
                  end.
Proof.
  unfold Normalize, problems_of, normal_request, DefaultPriority, MinPriority, MaxPriority,
    DefaultMaxAttempts, MinMaxAttempts, MaxMaxAttempts, DefaultTimeoutSeconds, MinTimeoutSeconds,
    MaxTimeoutSeconds.
  pose proof (schedule_value (q_scheduled_at r)) as Hs.
  destruct (normalize_payload e (q_payload r)) as [p e3].
  destruct (normalize_schedule (q_scheduled_at r)) as [s e7].
  destruct (normalizeCapabilities (q_required_capabilities r)) as [c e8].
  rewrite <-(number_value "priority" "" 50 0 100 (q_priority r)),
    <-(number_value "max_attempts" " (it counts the first attempt)" 3 1 100 (q_max_attempts r)),
    <-(number_value "timeout_seconds" "" 300 1 86400 (q_timeout_seconds r)).
  destruct (normalize_number "priority" _ _ _ _ _) as [n4 e4].
  destruct (normalize_number "max_attempts" _ _ _ _ _) as [n5 e5].
  destruct (normalize_number "timeout_seconds" _ _ _ _ _) as [n6 e6].
  simpl. set (errs := (_ ++ _)%list). destruct errs eqn:E; [|done]. subst errs.
  repeat (apply app_nil_inv in E as [? E]). simplify_eq. simpl in Hs. by rewrite Hs.
Qed.

(** C25: validation reports exactly what is wrong.  A request is refused exactly
    when one of its fields is bad, and the fields named in the errors are exactly
    the bad ones, all of them at once; an accepted request is the given one with
    names trimmed, defaults filled in, the payload in canonical form (a JSON
    object), the schedule as an instant and the capabilities as a sorted set. *)
Theorem Normalize_reports_problems e r :
  match Normalize e r with
  | Ok n =>
    (∀ f, ¬ bad_field e r f) ∧
    ∃ t caps, CanonicalJSON e (q_payload r) = Ok (String "{" t) ∧
      capability_set (q_required_capabilities r) caps ∧ n = normal_request r (String "{" t) caps
  | Err errs => errs ≠ [] ∧ ∀ f, bad_field e r f ↔ reports errs f
  end.
Proof.
  rewrite Normalize_unfold. pose proof (problems_reports e r) as Hp.
  destruct (problems_of e r) as [|x l] eqn:E; [|by split; [|intros f; rewrite Hp]].
  split; [intros f; rewrite <-Hp; by intros ?%reports_nil|].
  unfold problems_of in E. repeat (apply app_nil_inv in E as [? E]).
  destruct (payload_value e (q_payload r)) as (t & Hc & ->); [done|].
  destruct (capabilities_values (q_required_capabilities r)) as (Hin & Hnd & Hs & _); [done|].
  exists t. eexists. by split_and!.
Qed.

(** ** What the schema asks of a submission *)

(** *** Fingerprints are 64 hexadecimal digits *)

Lemma compress_round_length st kw : length st = 8%nat → length (compress_round st kw) = 8%nat.
Proof. intros H. unfold compress_round. do 8 (destruct st as [|? st]; [done|]). by destruct st. Qed.

Lemma compress_length st block : length st = 8%nat → length (compress st block) = 8%nat.
Proof.
  intros H. unfold compress. rewrite length_zip_with.
  enough (length (fold_left compress_round (zip round_constants (rev (schedule 48 (rev block)))) st) = 8%nat)
    as -> by (rewrite H; done).
  generalize (zip round_constants (rev (schedule 48 (rev block)))). intros l. revert st H.
  induction l as [|kw l IH]; intros st H; [done|]. simpl. by apply IH, compress_round_length.
Qed.

Lemma sum256_bytes s : length (sum256 s) = 32%nat ∧ Forall (λ b, 0 ≤ b < 256)%Z (sum256 s).
Proof.
  unfold sum256.
  assert (∀ l st, length st = 8%nat → length (fold_left compress l st) = 8%nat) as Hf.
  { induction l as [|b l IH]; intros st H; [done|]. simpl. by apply IH, compress_length. }
  generalize (fold_left compress (blocks (length (words_of (pad (bytes_of s))))
    (words_of (pad (bytes_of s)))) initial_state) (Hf (blocks (length (words_of (pad (bytes_of s))))
    (words_of (pad (bytes_of s)))) initial_state eq_refl).
  intros l Hl. do 8 (destruct l as [|? l]; [done|]). destruct l; [|done]. cbn [map concat]. split.
  - rewrite !length_app, !be_bytes_length. done.
  - rewrite !Forall_app. split_and!; try apply be_bytes_range. constructor.
Qed.

Lemma hex_digit_ok n : (0 ≤ n < 16)%Z → is_hex_digit (hex_digit n) = true.
Proof.
  intros Hn. unfold hex_digit, is_hex_digit, between.
  destruct (n <? 10)%Z eqn:H; bools; rewrite code_ascii by lia; apply orb_true_iff;
    [left|right]; apply andb_true_iff; split; apply N.leb_le; lia.
Qed.

Lemma hex_encode_ok l : Forall (λ b, 0 ≤ b < 256)%Z l →
  String.length (hex_EncodeToString l) = (2 * length l)%nat ∧
  all_chars is_hex_digit (hex_EncodeToString l) = true.
Proof.
  induction 1 as [|b l Hb Hl [IH1 IH2]]; [done|]. simpl. rewrite IH1, IH2. split; [lia|].
  rewrite !hex_digit_ok; [done|..].
  - change 15%Z with (Z.ones 4). rewrite Z.land_ones by lia. by apply Z.mod_pos_bound.
  - rewrite Z.shiftr_div_pow2 by lia. change (2 ^ 4)%Z with 16%Z. split; [apply Z.div_pos; lia|].
    apply Z.div_lt_upper_bound; lia.
Qed.

Lemma Fingerprint_hex n : is_hex64 (Fingerprint n) = true.
Proof.
  unfold Fingerprint, sha256_hex, is_hex64. destruct (sum256_bytes (fingerprint_stream n)) as [Hl Hb].
  destruct (hex_encode_ok _ Hb) as [-> ->]. by rewrite Hl.
Qed.

(** *** A valid key has between 1 and 255 characters *)

Lemma pg_length_le s : (pg_length s ≤ String.length s)%nat.
Proof. induction s as [|c s IH]; [done|]. simpl. destruct (between 128 191 c); lia. Qed.

Lemma pg_length_pos s : utf8_valid s → s ≠ "" → (1 ≤ pg_length s)%nat.
Proof.
  intros ([|r rs] & Hrs & ->) Hne; [done|]. apply Forall_cons in Hrs as [Hr _].
  rewrite encode_runes_cons. unfold encode_rune. unfold scalar in Hr.
  assert (∀ c t, (code c < 128 ∨ 191 < code c)%N → (1 ≤ pg_length (String c t))%nat) as Hlead.
  { intros c t Hc. simpl. destruct (between 128 191 c) eqn:Hb; [|lia]. apply between_spec in Hb. lia. }
  repeat case_match; rewrite append_cons; apply Hlead;
    repeat match goal with
    | H : (_ <? _)%N = true |- _ => apply N.ltb_lt in H
    | H : (_ <? _)%N = false |- _ => apply N.ltb_ge in H end;
    rewrite code_ascii; try lia.
  all: zify; Z.to_euclidean_division_equations; lia.
Qed.

Lemma valid_key_length key :
  ValidateIdempotencyKey key = [] → utf8_valid key →
  (1 <=? pg_length key)%nat && (pg_length key <=? 255)%nat = true.
Proof.
  unfold ValidateIdempotencyKey, MaxIdempotencyKeyLen. intros H Hu.
  case_bool_decide as Ht; [done|]. destruct (255 <? String.length key)%nat eqn:Hl; [done|].
  apply Nat.ltb_ge in Hl. apply andb_true_iff. rewrite !Nat.leb_le.
  pose proof (pg_length_le key). split; [|lia]. apply pg_length_pos; [done|]. by intros ->.
Qed.

(** ** A valid submission is accepted *)

(** What the environment promises a submission: new uuids, and a PostgreSQL that
    stores the payload and the notification as JSON objects. *)
Record submission_supplies (w : World) (payload : string) : Prop := {
  sb_job : jobs (db w) !! uuids w (drawn w) = None;
  sb_event : outbox_events (db w) !! uuids w (S (drawn w)) = None;
  sb_payload : ∃ t, jsonb w payload = Some t ∧ jsonb_object t = true;
  sb_notification : ∀ queue job, ∃ t,
    jsonb w (work_available_data queue job) = Some t ∧ jsonb_object t = true;
}.

(** A W3C trace context, or none. *)
Definition trace_ok (trace : option TraceContext) : Prop :=
  match trace with
  | None => True
  | Some t => Traceparent t = "" ∨
      match_traceparent (Traceparent t) = true ∧ (pg_length (Tracestate t) ≤ 512)%nat
  end.

Lemma trace_columns_ok trace : trace_ok trace →
  let '(tp, ts) := trace_columns trace in
  match tp with None => true | Some t => match_traceparent t end = true ∧
  match ts with None => true | Some t => (pg_length t <=? 512)%nat end = true.
Proof.
  unfold trace_columns. destruct trace as [t|]; [|done]. intros [He|[Hp Hs]].
  - by rewrite bool_decide_eq_true_2.
  - case_bool_decide; [done|]. split; [done|]. case_bool_decide; [done|]. by apply Nat.leb_le.
Qed.

Lemma InsertWorkAvailable_stored job queue gen trace w :
  outbox_events (db w) !! uuids w (drawn w) = None →
  (∀ q u, ∃ t, jsonb w (work_available_data q u) = Some t ∧ jsonb_object t = true) →
  trace_ok trace → (1 ≤ gen)%Z → is_Some (jobs (db w) !! job) →
  ∃ id w', InsertWorkAvailableTx job queue gen trace w = (Ok id, w').
Proof.
  intros He Hdoc Ht Hg [j Hjob]. unfold InsertWorkAvailableTx.
  rewrite (proj2 (Z.ltb_ge _ _) Hg). destruct (Hdoc queue (uuid_String w job)) as (t & Hdt & Hobj).
  apply trace_columns_ok in Ht. destruct (trace_columns trace) as [tp ts]. destruct Ht as [Htp Hts].
  eexists _, _. etrans; [eapply bind_run; reflexivity|]. etrans; [eapply bind_run; reflexivity|].
  etrans; [eapply bind_run, to_jsonb_run; exact Hdt|]. etrans; [eapply bind_run; reflexivity|].
  etrans; [eapply bind_run, sql_insert_run; [exact He|]|reflexivity].
  apply pg_verdict_None. simpl. rewrite Hjob. split_and!; [|done..]. unfold event_check. simpl.
  by rewrite Hobj, Htp, Hts, (proj2 (Z.leb_le _ _) Hg).
Qed.

Lemma bind_reaches {A B} (m : Tx A) (f : A → Tx B) w a w1 r :
  m w = (Ok a, w1) → (∃ w', f a w1 = (r, w')) → ∃ w', (m ≫= f) w = (r, w').
Proof. intros Hm [w' Hf]. exists w'. by rewrite (bind_run _ _ _ _ _ Hm). Qed.

Lemma transaction_reaches {A} (body : Tx (bool * A)) w a :
  (∃ w', body (begin_tx w) = (Ok (true, a), w')) → ∃ w', transaction body w = (Ok a, w').
Proof. intros [w' Hb]. exists w'. by apply transaction_commits. Qed.

(** The row of a validated request passes the CHECKs of the table. *)
Lemma normal_row_check e r n id p scope w :
  Normalize e r = Ok n → scope_ok scope = true → jsonb_object p = true →
  job_check id (stored_job p (new_job scope n (first_reading w) (txstart (begin_tx w)))) = true.
Proof.
  intros Hn Hs Hp. rewrite Normalize_unfold in Hn.
  destruct (problems_of e r) as [|x l] eqn:E; [|done].
  assert (∀ f, ¬ bad_field e r f) as Hok.
  { intros f Hf%problems_reports. rewrite E in Hf. by apply reports_nil in Hf. }
  injection Hn as <-. unfold job_check. simpl.
  assert (match_name 127 (TrimSpace (q_type r)) = true) as ->.
  { destruct (match_name 127 (TrimSpace (q_type r))) eqn:Hm; [done|]. by destruct (Hok _ (bad_type e r Hm)). }
  assert (∀ lo hi deflt v f, (∀ k, v = Some k → ¬ (lo ≤ k ≤ hi)%Z → bad_field e r f) → (lo ≤ deflt ≤ hi)%Z →
    ((lo <=? default deflt v) && (default deflt v <=? hi))%Z = true) as Hnum.
  { intros lo hi deflt v f Hbad Hd. apply andb_true_iff. rewrite !Z.leb_le.
    destruct v as [k|]; [|done]. simpl. destruct (decide (lo ≤ k ≤ hi)%Z); [done|].
    by destruct (Hok f (Hbad k eq_refl n)). }
  rewrite Hs, Hp, (Hnum 0 100 50 _ _ (bad_priority e r))%Z, (Hnum 1 100 3 _ _ (bad_max_attempts e r))%Z,
    (Hnum 1 86400 300 _ _ (bad_timeout e r))%Z by lia.
  destruct (q_scheduled_at r ≫= _) as [t|]; simpl; [|done]. by destruct (first_reading w <? t)%Z.
Qed.

(** A valid submission is accepted.  When [Normalize] lets a request through
    and [ValidateIdempotencyKey] its key, the queue exists and the key is unused,
    the submission transaction always commits with a new job: no CHECK, foreign
    key or unique constraint of the job, idempotency and outbox tables stands in
    the way of anything validation admits. *)
Theorem valid_submission_accepted e r n scope key trace w :
  Normalize e r = Ok n → ValidateIdempotencyKey key = [] → utf8_valid key →
  scope_ok scope = true → trace_ok trace →
  is_Some (queues (db w) !! n_queue n) → idempotency_records (db w) !! (scope, key) = None →
  submission_supplies w (n_payload n) →
  ∃ w', Submit scope key n trace w =
    (Ok (mkSubmitResult (uuids w (drawn w))
       (new_job scope n (first_reading w) (txstart (begin_tx w))) false), w').
Proof.
  intros Hn Hkey Hu Hs Ht [q Hq] Hfree [Hj He (p & Hp & Hobj) Hdoc].
  pose proof (normal_row_check e r n (uuids w (drawn w)) p scope w Hn Hs Hobj) as Hcheck.
  set (job := new_job scope n (first_reading w) (txstart (begin_tx w))) in *.
  assert (∃ w', submit_tx scope key (Fingerprint n) n trace w = (Ok (Some (uuids w (drawn w), job)), w'))
    as [w' Htx].
  { apply transaction_reaches.
    eapply bind_reaches; [reflexivity|]. eapply bind_reaches; [reflexivity|].
    eapply bind_reaches; [reflexivity|]. cbv zeta.
    eapply bind_reaches; [apply to_jsonb_run; exact Hp|].
    eapply bind_reaches; [apply sql_insert_run; [exact Hj|]|].
    { apply pg_verdict_None. split_and!; [exact Hcheck|done|]. simpl. by rewrite Hq. }
    eapply bind_reaches; [apply sql_insert_fresh_run; [exact Hfree|]|].
    { apply pg_verdict_None. split_and!; [|done|].
      - apply andb_true_iff. split; [exact (valid_key_length key Hkey Hu)|apply Fingerprint_hex].
      - simpl. rewrite lookup_insert_eq. done. }
    cbv iota. case_bool_decide as Hst; [|by eexists]. change (j_status job = StatusQueued) in Hst.
    match goal with |- ∃ w', (_ ≫= _) ?w1 = _ =>
      destruct (InsertWorkAvailable_stored (uuids w (drawn w)) (j_queue job)
        (j_notification_generation job) trace w1) as (id & w2 & Hev) end.
    - exact He.
    - exact Hdoc.
    - exact Ht.
    - clear Hcheck. unfold job, new_job in *. simpl in *.
      destruct (n_scheduled_at n) as [t|]; [|done]. by destruct (first_reading w <? t)%Z.
    - simpl. rewrite lookup_insert_eq. done.
    - eapply bind_reaches; [etrans; [eapply bind_run; exact Hev|reflexivity]|by eexists]. }
  exists w'. unfold Submit. cbv zeta. etrans; [eapply bind_run; reflexivity|]. rewrite Hq. simpl.
  etrans; [eapply bind_run; exact Htx|reflexivity].
Qed.

Definition sc_raw_request : SubmitRequest :=
  mkSubmitRequest " default " "echo" (" { " ++ q2 "a" ++ " : 1 } ") None (Some 2%Z) None None
    ["gpu"; "cpu"; "gpu"].

Lemma valid_submission_accepted_witness :
  let n := mkNormalized "default" "echo" ("{" ++ q2 "a" ++ ":1}") 50 2 300 ["cpu"; "gpu"] None in
  Normalize (λ _, "") sc_raw_request = Ok n ∧
  ∃ job w', Submit "t1" "order-1" n None sc_empty_world = (Ok (mkSubmitResult 100 job false), w').
Proof.
  intros n. assert (Normalize (λ _, "") sc_raw_request = Ok n) as Hn by (vm_compute; reflexivity).
  split; [exact Hn|]. eexists.
  apply (valid_submission_accepted (λ _, "") sc_raw_request n "t1" "order-1" None sc_empty_world Hn).
  - vm_compute. reflexivity.
  - exists [111; 114; 100; 101; 114; 45; 49]%N. split; [|vm_compute; reflexivity].
    repeat (apply List.Forall_cons; [left; reflexivity|]). apply List.Forall_nil.
  - reflexivity.
  - exact I.
  - vm_compute. eexists. reflexivity.
  - reflexivity.
  - split; [reflexivity|reflexivity|eexists; split; reflexivity|].
    intros q u. eexists. split; reflexivity.
Defined.
