(* ===== verification/NotificationTheorems.v ===== *)
(** * From the outbox to the worker

    The message of an event names, to a worker, the event, its queue and its
    trace: encoding by the outbox and decoding by the worker are inverse. *)

From S2P Require Import Prelude.
From S2P Require Import GoText.
From S2P Require Import GoJson.
From S2P Require Import GoTime.
From S2P Require Import GoMarshal.
From S2P Require Import Schema.
From S2P Require Import Lifecycle.
From S2P Require Import Outbox.
From S2P Require Import Publisher.
From S2P Require Import Notification.
From S2P Require Import GoBytes.
From S2P Require Import WorkersStore.
From S2P Require Import Invariant.
From S2P Require Import Transitions.
From S2P Require Import Refinement.
From S2P Require Import System.
From S2P Require Import Scenario.
From S2P Require Import Running.
From S2P Require Import CanonicalTheorems.
From S2P Require Import JsonObjects.

Local Open Scope string_scope.

(** ** The data of a notification *)

Definition data_members (queue job : string) : list (string * string * json) :=
  [ (("queue", quoted queue), JString queue); (("job_id", quoted job), JString job) ].

(** The text PostgreSQL gives for the stored jsonb: the members in the order of
    their length, a space after each separator. *)
Definition jsonb_text (queue job : string) : string :=
  object_text " " (map fst (data_members queue job)).

Definition data_text (queue job : string) : string :=
  object_text "" (map fst (data_members queue job)).

Lemma data_good queue job : plain queue = true → plain job = true →
  Forall (good 0) (data_members queue job).
Proof.
  intros Hq Hj. repeat constructor; try (by apply reads_quoted); by apply plain_valid.
Qed.

Lemma compact_space f s : compact_chars (S f) false false (" " ++ s) = compact_chars f false false s.
Proof. done. Qed.

Lemma compact_data queue job : plain queue = true → plain job = true →
  compact_chars (String.length (jsonb_text queue job)) false false (jsonb_text queue job)
    = data_text queue job.
Proof.
  intros Hq Hj.
  assert (∀ sp, object_text sp (map fst (data_members queue job)) =
    String "{" (quoted "queue" ++ String ":" (sp ++ quoted queue ++ String "," (sp ++
      quoted "job_id" ++ String ":" (sp ++ quoted job ++ String "}" ""))))) as E.
  { intros sp. unfold object_text. cbn [map data_members]. rewrite <-(append_empty_r "}").
    change (members_text sp (map fst (data_members queue job))) with
      (members_text sp [("queue", quoted queue); ("job_id", quoted job)]).
    change ("{" ++ ?y) with (String "{" y). f_equal.
    change ("}" ++ "") with (String "}" ""). rewrite members_text_after. cbn [fst snd after_member].
    change (append_string true "queue") with (quoted "queue"). do 5 f_equal.
    by rewrite members_text_after. }
  unfold jsonb_text, data_text. rewrite !E.
  match goal with |- compact_chars ?n _ _ _ = _ =>
    replace n with (S (String.length (quoted "queue") + S (S (String.length (quoted queue) + S (S
      (String.length (quoted "job_id") + S (S (String.length (quoted job) + 1))))))))
      by (cbn [String.length]; repeat (rewrite ?length_append; cbn [String.length]); lia) end.
  rewrite !append_nil.
  rewrite compact_plain_char by (done || by right). f_equal.
  rewrite compact_quoted by done. f_equal. rewrite compact_plain_char by (done || by right). f_equal.
  rewrite compact_space, compact_quoted by done. f_equal.
  rewrite compact_plain_char by (done || by right). f_equal.
  rewrite compact_space, compact_quoted by done. f_equal.
  rewrite compact_plain_char by (done || by right). f_equal.
  rewrite compact_space, compact_quoted by done. done.
Qed.

Lemma marshal_data queue job : plain queue = true → plain job = true →
  marshal_raw (jsonb_text queue job) = Some (data_text queue job).
Proof.
  intros Hq Hj. unfold marshal_raw. rewrite compact_data by done. unfold jsonb_text.
  rewrite (json_valid_reads _ _ _ (reads_object " " ltac:(by right) 0 _ (data_good queue job Hq Hj)
    ltac:(done) ltac:(done))) by done.
  done.
Qed.

(** ** Storing members *)

Lemma store_step {S} (fields : list (field S)) k raw ms x f x' :
  find_field fields k = Some f → f.2 raw x = Some x' →
  store_members fields ((k, raw) :: ms) x = store_members fields ms x'.
Proof. simpl. by intros -> ->. Qed.

Lemma into_string_quoted s y : plain s = true → into_string (quoted s) y = Some s.
Proof. intros Hs. by apply (into_string_reads 0); [apply reads_quoted|]. Qed.

Lemma into_string_appended s y : utf8_valid s → into_string (append_string true s) y = Some s.
Proof. intros Hs. by apply (into_string_reads 0); [apply reads_string|]. Qed.

Lemma Unmarshal_data queue job : plain queue = true → plain job = true →
  Unmarshal data_fields (data_text queue job) ("", "") = Some (queue, job).
Proof.
  intros Hq Hj. unfold data_text.
  rewrite (Unmarshal_object "" ltac:(by left) data_fields 0) by (done || by apply data_good).
  etrans; [eapply store_step; [reflexivity|cbn; by rewrite into_string_quoted]|].
  etrans; [eapply store_step; [reflexivity|cbn; by rewrite into_string_quoted]|]. done.
Qed.

(** ** The trace *)

Definition trace_members (t : TraceContext) : list (string * string * json) :=
  (("traceparent", append_string true (Traceparent t)), JString (Traceparent t))
  :: (if bool_decide (Tracestate t = "") then []
      else [ (("tracestate", append_string true (Tracestate t)), JString (Tracestate t)) ]).

Lemma trace_json_text t : trace_json t = object_text "" (map fst (trace_members t)).
Proof. unfold trace_json, trace_members. by case_bool_decide. Qed.

Definition trace_utf8 (t : TraceContext) : Prop :=
  utf8_valid (Traceparent t) ∧ utf8_valid (Tracestate t).

Lemma trace_good t : trace_utf8 t → Forall (good 0) (trace_members t).
Proof.
  intros [Hp Hs]. constructor; [split; [by apply plain_valid|by apply reads_string]|].
  case_bool_decide; repeat constructor; [by apply plain_valid|by apply reads_string..].
Qed.

Lemma trace_reads t : trace_utf8 t → ∃ v, reads 1 (trace_json t) v ∧ ∃ m, v = JObject m.
Proof.
  intros Ht. eexists. rewrite trace_json_text.
  split; [by apply (reads_object "" ltac:(by left) 0); [apply trace_good| |]|eauto].
Qed.

Lemma into_trace t : trace_utf8 t →
  into_pointer (mkTrace "" "") trace_fields (trace_json t) None = Some (Some t).
Proof.
  intros Ht. destruct (trace_reads t Ht) as (v & Hr & m & ->). unfold into_pointer.
  rewrite <-(append_empty_r (trace_json t)), (json_value_reads _ _ _ _ Hr) by done.
  rewrite append_empty_r, trace_json_text. pose proof (trace_good t Ht) as Hg. destruct Ht as [Hp Hs].
  rewrite (into_struct_object "" ltac:(by left) trace_fields 0) by done.
  unfold trace_members. destruct t as [tp ts]. simpl in Hp, Hs. cbn [Traceparent Tracestate].
  case_bool_decide as Hts.
  - subst ts. cbn [map fst]. erewrite store_step; [|reflexivity|cbn; by rewrite into_string_appended]. done.
  - cbn [map fst]. erewrite store_step; [|reflexivity|cbn; by rewrite into_string_appended].
    erewrite store_step; [|reflexivity|cbn; by rewrite into_string_appended]. done.
Qed.

(** ** The time *)

Lemma plain_append s t : plain s = true → plain t = true → plain (s ++ t) = true.
Proof. unfold plain. intros Hs Ht. by rewrite all_chars_append, Hs, Ht. Qed.

Lemma plain_padded w n : plain (padded w n) = true.
Proof. eapply all_chars_impl; [apply digit_plain|apply padded_digits]. Qed.

Lemma rtrim_plain s : plain s = true → plain (rtrim_zeros s) = true.
Proof.
  unfold plain. induction s as [|c s IH]; [done|]. simpl. intros [Hc Hs]%andb_true_iff.
  specialize (IH Hs). destruct (rtrim_zeros s) as [|c' s'].
  - destruct (Ascii.eqb c "0"); [done|]. simpl. by rewrite Hc.
  - simpl in *. by rewrite Hc.
Qed.

Lemma plain_fraction ns : plain (format_fraction ns) = true.
Proof.
  unfold format_fraction. case_match; [done|].
  apply (plain_append "."); [done|]. apply rtrim_plain, plain_padded.
Qed.

Lemma plain_format t : plain (format_RFC3339Nano t) = true.
Proof.
  unfold format_RFC3339Nano. destruct (civil_from_days _) as [[y m] d].
  rewrite !concat_empty_cons.
  repeat (apply plain_append; [first [apply all_chars_year; [apply digit_plain|reflexivity]
    |apply plain_padded|apply plain_fraction|reflexivity]|]). done.
Qed.

Lemma marshal_time_ok t : four_digit_year t → marshal_time t = Some (quoted (format_RFC3339Nano t)).
Proof.
  unfold four_digit_year, marshal_time, year_of. intros Ht.
  destruct (civil_from_days (t / 1000000000 / 86400)) as [[y m] d] eqn:E. simpl.
  apply civil_year_range in E as [H1 H2]; [|Z.to_euclidean_division_equations; lia].
  apply Z.leb_le in H1, H2. by rewrite H1, H2.
Qed.

Lemma get_last s c : String.get (String.length s) (s ++ String c "") = Some c.
Proof. induction s as [|c' s IH]; [done|]. exact IH. Qed.

Lemma substring_all s t : String.substring 0 (String.length s) (s ++ t) = s.
Proof. induction s as [|c s IH]; [by destruct t|]. rewrite append_cons. cbn. by rewrite IH. Qed.

Lemma into_time_quoted s x : into_time (quoted s) x = parse_RFC3339 s.
Proof.
  unfold into_time. rewrite bool_decide_eq_false_2 by done.
  assert (String.length (quoted s) = S (S (String.length s))) as Hl
    by (unfold quoted; cbn [String.length]; rewrite length_append; cbn [String.length]; lia).
  rewrite Hl. cbn [Nat.sub]. rewrite Nat.sub_0_r.
  assert (String.get (S (String.length s)) (quoted s) = Some dq) as -> by apply get_last.
  cbn -[String.substring parse_RFC3339]. unfold quoted. cbn [String.substring]. by rewrite substring_all.
Qed.

(** ** The message of an event *)

(** The trace an event keeps: none without a traceparent. *)
Definition kept_trace (trace : option TraceContext) : option TraceContext :=
  match trace with
  | Some t => if bool_decide (Traceparent t = "") then None else Some t
  | None => None
  end.

Lemma scan_trace trace tp ts : trace_columns trace = (tp, ts) →
  match tp with Some p => Some (mkTrace p (default "" ts)) | None => None end = kept_trace trace.
Proof.
  unfold trace_columns, kept_trace. destruct trace as [[p s]|]; [|by intros [= <- <-]]. cbn [Traceparent Tracestate].
  case_bool_decide; intros [= <- <-]; [done|]. case_bool_decide; simpl; congruence.
Qed.

Definition envelope_members (id queue job : string) (at_ : time) (trace : option TraceContext)
    (traceval : json) : list (string * string * json) :=
  (("event_id", append_string true id), JString id)
  :: (("event_type", append_string true EventWorkAvailable), JString EventWorkAvailable)
  :: (("schema_version", "1"), JNumber "1")
  :: (("occurred_at", quoted (format_RFC3339Nano at_)), JString (format_RFC3339Nano at_))
  :: match trace with
     | Some t => [ (("trace", trace_json t), traceval) ]
     | None => []
     end
  ++ [ (("data", data_text queue job),
        JObject (fold_left (λ acc m, map_put m.1.1 m.2 acc) (data_members queue job) [])) ].

Lemma reads_weaken n n' x v : reads n x v → (n ≤ n')%Z → reads n' x v.
Proof. intros [H1 H2] Hn. split; [done|]. intros. apply H2; [done|lia|done]. Qed.

Lemma envelope_good id queue job at_ trace traceval :
  plain id = true → plain queue = true → plain job = true →
  (∀ t, trace = Some t → reads 1 (trace_json t) traceval) →
  Forall (good 1) (envelope_members id queue job at_ trace traceval).
Proof.
  intros Hid Hq Hj Ht.
  assert (∀ k x v, plain k = true → reads 0 x v → good 1 ((k, x), v)) as H0.
  { intros k x v Hk Hx. split; [by apply plain_valid|]. by eapply reads_weaken. }
  constructor; [apply H0; [done|by apply reads_string, plain_valid]|].
  constructor; [apply H0; [done|by apply reads_string, plain_valid]|].
  constructor; [by apply H0, reads_one|].
  constructor; [by apply H0, reads_quoted, plain_format|].
  apply Forall_app. split.
  - destruct trace as [t|]; [|constructor]. constructor; [|constructor].
    split; [by apply plain_valid|by apply Ht].
  - constructor; [|constructor]. split; [by apply plain_valid|].
    by apply (reads_object "" ltac:(by left) 0); [apply data_good| |].
Qed.

Lemma envelope_text id queue job at_ trace traceval ev :
  ev_type ev = EventWorkAvailable → ev_schema_version ev = 1%Z → ev_created_at ev = at_ →
  ev_trace ev = trace → ev_data ev = jsonb_text queue job →
  four_digit_year at_ → plain queue = true → plain job = true →
  Body (λ _, id) ev = Some (object_text "" (map fst (envelope_members id queue job at_ trace traceval))).
Proof.
  intros E1 E2 E3 E4 E5 Ht Hq Hj. unfold Body, marshal_envelope, event_Envelope. cbn [env_occurred_at env_data
    env_event_id env_event_type env_schema_version env_trace].
  rewrite E1, E2, E3, E4, E5, marshal_time_ok, marshal_data by done. simpl. by destruct trace.
Qed.

Lemma store_envelope id queue job at_ trace traceval :
  plain id = true → four_digit_year at_ → (∀ t, trace = Some t → trace_utf8 t) →
  store_members envelope_fields (map fst (envelope_members id queue job at_ trace traceval)) zero_Envelope
  = Some (mkEnvelope id EventWorkAvailable 1 at_ trace (Some (data_text queue job))).
Proof.
  intros Hid Ht Htr. unfold envelope_members. cbn [map fst].
  erewrite store_step; [|reflexivity|cbn; by rewrite into_string_appended by (by apply plain_valid)].
  erewrite store_step; [|reflexivity|cbn; by rewrite into_string_appended by (by apply plain_valid)].
  erewrite store_step; [|reflexivity|reflexivity].
  erewrite store_step; [|reflexivity|cbn [snd]; by rewrite into_time_quoted, parse_format].
  destruct trace as [t|]; cbn [map fst app].
  - erewrite store_step; [|reflexivity|cbn [snd]; cbn -[into_pointer trace_json]; by rewrite into_trace by auto].
    erewrite store_step; [|reflexivity|reflexivity]. done.
  - erewrite store_step; [|reflexivity|reflexivity]. done.
Qed.

Lemma decode_envelope parse id idtext queue job at_ trace ev :
  parse idtext = Some id → id ≠ 0%N → plain idtext = true → plain job = true →
  plain queue = true → queue ≠ "" → four_digit_year at_ → (∀ t, trace = Some t → trace_utf8 t) →
  ev_type ev = EventWorkAvailable → ev_schema_version ev = 1%Z → ev_created_at ev = at_ →
  ev_trace ev = trace → ev_data ev = jsonb_text queue job →
  ∃ message, Body (λ _, idtext) ev = Some message ∧
    decodeWorkNotification parse message = Ok (mkNotification id queue trace).
Proof.
  intros Hp Hid Hi Hj Hq Hne Ht Htr E1 E2 E3 E4 E5.
  assert (∃ tv, ∀ t, trace = Some t → reads 1 (trace_json t) tv) as [tv Htv].
  { destruct trace as [t|]; [|exists JNull; by intros t [=]]. destruct (trace_reads t (Htr t eq_refl)) as (v & Hv & _).
    exists v. intros t' [= <-]. exact Hv. }
  eexists. split; [by apply (envelope_text _ queue job at_ trace tv)|].
  unfold decodeWorkNotification.
  rewrite (Unmarshal_object "" ltac:(by left) envelope_fields 1 _ _
    (envelope_good idtext queue job at_ trace tv Hi Hq Hj Htv) ltac:(discriminate) ltac:(done)).
  rewrite store_envelope by done. cbn -[Unmarshal data_text]. rewrite Hp.
  destruct (id =? 0)%N eqn:E0; [by apply N.eqb_eq in E0|].
  rewrite Unmarshal_data by done. cbn [fst]. by rewrite (bool_decide_eq_false_2 (queue = "")) by done.
Qed.

(** C23: a worker understands every notification.  The event a transaction inserts
    for a queue and a job is encoded by the publisher, and the worker decodes the
    message to exactly that event, that queue and the trace the event keeps, in
    every schema-valid queue name, with or without a trace.  PostgreSQL returns the
    stored data with a space after each separator; uuids print as plain text and
    parse back; the year has four digits. *)
Theorem notification_round_trip jobID queue generation trace w id w' :
  InsertWorkAvailableTx jobID queue generation trace w = (Ok id, w') →
  let text := uuid_String w in
  jsonb w (work_available_data queue (text jobID)) = Some (jsonb_text queue (text jobID)) →
  plain (text id) = true → plain (text jobID) = true → uuid_Parse w (text id) = Some id → id ≠ 0%N →
  match_name 63 queue = true → four_digit_year (txstart w) →
  (∀ t, trace = Some t → trace_utf8 t) →
  ∃ e message, outbox_events (db w') !! id = Some e ∧
    Body text (scan_event id e) = Some message ∧
    decodeWorkNotification (uuid_Parse w) message = Ok (mkNotification id queue (kept_trace trace)).
Proof.
  intros H text Hjs Hi Hj Hp H0 Hq Ht Htr. unfold InsertWorkAvailableTx in H.
  destruct (generation <? 1)%Z; [by apply throw_ok in H|].
  do 2 (erewrite bind_run in H by reflexivity). cbv beta in H.
  erewrite bind_run in H by (apply to_jsonb_run, Hjs). erewrite bind_run in H by reflexivity.
  cbv beta in H. destruct (trace_columns trace) as [tp ts] eqn:Hc.
  apply bind_ok in H as (u & w1 & Hins & H). apply ret_ok in H as [<- <-].
  set (id := uuids w (drawn w)) in *. set (e := mkEvent _ _ _ _ _ _ _ _ _ _ _ _ _ _) in Hins.
  apply sql_insert_db in Hins as (_ & _ & ->).
  destruct (decode_envelope (uuid_Parse w) id (text id) queue (text jobID) (txstart w) (kept_trace trace)
    (scan_event id e)) as (message & Hb & Hd); try done.
  - by eapply match_name_plain.
  - by intros ->.
  - intros t Ht'. apply Htr. unfold kept_trace in Ht'. destruct trace as [t0|]; [|done].
    by case_bool_decide; simplify_eq.
  - by apply scan_trace.
  - exists e, message. split; [apply lookup_insert_eq|]. split; [exact Hb|exact Hd].
Qed.

Lemma notification_round_trip_witness :
  let trace := mkTrace "00-0af7651916cd43dd8448eb211c80319c-b7ad6b7169203331-01" "" in
  let w := (sc_world (at_end sc_submitted) 0 900) <| txstart := sec 1015 |>
             <| jsonb := λ _, Some (jsonb_text "default" "100") |> in
  let run := InsertWorkAvailableTx 100 "default" 2 (Some trace) w in
  run.1 = Ok 900%N ∧
  ∃ e message, outbox_events (db run.2) !! 900%N = Some e ∧
    Body sc_uuid_String (scan_event 900 e) = Some message ∧
    decodeWorkNotification sc_uuid_Parse message = Ok (mkNotification 900 "default" (Some trace)).
Proof.
  intros trace w run. assert (run.1 = Ok 900%N) as Hrun by (vm_compute; reflexivity).
  split; [exact Hrun|].
  refine (notification_round_trip 100 "default" 2 (Some trace) w 900 run.2 _ _ _ _ _ _ _ _ _).
  - by apply run_answer.
  - reflexivity.
  - vm_compute. reflexivity.
  - vm_compute. reflexivity.
  - vm_compute. reflexivity.
  - done.
  - vm_compute. reflexivity.
  - split; vm_compute; [discriminate|reflexivity].
  - intros t [= <-]. split; by apply plain_valid.
Defined.
