(* ===== verification/ListingTheorems.v ===== *)
(** * Paging visits every row once

    Cursors survive the trip through the client, and a walk that follows them to
    the end returns each job that was there throughout exactly once, newest
    first, while the system keeps running; on a database that stands still it
    ends after the expected number of pages. *)

From S2P Require Import Prelude.
From S2P Require Import GoText.
From S2P Require Import GoTime.
From S2P Require Import Schema.
From S2P Require Import Lifecycle.
From S2P Require Import Outbox.
From S2P Require Import Submit.
From S2P Require Import JobsStore.
From S2P Require Import GoBytes.
From S2P Require Import Listing.
From S2P Require Import Invariant.
From S2P Require Import Transitions.
From S2P Require Import Refinement.
From S2P Require Import System.
From S2P Require Import Scenario.
From S2P Require Import History.
From S2P Require Import Running.

(** ** Cursors *)

Definition no_bar (s : string) : Prop := all_chars (λ c, negb (Ascii.eqb c "|")) s = true.

Lemma Cut_bar_append s t : no_bar s → Cut_bar (s ++ String "|" t) = Some (s, t).
Proof.
  unfold no_bar. induction s as [|c s IH]; simpl; intros H; [done|]. bools.
  by rewrite H, IH.
Qed.

Lemma all_chars_weaken (p q : ascii → bool) s :
  (∀ c, p c = true → q c = true) → all_chars p s = true → all_chars q s = true.
Proof. intros Hpq. induction s as [|c s IH]; simpl; intros H; [done|]. bools. by rewrite Hpq, IH. Qed.

Lemma no_bar_digits s : all_chars is_digit s = true → no_bar s.
Proof.
  apply all_chars_weaken. intros c Hc. apply between_spec in Hc. apply negb_true_iff, Ascii.eqb_neq.
  intros ->. vm_compute in Hc. by destruct Hc as [_ []].
Qed.

Lemma no_bar_year y : no_bar (append_year y).
Proof.
  apply all_chars_year; [|done]. intros c Hc. pose proof (no_bar_digits (String c "")) as H.
  unfold no_bar in H. simpl in H. rewrite !andb_true_r in H. by apply H.
Qed.

Lemma no_bar_append s t : no_bar s → no_bar t → no_bar (s ++ t).
Proof. unfold no_bar. rewrite all_chars_append. by intros -> ->. Qed.

Lemma no_bar_format t : no_bar (format_RFC3339Nano t).
Proof.
  unfold format_RFC3339Nano. destruct (civil_from_days _) as [[y m] d].
  rewrite !concat_empty_cons, concat_empty_nil.
  assert (∀ ns, no_bar (format_fraction ns)) as Hf.
  { intros ns. unfold format_fraction. case_match; [done|].
    apply (no_bar_append "."); [done|]. apply no_bar_digits.
    by destruct (rtrim_value 0 (padded 9 ns) (proj1 (padded_digits 9 ns))) as (_ & _ & ?). }
  repeat (apply no_bar_append; [first [apply no_bar_year|apply no_bar_digits, padded_digits|apply Hf|done]|]). done.
Qed.

(** A cursor is read as the position it was made for. *)
Lemma cursor_round_trip text parse t id :
  four_digit_year t → parse (text id) = Some id →
  decodeJobCursor parse (EncodeJobCursor text t id) = Some (t, id).
Proof.
  intros Ht Hid. unfold decodeJobCursor, EncodeJobCursor. rewrite b64_decode_encode.
  cbn [mbind option_bind]. rewrite append_cons, append_nil, (Cut_bar_append _ _ (no_bar_format t)).
  cbn [mbind option_bind]. rewrite parse_format by done. cbn [mbind option_bind]. by rewrite Hid.
Qed.

Lemma cursor_not_empty text t id : EncodeJobCursor text t id ≠ EmptyString.
Proof.
  unfold EncodeJobCursor. intros H. pose proof (b64_decode_encode
    (format_RFC3339Nano t ++ "|" ++ text id)) as Hd. rewrite H in Hd.
  assert (∀ s t, EmptyString ≠ (s ++ String "|" t)%string) as Hne by (by intros []).
  injection Hd as Hd. by eapply Hne.
Qed.

(** ** Keyset order *)

Lemma drop_elem {A} (x : A) n l : x ∈ drop n l → x ∈ l.
Proof. intros H. rewrite <-(take_drop n l). apply elem_of_app. by right. Qed.

Section keyset.
Context {V : Type} (created : V → time).

(** [x] comes strictly after [y] on the way through the pages. *)
Definition older (x y : uuid * V) : Prop :=
  (created x.2 < created y.2)%Z ∨ created x.2 = created y.2 ∧ (x.1 < y.1)%N.

Lemma newest_first_spec x y : newest_first created x y = true ↔ ¬ older x y.
Proof.
  unfold newest_first, older, then_by. destruct (Z.compare_spec (created y.2) (created x.2)) as [E|E|E].
  - rewrite N.leb_le. split; lia.
  - split; [lia|done].
  - split; [done|lia].
Qed.

#[export] Instance newest_first_trans : Transitive (ordby (newest_first created)).
Proof. intros x y z. unfold ordby. rewrite !newest_first_spec. unfold older. lia. Qed.

#[export] Instance newest_first_total : Total (ordby (newest_first created)).
Proof. intros x y. unfold ordby. rewrite !newest_first_spec. unfold older. lia. Qed.

Lemma older_total x y : x.1 ≠ y.1 → ¬ older x y → older y x.
Proof. unfold older. lia. Qed.

Lemma before_cursor_older t id (v : V) cid cv : t = created cv → timestamptz t = t →
  before_cursor created (Some (t, cid)) id v = true ↔ older (id, v) (cid, cv).
Proof.
  intros -> Ht. unfold before_cursor, older. rewrite Ht. simpl.
  rewrite orb_true_iff, andb_true_iff, Z.ltb_lt, Z.eqb_eq, N.ltb_lt. done.
Qed.

(** The first rows of a page and those left for the next ones. *)
Lemma sorted_split (l : list (uuid * V)) n x :
  StronglySorted (ordby (newest_first created)) l → NoDup l.*1 →
  l !! n = Some x →
  (∀ y, y ∈ take (S n) l → ¬ older y x) ∧ (∀ y, y ∈ drop (S n) l → older y x).
Proof.
  revert n. induction l as [|z l IH]; intros n Hs Hnd Hx; [done|].
  apply StronglySorted_inv in Hs as [Hs Hz]. simpl in Hnd. apply NoDup_cons in Hnd as [Hnz Hnd].
  assert (∀ y, y ∈ l → older y z) as Hlater.
  { intros y Hy. rewrite Forall_forall in Hz. apply older_total.
    - intros E. apply Hnz. rewrite E. by apply list_elem_of_fmap_2.
    - apply newest_first_spec. by apply Hz. }
  destruct n as [|n]; simpl in *.
  - injection Hx as ->. rewrite take_0, drop_0. split; [|done].
    intros y Hy%list_elem_of_singleton. subst y. unfold older. lia.
  - destruct (IH n Hs Hnd Hx) as [Ht Hd]. split; [|done].
    intros y [->|Hy]%elem_of_cons; [|by apply Ht].
    specialize (Hlater x). intros Ho. specialize (Hlater ltac:(by eapply list_elem_of_lookup_2)).
    unfold older in *. lia.
Qed.

(** The rows a page draws from, in order. *)
Definition matching (matches : uuid → V → bool) (after : option (time * uuid)) (m : gmap uuid V)
    : list (uuid * V) :=
  map_select (λ id v, matches id v && before_cursor created after id v) (newest_first created) m.

Lemma matching_elem matches after m id v :
  (id, v) ∈ matching matches after m ↔
  m !! id = Some v ∧ matches id v = true ∧ before_cursor created after id v = true.
Proof. unfold matching. by rewrite map_select_elem, andb_true_iff. Qed.

Lemma matching_sorted matches after m :
  StronglySorted (ordby (newest_first created)) (matching matches after m)
  ∧ NoDup (matching matches after m).*1.
Proof. split; [apply map_select_sorted; apply _|apply map_select_NoDup]. Qed.

(** A page is either the last one, with all the rows, or full, and then its last
    row is the cursor. *)
Lemma keyset_page_cases text limit matches after m :
  (0 < limit)%nat →
  let all := matching matches after m in
  keyset_page created text limit (keyset_rows created matches after limit m) =
    if (limit <? length all)%nat then
      match all !! pred limit with
      | Some (id, v) => (take limit all, EncodeJobCursor text (created v) id)
      | None => (take limit all, EmptyString)
      end
    else (all, EmptyString).
Proof.
  intros Hlim all. unfold keyset_page, keyset_rows. fold (matching matches after m). fold all.
  rewrite length_take. destruct (limit <? length all)%nat eqn:Hl.
  - apply Nat.ltb_lt in Hl. rewrite (proj2 (Nat.ltb_lt _ _)) by lia.
    rewrite lookup_take_lt by lia. by rewrite take_take, Nat.min_l by lia.
  - apply Nat.ltb_ge in Hl. rewrite (proj2 (Nat.ltb_ge _ _)) by lia. by rewrite take_ge by lia.
Qed.

(** The rows after a full page are those behind its cursor. *)
Lemma matching_next matches after m limit id v :
  (∀ k x, m !! k = Some x → timestamptz (created x) = created x) →
  (0 < limit)%nat → matching matches after m !! pred limit = Some (id, v) →
  matching matches (Some (created v, id)) m = drop limit (matching matches after m).
Proof.
  intros Hts Hlim Hx. destruct (matching_sorted matches after m) as [Hs Hnd].
  destruct (sorted_split _ _ _ Hs Hnd Hx) as [Ht Hd].
  replace (S (pred limit)) with limit in * by lia.
  assert ((id, v) ∈ matching matches after m) as Hin by by eapply list_elem_of_lookup_2.
  apply matching_elem in Hin as (Hm & _ & Hb).
  assert (∀ k x, before_cursor created (Some (created v, id)) k x = true ↔ older (k, x) (id, v))
    as Hold by (intros; by apply before_cursor_older; [|by eapply Hts]).
  apply (StronglySorted_unique_strong (ordby (newest_first created))).
  - intros [k x] [k' x'] H1 H2 H3 H4. apply newest_first_spec in H3, H4.
    assert (k = k') as ->. { unfold older in *. simpl in *. lia. }
    apply matching_elem in H1 as (H1 & _). apply drop_elem, matching_elem in H2 as (H2 & _).
    congruence.
  - apply matching_sorted.
  - rewrite <-(take_drop limit (matching matches after m)) in Hs.
    by apply StronglySorted_app_1_r in Hs.
  - apply NoDup_Permutation.
    + eapply NoDup_fmap_1, (proj2 (matching_sorted _ _ _)).
    + apply NoDup_fmap_1 in Hnd. by eapply sublist_NoDup, sublist_drop.
    + intros [k x]. rewrite matching_elem, Hold. split.
      * intros (Hk & Hmk & Ho).
        assert ((k, x) ∈ matching matches after m) as Hkx.
        { apply matching_elem. split_and!; [done..|]. destruct after as [[t c]|]; [|done].
          unfold before_cursor, older in *. simpl in *.
          rewrite orb_true_iff, andb_true_iff, Z.ltb_lt, Z.eqb_eq, N.ltb_lt in *. lia. }
        rewrite <-(take_drop limit (matching matches after m)) in Hkx.
        apply elem_of_app in Hkx as [Hkx|]; [|done]. by destruct (Ht _ Hkx).
      * intros Hkx. specialize (Hd _ Hkx). by apply drop_elem, matching_elem in Hkx as (? & ? & _).
Qed.
End keyset.

(** ** A walk through the job pages *)

Lemma ListJobs_ok scope f cursor limit w p w' :
  ListJobs scope f cursor limit w = (Ok p, w') →
  ∃ after, (if bool_decide (cursor = EmptyString) then after = None
            else is_Some after ∧ after = decodeJobCursor (uuid_Parse w) cursor) ∧
  let '(page, next) := keyset_page j_created_at (uuid_String w) (Z.to_nat (boundPage limit))
    (keyset_rows j_created_at (job_matches scope f) after (Z.to_nat (boundPage limit)) (jobs (db w))) in
  p = mkJobPage (map job_summary page) next.
Proof.
  unfold ListJobs. intros H. apply bind_ok in H as ([] & w1 & Hv & H).
  assert (w1 = w) as ->.
  { unfold JobFilter_Validate in Hv. repeat case_match; by apply ret_ok in Hv as [_ <-] || by apply throw_ok in Hv. }
  clear Hv. erewrite bind_run in H by reflexivity.
  apply bind_ok in H as (after & w1 & Hc & H). exists after. unfold read_cursor in Hc.
  case_bool_decide as He; [apply ret_ok in Hc as [<- <-]|].
  2: destruct (decodeJobCursor (uuid_Parse w) cursor) as [x|]; [apply ret_ok in Hc as [<- <-]|by apply throw_ok in Hc].
  all: erewrite bind_run in H by reflexivity; erewrite bind_run in H by reflexivity.
  all: split; [by eauto|]; destruct (keyset_page _ _ _ _) as [page next];
    by apply ret_ok in H as [<- _].
Qed.

(** One request per world, each with the cursor of the page before, until a page
    has none. *)
Fixpoint walk (scope : string) (f : JobFilter) (limit : Z) (cursor : string) (ws : list World)
    : result error (list JobSummary * string) :=
  match ws with
  | [] => Ok ([], cursor)
  | w :: ws' =>
    match (ListJobs scope f cursor limit w).1 with
    | Err e => Err e
    | Ok p =>
      if bool_decide (jp_next_cursor p = EmptyString) then Ok (jp_jobs p, EmptyString)
      else match walk scope f limit (jp_next_cursor p) ws' with
           | Err e => Err e
           | Ok (rest, c) => Ok (jp_jobs p ++ rest, c)
           end
    end
  end.

(** The requests meet the databases of one history. *)
Fixpoint consecutive (ws : list World) : Prop :=
  match ws with
  | w :: ((w' :: _) as ws') => rtc sys_step (db w) (db w') ∧ consecutive ws'
  | _ => True
  end.

(** The uuid texts are those of one library, which reads what it writes, and the
    stored creation times are PostgreSQL timestamps of four-digit years. *)
Definition listing_env (text : uuid → string) (parse : string → option uuid) (w : World) : Prop :=
  uuid_String w = text ∧ uuid_Parse w = parse ∧
  ∀ id j, jobs (db w) !! id = Some j → parse (text id) = Some id ∧
    four_digit_year (j_created_at j) ∧ timestamptz (j_created_at j) = j_created_at j.

(** [s] comes after [s'] in the listing. *)
Definition listed_after (s s' : JobSummary) : Prop :=
  (js_created_at s < js_created_at s')%Z ∨
  js_created_at s = js_created_at s' ∧ (js_id s < js_id s')%N.

(** The position a cursor stands for. *)
Definition cursor_at (text : uuid → string) (parse : string → option uuid) (cursor : string)
    (after : option (time * uuid)) : Prop :=
  match after with
  | None => cursor = EmptyString
  | Some (t, id) =>
    cursor = EncodeJobCursor text t id ∧ parse (text id) = Some id ∧ four_digit_year t ∧ timestamptz t = t
  end.

Definition behind (after : option (time * uuid)) (s : JobSummary) : Prop :=
  match after with
  | None => True
  | Some (t, id) => (js_created_at s < t)%Z ∨ js_created_at s = t ∧ (js_id s < id)%N
  end.

Lemma before_behind after id j :
  match after with Some (t, _) => timestamptz t = t | None => True end →
  before_cursor j_created_at after id j = true ↔ behind after (job_summary (id, j)).
Proof.
  destruct after as [[t c]|]; [|done]. simpl. intros ->.
  by rewrite orb_true_iff, andb_true_iff, Z.ltb_lt, Z.eqb_eq, N.ltb_lt.
Qed.

(** A page fetched with the cursor of a position. *)
Lemma ListJobs_page scope f limit cursor after text parse w p :
  (ListJobs scope f cursor limit w).1 = Ok p → listing_env text parse w → cursor_at text parse cursor after →
  let all := matching j_created_at (job_matches scope f) after (jobs (db w)) in
  let n := Z.to_nat (boundPage limit) in
  (jp_next_cursor p = EmptyString ∧ jp_jobs p = map job_summary all ∧ (length all ≤ n)%nat) ∨
  ∃ id j, (n < length all)%nat ∧ all !! pred n = Some (id, j) ∧
    jp_jobs p = map job_summary (take n all) ∧ jp_next_cursor p = EncodeJobCursor text (j_created_at j) id.
Proof.
  intros Hp (Htext & Hparse & _) Hc all n. apply run_answer in Hp.
  apply ListJobs_ok in Hp as (after' & Hafter & Hpage).
  assert (after' = after) as ->.
  { destruct after as [[t c]|]; simpl in Hc.
    - destruct Hc as (-> & Hid & Ht & _). rewrite bool_decide_eq_false_2 in Hafter by apply cursor_not_empty.
      destruct Hafter as [_ ->]. rewrite Hparse. by apply cursor_round_trip.
    - subst cursor. by rewrite bool_decide_eq_true_2 in Hafter. }
  rewrite Htext, keyset_page_cases in Hpage by (unfold boundPage, DefaultPageSize, MaxPageSize; repeat case_match; bools; lia).
  fold n in Hpage. fold all in Hpage. destruct (n <? length all)%nat eqn:Hl.
  - apply Nat.ltb_lt in Hl. destruct (lookup_lt_is_Some_2 all (pred n)) as [[id j] Hx]; [lia|].
    rewrite Hx in Hpage. right. exists id, j. by subst p.
  - apply Nat.ltb_ge in Hl. left. by subst p.
Qed.

Lemma listed_older id j id' j' :
  listed_after (job_summary (id, j)) (job_summary (id', j')) ↔ older j_created_at (id, j) (id', j').
Proof. done. Qed.

Lemma summaries_sorted l :
  StronglySorted (ordby (newest_first j_created_at)) l → NoDup l.*1 →
  StronglySorted (λ s s', listed_after s' s) (map job_summary l).
Proof.
  induction l as [|[id j] l IH]; intros Hs Hnd; [constructor|].
  apply StronglySorted_inv in Hs as [Hs Hx]. apply NoDup_cons in Hnd as [Hnx Hnd].
  constructor; [by apply IH|]. apply Forall_map. rewrite Forall_forall in *. intros [id' j'] Hin.
  simpl. apply listed_older, older_total.
  - simpl. intros ->. apply Hnx. by apply (list_elem_of_fmap_2 fst l (id', j')).
  - by apply newest_first_spec, Hx.
Qed.

(** A job keeps its place in the listing. *)
Lemma job_stays d d' id j : rtc sys_step d d' → jobs d !! id = Some j →
  ∃ j', jobs d' !! id = Some j' ∧ j_scope j' = j_scope j ∧ j_queue j' = j_queue j ∧
    j_created_at j' = j_created_at j.
Proof.
  intros Hd Hj. destruct (steps_follows _ _ (history_steps _ _ Hd) id j Hj) as (j' & Hj' & Hdef & _).
  exists j'. unfold job_def in Hdef. by simplify_eq.
Qed.

Lemma job_matches_stays scope f id j j' :
  jf_status f = EmptyString → j_scope j' = j_scope j → j_queue j' = j_queue j →
  job_matches scope f id j = true → job_matches scope f id j' = true.
Proof. unfold job_matches. intros -> -> ->. done. Qed.

Lemma walk_cons scope f limit cursor w ws p :
  (ListJobs scope f cursor limit w).1 = Ok p →
  walk scope f limit cursor (w :: ws) =
    if bool_decide (jp_next_cursor p = EmptyString) then Ok (jp_jobs p, EmptyString)
    else match walk scope f limit (jp_next_cursor p) ws with
         | Err e => Err e
         | Ok (rest, c) => Ok (jp_jobs p ++ rest, c)
         end.
Proof. simpl. by intros ->. Qed.

Lemma page_summaries_behind scope f after (m : gmap uuid Job) l :
  match after with Some (t, _) => timestamptz t = t | None => True end →
  (∀ x, x ∈ l → x ∈ matching j_created_at (job_matches scope f) after m) →
  Forall (behind after) (map job_summary l).
Proof.
  intros Ht Hl. apply Forall_map, Forall_forall. intros [id j] Hin.
  apply Hl, matching_elem in Hin as (_ & _ & Hb). by apply before_behind.
Qed.

(** What a walk from a position returned when it met the worlds [w :: ws]. *)
Record visits (scope : string) (f : JobFilter) (after : option (time * uuid)) (w : World)
    (ws : list World) (l : list JobSummary) : Prop := {
  vs_sorted : StronglySorted (λ s s', listed_after s' s) l;
  vs_behind : Forall (behind after) l;
  vs_rows : ∀ s, s ∈ l → ∃ w' j, w' ∈ w :: ws ∧ jobs (db w') !! js_id s = Some j ∧
    j_scope j = scope ∧ s = job_summary (js_id s, j);
  vs_all : jf_status f = EmptyString → ∀ id j, jobs (db w) !! id = Some j →
    job_matches scope f id j = true → before_cursor j_created_at after id j = true →
    id ∈ map js_id l;
}.

Section pages.
Context (scope : string) (f : JobFilter) (after : option (time * uuid)) (w : World).
Context (Hts : match after with Some (t, _) => timestamptz t = t | None => True end).
#[local] Abbreviation all := (matching j_created_at (job_matches scope f) after (jobs (db w))).

Lemma summary_listed id j l : (id, j) ∈ l → id ∈ map js_id (map job_summary l).
Proof.
  intros Hin. apply list_elem_of_fmap. exists (job_summary (id, j)). split; [done|].
  by apply list_elem_of_fmap_2.
Qed.

Lemma summary_rows ws l : (∀ x, x ∈ l → x ∈ all) → ∀ s, s ∈ map job_summary l →
  ∃ w' j, w' ∈ w :: ws ∧ jobs (db w') !! js_id s = Some j ∧ j_scope j = scope ∧
    s = job_summary (js_id s, j).
Proof.
  intros Hl s Hs. apply list_elem_of_fmap_1 in Hs as ([id j] & -> & Hin).
  apply Hl, matching_elem in Hin as (Hj & Hm & _). exists w, j.
  split_and!; [by left|done| |done]. unfold job_matches in Hm. by bools.
Qed.

(** The last page. *)
Lemma visits_last ws : visits scope f after w ws (map job_summary all).
Proof.
  destruct (matching_sorted j_created_at (job_matches scope f) after (jobs (db w))) as [Hs Hnd]. split.
  - by apply summaries_sorted.
  - by apply (page_summaries_behind scope f after (jobs (db w))).
  - by apply summary_rows.
  - intros _ id j Hj Hm Hb. by eapply summary_listed, matching_elem.
Qed.

(** A full page, followed by the rest of the walk from its last row. *)
Lemma visits_next n id j w2 ws rest :
  all !! pred n = Some (id, j) → (0 < n)%nat → timestamptz (j_created_at j) = j_created_at j →
  rtc sys_step (db w) (db w2) → visits scope f (Some (j_created_at j, id)) w2 ws rest →
  visits scope f after w (w2 :: ws) (map job_summary (take n all) ++ rest).
Proof.
  intros Hx Hpos Htsj Hstep [HsR HbR HfR HvR].
  destruct (matching_sorted j_created_at (job_matches scope f) after (jobs (db w))) as [Hs Hnd].
  destruct (sorted_split j_created_at _ _ _ Hs Hnd Hx) as [Htake Hdrop].
  replace (S (pred n)) with n in * by lia.
  assert (∀ x, x ∈ take n all → x ∈ all) as Hsub.
  { intros x Hin. rewrite <-(take_drop n all). apply elem_of_app. by left. }
  assert ((id, j) ∈ all) as (_ & _ & Hb)%matching_elem by by eapply list_elem_of_lookup_2.
  rewrite Forall_forall in HbR. split.
  - apply StronglySorted_app. split_and!; [|apply summaries_sorted|done].
    + intros s s' Hs1 Hs2. apply list_elem_of_fmap_1 in Hs1 as ([id1 j1] & -> & H1).
      specialize (HbR _ Hs2). specialize (Htake _ H1).
      unfold behind in HbR. unfold older in Htake. unfold listed_after. simpl in *. lia.
    + rewrite <-(take_drop n all) in Hs. by apply StronglySorted_app_1_l in Hs.
    + eapply sublist_NoDup; [exact Hnd|]. apply fmap_sublist, sublist_take.
  - apply Forall_app. split; [by apply (page_summaries_behind scope f after (jobs (db w)))|].
    apply Forall_forall. intros s Hs'. specialize (HbR s Hs'). apply before_behind in Hb; [|done].
    destruct after as [[t c]|]; [|done]. unfold behind in *. simpl in *. lia.
  - intros s [Hs'|Hs']%elem_of_app; [by apply (summary_rows (w2 :: ws) (take n all))|].
    destruct (HfR s Hs') as (w' & j' & ? & ? & ? & ?). exists w', j'. split_and!; [by right|done..].
  - intros Hst id0 j0 Hj0 Hm0 Hb0. rewrite map_app. apply elem_of_app.
    assert ((id0, j0) ∈ all) as Hin0 by by apply matching_elem.
    rewrite <-(take_drop n all) in Hin0. apply elem_of_app in Hin0 as [Hin0|Hin0].
    + left. by eapply summary_listed.
    + right. destruct (job_stays _ _ _ _ Hstep Hj0) as (j0' & Hj0' & E1 & E2 & E3).
      apply (HvR Hst id0 j0' Hj0'); [by eapply job_matches_stays|].
      apply (before_cursor_older _ _ _ _ _ j); [done|done|]. specialize (Hdrop _ Hin0).
      unfold older in *. simpl in *. by rewrite E3.
Qed.
End pages.

Lemma boundPage_pos limit : (0 < Z.to_nat (boundPage limit))%nat.
Proof. unfold boundPage, DefaultPageSize, MaxPageSize. repeat case_match; bools; lia. Qed.

Lemma walk_visits scope f limit text parse ws : ∀ w cursor after l,
  Forall (listing_env text parse) (w :: ws) → consecutive (w :: ws) → cursor_at text parse cursor after →
  walk scope f limit cursor (w :: ws) = Ok (l, EmptyString) → visits scope f after w ws l.
Proof.
  induction ws as [|w2 ws IH]; intros w cursor after l Henv Hcons Hc Hwalk;
    (destruct (ListJobs scope f cursor limit w).1 as [p|e] eqn:Hp; [|by simpl in Hwalk; rewrite Hp in Hwalk]);
    rewrite (walk_cons _ _ _ _ _ _ p Hp) in Hwalk; apply Forall_cons in Henv as [Hw Henv];
    assert (match after with Some (t, _) => timestamptz t = t | None => True end) as Hts
      by (destruct after as [[t c]|]; [by destruct Hc as (_ & _ & _ & ?)|done]);
    destruct (ListJobs_page _ _ _ _ _ _ _ _ _ Hp Hw Hc)
      as [(Hn & Hjobs & _)|(id & j & Hlen & Hx & Hjobs & Hn)];
    rewrite Hn, Hjobs in Hwalk.
  1, 3: rewrite bool_decide_eq_true_2 in Hwalk by done; injection Hwalk as <-; by apply visits_last.
  all: rewrite bool_decide_eq_false_2 in Hwalk by apply cursor_not_empty.
  { simpl in Hwalk. injection Hwalk as _ Hwalk. by destruct (cursor_not_empty _ _ _ Hwalk). }
  destruct (walk scope f limit (EncodeJobCursor text (j_created_at j) id) (w2 :: ws)) as [[rest c]|e] eqn:Hrest;
    [|done]. injection Hwalk as <- ->. destruct Hcons as [Hstep Hcons].
  assert ((id, j) ∈ matching j_created_at (job_matches scope f) after (jobs (db w))) as (Hj & _ & _)%matching_elem
    by by eapply list_elem_of_lookup_2.
  destruct (proj2 (proj2 Hw) _ _ Hj) as (Hid & Hfour & Htsj).
  eapply visits_next; [done|exact Hx|apply boundPage_pos|done|done|].
  eapply IH; [done|done| |exact Hrest]. done.
Qed.

Lemma consecutive_reach w ws w' : consecutive (w :: ws) → w' ∈ w :: ws → rtc sys_step (db w) (db w').
Proof.
  revert w. induction ws as [|w2 ws IH]; intros w Hc Hin.
  - apply list_elem_of_singleton in Hin as ->. done.
  - apply elem_of_cons in Hin as [->|Hin]; [done|]. destruct Hc as [Hstep Hc].
    etrans; [exact Hstep|by apply IH].
Qed.

Lemma consecutive_created ws w1 w2 id j1 j2 :
  consecutive ws → w1 ∈ ws → w2 ∈ ws → jobs (db w1) !! id = Some j1 → jobs (db w2) !! id = Some j2 →
  j_created_at j1 = j_created_at j2.
Proof.
  intros Hc H1 H2 Hj1 Hj2. induction ws as [|w ws IH]; [by apply elem_of_nil in H1|].
  assert (∀ x y jx jy, x = w → y ∈ w :: ws → jobs (db x) !! id = Some jx → jobs (db y) !! id = Some jy →
    j_created_at jx = j_created_at jy) as Hhead.
  { intros x y jx jy -> Hy Hx1 Hy1. pose proof (consecutive_reach _ _ _ Hc Hy) as Hr.
    destruct (job_stays _ _ _ _ Hr Hx1) as (j' & Hj' & _ & _ & E). congruence. }
  apply elem_of_cons in H1 as [->|H1]; [by eapply Hhead|].
  apply elem_of_cons in H2 as [->|H2]; [symmetry; eapply Hhead; [done|by right|done..]|].
  apply IH; [|done..]. destruct ws; [done|apply Hc].
Qed.

Lemma listed_once l : StronglySorted (λ s s', listed_after s' s) l →
  (∀ s s', s ∈ l → s' ∈ l → js_id s = js_id s' → js_created_at s = js_created_at s') →
  NoDup (map js_id l).
Proof.
  induction 1 as [|s l Hs IH Hall]; intros Hsame; [constructor|]. simpl. constructor.
  - intros (s' & E & Hin)%list_elem_of_fmap_1. rewrite Forall_forall in Hall. specialize (Hall s' Hin).
    pose proof (Hsame s s' ltac:(by left) ltac:(by right) E). unfold listed_after in Hall. lia.
  - apply IH. intros s1 s2 H1 H2. apply Hsame; by right.
Qed.

(** C26: a walk through the pages sees every job once.  Follow the cursors of
    [ListJobs] from the start until a page has none, one request after the other
    while the system goes on: every job of the scope (and of the queue, when one
    is given) that was there at the first request is returned, no job is returned
    twice, the order is by creation time and then id, newest first, and nothing
    of another scope is returned. *)
Theorem ListJobs_walk_complete scope queue limit text parse w ws l :
  Forall (listing_env text parse) (w :: ws) → consecutive (w :: ws) →
  walk scope (mkJobFilter "" queue) limit "" (w :: ws) = Ok (l, EmptyString) →
  NoDup (map js_id l) ∧ StronglySorted (λ s s', listed_after s' s) l ∧
  (∀ s, s ∈ l → ∃ w' j, w' ∈ w :: ws ∧ jobs (db w') !! js_id s = Some j ∧ j_scope j = scope) ∧
  (∀ id j, jobs (db w) !! id = Some j → j_scope j = scope → queue = EmptyString ∨ j_queue j = queue →
     id ∈ map js_id l).
Proof.
  intros Henv Hcons Hwalk. destruct (walk_visits _ _ _ _ _ _ _ _ None _ Henv Hcons eq_refl Hwalk)
    as [Hs _ Hr Ha]. split_and!; [|done| |].
  - apply listed_once; [done|]. intros s s' Hin Hin' E.
    destruct (Hr s Hin) as (w1 & j1 & Hw1 & Hj1 & _ & E1).
    destruct (Hr s' Hin') as (w2 & j2 & Hw2 & Hj2 & _ & E2).
    apply (f_equal js_created_at) in E1, E2. simpl in E1, E2. rewrite E1, E2.
    rewrite E in Hj1. exact (consecutive_created _ _ _ _ _ _ Hcons Hw1 Hw2 Hj1 Hj2).
  - intros s Hin. destruct (Hr s Hin) as (w' & j & ? & ? & ? & _). eauto.
  - intros id j Hj Hsc Hq. apply (Ha eq_refl id j Hj); [|done]. unfold job_matches. simpl.
    rewrite (bool_decide_eq_true_2 (j_scope j = scope)) by done.
    destruct Hq as [->| ->]; [done|]. simpl.
    rewrite (bool_decide_eq_true_2 (queue = queue)) by done. by rewrite orb_true_r.
Qed.

(** ** A walk ends *)

Definition filter_ok (f : JobFilter) : Prop := ∀ w, JobFilter_Validate f w = (Ok tt, w).

Lemma ListJobs_answers scope f limit cursor after text parse w :
  filter_ok f → listing_env text parse w → cursor_at text parse cursor after →
  ∃ p, (ListJobs scope f cursor limit w).1 = Ok p.
Proof.
  intros Hf (Htext & Hparse & _) Hc. unfold ListJobs.
  rewrite (bind_run _ _ _ _ _ (Hf w)). erewrite bind_run by reflexivity. rewrite Hparse.
  assert (read_cursor (decodeJobCursor parse) cursor w = (Ok after, w)) as Hr.
  { unfold read_cursor. destruct after as [[t id]|]; simpl in Hc.
    - destruct Hc as (-> & Hid & Ht & _). rewrite bool_decide_eq_false_2 by apply cursor_not_empty.
      by rewrite cursor_round_trip.
    - by rewrite bool_decide_eq_true_2. }
  rewrite (bind_run _ _ _ _ _ Hr). erewrite bind_run by reflexivity. erewrite bind_run by reflexivity.
  destruct (keyset_page _ _ _ _). by eexists.
Qed.

Lemma walk_still scope f limit text parse d ws : ∀ cursor after,
  filter_ok f → Forall (λ w, listing_env text parse w ∧ db w = d) ws → cursor_at text parse cursor after →
  let all := matching j_created_at (job_matches scope f) after (jobs d) in
  ws ≠ [] → (length all ≤ Z.to_nat (boundPage limit) * length ws)%nat →
  walk scope f limit cursor ws = Ok (map job_summary all, EmptyString).
Proof.
  induction ws as [|w ws IH]; intros cursor after Hf Henv Hc all Hne Hlen; [done|].
  apply Forall_cons in Henv as [[Hw Hd] Henv].
  destruct (ListJobs_answers scope f limit _ _ _ _ _ Hf Hw Hc) as [p Hp].
  rewrite (walk_cons _ _ _ _ _ _ p Hp). pose proof (ListJobs_page _ _ _ _ _ _ _ _ _ Hp Hw Hc) as Hpage.
  cbv zeta in Hpage. rewrite Hd in Hpage. fold all in Hpage.
  destruct Hpage as [(-> & -> & _)|(id & j & Hlt & Hx & -> & ->)]; [done|].
  rewrite bool_decide_eq_false_2 by apply cursor_not_empty.
  assert (∀ k x, jobs d !! k = Some x → parse (text k) = Some k ∧
    four_digit_year (j_created_at x) ∧ timestamptz (j_created_at x) = j_created_at x)
    as Hts by (rewrite <-Hd; apply Hw).
  assert ((id, j) ∈ all) as (Hj & _ & _)%matching_elem by by eapply list_elem_of_lookup_2.
  pose proof (matching_next j_created_at (job_matches scope f) after (jobs d) _ id j
    (λ k x H, proj2 (proj2 (Hts k x H))) (boundPage_pos limit) Hx) as Hnext. fold all in Hnext.
  destruct ws as [|w' ws]; [simpl in Hlen; lia|].
  rewrite (IH _ (Some (j_created_at j, id)) Hf Henv).
  - rewrite Hnext, <-map_app, take_drop. done.
  - simpl. by destruct (Hts _ _ Hj) as (? & ? & ?).
  - done.
  - rewrite Hnext, length_drop. simpl in *. lia.
Qed.

(** Following the cursors comes to an end.  While the database stands still,
    [n] requests of a page size [k] list everything when there are at most
    [n * k] jobs to list: the walk then ends without a further cursor, and what
    it returned is one summary for each job the filter admits, no matter how
    large a page the client asked for. *)
Theorem ListJobs_walk_ends scope f limit text parse d ws :
  filter_ok f → Forall (λ w, listing_env text parse w ∧ db w = d) ws → ws ≠ [] →
  (map_count (job_matches scope f) (jobs d) ≤ Z.to_nat (boundPage limit) * length ws)%nat →
  ∃ l, walk scope f limit "" ws = Ok (l, EmptyString) ∧
    length l = map_count (job_matches scope f) (jobs d) ∧
    (∀ id, id ∈ map js_id l ↔ ∃ j, jobs d !! id = Some j ∧ job_matches scope f id j = true).
Proof.
  intros Hf Henv Hne Hle. set (all := matching j_created_at (job_matches scope f) None (jobs d)).
  assert (length all = map_count (job_matches scope f) (jobs d)) as Hlen.
  { unfold all, matching, map_select. rewrite merge_sort_Permutation. unfold map_count, map_where.
    f_equal. apply filter_ext. intros kv. simpl. by rewrite andb_true_r. }
  exists (map job_summary all). split_and!.
  - apply (walk_still scope f limit text parse d); [done..|]. fold all. lia.
  - by rewrite length_map.
  - intros id. split.
    + intros (s & -> & ([k j] & -> & Hin)%list_elem_of_fmap_1)%list_elem_of_fmap_1.
      apply matching_elem in Hin as (? & ? & _). by exists j.
    + intros (j & Hj & Hm). by eapply summary_listed, matching_elem.
Qed.

(** ** Two jobs, a page each, and a third job in between *)

Definition sc_two_jobs : list (call * time * N) :=
  [ (CallSubmit "t1" "key-1" sc_fp sc_req None, sec 1000, 100%N);
    (CallSubmit "t1" "key-2" sc_fp sc_req None, sec 1005, 110%N) ].
Definition sc_three_jobs : list (call * time * N) :=
  sc_two_jobs ++ [ (CallSubmit "t1" "key-3" sc_fp sc_req None, sec 1010, 120%N) ].

(** [listing_env] on the rows of a concrete database. *)
Definition rows_listable (d : DB) : bool :=
  forallb (λ x : uuid * Job,
    bool_decide (sc_uuid_Parse (sc_uuid_String x.1) = Some x.1)
    && (-62167219200000000000 <=? j_created_at x.2)%Z && (j_created_at x.2 <? 253402300800000000000)%Z
    && (timestamptz (j_created_at x.2) =? j_created_at x.2)%Z) (map_to_list (jobs d)).

Lemma sc_listing_env d start base :
  rows_listable d = true → listing_env sc_uuid_String sc_uuid_Parse (sc_world d start base).
Proof.
  intros H. split_and!; [reflexivity|reflexivity|]. intros id j Hj. unfold rows_listable in H.
  rewrite forallb_forall in H. specialize (H (id, j)).
  rewrite <-list_elem_of_In, elem_of_map_to_list in H. specialize (H Hj). simpl in H. bools.
  unfold four_digit_year. auto.
Qed.

Definition listed_ids (r : result error (list JobSummary * string)) : option (list uuid * string) :=
  match r with Ok (l, c) => Some (map js_id l, c) | Err _ => None end.

Lemma ListJobs_walk_complete_witness :
  let w1 := sc_world (at_end sc_two_jobs) (sec 2000) 900 in
  let w2 := sc_world (at_end sc_three_jobs) (sec 2010) 910 in
  ∃ l, walk "t1" (mkJobFilter "" "") 1 "" [w1; w2] = Ok (l, EmptyString) ∧
    map js_id l = [110; 100]%N ∧ NoDup (map js_id l).
Proof.
  intros w1 w2.
  assert (listed_ids (walk "t1" (mkJobFilter "" "") 1 "" [w1; w2]) = Some ([110; 100]%N, EmptyString)) as H
    by (vm_compute; reflexivity).
  destruct (walk "t1" (mkJobFilter "" "") 1 "" [w1; w2]) as [[l c]|e] eqn:Hl; [|discriminate].
  injection H as Hids ->. exists l. split; [reflexivity|]. split; [exact Hids|].
  apply (ListJobs_walk_complete "t1" "" 1 sc_uuid_String sc_uuid_Parse w1 [w2] l).
  - repeat (apply List.Forall_cons; [apply sc_listing_env; vm_compute; reflexivity|]). apply List.Forall_nil.
  - split; [apply (at_end_app sc_two_jobs)|exact I].
  - exact Hl.
Defined.

Lemma ListJobs_walk_ends_witness :
  let w := sc_world (at_end sc_two_jobs) (sec 2000) 900 in
  ∃ l, walk "t1" (mkJobFilter "QUEUED" "default") 1 "" [w; w] = Ok (l, EmptyString) ∧ length l = 2%nat.
Proof.
  intros w.
  destruct (ListJobs_walk_ends "t1" (mkJobFilter "QUEUED" "default") 1 sc_uuid_String sc_uuid_Parse
    (at_end sc_two_jobs) [w; w]) as (l & Hl & Hlen & _).
  - intros w'. reflexivity.
  - repeat (apply List.Forall_cons; [split; [apply sc_listing_env; vm_compute; reflexivity|reflexivity]|]).
    apply List.Forall_nil.
  - discriminate.
  - vm_compute. repeat constructor.
  - exists l. split; [exact Hl|]. rewrite Hlen. vm_compute. reflexivity.
Defined.
