(* ===== verification/Isolation.v ===== *)
(** * Tenants are isolated

    Every row but a queue belongs to a scope.  An operation that a client or a
    worker asks for in a scope writes rows of that scope and no other: the rows of
    every other tenant are, bit for bit, what they were. *)

From S2P Require Import Prelude.
From S2P Require Import GoText.
From S2P Require Import Schema.
From S2P Require Import Lifecycle.
From S2P Require Import Submit.
From S2P Require Import Outbox.
From S2P Require Import JobsStore.
From S2P Require Import Results.
From S2P Require Import WorkersTypes.
From S2P Require Import WorkersStore.
From S2P Require Import WorkersOutcome.
From S2P Require Import Invariant.
From S2P Require Import Transitions.
From S2P Require Import Refinement.
From S2P Require Import System.

Import RetryPolicy.

(** ** The relation *)

(** A key whose row changes holds, before and after, only a row that is [mine]. *)
Definition only {K V} `{Countable K} (mine : K → V → Prop) (m m' : gmap K V) : Prop :=
  ∀ k, m' !! k = m !! k ∨
    ((∀ v, m !! k = Some v → mine k v) ∧ (∀ v, m' !! k = Some v → mine k v)).

(** Events are only added, about jobs of the scope. *)
Definition adds_events (sc : string) (js : gmap uuid Job) (m m' : gmap uuid OutboxEvent) : Prop :=
  ∀ k, m' !! k = m !! k ∨
    (m !! k = None ∧ ∀ e, m' !! k = Some e →
      ∃ id j, e_job_id e = Some id ∧ js !! id = Some j ∧ j_scope j = sc).

(** Jobs stay, each in its scope. *)
Definition keeps_jobs (m m' : gmap uuid Job) : Prop :=
  ∀ id j, m !! id = Some j → ∃ j', m' !! id = Some j' ∧ j_scope j' = j_scope j.

(** What an operation in the scope [sc] may do. *)
Record within (sc : string) (d d' : DB) : Prop := {
  in_queues : queues d' = queues d;
  in_kept : keeps_jobs (jobs d) (jobs d');
  in_jobs : only (λ _ j, j_scope j = sc) (jobs d) (jobs d');
  in_idempotency : only (λ k _, k.1 = sc) (idempotency_records d) (idempotency_records d');
  in_events : adds_events sc (jobs d') (outbox_events d) (outbox_events d');
  in_workers : only (λ _ w, wk_scope w = sc) (workers d) (workers d');
  in_sessions : only (λ _ s, s_scope s = sc) (worker_sessions d) (worker_sessions d');
  in_attempts : only (λ _ a, a_scope a = sc) (job_attempts d) (job_attempts d');
  in_leases : only (λ _ l, l_scope l = sc) (leases d) (leases d');
  in_dlq : only (λ _ e, d_scope e = sc) (dlq_entries d) (dlq_entries d');
  in_replays : only (λ k _, k.1.1 = sc) (dlq_replays d) (dlq_replays d');
  in_results : only (λ _ r, rs_scope r = sc) (results d) (results d');
}.

Section only.
Context {K V : Type} `{Countable K} (mine : K → V → Prop).

#[export] Instance only_preorder : PreOrder (only mine).
Proof.
  split; [by left|]. intros m1 m2 m3 H12 H23 k.
  destruct (H12 k) as [E|[Ha Hb]], (H23 k) as [E'|[Ha' Hb']].
  - left. congruence.
  - right. rewrite <-E. done.
  - right. rewrite E'. done.
  - right. done.
Qed.

Lemma only_insert m k v :
  mine k v → (∀ v0, m !! k = Some v0 → mine k v0) → only mine m (<[k:=v]> m).
Proof.
  intros Hv Hm i. destruct (decide (i = k)) as [->|Hne]; [right|left; by lk].
  split; [done|]. intros v' Hv'. rewrite lookup_insert_eq in Hv'. by simplify_eq.
Qed.
End only.

Lemma keeps_jobs_refl m : keeps_jobs m m.
Proof. intros id j Hj. eauto. Qed.
Lemma keeps_jobs_insert (m : gmap uuid Job) id j' :
  (∀ j, m !! id = Some j → j_scope j' = j_scope j) → keeps_jobs m (<[id:=j']> m).
Proof. intros Hs k j Hj. destruct (decide (k = id)) as [->|Hne]; [exists j'|exists j]; lk; auto. Qed.

Lemma adds_events_refl sc js m : adds_events sc js m m.
Proof. by left. Qed.
Lemma adds_events_insert sc (js : gmap uuid Job) (m : gmap uuid OutboxEvent) k e id j :
  m !! k = None → e_job_id e = Some id → js !! id = Some j → j_scope j = sc →
  adds_events sc js m (<[k:=e]> m).
Proof.
  intros Hn He Hj Hs i. destruct (decide (i = k)) as [->|Hne]; [right|left; by lk].
  split; [done|]. intros e' He'. rewrite lookup_insert_eq in He'. simplify_eq. eauto.
Qed.

#[export] Instance within_preorder sc : PreOrder (within sc).
Proof.
  split.
  - intros d. split; try done; try (intros ?; by left). apply keeps_jobs_refl.
  - intros d1 d2 d3 [] []. split; try (by etrans).
    + intros id j Hj. destruct (in_kept0 id j Hj) as (j2 & Hj2 & <-). by apply in_kept1.
    + intros k. destruct (in_events0 k) as [E|[En Ha]], (in_events1 k) as [E'|[En' Ha']].
      * left. congruence.
      * right. rewrite <-E. done.
      * right. split; [done|]. rewrite E'. intros e He.
        destruct (Ha e He) as (id & j & ? & Hj & Hs). destruct (in_kept1 id j Hj) as (j' & ? & Hs'). exists id, j'. split_and!; congruence.
      * right. done.
Qed.

(** A goal about one updated table or about an untouched one. *)
Ltac within_rows :=
  split; simpl;
  first [ reflexivity
        | apply keeps_jobs_refl | apply adds_events_refl | (intros ?; by left)
        | apply only_insert | apply keeps_jobs_insert | idtac ].

(** ** Point updates *)

Section rows.
Context (sc : string) (d : DB).

Lemma within_job id j :
  j_scope j = sc → (∀ j0, jobs d !! id = Some j0 → j_scope j0 = sc) → within sc d (put_job d id j).
Proof. intros Hj H0. within_rows; [|done..]. intros j0 Hj0. rewrite (H0 j0); done. Qed.

Lemma within_attempt id a :
  a_scope a = sc → (∀ a0, job_attempts d !! id = Some a0 → a_scope a0 = sc) →
  within sc d (d <| job_attempts := <[id:=a]> (job_attempts d) |>).
Proof. intros. by within_rows. Qed.

Lemma within_lease id l :
  l_scope l = sc → (∀ l0, leases d !! id = Some l0 → l_scope l0 = sc) →
  within sc d (d <| leases := <[id:=l]> (leases d) |>).
Proof. intros. by within_rows. Qed.

Lemma within_session id s :
  s_scope s = sc → (∀ s0, worker_sessions d !! id = Some s0 → s_scope s0 = sc) →
  within sc d (d <| worker_sessions := <[id:=s]> (worker_sessions d) |>).
Proof. intros. by within_rows. Qed.

Lemma within_worker id w :
  wk_scope w = sc → (∀ w0, workers d !! id = Some w0 → wk_scope w0 = sc) →
  within sc d (d <| workers := <[id:=w]> (workers d) |>).
Proof. intros. by within_rows. Qed.

Lemma within_result id r :
  rs_scope r = sc → results d !! id = None → within sc d (d <| results := <[id:=r]> (results d) |>).
Proof. intros ? Hn. within_rows; [done|]. intros r0 Hr. by rewrite Hn in Hr. Qed.

Lemma within_dlq id e :
  d_scope e = sc → dlq_entries d !! id = None →
  within sc d (d <| dlq_entries := <[id:=e]> (dlq_entries d) |>).
Proof. intros ? Hn. within_rows; [done|]. intros e0 He. by rewrite Hn in He. Qed.

Lemma within_idempotency key i :
  within sc d (d <| idempotency_records := <[(sc, key):=i]> (idempotency_records d) |>).
Proof. by within_rows. Qed.

Lemma within_replay original key r :
  within sc d (d <| dlq_replays := <[(sc, original, key):=r]> (dlq_replays d) |>).
Proof. by within_rows. Qed.

Lemma within_event eid e jid gen j :
  new_event d jid gen eid e → jobs d !! jid = Some j → j_scope j = sc →
  within sc d (add_event d eid e).
Proof. intros (Hn & He & _) Hj Hs. within_rows. by eapply adds_events_insert. Qed.
End rows.

Lemma job_def_scope j j' : job_def j' = job_def j → j_scope j' = j_scope j.
Proof. unfold job_def. congruence. Qed.
Lemma attempt_def_scope a a' : attempt_def a' = attempt_def a → a_scope a' = a_scope a.
Proof. unfold attempt_def. congruence. Qed.

(** ** Jobs *)

Lemma within_committed sc {A} (body : Tx (bool * A)) :
  (∀ w a w', body w = (Ok (true, a), w') → within sc (db w) (db w')) →
  effects (within sc) (transaction body).
Proof. intros Hb. apply effects_transaction; [apply _|done]. Qed.

Lemma within_reads sc {A} (m : Tx A) : (∀ w, db (m w).2 = db w) → effects (within sc) m.
Proof. apply effects_read, _. Qed.

Lemma within_validated sc {A} fields (m : Tx A) :
  effects (within sc) m → effects (within sc) (validated fields;; m).
Proof. intros Hm. apply effects_bind; [apply _|apply within_reads, validated_read|done]. Qed.

(** The row an update found, or none where a row was inserted. *)
Ltac old_row :=
  intros;
  match goal with
  | H : tget _ !! ?k = _, H' : _ !! ?k = Some _ |- _ =>
    pose proof (eq_trans (eq_sym H') H); simplify_eq; bools; try done; congruence
  end.

(** An event about the job just written. *)
Ltac event_row :=
  match goal with
  | H : new_event _ _ _ _ _ |- adds_events _ _ _ _ =>
    eapply adds_events_insert; [apply H|apply H|simpl; apply lookup_insert_eq|try done]
  end.

Ltac rows := within_rows; try done; try old_row; try event_row.

Lemma submit_tx_within scope key fp req trace : effects (within scope) (submit_tx scope key fp req trace).
Proof.
  apply within_committed. intros w a w' H. op_inv; rows.
Qed.

Lemma Submit_within scope key req trace : effects (within scope) (Submit scope key req trace).
Proof.
  unfold Submit. apply effects_bind; [apply _|by apply within_reads|]. intros [].
  - simpl. apply effects_bind; [apply _|apply submit_tx_within|]. intros [[]|]; [apply effects_ret, _|].
    apply within_reads, resolveExisting_read.
  - apply effects_throw, _.
Qed.

Lemma RequestCancel_within scope id : effects (within scope) (RequestCancel scope id).
Proof.
  apply within_committed. intros w a w' H. op_inv; [done|]. bools. rows.
Qed.

Lemma replay_tx_within scope id key : effects (within scope) (replay_tx scope id key).
Proof.
  apply within_committed. intros w a w' H. op_inv. bools. rows.
Qed.

Lemma Replay_within scope id key : effects (within scope) (Replay scope id key).
Proof.
  unfold Replay. apply effects_bind; [apply _|apply replay_tx_within|].
  intros [[rid j]|]; [apply effects_ret, _|apply within_reads, resolveExistingReplay_read].
Qed.

(** ** Sessions *)

(** A session is in the scope of its worker. *)
Definition sessions_bound (d : DB) : Prop :=
  ∀ sid s, worker_sessions d !! sid = Some s →
    ∃ w, workers d !! s_worker_id s = Some w ∧ wk_scope w = s_scope s.

Lemma session_constraints_worker d id s :
  session_constraints d id s = None → ∃ w, workers d !! s_worker_id s = Some w ∧ wk_scope w = s_scope s.
Proof.
  unfold session_constraints, pg_verdict. intros H. repeat (case_match; try done). bools. eauto.
Qed.

Lemma transition_sessions_bound d d' : transition d d' → sessions_bound d → sessions_bound d'.
Proof.
  destruct 1; intros Hb; try exact Hb; intros sid' s' Hs'; simpl in *.
  - destruct (Hb sid' s' Hs') as (w0 & Hw0 & Hsc).
    destruct (decide (s_worker_id s' = wid)) as [<-|Hne]; [|exists w0; by lk].
    exists w. lk. rewrite (H w0 Hw0). done.
  - split_lookups; [by apply session_constraints_worker in H|by apply (Hb sid')].
Qed.

Lemma steps_sessions_bound d d' : steps d d' → sessions_bound d → sessions_bound d'.
Proof. induction 1; eauto using transition_sessions_bound. Qed.

Lemma reachable_sessions_bound qs d : reachable qs d → sessions_bound d.
Proof.
  intros Hr. eapply steps_sessions_bound; [by apply history_steps|]. intros sid s Hs. simpl in Hs.
  by rewrite lookup_empty in Hs.
Qed.

Lemma upsert_worker_within scope name w id w' :
  upsert_worker scope name w = (Ok id, w') →
  within scope (db w) (db w') ∧ ∃ wk, workers (db w') !! id = Some wk ∧ wk_scope wk = scope.
Proof.
  unfold upsert_worker. intros H. db_inv.
  all: try match goal with H : map_find _ _ = _ |- _ => apply map_find_Some in H as [Hw Hs]; bools; destruct Hs end.
  - split; [done|eauto].
  - split; [rows; simpl; congruence|]. eexists. split; [apply lookup_insert_eq|].
    match goal with H : tget _ !! _ = _ |- _ => pose proof (eq_trans (eq_sym Hw) H) end. by simplify_eq.
  - split; [rows|]. eexists. split; [apply lookup_insert_eq|done].
Qed.

(** A loop whose steps keep a property and are all in the relation. *)
Lemma for_each_keeping {A S} (R : relation DB) `{!PreOrder R} (P : DB → Prop) (f : S → A → Tx S) l s w s' w' :
  (∀ s x w s' w', P (db w) → f s x w = (Ok s', w') → R (db w) (db w') ∧ P (db w')) →
  P (db w) → for_each f s l w = (Ok s', w') → R (db w) (db w').
Proof.
  intros Hf. revert s w. induction l as [|x l IH]; intros s w Hp H; simpl in H.
  - by apply ret_ok in H as [_ ->].
  - apply bind_ok in H as (s1 & w1 & H1 & H2). destruct (Hf _ _ _ _ _ Hp H1) as [HR HP].
    etrans; [exact HR|by eapply IH].
Qed.

(** The worker [id] is the scope's, and every session is in its worker's scope. *)
Definition worker_in (scope : string) (id : uuid) (d : DB) : Prop :=
  sessions_bound d ∧ ∃ wk, workers d !! id = Some wk ∧ wk_scope wk = scope.

Lemma fence_prior_sessions_within scope id w u w' :
  worker_in scope id (db w) → fence_prior_sessions id w = (Ok u, w') → within scope (db w) (db w').
Proof.
  intros Hin H. unfold fence_prior_sessions in H. run_inv. apply get_db_ok in H as [-> ->].
  eapply (for_each_keeping _ (worker_in scope id)); [|exact Hin|eassumption].
  intros s x w1 s' w2 [Hb (wk & Hwk & Hsc)] Hrun. cbv beta in Hrun. run_inv. apply clock_db in H.
  rewrite <-H in *. destruct (sql_update_db _ _ _ _ _ _ H1) as [(_ & ->)|(row & Hrow & Hp & Hc & _ & Hdb)];
    [split; [done|by split; eauto]|].
  bools. rewrite Hdb. destruct (Hb _ _ Hrow) as (wk' & Hwk' & Hrs). simplify_eq.
  split; [rows; simpl; intros; simplify_eq/=; congruence|split; [|eauto]].
  intros k s0 Hs0. simpl in Hs0. split_lookups; [by eauto|by apply (Hb k)].
Qed.

Lemma transaction_within sc (P : DB → Prop) {A} (body : Tx (bool * A)) w r w' :
  (∀ w a w', P (db w) → body w = (Ok (true, a), w') → within sc (db w) (db w')) →
  P (db w) → transaction body w = (r, w') → within sc (db w) (db w').
Proof.
  intros Hb Hp. unfold transaction.
  destruct (body (begin_tx w)) as [[[[] a]|e] w1] eqn:Hrun; intros; simplify_eq/=; try done.
  by apply (Hb (begin_tx w) _ _ Hp) in Hrun.
Qed.

Lemma NormalizeRegistration_world reg w : (NormalizeRegistration reg w).2 = w.
Proof. unfold NormalizeRegistration, validated. by destruct (registration_fields _). Qed.

Lemma bind_inv {W E A B} (m : M W E A) (f : A → M W E B) w r w' :
  (m ≫= f) w = (r, w') →
  (∃ a w1, m w = (Ok a, w1) ∧ f a w1 = (r, w')) ∨ ∃ e, m w = (Err e, w') ∧ r = Err e.
Proof. unfold mbind, M_bind. destruct (m w) as [[a|e] w1]; naive_solver. Qed.

Lemma Register_within scope reg w r w' :
  sessions_bound (db w) → Register scope reg w = (r, w') → within scope (db w) (db w').
Proof.
  intros Hb H. pose proof (NormalizeRegistration_world reg w) as Hn.
  apply bind_inv in H as [(out & w1 & Ho & H)|(e & He & _)]; [|by rewrite He in Hn; simplify_eq/=].
  rewrite Ho in Hn. simplify_eq/=. eapply (transaction_within _ sessions_bound); [|exact Hb|exact H].
  clear. intros w a w' Hb H. unfold readSessionForUpdate, commit in H. run_inv.
  all: match goal with H : upsert_worker _ _ _ = _ |- _ =>
    pose proof (upsert_worker_within _ _ _ _ _ H) as [Hw Hwk];
    apply upsert_worker_steps in H as Hsteps end.
  all: repeat match goal with H : get_db _ = _ |- _ => apply get_db_ok in H as [? ?]; subst end.
  1: done.
  eapply steps_sessions_bound in Hb; [|exact Hsteps]. etrans; [exact Hw|].
  match goal with H : fence_prior_sessions _ _ = _ |- _ => apply (fence_prior_sessions_within scope) in H; [|by split] end.
  etrans; [eassumption|]. db_inv. rows.
Qed.

Lemma Heartbeat_within scope req : effects (within scope) (Heartbeat scope req).
Proof.
  apply within_validated, within_committed. intros w a w' H. db_inv. bools. destruct Hb as [_ Hs].
  match goal with H1 : Some _ = _, H2 : _ = Some _ |- _ => pose proof (eq_trans H1 H2) end.
  simplify_eq. rows.
Qed.

(** ** Claims *)

Lemma issue_claim_within cfg scope req id j w a w' :
  issue_claim cfg scope req id j w = (Ok (true, a), w') → within scope (db w) (db w').
Proof. unfold issue_claim. intros H. db_inv. bools. rows. Qed.

Lemma claim_tx_within cfg scope req : effects (within scope) (claim_tx cfg scope req).
Proof.
  apply within_committed. intros w a w' H. run_inv.
  all: repeat match goal with
    | H : get_db _ = _ |- _ => apply get_db_ok in H as [? ?]; subst
    | H : lookupClaim _ _ = _ |- _ => apply lookupClaim_ok in H as [? ?]; subst
    end.
  - unfold commitNoClaim, commit in *. by run_inv.
  - match goal with H : setLeaseRemaining _ _ = _ |- _ => apply setLeaseRemaining_db in H as Hdb end.
    unfold commit in *. run_inv. by rewrite Hdb.
  - unfold claim_new, commitNoClaim in *. db_inv; try done.
    match goal with H : issue_claim _ _ _ _ _ ?w1 = _, E : db ?w1 = db w |- _ =>
      rewrite <-E; by eapply issue_claim_within end.
Qed.

Lemma Claim_within cfg scope req : effects (within scope) (Claim cfg scope req).
Proof.
  apply within_validated. destruct (_ <=? 0)%Z; [apply effects_throw, _|].
  apply effects_bind; [apply _|by apply within_reads|].
  intros [e|]; [destruct (negb _); [apply effects_throw, _|]|]; apply claim_tx_within.
Qed.

(** ** Fenced operations *)

Section fenced.
Context (scope : string) (f : Fence).

Lemma locked_within {A} (body : fenceState → Tx (bool * A)) :
  (∀ st s j a l w r w', fenced (db w) scope f st s j a l →
    body st w = (Ok (true, r), w') → within scope (db w) (db w')) →
  effects (within scope) (transaction (st ← lockAuthorityRows scope f; body st)).
Proof.
  intros Hb. apply within_committed. intros w r w' (st & w1 & Hl & H)%bind_ok.
  apply lockAuthorityRows_ok in Hl as (Hdb & s & j & a & l & Hf). rewrite <-Hdb in *.
  by eapply Hb.
Qed.

Lemma locked_healthy_within {A} (body : fenceState → Tx (bool * A)) :
  (∀ st s j a l w r w', fenced (db w) scope f st s j a l →
    body st w = (Ok (true, r), w') → within scope (db w) (db w')) →
  effects (within scope) (transaction (st ← lockFence scope f; body st)).
Proof.
  intros Hb. apply within_committed. intros w r w' (st & w1 & Hl & H)%bind_ok.
  apply lockFence_ok in Hl as (Hdb & _ & s & j & a & l & Hf). rewrite <-Hdb in *.
  by eapply Hb.
Qed.

(** The three rows of a fence, each replaced by one of its scope. *)
Lemma fenced_write st s j a l d j' a' l' :
  fenced d scope f st s j a l →
  j_scope j' = scope → a_scope a' = scope → l_scope l' = scope →
  within scope d (write d (f_job_id f) j' (f_attempt_id f) a' (f_lease_id f) l').
Proof.
  intros [_ _ Hj Ha Hl _ _ _ (Hsj & Hsa & Hsl) _] ? ? ?.
  within_rows; try done; intros; simplify_eq; congruence.
Qed.
End fenced.

Lemma InsertDLQEntryTx_scope scope q id aid reason t w eid w' :
  InsertDLQEntryTx scope q id aid reason t w = (Ok eid, w') →
  ∃ e, dlq_entries (db w) !! eid = None ∧ d_scope e = scope ∧
    db w' = (db w) <| dlq_entries := <[eid:=e]> (dlq_entries (db w)) |>.
Proof. unfold InsertDLQEntryTx. intros H. db_inv. bools. eexists. split_and!; [eassumption| |reflexivity]; done. Qed.

Lemma finalizeAttempt_within scope st f s j a l o dec w r w' :
  fenced (db w) scope f st s j a l → finalizeAttempt st f o dec w = (Ok r, w') →
  ao_lease_status o ≠ LeaseActive → within scope (db w) (db w').
Proof.
  intros Hf H Hls. unfold finalizeAttempt in H. pose proof (fd_scope _ _ _ _ _ _ _ _ Hf) as (Hsj & Hsa & Hsl).
  destruct (fenced_status _ _ _ _ _ _ _ _ Hf) as (_ & _ & _ & _ & _ & _ & Hsc).
  run_inv; match goal with H : on_unique_violation _ _ _ = _ |- _ => apply on_unique_ok in H end.
  all: match goal with
    | H1 : sql_update _ _ _ _ = _, H2 : release_lease _ _ _ _ = _ |- _ =>
      destruct (close_rows _ _ _ _ _ _ _ _ _ _ _ _ _ _ Hf H1 H2) as (-> & Hd & _); [done..|]
    end.
  all: match goal with
    | H : setJobStatus _ _ _ _ _ = _ |- _ =>
      eapply setJobStatus_ok in H as (j' & _ & Hdef & _ & _ & _ & _ & Hd'); [|rewrite Hd; apply Hf]
    | H : requeueJob _ _ _ = _ |- _ =>
      eapply requeueJob_ok in H as (j' & _ & Hdef & _ & _ & -> & _ & _ & Hd'); [|rewrite Hd; apply Hf]
    end; rewrite Hd in Hd'; apply job_def_scope in Hdef.
  all: match type of Hd' with db ?x = _ => assert (within (j_scope j) (db w) (db x)) as Hw by
    (rewrite Hd'; eapply (fenced_write _ f st s j a l (db w)); [exact Hf|congruence|done..]) end.
  - done.
  - match goal with H : InsertWorkAvailableTx _ _ _ _ _ = _ |- _ =>
      apply InsertWorkAvailableTx_ok in H as (_ & e & He & ->) end.
    etrans; [exact Hw|]. eapply within_event; [exact He|rewrite Hd'; apply lookup_insert_eq|done].
  - match goal with H : InsertDLQEntryTx _ _ _ _ _ _ _ = _ |- _ =>
      apply InsertDLQEntryTx_scope in H as (e & Hnone & Hs & ->) end.
    etrans; [exact Hw|]. apply within_dlq; congruence.
Qed.

Lemma finalizeCancellation_within scope st f s j a l oid ls w r w' :
  fenced (db w) scope f st s j a l → finalizeCancellation st f oid ls w = (Ok r, w') →
  ls ≠ LeaseActive → within scope (db w) (db w').
Proof.
  intros Hf H Hls. unfold finalizeCancellation in H. pose proof (fd_scope _ _ _ _ _ _ _ _ Hf) as (Hsj & Hsa & Hsl).
  run_inv. match goal with H : on_unique_violation _ _ _ = _ |- _ => apply on_unique_ok in H end.
  destruct x as [a'|]; [|done].
  match goal with
  | H1 : sql_update (f_attempt_id f) _ _ _ = _, H2 : release_lease _ _ _ _ = _ |- _ =>
    destruct (close_rows _ _ _ _ _ _ _ _ _ _ _ _ _ _ Hf H1 H2) as (-> & Hd & _); [done..|]
  end.
  match goal with H : sql_update (f_job_id f) _ _ _ = _ |- _ =>
    eapply job_update_ok in H as (_ & _ & _ & Hd'); [|done|rewrite Hd; apply Hf] end.
  rewrite Hd', Hd. by eapply (fenced_write _ f st s j a l (db w)).
Qed.

Lemma Start_within scope f : effects (within scope) (Start scope f).
Proof.
  apply within_validated, locked_healthy_within. intros st s j a l w r w' Hf H.
  pose proof (fd_scope _ _ _ _ _ _ _ _ Hf) as (Hsj & Hsa & Hsl).
  pose proof (fd_job _ _ _ _ _ _ _ _ Hf) as Hj. pose proof (fd_attempt _ _ _ _ _ _ _ _ Hf) as Ha.
  db_inv; [done|]. bools.
  match goal with H : tget _ !! f_job_id f = Some _ |- _ => injection (eq_trans (eq_sym Hj) H) as <- end.
  match goal with H : tget _ !! f_attempt_id f = Some _ |- _ => injection (eq_trans (eq_sym Ha) H) as <- end.
  within_rows; try done; intros; simplify_eq/=; congruence.
Qed.

Lemma Succeed_within scope f res : effects (within scope) (Succeed scope f res).
Proof.
  apply within_validated, locked_within. intros st s j a l w r w' Hf H.
  pose proof (fd_scope _ _ _ _ _ _ _ _ Hf) as (Hsj & Hsa & Hsl).
  destruct (fenced_status _ _ _ _ _ _ _ _ Hf) as (_ & _ & _ & _ & _ & _ & Hsc).
  run_inv; unfold commit in *; run_inv; [done|..]; bools.
  all: match goal with
    | H1 : sql_update _ _ _ _ = _, H2 : sql_update _ _ _ _ = _, H3 : sql_update _ _ _ _ = _ |- _ =>
      eapply job_update_ok in H1 as (_ & _ & _ & Hd1); [|done|apply Hf];
      eapply attempt_update_ok in H2 as (_ & _ & _ & _ & Hd2); [|done|rewrite Hd1; apply Hf];
      eapply lease_update_ok in H3 as (_ & _ & _ & _ & Hd3); [|done|rewrite Hd2, Hd1; apply Hf]
    end.
  all: match type of Hd3 with db ?x = _ => assert (within (j_scope j) (db w) (db x)) as Hw by
    (rewrite Hd3, Hd2, Hd1; by eapply (fenced_write _ f st s j a l (db w))) end.
  2: done.
  match goal with H : InsertResultTx _ _ = _ |- _ =>
    apply InsertResultTx_db in H as (row & Hn & _ & Hrs & ->) end.
  etrans; [exact Hw|]. by apply within_result.
Qed.

Lemma Fail_within cfg scope report : effects (within scope) (Fail cfg scope report).
Proof.
  apply within_validated, locked_within. intros st s j a l w r w' Hf H. run_inv.
  - apply lift_ok in H as [_ ->]. unfold commit in *. by run_inv.
  - apply rejectForeign_ok in H as [-> _]. decide_inv.
    unfold commit in *. run_inv. rewrite <-Hdb in *.
    by eapply finalizeAttempt_within.
Qed.

Lemma AcknowledgeCancellation_within scope ack : effects (within scope) (AcknowledgeCancellation scope ack).
Proof.
  apply within_validated, locked_within. intros st s j a l w r w' Hf H. run_inv.
  - unfold commit in *. by run_inv.
  - apply rejectForeign_ok in H as [-> _]. unfold commit in *. run_inv.
    by eapply finalizeCancellation_within.
Qed.

Lemma RenewLease_within cfg scope req : effects (within scope) (RenewLease cfg scope req).
Proof.
  apply within_validated. destruct (_ <=? 0)%Z; [apply effects_throw, _|].
  apply locked_healthy_within. intros st s j a l w r w' Hf H.
  pose proof (fd_scope _ _ _ _ _ _ _ _ Hf) as (Hsj & Hsa & Hsl).
  pose proof (fd_lease _ _ _ _ _ _ _ _ Hf). db_inv; try done. bools. rows; simpl.
Qed.
