(* ===== verification/KeysTheorems.v ===== *)
(** * What a credential gives

    The life of a key, who authenticates, and that a revocation cuts off both the
    credential and the sessions registered with it. *)

From S2P Require Import Prelude.
From S2P Require Import GoText.
From S2P Require Import Schema.
From S2P Require Import Outbox.
From S2P Require Import GoBytes.
From S2P Require Import WorkersTypes.
From S2P Require Import WorkersStore.
From S2P Require Import Keys.
From S2P Require Import Api.
From S2P Require Import Access.
From S2P Require Import Invariant.
From S2P Require Import Transitions.
From S2P Require Import Refinement.
From S2P Require Import System.
From S2P Require Import Scenario.
From S2P Require Import Running.

Import KeyStore.
Local Open Scope string_scope.

(** ** The format *)

Lemma b64_length s : String.length (b64_encode s) = ((String.length s * 8 + 5) / 6)%nat.
Proof.
  induction s as [| |a b| a b c s IH] using string_ind3; try done.
  cbn [b64_encode String.length]. rewrite IH.
  replace (S (S (S (String.length s))) * 8 + 5)%nat with (4 * 6 + (String.length s * 8 + 5))%nat by lia.
  rewrite Nat.div_add_l by lia. lia.
Qed.

Lemma b64_char_not_dot n : (n < 64)%N → Ascii.eqb (b64_char n) separator = false.
Proof.
  intros Hn. apply Ascii.eqb_neq. intros H.
  pose proof (b64_value_char n Hn) as Hv. rewrite H in Hv. by vm_compute in Hv.
Qed.

Lemma Cut_append a b sep : all_chars (λ c, negb (Ascii.eqb c sep)) a = true →
  Cut sep (a ++ String sep b) = Some (a, b).
Proof.
  induction a as [|c a IH]; [intros _; simpl; by rewrite Ascii.eqb_refl|].
  simpl. intros [Hc Ha]%andb_true_iff. apply negb_true_iff in Hc. rewrite Hc, IH by done. done.
Qed.

Lemma Cut_spec sep s a b : Cut sep s = Some (a, b) → s = a ++ String sep b.
Proof.
  revert a. induction s as [|c s IH]; intros a H; [done|]. simpl in H.
  destruct (Ascii.eqb_spec c sep) as [->|]; [by simplify_eq/=|].
  destruct (Cut sep s) as [[a' b']|]; simplify_eq/=. by rewrite append_cons, <-(IH a' eq_refl).
Qed.

Lemma CutPrefix_append p s : CutPrefix p (p ++ s) = Some s.
Proof. induction p as [|c p IH]; [done|]. simpl. by rewrite Ascii.eqb_refl. Qed.

Lemma CutPrefix_spec p s t : CutPrefix p s = Some t → s = p ++ t.
Proof.
  revert s. induction p as [|c p IH]; intros s H; [by injection H|].
  destruct s as [|c' s]; [done|]. simpl in H. destruct (Ascii.eqb_spec c c') as [->|]; [|done].
  rewrite append_cons. by rewrite <-(IH s H).
Qed.

#[local] Ltac Zify.zify_post_hook ::= Z.to_euclidean_division_equations.

Lemma b64_no_dot s : all_chars (λ c, negb (Ascii.eqb c separator)) (b64_encode s) = true.
Proof.
  induction s as [|a|a b|a b c s IH] using string_ind3; [done|..];
    pose proof (code_bound a); try pose proof (code_bound b); try pose proof (code_bound c).
  all: cbn [b64_encode all_chars]; rewrite !b64_char_not_dot by lia; rewrite ?IH; done.
Qed.

Lemma raw_key_length p s :
  String.length (raw_key p s) = (String.length KeyPrefix + String.length p + 1 + String.length s)%nat.
Proof. unfold raw_key. rewrite !length_append. cbn [String.length]. lia. Qed.

(** What is generated is a key. *)
Lemma ParseKey_encoded x y :
  String.length x = LookupBytes → String.length y = SecretBytes →
  ParseKey (raw_key (b64_encode x) (b64_encode y)) = Some (mkPresented (b64_encode x) (b64_encode y)).
Proof.
  intros Hx Hy.
  assert (String.length (b64_encode x) = LookupLen) as Hlx by (by rewrite b64_length, Hx).
  assert (String.length (b64_encode y) = SecretLen) as Hly by (by rewrite b64_length, Hy).
  unfold ParseKey. rewrite raw_key_length, Hlx, Hly.
  change (MaxCredentialLen <? _)%nat with false. change (negb (_ =? KeyLen)%nat) with false.
  cbv iota. unfold raw_key. rewrite CutPrefix_append. cbn [mbind option_bind].
  rewrite Cut_append by apply b64_no_dot. cbn [mbind option_bind]. rewrite Hlx, Hly.
  rewrite !Nat.eqb_refl. unfold decodeSegment. by rewrite !b64_decode_encode.
Qed.

Lemma ParseKey_raw raw p : ParseKey raw = Some p →
  raw = raw_key (p_prefix p) (p_secret p) ∧
  String.length (p_prefix p) = LookupLen ∧ String.length (p_secret p) = SecretLen.
Proof.
  unfold ParseKey. intros H. repeat case_match; try done.
  destruct (CutPrefix KeyPrefix raw) as [rest|] eqn:Hc; [|done]. simpl in H.
  destruct (Cut separator rest) as [[a b]|] eqn:Hcut; [|done]. simpl in H.
  apply CutPrefix_spec in Hc. apply Cut_spec in Hcut. subst.
  repeat case_match; simplify_eq/=. bools.
  repeat match goal with H : (_ =? _)%nat = true |- _ => apply Nat.eqb_eq in H end. done.
Qed.

Lemma VerifySecret_spec h s : VerifySecret h s = true ↔ h = HashSecret s.
Proof.
  unfold VerifySecret. split.
  - destruct (negb _); [done|]. apply bool_decide_eq_true_1.
  - intros ->. rewrite Nat.eqb_refl. simpl. by apply bool_decide_eq_true_2.
Qed.

(** ** Tables over time *)

(** A prefix names one key. *)
Definition KInv (rows : gmap uuid KeyRow) : Prop :=
  ∀ i j r s, rows !! i = Some r → rows !! j = Some s → k_prefix r = k_prefix s → i = j.

Definition key_def (r : KeyRow) :=
  (k_scope r, k_name r, k_prefix r, k_secret_hash r, k_created_at r).

(** Keys stay, and so do their revocations. *)
Definition key_keeps (rows rows' : gmap uuid KeyRow) : Prop :=
  ∀ id r, rows !! id = Some r → ∃ r', rows' !! id = Some r' ∧ key_def r' = key_def r ∧
    (is_Some (k_revoked_at r) → r' = r).

#[export] Instance key_keeps_preorder : PreOrder key_keeps.
Proof.
  split; [by intros m id r Hr; exists r|]. intros x y z Hxy Hyz id r Hr.
  destruct (Hxy id r Hr) as (r1 & H1 & D1 & F1). destruct (Hyz id r1 H1) as (r2 & H2 & D2 & F2).
  exists r2. split_and!; [done|congruence|]. intros Hf. rewrite F2; [auto|]. by rewrite F1.
Qed.

Definition key_step (rows rows' : gmap uuid KeyRow) : Prop :=
  key_keeps rows rows' ∧ (KInv rows → KInv rows').

#[export] Instance key_step_preorder : PreOrder key_step.
Proof.
  split; [by intros m; split|]. intros x y z [H1 H2] [H3 H4]. split; [by etrans|auto].
Qed.

(** The administrative calls that write. *)
Inductive key_call := KCreate (scope name : string) | KRevoke (id : uuid).

Definition key_exec (c : key_call) (w : KWorld) : KWorld :=
  match c with KCreate scope name => (Create scope name w).2 | KRevoke id => (Revoke id w).2 end.

(** Any sequence of them, in any world around the table. *)
Definition key_call_step (rows rows' : gmap uuid KeyRow) : Prop :=
  ∃ c w, key_rows w = rows ∧ key_rows (key_exec c w) = rows'.

Definition stepping {A} (m : K A) : Prop := ∀ w, key_step (key_rows w) (key_rows (m w).2).

Lemma stepping_bind {A B} (m : K A) (f : A → K B) :
  stepping m → (∀ a, stepping (f a)) → stepping (m ≫= f).
Proof.
  intros Hm Hf w. unfold mbind, M_bind. specialize (Hm w). destruct (m w) as [[a|e] w1]; simpl in *; [|done].
  etrans; [done|apply Hf].
Qed.

Lemma stepping_same {A} (m : K A) : (∀ w, key_rows (m w).2 = key_rows w) → stepping m.
Proof. intros Hm w. by rewrite Hm. Qed.

Lemma stepping_statement {A} (f : KWorld → result key_error A * gmap uuid KeyRow) :
  (∀ w, key_step (key_rows w) (f w).2) → stepping (statement f).
Proof.
  intros Hf w. unfold statement. destruct (kfaults w (kcalls w)) as [[[] ?]|]; simpl; [apply Hf|done|apply Hf].
Qed.

Lemma stepping_try {A} (m : K A) : stepping m → stepping (try m).
Proof. intros Hm w. unfold try. specialize (Hm w). by destruct (m w). Qed.

Lemma stepping_ret {A} (a : A) : stepping (mret a).
Proof. by apply stepping_same. Qed.
Lemma stepping_throw {A} e : stepping (throw e : K A).
Proof. by apply stepping_same. Qed.

Lemma stepping_material : stepping GenerateMaterial.
Proof.
  assert (∀ n, stepping (ReadFull n)) as Hr.
  { intros n. apply stepping_same. intros w. unfold ReadFull. by case_match. }
  apply stepping_bind; [apply Hr|intros x]. apply stepping_bind; [apply Hr|intros y; apply stepping_ret].
Qed.

Lemma prefix_free prefix rows : map_any (prefix_taken prefix) rows = false →
  ∀ i r, rows !! i = Some r → k_prefix r ≠ prefix.
Proof.
  rewrite map_any_false. intros H i r Hr. specialize (H i r Hr). unfold prefix_taken in H. by bools.
Qed.

Lemma insert_key_step id scope name m : stepping (insert_key id scope name m).
Proof.
  apply stepping_statement. intros w. cbv zeta. destruct (key_rows w !! id) eqn:Hid; [done|].
  destruct (map_any _ _) eqn:Hp; [done|]. destruct (key_check _); [|done]. simpl.
  pose proof (prefix_free _ _ Hp) as Hfree. split.
  - intros i r Hi. exists r. split; [|done]. rewrite lookup_insert_ne; [done|]. intros ->. congruence.
  - intros Hinv i j r s Hi Hj Hrs.
    apply lookup_insert_Some in Hi. apply lookup_insert_Some in Hj.
    destruct Hi as [[<- <-]|[Hi1 Hi]], Hj as [[<- <-]|[Hj1 Hj]]; simpl in Hrs.
    + done.
    + by destruct (Hfree j s Hj).
    + by destruct (Hfree i r Hi).
    + by eapply Hinv.
Qed.

Lemma stamp_revoked_step id : stepping (stamp_revoked id).
Proof.
  apply stepping_statement. intros w. destruct (key_rows w !! id) as [r|] eqn:Hid; [|done].
  destruct (k_revoked_at r) eqn:Hr; [done|]. cbv zeta. destruct (key_check _); [|done]. simpl. split.
  - intros i s Hi. destruct (decide (i = id)) as [->|Hne].
    + rewrite Hid in Hi. injection Hi as <-. eexists. split; [apply lookup_insert_eq|]. split; [done|].
      rewrite Hr. by intros [? ?].
    + exists s. by rewrite lookup_insert_ne.
  - intros Hinv i j x y Hi Hj Hxy.
    assert (∀ k z, <[id:=r <| k_revoked_at := Some (know w) |>]> (key_rows w) !! k = Some z →
      ∃ z0, key_rows w !! k = Some z0 ∧ k_prefix z0 = k_prefix z) as Hback.
    { intros k z [[<- <-]|[_ Hz]]%lookup_insert_Some; [by exists r|by exists z]. }
    destruct (Hback i x Hi) as (x0 & Hx0 & Px). destruct (Hback j y Hj) as (y0 & Hy0 & Py).
    eapply Hinv; [done..|congruence].
Qed.

Create HintDb keys.
#[local] Hint Resolve stepping_bind stepping_ret stepping_throw stepping_try stepping_material
  insert_key_step stamp_revoked_step : keys.

Lemma stepping_create n scope name : stepping (create_attempts n scope name).
Proof.
  induction n as [|n IH]; [apply stepping_throw|].
  apply stepping_bind; [apply stepping_material|intros m].
  apply stepping_bind; [by apply stepping_same|intros id].
  apply stepping_bind; [auto with keys|]. intros [k|[]]; auto with keys.
Qed.

Lemma stepping_Get id : stepping (Get id).
Proof. by apply stepping_statement. Qed.

Lemma key_exec_step c w : key_step (key_rows w) (key_rows (key_exec c w)).
Proof.
  destruct c as [scope name|id]; simpl.
  - unfold Create. destruct (validateKeyRequest _ _); [apply stepping_create|apply stepping_throw].
  - revert w. apply stepping_bind; [auto with keys|].
    intros [k|[]]; auto with keys. apply stepping_bind; [apply stepping_Get|auto with keys].
Qed.

Lemma key_history rows rows' : rtc key_call_step rows rows' → key_step rows rows'.
Proof.
  induction 1 as [|x y z (c & w & <- & <-) _ IH]; [reflexivity|]. etrans; [apply key_exec_step|done].
Qed.

(** ** Authentication *)

Definition key_reachable (rows : gmap uuid KeyRow) : Prop := rtc key_call_step ∅ rows.

Lemma key_reachable_inv rows : key_reachable rows → KInv rows.
Proof. intros H. apply (key_history _ _ H). by intros i j r s Hr. Qed.

Lemma find_by_prefix rows id r : KInv rows → rows !! id = Some r →
  map_find (prefix_taken (k_prefix r)) rows = Some (id, r).
Proof.
  intros Hinv Hr. destruct (map_find (prefix_taken (k_prefix r)) rows) as [[i s]|] eqn:Hf.
  - apply map_find_Some in Hf as [Hs Hp]. unfold prefix_taken in Hp. bools.
    assert (i = id) as -> by (by eapply Hinv). congruence.
  - pose proof (map_find_None _ _ Hf id r Hr) as Hn. unfold prefix_taken in Hn. by bools.
Qed.

Lemma Authenticate_answer raw w :
  kfaults w (kcalls w) = None →
  (Authenticate raw w).1 =
    match ParseKey raw with
    | None => Err ErrUnauthorized
    | Some p =>
      match map_find (prefix_taken (p_prefix p)) (key_rows w) with
      | None => Err ErrUnauthorized
      | Some (id, r) =>
        if VerifySecret (k_secret_hash r) (p_secret p) && is_None_b (k_revoked_at r)
        then Ok (mkPrincipal id (k_scope r)) else Err ErrUnauthorized
      end
    end.
Proof.
  intros Hf. unfold Authenticate. destruct (ParseKey raw) as [p|]; [|done].
  unfold find_prefix, statement, mbind, M_bind. rewrite Hf. simpl.
  destruct (map_find _ _) as [[id r]|]; [|done].
  destruct (VerifySecret _ _); [|done]. by destruct (k_revoked_at r).
Qed.

Lemma Authenticate_fault raw w f :
  kfaults w (kcalls w) = Some f → ∃ e, (Authenticate raw w).1 = Err e.
Proof.
  intros Hf. unfold Authenticate. destruct (ParseKey raw) as [p|]; [|by eexists].
  unfold find_prefix, statement, mbind, M_bind. rewrite Hf. by eexists.
Qed.

(** The key that [raw] is the credential of. *)
Definition credential_of (r : KeyRow) (raw : string) : Prop :=
  ∃ secret, raw = raw_key (k_prefix r) secret ∧ ParseKey raw = Some (mkPresented (k_prefix r) secret)
    ∧ HashSecret secret = k_secret_hash r.

Lemma Authenticate_ok raw w p : KInv (key_rows w) → (Authenticate raw w).1 = Ok p →
  ∃ r, key_rows w !! KeyID p = Some r ∧ k_scope r = PrincipalScope p ∧ k_revoked_at r = None ∧
    credential_of r raw.
Proof.
  intros Hinv H. destruct (kfaults w (kcalls w)) as [f|] eqn:Hf.
  { destruct (Authenticate_fault raw w f Hf) as [e He]. congruence. }
  rewrite Authenticate_answer in H by done. destruct (ParseKey raw) as [q|] eqn:Hq; [|done].
  destruct (map_find _ _) as [[id r]|] eqn:Hm; [|done].
  destruct (VerifySecret _ _) eqn:Hv; [|done]. destruct (k_revoked_at r) eqn:Hrev; [done|].
  simpl in H. injection H as <-. apply map_find_Some in Hm as [Hr Hp]. unfold prefix_taken in Hp. bools.
  exists r. split_and!; [done..|]. exists (p_secret q). apply VerifySecret_spec in Hv.
  destruct (ParseKey_raw raw q Hq) as (Hraw & _ & _). destruct q as [qp qs]. simpl in *. subst qp. done.
Qed.

Lemma Authenticate_credential raw w id r :
  KInv (key_rows w) → kfaults w (kcalls w) = None → key_rows w !! id = Some r → credential_of r raw →
  (Authenticate raw w).1 =
    if is_None_b (k_revoked_at r) then Ok (mkPrincipal id (k_scope r)) else Err ErrUnauthorized.
Proof.
  intros Hinv Hf Hr (secret & _ & Hp & Hh). rewrite Authenticate_answer by done. rewrite Hp. simpl.
  rewrite (find_by_prefix _ id r) by done.
  by rewrite (proj2 (VerifySecret_spec (k_secret_hash r) secret)) by done.
Qed.

(** C27: who authenticates.  A presented credential is accepted exactly when the
    lookup answers and there is a key, not revoked, whose prefix it carries and
    whose stored digest is the SHA-256 of the secret it carries; the request then
    acts as that key, in the scope of that key, and that key only.  Every other
    credential, whether malformed, of an unknown prefix, with a wrong secret or
    revoked, gets the same answer, unless the database itself failed. *)
Theorem authentication_is_exact raw w :
  key_reachable (key_rows w) →
  (∀ p, (Authenticate raw w).1 = Ok p ↔
     kfaults w (kcalls w) = None ∧
     ∃ r, key_rows w !! KeyID p = Some r ∧ k_scope r = PrincipalScope p ∧ k_revoked_at r = None ∧
       credential_of r raw) ∧
  (∀ e, (Authenticate raw w).1 = Err e → e = ErrUnauthorized ∨ is_Some (kfaults w (kcalls w))).
Proof.
  intros Hreach. pose proof (key_reachable_inv _ Hreach) as Hinv. split.
  - intros p. split.
    + intros H. split; [|by apply Authenticate_ok].
      destruct (kfaults w (kcalls w)) as [f|] eqn:Hf; [|done].
      destruct (Authenticate_fault raw w f Hf) as [e He]. congruence.
    + intros (Hf & r & Hr & Hs & Hrev & Hc). rewrite (Authenticate_credential raw w (KeyID p) r) by done.
      rewrite Hrev, Hs. by destruct p.
  - intros e H. destruct (kfaults w (kcalls w)) as [f|] eqn:Hf; [right; eauto|left].
    rewrite Authenticate_answer in H by done. repeat case_match; congruence.
Qed.

(** ** The life of a key *)

Lemma ReadFull_ok n w x w' : ReadFull n w = (Ok x, w') →
  String.length x = n ∧ key_rows w' = key_rows w.
Proof.
  unfold ReadFull. destruct (n <=? String.length (entropy w))%nat eqn:Hn; [|done].
  intros [= <- <-]. split; [|done]. apply Nat.leb_le in Hn. revert n Hn.
  induction (entropy w) as [|c s IH]; intros [|n] Hn; simpl in *; try lia. rewrite IH; lia.
Qed.

Lemma insert_key_ok id scope name m w k w' :
  insert_key id scope name m w = (Ok k, w') →
  k = scanKey id (mkKeyRow scope name (m_prefix m) (m_secret_hash m) (know w) None) ∧
  key_rows w' !! id = Some (mkKeyRow scope name (m_prefix m) (m_secret_hash m) (know w) None).
Proof.
  unfold insert_key, statement. destruct (kfaults w (kcalls w)); [done|]. cbv zeta.
  destruct (key_rows w !! id); [done|]. destruct (map_any _ _); [done|].
  destruct (key_check _); [|done]. simpl. intros [= <- <-]. split; [done|]. apply lookup_insert_eq.
Qed.

Lemma create_ok n scope name w c w' :
  create_attempts n scope name w = (Ok c, w') →
  ∃ r, key_rows w' !! ID (CreatedKey c) = Some r ∧ k_scope r = scope ∧ k_revoked_at r = None ∧
    credential_of r (CreatedRaw c).
Proof.
  revert w. induction n as [|n IH]; intros w H; [done|]. simpl in H.
  apply bind_ok in H as (m & w1 & Hm & H). apply bind_ok in H as (id & w2 & _ & H).
  apply bind_ok in H as (r & w3 & Hi & H). unfold try in Hi.
  destruct (insert_key id scope name m w2) as [r' w3'] eqn:Hins. injection Hi as <- <-.
  destruct r' as [k|[]]; try done; [|by apply IH in H].
  apply ret_ok in H as [<- <-]. apply insert_key_ok in Hins as [-> Hrow]. simpl.
  eexists. split; [exact Hrow|]. split; [done|]. split; [done|]. simpl.
  unfold GenerateMaterial in Hm. apply bind_ok in Hm as (x & v1 & Hx & Hm).
  apply bind_ok in Hm as (y & v2 & Hy & Hm). apply ret_ok in Hm as [<- <-].
  apply ReadFull_ok in Hx as [Hx _]. apply ReadFull_ok in Hy as [Hy _].
  exists (b64_encode y). split; [done|]. split; [by apply ParseKey_encoded|done].
Qed.

Lemma key_def_credential r r' raw : key_def r' = key_def r → credential_of r raw → credential_of r' raw.
Proof.
  unfold key_def. intros [= _ _ Ep Eh _] (s & H1 & H2 & H3). exists s. by rewrite Ep, Eh.
Qed.

(** The life of a key.  The credential a creation returns, which is not stored,
    is one; whatever keys are created and revoked afterwards, presenting it acts as
    the new key in the requested scope until that key is revoked, and is refused
    from then on. *)
Theorem credential_lives_until_revoked scope name w c w1 w2 :
  key_reachable (key_rows w) → Create scope name w = (Ok c, w1) →
  rtc key_call_step (key_rows w1) (key_rows w2) → kfaults w2 (kcalls w2) = None →
  let id := ID (CreatedKey c) in
  ∃ r, key_rows w2 !! id = Some r ∧ k_scope r = TrimSpace scope ∧
    (Authenticate (CreatedRaw c) w2).1 =
      if is_None_b (k_revoked_at r) then Ok (mkPrincipal id (TrimSpace scope)) else Err ErrUnauthorized.
Proof.
  intros Hreach Hc Hlater Hf id. pose proof (key_reachable_inv _ Hreach) as Hinv.
  pose proof (key_exec_step (KCreate scope name) w) as [_ Hstep]. simpl in Hstep. rewrite Hc in Hstep.
  unfold Create in Hc. destruct (validateKeyRequest _ _); [|done].
  apply create_ok in Hc as (r & Hr & Hs & _ & Hcred).
  destruct (key_history _ _ Hlater) as [Hkeep Hinv2].
  destruct (Hkeep _ r Hr) as (r' & Hr' & Hdef & _). pose proof Hdef as [= Es _ _ _ _].
  exists r'. split_and!; [done|congruence|].
  rewrite (Authenticate_credential _ w2 id r'); [by rewrite Es, Hs|by apply Hinv2, Hstep|done|done|].
  by eapply key_def_credential.
Qed.

(** ** Revocation *)

Lemma stamp_revoked_ok id w k w' : stamp_revoked id w = (Ok k, w') →
  ∃ r, key_rows w' !! id = Some r ∧ k = scanKey id r ∧ is_Some (k_revoked_at r).
Proof.
  unfold stamp_revoked, statement. destruct (kfaults w (kcalls w)); [done|].
  destruct (key_rows w !! id) as [r|]; [|done]. destruct (k_revoked_at r); [done|].
  cbv zeta. destruct (key_check _); [|done]. simpl. intros [= <- <-].
  eexists. split; [apply lookup_insert_eq|]. simpl. eauto.
Qed.

Lemma stamp_revoked_missing id w w' : stamp_revoked id w = (Err ErrKeyNotFound, w') →
  key_rows w' = key_rows w ∧ ∀ r, key_rows w !! id = Some r → is_Some (k_revoked_at r).
Proof.
  unfold stamp_revoked, statement. destruct (kfaults w (kcalls w)) as [[? []]|]; [done..|].
  destruct (key_rows w !! id) as [r|]; [|by intros [= <-]].
  destruct (k_revoked_at r) eqn:Hr; [intros [= <-]; split; [done|]; intros ? [= <-]; eauto|].
  cbv zeta. by destruct (key_check _).
Qed.

(** After a revocation succeeds, first or repeated, its key is revoked. *)
Lemma Revoke_ok id w res w' : Revoke id w = (Ok res, w') →
  ∃ r, key_rows w' !! id = Some r ∧ RevokedKey res = scanKey id r ∧ is_Some (k_revoked_at r).
Proof.
  unfold Revoke. intros (r & w1 & Hs & H)%bind_ok. unfold try in Hs.
  destruct (stamp_revoked id w) as [r' w1'] eqn:Hst. injection Hs as <- <-.
  destruct r' as [k|[]]; try done.
  - apply ret_ok in H as [<- <-]. by apply stamp_revoked_ok in Hst.
  - apply stamp_revoked_missing in Hst as [Hrows Hrev].
    apply bind_ok in H as (k & w2 & Hg & H). apply ret_ok in H as [<- <-].
    unfold Get, statement in Hg. destruct (kfaults w1' (kcalls w1')); [done|].
    destruct (key_rows w1' !! id) as [r|] eqn:Hr; [|done]. injection Hg as <- <-. simpl.
    exists r. split_and!; [done|done|]. apply Hrev. by rewrite <-Hrows.
Qed.

(** The session's scope and key, or the refusal of a failing connection; the keys
    stay as they are. *)
Lemma session_scope_read refuse sid row s :
  worker_sessions (db (sv_world s)) !! sid = Some row →
  ∃ s', sv_worker_keys s' = sv_worker_keys s ∧
    ((∃ a, store (SessionScope sid) refuse s = (Err a, s')) ∨
     store (SessionScope sid) refuse s = (Ok (s_scope row, s_worker_key_id row), s')).
Proof.
  intros Hs. unfold store.
  assert (SessionScope sid (sv_world s) = (Ok (s_scope row, s_worker_key_id row), sv_world s)) as ->.
  { unfold SessionScope, sql_get, mbind, M_bind. simpl. by rewrite Hs. }
  destruct (sv_faults s (sv_calls s)) as [[[] ?]|]; eexists; (split; [|eauto]); done.
Qed.

(** A revocation is final and cuts off what the key had opened.  Once a
    revocation has been confirmed, and whatever keys are created and revoked
    afterwards: the key keeps the instant of its revocation, no credential at all
    authenticates as it, and every worker-control request of a session that was
    registered with it, in any state of the job database, is refused before it
    reaches the store. *)
Theorem revocation_is_final id w res w1 w2 :
  key_reachable (key_rows w) → Revoke id w = (Ok res, w1) →
  rtc key_call_step (key_rows w1) (key_rows w2) →
  (∃ r, key_rows w2 !! id = Some r ∧ scanKey id r = RevokedKey res) ∧
  (∀ raw p, (Authenticate raw w2).1 = Ok p → KeyID p ≠ id) ∧
  (∀ cfg sid row s, sv_worker_keys s = w2 →
     worker_sessions (db (sv_world s)) !! sid = Some row → s_worker_key_id row = Some id →
     ∃ refusal, (resolveWorkerControlScope cfg sid s).1 = Err refusal).
Proof.
  intros Hreach Hr Hlater. pose proof (key_reachable_inv _ Hreach) as Hinv.
  pose proof (key_exec_step (KRevoke id) w) as [_ Hstep]. simpl in Hstep. rewrite Hr in Hstep.
  apply Revoke_ok in Hr as (r & Hrow & Hres & Hrev).
  destruct (key_history _ _ Hlater) as [Hkeep Hinv2].
  destruct (Hkeep id r Hrow) as (r' & Hrow' & _ & Hsame). rewrite (Hsame Hrev) in Hrow'. split_and!.
  - exists r. done.
  - intros raw p Hp Hid. apply Authenticate_ok in Hp as (x & Hx & _ & Hn & _); [|by apply Hinv2, Hstep].
    rewrite Hid, Hrow' in Hx. injection Hx as <-. rewrite Hn in Hrev. by destruct Hrev.
  - intros cfg sid row s <- Hs Hk. unfold resolveWorkerControlScope.
    destruct (session_scope_read writeWorkerControlError sid row s Hs) as (s1 & Hkeys & [[a Ha]|Ha]);
      unfold mbind, M_bind; rewrite Ha; [eauto|]. rewrite Hk.
    destruct (has_worker_keys cfg); simpl; [|eauto]. unfold worker_keys, WorkerKeys.IsRevoked, statement.
    rewrite Hkeys. destruct (kfaults _ _) as [[? []]|]; simpl; [eauto..|].
    rewrite Hrow'. destruct Hrev as [t Ht]. rewrite Ht. simpl. eauto.
Qed.

(** ** A key in use *)

(** A table [rows] at [start], with a source of bytes. *)
Definition sc_keys (rows : gmap uuid KeyRow) (start : time) (base : N) : KWorld :=
  mkKWorld rows (λ n, (start + Z.of_nat n * Second)%Z) (λ n, (base + N.of_nat n)%N) 0
    "0123456789abcdef0123456789ABCDEF0123456789abcdef" (λ _, None) 0.

Definition sc_created : result key_error Created * KWorld := Create " t1 " "ci" (sc_keys ∅ (sec 10) 50).
Definition sc_revoked : result key_error RevokeResult * KWorld :=
  Revoke 50 (sc_keys (key_rows sc_created.2) (sec 20) 60).

Definition sc_key : Key := mkKey 50 "t1" "ci" "MDEyMzQ1Njc4OWFiY2RlZg" (sec 10) None.
Definition sc_raw : string :=
  raw_key "MDEyMzQ1Njc4OWFiY2RlZg" "MDEyMzQ1Njc4OUFCQ0RFRjAxMjM0NTY3ODlhYmNkZWY".

Lemma pair_answer {A B} (x : A * B) a : x.1 = a → x = (a, x.2).
Proof. by destruct x as [? ?]; intros <-. Qed.

Lemma sc_create : sc_created = (Ok (mkCreated sc_key sc_raw), sc_created.2).
Proof. apply pair_answer. vm_compute. reflexivity. Qed.

Lemma sc_revoke : ∃ res, sc_revoked = (Ok res, sc_revoked.2).
Proof. eexists. apply pair_answer. vm_compute. reflexivity. Qed.

Lemma sc_created_reachable : key_reachable (key_rows sc_created.2).
Proof. apply rtc_once. by exists (KCreate " t1 " "ci"), (sc_keys ∅ (sec 10) 50). Qed.

Lemma authentication_is_exact_witness :
  let w := sc_keys (key_rows sc_created.2) (sec 15) 70 in
  (Authenticate sc_raw w).1 = Ok (mkPrincipal 50 "t1") ∧
  ∃ r, key_rows w !! 50%N = Some r ∧ k_revoked_at r = None ∧ credential_of r sc_raw.
Proof.
  intros w. assert ((Authenticate sc_raw w).1 = Ok (mkPrincipal 50 "t1")) as Ha by (vm_compute; reflexivity).
  split; [exact Ha|].
  destruct (proj1 (authentication_is_exact sc_raw w sc_created_reachable) (mkPrincipal 50 "t1")) as [H _].
  destruct (H Ha) as (_ & r & Hr & _ & Hrev & Hc). exists r.
  split; [exact Hr|]. split; [exact Hrev|exact Hc].
Defined.

Lemma credential_lives_until_revoked_witness :
  (Authenticate sc_raw (sc_keys (key_rows sc_created.2) (sec 15) 70)).1 = Ok (mkPrincipal 50 "t1").
Proof.
  destruct (credential_lives_until_revoked " t1 " "ci" (sc_keys ∅ (sec 10) 50) (mkCreated sc_key sc_raw)
    sc_created.2 (sc_keys (key_rows sc_created.2) (sec 15) 70) (rtc_refl _ _) sc_create (rtc_refl _ _)
    eq_refl) as (r & Hr & Hs & Ha).
  assert (k_revoked_at <$> key_rows sc_created.2 !! 50%N = Some None) as Hn by (vm_compute; reflexivity).
  change (key_rows sc_created.2 !! 50%N = Some r) in Hr. rewrite Hr in Hn. injection Hn as Hn.
  rewrite Hn in Ha. exact Ha.
Defined.

Lemma revocation_is_final_witness :
  (Authenticate sc_raw (sc_keys (key_rows sc_revoked.2) (sec 30) 70)).1 = Err ErrUnauthorized ∧
  ∀ raw p, (Authenticate raw (sc_keys (key_rows sc_revoked.2) (sec 30) 70)).1 = Ok p → KeyID p ≠ 50%N.
Proof.
  split; [vm_compute; reflexivity|]. destruct sc_revoke as [res Hres].
  exact (proj1 (proj2 (revocation_is_final 50 (sc_keys (key_rows sc_created.2) (sec 20) 60) res sc_revoked.2
    (sc_keys (key_rows sc_revoked.2) (sec 30) 70) sc_created_reachable Hres (rtc_refl _ _)))).
Defined.
