(* ===== verification/Boundary.v ===== *)
(** * The boundaries of the API

    What a request can reach.  For any route table that registration accepts, no
    request under /internal/ gets past the browser-origin guard and none under
    /v1/ past the API key without satisfying it; and the server's own table is
    accepted. *)

From S2P Require Import Prelude.
From S2P Require Import GoText.
From S2P Require Import GoJson.
From S2P Require Import Schema.
From S2P Require Import Keys.
From S2P Require Import Hosts.
From S2P Require Import Api.
From S2P Require Import Access.
From S2P Require Import PublicHandlers.
From S2P Require Import Routes.

Local Open Scope string_scope.

(** ** The multiplexer *)

Lemma best_entry_in l e : best_entry l = Some e → e ∈ l.
Proof.
  unfold best_entry.
  assert (∀ (l : list entry) acc, fold_left (λ best e,
    match best with
    | Some b => if more_specific (en_segments e) (en_segments b) then Some e else best
    | None => Some e
    end) l acc = Some e → acc = Some e ∨ e ∈ l) as Hg.
  { clear. induction l as [|x l IH]; intros acc H; simpl in H; [by left|].
    apply IH in H as [H|H]; [|right; by constructor].
    destruct acc as [b|]; [destruct (more_specific _ _)|]; simplify_eq;
      first [by left | right; constructor]. }
  intros H. by apply Hg in H as [?|?].
Qed.

Lemma best_entry_some l e : e ∈ l → is_Some (best_entry l).
Proof.
  unfold best_entry.
  assert (∀ (l : list entry) acc, (is_Some acc ∨ e ∈ l) → is_Some (fold_left (λ best e,
    match best with
    | Some b => if more_specific (en_segments e) (en_segments b) then Some e else best
    | None => Some e
    end) l acc)) as Hg.
  { clear. induction l as [|x l IH]; simpl; intros acc H; [by destruct H as [?|H%not_elem_of_nil]|].
    apply IH. destruct acc as [b|].
    - left. destruct (more_specific _ _); eauto.
    - left. eauto. }
  intros H. apply Hg. by right.
Qed.

(** The catch-all answers what nothing else does. *)
Lemma match_request_some mux r path : catch_all ∈ mux → path ≠ [] → is_Some (match_request mux r path).
Proof.
  intros Hin Hp. unfold match_request.
  destruct (if bool_decide _ then None else _); [eauto|]. unfold match_method.
  destruct (best_entry (List.filter (entry_matches (Some _) _ _) _)); [eauto|].
  destruct (if bool_decide _ then _ else None); [eauto|]. apply (best_entry_some _ catch_all).
  apply list_elem_of_In, filter_In. split; [by apply list_elem_of_In|]. by destruct path.
Qed.

Lemma filtered_entry mux m host path e :
  best_entry (List.filter (entry_matches m host path) mux) = Some e →
  e ∈ mux ∧ en_method e = m ∧ is_Some (match_segments (en_segments e) path).
Proof.
  intros H%best_entry_in. apply list_elem_of_In, filter_In in H as [Hin Hm].
  unfold entry_matches in Hm. bools. split_and!; [by apply list_elem_of_In|done|].
  destruct (match_segments _ _); [eauto|done].
Qed.

(** A pattern that answers a method: one without a method, one of the method, or GET
    for HEAD. *)
Definition reached (m : option string) (method : string) : Prop :=
  m = None ∨ m = Some method ∨ m = Some "GET" ∧ method = "HEAD".

Lemma match_method_in mux host method path e :
  match_method mux host method path = Some e →
  e ∈ mux ∧ reached (en_method e) method ∧ is_Some (match_segments (en_segments e) path).
Proof.
  unfold match_method, reached. intros H.
  destruct (best_entry (List.filter (entry_matches (Some method) host path) mux)) eqn:E1.
  { simplify_eq. apply filtered_entry in E1 as (? & -> & ?). auto. }
  destruct (if bool_decide (method = "HEAD") then _ else None) eqn:E2.
  - simplify_eq. case_bool_decide; [|done]. apply filtered_entry in E2 as (? & -> & ?). auto 10.
  - apply filtered_entry in H as (? & -> & ?). auto 10.
Qed.

Lemma match_request_in mux r path e :
  match_request mux r path = Some e →
  e ∈ mux ∧ reached (en_method e) (rq_method r) ∧ is_Some (match_segments (en_segments e) path).
Proof.
  unfold match_request. intros H.
  destruct (if bool_decide _ then None else _) as [e'|] eqn:E; [|by apply match_method_in in H].
  simplify_eq. case_bool_decide; [done|]. by apply match_method_in in E.
Qed.

(** What answers a request: a redirect or a 404 of the library, or the handler of a
    pattern that its method and its path reach. *)
Lemma ServeHTTP_reached mux r :
  (∃ status, (status = 301 ∨ status = 404)%Z ∧ ServeHTTP mux r = mret (mkAnswer status NoBody)) ∨
  ∃ e bs, e ∈ mux ∧ reached (en_method e) (rq_method r) ∧ match_segments (en_segments e) (rq_path r) = Some bs ∧
    ServeHTTP mux r = en_handler e (mkCtx None None bs) r.
Proof.
  unfold ServeHTTP. destruct (_ && _ && _); [left; exists 301%Z; auto|].
  destruct (match_request mux r (rq_path r)) as [e|] eqn:E; [|left; exists 404%Z; auto].
  apply match_request_in in E as (Hin & Hr & [bs Hbs]). right. exists e, bs. rewrite Hbs. done.
Qed.

Lemma ServeHTTP_cases mux r :
  (∃ status, (status = 301 ∨ status = 404)%Z ∧ ServeHTTP mux r = mret (mkAnswer status NoBody)) ∨
  ∃ e bs, e ∈ mux ∧ match_segments (en_segments e) (rq_path r) = Some bs ∧
    ServeHTTP mux r = en_handler e (mkCtx None None bs) r.
Proof. destruct (ServeHTTP_reached mux r) as [?|(e & bs & ? & _ & ? & ?)]; [auto|]. right. by exists e, bs. Qed.

(** ** What is registered *)

Lemma mapM_option_in {A B} (f : A → option B) l k y :
  mapM f l = Some k → y ∈ k → ∃ x, x ∈ l ∧ f x = Some y.
Proof.
  intros H Hy. apply mapM_Some in H. induction H as [|x y' l k Hxy _ IH]; [by apply not_elem_of_nil in Hy|].
  apply elem_of_cons in Hy as [->|Hy]; [exists x; split; [constructor|done]|].
  destruct (IH Hy) as (x' & ? & ?). exists x'. split; [by constructor|done].
Qed.

Lemma register_ok cfg m path c rule h e :
  register cfg m path c rule h = Some e →
  ∃ h', wrap cfg c rule h = Some h' ∧ e = mkEntry m (read_pattern path).1 (read_pattern path).2 h'.
Proof.
  unfold register. destruct (wrap cfg c rule h) as [h'|]; [|done]. simpl.
  destruct (read_pattern path). intros [= <-]. eauto.
Qed.

Lemma in_filter {A} (f : A → bool) (x : A) l : x ∈ List.filter f l ↔ x ∈ l ∧ f x = true.
Proof. by rewrite !list_elem_of_In, filter_In. Qed.

(** A pattern of an accepted table: a route of the listener, a fallback, or the
    catch-all. *)
Lemma registerRoutes_in cfg table l mux e :
  registerRoutes cfg table l = Some mux → e ∈ mux →
  checkListenerPlacement (enabledRoutes cfg table) = [] ∧
  checkRouteBoundaries (enabledRoutes cfg table) (fallbacksFor (enabledRoutes cfg table)) = [] ∧
  ∃ rule, hostRuleFor (controlHosts cfg) l = Some rule ∧
  ((∃ rt, rt ∈ table ∧ groupEnabled cfg (r_group rt) = true ∧ has (r_listeners rt) l = true ∧
     register cfg (Some (r_method rt)) (r_path rt) (r_chain rt) rule (r_handler rt) = Some e) ∨
   (∃ fb, fb ∈ fallbacksFor (routesOn (enabledRoutes cfg table) l) ∧
     register cfg None (fb_path fb) (Some (fb_chain fb)) rule (λ _ _, methodNotAllowed) = Some e) ∨
   e = catch_all).
Proof.
  unfold registerRoutes. intros H Hin.
  destruct (checkListenerPlacement _) eqn:Hp; [|done].
  destruct (checkRouteBoundaries _ _) eqn:Hr; [|done].
  destruct (hostRuleFor _ _) as [rule|] eqn:Hrule; [|done]. simpl in H.
  apply bind_Some in H as (routes & Hroutes & H). apply bind_Some in H as (fbs & Hfbs & H).
  injection H as <-. split_and!; [done..|]. exists rule. split; [done|].
  apply elem_of_app in Hin as [Hin|Hin]; [|apply elem_of_app in Hin as [Hin|Hin]].
  - left. destruct (mapM_option_in _ _ _ _ Hroutes Hin) as (rt & Hrt & Hreg). exists rt.
    unfold routesOn, enabledRoutes in Hrt. apply in_filter in Hrt as [Hrt Hhas].
    apply in_filter in Hrt as [Hrt Hg]. done.
  - right; left. by destruct (mapM_option_in _ _ _ _ Hfbs Hin) as (fb & ? & ?); exists fb.
  - right; right. by apply list_elem_of_singleton in Hin.
Qed.

Lemma registerRoutes_catch_all cfg table l mux : registerRoutes cfg table l = Some mux → catch_all ∈ mux.
Proof.
  unfold registerRoutes. intros H. destruct (checkListenerPlacement _); [|done].
  destruct (checkRouteBoundaries _ _); [|done]. destruct (hostRuleFor _ _); [|done]. simpl in H.
  apply bind_Some in H as (routes & _ & H). apply bind_Some in H as (fbs & _ & H). injection H as <-.
  set_solver.
Qed.

(** ** Paths and prefixes *)

Lemma split_byte_cons c s : ∃ w ws, split_byte c s = w :: ws.
Proof.
  destruct s as [|x s]; simpl; [by eauto|]. destruct (Ascii.eqb x c); [eauto|].
  destruct (split_byte c s); eauto.
Qed.

(** The first part of a split and whether there are more. *)
Lemma split_byte_first c s w x ws :
  split_byte c s = w :: x :: ws → ∃ rest, s = (w ++ String c rest)%string.
Proof.
  revert w. induction s as [|a s IH]; intros w H; simpl in H; [done|].
  destruct (Ascii.eqb a c) eqn:Ha.
  - injection H as <- _. apply Ascii.eqb_eq in Ha as ->. by exists s.
  - destruct (split_byte_cons c s) as (w' & ws' & Hs). rewrite Hs in H. injection H as <- ->.
    destruct (IH w') as [rest ->]; [done|]. by exists rest.
Qed.

Lemma split_byte_Cut c s w ws :
  split_byte c s = w :: ws → w = match Cut c s with Some (a, _) => a | None => s end.
Proof.
  revert w ws. induction s as [|a s IH]; intros w ws H; simpl in *; [by injection H|].
  destruct (Ascii.eqb a c); [by injection H|].
  destruct (split_byte_cons c s) as (w' & ws' & Hs). rewrite Hs in H. injection H as <- _.
  rewrite (IH _ _ Hs). by destruct (Cut c s) as [[]|].
Qed.

(** A pattern that starts with one slash and names something after it. *)
Definition rooted (path : string) : bool :=
  match path with
  | String a (String b _) => Ascii.eqb a "/" && negb (Ascii.eqb b "/")
  | _ => false
  end.

Lemma rooted_split path :
  rooted path = true → ∃ c s, path = String "/" (String c s) ∧ c ≠ "/"%char.
Proof.
  destruct path as [|a [|b s]]; simpl; try done. intros H. bools.
  apply Ascii.eqb_eq in H as ->. apply Ascii.eqb_neq in H0. eauto.
Qed.

Lemma prefix_append p s : String.prefix p (p ++ s) = true.
Proof. induction p as [|c p IH]; [by destruct s|]. simpl. destruct (ascii_dec c c); done. Qed.

Lemma prefix_split p s : String.prefix p s = true → ∃ t, s = p ++ t.
Proof.
  revert s. induction p as [|c p IH]; intros s H; [by exists s|].
  destruct s as [|a s]; [done|]. cbn [String.prefix] in H. destruct (ascii_dec c a) as [->|]; [|done].
  destruct (IH s H) as [t ->]. by exists t.
Qed.

Lemma read_pattern_root rest :
  read_pattern (String "/" rest) = ("", map read_segment (split_byte "/" rest)).
Proof. reflexivity. Qed.

(** A segment that does not start with a brace is a literal. *)
Lemma read_segment_lit c w :
  HasPrefix (String c w) "{" = false → read_segment (String c w) = Lit (String c w).
Proof.
  intros H. unfold read_segment, braced. destruct (unsnoc w) as [[t d]|]; [|done].
  destruct (Ascii.eqb c "{") eqn:Hc; [|done]. apply Ascii.eqb_eq in Hc as ->. by destruct w.
Qed.

Lemma split_byte_head c s : c ≠ "/"%char → ∃ w ws, split_byte "/" (String c s) = String c w :: ws.
Proof.
  intros Hc%Ascii.eqb_neq. cbn [split_byte]. rewrite Hc.
  destruct (split_byte_cons "/" s) as (w & ws & ->). eauto.
Qed.

(** A rooted pattern without a wildcard first that matches a path of two segments
    or more starts with the first of them. *)
Lemma pattern_prefix path x y rest bs :
  rooted path = true → firstSegmentIsWildcard path = false →
  match_segments (read_pattern path).2 (x :: y :: rest) = Some bs →
  HasPrefix path ("/" ++ x ++ "/") = true.
Proof.
  intros (c & s & -> & Hc)%rooted_split Hw. rewrite read_pattern_root. cbn [snd].
  destruct (split_byte_head c s Hc) as (w & ws & Hs). rewrite Hs.
  unfold firstSegmentIsWildcard in Hw. case_bool_decide as Heq.
  { injection Heq as -> ->. vm_compute in Hs. injection Hs as <- <-.
    change (map read_segment ["{$}"]) with [End]. cbn [match_segments]. intros H. by repeat case_match. }
  change (TrimPrefix (String "/" (String c s)) "/") with (String c s) in Hw. cbv zeta in Hw.
  rewrite <-(split_byte_Cut _ _ _ _ Hs) in Hw. cbn [map]. rewrite read_segment_lit by done.
  cbn [match_segments]. case_bool_decide as Hx; [|done]. intros Hm.
  destruct ws as [|w2 ws]; [done|]. apply split_byte_first in Hs as [t Ht].
  rewrite Ht, Hx. unfold HasPrefix.
  assert (String "/" (String c w ++ String "/" t) = ("/" ++ String c w ++ "/") ++ t) as ->.
  { change (String "/" (String c w ++ "/" ++ t) = String "/" ((String c w ++ "/") ++ t)).
    by rewrite append_assoc_str. }
  apply prefix_append.
Qed.


(** ** What the checks leave *)

Lemma concat_map_nil {A B} (f : A → list B) l x : concat (map f l) = [] → x ∈ l → f x = [].
Proof.
  intros H Hx. induction Hx as [x l|x y l _ IH]; simpl in H; apply app_nil in H as [H1 H2]; auto.
Qed.

Lemma elem_of_enabled cfg table rt :
  rt ∈ table → groupEnabled cfg (r_group rt) = true → rt ∈ enabledRoutes cfg table.
Proof. intros. by apply in_filter. Qed.

(** A fallback is guarded or bare. *)
Definition fallback_chain (fb : fallback) : Prop := fb_chain fb = chainGuard ∨ fb_chain fb = chainNone.

(** A fallback answers a path that a route of the list has. *)
Lemma add_method_path rt fbs fb :
  fb ∈ add_method rt fbs →
  (fb_path fb = r_path rt ∧ fallback_chain fb) ∨
  ∃ fb', fb' ∈ fbs ∧ fb_path fb' = fb_path fb ∧ fb_chain fb' = fb_chain fb.
Proof.
  induction fbs as [|x fbs IH]; simpl; intros H.
  - apply list_elem_of_singleton in H as ->. left. split; [done|].
    unfold fallback_chain. simpl. case_bool_decide; auto.
  - destruct (bool_decide (fb_path x = r_path rt)).
    + apply elem_of_cons in H as [->|H]; right; [exists x|exists fb]; split; try done; by constructor.
    + apply elem_of_cons in H as [->|H]; [right; exists x; split; [constructor|done]|].
      destruct (IH H) as [?|(y & ? & ?)]; [by left|right; exists y; split; [by constructor|done]].
Qed.

Lemma fallback_path routes fb :
  fb ∈ fallbacksFor routes → (∃ rt, rt ∈ routes ∧ r_path rt = fb_path fb) ∧ fallback_chain fb.
Proof.
  unfold fallbacksFor. intros (fb0 & -> & Hin)%list_elem_of_fmap. simpl.
  assert (∀ done_ fbs, 
    (∀ f, f ∈ fbs → (∃ rt, rt ∈ routes ∧ r_path rt = fb_path f) ∧ fallback_chain f) →
    (∀ rt, rt ∈ done_ → rt ∈ routes) → ∀ f,
    f ∈ fold_left (λ fbs rt, if skipped routes (r_path rt) then fbs else add_method rt fbs) done_ fbs →
    (∃ rt, rt ∈ routes ∧ r_path rt = fb_path f) ∧ fallback_chain f) as Hg.
  { induction done_ as [|rt l IH]; simpl; intros fbs Hfbs Hl f Hf; [by apply Hfbs|].
    eapply IH; [|intros x Hx; apply Hl; by constructor|exact Hf].
    destruct (skipped _ _); [done|]. intros f' [[Hp Hc]|(y & Hy & Hp & Hc)]%add_method_path.
    - split; [|done]. exists rt. split; [apply Hl; constructor|done].
    - destruct (Hfbs y Hy) as [(rt' & ? & ?) Hy']. unfold fallback_chain in *. rewrite <-Hc, <-Hp. eauto. }
  change (fallback_chain (mkFallback _ _ _)) with (fallback_chain fb0).
  apply (Hg routes []); [by intros f Hf%not_elem_of_nil|done|done].
Qed.

Lemma routesOn_in cfg table l rt :
  rt ∈ routesOn (enabledRoutes cfg table) l →
  rt ∈ enabledRoutes cfg table ∧ rt ∈ table ∧ has (r_listeners rt) l = true.
Proof.
  intros [Hrt Hl]%in_filter. split; [done|]. unfold enabledRoutes in Hrt. by apply in_filter in Hrt as [? _].
Qed.

(** A route of the listener whose path starts with /[first]/, with what the checks
    say of it. *)
Record serves (cfg : ServerConfig) (table : list route) (l : Listener) (first : string) (rt : route) : Prop := {
  sv_in : rt ∈ table;
  sv_on : has (r_listeners rt) l = true;
  sv_prefix : HasPrefix (r_path rt) ("/" ++ first ++ "/") = true;
  sv_checked : check_route rt = [];
  sv_placed : check_placement rt = [] }.

Section accepted.
Context (cfg : ServerConfig) (table : list route) (l : Listener) (mux : list entry).
Context (Hreg : registerRoutes cfg table l = Some mux).
Context (Hroot : Forall (λ rt, rooted (r_path rt) = true) table).

Lemma accepted_serves rt first x rest bs :
  rt ∈ enabledRoutes cfg table → rt ∈ table → has (r_listeners rt) l = true →
  checkListenerPlacement (enabledRoutes cfg table) = [] →
  checkRouteBoundaries (enabledRoutes cfg table) (fallbacksFor (enabledRoutes cfg table)) = [] →
  match_segments (read_pattern (r_path rt)).2 (first :: x :: rest) = Some bs →
  serves cfg table l first rt.
Proof using Hroot.
  intros Hen Hin Hon Hp Hb Hm. apply app_nil in Hb as [Hb _].
  pose proof (concat_map_nil _ _ _ Hb Hen) as Hc. pose proof (concat_map_nil _ _ _ Hp Hen) as Hpl.
  rewrite Forall_forall in Hroot. split; [done..| |done|done].
  eapply pattern_prefix; [by apply Hroot| |done].
  unfold check_route in Hc. by destruct (firstSegmentIsWildcard _).
Qed.

(** Who answers a path of two segments or more: a wrapped route of the listener, a
    405 on its path, or the catch-all. *)
Lemma accepted_entry e first x rest bs :
  e ∈ mux → match_segments (en_segments e) (first :: x :: rest) = Some bs →
  (∃ rt rule, serves cfg table l first rt ∧ hostRuleFor (controlHosts cfg) l = Some rule ∧
     wrap cfg (r_chain rt) rule (r_handler rt) = Some (en_handler e)) ∨
  (∃ rt rule c, serves cfg table l first rt ∧ hostRuleFor (controlHosts cfg) l = Some rule ∧
     (c = chainGuard ∨ c = chainNone) ∧ wrap cfg (Some c) rule (λ _ _, methodNotAllowed) = Some (en_handler e)) ∨
  e = catch_all.
Proof using Hreg Hroot.
  intros Hin Hm. destruct (registerRoutes_in _ _ _ _ _ Hreg Hin) as (Hp & Hb & rule & Hrule & Hcase).
  destruct Hcase as [(rt & Hrt & Hg & Hon & Hr)|[(fb & Hfb & Hr)|?]]; [| |by do 2 right].
  - left. apply register_ok in Hr as (h & Hw & ->). exists rt, rule. split_and!; [|done|done].
    eapply accepted_serves; try done. by apply elem_of_enabled.
  - right; left. apply register_ok in Hr as (h & Hw & ->).
    apply fallback_path in Hfb as [(rt & Hrt & Hpath) Hc]. apply routesOn_in in Hrt as (Hen & Hrt & Hon).
    exists rt, rule, (fb_chain fb). split_and!; [|done|done|done].
    eapply accepted_serves; try done. rewrite Hpath. exact Hm.
Qed.
End accepted.

Lemma served_internal cfg table l rt :
  serves cfg table l "internal" rt → r_chain rt = Some chainGuard ∨ r_chain rt = Some chainGuardWorkerKey.
Proof.
  intros [_ _ Hp Hc _]. unfold check_route in Hc. destruct (firstSegmentIsWildcard _); [done|].
  change (HasPrefix (r_path rt) internalPathPrefix = true) in Hp. rewrite Hp in Hc.
  unfold guarded_chain in Hc. destruct (bool_decide _) eqn:E1; [left; by bools|].
  destruct (bool_decide (r_chain rt = Some chainGuardWorkerKey)) eqn:E2; [right; by bools|done].
Qed.

Lemma served_public cfg table l rt : serves cfg table l "v1" rt → r_chain rt = Some chainAPIKey.
Proof.
  intros [_ _ Hp Hc _]. unfold check_route in Hc. destruct (firstSegmentIsWildcard _); [done|].
  change (HasPrefix (r_path rt) publicPathPrefix = true) in Hp.
  destruct (HasPrefix (r_path rt) internalPathPrefix) eqn:Hi.
  - apply prefix_split in Hp as [t Ht]. apply prefix_split in Hi as [u Hu]. by rewrite Ht in Hu.
  - rewrite Hp in Hc. destruct (bool_decide _) eqn:E; [by bools|done].
Qed.

(** No cross-origin request gets past the guard.  Whatever table a server is
    built from, if registration accepts it, a request under /internal/ that the
    browser-origin guard of the listener refuses (it names a fetch site or an
    origin, or is not addressed to an allowed host) changes nothing and gets no
    more than a 403, a 404, a 405 or a redirect. *)
Theorem internal_requests_are_guarded cfg table l mux rule r x rest why s :
  registerRoutes cfg table l = Some mux → Forall (λ rt, rooted (r_path rt) = true) table →
  rq_path r = "internal" :: x :: rest →
  hostRuleFor (controlHosts cfg) l = Some rule → browserOriginRuleFor r rule = Some why →
  ∃ a, answer (ServeHTTP mux r) s = (a, s) ∧ an_status a ∈ [403; 404; 405; 301]%Z.
Proof.
  intros Hreg Hroot Hpath Hrule Hwhy.
  destruct (ServeHTTP_cases mux r) as [(st & Hst & ->)|(e & bs & Hin & Hm & ->)].
  { eexists. split; [reflexivity|]. destruct Hst as [->| ->]; set_solver. }
  rewrite Hpath in Hm.
  assert (∀ h, answer (refuseBrowserOrigin rule r h) s = (writeError 403 CodeOriginRefused [], s)) as Hno.
  { intros h. unfold answer, refuseBrowserOrigin. by rewrite Hwhy. }
  destruct (accepted_entry _ _ _ _ Hreg Hroot _ _ _ _ _ Hin Hm)
    as [(rt & rule' & Hs & Hr & Hw)|[(rt & rule' & c & Hs & Hr & Hc & Hw)| ->]].
  - assert (rule' = rule) as -> by congruence.
    destruct (served_internal _ _ _ _ Hs) as [Hc|Hc]; rewrite Hc in Hw; injection Hw as <-;
      (eexists; split; [apply Hno|set_solver]).
  - assert (rule' = rule) as -> by congruence.
    destruct Hc as [-> | ->]; injection Hw as <-; (eexists; split; [first [apply Hno|reflexivity]|set_solver]).
  - eexists. split; [reflexivity|set_solver].
Qed.

(** ** The API key *)

Definition reads_keys {A} (m : K A) : Prop := ∀ w, key_rows (m w).2 = key_rows w.

Lemma reads_keys_bind {A B} (m : K A) (f : A → K B) :
  reads_keys m → (∀ a, reads_keys (f a)) → reads_keys (m ≫= f).
Proof.
  intros Hm Hf w. unfold mbind, M_bind. specialize (Hm w). destruct (m w) as [[a|e] w']; [|done].
  simpl in *. by rewrite Hf.
Qed.

Lemma reads_keys_statement {A} (f : KWorld → result key_error A * gmap uuid KeyRow) :
  (∀ w, (f w).2 = key_rows w) → reads_keys (statement f).
Proof. intros Hf w. unfold statement. destruct (kfaults w (kcalls w)) as [[[] ?]|]; simpl; auto. Qed.

Lemma Authenticate_reads raw : reads_keys (KeyStore.Authenticate raw).
Proof.
  unfold KeyStore.Authenticate. destruct (ParseKey raw); [|done].
  apply reads_keys_bind; [by apply reads_keys_statement|]. intros [[id k]|]; [|done].
  destruct (negb _); [done|]. by destruct (k_revoked_at k).
Qed.

(** The request carries a live API key of [scope]. *)
Definition authenticates (cfg : ServerConfig) (r : Request) (s : Server) (scope : string) : Prop :=
  has_keys cfg = true ∧ ∃ credential p,
    bearerCredential (header_Get r authorizationHeader) = Some credential ∧
    (KeyStore.Authenticate credential (sv_keys s)).1 = Ok p ∧ KeyStore.PrincipalScope p = scope.

(** The database and the rows of both key tables. *)
Definition untouched (s s' : Server) : Prop :=
  sv_world s' = sv_world s ∧ key_rows (sv_keys s') = key_rows (sv_keys s) ∧
  key_rows (sv_worker_keys s') = key_rows (sv_worker_keys s).

Lemma requireAPIKey_cases cfg r next s :
  (∃ a s', requireAPIKey cfg r next s = (Err a, s') ∧ untouched s s' ∧ an_status a ∈ [401; 500; 503]%Z) ∨
  (∃ scope s', authenticates cfg r s scope ∧ untouched s s' ∧ requireAPIKey cfg r next s = next scope s').
Proof.
  unfold requireAPIKey, authenticates. destruct (has_keys cfg); simpl.
  2: { left. do 2 eexists. split; [done|]. split; [done|set_solver]. }
  destruct (bearerCredential _) as [c|] eqn:Hb.
  2: { left. do 2 eexists. split; [done|]. split; [done|set_solver]. }
  pose proof (Authenticate_reads c (sv_keys s)) as Hrows. unfold mbind, M_bind, api_keys.
  destruct (KeyStore.Authenticate c (sv_keys s)) as [[p|e] k] eqn:Ha; simpl in Hrows.
  - right. exists (KeyStore.PrincipalScope p). eexists. split; [|split; [|reflexivity]]; [|done].
    split; [done|]. exists c, p. by rewrite Ha.
  - left. do 2 eexists. split; [done|]. split; [done|]. destruct e; set_solver.
Qed.


(** ** Which listener serves what *)

Lemma network_not_admin_only ls l :
  l ≠ ListenerAdmin → has ls l = true → (N.ldiff (effective ls) (bit ListenerAdmin) =? 0)%N = false.
Proof.
  unfold has. intros Hl Hh. apply N.eqb_neq. intros H0. apply negb_true_iff, N.eqb_neq in Hh. apply Hh.
  apply N.bits_inj_0. intros n. pose proof (f_equal (λ x, N.testbit x n) H0) as Hn. cbv beta in Hn.
  rewrite N.ldiff_spec, N.bits_0 in Hn. rewrite N.land_spec.
  destruct (N.testbit (effective ls) n); [|done]. rewrite andb_true_l in *. apply negb_false_iff in Hn.
  change (bit ListenerAdmin) with (2 ^ 1)%N in Hn. rewrite N.pow2_bits_eqb in Hn. apply N.eqb_eq in Hn as <-.
  by destruct l.
Qed.

Lemma network_serves cfg table l first rt :
  l ≠ ListenerAdmin → serves cfg table l first rt →
  adminOnlyRoute rt = false ∧ (l = ListenerPublic → first ≠ "internal") ∧ (l = ListenerControl → first ≠ "v1").
Proof.
  intros Hl [_ Hon Hp _ Hpl]. unfold check_placement in Hpl.
  rewrite (network_not_admin_only _ _ Hl Hon) in Hpl.
  destruct (adminOnlyRoute rt); [done|]. split; [done|]. simpl in Hpl.
  split; intros -> ->; rewrite Hon in Hpl; simpl in Hpl.
  - change (HasPrefix (r_path rt) internalPathPrefix = true) in Hp. by rewrite Hp in Hpl.
  - change (HasPrefix (r_path rt) publicPathPrefix = true) in Hp. rewrite Hp in Hpl.
    by apply app_nil in Hpl as [_ ?].
Qed.

(** A path of two segments that no route of the listener is under. *)
Lemma unserved_is_not_found cfg table l mux r first x rest s :
  registerRoutes cfg table l = Some mux → Forall (λ rt, rooted (r_path rt) = true) table →
  rq_path r = first :: x :: rest → (∀ rt, ¬ serves cfg table l first rt) →
  answer (ServeHTTP mux r) s = (notFound, s).
Proof.
  intros Hreg Hroot Hpath Hno.
  assert (∀ y tail e, match_request mux r (first :: y :: tail) = Some e → e = catch_all) as Honly.
  { intros y tail e (Hin & _ & [bs Hm])%match_request_in.
    destruct (accepted_entry _ _ _ _ Hreg Hroot _ _ _ _ _ Hin Hm)
      as [(rt & rule & Hs & _)|[(rt & rule & c & Hs & _)| ->]]; [by apply Hno in Hs..|done]. }
  assert (catch_all ∈ mux) as Hcatch by (by eapply registerRoutes_catch_all).
  assert (∀ y tail, match_request mux r (first :: y :: tail) = Some catch_all) as Hm.
  { intros y tail. destruct (match_request_some mux r (first :: y :: tail) Hcatch) as [e He]; [done|].
    by rewrite He, (Honly _ _ _ He). }
  unfold ServeHTTP. rewrite Hpath. simpl app. rewrite !Hm.
  destruct (negb _ && negb _ && _) eqn:Hredirect; [|reflexivity]. exfalso. bools.
  unfold exact in *. change (ends_with_slash (first :: x :: rest ++ [""])) with
    (bool_decide (last ((first :: x :: rest) ++ [""]) = Some "")) in *.
  rewrite last_snoc in *. by rewrite bool_decide_true in * by done.
Qed.

(** Each listener keeps to its surfaces.  Whatever table a server is built from,
    if registration accepts it, the public listener answers every request under
    /internal/ and the control listener every request under /v1/ as a path that does
    not exist, whatever credentials it carries, and nothing changes. *)
Theorem listeners_keep_apart cfg table l mux r first x rest s :
  registerRoutes cfg table l = Some mux → Forall (λ rt, rooted (r_path rt) = true) table →
  rq_path r = first :: x :: rest →
  (l = ListenerPublic ∧ first = "internal") ∨ (l = ListenerControl ∧ first = "v1") →
  answer (ServeHTTP mux r) s = (notFound, s).
Proof.
  intros Hreg Hroot Hpath Hl. eapply unserved_is_not_found; [done..|].
  intros rt Hs. destruct Hl as [[-> ->]|[-> ->]];
    apply network_serves in Hs as (_ & Hp & Hc); try done; [by apply Hp|by apply Hc].
Qed.

(** ** The server's own table *)

Lemma routeTable_rooted cfg : Forall (λ rt, rooted (r_path rt) = true) (routeTable cfg).
Proof. repeat constructor. Qed.

(** The server starts.  Whatever it is wired with, its own table passes the
    checks and every route has its chain, so that each listener gets its handler;
    only a control listener without a list of hosts is refused. *)
Theorem server_starts cfg l :
  is_Some (ListenerHandler cfg l) ↔ (l = ListenerControl → controlHosts cfg ≠ []).
Proof.
  assert (is_Some_b (ListenerHandler cfg l) =
          negb (bool_decide (l = ListenerControl) && hostallow.Empty (controlHosts cfg))) as Hb.
  { destruct cfg as [? [] [] [] ? ? [] [] ? hosts ? ? ? ? ? ?]; destruct l, hosts; vm_compute; reflexivity. }
  destruct (ListenerHandler cfg l); simpl in Hb.
  - split; [|eauto]. intros _ -> Hh. by rewrite Hh in Hb.
  - split; [by intros [? ?]|]. intros Hc. symmetry in Hb. apply negb_false_iff in Hb. bools.
    destruct Hc; [done|]. by destruct (controlHosts cfg).
Qed.
