(* ===== verification/ConfigTheorems.v ===== *)
(** * An accepted configuration starts every process

    What [Config.Validate], [WorkerConfig.Validate] and [ValidateWorkerTimings]
    promise to the engines the mains wire: the API server gets a handler on every
    listener it opens, the control plane accepts the registration a worker sends, no
    constructor replaces a setting by its own default, and the intervals leave room for
    two failures. *)

From S2P Require Import Prelude.
From S2P Require Import GoText.
From S2P Require Import GoFloat.
From S2P Require Import Schema.
From S2P Require Import Lifecycle.
From S2P Require Import WorkersTypes.
From S2P Require Import Outbox.
From S2P Require Import Publisher.
From S2P Require Import Hosts.
From S2P Require Import Api.
From S2P Require Import Routes.
From S2P Require Import Dashboard.
From S2P Require Import Config.
From S2P Require Import Services.
From S2P Require Import Handlers.
From S2P Require Import Runner.
From S2P Require Import Wiring.
From S2P Require Import GoBytes.
From S2P Require Import JsonObjects.
From S2P Require Import NormalizeTheorems.
From S2P Require Import Boundary.
From S2P Require Import System.
From S2P Require Import Scenario.

Local Open Scope string_scope.

(** ** Trimming *)

Lemma decode_rune_width b s :
  (1 ≤ (decode_rune (String b s)).2 ≤ String.length (String b s))%nat.
Proof. unfold decode_rune. repeat case_match; simpl; lia. Qed.

Lemma take_drop_string n s : take_string n s ++ drop_string n s = s.
Proof. revert s. induction n as [|n IH]; intros [|b s]; try done.
  cbn [take_string drop_string]. rewrite append_cons. by rewrite IH.
Qed.

Lemma length_drop_string n s : String.length (drop_string n s) = (String.length s - n)%nat.
Proof. revert s. induction n as [|n IH]; intros [|b s]; try done. apply IH. Qed.

Lemma segments_concat s : String.concat "" (map snd (segments s)) = s.
Proof.
  unfold segments. enough (∀ fuel s, (String.length s ≤ fuel)%nat →
    String.concat "" (map snd (segments_fuel fuel s)) = s) by auto.
  clear s. intros fuel. induction fuel as [|fuel IH]; intros [|b s] Hl; cbn in Hl; try done; [lia|].
  cbn [segments_fuel]. pose proof (decode_rune_width b s) as Hw.
  destruct (decode_rune (String b s)) as [r n]. cbn [map snd] in *. rewrite concat_empty_cons, IH.
  - apply take_drop_string.
  - rewrite length_drop_string. cbn in *. lia.
Qed.

Lemma drop_while_sublist {A} (p : A → bool) l : drop_while p l `sublist_of` l.
Proof. induction l as [|x l IH]; simpl; [done|]. destruct (p x); [by constructor|done]. Qed.

Lemma rev_sublist {A} (l k : list A) : l `sublist_of` k → rev l `sublist_of` rev k.
Proof. induction 1; simpl; [done| |]; [by apply sublist_app|by apply sublist_inserts_r]. Qed.

Lemma trim_both_sublist {A} (p : A → bool) l : trim_both p l `sublist_of` l.
Proof.
  unfold trim_both. rewrite <-(rev_involutive l) at 2. apply rev_sublist.
  etrans; [apply drop_while_sublist|]. apply rev_sublist, drop_while_sublist.
Qed.

Lemma concat_sublist_length l k :
  l `sublist_of` k → (String.length (String.concat "" l) ≤ String.length (String.concat "" k))%nat.
Proof. induction 1; rewrite ?concat_empty_cons, ?length_append; simpl; lia. Qed.

Lemma TrimSpace_length s : (String.length (TrimSpace s) ≤ String.length s)%nat.
Proof.
  rewrite <-(segments_concat s) at 2. apply concat_sublist_length.
  assert (∀ (l k : list (N * string)), l `sublist_of` k → map snd l `sublist_of` map snd k) as Hm.
  { induction 1; simpl; by constructor. }
  apply Hm, trim_both_sublist.
Qed.

(** A routing name holds no space, so trimming it changes nothing. *)
Definition solid (s : string) : bool := all_chars (λ c, (33 <=? code c)%N && (code c <=? 126)%N) s.

Lemma segments_solid s : solid s = true → Forall (λ x, IsSpace x.1 = false) (segments s).
Proof.
  unfold segments. generalize (String.length s) as fuel. intros fuel. revert s.
  induction fuel as [|fuel IH]; intros [|b s] Hs; try constructor; cbn [segments_fuel].
  unfold solid in Hs. cbn in Hs. bools. unfold decode_rune.
  assert (33 ≤ code b ≤ 126)%N as Hb by (split; by apply N.leb_le).
  assert ((code b <? 128)%N = true) as -> by (apply N.ltb_lt; lia).
  constructor; [|by apply IH]. unfold IsSpace. cbn -[code]. nbool. done.
Qed.

Lemma TrimSpace_solid s : solid s = true → TrimSpace s = s.
Proof.
  intros Hs%segments_solid. rewrite <-(segments_concat s) at 2. unfold TrimSpace. do 2 f_equal.
  assert (∀ l : list (N * string), Forall (λ x, IsSpace x.1 = false) l → drop_while (λ x, IsSpace x.1) l = l) as Hd.
  { intros [|x l]; [done|]. intros Hx%Forall_cons. simpl. by destruct Hx as [-> _]. }
  unfold trim_both. rewrite (Hd _ Hs), Hd, rev_involutive; [done|].
  rewrite rev_alt. by apply Forall_reverse.
Qed.

Lemma match_name_solid n s : match_name n s = true → solid s = true.
Proof.
  assert (∀ c, name_char c = true → (33 <=? code c)%N && (code c <=? 126)%N = true) as Hc.
  { intros c. unfold name_char, name_head. rewrite !orb_true_iff, !between_spec, !N.eqb_eq. intros H. nbool. done. }
  destruct s as [|c s]; [done|]. cbn. intros H. bools. unfold solid. cbn. apply andb_true_iff. split.
  - apply Hc. unfold name_char. match goal with H : name_head c = true |- _ => by rewrite H end.
  - by eapply all_chars_impl; [apply Hc|].
Qed.

Lemma TrimSpace_name n s : match_name n s = true → TrimSpace s = s.
Proof. intros H%match_name_solid. by apply TrimSpace_solid. Qed.

(** ** No problem means every rule holds *)

Lemma if_problem_nil b p : if_problem b p = [] ↔ b = false.
Proof. by destruct b. Qed.

(** Split a list of problems that is empty into the rules it checked. *)
Ltac no_problem :=
  repeat match goal with
  | H : (_ ++ _)%list = [] |- _ => apply app_eq_nil in H as [? ?]
  | H : if_problem _ _ = [] |- _ => apply if_problem_nil in H
  | H : req _ _ = [] |- _ => apply if_problem_nil in H
  | H : loopback_only _ _ = [] |- _ => apply if_problem_nil in H
  | H : ranged _ _ _ _ = [] |- _ => apply if_problem_nil, negb_false_iff, andb_true_iff in H as [?%Z.leb_le ?%Z.leb_le]
  | H : positive_setting _ _ = [] |- _ => apply if_problem_nil, Z.leb_gt in H
  | H : (_ <? _)%Z = false |- _ => apply Z.ltb_ge in H
  | H : (_ <=? _)%Z = false |- _ => apply Z.leb_gt in H
  | H : negb _ = false |- _ => apply negb_false_iff in H
  end.

Lemma wrap64_small z : (0 ≤ z < 2 ^ 63)%Z → wrap64 z = z.
Proof. intros Hz. unfold wrap64. rewrite Z.mod_small; lia. Qed.

(** A control list that is accepted names a host. *)
Lemma parse_steps_names entries names problems :
  let acc := fold_left hostallow.parse_step entries (names, problems) in
  (names ≠ [] → acc.1 ≠ []) ∧ (problems ≠ [] → acc.2 ≠ []).
Proof.
  revert names problems. induction entries as [|x entries IH]; intros names problems; simpl; [done|].
  destruct (hostallow.parse_step (names, problems) x) as [names1 problems1] eqn:Hs.
  destruct (IH names1 problems1) as [H1 H2]. unfold hostallow.parse_step in Hs.
  destruct (hostallow.ParseEntry x) as [name|err]; simplify_eq; split; try done; intros Hn.
  - apply H1. case_bool_decide; [done|]. by destruct names.
  - apply H2. by destruct problems.
Qed.

Lemma Parse_names entries l : hostallow.Parse entries = Ok l → l ≠ [].
Proof.
  destruct entries as [|x entries]; [done|]. unfold hostallow.Parse. cbn [fold_left].
  destruct (hostallow.parse_step ([], []) x) as [names problems] eqn:Hs.
  pose proof (parse_steps_names entries names problems) as [Hn Hp].
  assert (names ≠ [] ∨ problems ≠ []) as [H|H].
  { unfold hostallow.parse_step in Hs. destruct (hostallow.ParseEntry x); simplify_eq; auto. }
  all: destruct (fold_left _ _ _) as [names' [|]]; cbn in *; intros ?; simplify_eq; auto. by destruct Hp.
Qed.

(** ** The settings of a loaded configuration *)

Lemma Load_valid e c : Load e = Ok c → c = loadAWSDefaultChain e (defaults e) ∧ Config_Validate c = [].
Proof. unfold Load. destruct (Config_Validate _) eqn:Hv; intros ?; simplify_eq; done. Qed.

(** A setting read from the environment is its default or not blank. *)
Lemma env_blank e key : TrimSpace (env e key "") = "" → env e key "" = "".
Proof. unfold env. destruct (e !! key) as [v|]; [|done]. by case_bool_decide. Qed.

Lemma aws_keeps_control e c : APIControlAddr (loadAWSDefaultChain e c) = APIControlAddr c.
Proof. unfold loadAWSDefaultChain. by repeat case_match. Qed.

Lemma Load_control_blank e c : Load e = Ok c → TrimSpace (APIControlAddr c) = "" → APIControlAddr c = "".
Proof. intros [-> _]%Load_valid. rewrite aws_keeps_control. apply env_blank. Qed.

Lemma listeners_valid c :
  listenerProblems c = [] → TrimSpace (APIControlAddr c) ≠ "" →
  ∃ hosts, ControlHostAllowlist c = Ok hosts ∧ hosts ≠ [].
Proof.
  unfold listenerProblems, ControlHostAllowlist. intros H Hc. no_problem.
  rewrite (bool_decide_eq_false_2 (TrimSpace (APIControlAddr c) = "")) in * by done. cbn [negb andb] in *.
  destruct (bool_decide (APIControlHosts c = [])); [done|].
  destruct (hostallow.Parse (APIControlHosts c)) as [hosts|] eqn:Hp; [|done]. eauto using Parse_names.
Qed.

(** Two listeners can have their sockets: on one port, as it is written and unless the
    kernel is to choose it, neither has every host and their hosts differ. *)
Definition apart (a b : string) : Prop :=
  ∀ hostA hostB port, SplitHostPort a = Some (hostA, port) → SplitHostPort b = Some (hostB, port) → port ≠ "0" →
    isWildcardHost hostA = false ∧ isWildcardHost hostB = false ∧ canonicalHost hostA ≠ canonicalHost hostB.

Lemma no_overlap_apart a b : addressesOverlap a b = false → apart a b.
Proof.
  unfold addressesOverlap, apart. intros H hostA hostB port Ha Hb Hp.
  destruct (bool_decide (a = "")) eqn:Ea; [apply bool_decide_eq_true_1 in Ea as ->; discriminate Ha|].
  destruct (bool_decide (b = "")) eqn:Eb; [apply bool_decide_eq_true_1 in Eb as ->; discriminate Hb|].
  simpl in H. rewrite Ha, Hb, bool_decide_eq_true_2, bool_decide_eq_false_2 in H by done. simpl in H.
  destruct (isWildcardHost hostA), (isWildcardHost hostB); simpl in H; try done. by apply bool_decide_eq_false in H.
Qed.

Lemma listeners_apart c :
  listenerProblems c = [] →
  ForallOrdPairs apart (map TrimSpace [APIAddr c; APIPublicAddr c; APIControlAddr c]).
Proof.
  unfold listenerProblems. intros H. no_problem. cbn in *. no_problem.
  repeat first [apply FOP_cons|apply FOP_nil|apply List.Forall_cons|apply List.Forall_nil]; by apply no_overlap_apart.
Qed.

Lemma policy_valid c : policyProblems c = [] → RetryPolicy.Validate (Config_RetryPolicy c) = true.
Proof.
  unfold policyProblems, RetryPolicy.Validate, RetryPolicy.problems, Config_RetryPolicy, multiplier, jitter.
  cbn [RetryPolicy.Base RetryPolicy.Max RetryPolicy.Multiplier RetryPolicy.Jitter].
  intros H. no_problem. apply bool_decide_eq_true.
  repeat match goal with
  | H : (if ?b then _ else _) = [] |- _ => destruct b eqn:?; [done|]
  end. no_problem.
  rewrite !(proj2 (Z.leb_gt _ _)), !(proj2 (Z.ltb_ge _ _)) by done.
  repeat match goal with H : ?b = _ |- context [?b] => rewrite H end. done.
Qed.

(** The numeric rules, as inequalities; the products of the source are int64. *)
Record timely (c : Config) : Prop := {
  tm_body : (1024 ≤ cfMaxRequestBytes c)%Z;
  tm_inline : (1 ≤ ResultInlineThresholdBytes c < cfMaxRequestBytes c)%Z;
  tm_lease : (Second ≤ LeaseDuration c ≤ 24 * Hour)%Z;
  tm_reconciler : (0 < ReconcilerPollInterval c ∧ 1 ≤ ReconcilerBatchSize c ≤ 1000)%Z;
  tm_scheduler : (0 < SchedulerPollInterval c ∧ 1 ≤ SchedulerBatchSize c ≤ 1000)%Z;
  tm_outbox : (0 < OutboxPollInterval c ≤ OutboxClaimTimeout c ∧ 1 ≤ OutboxBatchSize c ≤ 1000)%Z;
  tm_renotify : (OutboxClaimTimeout c ≤ SchedulerRenotifyAfter c)%Z;
  tm_heartbeat : (0 < HeartbeatInterval c ∧
    (3 * HeartbeatInterval c < 2 ^ 63 → 3 * HeartbeatInterval c ≤ SessionStaleAfter c))%Z;
  tm_renew : (0 < LeaseRenewInterval c ∧
    (3 * LeaseRenewInterval c < 2 ^ 63 → 3 * LeaseRenewInterval c ≤ LeaseDuration c))%Z;
  tm_stranded : (3 * SchedulerPollInterval c < 2 ^ 63 →
    3 * SchedulerPollInterval c ≤ SchedulerRenotifyAfter c)%Z }.

Lemma accepted_timely c : timingProblems c = [] → policyProblems c = [] → timely c.
Proof.
  unfold timingProblems, policyProblems. intros Ht Hp. no_problem.
  destruct (ResultInlineThresholdBytes c <? 1)%Z eqn:Hr; [done|]. no_problem.
  constructor; repeat split; try lia; intros Hw; rewrite wrap64_small in * by lia; lia.
Qed.

(** ** The API server and the engines *)

Section server.
Context (objects : string → string → option string) (trace : Request → option TraceContext)
  (syntax quoted : string → string) (collate : string → string → bool) (ready : list (string * bool))
  (built placeholder : Assets).

Abbreviation server_of := (api_server objects trace syntax quoted collate ready built placeholder).

Lemma api_server_starts e c :
  Load e = Ok c →
  ∃ cfg, server_of c = Ok cfg ∧ store_cfg cfg = store_config c ∧
    MaxRequestBytes cfg = Z.to_nat (cfMaxRequestBytes c) ∧
    ∀ l addr, (l, addr) ∈ planListeners c → is_Some (ListenerHandler cfg l).
Proof.
  intros Hl. destruct (Load_valid _ _ Hl) as [_ Hv]. unfold Config_Validate in Hv. no_problem.
  unfold api_server. destruct (decide (APIControlAddr c = "")) as [Hc|Hc].
  - rewrite bool_decide_eq_true_2 by done. eexists. split_and!; try done.
    intros l addr Hin. apply server_starts. intros ->. unfold planListeners in Hin. rewrite Hc in Hin.
    destruct (bool_decide (TrimSpace (APIPublicAddr c) = "")); cbn in Hin; set_solver.
  - rewrite bool_decide_eq_false_2 by done.
    destruct (listeners_valid c) as (hosts & Hh & Hne); [done| |].
    { intros Hb. by apply Hc, (Load_control_blank e). }
    rewrite Hh. eexists. split_and!; try done. intros l addr _. by apply server_starts.
Qed.

End server.

(** ** The worker *)

Lemma short_name s : short_routing_name s = true → match_name 63 s = true.
Proof.
  unfold short_routing_name, routing_name. destruct s as [|c s]; [done|]. cbn. intros H. bools.
  repeat match goal with H : _ = true |- _ => rewrite H; clear H end. done.
Qed.

(** A set read from the environment is already canonical. *)
Lemma canonicalSet_envSet e key def :
  forallb short_routing_name (envSet e key def) = true → canonicalSet (envSet e key def) = envSet e key def.
Proof.
  intros Hall. rewrite forallb_forall in Hall.
  assert (map TrimSpace (envSet e key def) = envSet e key def) as Ht.
  { rewrite <-map_id. apply map_ext_in. intros s Hs. by apply (TrimSpace_name 63), short_name, Hall. }
  assert (List.filter (λ v, negb (bool_decide (v = ""))) (envSet e key def) = envSet e key def) as Hf.
  { apply forallb_filter_id, forallb_forall. intros s Hs. apply Hall in Hs. by destruct s. }
  unfold canonicalSet. rewrite Ht, Hf.
  apply (StronglySorted_unique_strong (ordby String.leb)).
  - intros x y _ _ Hxy Hyx. by apply String.leb_antisym.
  - apply StronglySorted_merge_sort; apply _.
  - apply StronglySorted_merge_sort; apply _.
  - unfold sort_Strings at 1. rewrite merge_sort_Permutation.
    apply NoDup_Permutation; [apply NoDup_remove_dups| |intros x; apply elem_of_remove_dups].
    unfold envSet, sort_Strings. rewrite merge_sort_Permutation. apply NoDup_elements.
Qed.

Lemma LoadWorker_valid url_Parse hostname e w :
  LoadWorker url_Parse hostname e = Ok w →
  w = worker_settings hostname e ∧ WorkerConfig_Validate url_Parse w = [].
Proof. unfold LoadWorker. destruct (WorkerConfig_Validate _ _) eqn:Hv; intros ?; simplify_eq; done. Qed.

(** What the control plane makes of a name it accepts. *)
Lemma registration_accepted reg w :
  reg_session_id reg ≠ uuid_Nil → match_name 127 (reg_name reg) = true →
  TrimSpace (reg_hostname reg) ≠ "" → (String.length (reg_hostname reg) ≤ 255)%nat →
  match_name 63 (reg_worker_group reg) = true → (1 ≤ reg_concurrency_limit reg ≤ 256)%Z →
  (length (reg_capabilities reg) ≤ 64)%nat → forallb (match_name 63) (reg_capabilities reg) = true →
  (1 ≤ length (reg_supported_job_types reg) ≤ 64)%nat →
  forallb (match_name 127) (reg_supported_job_types reg) = true →
  NormalizeRegistration reg w =
    (Ok (mkRegistration (reg_session_id reg) (reg_name reg) (TrimSpace (reg_hostname reg))
          (reg_worker_group reg) (reg_concurrency_limit reg) (canonicalSet (reg_capabilities reg))
          (canonicalSet (reg_supported_job_types reg)) (reg_worker_key_id reg)), w).
Proof.
  intros Hs Hn Hh Hl Hg Hc Hcl Hcn Htl Htn.
  assert (∀ n l, forallb (match_name n) l = true → existsb (λ c, negb (match_name n (TrimSpace c))) l = false) as Hex.
  { intros n l. induction l as [|x l IH]; [done|]. cbn. intros H. bools.
    rewrite (TrimSpace_name n x) by done. match goal with H : match_name n x = true |- _ => rewrite H end. auto. }
  pose proof (TrimSpace_length (reg_hostname reg)) as Hlt.
  unfold NormalizeRegistration. rewrite (TrimSpace_name 127 (reg_name reg)), (TrimSpace_name 63 (reg_worker_group reg)) by done.
  unfold registration_fields. cbn [reg_session_id reg_name reg_hostname reg_worker_group reg_concurrency_limit
    reg_capabilities reg_supported_job_types].
  unfold require_uuid. rewrite bool_decide_eq_false_2, Hn, Hg, !Hex by done.
  assert (1 ≤ String.length (TrimSpace (reg_hostname reg)))%nat as Hne.
  { destruct (TrimSpace (reg_hostname reg)); [done|cbn; lia]. }
  rewrite !(proj2 (Nat.ltb_ge _ _)), !(proj2 (Z.ltb_ge _ _)); unfold MaxWorkerConcurrency, MaxCapabilities,
    MaxSupportedJobTypes in *; try lia. done.
Qed.

(** What an accepted worker configuration promises. *)
Record sound_worker (w : WorkerConfig) : Prop := {
  sw_name : match_name 127 (wcName w) = true;
  sw_hostname : TrimSpace (wcHostname w) ≠ "" ∧ (String.length (wcHostname w) ≤ 255)%nat;
  sw_group : match_name 63 (WorkerGroup w) = true;
  sw_queue : match_name 63 (wcQueue w) = true;
  sw_concurrency : (1 ≤ Concurrency w ≤ 256)%Z;
  sw_capabilities : (length (wcCapabilities w) ≤ 64)%nat ∧ forallb (match_name 63) (wcCapabilities w) = true;
  sw_canonical : canonicalSet (wcCapabilities w) = wcCapabilities w;
  sw_timeouts : (0 < RequestTimeout w ∧ 0 < ShutdownTimeout w)%Z }.

Lemma accepted_worker url_Parse hostname e w : LoadWorker url_Parse hostname e = Ok w → sound_worker w.
Proof.
  intros [Hw Hv]%LoadWorker_valid. unfold WorkerConfig_Validate in Hv. no_problem.
  constructor; try (by apply short_name); try done.
  - match goal with H : blank _ || _ = false |- _ => apply orb_false_iff in H as [Hb Hl] end.
    unfold blank in Hb. split; [by apply bool_decide_eq_false in Hb|by apply Nat.ltb_ge].
  - split; [by apply Nat.ltb_ge|]. apply forallb_forall. intros s Hs. apply short_name.
    by eapply forallb_forall in Hs.
  - subst w. by apply canonicalSet_envSet.
Qed.

(** The registry the binary builds. *)
Lemma trusted_types registry :
  registerTrustedHandlers ∅ = Ok registry → Types registry = ["demo.echo"; "demo.fail"; "demo.sleep"].
Proof.
  intros H. apply (f_equal (λ r, match r with Ok r => Types r | Err _ => [] end)) in H. by vm_compute in H.
Qed.

Lemma worker_run_inv url_Parse hostname session dotenv e cfg registry :
  worker_run url_Parse hostname session dotenv e = Ok (cfg, registry) →
  ∃ c w, loaded dotenv e = Ok c ∧ sound_worker w ∧ timely c ∧
    (RequestTimeout w ≤ SessionStaleAfter c ∧ RequestTimeout w ≤ LeaseRenewInterval c)%Z ∧
    cfg = runner_config c w session ∧ Types registry = ["demo.echo"; "demo.fail"; "demo.sleep"].
Proof.
  unfold worker_run, loaded. intros Hrun. destruct (environment dotenv e) as [e'|]; [|done].
  destruct (Load e') as [c|] eqn:Hl; [|done]. destruct (LoadWorker url_Parse hostname e') as [w|] eqn:Hw; [|done].
  destruct (ValidateWorkerTimings c w) eqn:Hv; [|done].
  destruct (registerTrustedHandlers ∅) as [registry'|] eqn:Hreg; [|done]. simplify_eq.
  destruct (Load_valid _ _ Hl) as [_ Hc]. unfold Config_Validate in Hc. unfold ValidateWorkerTimings in Hv.
  no_problem. assert (timely c) as Ht by by apply accepted_timely.
  exists c, w. split_and!; eauto using accepted_worker, trusted_types.
  destruct Ht. destruct (accepted_worker _ _ _ _ Hw) as [_ _ _ _ _ _ _ [? ?]].
  unfold NewRunner, runner_config, at_least. cbn. rewrite !(proj2 (Z.ltb_ge _ _)) by lia. done.
Qed.

(** A worker that starts is admitted.  When a worker process gets through its
    configuration, the control plane accepts the registration it sends as it is, save the
    space around the host name, and the queue it claims from; its runner keeps every
    setting as configured; and a renewal may time out twice and still come before the
    lease ends, as long as three renewal intervals fit an int64. *)
Theorem started_worker_is_admitted url_Parse hostname session dotenv e cfg registry w :
  worker_run url_Parse hostname session dotenv e = Ok (cfg, registry) → session ≠ uuid_Nil →
  (∃ reg, NormalizeRegistration (sent_registration cfg registry) w = (Ok reg, w) ∧
     reg = mkRegistration session (reg_name (rc_registration cfg)) (TrimSpace (reg_hostname (rc_registration cfg)))
       (reg_worker_group (rc_registration cfg)) (reg_concurrency_limit (rc_registration cfg))
       (reg_capabilities (rc_registration cfg)) ["demo.echo"; "demo.fail"; "demo.sleep"] None) ∧
  match_name 63 (rc_queue cfg) = true ∧
  ∃ c wc, loaded dotenv e = Ok c ∧ cfg = runner_config c wc session ∧
    (0 < RequestTimeout wc ≤ SessionStaleAfter c)%Z ∧
    (3 * rc_renew_interval cfg < 2 ^ 63 → 3 * RequestTimeout wc ≤ cfg_lease_duration (store_config c))%Z.
Proof.
  intros (c & wc & Hl & Hw & Ht & [Hq1 Hq2] & -> & Hty)%worker_run_inv Hs. destruct Hw, Ht.
  split_and!; [|done|].
  - eexists. split; [|done]. unfold sent_registration. rewrite Hty, registration_accepted; cbn -[canonicalSet]; try done; try tauto.
    + by rewrite sw_canonical0.
    + lia.
  - exists c, wc. split_and!; [done|done|tauto|done|]. cbn. lia.
Qed.

(** A control listener for workers beside the admin one, and two variables of the file
    the environment overrides. *)
Definition sample_env : Environ :=
  {[ "TASKFORGE_API_CONTROL_ADDR" := "0.0.0.0:9000"; "TASKFORGE_API_CONTROL_HOSTS" := "api, API.internal.";
     "TASKFORGE_WORKER_API_KEY" := "tfw_key"; "TASKFORGE_WORKER_CAPABILITIES" := "gpu, cpu,gpu" ]}.
Definition sample_file : list string :=
  ["# local"; "TASKFORGE_LEASE_DURATION='45s'"; "TASKFORGE_WORKER_CAPABILITIES=none"].

Definition sample_config : Config := match loaded sample_file sample_env with Ok c => c | Err _ => defaults ∅ end.

(** A build that was not made, and the page that stands in for it. *)
Definition sample_built : Assets :=
  mkAssets (λ name, if bool_decide (name = ".gitkeep") then Some true else None)
           (λ name, if bool_decide (name = ".gitkeep") then Some EmptyString else None).
Definition sample_placeholder : Assets :=
  mkAssets (λ name, if bool_decide (name = dashboardIndex) then Some true else None)
           (λ name, if bool_decide (name = dashboardIndex) then Some "not built" else None).


(** A parse of the URL the sample has. *)
Definition sample_world : World := sc_world (fresh sc_queues) 0 100.
Definition sample_url (s : string) : option URL :=
  if bool_decide (s = "http://127.0.0.1:8080") then Some (mkURL "http" "127.0.0.1:8080" "127.0.0.1") else None.
Definition sample_worker : RunnerConfig * Registry :=
  match worker_run sample_url (Some " box1 ") 7%N sample_file sample_env with
  | Ok r => r
  | Err _ => (runner_config sample_config (worker_settings None ∅) 7%N, ∅)
  end.

Lemma result_pair {E A B} (r : result E (A * B)) d :
  match r with Ok _ => true | Err _ => false end = true →
  r = Ok ((match r with Ok x => x | Err _ => d end).1, (match r with Ok x => x | Err _ => d end).2).
Proof. by destruct r as [[]|]. Qed.

Lemma started_worker_is_admitted_witness :
  reg_capabilities (rc_registration sample_worker.1) = ["cpu"; "gpu"] ∧
  ∃ reg, NormalizeRegistration (sent_registration sample_worker.1 sample_worker.2) sample_world = (Ok reg, sample_world) ∧
    reg_hostname reg = "box1".
Proof.
  split; [vm_compute; reflexivity|].
  destruct (started_worker_is_admitted sample_url (Some " box1 ") 7%N sample_file sample_env
    sample_worker.1 sample_worker.2 sample_world) as ((reg & Hn & Hr) & _).
  - apply result_pair. vm_compute. reflexivity.
  - done.
  - exists reg. split; [done|]. rewrite Hr. vm_compute. reflexivity.
Defined.

(** The guard of [timely] is needed: three heartbeats of a million hours overflow, and
    the configuration is accepted with a stale window of fifteen seconds. *)
Example huge_heartbeat_is_accepted :
  match Load {[ "TASKFORGE_HEARTBEAT_INTERVAL" := "1000000h" ]} with
  | Ok c => (SessionStaleAfter c <? HeartbeatInterval c)%Z
  | Err _ => false
  end = true.
Proof. vm_compute. reflexivity. Qed.

(** Every broken rule is reported, and a variable set to nothing is the default. *)
Example problems_are_collected :
  Load {[ "TASKFORGE_API_ADDR" := "0.0.0.0:8080"; "TASKFORGE_API_PUBLIC_ADDR" := "[::]:8080";
          "TASKFORGE_API_CONTROL_HOSTS" := "api"; "TASKFORGE_MAX_REQUEST_BYTES" := "1000";
          "TASKFORGE_LEASE_DURATION" := " "; "TASKFORGE_JOB_RETRY_JITTER" := "many" ]} =
    Err [NotLoopback "TASKFORGE_API_ADDR"; ControlHostsUnused;
         SharedAddress "TASKFORGE_API_ADDR" "TASKFORGE_API_PUBLIC_ADDR";
         OutOfRange "TASKFORGE_MAX_REQUEST_BYTES";
         Relation "TASKFORGE_RESULT_INLINE_THRESHOLD_BYTES" "TASKFORGE_MAX_REQUEST_BYTES";
         NotFinite "TASKFORGE_JOB_RETRY_JITTER"].
Proof. vm_compute. reflexivity. Qed.
