(* ===== verification/Boot.v ===== *)
(** * The mains of the processes

    cmd/taskforge-api, -scheduler, -reconciler, -outbox, -worker and -migrate: what each [run]
    acquires in which order, what it has deferred, when it gives up, and its exit code; with
    [serveAll] of the API's listeners.

    A main runs against an [Outside]: what the environment, the libraries and the services
    answer.  It keeps a trace of what it opened and released; [defer] puts a release
    on a stack that runs at every return. *)

From S2P Require Import Prelude.
From S2P Require Import GoText.
From S2P Require Import Schema.
From S2P Require Import GoTime.
From S2P Require Import Hosts.
From S2P Require Import Api.
From S2P Require Import Config.
From S2P Require Import Adapters.
From S2P Require Import Handlers.
From S2P Require Import Wiring.
From S2P Require Import ConfigTheorems.

Local Open Scope string_scope.

(** ** Outside *)

(** How a loop or a server ended. *)
Inductive loop_end := EndedNil | EndedCanceled | EndedError.

Record Outside := mkOutside {
  ou_dotenv : list string; ou_environ : Environ; ou_hostname : option string;
  ou_url : string → option URL;
  ou_exporter : exporter → bool;
  ou_database : string → bool;                              (* Connect, by its URL *)
  ou_seed : bool;                                           (* crypto/rand *)
  ou_aws : AwsClient → bool; ou_resolve : AwsClient → string → option string;
  ou_create : string → option S3.s3_error;
  ou_bind : string → bool;                                  (* net.Listen, by its address *)
  ou_loop : loop_end;                                       (* the engine's or the runner's Run *)
  ou_serve_failed : option nat;                             (* a server that stopped by itself, before a signal *)
  ou_shutdown : string → bool }.                            (* Shutdown within its grace *)

Inductive resource := SignalContext | TracingProvider | Pool | Listening (addr : string) | ShutdownContext.
#[export] Instance resource_eq : EqDecision resource. Proof. solve_decision. Defined.
Inductive event := Open (r : resource) | Release (r : resource).

Record Boot := mkBoot { bo_trace : list event; bo_deferred : list resource }.
#[export] Instance eta_Boot : Eta Boot := λ b, mkBoot (bo_trace b) (bo_deferred b).

(** A main: [return code] is [throw code]. *)
Abbreviation B := (M Boot Z).

Definition emit (e : event) : B unit := λ b, (Ok tt, b <| bo_trace := (bo_trace b ++ [e])%list |>).
Definition defer (r : resource) : B unit := λ b, (Ok tt, b <| bo_deferred := r :: bo_deferred b |>).
(** A value with a deferred release. *)
Definition hold (r : resource) : B unit := emit (Open r);; defer r.
(** [if err != nil { return 1 }]. *)
Definition must (ok : bool) : B unit := if ok then mret tt else throw 1%Z.

(** The exit code, and the trace with the deferred releases. *)
Definition exit_of (m : B Z) : Z * list event :=
  let '(r, b) := m (mkBoot [] []) in
  (match r with Ok code => code | Err code => code end, (bo_trace b ++ map Release (bo_deferred b))%list).

(** ** What the mains share *)

Definition configured (o : Outside) : B Config :=
  match loaded (ou_dotenv o) (ou_environ o) with Ok c => mret c | Err _ => throw 1%Z end.

Definition start_tracing (o : Outside) (c : Config) (service : string) : B unit :=
  match StartTracing (ou_exporter o) (tracing_of c service) with
  | Ok _ => hold TracingProvider
  | Err _ => throw 1%Z
  end.

(** [Connect]; a pool that does not answer a ping is closed before the error. *)
Definition connect (o : Outside) (c : Config) : B unit := must (ou_database o (DatabaseURL c));; hold Pool.

Definition broker (o : Outside) (c : Config) : B unit :=
  match Sqs.New (ou_aws o) (ou_resolve o) (Sqs.OptionsFromConfig c) with Ok _ => mret tt | Err _ => throw 1%Z end.
Definition object_store (o : Outside) (c : Config) : B unit :=
  match S3.New (ou_aws o) (S3.OptionsFromConfig c) with Some _ => mret tt | None => throw 1%Z end.

Definition run_code (e : loop_end) : Z := match e with EndedError => 1 | EndedNil | EndedCanceled => 0 end.

(** The last part of an engine: a health server whose failure is only logged, the loop, and the
    shutdown of the server. *)
Definition engine_loop (o : Outside) (addr : string) : B Z :=
  (if ou_bind o addr then emit (Open (Listening addr)) else mret tt);;
  hold ShutdownContext;;
  (if ou_bind o addr then emit (Release (Listening addr)) else mret tt);;
  mret (run_code (ou_loop o)).

(** ** The engines *)

Definition scheduler_main (o : Outside) : B Z :=
  c ← configured o;
  hold SignalContext;;
  start_tracing o c "taskforge-scheduler";;
  connect o c;;
  engine_loop o (SchedulerAddr c).

Definition reconciler_main (o : Outside) : B Z :=
  c ← configured o;
  hold SignalContext;;
  start_tracing o c "taskforge-reconciler";;
  connect o c;;
  must (ou_seed o);;
  engine_loop o (ReconcilerAddr c).

Definition outbox_main (o : Outside) : B Z :=
  c ← configured o;
  hold SignalContext;;
  start_tracing o c "taskforge-outbox";;
  connect o c;;
  broker o c;;
  engine_loop o (OutboxAddr c).

(** ** The worker *)

(** Its health server is bound before the runner starts, and its failure ends the process. *)
Definition worker_main (o : Outside) : B Z :=
  match environment (ou_dotenv o) (ou_environ o) with
  | Err _ => throw 1%Z
  | Ok e =>
    match Load e, LoadWorker (ou_url o) (ou_hostname o) e with
    | Ok c, Ok w =>
      must (match ValidateWorkerTimings c w with [] => true | _ => false end);;
      hold SignalContext;;
      start_tracing o c "taskforge-worker";;
      broker o c;;
      object_store o c;;
      must (match S3.EnsureBucket (ou_create o) (ResultsBucket c) with None => true | Some _ => false end);;
      must (match registerTrustedHandlers ∅ with Ok _ => true | Err _ => false end);;
      must (ou_bind o (HealthAddr w));;
      emit (Open (Listening (HealthAddr w)));;
      hold ShutdownContext;;
      emit (Release (Listening (HealthAddr w)));;
      must (ou_shutdown o (HealthAddr w));;
      must (match ou_serve_failed o with Some _ => false | None => true end);;
      mret (run_code (ou_loop o))
    | _, _ => throw 1%Z
    end
  end.

(** ** The API *)

(** [serveAll]: every address is bound before any is served; one that cannot be bound closes the ones
    that were. *)
Fixpoint bind_all (o : Outside) (opened addrs : list string) : B unit :=
  match addrs with
  | [] => mret tt
  | addr :: addrs' =>
    if ou_bind o addr then emit (Open (Listening addr));; bind_all o (opened ++ [addr])%list addrs'
    else (fix close (l : list string) : B unit :=
            match l with [] => throw 1%Z | a :: l' => emit (Release (Listening a));; close l' end) opened
  end.
Fixpoint shutdown_all (addrs : list string) : B unit :=
  match addrs with [] => mret tt | addr :: addrs' => emit (Release (Listening addr));; shutdown_all addrs' end.

Definition serveAll (o : Outside) (addrs : list string) : B Z :=
  bind_all o [] addrs;;
  hold ShutdownContext;;
  shutdown_all addrs;;
  mret (match ou_serve_failed o with
        | Some _ => 1
        | None => if forallb (ou_shutdown o) addrs then 0 else 1
        end)%Z.

Definition api_main (o : Outside) : B Z :=
  c ← configured o;
  hold SignalContext;;
  start_tracing o c "taskforge-api";;
  connect o c;;
  must (ou_seed o);;
  object_store o c;;
  must (bool_decide (APIControlAddr c = "") || match ControlHostAllowlist c with Ok _ => true | Err _ => false end);;
  serveAll o (map snd (planListeners c)).

(** ** taskforge-migrate *)

(** A .env that cannot be read is a panic; [os.Exit] in a failing main runs no deferred call. *)
Definition migrate_main (o : Outside) (migrated : string → bool) : Z * list event :=
  match environment (ou_dotenv o) (ou_environ o) with
  | Err _ => (2%Z, [])
  | Ok e =>
    match Load e with
    | Err _ => (1%Z, [])
    | Ok c => if migrated (DatabaseURL c) then (0%Z, [Open SignalContext; Release SignalContext])
              else (1%Z, [Open SignalContext])
    end
  end.

(** ** How a process starts and ends

    For every main of [Boot] and whatever the outside answers: on every return what was opened
    has been released, and exit code 0 means that everything the process needs was there
    and that its loop ended without an error. *)

Local Open Scope string_scope.

(** ** Traces *)

Definition opens (t : list event) : list resource :=
  omap (λ e, match e with Open r => Some r | Release _ => None end) t.
Definition releases (t : list event) : list resource :=
  omap (λ e, match e with Release r => Some r | Open _ => None end) t.

Lemma opens_app t t' : opens (t ++ t')%list = (opens t ++ opens t')%list.
Proof. apply omap_app. Qed.
Lemma releases_app t t' : releases (t ++ t')%list = (releases t ++ releases t')%list.
Proof. apply omap_app. Qed.
Lemma releases_map l : releases (map Release l) = l ∧ opens (map Release l) = [].
Proof. induction l as [|r l [IH1 IH2]]; [done|]. cbn. by rewrite <-IH1 at 2. Qed.
Lemma opens_map l : opens (map Open l) = l ∧ releases (map Open l) = [].
Proof. induction l as [|r l [IH1 IH2]]; [done|]. cbn. by rewrite <-IH1 at 2. Qed.

(** A part of a main that leaves open only what it deferred. *)
Definition tidy {A} (m : B A) : Prop := ∀ b, ∃ t ds,
  bo_trace (m b).2 = (bo_trace b ++ t)%list ∧ bo_deferred (m b).2 = (ds ++ bo_deferred b)%list ∧
  opens t ≡ₚ (releases t ++ ds)%list.

Lemma tidy_stays {A} (m : B A) : (∀ b, (m b).2 = b) → tidy m.
Proof. intros Hm b. exists [], []. rewrite Hm, app_nil_r. done. Qed.
Lemma tidy_ret {A} (a : A) : tidy (mret a).
Proof. by apply tidy_stays. Qed.
Lemma tidy_throw {A} code : tidy (throw code : B A).
Proof. by apply tidy_stays. Qed.
Lemma tidy_must ok : tidy (must ok).
Proof. unfold must. destruct ok; [apply tidy_ret|apply tidy_throw]. Qed.
Lemma tidy_hold r : tidy (hold r).
Proof. intros b. exists [Open r], [r]. done. Qed.

Lemma tidy_bind {A C} (m : B A) (f : A → B C) : tidy m → (∀ a, tidy (f a)) → tidy (m ≫= f).
Proof.
  intros Hm Hf b. destruct (Hm b) as (t1 & ds1 & Ht1 & Hd1 & Hp1). unfold mbind, M_bind.
  destruct (m b) as [[a|e] b1]; simpl in *; [|by exists t1, ds1].
  destruct (Hf a b1) as (t2 & ds2 & Ht2 & Hd2 & Hp2). exists (t1 ++ t2)%list, (ds2 ++ ds1)%list.
  rewrite Ht2, Ht1, Hd2, Hd1, !app_assoc, opens_app, releases_app. split_and!; [done..|].
  rewrite Hp1, Hp2. solve_Permutation.
Qed.

Lemma exit_released (m : B Z) : tidy m → opens (exit_of m).2 ≡ₚ releases (exit_of m).2.
Proof.
  intros Hm. destruct (Hm (mkBoot [] [])) as (t & ds & Ht & Hd & Hp). unfold exit_of.
  destruct (m _) as [r b]. simpl in *. rewrite app_nil_r in Hd. rewrite Ht, Hd.
  destruct (releases_map ds) as [H1 H2]. by rewrite opens_app, releases_app, H1, H2, app_nil_r.
Qed.

Create HintDb boot.
#[local] Hint Resolve tidy_ret tidy_throw tidy_must tidy_hold : boot.
Ltac tidies := repeat first [ solve [auto with boot] | apply tidy_bind; [|intros ?] | case_match ].

(** ** The mains leave nothing open *)

Lemma tidy_engine o addr : tidy (engine_loop o addr).
Proof.
  intros b. unfold engine_loop. destruct (ou_bind o addr).
  - exists [Open (Listening addr); Open ShutdownContext; Release (Listening addr)], [ShutdownContext].
    split_and!; [simpl; by rewrite <-!app_assoc|done|]. simpl. done.
  - exists [Open ShutdownContext], [ShutdownContext]. done.
Qed.

Fixpoint close_all (l : list string) : B unit :=
  match l with [] => throw 1%Z | a :: l' => emit (Release (Listening a));; close_all l' end.

Lemma close_all_run l b :
  close_all l b = (Err 1%Z, b <| bo_trace := (bo_trace b ++ map Release (map Listening l))%list |>).
Proof.
  revert b. induction l as [|a l IH]; intros b; simpl.
  - rewrite app_nil_r. by destruct b.
  - unfold emit, mbind, M_bind. rewrite IH. simpl. by rewrite <-app_assoc.
Qed.
Lemma shutdown_all_run l b :
  shutdown_all l b = (Ok tt, b <| bo_trace := (bo_trace b ++ map Release (map Listening l))%list |>).
Proof.
  revert b. induction l as [|a l IH]; intros b; simpl.
  - rewrite app_nil_r. by destruct b.
  - unfold emit, mbind, M_bind. rewrite IH. simpl. by rewrite <-app_assoc.
Qed.

Fixpoint take_while {A} (p : A → bool) (l : list A) : list A :=
  match l with x :: l' => if p x then x :: take_while p l' else [] | [] => [] end.

(** All bound, or those that were are closed. *)
Lemma bind_all_run o opened addrs b :
  bind_all o opened addrs b =
    if forallb (ou_bind o) addrs
    then (Ok tt, b <| bo_trace := (bo_trace b ++ map Open (map Listening addrs))%list |>)
    else let bound := take_while (ou_bind o) addrs in
         (Err 1%Z, b <| bo_trace := (bo_trace b ++ map Open (map Listening bound) ++
                                     map Release (map Listening (opened ++ bound)))%list |>).
Proof.
  revert opened b. induction addrs as [|a addrs IH]; intros opened b; simpl.
  - rewrite app_nil_r. by destruct b.
  - destruct (ou_bind o a); simpl.
    + unfold emit, mbind, M_bind. rewrite IH. simpl. destruct (forallb (ou_bind o) addrs); simpl.
      * by rewrite <-app_assoc.
      * by rewrite <-!app_assoc.
    + change ((fix close (l : list string) : B unit :=
        match l with [] => throw 1%Z | x :: l' => emit (Release (Listening x));; close l' end) opened b)
        with (close_all opened b).
      rewrite close_all_run, app_nil_r. done.
Qed.

Lemma tidy_serveAll o addrs : tidy (serveAll o addrs).
Proof.
  intros b. unfold serveAll, mbind, M_bind. rewrite bind_all_run. destruct (forallb (ou_bind o) addrs).
  - simpl. rewrite shutdown_all_run. simpl.
    exists (map Open (map Listening addrs) ++ Open ShutdownContext :: map Release (map Listening addrs))%list, [ShutdownContext].
    split_and!; [by rewrite <-!app_assoc|done|].
    change (Open ShutdownContext :: map Release (map Listening addrs))%list
      with ([Open ShutdownContext] ++ map Release (map Listening addrs))%list.
    rewrite !opens_app, !releases_app.
    destruct (opens_map (map Listening addrs)) as [-> ->], (releases_map (map Listening addrs)) as [-> ->].
    simpl. by rewrite ?app_nil_r.
  - simpl. set (bound := take_while (ou_bind o) addrs).
    exists (map Open (map Listening bound) ++ map Release (map Listening bound))%list, []. split_and!; [done..|].
    rewrite !opens_app, !releases_app, app_nil_r.
    destruct (opens_map (map Listening bound)) as [-> ->], (releases_map (map Listening bound)) as [-> ->].
    simpl. by rewrite ?app_nil_r.
Qed.

#[local] Hint Resolve tidy_engine tidy_serveAll : boot.

Inductive process := TaskforgeAPI | TaskforgeScheduler | TaskforgeReconciler | TaskforgeOutbox | TaskforgeWorker.
#[export] Instance process_eq : EqDecision process. Proof. solve_decision. Defined.
Definition main_of (p : process) : Outside → B Z :=
  match p with
  | TaskforgeAPI => api_main | TaskforgeScheduler => scheduler_main | TaskforgeReconciler => reconciler_main
  | TaskforgeOutbox => outbox_main | TaskforgeWorker => worker_main
  end.

Lemma tidy_listening {A} addr (k : B A) :
  tidy k → tidy (emit (Open (Listening addr));; hold ShutdownContext;; emit (Release (Listening addr));; k).
Proof.
  intros Hk b.
  destruct (Hk (mkBoot (bo_trace b ++ [Open (Listening addr); Open ShutdownContext; Release (Listening addr)])%list
                       (ShutdownContext :: bo_deferred b))) as (t & ds & Ht & Hd & Hp).
  exists ([Open (Listening addr); Open ShutdownContext; Release (Listening addr)] ++ t)%list, (ds ++ [ShutdownContext])%list.
  unfold hold, emit, defer, mbind, M_bind. simpl in *. rewrite <-!app_assoc. simpl.
  rewrite Ht, Hd, <-!app_assoc. split_and!; [done..|]. simpl. rewrite Hp. solve_Permutation.
Qed.

Lemma main_tidy p o : tidy (main_of p o).
Proof.
  destruct p; cbn [main_of];
    unfold api_main, scheduler_main, reconciler_main, outbox_main, worker_main, configured, start_tracing, connect,
      broker, object_store.
  1-4: tidies.
  repeat first [ solve [auto with boot] | apply tidy_listening | apply tidy_bind; [|intros ?] | case_match ].
Qed.

(** ** Exit codes *)

(** A part that returns early returns 1. *)
Definition fails_with_one {A} (m : B A) : Prop := ∀ b code, (m b).1 = Err code → code = 1%Z.
Definition code_in_bit (m : B Z) : Prop :=
  fails_with_one m ∧ ∀ b code, (m b).1 = Ok code → code = 0%Z ∨ code = 1%Z.

Lemma one_must ok : fails_with_one (must ok).
Proof. intros b code. unfold must. destruct ok; simpl; congruence. Qed.
Lemma one_ok {A} (m : B A) : (∀ b, ∃ a, (m b).1 = Ok a) → fails_with_one m.
Proof. intros Hm b code Hc. destruct (Hm b) as [a Ha]. congruence. Qed.
Lemma one_throw {A} : fails_with_one (throw 1%Z : B A).
Proof. intros b code. simpl. congruence. Qed.
Lemma bit_bind {A} (m : B A) (f : A → B Z) : fails_with_one m → (∀ a, code_in_bit (f a)) → code_in_bit (m ≫= f).
Proof.
  intros Hm Hf. unfold mbind, M_bind.
  split; intros b code Hc; specialize (Hm b); destruct (m b) as [[a|e] b1]; simpl in *;
    first [by eapply (proj1 (Hf a))|by eapply (proj2 (Hf a))|simplify_eq; by auto].
Qed.
Lemma one_bind {A C} (m : B A) (f : A → B C) : fails_with_one m → (∀ a, fails_with_one (f a)) → fails_with_one (m ≫= f).
Proof.
  intros Hm Hf b code Hc. unfold mbind, M_bind in Hc. specialize (Hm b).
  destruct (m b) as [[a|e] b1]; simpl in *; [by eapply Hf|simplify_eq; by auto].
Qed.
Lemma bit_ret code : code = 0%Z ∨ code = 1%Z → code_in_bit (mret code).
Proof. intros Hc. split; intros b code' H'; simpl in *; congruence. Qed.
Lemma bit_throw : code_in_bit (throw 1%Z).
Proof. split; intros b code H'; simpl in *; congruence. Qed.
Lemma bit_run e : run_code e = 0%Z ∨ run_code e = 1%Z.
Proof. destruct e; auto. Qed.
Lemma one_ret {A} (a : A) : fails_with_one (mret a).
Proof. apply one_ok. eauto. Qed.
Lemma one_hold r : fails_with_one (hold r).
Proof. apply one_ok. intros b. eexists. reflexivity. Qed.
Lemma one_emit e : fails_with_one (emit e).
Proof. apply one_ok. intros b. eexists. reflexivity. Qed.
#[local] Hint Resolve one_must one_throw one_ret one_hold one_emit bit_throw : boot.

Lemma bit_engine o addr : code_in_bit (engine_loop o addr).
Proof.
  unfold engine_loop. repeat (apply bit_bind; [destruct (ou_bind o addr); auto with boot|intros _]).
  apply bit_ret, bit_run.
Qed.
Lemma bit_serveAll o addrs : code_in_bit (serveAll o addrs).
Proof.
  unfold serveAll. apply bit_bind; [|intros _; apply bit_bind; [auto with boot|intros _; apply bit_bind; [|intros _]]].
  - intros b code. rewrite bind_all_run. destruct (forallb _ addrs); simpl; congruence.
  - apply one_ok. intros b. rewrite shutdown_all_run. by eexists.
  - apply bit_ret. repeat case_match; auto.
Qed.

Lemma exit_code_bit p o : (exit_of (main_of p o)).1 = 0%Z ∨ (exit_of (main_of p o)).1 = 1%Z.
Proof.
  assert (code_in_bit (main_of p o)) as [H1 H2].
  { destruct p; cbn [main_of];
      unfold api_main, scheduler_main, reconciler_main, outbox_main, worker_main, configured, start_tracing, connect,
        broker, object_store;
      repeat first [ solve [auto with boot] | apply bit_engine | apply bit_serveAll | (apply bit_ret; apply bit_run)
                   | (apply bit_bind; [|intros ?]) | (apply one_bind; [|intros ?]) | case_match ]. }
  unfold exit_of. specialize (H1 (mkBoot [] [])). specialize (H2 (mkBoot [] [])).
  destruct (main_of p o (mkBoot [] [])) as [[code|code] b]; simpl in *; [auto|]. right. by apply H1.
Qed.

(** ** What is left to the outside once the configuration is accepted *)

Definition exporter_of (c : Config) : option exporter :=
  if bool_decide (OTelExporter c = ExporterNone) then None
  else if bool_decide (OTelExporter c = ExporterStdout) then Some StdoutExporter
  else Some (OtlpExporter (OTelEndpoint c)).
Definition tracing_ok (o : Outside) (c : Config) : bool := from_option (ou_exporter o) true (exporter_of c).
Definition broker_ok (o : Outside) (c : Config) : bool :=
  let client := Sqs.newClient (Sqs.OptionsFromConfig c) in
  ou_aws o client && is_Some_b (ou_resolve o client (BrokerQueueName c)).
Definition objects_ok (o : Outside) (c : Config) : bool :=
  ou_aws o (aws_client (ResultsRegion c) (ResultsAccessKeyID c) (ResultsSecretAccessKey c) (ResultsEndpoint c)).
Definition bucket_ok (o : Outside) (c : Config) : bool :=
  match ou_create o (ResultsBucket c) with
  | None | Some S3.BucketAlreadyOwnedByYou | Some S3.BucketAlreadyExists => true
  | _ => false
  end.
Definition loop_ok (o : Outside) : bool := match ou_loop o with EndedError => false | _ => true end.
Definition served_ok (o : Outside) : bool := match ou_serve_failed o with None => true | Some _ => false end.

(** The worker's settings, beside the shared ones. *)
Definition worker_settings_of (o : Outside) (c : Config) (w : WorkerConfig) : Prop :=
  ∃ e, environment (ou_dotenv o) (ou_environ o) = Ok e ∧ Load e = Ok c ∧
       LoadWorker (ou_url o) (ou_hostname o) e = Ok w ∧ ValidateWorkerTimings c w = [].

(** What the code of a process depends on, once its configuration is accepted; the health listener
    of an engine is not among it. *)
Definition outside_ok (p : process) (o : Outside) (c : Config) (w : WorkerConfig) : bool :=
  tracing_ok o c &&
  match p with
  | TaskforgeScheduler => ou_database o (DatabaseURL c) && loop_ok o
  | TaskforgeReconciler => ou_database o (DatabaseURL c) && ou_seed o && loop_ok o
  | TaskforgeOutbox => ou_database o (DatabaseURL c) && broker_ok o c && loop_ok o
  | TaskforgeWorker =>
    broker_ok o c && objects_ok o c && bucket_ok o c && ou_bind o (HealthAddr w) && ou_shutdown o (HealthAddr w) &&
    served_ok o && loop_ok o
  | TaskforgeAPI =>
    let addrs := map snd (planListeners c) in
    ou_database o (DatabaseURL c) && ou_seed o && objects_ok o c && forallb (ou_bind o) addrs && served_ok o &&
    forallb (ou_shutdown o) addrs
  end.

(** An accepted exporter is one [StartTracing] knows. *)
Lemma start_tracing_accepted o c service :
  Config_Validate c = [] →
  start_tracing o c service = if tracing_ok o c then hold TracingProvider else throw 1%Z.
Proof.
  intros Hv. unfold Config_Validate in Hv. no_problem.
  unfold start_tracing, StartTracing, newSpanExporter, tracing_ok, exporter_of, tracing_of, otelProblems in *. simpl.
  destruct (decide (OTelExporter c = ExporterNone)) as [Hn|Hn].
  { rewrite (bool_decide_eq_true_2 _ Hn), orb_true_r. done. }
  rewrite (bool_decide_eq_false_2 (OTelExporter c = ExporterNone)) in * by done. simpl in *.
  destruct (decide (OTelExporter c = ExporterStdout)) as [Hs|Hs].
  { rewrite Hs. simpl. by destruct (ou_exporter o StdoutExporter). }
  rewrite (bool_decide_eq_false_2 (OTelExporter c = ExporterStdout)) in * by done. simpl in *.
  destruct (decide (OTelExporter c = ExporterOTLP)) as [Hp|Hp].
  - rewrite Hp in *. simpl in *. no_problem. unfold blank in *.
    rewrite (bool_decide_eq_false_2 (TrimSpace (OTelEndpoint c) = "")) by (by eapply bool_decide_eq_false_1).
    by destruct (ou_exporter o _).
  - rewrite (bool_decide_eq_false_2 (OTelExporter c = ExporterOTLP)) in * by done. done.
Qed.

Lemma broker_accepted o c :
  Config_Validate c = [] → broker o c = if broker_ok o c then mret tt else throw 1%Z.
Proof.
  intros Hv. unfold Config_Validate in Hv. no_problem.
  assert (BrokerQueueName c ≠ "") as Hq.
  { intros Hq. unfold blank in *. rewrite Hq in *. done. }
  unfold broker, broker_ok, Sqs.New. simpl. rewrite (bool_decide_eq_false_2 _ Hq).
  destruct (ou_aws o _); simpl; [|done]. by destruct (ou_resolve o _ _).
Qed.

Lemma objects_accepted o c : object_store o c = if objects_ok o c then mret tt else throw 1%Z.
Proof. unfold object_store, S3.New, objects_ok. simpl. by destruct (ou_aws o _). Qed.

Lemma bucket_accepted o c :
  match S3.EnsureBucket (ou_create o) (ResultsBucket c) with None => true | Some _ => false end = bucket_ok o c.
Proof. unfold S3.EnsureBucket, bucket_ok. by destruct (ou_create o _) as [[]|]. Qed.

Lemma engine_code o addr b : (engine_loop o addr b).1 = Ok (if loop_ok o then 0%Z else 1%Z).
Proof. unfold engine_loop, loop_ok. destruct (ou_bind o addr), (ou_loop o); reflexivity. Qed.
Lemma serveAll_code o addrs b :
  (serveAll o addrs b).1 =
  if forallb (ou_bind o) addrs then Ok (if served_ok o && forallb (ou_shutdown o) addrs then 0 else 1)%Z else Err 1%Z.
Proof.
  unfold serveAll, mbind, M_bind, served_ok. rewrite bind_all_run. destruct (forallb (ou_bind o) addrs); [|done].
  simpl. rewrite shutdown_all_run. simpl. by destruct (ou_serve_failed o), (forallb (ou_shutdown o) addrs).
Qed.

Lemma accepted_worker_code o c w :
  worker_settings_of o c w → (exit_of (worker_main o)).1 = if outside_ok TaskforgeWorker o c w then 0%Z else 1%Z.
Proof.
  intros (e & He & Hl & Hw & Ht). destruct (Load_valid _ _ Hl) as [_ Hv].
  unfold exit_of, worker_main, outside_ok. rewrite He, Hl, Hw, Ht, start_tracing_accepted, broker_accepted by done.
  rewrite objects_accepted, bucket_accepted.
  assert (is_Some_b (match registerTrustedHandlers ∅ with Ok _ => Some tt | Err _ => None end) = true) as Hreg
    by (vm_compute; reflexivity).
  destruct (registerTrustedHandlers ∅) as [reg|]; [|done]. unfold loop_ok, served_ok.
  destruct (tracing_ok o c), (broker_ok o c), (objects_ok o c), (bucket_ok o c), (ou_bind o (HealthAddr w)),
    (ou_shutdown o (HealthAddr w)), (ou_serve_failed o), (ou_loop o); reflexivity.
Qed.

Lemma hosts_accepted e c :
  Load e = Ok c →
  bool_decide (APIControlAddr c = "") || match ControlHostAllowlist c with Ok _ => true | Err _ => false end = true.
Proof.
  intros Hl. pose (no := mkAssets (λ _, None) (λ _, None)).
  destruct (api_server_starts (λ _ _, None) (λ _, None) (λ s, s) (λ s, s) String.leb [] no no e c Hl) as (cfg & Hs & _).
  unfold api_server in Hs. destruct (bool_decide (APIControlAddr c = "")); [done|].
  by destruct (ControlHostAllowlist c).
Qed.

Lemma loaded_accepted dotenv e c : loaded dotenv e = Ok c → ∃ e', Load e' = Ok c ∧ Config_Validate c = [].
Proof.
  unfold loaded. destruct (environment dotenv e) as [e'|]; [|done]. destruct (Load e') eqn:Hl; [|done].
  intros [= <-]. exists e'. split; [done|]. by apply Load_valid in Hl as [_ ?].
Qed.

Lemma bind_ret {A} (a : A) (f : A → B Z) b : (mret a ≫= f) b = f a b.
Proof. done. Qed.

#[local] Arguments serveAll : simpl never.
#[local] Arguments engine_loop : simpl never.

Ltac last_part f f_code :=
  unfold hold, must, emit, defer, mbind, M_bind, mret, M_ret; simpl;
  match goal with |- context [f ?o ?a ?b] =>
    let Hs := fresh in
    pose proof (f_code o a b) as Hs; destruct (f o a b) as [r' b']; simpl in Hs |- *; subst r'
  end.

Lemma accepted_code p o c w :
  loaded (ou_dotenv o) (ou_environ o) = Ok c → p ≠ TaskforgeWorker →
  (exit_of (main_of p o)).1 = if outside_ok p o c w then 0%Z else 1%Z.
Proof.
  intros Hload Hp. destruct (loaded_accepted _ _ _ Hload) as (e' & Hl & Hv).
  unfold exit_of, outside_ok. destruct p; [| | | |done]; cbn [main_of];
    unfold api_main, scheduler_main, reconciler_main, outbox_main, configured, connect; rewrite Hload, bind_ret;
    rewrite start_tracing_accepted by done; rewrite ?broker_accepted by done; rewrite ?objects_accepted.
  - rewrite (hosts_accepted _ _ Hl). cbv zeta. generalize (map snd (planListeners c)). intros addrs.
    destruct (tracing_ok o c), (ou_database o (DatabaseURL c)), (ou_seed o), (objects_ok o c); try reflexivity.
    last_part serveAll serveAll_code. by destruct (forallb (ou_bind o) _), (served_ok o), (forallb (ou_shutdown o) _).
  - destruct (tracing_ok o c), (ou_database o (DatabaseURL c)); try reflexivity.
    last_part engine_loop engine_code. by destruct (loop_ok o).
  - destruct (tracing_ok o c), (ou_database o (DatabaseURL c)), (ou_seed o); try reflexivity.
    last_part engine_loop engine_code. by destruct (loop_ok o).
  - destruct (tracing_ok o c), (ou_database o (DatabaseURL c)), (broker_ok o c); try reflexivity.
    last_part engine_loop engine_code. by destruct (loop_ok o).
Qed.


(** The sample configuration, with a scheduler whose database answers and one whose does not. *)
Definition sample_outside (db_up : bool) : Outside :=
  mkOutside sample_file sample_env (Some "box1") sample_url (λ _, true) (λ _, db_up) true (λ _, true)
    (λ _ name, Some name) (λ _, Some S3.BucketAlreadyOwnedByYou) (λ _, true) EndedCanceled None (λ _, true).


