(* ===== verification/Contract.v ===== *)
(** * The published contract

    api/openapi.yaml says, of every operation, which statuses it answers and with
    which schema.  The handlers of the route table, with the wrappers registration
    puts around them, are checked against it. *)

From S2P Require Import Prelude.
From S2P Require Import GoText.
From S2P Require Import GoDecoder.
From S2P Require Import Schema.
From S2P Require Import WorkersTypes.
From S2P Require Import WorkersStore.
From S2P Require Import Keys.
From S2P Require Import Hosts.
From S2P Require Import Api.
From S2P Require Import Access.
From S2P Require Import ControlHandlers.
From S2P Require Import PublicHandlers.
From S2P Require Import Routes.
From S2P Require Import Boundary.

Local Open Scope string_scope.

(** ** The document *)

(** The schemas of the responses; [SchemaAny] is a body of any JSON, [SchemaNone]
    no body. *)
Inductive schema :=
| SchemaJob | SchemaJobPage | SchemaAttemptList | SchemaAny | SchemaCancellation | SchemaReplay
| SchemaDLQPage | SchemaWorkerPage | SchemaQueueList | SchemaKeyCreated | SchemaKeyList | SchemaKeyRevoked
| SchemaWorkerSession | SchemaHeartbeat | SchemaRenewal | SchemaClaimResponse | SchemaAttemptStart
| SchemaOutcome | SchemaLiveness | SchemaReadiness | SchemaError | SchemaNone.

#[export] Instance schema_eq : EqDecision schema.
Proof. solve_decision. Defined.

Record operation := mkOperation { op_method : string; op_path : string; op_responses : list (Z * schema) }.

(** Error responses of these statuses. *)
Definition errors (l : list Z) : list (Z * schema) := map (λ st, (st, SchemaError)) l.
Definition op (method path : string) (ok : list (Z * schema)) (failures : list Z) : operation :=
  mkOperation method path (ok ++ errors failures)%list.

(** The paths of the document, in its order. *)
Definition contract : list operation :=
  [ op "POST" "/v1/jobs" [(201, SchemaJob); (200, SchemaJob)] [400; 409; 413; 422; 500; 401; 503];
    op "GET" "/v1/jobs" [(200, SchemaJobPage)] [422; 500; 401; 503];
    op "GET" "/v1/jobs/{job_id}" [(200, SchemaJob)] [404; 401; 503];
    op "GET" "/v1/jobs/{job_id}/attempts" [(200, SchemaAttemptList)] [404; 500; 401; 503];
    op "GET" "/v1/jobs/{job_id}/result" [(200, SchemaAny)] [404; 401; 500; 503];
    op "POST" "/v1/jobs/{job_id}/cancel" [(200, SchemaCancellation)] [404; 409; 503; 500; 401];
    op "POST" "/v1/jobs/{job_id}/retry" [(201, SchemaReplay); (200, SchemaReplay)] [404; 409; 422; 503; 500; 401];
    op "GET" "/v1/dlq" [(200, SchemaDLQPage)] [422; 500; 401; 503];
    op "POST" "/v1/dlq/{job_id}/replay" [(201, SchemaReplay); (200, SchemaReplay)] [404; 409; 422; 503; 500; 401];
    op "GET" "/v1/workers" [(200, SchemaWorkerPage)] [422; 500; 401; 503];
    op "GET" "/v1/queues" [(200, SchemaQueueList)] [500; 401; 503];
    op "POST" "/internal/v1/api-keys" [(201, SchemaKeyCreated)] [403; 400; 413; 422; 503; 500];
    op "GET" "/internal/v1/api-keys" [(200, SchemaKeyList)] [403; 422; 503; 500];
    op "POST" "/internal/v1/api-keys/{key_id}/revoke" [(200, SchemaKeyRevoked)] [403; 404; 422; 503; 500];
    op "POST" "/internal/v1/worker-keys" [(201, SchemaKeyCreated)] [403; 400; 413; 422; 503; 500];
    op "GET" "/internal/v1/worker-keys" [(200, SchemaKeyList)] [403; 422; 503; 500];
    op "POST" "/internal/v1/worker-keys/{key_id}/revoke" [(200, SchemaKeyRevoked)] [403; 404; 422; 503; 500];
    op "PUT" "/internal/v1/worker-sessions/{worker_session_id}" [(200, SchemaWorkerSession)]
      [403; 400; 401; 409; 413; 422; 500; 503];
    op "POST" "/internal/v1/worker-sessions/{worker_session_id}/heartbeat" [(200, SchemaHeartbeat)]
      [403; 400; 409; 413; 422; 500; 503];
    op "POST" "/internal/v1/leases/{lease_id}/renew" [(200, SchemaRenewal)] [403; 400; 409; 413; 422; 500; 503];
    op "POST" "/internal/v1/claims" [(200, SchemaClaimResponse)] [403; 400; 409; 413; 422; 500; 503];
    op "POST" "/internal/v1/attempts/{attempt_id}/start" [(200, SchemaAttemptStart)]
      [403; 400; 409; 413; 422; 500; 503];
    op "POST" "/internal/v1/attempts/{attempt_id}/succeed" [(204, SchemaNone)] [403; 400; 409; 413; 422; 500; 503];
    op "POST" "/internal/v1/attempts/{attempt_id}/fail" [(200, SchemaOutcome)] [403; 400; 409; 413; 422; 500; 503];
    op "POST" "/internal/v1/attempts/{attempt_id}/cancel" [(200, SchemaOutcome)]
      [403; 400; 409; 413; 422; 500; 503];
    op "GET" "/healthz" [(200, SchemaLiveness)] [];
    op "GET" "/readyz" [(200, SchemaReadiness); (503, SchemaReadiness)] [] ]%Z.

(** The codes of the Error schema. *)
Definition error_codes : list string :=
  [ "validation_failed"; "malformed_json"; "unknown_queue"; "idempotency_conflict"; "not_found";
    "unauthorized"; "payload_too_large"; "method_not_allowed"; "internal_error"; "service_unavailable";
    "worker_session_conflict"; "worker_session_unavailable"; "claim_conflict"; "fence_rejected";
    "lease_expired"; "state_conflict"; "renewal_conflict"; "attempt_timed_out"; "outcome_conflict";
    "job_not_cancelable"; "job_not_dead_lettered"; "invalid_cursor"; "cancellation_requested";
    "origin_refused" ].

(** ** Conformance *)

Definition schema_of (b : ResponseBody) : option schema :=
  match b with
  | NoBody => Some SchemaNone
  | ErrorBody code _ => if bool_decide (code ∈ error_codes) then Some SchemaError else None
  | JobBody _ => Some SchemaJob | CancelBody _ => Some SchemaCancellation | ReplayBody _ => Some SchemaReplay
  | DLQBody _ _ => Some SchemaDLQPage | JobsBody _ _ => Some SchemaJobPage
  | AttemptsBody _ => Some SchemaAttemptList | WorkersBody _ _ => Some SchemaWorkerPage
  | QueuesBody _ => Some SchemaQueueList | ResultBody _ => Some SchemaAny
  | SessionBody _ => Some SchemaWorkerSession | HeartbeatBody _ => Some SchemaHeartbeat
  | RenewalBody _ => Some SchemaRenewal | ClaimBody _ => Some SchemaClaimResponse
  | StartBody _ => Some SchemaAttemptStart | OutcomeBody _ => Some SchemaOutcome
  | KeyCreatedBody _ => Some SchemaKeyCreated | KeyListBody _ => Some SchemaKeyList
  | KeyRevokedBody _ _ => Some SchemaKeyRevoked
  | StateBody state _ => Some (if bool_decide (state = "alive") then SchemaLiveness else SchemaReadiness)
  | MetricsBody | FileBody _ _ _ => None
  end.

Definition declared (o : operation) (a : Answer) : bool :=
  match schema_of (an_body a) with
  | Some sc => bool_decide ((an_status a, sc) ∈ op_responses o)
  | None => false
  end.

(** What the code answers beyond the document: the 500 of a job lookup the database
    fails, and the 401 of a session whose worker key has been revoked. *)
Definition session_operations : list string :=
  [ "/internal/v1/worker-sessions/{worker_session_id}/heartbeat"; "/internal/v1/leases/{lease_id}/renew";
    "/internal/v1/claims"; "/internal/v1/attempts/{attempt_id}/start";
    "/internal/v1/attempts/{attempt_id}/succeed"; "/internal/v1/attempts/{attempt_id}/fail";
    "/internal/v1/attempts/{attempt_id}/cancel" ].

Definition undeclared (method path : string) (a : Answer) : bool :=
  match an_body a with
  | ErrorBody code _ =>
    bool_decide (method = "GET" ∧ path = "/v1/jobs/{job_id}" ∧ an_status a = 500%Z ∧ code = CodeInternal)
    || bool_decide (path ∈ session_operations ∧ an_status a = 401%Z ∧ code = CodeUnauthorized)
  | _ => false
  end.

Definition operation_of (method path : string) : option operation :=
  List.find (λ o, bool_decide (op_method o = method) && bool_decide (op_path o = path)) contract.

Definition conforms (method path : string) (a : Answer) : bool :=
  match operation_of method path with
  | Some o => declared o a || undeclared method path a
  | None => false
  end.

(** ** Handlers *)

(** [throws P h]: an answer [h] breaks off with satisfies [P]; [responds P h]: so does
    the one it ends with. *)
Definition throws {A} (P : Answer → bool) (h : H A) : Prop :=
  ∀ s, match (h s).1 with Err a => P a = true | Ok _ => True end.
Definition responds (P : Answer → bool) (h : H Answer) : Prop :=
  ∀ s, P (answer h s).1 = true.

Section responses.
Context (P : Answer → bool).

Lemma throws_ret {A} (a : A) : throws P (mret a).
Proof. by intros s. Qed.
Lemma throws_throw {A} a : P a = true → throws P (throw a : H A).
Proof. by intros Ha s. Qed.

Lemma throws_bind {A B} (h : H A) (f : A → H B) :
  throws P h → (∀ a, throws P (f a)) → throws P (h ≫= f).
Proof.
  intros Hh Hf s. unfold mbind, M_bind. specialize (Hh s). destruct (h s) as [[a|a] s']; [apply Hf|done].
Qed.

Lemma responds_bind {A} (h : H A) (f : A → H Answer) :
  throws P h → (∀ a, responds P (f a)) → responds P (h ≫= f).
Proof.
  intros Hh Hf s. unfold answer, mbind, M_bind. specialize (Hh s). destruct (h s) as [[a|a] s']; [|done].
  apply (Hf a s').
Qed.

Lemma responds_ret a : P a = true → responds P (mret a).
Proof. by intros Ha s. Qed.
Lemma responds_throw a : P a = true → responds P (throw a).
Proof. by intros Ha s. Qed.

Lemma throws_store {A} (m : Tx A) refuse : (∀ e, P (refuse e) = true) → throws P (store m refuse).
Proof.
  intros Hr s. unfold store. destruct (m (sv_world s)) as [[a|e] w];
    destruct (sv_faults s (sv_calls s)) as [x|]; simpl; auto.
Qed.
Lemma throws_api_keys {A} (m : K A) refuse : (∀ e, P (refuse e) = true) → throws P (api_keys m refuse).
Proof. intros Hr s. unfold api_keys. destruct (m (sv_keys s)) as [[a|e] k]; simpl; auto. Qed.
Lemma throws_worker_keys {A} (m : K A) refuse : (∀ e, P (refuse e) = true) → throws P (worker_keys m refuse).
Proof. intros Hr s. unfold worker_keys. destruct (m (sv_worker_keys s)) as [[a|e] k]; simpl; auto. Qed.

Lemma throws_texts : throws P texts.
Proof. by intros s. Qed.
Lemma throws_uuid_parse t : throws P (uuid_parse t).
Proof. by intros s. Qed.
Lemma throws_parse_ids l : throws P (parse_ids l).
Proof.
  induction l as [|[f v] l IH]; simpl; [apply throws_ret|].
  apply throws_bind; [apply throws_uuid_parse|]. intros o. apply throws_bind; [apply IH|].
  intros []. destruct o; apply throws_ret.
Qed.
Lemma throws_claim_request req : throws P (parseClaimRequest req).
Proof. intros s. unfold parseClaimRequest. by destruct (ValidateClaim _ _).1 as [|[]]. Qed.
End responses.

(** ** Every route *)

(** A concrete answer, or one of the branches of an error's translation. *)
Ltac declared_answer :=
  first
    [ reflexivity
    | match goal with
      | |- ?Q (mkAnswer (if ?b then _ else _) _) = true => destruct b; reflexivity
      | |- ?Q (connection_answer ?e _) = true =>
        destruct e as [[]| |]; unfold connection_answer; declared_answer
      | |- ?Q (store_answer ?e _) = true =>
        destruct e as [[]| |]; unfold store_answer; declared_answer
      | |- ?Q (match ?e with _ => _ end) = true => destruct e; declared_answer
      | |- ?Q (?f ?e) = true => unfold f; declared_answer
      | |- ?Q (?f _ ?e) = true => unfold f; declared_answer
      end ].

(** Down a handler. *)
Ltac conforming :=
  repeat first
    [ apply responds_ret; declared_answer | apply responds_throw; declared_answer
    | apply throws_throw; declared_answer
    | apply throws_ret | apply throws_texts | apply throws_uuid_parse | apply throws_parse_ids
    | apply throws_claim_request
    | apply throws_store; intros ?; declared_answer
    | apply throws_api_keys; intros ?; declared_answer
    | apply throws_worker_keys; intros ?; declared_answer
    | (apply responds_bind; [|intros ?]) | (apply throws_bind; [|intros ?])
    | progress cbv beta zeta
    | match goal with
      | |- responds _ (match ?x with _ => _ end) => destruct x
      | |- throws _ (match ?x with _ => _ end) => destruct x
      | |- throws _ (decode_json _ _ _ _) => unfold decode_json
      | |- throws _ (no_problems _) => unfold no_problems
      | |- throws _ (scopeOrUnauthorized _) => unfold scopeOrUnauthorized
      | |- throws _ (workerPrincipalFrom _) => unfold workerPrincipalFrom
      | |- throws _ (resolveWorkerControlScope _ _) => unfold resolveWorkerControlScope
      | |- throws _ (idempotency_key _) => unfold idempotency_key
      | |- throws _ (path_id _) => unfold path_id
      | |- throws _ (pageLimit _) => unfold pageLimit
      | |- throws _ (page_limit _ _ _) => unfold page_limit
      | |- throws _ (parseFence _ _) => unfold parseFence
      | |- throws _ (parse_outcome _ _ _) => unfold parse_outcome
      | |- throws _ (parseRenewalRequest _ _) => unfold parseRenewalRequest
      | |- throws _ (parseResultPayload _ _) => unfold parseResultPayload
      end ].

(** A handler with the wrappers of its chain. *)
Definition refusals_satisfy (P : Answer → bool) (ch : option chain) : Prop :=
  (ch = Some chainAPIKey ∨ ch = Some chainGuardWorkerKey →
     ∀ a, a ∈ [writeUnauthorized; writeDeadlineAmbiguity; internalError] → P a = true) ∧
  (ch = Some chainGuard ∨ ch = Some chainGuardWorkerKey → P (writeError 403 CodeOriginRefused []) = true).

Lemma wrapped_responds P cfg ch rule h h' :
  wrap cfg ch rule h = Some h' → (∀ ctx r, responds P (h ctx r)) → refusals_satisfy P ch →
  ∀ ctx r, responds P (h' ctx r).
Proof.
  intros Hw Hh [Hkey Hguard] ctx r.
  assert (∀ e, refuse_key e ∈ [writeUnauthorized; writeDeadlineAmbiguity; internalError]) as Hrk.
  { intros []; simpl; set_solver. }
  destruct ch as [[]|]; simpl in Hw; try done; injection Hw as <-; try apply Hh.
  - unfold requireAPIKey. destruct (negb _); [apply responds_throw, Hkey; [auto|set_solver]|].
    destruct (bearerCredential _); [|apply responds_throw, Hkey; [auto|set_solver]].
    apply responds_bind; [|intros p; apply Hh]. apply throws_api_keys. intros e. apply Hkey; auto.
  - unfold refuseBrowserOrigin. destruct (browserOriginRuleFor _ _); [apply responds_throw, Hguard; auto|apply Hh].
  - unfold refuseBrowserOrigin. destruct (browserOriginRuleFor _ _); [apply responds_throw, Hguard; auto|].
    unfold requireWorkerKey. destruct (negb _); [apply responds_throw, Hkey; [auto|set_solver]|].
    destruct (bearerCredential _); [|apply responds_throw, Hkey; [auto|set_solver]].
    apply responds_bind; [|intros p; apply Hh]. apply throws_worker_keys. intros e. apply Hkey; auto.
Qed.

(** The metrics and the dashboard are not in the document. *)
Definition unlisted_route (rt : route) : bool := bool_decide (r_surface rt = surfaceUnlisted).

(** The answers the handlers of a table give, and the wrappers around them. *)
Definition table_responds (skip : route → bool) (P : string → string → Answer → bool) (table : list route) : Prop :=
  Forall (λ rt, skip rt = false → ∀ ctx r, responds (P (r_method rt) (r_path rt)) (r_handler rt ctx r)) table ∧
  Forall (λ rt, skip rt = false → refusals_satisfy (P (r_method rt) (r_path rt)) (r_chain rt)) table.

Ltac table_handlers :=
  unfold routeTable; repeat apply Forall_cons_2; [..|by apply Forall_nil_2]; intros Hu ctx r;
    try discriminate Hu; cbn [r_method r_path r_handler public probe key_admin control scoped];
    unfold handleGetJobResult, handleReadiness; conforming.

(** What the wrappers refuse with is declared where they are. *)
Ltac table_refusals :=
  unfold routeTable; repeat apply Forall_cons_2; [..|by apply Forall_nil_2]; intros Hu;
    try discriminate Hu; cbn [r_method r_path r_chain public probe key_admin control];
    (split; intros []); try (match goal with H : _ = Some _ |- _ => discriminate H end); try reflexivity;
    intros a [->|[->|[->|[]%not_elem_of_nil]%elem_of_cons]%elem_of_cons]%elem_of_cons; reflexivity.

Lemma routeTable_conforms cfg : table_responds unlisted_route conforms (routeTable cfg).
Proof. split; [table_handlers|table_refusals]. Qed.

(** The route of a request, by its method and its path. *)
Definition route_of (r : Request) (rt : route) : Prop :=
  reached (Some (r_method rt)) (rq_method r) ∧ is_Some (match_segments (read_pattern (r_path rt)).2 (rq_path r)).

Lemma answers_served skip P cfg l r s a s' :
  table_responds skip P (routeTable cfg) → serve cfg l r s = Some (a, s') →
  an_status a ∈ [301; 403; 404; 405]%Z ∨
  ∃ rt, rt ∈ routeTable cfg ∧ route_of r rt ∧ (skip rt = false → P (r_method rt) (r_path rt) a = true).
Proof.
  intros [Hh Hf]. rewrite Forall_forall in Hh, Hf.
  unfold serve, ListenerHandler. destruct (registerRoutes cfg (routeTable cfg) l) as [mux|] eqn:Hreg; [|done].
  simpl. intros [= Hans]. destruct (ServeHTTP_reached mux r) as [(st & Hst & Hrun)|(e & bs & Hin & Hm & Hp & Hrun)].
  { rewrite Hrun in Hans. injection Hans as <- _. left. destruct Hst as [-> | ->]; simpl; set_solver. }
  destruct (registerRoutes_in _ _ _ _ _ Hreg Hin) as (_ & _ & rule & _ & Hcase).
  assert (a = (answer (ServeHTTP mux r) s).1) as -> by (by rewrite Hans). rewrite Hrun.
  destruct Hcase as [(rt & Hrt & _ & _ & Hr)|[(fb & Hfb & Hr)| ->]].
  - right. exists rt. apply register_ok in Hr as (h' & Hw & ->). simpl in *.
    split_and!; [done|by split; [|eexists]|]. intros Hu.
    exact (wrapped_responds _ cfg _ rule _ _ Hw (Hh rt Hrt Hu) (Hf rt Hrt Hu) _ r s).
  - left. apply register_ok in Hr as (h' & Hw & ->). apply fallback_path in Hfb as [_ Hc]. simpl.
    destruct Hc as [Hc|Hc]; rewrite Hc in Hw; injection Hw as <-; unfold answer.
    + unfold refuseBrowserOrigin. destruct (browserOriginRuleFor r rule); simpl; set_solver.
    + simpl. set_solver.
  - left. simpl. set_solver.
Qed.

