(* ===== verification/Scan.v ===== *)
(** * scripts/scan: the security gate

    scripts/scan: the exceptions file and its rules (exceptions.go), what each scanner's report
    says (govulncheck.go, gitleaks.go, pipaudit.go, npmaudit.go) and the driver that decides
    whether the gate passes (main.go).

    The reports and the exceptions file are taken decoded: the YAML library is an argument, and
    of encoding/json only whether a report decodes and what it then holds.  Running the
    scanners (sources.go) is the argument [in_sources]. *)

From S2P Require Import Prelude.
From S2P Require Import GoText.
From S2P Require Import Schema.
From S2P Require Import GoTime.
From S2P Require Import Hosts.
From S2P Require Import Cli.

Local Open Scope string_scope.

Module Scan.

(** ** Findings and exceptions *)

Definition toolGovulncheck : string := "govulncheck".
Definition toolGitleaks : string := "gitleaks".
Definition toolPipAudit : string := "pip-audit".
Definition toolNpmAudit : string := "npm-audit".
Definition knownTools : list string := [toolGovulncheck; toolGitleaks; toolPipAudit; toolNpmAudit].
Definition exceptableTools : list string := [toolGovulncheck; toolPipAudit; toolNpmAudit].

Record Finding := mkFinding {
  fi_tool : string; fi_id : string; fi_aliases : list string; fi_location : string; fi_detail : string }.
Record scanResult := mkScanResult { sr_findings : list Finding; sr_note : string }.

Record Exception := mkException {
  ex_id : string; ex_tool : string; ex_reason : string; ex_accepted_by : string; ex_expires : string }.

Definition contains (l : list string) (s : string) : bool := existsb (λ x, bool_decide (x = s)) l.
Fixpoint firstNonEmpty (l : list string) : string :=
  match l with [] => "" | v :: l' => if bool_decide (v = "") then firstNonEmpty l' else v end.

(** [time.Parse("2006-01-02", s)]: midnight UTC of the date. *)
Definition parse_date (s : string) : option time :=
  '(y, s) ← getyear s;
  s ← expect "-" s;
  '(m, s) ← getfield true 1 12 s;
  s ← expect "-" s;
  '(d, s) ← getnum true s;
  match s with
  | EmptyString => if ((1 <=? d) && (d <=? daysIn m y))%Z then Some (instant y m d 0 0 0 0) else None
  | _ => None
  end.

(** Midnight UTC of the day of an instant. *)
Definition Day : Z := (86400 * Second)%Z.
Definition startOfToday (today : time) : time := (today - today mod Day)%Z.

Inductive exception_problem :=
| MissingField (field : string) | GitleaksPointer | UnknownTool | NotADate | Expired | Duplicate.

Definition exceptionKey (e : Exception) : string := ex_tool e ++ String "000" (ex_id e).

(** The problems of one entry, given the keys of the entries before it.  The order of the missing
    fields is a map's, and not part of the result. *)
Definition entry_problems (today : time) (seen : list string) (e : Exception) : list exception_problem :=
  let blank s := bool_decide (TrimSpace s = "") in
  let missing := λ f : string * string, if blank f.2 then [MissingField f.1] else [] in
  (concat (map missing [("id", ex_id e); ("tool", ex_tool e); ("reason", ex_reason e);
                        ("accepted_by", ex_accepted_by e); ("expires", ex_expires e)]) ++
   (if bool_decide (ex_tool e = toolGitleaks) then [GitleaksPointer]
    else if negb (bool_decide (ex_tool e = "")) && negb (contains exceptableTools (ex_tool e)) then [UnknownTool]
    else []) ++
   (if blank (ex_expires e) then []
    else match parse_date (TrimSpace (ex_expires e)) with
         | None => [NotADate]
         | Some expires => if (expires <? startOfToday today)%Z then [Expired] else []
         end) ++
   (if negb (bool_decide (ex_id e = "")) && contains seen (exceptionKey e)
    then [Duplicate] else []))%list.

Fixpoint check_entries (today : time) (seen : list string) (l : list Exception)
    : list Exception * list exception_problem :=
  match l with
  | [] => ([], [])
  | e :: l' =>
    let problems := entry_problems today seen e in
    let seen' := if bool_decide (ex_id e = "") then seen else exceptionKey e :: seen in
    let '(valid, rest) := check_entries today seen' l' in
    (match problems with [] => e :: valid | _ => valid end, (problems ++ rest)%list)
  end.

(** [parseExceptions]: a file that does not decode is one problem. *)
Inductive file_problem := InvalidFile | BadEntry (p : exception_problem).
Definition parseExceptions (decode : string → option (list Exception)) (data : string) (today : time)
    : list Exception * list file_problem :=
  match decode data with
  | None => ([], [InvalidFile])
  | Some l => let '(valid, problems) := check_entries today [] l in (valid, map BadEntry problems)
  end.

Definition matchException (f : Finding) (l : list Exception) : option Exception :=
  if bool_decide (fi_tool f = toolGitleaks) then None
  else List.find (λ e, bool_decide (ex_tool e = fi_tool f) &&
                       (bool_decide (ex_id e = fi_id f) || contains (fi_aliases f) (ex_id e))) l.

(** ** govulncheck *)

Record vulnFrame := mkVulnFrame {
  vf_module : string; vf_version : string; vf_package : string; vf_function : string; vf_receiver : string;
  vf_position : option (string * Z) }.

(** A message of the stream; the first of its members that is there decides, in this order. *)
Record vulnMessage := mkVulnMessage {
  vm_error : option string;
  vm_config : option (string * string * string);
  vm_osv : option (string * list string * string);
  vm_finding : option (string * string * list vulnFrame) }.

Inductive parse_error := NotAReport | ToolReported | Empty | UnknownSeverity.

(** What the stream has said so far. *)
Record vulnState := mkVulnState {
  vs_config : option (string * string * string);
  vs_aliases : gmap string (list string); vs_summaries : gmap string string;
  vs_best : gmap string (list vulnFrame * string); vs_order : list string }.
#[export] Instance eta_vulnState : Eta vulnState := λ s,
  mkVulnState (vs_config s) (vs_aliases s) (vs_summaries s) (vs_best s) (vs_order s).

Definition add_alias (l : list string) (a : string) : list string := if contains l a then l else (l ++ [a])%list.

(** A finding counts when its trace reaches a function; the shortest trace stands for it. *)
Definition called (trace : list vulnFrame) : bool :=
  match trace with [] => false | f :: _ => negb (bool_decide (vf_function f = "")) end.
Definition vuln_message (s : vulnState) (m : vulnMessage) : result parse_error vulnState :=
  match vm_error m, vm_config m, vm_osv m, vm_finding m with
  | Some _, _, _, _ => Err ToolReported
  | None, Some c, _, _ => Ok (s <| vs_config := Some c |>)
  | None, None, Some (id, aliases, summary), _ =>
    let known := fold_left add_alias aliases (default [] (vs_aliases s !! id)) in
    Ok (s <| vs_aliases := match known with [] => vs_aliases s | _ => <[id := known]> (vs_aliases s) end |>
          <| vs_summaries := <[id := summary]> (vs_summaries s) |>)
  | None, None, None, Some (id, fixed, trace) =>
    if negb (called trace) then Ok s
    else match vs_best s !! id with
         | None => Ok (s <| vs_best := <[id := (trace, fixed)]> (vs_best s) |> <| vs_order := (vs_order s ++ [id])%list |>)
         | Some (current, _) =>
           if (length trace <? length current)%nat
           then Ok (s <| vs_best := <[id := (trace, fixed)]> (vs_best s) |>) else Ok s
         end
  | None, None, None, None => Ok s
  end.

(** The stream: [None] is a message that does not decode. *)
Fixpoint vuln_messages (s : vulnState) (l : list (option vulnMessage)) : result parse_error vulnState :=
  match l with
  | [] => Ok s
  | None :: _ => Err NotAReport
  | Some m :: l' => match vuln_message s m with Ok s' => vuln_messages s' l' | Err e => Err e end
  end.

Definition describeSymbol (f : vulnFrame) : string :=
  let name := if bool_decide (vf_receiver f = "") then vf_function f
              else TrimPrefix (vf_receiver f) "*" ++ "." ++ vf_function f in
  vf_module f ++ " " ++ vf_package f ++ "." ++ name ++ "@" ++ vf_version f.
(** [wd] is the working directory, when there is one. *)
Definition relPath (wd : option string) (path : string) : string :=
  match wd with Some d => TrimPrefix path (d ++ "/") | None => path end.
Definition describeCaller (wd : option string) (f : vulnFrame) : string :=
  match vf_position f with
  | None => vf_function f
  | Some (file, n) => relPath wd file ++ ":" ++ Itoa n ++ " (" ++ vf_function f ++ ")"
  end.

Definition vuln_finding (wd : option string) (s : vulnState) (id : string) : list Finding :=
  match vs_best s !! id with
  | Some ((first :: _) as trace, fixed) =>
    let caller := default first (last trace) in
    let detail := firstNonEmpty [default "" (vs_summaries s !! id); "reachable vulnerability"] in
    [mkFinding toolGovulncheck id (default [] (vs_aliases s !! id))
       (describeSymbol first ++ ", called from " ++ describeCaller wd caller)
       (if bool_decide (fixed = "") then detail else detail ++ " (fixed in " ++ fixed ++ ")")]
  | _ => []
  end.

Definition parseGovulncheck (wd : option string) (l : list (option vulnMessage)) : result parse_error scanResult :=
  match vuln_messages (mkVulnState None ∅ ∅ ∅ []) l with
  | Err e => Err e
  | Ok s =>
    match vs_config s with
    | None => Err Empty
    | Some (go, scanner, db) =>
      Ok (mkScanResult (concat (map (vuln_finding wd s) (vs_order s)))
            (go ++ ", scanner " ++ scanner ++ ", database modified " ++ db))
    end
  end.

(** ** gitleaks *)

Record leak := mkLeak {
  lk_rule : string; lk_description : string; lk_file : string; lk_line : Z; lk_commit : string; lk_fingerprint : string }.

Definition leak_finding (r : leak) : Finding :=
  let id := firstNonEmpty [lk_fingerprint r;
              lk_commit r ++ ":" ++ lk_file r ++ ":" ++ lk_rule r ++ ":" ++ Itoa (lk_line r)] in
  let commit := if (8 <? String.length (lk_commit r))%nat then take_string 8 (lk_commit r) else lk_commit r in
  mkFinding toolGitleaks id [] (lk_file r ++ ":" ++ Itoa (lk_line r) ++ " (commit " ++ commit ++ ")")
    (firstNonEmpty [lk_description r; "possible secret"] ++ " [rule " ++ lk_rule r ++ "]").

(** An empty report is no clean scan. *)
Definition parseGitleaks (decode : string → option (list leak)) (data : string) : result parse_error scanResult :=
  if bool_decide (TrimSpace data = "") then Err Empty
  else match decode data with
       | None => Err NotAReport
       | Some l => Ok (mkScanResult (map leak_finding l) "full git history, all refs")
       end.

(** ** pip-audit *)

Definition truncate (s : string) (n : nat) : string :=
  let s := TrimSpace s in if (String.length s <=? n)%nat then s else take_string n s ++ "...".

Record pipVuln := mkPipVuln {
  pv_id : string; pv_fix_versions : list string; pv_aliases : list string; pv_description : string }.
Record pipDependency := mkPipDependency {
  pd_name : string; pd_version : string; pd_skip_reason : string; pd_vulns : list pipVuln }.

Definition pip_vuln_finding (dep : pipDependency) (v : pipVuln) : Finding :=
  let detail := truncate (firstNonEmpty [pv_description v; "known vulnerability"]) 120 in
  mkFinding toolPipAudit (pv_id v) (pv_aliases v) (pd_name dep ++ "==" ++ pd_version dep)
    (match pv_fix_versions v with [] => detail | l => detail ++ " (fixed in " ++ join ", " l ++ ")" end).

(** A package that was skipped was not audited, and is a finding too. *)
Definition pip_findings (dep : pipDependency) : list Finding :=
  ((if bool_decide (pd_skip_reason dep = "") then []
    else [mkFinding toolPipAudit ("pip-audit-skipped:" ++ pd_name dep) [] (pd_name dep)
            ("not audited: " ++ pd_skip_reason dep)]) ++
   map (pip_vuln_finding dep) (pd_vulns dep))%list.

(** [None] inside is a report without a list of dependencies. *)
Definition parsePipAudit (report : option (option (list pipDependency))) : result parse_error scanResult :=
  match report with
  | None => Err NotAReport
  | Some None => Err Empty
  | Some (Some l) =>
    Ok (mkScanResult (concat (map pip_findings l))
          (Itoa (Z.of_nat (length l)) ++ " packages in the SDK's resolved runtime tree"))
  end.

(** ** npm audit *)

Record advisory := mkAdvisory {
  av_source : Z; av_name : string; av_title : string; av_url : string; av_severity : string; av_range : string }.
(** [nv_name] is the key of the package in the report; of [via], the entries that decode to an
    advisory, and [None] for the others. *)
Record npmVuln := mkNpmVuln { nv_name : string; nv_range : string; nv_via : list (option advisory) }.
Record npmReport := mkNpmReport {
  np_version : Z; np_error : bool; np_vulnerabilities : list npmVuln; np_prod : Z }.

Definition severityRank (s : string) : option nat :=
  snd <$> List.find (λ x : string * nat, bool_decide (x.1 = s))
    [("info", 0); ("low", 1); ("moderate", 2); ("high", 3); ("critical", 4)].
Definition npmThreshold : nat := 3.

(** [path.Base]: what follows the last slash, of a path without the slashes it ends with. *)
Fixpoint trim_slashes (l : list string) : list string :=
  match l with "" :: l' => trim_slashes l' | _ => l end.
Definition path_Base (p : string) : string :=
  if bool_decide (p = "") then "."
  else match trim_slashes (rev (split_byte "/" p)) with [] => "/" | x :: _ => x end.

Definition advisory_id (a : advisory) : string :=
  let id := path_Base (av_url a) in if HasPrefix id "GHSA-" then id else "npm:" ++ Itoa (av_source a).

(** One advisory of a package; [seen] are the ids reported so far. *)
Definition npm_advisory (vuln : npmVuln) (acc : list Finding * list string) (via : option advisory)
    : result parse_error (list Finding * list string) :=
  match via with
  | None => Ok acc
  | Some a =>
    if ((av_source a =? 0)%Z && bool_decide (av_url a = "")) then Ok acc
    else match severityRank (av_severity a) with
         | None => Err UnknownSeverity
         | Some rank =>
           let '(findings, seen) := acc in
           let id := advisory_id a in
           if (rank <? npmThreshold)%nat || contains seen id then Ok acc
           else
             Ok ((findings ++ [mkFinding toolNpmAudit id []
                                 (firstNonEmpty [av_name a; nv_name vuln] ++ " " ++ firstNonEmpty [av_range a; nv_range vuln])
                                 (firstNonEmpty [av_title a; "advisory"] ++ " (" ++ av_severity a ++ ")")])%list,
                 id :: seen)
         end
  end.
Fixpoint npm_fold {A S} (f : S → A → result parse_error S) (s : S) (l : list A) : result parse_error S :=
  match l with
  | [] => Ok s
  | x :: l' => match f s x with Ok s' => npm_fold f s' l' | Err e => Err e end
  end.

(** The packages by name, the findings by id. *)
Definition parseNpmAudit (report : option npmReport) : result parse_error scanResult :=
  match report with
  | None => Err NotAReport
  | Some r =>
    if np_error r then Err ToolReported
    else if (np_version r =? 0)%Z then Err Empty
    else
      let by_name := merge_sort (ordby (λ x y, String.leb (nv_name x) (nv_name y))) (np_vulnerabilities r) in
      match npm_fold (λ acc v, npm_fold (npm_advisory v) acc (nv_via v)) ([], []) by_name with
      | Err e => Err e
      | Ok (findings, _) =>
        Ok (mkScanResult (merge_sort (ordby (λ x y, String.leb (fi_id x) (fi_id y))) findings)
              (Itoa (np_prod r) ++ " production packages, severity high or above"))
      end
  end.

(** ** The driver *)

Definition exitPassed : Z := 0.
Definition exitFailed : Z := 1.
Definition exitUsage : Z := 2.

Inductive line :=
| FailExceptions (p : option file_problem)
| FailTool (tool : string) (unusable : bool)
| FailFinding (f : Finding)
| Waived (f : Finding) (e : Exception)
| Clean (tool : string)
| Unmatched (e : Exception).

Definition is_failure (l : line) : bool :=
  match l with FailExceptions _ | FailTool _ _ | FailFinding _ => true | _ => false end.

(** What the run depends on: the files, the scanners' outputs ([None] when a tool could not be
    run; the argument is the lock file of pip-audit), the working directory, and the decoding of
    each document. *)
Record Inputs := mkInputs {
  in_file : string → option string;
  in_sources : string → string → option string;
  in_wd : option string;
  in_exceptions : string → option (list Exception);
  in_messages : string → list (option vulnMessage);
  in_leaks : string → option (list leak);
  in_pip : string → option (option (list pipDependency));
  in_npm : string → option npmReport }.

(** [obtain]: a recorded report when one is named, the tool otherwise. *)
Definition obtain (inputs : Inputs) (tool report lock : string) : option string :=
  if bool_decide (report = "") then in_sources inputs tool lock else in_file inputs report.

(** The tools are the known ones. *)
Definition parsers (inputs : Inputs) (tool data : string) : result parse_error scanResult :=
  if bool_decide (tool = toolGovulncheck) then parseGovulncheck (in_wd inputs) (in_messages inputs data)
  else if bool_decide (tool = toolGitleaks) then parseGitleaks (in_leaks inputs) data
  else if bool_decide (tool = toolPipAudit) then parsePipAudit (in_pip inputs data)
  else parseNpmAudit (in_npm inputs data).

Definition judge (exceptions : list Exception) (f : Finding) : line :=
  match matchException f exceptions with Some e => Waived f e | None => FailFinding f end.

Definition tool_lines (inputs : Inputs) (report lock : string) (exceptions : list Exception) (tool : string) : list line :=
  match obtain inputs tool report lock with
  | None => [FailTool tool false]
  | Some data =>
    match parsers inputs tool data with
    | Err _ => [FailTool tool true]
    | Ok r => match sr_findings r with [] => [Clean tool] | l => map (judge exceptions) l end
    end
  end.

Definition exceptions_read (inputs : Inputs) (path : string) (now : time) : list Exception * list line :=
  match in_file inputs path with
  | None => ([], [FailExceptions None])
  | Some raw =>
    let '(valid, problems) := parseExceptions (in_exceptions inputs) raw now in
    (valid, map (λ p, FailExceptions (Some p)) problems)
  end.

Definition was_matched (lines : list line) (e : Exception) : bool :=
  existsb (λ l, match l with
                | Waived _ e' => bool_decide (exceptionKey e' = exceptionKey e)
                | _ => false
                end) lines.

Definition scan_flags : flags :=
  (("exceptions", FlagString) :: ("pip-audit-lock", FlagString) :: map (λ t, ((t ++ "-report")%string, FlagString)) knownTools)%list.

Definition selected_tools (p : Parsed) : list string := match ps_rest p with [] => knownTools | l => l end.

(** [run]: what it prints, and its exit code. *)
Definition run (inputs : Inputs) (now : time) (args : list string) : list line * Z :=
  match flag_Parse scan_flags args no_flags with
  | Err _ => ([], exitUsage)
  | Ok p =>
    let selected := selected_tools p in
    if negb (forallb (contains knownTools) selected) then ([], exitUsage)
    else
      let '(exceptions, failures) :=
        exceptions_read inputs (string_flag p "exceptions" "security/scan-exceptions.yaml") now in
      let lock := string_flag p "pip-audit-lock" "security/pip-audit.requirements.txt" in
      let results := concat (map (λ t, tool_lines inputs (string_flag p (t ++ "-report") "") lock exceptions t)
                               (List.filter (contains selected) knownTools)) in
      let notes := map Unmatched
                     (List.filter (λ e, contains selected (ex_tool e) && negb (was_matched results e)) exceptions) in
      let lines := (failures ++ results ++ notes)%list in
      (lines, if existsb is_failure lines then exitFailed else exitPassed)
  end.
End Scan.

(** ** When the security gate passes

    The driver of [Scan] exits 0 exactly when the exceptions file is in order, every selected
    scanner ran and could be read, and every finding is waived by an entry that is complete,
    current and of the same tool; a leaked secret is never waived. *)

Local Open Scope string_scope.
Import Scan.

(** ** Entries *)

Definition filled (s : string) : Prop := TrimSpace s ≠ "".

(** An entry that may waive a finding today. *)
Record acceptable (today : time) (e : Exception) : Prop := {
  ac_filled : Forall filled [ex_id e; ex_tool e; ex_reason e; ex_accepted_by e; ex_expires e];
  ac_tool : ex_tool e ∈ exceptableTools;
  ac_current : ∃ t, parse_date (TrimSpace (ex_expires e)) = Some t ∧ (startOfToday today <= t)%Z }.

Lemma contains_elem l s : contains l s = true ↔ s ∈ l.
Proof.
  unfold contains. rewrite existsb_exists. setoid_rewrite bool_decide_eq_true. setoid_rewrite <-list_elem_of_In.
  naive_solver.
Qed.
Lemma filled_nonempty s : filled s → s ≠ "".
Proof. by intros Hs ->. Qed.

Lemma missing_nil (l : list (string * string)) :
  concat (map (λ f : string * string, if bool_decide (TrimSpace f.2 = "") then [MissingField f.1] else []) l) = [] ↔
  Forall (λ f, filled f.2) l.
Proof.
  induction l as [|[n v] l IH]; simpl; [split; [constructor|done]|]. rewrite Forall_cons.
  unfold filled at 1. simpl. case_bool_decide; simpl; [naive_solver|]. rewrite IH. tauto.
Qed.

Lemma tool_nil e :
  (if bool_decide (ex_tool e = toolGitleaks) then [GitleaksPointer]
   else if negb (bool_decide (ex_tool e = "")) && negb (contains exceptableTools (ex_tool e)) then [UnknownTool]
   else []) = [] → ex_tool e ≠ "" → ex_tool e ∈ exceptableTools.
Proof.
  intros Hnil Hne. destruct (bool_decide (ex_tool e = toolGitleaks)); [done|].
  rewrite (bool_decide_eq_false_2 _ Hne) in Hnil.
  apply contains_elem. revert Hnil. by destruct (contains exceptableTools (ex_tool e)).
Qed.
Lemma exceptable_not_gitleaks : toolGitleaks ∉ exceptableTools.
Proof. rewrite <-contains_elem. vm_compute. discriminate. Qed.

(** The problems of an entry, read back. *)
Lemma entry_problems_nil today seen e :
  entry_problems today seen e = [] ↔ acceptable today e ∧ exceptionKey e ∉ seen.
Proof.
  unfold entry_problems. cbv zeta. split.
  - intros [Hm [Ht [Hx Hd]%app_eq_nil]%app_eq_nil]%app_eq_nil.
    apply (proj1 (missing_nil _)) in Hm. assert (Hf := Hm).
    rewrite !Forall_cons in Hm. destruct Hm as (Hid & Htool & _ & _ & Hexp & _). simpl in *.
    split; [constructor|].
    + rewrite !Forall_cons in *. naive_solver.
    + apply tool_nil; [done|by apply filled_nonempty].
    + rewrite (bool_decide_eq_false_2 _ Hexp) in Hx. destruct (parse_date _) as [t|]; [|done].
      exists t. split; [done|]. destruct (t <? startOfToday today)%Z eqn:Hlt; [done|]. by apply Z.ltb_ge.
    + rewrite (bool_decide_eq_false_2 _ (filled_nonempty _ Hid)) in Hd. simpl in Hd.
      intros Hin%contains_elem. by rewrite Hin in Hd.
  - intros [[Hf Ht (t & Hp & Hle)] Hns].
    rewrite !Forall_cons in Hf. destruct Hf as (Hid & Htool & Hr & Ha & Hexp & _).
    rewrite (proj2 (missing_nil _)) by (rewrite !Forall_cons; naive_solver). cbn [app].
    rewrite bool_decide_eq_false_2 by (intros Heq; rewrite Heq in Ht; by apply exceptable_not_gitleaks).
    rewrite (proj2 (contains_elem _ _) Ht), andb_false_r. simpl.
    rewrite (bool_decide_eq_false_2 _ Hexp), Hp. rewrite (proj2 (Z.ltb_ge _ _) Hle). simpl.
    destruct (contains seen (exceptionKey e)) eqn:He; [|by rewrite andb_false_r].
    by apply contains_elem in He.
Qed.

(** The file is in order exactly when every entry is, and none is there twice. *)
Lemma check_entries_nil today seen l :
  (check_entries today seen l).2 = [] ↔
  Forall (acceptable today) l ∧ NoDup (map exceptionKey l) ∧ ∀ e, e ∈ l → exceptionKey e ∉ seen.
Proof.
  revert seen. induction l as [|e l IH]; intros seen; simpl.
  { split; [|done]. intros _. split_and!; [constructor..|]. intros e He. by apply elem_of_nil in He. }
  destruct (check_entries _ _ l) as [valid rest] eqn:Hc. simpl.
  specialize (IH (if bool_decide (ex_id e = "") then seen else exceptionKey e :: seen)). rewrite Hc in IH. simpl in IH.
  rewrite Forall_cons, NoDup_cons. split.
  - intros [He Hrest]%app_eq_nil. apply entry_problems_nil in He as [Ha Hns].
    assert (ex_id e ≠ "") as Hid by (apply filled_nonempty; by destruct Ha as [[? _]%Forall_cons _ _]).
    rewrite (bool_decide_eq_false_2 _ Hid) in IH. apply IH in Hrest as (Hl & Hn & Hs).
    split_and!; try done.
    + intros (e' & Heq & Hin)%list_elem_of_fmap. apply (Hs e' Hin). rewrite <-Heq. by left.
    + intros e' [->|Hin]%elem_of_cons; [done|]. intros Hk. apply (Hs e' Hin). by right.
  - intros ([Ha Hl] & [Hni Hn] & Hs).
    assert (ex_id e ≠ "") as Hid by (apply filled_nonempty; by destruct Ha as [[? _]%Forall_cons _ _]).
    rewrite (bool_decide_eq_false_2 _ Hid) in IH.
    rewrite (proj2 (entry_problems_nil today seen e)) by (split; [done|apply Hs; by left]). simpl. apply IH.
    split_and!; [done..|]. intros e' Hin [Heq|Hk]%elem_of_cons; [|by apply (Hs e'); [right|]].
    apply Hni. apply list_elem_of_fmap. exists e'. by rewrite <-Heq.
Qed.

(** Nothing but whole entries is kept. *)
Lemma check_entries_valid today seen l :
  (check_entries today seen l).2 = [] → (check_entries today seen l).1 = l.
Proof.
  revert seen. induction l as [|e l IH]; intros seen; simpl; [done|].
  specialize (IH (if bool_decide (ex_id e = "") then seen else exceptionKey e :: seen)).
  destruct (check_entries _ _ l) as [valid rest]. simpl in *.
  intros [He Hr]%app_eq_nil. rewrite He. by rewrite (IH Hr).
Qed.

(** ** Lines *)

Lemma no_failures_app (l l' : list line) :
  existsb is_failure (l ++ l')%list = false ↔ existsb is_failure l = false ∧ existsb is_failure l' = false.
Proof. by rewrite existsb_app, orb_false_iff. Qed.
Lemma no_failures_forall (l : list line) : existsb is_failure l = false ↔ Forall (λ x, is_failure x = false) l.
Proof.
  induction l as [|x l IH]; simpl; [split; [constructor|done]|].
  by rewrite orb_false_iff, Forall_cons, IH.
Qed.
Lemma no_failures_concat {A} (f : A → list line) l :
  existsb is_failure (concat (map f l)) = false ↔ ∀ x, x ∈ l → existsb is_failure (f x) = false.
Proof.
  rewrite <-Forall_forall. induction l as [|x l IH]; simpl; [split; [constructor|done]|].
  by rewrite no_failures_app, Forall_cons, IH.
Qed.
Lemma notes_pass l : existsb is_failure (map Unmatched l) = false.
Proof. by apply no_failures_forall, Forall_fmap, Forall_forall. Qed.

(** A finding an entry of the list answers for: of the same tool, by its id or an alias. *)
Definition answered (l : list Exception) (f : Finding) : Prop :=
  fi_tool f ≠ toolGitleaks ∧
  ∃ e, e ∈ l ∧ ex_tool e = fi_tool f ∧ (ex_id e = fi_id f ∨ ex_id e ∈ fi_aliases f).

Lemma matchException_spec f l : is_Some (matchException f l) ↔ answered l f.
Proof.
  unfold matchException, answered. case_bool_decide as Hg; [split; [by intros [? ?]|tauto]|]. split.
  - intros [e [Hin Hm]%find_some]. split; [done|]. exists e. apply list_elem_of_In in Hin.
    rewrite andb_true_iff, orb_true_iff, !bool_decide_eq_true, contains_elem in Hm. tauto.
  - intros (_ & e & Hin & Ht & Hid). apply list_elem_of_In in Hin.
    destruct (List.find _ l) as [e'|] eqn:Hf; [by eexists|]. exfalso.
    apply (find_none _ _ Hf) in Hin. revert Hin. rewrite <-not_true_iff_false. intros Hn. apply Hn.
    rewrite andb_true_iff, orb_true_iff, !bool_decide_eq_true, contains_elem. tauto.
Qed.
Lemma judge_passes l f : is_failure (judge l f) = false ↔ answered l f.
Proof.
  rewrite <-matchException_spec. unfold judge.
  destruct (matchException f l); split; try done; by intros [? ?].
Qed.

(** ** Parts of a run *)

(** A tool of the run that says nothing the entries do not answer for. *)
Definition tool_passes (inputs : Inputs) (report lock : string) (l : list Exception) (tool : string) : Prop :=
  ∃ data r, obtain inputs tool report lock = Some data ∧ parsers inputs tool data = Ok r ∧
    Forall (answered l) (sr_findings r).

Lemma tool_lines_pass inputs report lock l tool :
  existsb is_failure (tool_lines inputs report lock l tool) = false ↔ tool_passes inputs report lock l tool.
Proof.
  unfold tool_lines, tool_passes. destruct (obtain _ _ _ _) as [data|]; [|by split; [|intros (? & ? & ? & _)]].
  destruct (parsers _ _ _) as [r|e] eqn:Hp.
  2: { split; [done|]. intros (d & r & [= <-] & Hr & _). congruence. }
  transitivity (Forall (answered l) (sr_findings r)).
  - rewrite <-(Forall_iff _ _ _ (judge_passes l)).
    change (Forall ?P (sr_findings r)) with (Forall ((λ x, is_failure x = false) ∘ judge l) (sr_findings r)).
    rewrite <-Forall_fmap, <-no_failures_forall. by destruct (sr_findings r).
  - split; [by intros Hf; exists data, r|]. intros (d & r' & [= <-] & Hr & Hf). congruence.
Qed.

(** An exceptions file in order: it decodes, and every entry may waive a finding today. *)
Definition file_in_order (inputs : Inputs) (path : string) (now : time) (l : list Exception) : Prop :=
  ∃ raw, in_file inputs path = Some raw ∧ in_exceptions inputs raw = Some l ∧
    Forall (acceptable now) l ∧ NoDup (map exceptionKey l).

Lemma exceptions_read_pass inputs path now :
  let '(l, failures) := exceptions_read inputs path now in
  existsb is_failure failures = false ↔ file_in_order inputs path now l.
Proof.
  unfold exceptions_read, file_in_order, parseExceptions.
  destruct (in_file inputs path) as [raw|]; [|by split; [|intros (? & ? & _)]].
  destruct (in_exceptions inputs raw) as [l|] eqn:Hd.
  2: { split; [done|]. intros (? & [= <-] & ? & _). congruence. }
  destruct (check_entries now [] l) as [valid problems] eqn:Hc.
  pose proof (check_entries_nil now [] l) as Hn. pose proof (check_entries_valid now [] l) as Hv.
  rewrite Hc in Hn, Hv. simpl in Hn, Hv. split.
  - destruct problems as [|p problems]; [|done]. intros _. exists raw.
    rewrite (Hv eq_refl). destruct (proj1 Hn eq_refl) as (? & ? & _). done.
  - intros (raw' & [= <-] & Hd' & Ha & Hk). rewrite Hd in Hd'. injection Hd' as ->.
    rewrite (proj2 Hn); [done|]. split_and!; [done..|]. intros e _ He. by apply elem_of_nil in He.
Qed.

Lemma in_order_read inputs path now l :
  file_in_order inputs path now l → (exceptions_read inputs path now).1 = l.
Proof.
  intros (raw & Hr & Hd & Ha & Hk). unfold exceptions_read, parseExceptions. rewrite Hr, Hd.
  destruct (check_entries now [] l) as [valid problems] eqn:Hc. simpl.
  pose proof (check_entries_valid now [] l) as Hv. rewrite Hc in Hv. apply Hv.
  pose proof (check_entries_nil now [] l) as Hn. rewrite Hc in Hn. apply Hn.
  split_and!; [done..|]. intros e _ He. by apply elem_of_nil in He.
Qed.

(** ** The run *)

Definition exceptions_path (p : Parsed) : string := string_flag p "exceptions" "security/scan-exceptions.yaml".
Definition lock_path (p : Parsed) : string := string_flag p "pip-audit-lock" "security/pip-audit.requirements.txt".
Definition report_path (p : Parsed) (tool : string) : string := string_flag p (tool ++ "-report") "".

(** The security gate passes exactly when the arguments name known tools, the exceptions file
    could be read and every entry of it is complete, current, of a tool that takes exceptions and
    there once, and every selected tool ran, gave a report and found nothing that an entry of the
    same tool, naming its id or an alias of it, does not answer for.  A leaked secret has no such
    entry. *)
Lemma gate_passes_iff inputs now args :
  (run inputs now args).2 = exitPassed ↔
  ∃ p l, flag_Parse scan_flags args no_flags = Ok p ∧
    Forall (λ t, t ∈ knownTools) (selected_tools p) ∧
    file_in_order inputs (exceptions_path p) now l ∧
    Forall (λ t, tool_passes inputs (report_path p t) (lock_path p) l t) (selected_tools p).
Proof.
  unfold run. destruct (flag_Parse _ _ _) as [p|e]; [|by split; [|intros (? & ? & ? & _)]].
  destruct (forallb (contains knownTools) (selected_tools p)) eqn:Hk.
  2: { split; [done|]. intros (p' & l & [= <-] & Hs & _). rewrite <-not_true_iff_false in Hk. exfalso. apply Hk.
       apply forallb_forall. intros t Ht. apply contains_elem. rewrite Forall_forall in Hs. by apply Hs, list_elem_of_In. }
  assert (∀ t, t ∈ selected_tools p → t ∈ knownTools) as Hknown.
  { intros t Ht. apply contains_elem. rewrite forallb_forall in Hk. by apply Hk, list_elem_of_In. }
  cbn [negb]. pose proof (exceptions_read_pass inputs (exceptions_path p) now) as Hr.
  pose proof (in_order_read inputs (exceptions_path p) now) as Hread. fold (exceptions_path p) (lock_path p).
  destruct (exceptions_read inputs (exceptions_path p) now) as [l failures]. cbn [fst] in Hread.
  transitivity (file_in_order inputs (exceptions_path p) now l ∧
                Forall (λ t, tool_passes inputs (report_path p t) (lock_path p) l t) (selected_tools p)).
  - cbn [snd]. match goal with |- context [existsb is_failure ?x] => set (lines := x) end.
    transitivity (existsb is_failure lines = false); [by destruct (existsb is_failure lines)|]. subst lines.
    rewrite !no_failures_app, Hr, no_failures_concat, Forall_forall.
    setoid_rewrite tool_lines_pass. setoid_rewrite list_elem_of_In. setoid_rewrite filter_In.
    setoid_rewrite <-list_elem_of_In. setoid_rewrite contains_elem. pose proof (notes_pass). naive_solver.
  - split.
    + intros [Hf Ht]. exists p, l. split_and!; [done| |done..]. by apply Forall_forall.
    + intros (p' & l' & [= <-] & _ & Hf & Ht). rewrite (Hread _ Hf). done.
Qed.

(** ** What the reports say

    Nothing a tool reports as dangerous is left out of the findings. *)

(** The state of the stream knows a trace for exactly the ids it has listed. *)
Record listed (s : vulnState) : Prop := {
  li_order : ∀ id, id ∈ vs_order s ↔ is_Some (vs_best s !! id);
  li_trace : ∀ id v, vs_best s !! id = Some v → v.1 ≠ [] }.

Lemma called_nonempty trace : called trace = true → trace ≠ [].
Proof. by destruct trace. Qed.
Lemma listed_insert s id trace fixed order :
  listed s → trace ≠ [] → (∀ i, i ∈ order ↔ i = id ∨ i ∈ vs_order s) →
  listed (s <| vs_best := <[id := (trace, fixed)]> (vs_best s) |> <| vs_order := order |>).
Proof.
  intros [Ho Ht] Hne Horder. split; simpl.
  - intros i. rewrite Horder, Ho. destruct (decide (i = id)) as [->|Hi].
    + rewrite lookup_insert_eq. naive_solver.
    + rewrite lookup_insert_ne by done. naive_solver.
  - intros i v [[_ <-]|[_ Hv]]%lookup_insert_Some; [done|by apply (Ht i)].
Qed.

Lemma vuln_message_listed s m s' :
  vuln_message s m = Ok s' → listed s → listed s' ∧ ∀ id, id ∈ vs_order s → id ∈ vs_order s'.
Proof.
  unfold vuln_message. destruct (vm_error m); [done|].
  destruct (vm_config m); [by intros [= <-] []|].
  destruct (vm_osv m) as [[[id aliases] summary]|]; [by intros [= <-] []|].
  destruct (vm_finding m) as [[[id fixed] trace]|]; [|by intros [= <-]].
  destruct (called trace) eqn:Hc; simpl; [|by intros [= <-]]. apply called_nonempty in Hc.
  intros Hm Hl. destruct (vs_best s !! id) as [[current fixed']|] eqn:Hb.
  - destruct (_ <? _)%nat; injection Hm as <-; [|done]. split; [|done].
    apply (listed_insert s id trace fixed (vs_order s)); [done..|].
    intros i. split; [tauto|]. intros [->|?]; [|done]. apply (li_order _ Hl). by eexists.
  - injection Hm as <-. split; [apply listed_insert; [done..|]; set_solver|set_solver].
Qed.

(** A message that reports a vulnerable function the program reaches. *)
Definition reaches (m : vulnMessage) (id : string) : Prop :=
  vm_error m = None ∧ vm_config m = None ∧ vm_osv m = None ∧
  ∃ fixed trace, vm_finding m = Some (id, fixed, trace) ∧ called trace = true.

Lemma vuln_message_reaches s m s' id :
  vuln_message s m = Ok s' → listed s → reaches m id → id ∈ vs_order s'.
Proof.
  unfold vuln_message. intros Hm Hl (He & Hc & Ho & fixed & trace & Hf & Ht). rewrite He, Hc, Ho, Hf, Ht in Hm.
  cbn [negb] in Hm. destruct (vs_best s !! id) as [[current fixed']|] eqn:Hb.
  - assert (id ∈ vs_order s) by (apply (li_order _ Hl); by eexists).
    by destruct (_ <? _)%nat; injection Hm as <-.
  - injection Hm as <-. simpl. set_solver.
Qed.

Lemma vuln_messages_report l : ∀ s s',
  vuln_messages s l = Ok s' → listed s →
  listed s' ∧ (∀ id, id ∈ vs_order s → id ∈ vs_order s') ∧
  ∀ m id, Some m ∈ l → reaches m id → id ∈ vs_order s'.
Proof.
  induction l as [|[m|] l IH]; intros s s'; simpl; [intros [= <-] Hl|intros Hm Hl|done].
  { split_and!; [done..|]. by intros m id Hin%elem_of_nil. }
  destruct (vuln_message s m) as [s1|e] eqn:H1; [|done].
  destruct (vuln_message_listed _ _ _ H1 Hl) as [Hl1 Hmono1].
  destruct (IH _ _ Hm Hl1) as (Hl' & Hmono & Hall). split_and!; [done|auto|].
  intros m' id [[= ->]|Hin]%elem_of_cons Hr; [|by apply (Hall m')].
  by apply Hmono, (vuln_message_reaches _ _ _ _ H1).
Qed.

(** A finding of a tool with an id is among the results. *)
Definition reported (r : scanResult) (tool id : string) : Prop :=
  ∃ f, f ∈ sr_findings r ∧ fi_tool f = tool ∧ fi_id f = id.

Lemma parseGovulncheck_reports wd l r m id :
  parseGovulncheck wd l = Ok r → Some m ∈ l → reaches m id → reported r toolGovulncheck id.
Proof.
  unfold parseGovulncheck. destruct (vuln_messages _ l) as [s|e] eqn:Hm; [|done].
  assert (listed (mkVulnState None ∅ ∅ ∅ [])) as Hl.
  { split; simpl; [|done]. intros i. split; [by intros ?%elem_of_nil|by intros [? ?]]. }
  destruct (vuln_messages_report _ _ _ Hm Hl) as (Hl' & _ & Hall).
  destruct (vs_config s) as [[[go scanner] db]|]; [|done]. intros [= <-] Hin Hr.
  apply (Hall m id Hin) in Hr as Ho. destruct (proj1 (li_order _ Hl' id) Ho) as [[trace fixed] Hb].
  destruct trace as [|first trace]; [by apply (li_trace _ Hl') in Hb|].
  assert (∃ f, vuln_finding wd s id = [f] ∧ fi_tool f = toolGovulncheck ∧ fi_id f = id) as (f & Hf & Hft & Hfi)
    by (unfold vuln_finding; rewrite Hb; by eexists).
  exists f. split; [|done]. simpl. rewrite list_elem_of_In, in_concat. exists (vuln_finding wd s id).
  split; [apply in_map, list_elem_of_In, Ho|]. rewrite Hf. by left.
Qed.

Lemma parseGitleaks_reports decode data r leaks x :
  parseGitleaks decode data = Ok r → decode data = Some leaks → x ∈ leaks →
  reported r toolGitleaks (fi_id (leak_finding x)).
Proof.
  unfold parseGitleaks. case_bool_decide; [done|]. intros Hr Hd Hx. rewrite Hd in Hr. injection Hr as <-.
  exists (leak_finding x). split; [|done]. by apply (list_elem_of_fmap_2 leak_finding).
Qed.

(** pip-audit: a vulnerable package, or one it could not look at. *)
Lemma parsePipAudit_reports report r l dep f :
  parsePipAudit report = Ok r → report = Some (Some l) → dep ∈ l → f ∈ pip_findings dep → f ∈ sr_findings r.
Proof.
  intros Hr -> Hd Hf. injection Hr as <-. simpl. rewrite list_elem_of_In, in_concat in *.
  exists (pip_findings dep). split; [by apply in_map, list_elem_of_In|done].
Qed.
Lemma pip_findings_tool dep f : f ∈ pip_findings dep → fi_tool f = toolPipAudit.
Proof.
  unfold pip_findings. rewrite elem_of_app. intros [Hf|Hf].
  - case_bool_decide; [by apply elem_of_nil in Hf|]. by apply list_elem_of_singleton in Hf as ->.
  - by apply list_elem_of_fmap in Hf as (v & -> & _).
Qed.

(** A fold that may fail, with a promise about each element that later elements keep. *)
Lemma npm_fold_keeps {A S} (f : S → A → result parse_error S) (I : S → Prop) (Q : A → S → Prop) :
  (∀ s x s', I s → f s x = Ok s' → I s' ∧ Q x s' ∧ ∀ y, Q y s → Q y s') →
  ∀ l s s', I s → npm_fold f s l = Ok s' → I s' ∧ (∀ y, Q y s → Q y s') ∧ ∀ x, x ∈ l → Q x s'.
Proof.
  intros Hstep. induction l as [|x l IH]; intros s s' HI; simpl.
  { intros [= <-]. split_and!; [done..|]. by intros x ?%elem_of_nil. }
  destruct (f s x) as [s1|e] eqn:Hf; [|done]. intros Hl.
  destruct (Hstep _ _ _ HI Hf) as (HI1 & HQ & Hm). destruct (IH _ _ HI1 Hl) as (HI' & Hm' & Hall).
  split_and!; [done|auto|]. intros y [->|Hin]%elem_of_cons; auto.
Qed.

(** An advisory the gate is about: an entry of [via] that decodes into one, and of severity high or
    above.  An entry that does not decode is taken for the name of a dependency and skipped. *)
Definition severe (via : option advisory) (id : string) : Prop :=
  ∃ a rank, via = Some a ∧ id = advisory_id a ∧ (av_source a ≠ 0%Z ∨ av_url a ≠ "") ∧
    severityRank (av_severity a) = Some rank ∧ npmThreshold <= rank.
Definition seen_reported (acc : list Finding * list string) : Prop :=
  ∀ id, id ∈ acc.2 → ∃ f, f ∈ acc.1 ∧ fi_tool f = toolNpmAudit ∧ fi_id f = id.
Definition via_seen (via : option advisory) (acc : list Finding * list string) : Prop :=
  ∀ id, severe via id → id ∈ acc.2.

Lemma npm_advisory_keeps vuln acc via acc' :
  seen_reported acc → npm_advisory vuln acc via = Ok acc' →
  seen_reported acc' ∧ via_seen via acc' ∧ ∀ y, via_seen y acc → via_seen y acc'.
Proof.
  destruct acc as [findings seen]. unfold npm_advisory. intros HI. destruct via as [a|].
  2: { intros [= <-]. split_and!; [done| |done]. by intros id (? & ? & ? & _). }
  destruct ((av_source a =? 0)%Z && bool_decide (av_url a = "")) eqn:Hskip.
  { intros [= <-]. split_and!; [done| |done]. apply andb_true_iff in Hskip as [?%Z.eqb_eq ?%bool_decide_eq_true].
    intros id (? & ? & [= <-] & _ & ? & _). tauto. }
  destruct (severityRank (av_severity a)) as [rank|] eqn:Hrank; [|done].
  destruct ((rank <? npmThreshold)%nat || contains seen (advisory_id a)) eqn:Hknown; intros [= <-].
  - split_and!; [done| |done]. intros id (a' & rank' & [= <-] & -> & _ & Hr & Hle). simplify_eq.
    apply contains_elem. apply orb_true_iff in Hknown as [Hlt%Nat.ltb_lt|Hs]; [lia|done].
  - split_and!.
    + intros id [->|Hin]%elem_of_cons; simpl.
      * eexists. split; [apply elem_of_app; right; by apply list_elem_of_singleton|done].
      * destruct (HI id Hin) as (f & Hf & Hrest). exists f. split; [|done]. apply elem_of_app. by left.
    + intros id (a' & rank' & [= <-] & -> & _). by left.
    + intros y Hy id Hs. right. by apply (Hy id).
Qed.

Lemma parseNpmAudit_reports report r rep v via id :
  parseNpmAudit report = Ok r → report = Some rep → v ∈ np_vulnerabilities rep → via ∈ nv_via v → severe via id →
  reported r toolNpmAudit id.
Proof.
  intros Hr -> Hv Hvia Hs. unfold parseNpmAudit in Hr. destruct (np_error rep); [done|].
  destruct (np_version rep =? 0)%Z; [done|]. cbv zeta in Hr.
  set (by_name := merge_sort _ (np_vulnerabilities rep)) in Hr.
  destruct (npm_fold _ _ by_name) as [[findings seen]|] eqn:Hf; [|done]. injection Hr as <-.
  eapply (npm_fold_keeps _ seen_reported (λ v acc, ∀ via, via ∈ nv_via v → via_seen via acc)) in Hf
    as (HI & _ & Hall); [| |by intros ? ?%elem_of_nil].
  - destruct (HI id) as (f & Hin & Htool & Hid).
    { refine (Hall v _ via Hvia id Hs). subst by_name. by rewrite merge_sort_Permutation. }
    exists f. split; [|done]. simpl. by rewrite merge_sort_Permutation.
  - intros acc v' acc' HI Hin.
    destruct (npm_fold_keeps _ _ _ (npm_advisory_keeps v') _ _ _ HI Hin) as (HI' & Hm & Hall).
    split_and!; [done|done|]. intros y Hy w Hw. by apply Hm, Hy.
Qed.

(** ** The promise of the gate *)

(** What a report says of [id] that the gate must not let through. *)
Inductive dangerous (inputs : Inputs) (data : string) : string → string → Prop :=
| Reachable m id : Some m ∈ in_messages inputs data → reaches m id → dangerous inputs data toolGovulncheck id
| Secret leaks x :
  in_leaks inputs data = Some leaks → x ∈ leaks → dangerous inputs data toolGitleaks (fi_id (leak_finding x))
| Vulnerable l dep v :
  in_pip inputs data = Some (Some l) → dep ∈ l → v ∈ pd_vulns dep → dangerous inputs data toolPipAudit (pv_id v)
| Unaudited l dep :
  in_pip inputs data = Some (Some l) → dep ∈ l → pd_skip_reason dep ≠ "" →
  dangerous inputs data toolPipAudit ("pip-audit-skipped:" ++ pd_name dep)
| Severe rep v via id :
  in_npm inputs data = Some rep → v ∈ np_vulnerabilities rep → via ∈ nv_via v → severe via id →
  dangerous inputs data toolNpmAudit id.

Lemma danger_reported inputs data tool id r :
  dangerous inputs data tool id → parsers inputs tool data = Ok r → reported r tool id.
Proof.
  intros Hd Hr. destruct Hd as [m id Hm Hre|leaks x Hl Hx|l dep v Hl Hdep Hv|l dep Hl Hdep Hs|rep v via id Hn Hv Hvia Hs].
  - exact (parseGovulncheck_reports _ _ _ _ _ Hr Hm Hre).
  - exact (parseGitleaks_reports _ _ _ _ _ Hr Hl Hx).
  - exists (pip_vuln_finding dep v). split; [|done]. apply (parsePipAudit_reports _ _ _ dep _ Hr Hl Hdep).
    apply elem_of_app. right. by apply (list_elem_of_fmap_2 (pip_vuln_finding dep)).
  - eexists (mkFinding _ _ _ _ _). split; [|done]. apply (parsePipAudit_reports _ _ _ dep _ Hr Hl Hdep).
    apply elem_of_app. left. rewrite bool_decide_eq_false_2 by done. by apply list_elem_of_singleton.
  - exact (parseNpmAudit_reports _ _ _ _ _ _ Hr Hn Hv Hvia Hs).
Qed.


(** A run of govulncheck alone over a recorded report, with one reachable vulnerability that an
    entry accepts by its alias. *)
Definition sample_frame : vulnFrame := mkVulnFrame "stdlib" "v1.0.0" "net/http" "Serve" "" None.
Definition sample_message : vulnMessage :=
  mkVulnMessage None None None (Some ("GO-2026-0001", "v1.0.1", [sample_frame])).
Definition sample_inputs : Inputs :=
  mkInputs (λ path, Some path) (λ _ _, None) None
    (λ _, Some [mkException "CVE-2026-1" "govulncheck" "no fix yet" "platform" "2026-06-30"])
    (λ _, [Some (mkVulnMessage None (Some ("go1", "v1", "2026-01-01")) None None);
           Some (mkVulnMessage None None (Some ("GO-2026-0001", ["CVE-2026-1"], "a flaw")) None);
           Some sample_message])
    (λ _, None) (λ _, None) (λ _, None).
Definition sample_args : list string := ["-govulncheck-report"; "report.json"; "govulncheck"].
Definition sample_now : time := instant 2026 6 30 12 0 0 0.
Definition sample_parsed : Parsed := mkParsed [("govulncheck-report", "report.json")] [] ["govulncheck"].


(** The day after its date the same entry fails the run, whatever the tool says. *)
Example expired_entry_fails : (run sample_inputs (sample_now + Day)%Z sample_args).2 = exitFailed.
Proof. by vm_compute. Qed.

