(* ===== verification/Tenancy.v ===== *)
(** * Who may change what

    A request of the API, end to end: what it does to the database it does in one
    scope, that of its API key, of its worker key or of a live session, and only
    the admin listener writes keys. *)

From S2P Require Import Prelude.
From S2P Require Import GoText.
From S2P Require Import GoMarshal.
From S2P Require Import GoDecoder.
From S2P Require Import Schema.
From S2P Require Import Submit.
From S2P Require Import JobsStore.
From S2P Require Import Results.
From S2P Require Import WorkersTypes.
From S2P Require Import WorkersStore.
From S2P Require Import WorkersOutcome.
From S2P Require Import Keys.
From S2P Require Import Listing.
From S2P Require Import Hosts.
From S2P Require Import Api.
From S2P Require Import Access.
From S2P Require Import ControlHandlers.
From S2P Require Import PublicHandlers.
From S2P Require Import Dashboard.
From S2P Require Import Routes.
From S2P Require Import Transitions.
From S2P Require Import Refinement.
From S2P Require Import System.
From S2P Require Import Isolation.
From S2P Require Import Boundary.

Local Open Scope string_scope.

(** ** Handlers as relations on servers

    [changes R h]: whatever [h] answers, the server it leaves is [R]-related to the
    one it found. *)
Definition changes {A} (R : relation Server) (h : H A) : Prop := ∀ s, R s (h s).2.

Section changes.
Context (R : relation Server) `{!PreOrder R}.

Lemma changes_bind {A B} (h : H A) (f : A → H B) :
  changes R h → (∀ a, changes R (f a)) → changes R (h ≫= f).
Proof.
  intros Hh Hf s. unfold mbind, M_bind. specialize (Hh s). destruct (h s) as [[a|e] s'].
  - etrans; [exact Hh|apply Hf].
  - exact Hh.
Qed.

Lemma changes_ret {A} (a : A) : changes R (mret a).
Proof. intros s. reflexivity. Qed.
Lemma changes_throw {A} e : changes R (throw e : H A).
Proof. intros s. reflexivity. Qed.
Lemma changes_uuid text : changes R (uuid_parse text).
Proof. intros s. reflexivity. Qed.
Lemma changes_texts : changes R texts.
Proof. intros s. reflexivity. Qed.

Lemma changes_decode {A} cfg r (fields : list (field A)) zero : changes R (decode_json cfg r fields zero).
Proof. intros s. unfold decode_json. destruct (decode_body _ _ _ _) as [|[]]; reflexivity. Qed.

Lemma changes_answer (h : H Answer) s : changes R h → R s (answer h s).2.
Proof. intros Hh. unfold answer. specialize (Hh s). by destruct (h s) as [[] ?]. Qed.
End changes.


(** Down a handler: its calls remain. *)
Ltac handler :=
  repeat first
    [ apply changes_ret; apply _ | apply changes_throw; apply _ | apply changes_uuid; apply _
    | apply changes_texts; apply _ | apply changes_decode; apply _
    | (apply changes_bind; [apply _| |intros ?])
    | progress cbv beta zeta
    | match goal with
      | |- changes _ (match ?x with _ => _ end) => destruct x
      end ].

Section helpers.
Context (R : relation Server) `{!PreOrder R}.

Lemma changes_parse_ids inputs : changes R (parse_ids inputs).
Proof.
  induction inputs as [|[f v] inputs IH]; simpl; handler; done.
Qed.

Lemma changes_no_problems fields : changes R (no_problems fields).
Proof. unfold no_problems. handler. Qed.

Lemma changes_claim_request req : changes R (parseClaimRequest req).
Proof. intros s. unfold parseClaimRequest. destruct (ValidateClaim _ _).1 as [|[]]; reflexivity. Qed.

Lemma changes_idempotency_key r : changes R (idempotency_key r).
Proof. unfold idempotency_key. handler. Qed.

Lemma changes_path_id text : changes R (path_id text).
Proof. unfold path_id. handler. Qed.

Lemma changes_page_limit d m raw : changes R (page_limit d m raw).
Proof. unfold page_limit. handler. Qed.

Lemma changes_parseFence a f : changes R (parseFence a f).
Proof. apply changes_bind; [apply _|apply changes_parse_ids|]. intros []. handler. Qed.

Lemma changes_parse_outcome a f o : changes R (parse_outcome a f o).
Proof.
  apply changes_bind; [apply _|apply changes_parseFence|]. intros [].
  apply changes_bind; [apply _|apply changes_parse_ids|]. intros [].
  apply changes_bind; [apply _|apply changes_no_problems|]. intros []. handler.
Qed.

Lemma changes_parseRenewal l req : changes R (parseRenewalRequest l req).
Proof. apply changes_bind; [apply _|apply changes_parse_ids|]. intros []. handler. Qed.

Lemma changes_scope c : changes R (scopeOrUnauthorized c).
Proof. unfold scopeOrUnauthorized. handler. Qed.
Lemma changes_principal c : changes R (workerPrincipalFrom c).
Proof. unfold workerPrincipalFrom. handler. Qed.
End helpers.

(** ** The job database *)

Definition db_rel (R : relation DB) : relation Server := λ s s', R (db (sv_world s)) (db (sv_world s')).

#[export] Instance db_rel_preorder R : PreOrder R → PreOrder (db_rel R).
Proof.
  intros [Hr Ht]. split; [intros s; apply Hr|]. intros s1 s2 s3 H12 H23. unfold db_rel in *. by etrans.
Qed.

Lemma changes_store {A} (R : relation DB) `{!PreOrder R} (m : Tx A) refuse :
  effects R m → changes (db_rel R) (store m refuse).
Proof.
  intros Hm s. unfold store, db_rel. destruct (m (sv_world s)) as [r w] eqn:Hrun. apply Hm in Hrun.
  destruct (sv_faults s (sv_calls s)) as [[[] ?]|]; simpl; done.
Qed.

Lemma changes_api_keys {A} (R : relation DB) `{!PreOrder R} (m : K A) refuse :
  changes (db_rel R) (api_keys m refuse).
Proof. intros s. unfold api_keys, db_rel. destruct (m (sv_keys s)). reflexivity. Qed.
Lemma changes_worker_keys {A} (R : relation DB) `{!PreOrder R} (m : K A) refuse :
  changes (db_rel R) (worker_keys m refuse).
Proof. intros s. unfold worker_keys, db_rel. destruct (m (sv_worker_keys s)). reflexivity. Qed.

(** Listings and lookups read. *)
Definition reads_db {A} (m : Tx A) : Prop := ∀ w, db (m w).2 = db w.

Lemma reads_db_bind {A B} (m : Tx A) (f : A → Tx B) :
  reads_db m → (∀ a, reads_db (f a)) → reads_db (m ≫= f).
Proof.
  intros Hm Hf w. unfold mbind, M_bind. specialize (Hm w). destruct (m w) as [[a|e] w']; [|done].
  simpl in Hm. by rewrite Hf.
Qed.

(** One statement or choice at a time. *)
Ltac reading :=
  repeat first
    [ intros ?; reflexivity
    | apply reads_db_bind; [|intros ?]
    | progress cbv beta zeta
    | match goal with |- reads_db (match ?x with _ => _ end) => destruct x end ].

Lemma read_cursor_reads {A} (dec : string → option A) c : reads_db (read_cursor dec c).
Proof. unfold read_cursor. reading. Qed.

Lemma JobsStore_Get_reads scope id : reads_db (JobsStore.Get scope id).
Proof. intros w. apply job_in_scope_read. Qed.
Lemma Results_Get_reads scope id : reads_db (Results.Get scope id).
Proof. unfold Results.Get. reading. Qed.
Lemma SessionScope_reads id : reads_db (SessionScope id).
Proof. unfold SessionScope. reading. Qed.
Lemma ListJobs_reads scope f c n : reads_db (ListJobs scope f c n).
Proof.
  apply reads_db_bind; [unfold JobFilter_Validate; reading|intros []].
  apply reads_db_bind; [by intros ?|intros parse].
  apply reads_db_bind; [apply read_cursor_reads|intros after]. reading.
Qed.
Lemma ListDLQ_reads scope c n : reads_db (ListDLQ scope c n).
Proof.
  apply reads_db_bind; [by intros ?|intros parse].
  apply reads_db_bind; [apply read_cursor_reads|intros after]. reading.
Qed.
Lemma ListAttempts_reads scope id : reads_db (ListAttempts scope id).
Proof. unfold ListAttempts. reading. Qed.
Lemma ListWorkers_reads le scope c n : reads_db (ListWorkers le scope c n).
Proof. apply reads_db_bind; [apply read_cursor_reads|intros after]. reading. Qed.
Lemma ListQueues_reads le scope : reads_db (ListQueues le scope).
Proof. unfold ListQueues. reading. Qed.

(** ** Public handlers stay in their scope *)

Section public.
Context (sc : string).
Notation confined := (changes (db_rel (within sc))).

Lemma confined_reads {A} (m : Tx A) refuse : reads_db m → confined (store m refuse).
Proof. intros Hm. apply changes_store; [apply _|]. by apply within_reads. Qed.

Lemma handleSubmitJob_confined cfg r : confined (handleSubmitJob cfg r sc).
Proof.
  apply changes_bind; [apply _|apply changes_idempotency_key, _|intros key]. handler.
  apply changes_store; [apply _|apply Submit_within].
Qed.
Lemma handleCancelJob_confined job : confined (handleCancelJob job sc).
Proof.
  apply changes_bind; [apply _|apply changes_path_id, _|intros id]. handler.
  apply changes_store; [apply _|apply RequestCancel_within].
Qed.
Lemma handleReplayJob_confined r job : confined (handleReplayJob r job sc).
Proof.
  apply changes_bind; [apply _|apply changes_idempotency_key, _|intros key].
  apply changes_bind; [apply _|apply changes_path_id, _|intros id]. handler.
  apply changes_store; [apply _|apply Replay_within].
Qed.
Lemma handleGetJob_confined job : confined (handleGetJob job sc).
Proof.
  apply changes_bind; [apply _|apply changes_path_id, _|intros id]. handler.
  apply confined_reads, JobsStore_Get_reads.
Qed.
Lemma handleGetJobResult_confined cfg job : confined (handleGetJobResult cfg job sc).
Proof.
  unfold handleGetJobResult. destruct (negb _); [handler|].
  apply changes_bind; [apply _|apply changes_path_id, _|intros id]. handler.
  apply confined_reads, Results_Get_reads.
Qed.
Lemma handleListDLQ_confined r : confined (handleListDLQ r sc).
Proof.
  apply changes_bind; [apply _|apply changes_page_limit, _|intros n]. handler.
  apply confined_reads, ListDLQ_reads.
Qed.
Lemma handleListJobs_confined r : confined (handleListJobs r sc).
Proof.
  apply changes_bind; [apply _|apply changes_page_limit, _|intros n]. handler.
  apply confined_reads, ListJobs_reads.
Qed.
Lemma handleListJobAttempts_confined job : confined (handleListJobAttempts job sc).
Proof.
  apply changes_bind; [apply _|apply changes_path_id, _|intros n]. handler.
  apply confined_reads, ListAttempts_reads.
Qed.
Lemma handleListWorkers_confined cfg r : confined (handleListWorkers cfg r sc).
Proof.
  apply changes_bind; [apply _|apply changes_page_limit, _|intros n]. handler.
  apply confined_reads, ListWorkers_reads.
Qed.
Lemma handleListQueues_confined cfg : confined (handleListQueues cfg sc).
Proof. handler. apply confined_reads, ListQueues_reads. Qed.
End public.

(** ** Who a request acts as *)

(** The request carries a live worker key of [sc]. *)
Definition worker_authenticates (cfg : ServerConfig) (r : Request) (s : Server) (sc : string) : Prop :=
  has_worker_keys cfg = true ∧ ∃ credential p,
    bearerCredential (header_Get r authorizationHeader) = Some credential ∧
    (WorkerKeys.Authenticate credential (sv_worker_keys s)).1 = Ok p ∧ KeyStore.PrincipalScope p = sc.

(** The text of the session a worker-control request names: in the path of a
    heartbeat, in the body of the others. *)
Inductive names_session (cfg : ServerConfig) (r : Request) (text : string) : Prop :=
| named_by_heartbeat :
    rq_path r = ["internal"; "v1"; "worker-sessions"; text; "heartbeat"] → names_session cfg r text
| named_by_claim q :
    decode_body (MaxRequestBytes cfg) claim_fields (mkClaimBody "" "" "" "") (rq_body r) = Ok q →
    cb_worker_session_id q = text → names_session cfg r text
| named_by_renewal q :
    decode_body (MaxRequestBytes cfg) renew_fields (mkRenewRequest "" "" "" "" "" 0) (rq_body r) = Ok q →
    rl_worker_session_id q = text → names_session cfg r text
| named_by_start q :
    decode_body (MaxRequestBytes cfg) (fence_members id (λ f _, f)) zero_fence (rq_body r) = Ok q →
    fq_worker_session_id q = text → names_session cfg r text
| named_by_success q :
    decode_body (MaxRequestBytes cfg) succeed_fields (zero_fence, None) (rq_body r) = Ok q →
    fq_worker_session_id q.1 = text → names_session cfg r text
| named_by_failure q :
    decode_body (MaxRequestBytes cfg) fail_fields (mkFailRequest zero_fence "" "" "" "") (rq_body r) = Ok q →
    fq_worker_session_id (fa_fence q) = text → names_session cfg r text
| named_by_cancellation q :
    decode_body (MaxRequestBytes cfg) cancel_fields (zero_fence, "") (rq_body r) = Ok q →
    fq_worker_session_id q.1 = text → names_session cfg r text.

(** The request names [sid]. *)
Definition session_of (cfg : ServerConfig) (r : Request) (s : Server) (sid : uuid) : Prop :=
  ∃ text, names_session cfg r text ∧ uuid_Parse (sv_world s) text = Some sid.

(** The session [sid] is of [sc] and its worker key, if it has one, is confirmed live. *)
Definition live_session (cfg : ServerConfig) (s : Server) (sid : uuid) (sc : string) : Prop :=
  ∃ row, worker_sessions (db (sv_world s)) !! sid = Some row ∧ s_scope row = sc ∧
    ∀ id, s_worker_key_id row = Some id →
      has_worker_keys cfg = true ∧ (WorkerKeys.IsRevoked id (sv_worker_keys s)).1 = Ok false.

Definition acting (cfg : ServerConfig) (r : Request) (s : Server) (sc : string) : Prop :=
  authenticates cfg r s sc ∨ worker_authenticates cfg r s sc ∨
  ∃ sid, session_of cfg r s sid ∧ live_session cfg s sid sc.

(** [h] changes nothing of the database, or changes it in one scope that [P] allows. *)
Definition acts (P : string → Prop) {A} (h : H A) (s : Server) : Prop :=
  db (sv_world (h s).2) = db (sv_world s) ∨ ∃ sc, P sc ∧ db_rel (within sc) s (h s).2.

Lemma acts_still P {A} (h : H A) s : changes (db_rel eq) h → acts P h s.
Proof. intros Hh. left. symmetry. apply Hh. Qed.

(** Steps that leave the server as it is. *)
Lemma acts_after P {A B} (h : H A) (f : A → H B) s :
  changes eq h → (∀ a, h s = (Ok a, s) → acts P (f a) s) → acts P (h ≫= f) s.
Proof.
  intros Hh Hf. specialize (Hh s). unfold acts, mbind, M_bind in *.
  destruct (h s) as [[a|e] s']; simpl in *; subst s'; [by apply Hf|by left].
Qed.

Lemma acts_confined P {A} (h : H A) s sc : P sc → changes (db_rel (within sc)) h → acts P h s.
Proof. intros HP Hh. right. exists sc. split; [done|apply Hh]. Qed.

Lemma store_reads_world {A} (m : Tx A) refuse s r s' :
  reads_db m → store m refuse s = (r, s') →
  db (sv_world s') = db (sv_world s) ∧ sv_worker_keys s' = sv_worker_keys s.
Proof.
  intros Hm. unfold store. specialize (Hm (sv_world s)). destruct (m (sv_world s)) as [r0 w]. simpl in Hm.
  destruct (sv_faults s (sv_calls s)) as [[[] ?]|]; intros [= <- <-]; done.
Qed.

(** The scope of a session is that of its row. *)
Lemma resolve_live cfg sid s sc s' :
  resolveWorkerControlScope cfg sid s = (Ok sc, s') →
  db (sv_world s') = db (sv_world s) ∧ live_session cfg s sid sc.
Proof.
  intros ([scope key] & s1 & H1 & H)%bind_ok.
  destruct (store_reads_world _ _ _ _ _ (SessionScope_reads sid) H1) as [Hdb Hk].
  assert (∃ row, worker_sessions (db (sv_world s)) !! sid = Some row ∧ s_scope row = scope ∧
    s_worker_key_id row = key) as (row & Hrow & Hsc & Hkey).
  { unfold store, SessionScope, sql_get, mbind, M_bind in H1. simpl in H1.
    destruct (worker_sessions (db (sv_world s)) !! sid) as [row|]; simpl in H1;
      destruct (sv_faults s (sv_calls s)); try done. injection H1 as <- <- _. eauto. }
  destruct key as [id|].
  - destruct (has_worker_keys cfg) eqn:Hw; [|done]. simpl in H.
    apply bind_ok in H as (revoked & s2 & H2 & H). destruct revoked; [done|].
    apply ret_ok in H as [<- <-]. unfold worker_keys in H2. rewrite Hk in H2.
    destruct (WorkerKeys.IsRevoked id (sv_worker_keys s)) as [[b|] k] eqn:Hrev; [|done].
    injection H2 as -> <-. split; [exact Hdb|]. exists row. split_and!; [done..|].
    intros id' Hid. rewrite Hkey in Hid. injection Hid as <-. by rewrite Hrev.
  - apply ret_ok in H as [<- <-]. split; [done|]. exists row. split_and!; [done..|]. congruence.
Qed.

Lemma resolve_still cfg sid : changes (db_rel eq) (resolveWorkerControlScope cfg sid).
Proof.
  apply changes_bind; [apply _| |intros []].
  - apply changes_store; [apply _|]. apply effects_read; [apply _|apply SessionScope_reads].
  - handler. apply changes_worker_keys, _.
Qed.

Lemma acts_resolved cfg r sid {A} (f : string → H A) s :
  session_of cfg r s sid → (∀ sc, changes (db_rel (within sc)) (f sc)) →
  acts (acting cfg r s) (resolveWorkerControlScope cfg sid ≫= f) s.
Proof.
  intros Hsid Hf. unfold acts, mbind, M_bind.
  destruct (resolveWorkerControlScope cfg sid s) as [[sc|e] s'] eqn:Hr.
  - apply resolve_live in Hr as [Hdb Hlive]. right. exists sc. split; [right; right; by exists sid|].
    unfold db_rel. rewrite <-Hdb. apply Hf.
  - left. pose proof (resolve_still cfg sid s) as Hs. rewrite Hr in Hs. by symmetry.
Qed.

(** ** Worker control stays in the scope of its session *)

Section control.
Context (cfg : ServerConfig) (r : Request) (s : Server).
Notation acting_h h := (acts (acting cfg r s) h s).

(** A call of the store in the scope, then the answer. *)
Lemma confined_call {A} sc (m : Tx A) refuse (k : A → H Answer) :
  effects (within sc) m → (∀ a, changes (db_rel (within sc)) (k a)) →
  changes (db_rel (within sc)) (store m refuse ≫= k).
Proof. intros Hm Hk. apply changes_bind; [apply _|by apply changes_store; [apply _|]|done]. Qed.

(** The ids a handler goes on with are those of the texts it read. *)
Lemma decode_json_ok {A} (fields : list (field A)) zero a :
  decode_json cfg r fields zero s = (Ok a, s) → decode_body (MaxRequestBytes cfg) fields zero (rq_body r) = Ok a.
Proof. unfold decode_json. destruct (decode_body _ _ _ _) as [|[]]; [|done..]. by intros [= ->]. Qed.

Lemma parse_ids_ok inputs ids fields :
  parse_ids inputs s = (Ok (ids, fields), s) → fields = [] →
  map Some ids = map (λ i, uuid_Parse (sv_world s) i.2) inputs.
Proof.
  revert ids fields. induction inputs as [|[f v] inputs IH]; intros ids fields H ->; simpl in H.
  { apply ret_ok in H as [H _]. by simplify_eq. }
  apply bind_ok in H as (o & s1 & Ho & H). unfold uuid_parse in Ho. injection Ho as <- <-.
  apply bind_ok in H as ([ids' fields'] & s1 & Hrest & H). apply ret_ok in H as [H ->].
  destruct (uuid_Parse (sv_world s) v) as [id|] eqn:Hv; simplify_eq/=. f_equal; [done|by apply (IH _ [])].
Qed.

Lemma no_problems_ok fields u : no_problems fields s = (Ok u, s) → fields = [].
Proof. by destruct fields. Qed.

Lemma parseFence_session attempt request fence fields :
  parseFence attempt request s = (Ok (fence, fields), s) → fields = [] →
  uuid_Parse (sv_world s) (fq_worker_session_id request) = Some (f_session_id fence).
Proof.
  intros ([ids more] & s1 & Hp & [H ->]%ret_ok)%bind_ok ->. injection H as <- ->.
  apply parse_ids_ok in Hp; [|done]. destruct ids as [|i0 [|i1 [|i2 [|i3 [|i4 []]]]]]; simplify_eq/=. done.
Qed.

Lemma parse_outcome_session attempt request outcome fence oid :
  parse_outcome attempt request outcome s = (Ok (fence, oid), s) →
  uuid_Parse (sv_world s) (fq_worker_session_id request) = Some (f_session_id fence).
Proof.
  intros ([fence' fields] & s1 & H1 & H)%bind_ok.
  pose proof (changes_parseFence eq attempt request s) as E1. rewrite H1 in E1. simpl in E1. subst s1.
  apply bind_ok in H as ([ids more] & s2 & H2 & H).
  pose proof (changes_parse_ids eq [("outcome_request_id", outcome)] s) as E2. rewrite H2 in E2. simpl in E2. subst s2.
  apply bind_ok in H as ([] & s3 & H3 & [H ->]%ret_ok). simplify_eq.
  apply no_problems_ok, app_eq_nil in H3 as [Hf _]. by eapply parseFence_session.
Qed.

(** A handler that parses a fence acts for the session of that fence. *)
Lemma fence_acts attempt request fence fields sid :
  parseFence attempt request s = (Ok (fence, fields), s) → fields = [] →
  names_session cfg r (fq_worker_session_id request) → sid = f_session_id fence → session_of cfg r s sid.
Proof. intros Hp Hf Hn ->. exists (fq_worker_session_id request). split; [done|]. by eapply parseFence_session. Qed.

Lemma handleHeartbeat_acts session :
  rq_path r = ["internal"; "v1"; "worker-sessions"; session; "heartbeat"] →
  acting_h (handleHeartbeat cfg session r).
Proof.
  intros Hpath. apply acts_after; [apply changes_decode, _|intros worker _].
  apply acts_after; [apply changes_parse_ids, _|intros [ids fields] Hids].
  apply acts_after; [apply changes_no_problems, _|intros [] Hf%no_problems_ok]. cbv zeta.
  apply acts_resolved.
  - exists session. split; [by apply named_by_heartbeat|]. apply parse_ids_ok in Hids; [|done].
    destruct ids as [|i0 [|i1 []]]; simplify_eq/=. done.
  - intros sc. apply confined_call; [apply Heartbeat_within|intros a; handler].
Qed.
Lemma handleRenewLease_acts lease : acting_h (handleRenewLease cfg lease r).
Proof.
  apply acts_after; [apply changes_decode, _|intros request Hq%decode_json_ok].
  apply acts_after; [apply changes_parseRenewal, _|intros [req fields] Hreq].
  apply acts_after; [apply changes_no_problems, _|intros [] Hf%no_problems_ok].
  apply acts_resolved.
  - exists (rl_worker_session_id request). split; [by eapply named_by_renewal|].
    apply bind_ok in Hreq as ([ids more] & s1 & Hids & [Heq ->]%ret_ok). injection Heq as <- <-.
    apply app_eq_nil in Hf as [-> _]. apply parse_ids_ok in Hids; [|done].
    destruct ids as [|i0 [|i1 [|i2 [|i3 [|i4 [|i5 []]]]]]]; simplify_eq/=. done.
  - intros sc. apply confined_call; [apply RenewLease_within|intros a; handler].
Qed.
Lemma handleClaim_acts : acting_h (handleClaim cfg r).
Proof.
  apply acts_after; [apply changes_decode, _|intros request Hq%decode_json_ok].
  apply acts_after; [apply changes_claim_request, _|intros [req fields] Hreq].
  apply acts_after; [apply changes_no_problems, _|intros [] Hf%no_problems_ok].
  apply acts_resolved.
  - exists (cb_worker_session_id request). split; [by eapply named_by_claim|].
    unfold parseClaimRequest, ValidateClaim, validated in Hreq. simpl in Hreq.
    destruct (_ ++ _)%list as [|x more] eqn:Hv in Hreq; simpl in Hreq; simplify_eq/=.
    apply app_eq_nil in Hv as [_ Hv]. apply app_eq_nil in Hv as [Hv _]. unfold require_uuid in Hv.
    case_bool_decide as Hnil; [done|]. destruct (uuid_Parse _ (cb_worker_session_id request)); [done|]. by destruct Hnil.
  - intros sc. apply confined_call; [apply Claim_within|intros a; handler].
Qed.
Lemma handleStartAttempt_acts attempt : acting_h (handleStartAttempt cfg attempt r).
Proof.
  apply acts_after; [apply changes_decode, _|intros request Hq%decode_json_ok].
  apply acts_after; [apply changes_parseFence, _|intros [fence fields] Hp].
  apply acts_after; [apply changes_no_problems, _|intros [] Hf%no_problems_ok].
  apply acts_resolved; [eapply fence_acts; eauto using named_by_start|].
  intros sc. apply confined_call; [apply Start_within|intros a; handler].
Qed.
Lemma handleSucceedAttempt_acts attempt : acting_h (handleSucceedAttempt cfg attempt r).
Proof.
  apply acts_after; [apply changes_decode, _|intros request Hq%decode_json_ok].
  apply acts_after; [apply changes_parseFence, _|intros [fence fields] Hp].
  destruct (parseResultPayload cfg request.2) as [result more].
  apply acts_after; [apply changes_no_problems, _|intros [] [Hf _]%no_problems_ok%app_eq_nil].
  apply acts_resolved; [eapply fence_acts; eauto using named_by_success|].
  intros sc. apply confined_call; [apply Succeed_within|intros a; handler].
Qed.
Lemma handleFailAttempt_acts attempt : acting_h (handleFailAttempt cfg attempt r).
Proof.
  apply acts_after; [apply changes_decode, _|intros request Hq%decode_json_ok].
  apply acts_after; [apply changes_parse_outcome, _|intros [fence outcome] Hp%parse_outcome_session]. cbv zeta.
  apply acts_resolved; [eexists; split; [by eapply named_by_failure|done]|].
  intros sc. apply confined_call; [apply Fail_within|intros a; handler].
Qed.
Lemma handleCancelAttempt_acts attempt : acting_h (handleCancelAttempt cfg attempt r).
Proof.
  apply acts_after; [apply changes_decode, _|intros request Hq%decode_json_ok].
  apply acts_after; [apply changes_parse_outcome, _|intros [fence outcome] Hp%parse_outcome_session].
  apply acts_resolved; [eexists; split; [by eapply named_by_cancellation|done]|].
  intros sc. apply confined_call; [apply AcknowledgeCancellation_within|intros a; handler].
Qed.

(** Registration acts as the worker key. *)
Lemma handleRegister_confined session p s1 :
  sessions_bound (db (sv_world s1)) →
  db_rel (within (KeyStore.PrincipalScope p)) s1 (handleRegisterWorkerSession cfg session r p s1).2.
Proof using.
  intros Hb. assert (∀ A (h : H A) (f : A → H Answer), changes eq h →
    (∀ a, db_rel (within (KeyStore.PrincipalScope p)) s1 (f a s1).2) →
    db_rel (within (KeyStore.PrincipalScope p)) s1 ((h ≫= f) s1).2) as Hafter.
  { intros A h f Hh Hf. specialize (Hh s1). unfold mbind, M_bind. destruct (h s1) as [[a|e] s2]; simpl in *;
      subst s2; [apply Hf|reflexivity]. }
  apply Hafter; [apply changes_uuid, _|]. intros [sid|]; [|reflexivity].
  apply Hafter; [apply changes_decode, _|]. intros request. unfold mbind at 1, M_bind at 1, store.
  destruct (Register _ _ (sv_world s1)) as [r0 w] eqn:Hreg. apply Register_within in Hreg; [|done].
  destruct (sv_faults s1 (sv_calls s1)) as [[[] ?]|]; [exact Hreg|apply within_preorder|].
  destruct r0; exact Hreg.
Qed.
End control.

(** ** Every route *)

Lemma acts_ext P {A B} (h : H A) (h' : H B) s : (h s).2 = (h' s).2 → acts P h' s → acts P h s.
Proof. unfold acts. by intros ->. Qed.

Lemma acts_public cfg r s (h : string → H Answer) :
  (∀ sc, changes (db_rel (within sc)) (h sc)) → acts (acting cfg r s) (requireAPIKey cfg r h) s.
Proof.
  intros Hh. destruct (requireAPIKey_cases cfg r h s) as [(a & s' & Ha & (Hw & _) & _)|(sc & s' & Hauth & (Hw & _) & Hrun)];
    unfold acts; rewrite ?Ha, ?Hrun.
  - left. simpl. by rewrite Hw.
  - right. exists sc. split; [by left|]. unfold db_rel. rewrite <-Hw. apply Hh.
Qed.

Lemma acts_guard P rule r (h : H Answer) s : acts P h s → acts P (refuseBrowserOrigin rule r h) s.
Proof. unfold refuseBrowserOrigin. destruct (browserOriginRuleFor r rule); [by left|done]. Qed.

Lemma acts_worker_key cfg r s (h : KeyStore.Principal → H Answer) :
  (∀ p s1, db (sv_world s1) = db (sv_world s) → db_rel (within (KeyStore.PrincipalScope p)) s1 (h p s1).2) →
  acts (acting cfg r s) (requireWorkerKey cfg r h) s.
Proof.
  intros Hh. unfold requireWorkerKey, acts. destruct (has_worker_keys cfg) eqn:Hw; [|by left]. simpl.
  destruct (bearerCredential _) as [c|] eqn:Hc; [|by left]. unfold mbind, M_bind, worker_keys.
  destruct (WorkerKeys.Authenticate c (sv_worker_keys s)) as [[p|e] k] eqn:Ha; [|by left].
  right. exists (KeyStore.PrincipalScope p). split.
  2: { pose (s1 := s <| sv_worker_keys := k |>). exact (Hh p s1 eq_refl). }
  right; left. split; [done|]. exists c, p. by rewrite Ha.
Qed.

Lemma changes_key_admin (R : relation DB) `{!PreOrder R} (keys : ∀ A, K A → (key_error → Answer) → H A) cfg r key :
  (∀ A m refuse, changes (db_rel R) (keys A m refuse)) →
  changes (db_rel R) (handleCreateKey keys cfg r) ∧ changes (db_rel R) (handleRevokeKey keys key) ∧
  changes (db_rel R) (handleListKeys keys r).
Proof.
  intros Hk. split_and!.
  - unfold handleCreateKey. handler. apply Hk.
  - unfold handleRevokeKey. handler. apply Hk.
  - apply changes_bind; [apply _|apply changes_page_limit, _|intros n]. handler. apply Hk.
Qed.

(** A route: what it does, wrapped, for any path values. *)
Definition route_acts (cfg : ServerConfig) (r : Request) (s : Server) (rt : route) : Prop :=
  ∀ rule h values, match_segments (read_pattern (r_path rt)).2 (rq_path r) = Some values →
    wrap cfg (r_chain rt) rule (r_handler rt) = Some h →
    acts (acting cfg r s) (h (mkCtx None None values) r) s.

Lemma public_route cfg r s method path (h : Ctx → Request → string → H Answer) :
  (∀ c sc, changes (db_rel (within sc)) (h c r sc)) → route_acts cfg r s (public method path h).
Proof.
  intros Hh rule h' values _ [= <-]. apply acts_public. intros sc s0. exact (Hh _ sc s0).
Qed.

Lemma still_route cfg r s method path srf ch g ls h nf :
  (∀ ctx, changes (db_rel eq) (h ctx r)) → ch = chainNone ∨ ch = chainGuard →
  route_acts cfg r s (mkRoute method path srf (Some ch) g ls h nf).
Proof.
  intros Hh [-> | ->] rule h' values _ [= <-]; [|apply acts_guard]; by apply acts_still.
Qed.

Lemma control_route cfg r s method path h :
  (∀ values, match_segments (read_pattern path).2 (rq_path r) = Some values →
    acts (acting cfg r s) (h (mkCtx None None values) r) s) →
  route_acts cfg r s (control method path chainGuard h).
Proof. intros Hh rule h' values Hm [= <-]. by apply acts_guard, Hh. Qed.

Lemma heartbeat_path path values :
  match_segments (read_pattern "/internal/v1/worker-sessions/{worker_session_id}/heartbeat").2 path = Some values →
  path = ["internal"; "v1"; "worker-sessions"; PathValue (mkCtx None None values) "worker_session_id"; "heartbeat"].
Proof.
  intros H. vm_compute (read_pattern _) in H.
  destruct path as [|x0 [|x1 [|x2 [|x3 [|x4 [|x5 path]]]]]]; simpl in H;
    repeat (case_bool_decide; simplify_eq/=); done.
Qed.

Lemma register_route cfg r s method path :
  sessions_bound (db (sv_world s)) →
  route_acts cfg r s (control method path chainGuardWorkerKey
    (λ c r, p ← workerPrincipalFrom c;
            handleRegisterWorkerSession cfg (PathValue c "worker_session_id") r p)).
Proof.
  intros Hb rule h' values _ [= <-]. apply acts_guard, acts_worker_key. intros p s1 Hs1. cbn [c_principal].
  refine (handleRegister_confined cfg r _ p s1 _). by rewrite Hs1.
Qed.

Lemma routeTable_acts cfg r s :
  sessions_bound (db (sv_world s)) → Forall (route_acts cfg r s) (routeTable cfg).
Proof.
  intros Hb.
  pose proof (λ key, changes_key_admin eq (@api_keys) cfg r key (λ A, changes_api_keys eq)) as Ha.
  pose proof (λ key, changes_key_admin eq (@worker_keys) cfg r key (λ A, changes_worker_keys eq)) as Hw.
  repeat (apply Forall_cons; split); [..|apply Forall_nil; exact I].
  all: first
    [ apply register_route; exact Hb
    | apply public_route; intros c sc;
      first [apply handleSubmitJob_confined|apply handleListJobs_confined|apply handleGetJob_confined
            |apply handleListJobAttempts_confined|apply handleGetJobResult_confined
            |apply handleCancelJob_confined|apply handleReplayJob_confined|apply handleListDLQ_confined
            |apply handleListWorkers_confined|apply handleListQueues_confined]
    | apply control_route; intros c Hm;
      first [apply handleHeartbeat_acts; by apply heartbeat_path|apply handleClaim_acts|apply handleRenewLease_acts
            |apply handleStartAttempt_acts|apply handleSucceedAttempt_acts|apply handleFailAttempt_acts
            |apply handleCancelAttempt_acts]
    | apply still_route; [intros c|auto];
      first [apply (Ha "")|apply Ha|apply (Hw "")|apply Hw|unfold handleReadiness, handleDashboard, handleDashboardRoot, handleNotFound;
             handler; fail] ].
Qed.

(** What answers a request on a listener of the server. *)
Lemma serve_cases cfg l r s a s' :
  serve cfg l r s = Some (a, s') →
  s' = s ∨
  ∃ rt rule h values, rt ∈ routeTable cfg ∧ has (r_listeners rt) l = true ∧
    match_segments (read_pattern (r_path rt)).2 (rq_path r) = Some values ∧
    wrap cfg (r_chain rt) rule (r_handler rt) = Some h ∧
    s' = (answer (h (mkCtx None None values) r) s).2.
Proof.
  unfold serve. intros (mux & Hmux & H)%bind_Some. injection H as H.
  assert (s' = (answer (ServeHTTP mux r) s).2) as -> by (by rewrite H). clear H a.
  destruct (ServeHTTP_cases mux r) as [(st & _ & ->)|(e & bs & Hin & Hm & ->)]; [by left|].
  destruct (registerRoutes_in _ _ _ _ _ Hmux Hin) as (_ & _ & rule & _ & Hcase).
  destruct Hcase as [(rt & Hrt & _ & Hon & Hr)|[(fb & Hfb & Hr)| ->]]; [| |by left].
  - right. apply register_ok in Hr as (h & Hw & ->). exists rt, rule, h, bs. done.
  - left. apply register_ok in Hr as (h & Hw & ->). apply fallback_path in Hfb as [_ Hc].
    simpl. destruct Hc as [Hc|Hc]; rewrite Hc in Hw; injection Hw as <-; [|done].
    unfold answer, refuseBrowserOrigin. by destruct (browserOriginRuleFor r rule).
Qed.

Lemma answer_state (h : H Answer) s : (answer h s).2 = (h s).2.
Proof. unfold answer. by destruct (h s) as [[] ?]. Qed.

(** ** Keys *)

Definition keys_kept (s s' : Server) : Prop :=
  key_rows (sv_keys s') = key_rows (sv_keys s) ∧
  key_rows (sv_worker_keys s') = key_rows (sv_worker_keys s).

#[export] Instance keys_kept_preorder : PreOrder keys_kept.
Proof. split; [by intros s|]. intros s1 s2 s3 [H1 H2] [H3 H4]. split; congruence. Qed.

Lemma kept_store {A} (m : Tx A) refuse : changes keys_kept (store m refuse).
Proof.
  intros s. unfold store. destruct (m (sv_world s)). by destruct (sv_faults s (sv_calls s)) as [[[] ?]|].
Qed.
Lemma kept_worker_keys {A} (m : K A) refuse : reads_keys m → changes keys_kept (worker_keys m refuse).
Proof. intros Hm s. unfold worker_keys. specialize (Hm (sv_worker_keys s)). by destruct (m (sv_worker_keys s)). Qed.
Lemma kept_api_keys {A} (m : K A) refuse : reads_keys m → changes keys_kept (api_keys m refuse).
Proof. intros Hm s. unfold api_keys. specialize (Hm (sv_keys s)). by destruct (m (sv_keys s)). Qed.

Lemma IsRevoked_reads id : reads_keys (WorkerKeys.IsRevoked id).
Proof. apply reads_keys_statement. intros w. by case_match. Qed.

Lemma changes_wrap (R : relation Server) `{!PreOrder R} cfg c rule (h h' : handler) r ctx :
  (∀ credential refuse, changes R (api_keys (KeyStore.Authenticate credential) refuse)) →
  (∀ credential refuse, changes R (worker_keys (WorkerKeys.Authenticate credential) refuse)) →
  wrap cfg c rule h = Some h' → (∀ ctx, changes R (h ctx r)) → changes R (h' ctx r).
Proof.
  intros Ha Hk Hw Hh. destruct c as [c|]; [|done].
  destruct c; injection Hw as <-; unfold refuseBrowserOrigin, requireAPIKey, requireWorkerKey.
  - done.
  - handler; [|apply Hh]. apply Ha.
  - handler. apply Hh.
  - handler; [|apply Hh]. apply Hk.
Qed.

(** The calls of a handler that touches the job store and sessions, and no more. *)
Ltac kept_call :=
  first [apply kept_store | apply kept_worker_keys, IsRevoked_reads | apply changes_parse_ids; apply _
        | apply changes_parseFence; apply _ | apply changes_parse_outcome; apply _
        | apply changes_parseRenewal; apply _ | apply changes_claim_request; apply _
        | apply changes_no_problems; apply _ | apply changes_idempotency_key; apply _
        | apply changes_path_id; apply _ | apply changes_page_limit; apply _
        | apply changes_scope; apply _ | apply changes_principal; apply _ ].

Lemma routeTable_keeps_keys cfg r :
  Forall (λ rt, r_listeners rt = adminOnly ∧ (∀ ctx, changes (db_rel eq) (r_handler rt ctx r)) ∨
                ∀ ctx, changes keys_kept (r_handler rt ctx r)) (routeTable cfg).
Proof.
  pose proof (λ key, changes_key_admin eq (@api_keys) cfg r key (λ A, changes_api_keys eq)) as Ha.
  pose proof (λ key, changes_key_admin eq (@worker_keys) cfg r key (λ A, changes_worker_keys eq)) as Hw.
  repeat (apply Forall_cons; split); [..|apply Forall_nil; exact I].
  all: first [left; split; [reflexivity|intros ctx; first [apply (Ha "")|apply Ha|apply (Hw "")|apply Hw]]
             |right; intros ctx; cbn [r_handler public probe control unlisted]].
  all: unfold scoped, handleSubmitJob, handleListJobs, handleGetJob, handleListJobAttempts, handleGetJobResult,
    handleCancelJob, handleReplayJob, handleListDLQ, handleListWorkers, handleListQueues, handleLiveness,
    handleReadiness, handleRegisterWorkerSession, handleHeartbeat, handleClaim, handleRenewLease,
    handleStartAttempt, handleSucceedAttempt, handleFailAttempt, handleCancelAttempt, pageLimit,
    handleDashboard, handleDashboardRoot, handleNotFound;
    handler; kept_call.
Qed.

(** What a request does to the keys: nothing, or it is served by the admin listener
    and does nothing else. *)
Lemma serve_keys cfg l r s a s' :
  serve cfg l r s = Some (a, s') →
  keys_kept s s' ∨ l = ListenerAdmin ∧ db (sv_world s') = db (sv_world s).
Proof.
  intros [->|(rt & rule & h & values & Hrt & Hon & _ & Hw & ->)]%serve_cases; [by left|].
  pose proof (routeTable_keeps_keys cfg r) as Hall. rewrite Forall_forall in Hall. rewrite answer_state.
  destruct (Hall rt Hrt) as [[Hadmin Hdb]|Hkeep].
  - right. rewrite Hadmin in Hon. split; [by destruct l|]. symmetry.
    apply (changes_wrap (db_rel eq) _ _ _ _ _ r _
             (λ _ _, changes_api_keys eq _ _) (λ _ _, changes_worker_keys eq _ _) Hw Hdb).
  - left. apply (changes_wrap keys_kept _ _ _ _ _ r _
      (λ c _, kept_api_keys _ _ (Authenticate_reads c)) (λ c _, kept_worker_keys _ _ (Authenticate_reads c)) Hw Hkeep).
Qed.

(** Only the admin listener writes keys.  No request on the public or the
    control listener, whatever it carries, creates, revokes or changes a row of
    either key table. *)
Theorem network_cannot_write_keys cfg l r s a s' :
  l ≠ ListenerAdmin → serve cfg l r s = Some (a, s') → keys_kept s s'.
Proof. intros Hl [?|[? _]]%serve_keys; done. Qed.

