(* ===== verification/RunnerTheorems.v ===== *)
(** * What a worker does with a delivery

    The calls of a delivery in their order, over any control plane; the registry
    that carries cancellations; the flights that keep duplicates apart; the loops
    that keep authority provable. *)

From S2P Require Import Prelude.
From S2P Require Import GoText.
From S2P Require Import GoTime.
From S2P Require Import Schema.
From S2P Require Import Lifecycle.
From S2P Require Import Notification.
From S2P Require Import Results.
From S2P Require Import WorkersTypes.
From S2P Require Import Keys.
From S2P Require Import Client.
From S2P Require Import Handlers.
From S2P Require Import Runner.

Local Open Scope string_scope.

(** ** Traces *)

Section traces.
Context {St : Type} `{ControlPlane St}.
Abbreviation P := (M (Process St) call_error).

(** [emits Q m]: [m] adds actions to the log, and they and its result satisfy [Q]. *)
Definition emits {A} (Q : result call_error A → list action → Prop) (m : P A) : Prop :=
  ∀ p, ∃ l, pr_log (m p).2 = (pr_log p ++ l)%list ∧ Q (m p).1 l.

Lemma emits_mono {A} (Q Q' : result call_error A → list action → Prop) m :
  emits Q m → (∀ r l, Q r l → Q' r l) → emits Q' m.
Proof. intros Hm HQ p. destruct (Hm p) as (l & Hl & Hq). exists l. auto. Qed.

Lemma emits_bind {A B} (Q : result call_error A → list action → Prop)
    (Q' : result call_error B → list action → Prop) (m : P A) (f : A → P B) :
  emits Q m → (∀ e l, Q (Err e) l → Q' (Err e) l) →
  (∀ a l, Q (Ok a) l → emits (λ r l', Q' r (l ++ l')%list) (f a)) →
  emits Q' (m ≫= f).
Proof.
  intros Hm He Hf p. destruct (Hm p) as (l & Hl & Hq). unfold mbind, M_bind.
  destruct (m p) as [[a|e] p'] eqn:Hrun; simpl in *.
  - destruct (Hf a l Hq p') as (l' & Hl' & Hq'). exists (l ++ l')%list. split; [|done].
    by rewrite Hl', Hl, app_assoc.
  - exists l. auto.
Qed.

(** Steps that call nobody. *)
Definition quiet {A} (m : P A) : Prop := ∀ p, pr_log (m p).2 = pr_log p.

Lemma emits_quiet {A} (m : P A) (Q : result call_error A → list action → Prop) :
  quiet m → (∀ r, Q r []) → emits Q m.
Proof. intros Hm HQ p. exists []. by rewrite app_nil_r. Qed.

Lemma emits_ret {A} (a : A) (Q : result call_error A → list action → Prop) :
  Q (Ok a) [] → emits Q (mret a).
Proof. intros HQ p. exists []. by rewrite app_nil_r. Qed.

(** A quiet step that cannot fail, then the rest. *)
Definition sure {A} (m : P A) : Prop := ∀ p, ∃ a p', m p = (Ok a, p') ∧ pr_log p' = pr_log p.

Lemma emits_after {A B} (m : P A) (f : A → P B) (Q : result call_error B → list action → Prop) :
  sure m → (∀ a, emits Q (f a)) → emits Q (m ≫= f).
Proof.
  intros Hm Hf p. destruct (Hm p) as (a & p' & Hrun & Hl). unfold mbind, M_bind. rewrite Hrun.
  destruct (Hf a p') as (l & Hl' & HQ). exists l. by rewrite Hl', Hl.
Qed.

Lemma sure_bind {A B} (m : P A) (f : A → P B) : sure m → (∀ a, sure (f a)) → sure (m ≫= f).
Proof.
  intros Hm Hf p. destruct (Hm p) as (a & p1 & H1 & L1). destruct (Hf a p1) as (b & p2 & H2 & L2).
  exists b, p2. unfold mbind, M_bind. rewrite H1. split; [done|congruence].
Qed.

Lemma sure_ret {A} (a : A) : sure (mret a).
Proof. intros p. eauto. Qed.
Lemma sure_now : sure r_now.
Proof. intros p. do 2 eexists. by split. Qed.
Lemma sure_over : sure ctx_over.
Proof. intros p. do 2 eexists. by split. Qed.
Lemma sure_uuid : sure r_uuid.
Proof. intros p. do 2 eexists. by split. Qed.
Lemma sure_context : sure new_context.
Proof. intros p. do 2 eexists. by split. Qed.
Lemma sure_beats : sure beats.
Proof. intros p. unfold beats. destruct (deliver_all _ _ _). do 2 eexists. by split. Qed.
Lemma sure_use {A} (f : attempts → attempts * A) : sure (use f).
Proof.
  apply sure_bind; [apply sure_beats|]. intros _ p. unfold on_registry. destruct (f _). do 2 eexists. by split.
Qed.
Lemma sure_share {A} (f : flights → flights * A) : sure (share f).
Proof. intros p. unfold share. destruct (f _). do 2 eexists. by split. Qed.
Lemma sure_bind_context id ctx : sure (bind_context id ctx).
Proof.
  apply sure_bind; [apply sure_use|]. intros []; [|apply sure_ret]. intros p. do 2 eexists. by split.
Qed.
Lemma sure_user_canceled ctx : sure (user_canceled ctx).
Proof. apply sure_bind; [apply sure_beats|]. intros _ p. do 2 eexists. by split. Qed.
Lemma sure_first_cause l : sure (first_cause l).
Proof. intros p. do 2 eexists. by split. Qed.
Lemma sure_handler_cause ctx lost deadline : sure (handler_cause ctx lost deadline).
Proof.
  apply sure_bind; [apply sure_user_canceled|intros user]. apply sure_bind; [apply sure_over|intros over].
  apply sure_bind; [apply sure_over|intros late]. apply sure_bind; [apply sure_now|intros t].
  apply sure_first_cause.
Qed.

(** A step whose error is a value. *)
Lemma emits_try {A B} (Q : result call_error A → list action → Prop)
    (Q' : result call_error B → list action → Prop) (m : P A) (f : result call_error A → P B) :
  emits Q m → (∀ r l, Q r l → emits (λ r' l', Q' r' (l ++ l')%list) (f r)) → emits Q' (attempt m ≫= f).
Proof.
  intros Hm Hf p. destruct (Hm p) as (l & Hl & Hq). unfold attempt, mbind, M_bind.
  destruct (m p) as [r p']. simpl in *. destruct (Hf r l Hq p') as (l' & Hl' & Hq').
  exists (l ++ l')%list. split; [|done]. by rewrite Hl', Hl, app_assoc.
Qed.

Lemma emits_throw {A} e (Q : result call_error A → list action → Prop) : Q (Err e) [] → emits Q (throw e).
Proof. intros HQ p. exists []. by rewrite app_nil_r. Qed.

(** ** Tries

    The calls of [retry], each with the same arguments: some that failed and may be
    repeated, and the one whose answer counts. *)
Inductive tries {A} (act : result call_error A → action) : nat → list action → result call_error A → Prop :=
| tries_end n r : tries act n [act r] r
| tries_over n e : retryable e = true → tries act (S n) [act (Err e)] (Err OtherError)
| tries_more n e l r : retryable e = true → tries act n l r → tries act (S n) (act (Err e) :: l) r.

Lemma emits_recorded {A} (act : result call_error A → action) (m : P A) :
  quiet m → emits (λ r l, l = [act r]) (recorded act m).
Proof.
  intros Hm p. unfold recorded, attempt, mbind, M_bind. specialize (Hm p).
  destruct (m p) as [r p']. simpl in *. exists [act r]. by destruct r; simpl; rewrite Hm.
Qed.

Lemma quiet_control {A} (m : M St call_error A) : quiet (control_call m).
Proof. intros p. unfold control_call. by destruct (m (pr_control p)). Qed.

Lemma emits_call {A} act (m : M St call_error A) : emits (λ r l, l = [act r]) (call act m).
Proof. apply emits_recorded, quiet_control. Qed.

Lemma emits_retry {A} act n (m : P A) :
  emits (λ r l, l = [act r]) m → emits (λ r l, tries act n l r) (retry n m).
Proof.
  intros Hm. induction n as [|n IH]; simpl; eapply emits_try; try exact Hm; intros [a|e] l ->.
  - apply emits_ret. constructor.
  - apply emits_throw. constructor.
  - apply emits_ret. constructor.
  - destruct (retryable e) eqn:Hr; simpl; [|apply emits_throw; constructor].
    apply emits_after; [apply sure_bind; [apply sure_over|intros; apply sure_ret]|]. intros [].
    + eapply emits_mono; [exact IH|]. intros r l Hl. simpl. by constructor.
    + apply emits_throw. by constructor.
Qed.

(** [gives Q m]: [m] returns, and its value and what it adds to the log satisfy [Q]. *)
Definition gives {A} (Q : A → list action → Prop) (m : P A) : Prop :=
  ∀ p, ∃ a p' l, m p = (Ok a, p') ∧ pr_log p' = (pr_log p ++ l)%list ∧ Q a l.

Lemma gives_mono {A} (Q Q' : A → list action → Prop) m :
  gives Q m → (∀ r l, Q r l → Q' r l) → gives Q' m.
Proof. intros Hm HQ p. destruct (Hm p) as (a & p' & l & ? & ? & ?). exists a, p', l. auto. Qed.

Lemma gives_bind {A B} (Q : A → list action → Prop) (Q' : B → list action → Prop) (m : P A) (f : A → P B) :
  gives Q m → (∀ a l, Q a l → gives (λ r l', Q' r (l ++ l')%list) (f a)) → gives Q' (m ≫= f).
Proof.
  intros Hm Hf p. destruct (Hm p) as (a & p1 & l & H1 & L1 & Hq).
  destruct (Hf a l Hq p1) as (b & p2 & l' & H2 & L2 & Hq'). exists b, p2, (l ++ l')%list.
  unfold mbind, M_bind. rewrite H1. split; [done|]. split; [|done]. by rewrite L2, L1, app_assoc.
Qed.

Lemma gives_ret {A} (a : A) (Q : A → list action → Prop) : Q a [] → gives Q (mret a).
Proof. intros HQ p. exists a, p, []. by rewrite app_nil_r. Qed.

Lemma gives_after {A B} (m : P A) (f : A → P B) (Q : B → list action → Prop) :
  sure m → (∀ a, gives Q (f a)) → gives Q (m ≫= f).
Proof.
  intros Hm Hf p. destruct (Hm p) as (a & p' & Hrun & Hl). destruct (Hf a p') as (b & p2 & l & H2 & L2 & HQ).
  exists b, p2, l. unfold mbind, M_bind. rewrite Hrun. split; [done|]. split; [|done]. by rewrite L2, Hl.
Qed.

(** A call whose error is a value. *)
Lemma gives_try {A B} (Q : result call_error A → list action → Prop)
    (Q' : B → list action → Prop) (m : P A) (f : result call_error A → P B) :
  emits Q m → (∀ r l, Q r l → gives (λ r' l', Q' r' (l ++ l')%list) (f r)) → gives Q' (attempt m ≫= f).
Proof.
  intros Hm Hf p. destruct (Hm p) as (l & Hl & Hq). unfold attempt, mbind, M_bind.
  destruct (m p) as [r p']. simpl in *. destruct (Hf r l Hq p') as (b & p2 & l' & H2 & L2 & Hq').
  exists b, p2, (l ++ l')%list. split; [done|]. split; [|done]. by rewrite L2, Hl, app_assoc.
Qed.

(** ** What happens beside the handler *)

Definition renews (fence : Fence) (x : action) : Prop :=
  ∃ req r, x = ActRenew req r ∧ rq_fence req = fence.
Definition puts (x : action) : Prop := ∃ bucket key body r, x = ActPut bucket key body r.

Lemma gives_renew_turn fence s w : gives (λ _ l, Forall (renews fence) l) (renew_turn fence s w).
Proof.
  destruct w; simpl; try (by apply gives_ret).
  apply gives_after; [apply sure_now|intros t]. destruct (negb _); [by apply gives_ret|].
  apply gives_after.
  { destruct (rl_pending s); [apply sure_ret|]. apply sure_bind; [apply sure_uuid|intros; apply sure_ret]. }
  intros pending. cbv zeta. apply gives_after; [apply sure_now|intros started].
  eapply gives_try; [apply emits_call|]. intros r l ->.
  assert (Forall (renews fence) [ActRenew (mkRenewal fence pending.1 pending.2) r]) as Hl.
  { constructor; [|constructor]. by do 2 eexists. }
  assert (∀ x, gives (λ _ l', Forall (renews fence) ([ActRenew (mkRenewal fence pending.1 pending.2) r] ++ l')%list)
    (mret x : P renewal)) as Hret by (intros x; by apply gives_ret).
  apply gives_after; [apply sure_over|]. intros []; [apply Hret|]. destruct r as [result|e].
  - apply gives_after; [apply sure_now|intros t1]. destruct (negb _); [apply Hret|].
    apply gives_after; [apply sure_now|intros t2]. destruct (negb _); apply Hret.
  - destruct (isAuthorityLost e); [apply Hret|].
    apply gives_after; [apply sure_now|intros t1]. destruct (negb _); apply Hret.
Qed.

Lemma gives_renew_turns fence l s : gives (λ _ l, Forall (renews fence) l) (renew_turns fence s l).
Proof.
  revert s. induction l as [|w l IH]; intros s; simpl; [by apply gives_ret|].
  destruct (rl_live s); [|by apply gives_ret].
  eapply gives_bind; [apply gives_renew_turn|]. intros s' l1 Hl1.
  eapply gives_mono; [apply IH|]. intros r l2 Hl2. by apply Forall_app.
Qed.

Lemma gives_renew_phase fence s : gives (λ _ l, Forall (renews fence) l) (renew_phase fence s).
Proof.
  intros p. unfold renew_phase.
  destruct (gives_renew_turns fence (pr_wakes p (pr_phases p)) s (p <| pr_phases := S (pr_phases p) |>))
    as (a & p' & l & H1 & Hl & HQ). by exists a, p', l.
Qed.

(** ** Results and reports *)

Section delivery.
Context (cfg : RunnerConfig) (registry : Registry) (objects : bool) (text : uuid → string).
Notation n := (retries cfg).

(** [ref] says where [body] is: nowhere when there is none, in the report itself, or
    in the object store, where it was put. *)
Definition stored (fence : Fence) (scope body : string) (ref : option ResultRef) (l : list action) : Prop :=
  match ref with
  | None => body = ""
  | Some r =>
    body ≠ "" ∧ ref_size_bytes r = Z.of_nat (String.length body) ∧
    ((ref_location r = LocationInline ∧ ref_inline r = Some body ∧
      (Z.of_nat (String.length body) < rc_result_inline_threshold cfg)%Z) ∨
     (ref_location r = LocationObject ∧ ref_inline r = None ∧ ref_bucket r = rc_results_bucket cfg ∧
      ref_key r = object_key text scope fence ∧ ref_checksum r = ChecksumSHA256 body ∧
      ActPut (ref_bucket r) (ref_key r) body (Ok tt) ∈ l))
  end.

Lemma tries_ok_in {A} (act : result call_error A → action) k l a : tries act k l (Ok a) → act (Ok a) ∈ l.
Proof.
  intros Ht. remember (Ok a) as r eqn:Hr.
  induction Ht; simplify_eq; [constructor|]. constructor. auto.
Qed.

Lemma tries_acts {A} (act : result call_error A → action) (Q : action → Prop) k l r :
  (∀ x, Q (act x)) → tries act k l r → Forall Q l.
Proof. intros HQ. induction 1; auto. Qed.

Lemma gives_prepareResult fence scope body :
  gives (λ r l, Forall puts l ∧ ∀ ref, r = Some ref → stored fence scope body ref l)
    (prepareResult cfg objects text fence scope body).
Proof.
  unfold prepareResult. cbv zeta. case_bool_decide as Hb.
  { apply gives_ret. split; [constructor|]. by intros ? [= <-]. }
  unfold Classify. destruct (rc_result_inline_threshold cfg <=? _)%Z eqn:Hc.
  - destruct objects; simpl; [|by apply gives_ret].
    eapply (gives_try
      (λ r l, tries (ActPut (rc_results_bucket cfg) (object_key text scope fence) body) n l r)).
    { apply emits_retry, emits_recorded. intros p. unfold put_answer. by destruct (pr_puts p (pr_uploads p)). }
    intros r l Hl. apply gives_ret. rewrite app_nil_r. split.
    + eapply tries_acts; [|exact Hl]. intros x. unfold puts. eauto.
    + intros ref Href. destruct r as [[]|e]; simplify_eq. apply tries_ok_in in Hl.
      split; [done|]. split; [done|]. right. done.
  - apply gives_ret. split; [constructor|]. intros ref [= <-]. split; [done|]. split; [done|].
    left. apply Z.leb_gt in Hc. done.
Qed.

(** The report of a handler's error. *)
Definition failure_report (fence : Fence) (id : uuid) (e : handler_error) : FailureReport :=
  let '(class, code, message) := classifyHandlerError e in mkFailureReport fence id class code message.

Lemma gives_reportFailure fence e :
  gives (λ _ l, ∃ id x, tries (ActFail (failure_report fence id e)) n l x) (reportFailure cfg fence e).
Proof.
  unfold reportFailure, failure_report. apply gives_after; [apply sure_uuid|intros id].
  destruct (classifyHandlerError e) as [[class code] message]. cbv zeta.
  eapply (gives_try (λ r l, tries (ActFail (mkFailureReport fence id class code message)) n l r));
    [apply emits_retry, emits_call|]. intros r l Hl. apply gives_ret.
  rewrite app_nil_r. eauto.
Qed.

Lemma gives_acknowledge_cancel fence :
  gives (λ _ l, ∃ id x, tries (ActCancel (mkCancelAck fence id)) n l x) (acknowledgeCancellation cfg fence).
Proof.
  unfold acknowledgeCancellation. apply gives_after; [apply sure_uuid|intros id]. cbv zeta.
  eapply (gives_try (λ r l, tries (ActCancel (mkCancelAck fence id)) n l r)); [apply emits_retry, emits_call|]. intros r l Hl. apply gives_ret.
  rewrite app_nil_r. eauto.
Qed.

(** ** An attempt *)

(** The one report of an execution that ended with [r]: none, an acknowledged
    cancellation, the failure of its error, or its success with its stored result;
    each under one identity. *)
Inductive outcome_calls (fence : Fence) (scope : string) (r : result handler_error string)
    (during : list action) : list action → Prop :=
| outcome_none : outcome_calls fence scope r during []
| outcome_cancel id l x :
    tries (ActCancel (mkCancelAck fence id)) n l x → outcome_calls fence scope r during l
| outcome_fail e id l x :
    r = Err e → tries (ActFail (failure_report fence id e)) n l x → outcome_calls fence scope r during l
| outcome_succeed body ref l x :
    r = Ok body → stored fence scope body ref during → tries (ActSucceed fence ref) n l x →
    outcome_calls fence scope r during l.

(** The calls of an attempt, and whether it has come to an end: the handler runs at
    most once, after the start was confirmed, and before the report.  While it has not
    returned the attempt only renews its lease. *)
Inductive attempt_calls (a : Assignment) (h : Handler) : list action → bool → Prop :=
| calls_not_started starts e :
    tries (ActStart (assignment_fence a)) n starts (Err e) → attempt_calls a h starts true
| calls_canceled_first starts e id cancels x :
    tries (ActStart (assignment_fence a)) n starts (Err e) →
    tries (ActCancel (mkCancelAck (assignment_fence a) id)) n cancels x →
    attempt_calls a h (starts ++ cancels) true
| calls_no_window starts st :
    tries (ActStart (assignment_fence a)) n starts (Ok st) → attempt_calls a h starts true
| calls_executed starts st over r during outcome :
    let e := mkExecution (as_job_id a) (as_attempt_id a) (as_payload a) in
    tries (ActStart (assignment_fence a)) n starts (Ok st) → h e over = Some r →
    Forall (λ x, renews (assignment_fence a) x ∨ puts x) during →
    outcome_calls (assignment_fence a) (as_scope a) r during outcome →
    attempt_calls a h (starts ++ ActExecute (as_job_type a) e (Some r) :: during ++ outcome) true
| calls_running starts st over during :
    let e := mkExecution (as_job_id a) (as_attempt_id a) (as_payload a) in
    tries (ActStart (assignment_fence a)) n starts (Ok st) → h e over = None →
    Forall (renews (assignment_fence a)) during →
    attempt_calls a h (starts ++ ActExecute (as_job_type a) e None :: during) false.

Lemma stored_mono fence scope body ref l l' :
  stored fence scope body ref l → (∀ x, x ∈ l → x ∈ l') → stored fence scope body ref l'.
Proof. destruct ref as [r|]; [|done]. simpl. intros (? & ? & [?|(? & ? & ? & ? & ? & ?)]) Hl; naive_solver. Qed.

Lemma gives_invoke jobType h e :
  gives (λ r l, ∃ over, r = h e over ∧ l = [ActExecute jobType e (h e over)])
    (invokeHandler jobType h e : P (option (result handler_error string))).
Proof.
  unfold invokeHandler. apply gives_after; [apply sure_over|intros over].
  intros p. do 3 eexists. split; [reflexivity|]. split; [reflexivity|]. by exists over.
Qed.

(** The report, once the causes are known. *)
Definition report (fence : Fence) (r : result handler_error string) (ready : option (option ResultRef))
    (canceled timedOut lost : bool) : P (option fatal) :=
  if canceled then acknowledgeCancellation cfg fence;; mret None
  else if timedOut then mret None
  else if lost then mret None
  else match r with
       | Err e => over ← ctx_over; if (over : bool) then mret None else reportFailure cfg fence e;; mret None
       | Ok _ =>
         match ready with
         | None => mret None
         | Some result =>
           r ← attempt (retry n (call (ActSucceed fence result) (cp_Succeed fence result)));
           mret match r with Err e => escalateSessionLoss e | Ok _ => None end
         end
       end.

Lemma gives_report fence scope r ready canceled timedOut lost during :
  (∀ body ref, r = Ok body → ready = Some ref → stored fence scope body ref during) →
  gives (λ _ l, outcome_calls fence scope r during l) (report fence r ready canceled timedOut lost).
Proof.
  intros Hready. unfold report.
  assert (∀ x : option fatal, gives (λ _ l, outcome_calls fence scope r during l) (mret x : P (option fatal)))
    as Hnone by (intros x; apply gives_ret; constructor).
  destruct canceled.
  { eapply gives_bind; [apply gives_acknowledge_cancel|].
    intros [] l (id & x & Hl). apply gives_ret. rewrite app_nil_r. by econstructor. }
  destruct timedOut; [apply Hnone|]. destruct lost; [apply Hnone|]. destruct r as [body|e].
  - destruct ready as [ref|]; [|apply Hnone].
    eapply (gives_try (λ r l, tries (ActSucceed fence ref) n l r)); [apply emits_retry, emits_call|].
    intros r l Hl. apply gives_ret. rewrite app_nil_r. eapply outcome_succeed; [done|by apply Hready|done].
  - apply gives_after; [apply sure_over|]. intros []; [apply Hnone|].
    eapply gives_bind; [apply gives_reportFailure|].
    intros [] l (id & x & Hl). apply gives_ret. rewrite app_nil_r. by eapply outcome_fail.
Qed.

Notation bg fence := (λ x, renews fence x ∨ puts x).

(** Everything after the handler: what runs beside the storing of its result, then
    the report. *)
Definition after_handler (fence : Fence) (scope : string) (r : result handler_error string) (l : list action) : Prop :=
  ∃ during outcome, l = (during ++ outcome)%list ∧ Forall (bg fence) during ∧
    outcome_calls fence scope r during outcome.

Lemma after_nothing fence scope r l : Forall (bg fence) l → after_handler fence scope r l.
Proof. intros Hl. exists l, []. rewrite app_nil_r. split; [done|]. split; [done|constructor]. Qed.

Lemma renews_bg fence l : Forall (renews fence) l → Forall (bg fence) l.
Proof. intros Hl. eapply Forall_impl; [exact Hl|]. auto. Qed.
Lemma puts_bg fence l : Forall puts l → Forall (bg fence) l.
Proof. intros Hl. eapply Forall_impl; [exact Hl|]. auto. Qed.

Lemma gives_finish a fence r ready canceled why loop before :
  Forall (bg fence) before →
  (∀ body ref, r = Ok body → ready = Some ref → stored fence (as_scope a) body ref before) →
  gives (λ _ l, after_handler fence (as_scope a) r (before ++ l)%list)
    (loop ← renew_phase fence loop;
     canceled' ← use (λ m, (m, wasCanceled (f_attempt_id fence) m));
     match rl_fatal loop with
     | Some f => mret (Some f)
     | None => report fence r ready (canceled || canceled' || bool_decide (why = Some errUserCanceled))
                 (bool_decide (why = Some errAttemptTimedOut))
                 (rl_lost loop || bool_decide (why = Some errAuthorityLost))
     end).
Proof.
  intros Hb Hready. eapply gives_bind; [apply gives_renew_phase|].
  intros loop' l Hl. apply renews_bg in Hl. apply gives_after; [apply sure_use|intros canceled'].
  destruct (rl_fatal loop').
  { apply gives_ret. rewrite app_nil_r. apply after_nothing, Forall_app. by split. }
  eapply gives_mono; [apply (gives_report _ (as_scope a) r ready _ _ _ (before ++ l)%list)|].
    + intros body ref H1 H2. eapply stored_mono; [by apply Hready|]. intros x Hx. apply elem_of_app. by left.
    + intros x l' Hl'. exists (before ++ l)%list, l'. rewrite app_assoc. split; [done|]. split; [|done].
      apply Forall_app. by split.
Qed.

Lemma gives_finish_attempt a fence r ctx loop deadline l :
  Forall (bg fence) l →
  gives (λ _ l', after_handler fence (as_scope a) r (l ++ l')%list)
    (finish_attempt cfg objects text a fence r ctx loop deadline).
Proof.
  intros Hl. unfold finish_attempt.
  apply gives_after; [apply sure_handler_cause|intros why].
  apply gives_after; [apply sure_use|intros canceled].
  eapply (gives_bind (λ ready l', Forall puts l' ∧
    ∀ body ref, r = Ok body → ready = Some ref → stored fence (as_scope a) body ref l')).
  - destruct r as [body|e']; [|by apply gives_ret].
    destruct (negb canceled && _ && _ && _); [|by apply gives_ret].
    apply gives_after; [apply sure_context|intros upload].
    apply gives_after; [apply sure_bind_context|intros _].
    eapply gives_mono; [apply gives_prepareResult|]. intros x l' [Hp Hs]. split; [done|].
    intros body' ref [= <-]. apply Hs.
  - intros ready l' [Hp Hs].
    eapply gives_mono; [apply (gives_finish a fence r ready canceled why loop (l ++ l')%list)|].
    + apply Forall_app. split; [done|by apply puts_bg].
    + intros body ref H1 H2. eapply stored_mono; [by apply Hs|].
      intros x Hx. apply elem_of_app. by right.
    + intros x l2 H2. by rewrite app_assoc.
Qed.

(** Whether a goroutine has left its attempt. *)
Definition returned (e : ending) : bool := match e with StillRunning => false | Done _ => true end.

Lemma gives_execute a h started st deadline starts :
  tries (ActStart (assignment_fence a)) n starts (Ok st) →
  gives (λ e l, attempt_calls a h (starts ++ l)%list (returned e))
    (execute_attempt cfg objects text a h (assignment_fence a) started st deadline).
Proof.
  intros Hst. set (fence := assignment_fence a) in *. unfold execute_attempt. cbv zeta.
  apply gives_after; [apply sure_now|intros t]. apply gives_after; [apply sure_over|intros over0].
  destruct (_ || over0).
  { apply gives_ret. rewrite app_nil_r. by econstructor. }
  apply gives_after; [apply sure_context|intros ctx].
  apply gives_after; [apply sure_bind_context|intros _].
  set (e := mkExecution (as_job_id a) (as_attempt_id a) (as_payload a)).
  eapply gives_bind; [apply gives_invoke|]. intros r l (over & -> & ->).
  eapply gives_bind; [apply gives_renew_phase|]. intros loop l Hl.
  destruct (h e over) as [r|] eqn:Hr.
  - eapply gives_bind; [apply (gives_finish_attempt a fence r ctx loop _ l); by apply renews_bg|].
    intros f l' (during & outcome & Heq & Hd & Ho). apply gives_ret. rewrite app_nil_r.
    change ([ActExecute (as_job_type a) e (Some r)] ++ l ++ l')%list with (ActExecute (as_job_type a) e (Some r) :: l ++ l').
    rewrite Heq. by eapply calls_executed.
  - apply gives_ret. rewrite app_nil_r. by eapply calls_running.
Qed.

Lemma gives_run_attempt a deadline h :
  gives (λ e l, attempt_calls a h l (returned e)) (run_attempt cfg objects text a deadline h).
Proof.
  unfold run_attempt. cbv zeta. apply gives_after; [apply sure_now|intros started].
  eapply (gives_try (λ r l, tries (ActStart (assignment_fence a)) n l r)); [apply emits_retry, emits_call|].
  intros [st|e] starts Hst.
  - apply gives_after.
    { destruct deadline; [apply sure_ret|]. apply sure_bind; [apply sure_now|intros; apply sure_ret]. }
    intros d. apply gives_after; [apply sure_now|intros t]. destruct (negb _); [|by apply gives_execute].
    apply gives_ret. rewrite app_nil_r. by econstructor.
  - destruct (isSessionLost e); [apply gives_ret; rewrite app_nil_r; by econstructor|].
    apply gives_after; [apply sure_use|intros canceled]. destruct (canceled || _).
    2: { apply gives_ret. rewrite app_nil_r. by econstructor. }
    eapply gives_bind; [apply gives_acknowledge_cancel|].
    intros [] l (id & x & Hl). apply gives_ret. rewrite app_nil_r. by eapply calls_canceled_first.
Qed.

(** ** A delivery *)

(** The calls of a delivery of the event [event], read from [receipt], to its leader:
    it claims; it deletes the message exactly when the claim was answered and its
    answer allows it; it runs an attempt only on an assignment, with the handler of its
    type; it ends, unless it is in a handler that does not return. *)
Inductive delivery_calls (session : ClientSession) (event : uuid) (queue receipt : string)
    : list action → decision → ending → Prop :=
| delivery_unclaimed claims e :
    tries (ActClaim (mkClaimRequest (cs_worker_id session) (cs_id session) event queue)) n claims (Err e) →
    delivery_calls session event queue receipt claims (mkDecision false (escalateSessionLoss e))
      (Done (escalateSessionLoss e))
| delivery_claimed claims c rest e :
    tries (ActClaim (mkClaimRequest (cs_worker_id session) (cs_id session) event queue)) n claims (Ok c) →
    (rest = [] ∧ e = Done None) ∨
      (∃ a h, cl_disposition (lc_result c) = Claimed ∧ cl_assignment (lc_result c) = Some a ∧
         Lookup registry (as_job_type a) = Some h ∧ attempt_calls a h rest (returned e)) →
    delivery_calls session event queue receipt
      (claims ++ (if SafeToAcknowledge (lc_result c) then [ActDelete receipt] else []) ++ rest)
      (mkDecision (SafeToAcknowledge (lc_result c)) None) e.

(** A claim, then an attempt that its answer allows. *)
Lemma gives_lead session event queue receipt ptr :
  gives (λ r l, delivery_calls session event queue receipt l r.1 r.2)
    (lead_delivery cfg registry objects text session event queue receipt ptr).
Proof.
  unfold lead_delivery, claim_delivery.
  set (req := mkClaimRequest (cs_worker_id session) (cs_id session) event queue).
  eapply (gives_bind (λ r l,
    (∃ e, r = (mkDecision false (escalateSessionLoss e), None) ∧ tries (ActClaim req) n l (Err e)) ∨
    (∃ c, r = (mkDecision (SafeToAcknowledge (lc_result c)) None, Some c) ∧ tries (ActClaim req) n l (Ok c)))).
  { eapply (gives_try (λ r l, tries (ActClaim req) n l r)); [apply emits_retry, emits_call|].
    intros [c|e] l Hl; apply gives_ret; rewrite app_nil_r; eauto. }
  intros [d claim] claims Hcase. apply gives_after; [apply sure_share|intros _].
  destruct Hcase as [(e & [= -> ->] & Hc)|(c & [= -> ->] & Hc)].
  { apply gives_ret. rewrite app_nil_r. by constructor. }
  cbn [de_safeAck]. set (acks := if SafeToAcknowledge (lc_result c) then [ActDelete receipt] else []).
  eapply (gives_bind (λ _ l, l = acks)).
  { unfold acks, acknowledge. destruct (SafeToAcknowledge _); [|by apply gives_ret].
    intros p. do 3 eexists. split; [reflexivity|]. by split. }
  intros _ l ->.
  assert (gives (λ r l', delivery_calls session event queue receipt (claims ++ acks ++ l')%list r.1 r.2)
    (mret (mkDecision (SafeToAcknowledge (lc_result c)) None, Done None) : P (decision * ending))) as Hnone.
  { apply gives_ret. apply delivery_claimed; [done|by left]. }
  destruct (cl_disposition (lc_result c)) eqn:Hd; try apply Hnone.
  destruct (cl_assignment (lc_result c)) as [a|] eqn:Ha; [|apply Hnone].
  destruct (Lookup registry (as_job_type a)) as [h|] eqn:Hh; [|apply Hnone].
  apply gives_after; [apply sure_use|intros _].
  eapply gives_bind; [apply gives_run_attempt|]. intros e l Hl.
  assert (delivery_calls session event queue receipt (claims ++ acks ++ l)%list
    (mkDecision (SafeToAcknowledge (lc_result c)) None) e) as Hcalls.
  { apply delivery_claimed; [done|]. right. by exists a, h. }
  destruct e as [|f]; [|apply gives_after; [apply sure_use|intros _]]; apply gives_ret; by rewrite app_nil_r.
Qed.

(** What a follower deletes. *)
Definition follower_calls (receipt : string) (d : option decision) : list action :=
  match d with Some d => if de_safeAck d then [ActDelete receipt] else [] | None => [] end.

Lemma follow_calls ptr receipt (p : Process St) :
  ∃ d p', follow_delivery ptr receipt p = (Ok (Followed d), p') ∧
    pr_log p' = (pr_log p ++ follower_calls receipt d)%list ∧
    (∀ d', d = Some d' → fl_heap (pr_flights p') !! ptr ≫= fl_decision = Some d').
Proof.
  unfold follow_delivery, share, ctx_over, mbind, M_bind. cbv beta iota zeta.
  destruct (pr_over p (pr_looks p)).
  { do 2 eexists. split; [reflexivity|]. simpl. by rewrite app_nil_r. }
  match goal with |- context [option_bind _ _ fl_decision ?x] =>
    destruct (option_bind _ _ fl_decision x) as [d|] eqn:Hd end.
  2: { do 2 eexists. split; [reflexivity|]. simpl. by rewrite app_nil_r. }
  destruct (de_safeAck d) eqn:Hs; do 2 eexists; (split; [reflexivity|]); simpl; rewrite Hs, ?app_nil_r;
    (split; [done|]); by intros ? [= <-].
Qed.

(** The flights a delivery finds. *)
Definition found_flights (p : Process St) : flights := pr_slots p (pr_shares p) (pr_flights p).

Lemma processMessage_calls parse session body receipt (p : Process St) :
  ∃ r p' l, processMessage cfg registry objects parse text session body receipt p = (Ok r, p') ∧
    pr_log p' = (pr_log p ++ l)%list ∧
    match decodeWorkNotification parse body with
    | Ok note =>
      if bool_decide (nt_queue note = rc_queue cfg)
      then match fl_map (found_flights p) !! nt_event_id note with
           | Some ptr => ∃ d, r = Followed d ∧ l = follower_calls receipt d ∧
               ∀ d', d = Some d' → fl_heap (pr_flights p') !! ptr ≫= fl_decision = Some d'
           | None => ∃ d e, r = Led d e ∧
               delivery_calls session (nt_event_id note) (nt_queue note) receipt l d e ∧
               (returned e = true → fl_map (pr_flights p') !! nt_event_id note = None)
           end
      else r = Refused ∧ l = []
    | Err _ => r = Refused ∧ l = []
    end.
Proof.
  unfold processMessage. destruct (decodeWorkNotification parse body) as [note|e].
  2: { exists Refused, p, []. by rewrite app_nil_r. }
  case_bool_decide as Hq; simpl.
  2: { exists Refused, p, []. by rewrite app_nil_r. }
  fold (found_flights p). unfold mbind at 1, M_bind at 1, share at 1, beginDelivery.
  change (pr_slots p (pr_shares p) (pr_flights p)) with (found_flights p).
  destruct (fl_map (found_flights p) !! nt_event_id note) as [ptr|] eqn:Hmap; cbv beta iota zeta; cbn [negb].
  - match goal with |- context [follow_delivery ptr receipt ?p1] =>
      destruct (follow_calls ptr receipt p1) as (d & p' & Hrun & Hl & Hd) end.
    rewrite Hrun. exists (Followed d), p', (follower_calls receipt d). split; [done|]. split; [exact Hl|]. by exists d.
  - match goal with |- context [lead_delivery _ _ _ _ _ _ _ _ ?ptr] => set (k := ptr) end.
    match goal with |- context [mbind _ _ ?p1] =>
      destruct (gives_lead session (nt_event_id note) (nt_queue note) receipt k p1)
        as ([d e] & p' & l & Hrun & Hl & HQ) end.
    unfold mbind at 1, M_bind at 1. rewrite Hrun. destruct e as [|f].
    + exists (Led d StillRunning), p', l. split; [done|]. split; [exact Hl|]. by exists d, StillRunning.
    + do 3 eexists. split; [reflexivity|]. split; [exact Hl|]. exists d, (Done f). split_and!; [done..|].
      intros _. simpl. apply lookup_delete_eq.
Qed.
End delivery.
End traces.


(** ** Cancellations

    Operations of the registry in any order, by the deliveries and the heartbeat. *)

Inductive reg_op :=
| OpRegister (f : Fence) | OpUnregister (id : uuid) | OpBind (id : uuid) (ctx : nat)
| OpDeliver (d : CancellationDirective).

Definition reg_state : Type := attempts * gset nat.

Definition reg_run (op : reg_op) (s : reg_state) : reg_state :=
  match op with
  | OpRegister f => (reg_register f s.1, s.2)
  | OpUnregister id => (reg_unregister id s.1, s.2)
  | OpBind id ctx =>
    let '(m, pending) := reg_bind id ctx s.1 in (m, if (pending : bool) then {[ctx]} ∪ s.2 else s.2)
  | OpDeliver d => deliver_all [d] s.1 s.2
  end.

Definition reg_runs (ops : list reg_op) (s : reg_state) : reg_state := fold_left (λ s op, reg_run op s) ops s.

Definition names (d : CancellationDirective) (f : Fence) : Prop :=
  cd_attempt_id d = f_attempt_id f ∧ cd_lease_id d = f_lease_id f ∧ cd_job_id d = f_job_id f.

#[export] Instance names_dec d f : Decision (names d f).
Proof. unfold names. apply _. Defined.

Definition delivers (f : Fence) (op : reg_op) : bool :=
  match op with OpDeliver d => bool_decide (names d f) | _ => false end.

(** An operation that does not begin or end the attempt. *)
Definition keeps (id : uuid) (op : reg_op) : Prop :=
  match op with OpRegister f => f_attempt_id f ≠ id | OpUnregister id' => id' ≠ id | _ => True end.

(** An operation that binds a context to the attempt. *)
Definition binds (id : uuid) (op : reg_op) : bool :=
  match op with OpBind id' _ => bool_decide (id' = id) | _ => false end.

(** The attempt stays, and once cancelled stays cancelled. *)
Definition holds (f : Fence) (b : bool) (s : reg_state) : Prop :=
  ∃ e, s.1 !! f_attempt_id f = Some e ∧ ae_fence e = f ∧ (b = true → ae_canceled e = true).

Lemma holds_run f b op s : holds f b s → keeps (f_attempt_id f) op → holds f b (reg_run op s).
Proof.
  destruct s as [m c]. intros (e & He & Hf & Hc) Hk. unfold holds.
  destruct op as [g|i|i ctx|d]; simpl in *.
  - exists e. unfold reg_register. by rewrite lookup_insert_ne.
  - exists e. unfold reg_unregister. by rewrite lookup_delete_ne.
  - unfold reg_bind. destruct (decide (i = f_attempt_id f)) as [->|Hne].
    + rewrite He. eexists. simpl. rewrite lookup_insert_eq. split; [done|]. done.
    + exists e. destruct (m !! i); simpl; [by rewrite lookup_insert_ne|done].
  - unfold deliver. destruct (m !! cd_attempt_id d) as [e0|] eqn:Hi; simpl; [|by exists e].
    destruct (negb _ || negb _); simpl; [by exists e|].
    destruct (decide (cd_attempt_id d = f_attempt_id f)) as [Heq|Hne].
    + rewrite Heq, lookup_insert_eq. eexists. split; [done|]. rewrite Heq, He in Hi. injection Hi as <-. done.
    + exists e. by rewrite lookup_insert_ne.
Qed.

Lemma holds_deliver f b d s : holds f b s → names d f → holds f true (reg_run (OpDeliver d) s).
Proof.
  destruct s as [m c]. intros (e & He & Hf & _) (Ha & Hl & Hj). unfold holds. simpl in *. unfold deliver.
  rewrite Ha, He, Hf, Hl, Hj, !N.eqb_refl. simpl. rewrite lookup_insert_eq. eexists. done.
Qed.

Lemma holds_runs f b ops s :
  holds f b s → Forall (keeps (f_attempt_id f)) ops →
  holds f (b || existsb (delivers f) ops)
    (reg_runs ops s).
Proof.
  intros Hs Hk. revert b s Hs. induction Hk as [|op ops Hop _ IH]; intros b s Hs; simpl.
  { by rewrite orb_false_r. }
  rewrite orb_assoc. apply IH. destruct op as [| | |d]; cbn [delivers]; try (rewrite orb_false_r; by apply holds_run).
  destruct (bool_decide (names d f)) eqn:Hd.
  - apply bool_decide_eq_true_1 in Hd. rewrite orb_true_r. by eapply holds_deliver.
  - rewrite orb_false_r. by apply holds_run.
Qed.

Lemma reg_register_holds f s : holds f false (reg_run (OpRegister f) s).
Proof. exists (mkAttemptEntry f None false). simpl. unfold reg_register. by rewrite lookup_insert_eq. Qed.

(** What is cancelled stays cancelled. *)
Lemma reg_runs_canceled ops s : s.2 ⊆ (reg_runs ops s).2.
Proof.
  revert s. induction ops as [|op ops IH]; intros s; [done|]. etrans; [|apply (IH (reg_run op s))].
  destruct s as [m c], op as [f|i|i ctx|d]; simpl; try done.
  - destruct (reg_bind i ctx m) as [m' []]; set_solver.
  - destruct (deliver d m) as [m' [x|]]; set_solver.
Qed.

(** The context [ctx] is the attempt's, and cancelled if a directive came. *)
Definition bound (f : Fence) (ctx : nat) (b : bool) (s : reg_state) : Prop :=
  ∃ e, s.1 !! f_attempt_id f = Some e ∧ ae_fence e = f ∧ ae_cancel e = Some ctx ∧ (b = true → ctx ∈ s.2).

Lemma bound_bind f ctx b s : holds f b s → bound f ctx b (reg_run (OpBind (f_attempt_id f) ctx) s).
Proof.
  destruct s as [m c]. intros (e & He & Hf & Hc). unfold bound. simpl in *. unfold reg_bind. rewrite He. simpl.
  rewrite lookup_insert_eq. eexists. split_and!; [done..|]. intros Hb. rewrite (Hc Hb). set_solver.
Qed.

Lemma bound_run f ctx b op s :
  bound f ctx b s → keeps (f_attempt_id f) op → binds (f_attempt_id f) op = false →
  bound f ctx (b || delivers f op) (reg_run op s).
Proof.
  destruct s as [m c]. intros (e & He & Hf & Hx & Hc) Hk Hb. unfold bound.
  destruct op as [g|i|i x|d]; simpl in *; rewrite ?orb_false_r.
  - exists e. unfold reg_register. by rewrite lookup_insert_ne.
  - exists e. unfold reg_unregister. by rewrite lookup_delete_ne.
  - apply bool_decide_eq_false_1 in Hb. exists e. unfold reg_bind. destruct (m !! i) as [e0|]; simpl; [|done].
    rewrite lookup_insert_ne by done. split_and!; [done..|]. intros Ht. specialize (Hc Ht).
    destruct (ae_canceled e0); set_solver.
  - unfold deliver. destruct (decide (cd_attempt_id d = f_attempt_id f)) as [Ha|Ha].
    + rewrite Ha, He, Hf. destruct (_ || _) eqn:Hn; simpl.
      * exists e. split_and!; [done..|]. rewrite bool_decide_eq_false_2, orb_false_r; [done|].
        intros (_ & Hl & Hj). by rewrite Hl, Hj, !N.eqb_refl in Hn.
      * rewrite lookup_insert_eq, Hx. eexists. split_and!; [done..|]. set_solver.
    + rewrite bool_decide_eq_false_2, orb_false_r by (intros (? & _); done). exists e.
      destruct (m !! cd_attempt_id d) as [e0|]; simpl; [|done]. destruct (_ || _); simpl; [done|].
      rewrite lookup_insert_ne by done. split_and!; [done..|]. intros Ht. specialize (Hc Ht).
      destruct (ae_cancel e0); set_solver.
Qed.

Lemma bound_runs f ctx b ops s :
  bound f ctx b s → Forall (keeps (f_attempt_id f)) ops → Forall (λ op, binds (f_attempt_id f) op = false) ops →
  bound f ctx (b || existsb (delivers f) ops) (reg_runs ops s).
Proof.
  intros Hs Hk Hb. revert b s Hs Hb. induction Hk as [|op ops Hop _ IH]; intros b s Hs Hb; simpl.
  { by rewrite orb_false_r. }
  apply Forall_cons in Hb as [Hb1 Hb]. rewrite orb_assoc. apply IH; [|done]. by apply bound_run.
Qed.

Lemma delivered_exists f d ops : OpDeliver d ∈ ops → names d f → existsb (delivers f) ops = true.
Proof.
  intros Hin Hd. apply existsb_exists. exists (OpDeliver d). split; [by apply list_elem_of_In|].
  by apply bool_decide_eq_true_2.
Qed.

(** C28: a cancellation is never lost.  From the moment an attempt is registered,
    before its start is even asked for, until it is unregistered, whatever the other
    deliveries and the heartbeat do to the registry: once a directive that names its
    attempt, its lease and its job has arrived, the worker sees it; and a context that
    is handed to the registry for the attempt (the handler's, then the upload's) is
    cancelled, whether the directive came before it was handed over or after, as long
    as the next one had not replaced it. *)
Theorem cancellation_is_never_lost f ops (s0 : reg_state) d :
  Forall (keeps (f_attempt_id f)) ops → OpDeliver d ∈ ops → names d f →
  let s := reg_runs (OpRegister f :: ops) s0 in
  wasCanceled (f_attempt_id f) s.1 = true ∧
  ∀ before ctx while after,
    ops = (before ++ OpBind (f_attempt_id f) ctx :: while ++ after)%list →
    Forall (λ op, binds (f_attempt_id f) op = false) while →
    OpDeliver d ∈ (before ++ while)%list → ctx ∈ s.2.
Proof.
  intros Hk Hin Hd s. pose proof (reg_register_holds f s0) as H0. split.
  { destruct (holds_runs f false ops _ H0 Hk) as (e & He & _ & Hc). simpl in Hc.
    change (s.1 !! f_attempt_id f = Some e) in He. unfold wasCanceled. rewrite He.
    by apply Hc, (delivered_exists f d). }
  intros before ctx while after -> Hb Hin'.
  apply Forall_app in Hk as [Hk1 [_ [Hk2 _]%Forall_app]%Forall_cons].
  pose proof (bound_runs f ctx _ while _ (bound_bind f ctx _ _ (holds_runs f false before _ H0 Hk1)) Hk2 Hb)
    as (e & _ & _ & _ & Hc).
  unfold s, reg_runs. simpl. rewrite fold_left_app. simpl. rewrite fold_left_app.
  apply (reg_runs_canceled after). apply Hc. simpl. rewrite <-existsb_app. by apply (delivered_exists f d).
Qed.

(** ** Flights

    The slots of a process and the deliveries they lead or follow. *)

Inductive slot := Leading (event : uuid) (ptr : nat) | Following (ptr : nat).

Record flying := mkFlying { fy_flights : flights; fy_slots : gmap nat slot }.

(** A slot takes up a delivery; a leader decides, and ends; a follower goes when its
    flight is decided, or when its context is over. *)
Inductive fly_step : flying → flying → Prop :=
| fly_begin f slots i event f' ptr lead :
    slots !! i = None → beginDelivery event f = (f', ptr, lead) →
    fly_step (mkFlying f slots) (mkFlying f' (<[i := if lead then Leading event ptr else Following ptr]> slots))
| fly_decide f slots i event ptr d :
    slots !! i = Some (Leading event ptr) →
    fly_step (mkFlying f slots) (mkFlying (decideDelivery ptr d f) slots)
| fly_end f slots i event ptr :
    slots !! i = Some (Leading event ptr) →
    fly_step (mkFlying f slots) (mkFlying (endDelivery event ptr f) (delete i slots))
| fly_follow f slots i ptr :
    slots !! i = Some (Following ptr) → fly_step (mkFlying f slots) (mkFlying f (delete i slots)).

Definition decided (f : flights) (ptr : nat) : Prop :=
  ∃ x d, fl_heap f !! ptr = Some x ∧ fl_decision x = Some d.

Record fly_inv (s : flying) : Prop := {
  fi_leads : ∀ i event ptr, fy_slots s !! i = Some (Leading event ptr) →
    fl_map (fy_flights s) !! event = Some ptr;
  fi_led : ∀ event ptr, fl_map (fy_flights s) !! event = Some ptr →
    (ptr < length (fl_heap (fy_flights s)))%nat ∧ ∃ i, fy_slots s !! i = Some (Leading event ptr);
  fi_injective : ∀ e1 e2 ptr, fl_map (fy_flights s) !! e1 = Some ptr → fl_map (fy_flights s) !! e2 = Some ptr →
    e1 = e2;
  fi_one : ∀ i j e1 e2 ptr, fy_slots s !! i = Some (Leading e1 ptr) → fy_slots s !! j = Some (Leading e2 ptr) →
    i = j;
  fi_follows : ∀ i ptr, fy_slots s !! i = Some (Following ptr) →
    decided (fy_flights s) ptr ∨ ∃ event, fl_map (fy_flights s) !! event = Some ptr }.

Lemma decided_alter g f ptr0 ptr :
  (∀ x, is_Some (fl_decision x) → is_Some (fl_decision (g x))) →
  decided f ptr → decided (f <| fl_heap := alter g ptr0 (fl_heap f) |>) ptr.
Proof.
  intros Hg (x & d & Hx & Hd). unfold decided. simpl. destruct (decide (ptr = ptr0)) as [->|Hne].
  - destruct (Hg x) as [d' Hd']; [eauto|]. exists (g x), d'. by rewrite list_lookup_alter_eq, Hx.
  - exists x, d. by rewrite list_lookup_alter_ne.
Qed.

Lemma decided_app m f l ptr : decided f ptr → decided (mkFlights m (fl_heap f ++ l)) ptr.
Proof. intros (x & d & Hx & Hd). exists x, d. split; [|done]. simpl. by apply lookup_app_l_Some. Qed.

Lemma settle_decides d x : is_Some (fl_decision (settle d x)).
Proof. unfold settle. destruct (fl_decision x) eqn:Hx; simpl; eauto. Qed.

Lemma fly_inv_begin f slots i event f' ptr lead :
  fly_inv (mkFlying f slots) → slots !! i = None → beginDelivery event f = (f', ptr, lead) →
  fly_inv (mkFlying f' (<[i := if lead then Leading event ptr else Following ptr]> slots)).
Proof.
  intros [Hl Hm Hj H1 Hf] Hi Hb. simpl in *. unfold beginDelivery in Hb.
  destruct (fl_map f !! event) as [q|] eqn:He; injection Hb as <- <- <-; split; simpl.
  - intros j e p [[_ ?]|[_ Hs]]%lookup_insert_Some; [done|by eapply Hl].
  - intros e p Hp. rewrite length_alter. destruct (Hm e p Hp) as [? [j Hs]]. split; [done|]. exists j.
    rewrite lookup_insert_ne; [done|]. intros ->. congruence.
  - exact Hj.
  - intros j k e1 e2 p [[_ ?]|[_ Hs1]]%lookup_insert_Some; [done|].
    intros [[_ ?]|[_ Hs2]]%lookup_insert_Some; [done|]. by eapply H1.
  - assert (∀ p, decided f p → decided (f <| fl_heap := alter (λ x, x <| fl_followers := S (fl_followers x) |>)
      q (fl_heap f) |>) p) as Hd by (intros p; by apply decided_alter).
    intros j p [[_ [= <-]]|[_ Hs]]%lookup_insert_Some; [right; eauto|].
    destruct (Hf j p Hs) as [?|?]; [left; by apply Hd|by right].
  - assert (∀ e p, fl_map f !! e = Some p → p ≠ length (fl_heap f)) as Hnew.
    { intros e p Hp. destruct (Hm e p Hp) as [? _]. lia. }
    intros j e p [[_ [= <- <-]]|[_ Hs]]%lookup_insert_Some; [by rewrite lookup_insert_eq|].
    rewrite lookup_insert_ne; [by eapply Hl|]. intros <-. apply Hl in Hs. congruence.
  - intros e p [[<- <-]|[Hne Hp]]%lookup_insert_Some; rewrite length_app; simpl.
    + split; [lia|]. exists i. by rewrite lookup_insert_eq.
    + destruct (Hm e p Hp) as [? [j Hs]]. split; [lia|]. exists j. rewrite lookup_insert_ne; [done|].
      intros ->. congruence.
  - intros e1 e2 p [[<- <-]|[? Hp1]]%lookup_insert_Some [[<- Hp]|[? Hp2]]%lookup_insert_Some; try done.
    + destruct (Hm _ _ Hp2). lia.
    + subst. destruct (Hm _ _ Hp1). lia.
    + by eapply Hj.
  - intros j k e1 e2 p [[<- [= <- <-]]|[? Hs1]]%lookup_insert_Some
      [[<- [= Hp]]|[? Hs2]]%lookup_insert_Some; try done.
    + apply Hl, Hm in Hs2 as [? _]. lia.
    + subst. apply Hl, Hm in Hs1 as [? _]. lia.
    + by eapply H1.
  - intros j p [[_ ?]|[_ Hs]]%lookup_insert_Some; [done|].
    destruct (Hf j p Hs) as [?|[e Hp]]; [left; by apply decided_app|right].
    exists e. rewrite lookup_insert_ne; [done|]. intros <-. congruence.
Qed.

Lemma fly_inv_decide f slots i event ptr d :
  fly_inv (mkFlying f slots) → slots !! i = Some (Leading event ptr) →
  fly_inv (mkFlying (decideDelivery ptr d f) slots).
Proof.
  intros [Hl Hm Hj H1 Hf] Hi. split; simpl in *; try done.
  - intros e p Hp. rewrite length_alter. by apply Hm.
  - intros j p Hs. destruct (Hf j p Hs) as [?|?]; [left|by right].
    apply decided_alter; [|done]. intros x _. apply settle_decides.
Qed.

Lemma fly_inv_end f slots i event ptr :
  fly_inv (mkFlying f slots) → slots !! i = Some (Leading event ptr) →
  fly_inv (mkFlying (endDelivery event ptr f) (delete i slots)).
Proof.
  intros Hinv Hi. pose proof (fly_inv_decide _ _ _ _ _ (mkDecision false None) Hinv Hi) as [Hl Hm Hj H1 Hf].
  destruct Hinv as [_ Hm0 _ _ _]. simpl in *.
  assert (decided (decideDelivery ptr (mkDecision false None) f) ptr) as Hdec.
  { destruct (Hm0 event ptr) as [Hlt _]; [by eapply Hl|]. apply lookup_lt_is_Some in Hlt as [x Hx].
    destruct (settle_decides (mkDecision false None) x) as [d Hd]. exists (settle (mkDecision false None) x), d.
    simpl. by rewrite list_lookup_alter_eq, Hx. }
  split; simpl.
  - intros j e p [Hne Hs]%lookup_delete_Some. rewrite lookup_delete_ne; [by eapply Hl|].
    intros <-. pose proof (Hl _ _ _ Hs). pose proof (Hl _ _ _ Hi). simplify_eq. by eapply Hne, H1.
  - intros e p [Hne Hp]%lookup_delete_Some. destruct (Hm e p Hp) as [? [j Hs]]. split; [done|].
    exists j. rewrite lookup_delete_ne; [done|]. intros ->. rewrite Hi in Hs. by simplify_eq.
  - intros e1 e2 p [_ ?]%lookup_delete_Some [_ ?]%lookup_delete_Some. by eapply Hj.
  - intros j k e1 e2 p [_ ?]%lookup_delete_Some [_ ?]%lookup_delete_Some. by eapply H1.
  - intros j p [_ Hs]%lookup_delete_Some. destruct (Hf j p Hs) as [?|[e Hp]]; [by left|].
    destruct (decide (e = event)) as [->|Hne].
    + left. pose proof (Hl _ _ _ Hi). simplify_eq. exact Hdec.
    + right. exists e. by rewrite lookup_delete_ne.
Qed.

Lemma fly_inv_follow f slots i ptr :
  fly_inv (mkFlying f slots) → slots !! i = Some (Following ptr) →
  fly_inv (mkFlying f (delete i slots)).
Proof.
  intros [Hl Hm Hj H1 Hf] Hi. split; simpl in *; try done.
  - intros j e p [_ ?]%lookup_delete_Some. by eapply Hl.
  - intros e p Hp. destruct (Hm e p Hp) as [? [j Hs]]. split; [done|]. exists j.
    rewrite lookup_delete_ne; [done|]. intros ->. congruence.
  - intros j k e1 e2 p [_ ?]%lookup_delete_Some [_ ?]%lookup_delete_Some. by eapply H1.
  - intros j p [_ ?]%lookup_delete_Some. by eapply Hf.
Qed.

Lemma fly_step_inv s s' : fly_step s s' → fly_inv s → fly_inv s'.
Proof.
  destruct 1; intros Hinv.
  - by eapply fly_inv_begin.
  - by eapply fly_inv_decide.
  - by eapply fly_inv_end.
  - by eapply fly_inv_follow.
Qed.

Definition no_flights : flying := mkFlying (mkFlights ∅ []) ∅.

Lemma fly_reachable_inv s : rtc fly_step no_flights s → fly_inv s.
Proof.
  intros Hr. assert (fly_inv no_flights) as H0.
  { split; simpl; try done; intros *; rewrite ?lookup_empty; done. }
  revert H0. induction Hr as [|x y z Hxy _ IH]; [done|]. intros Hx. by apply IH, (fly_step_inv x).
Qed.

(** A decision that has been taken stands. *)
Lemma fly_step_decision s s' ptr x d :
  fly_step s s' → fl_heap (fy_flights s) !! ptr = Some x → fl_decision x = Some d →
  ∃ x', fl_heap (fy_flights s') !! ptr = Some x' ∧ fl_decision x' = Some d.
Proof.
  intros Hs Hx Hd.
  assert (∀ f g q, (∀ y, fl_decision y = Some d → fl_decision (g y) = Some d) → fl_heap f !! ptr = Some x →
    ∃ x', alter g q (fl_heap f) !! ptr = Some x' ∧ fl_decision x' = Some d) as Halter.
  { intros f g q Hg Hf. destruct (decide (ptr = q)) as [->|Hne].
    - exists (g x). rewrite list_lookup_alter_eq, Hf. split; [done|auto].
    - exists x. by rewrite list_lookup_alter_ne. }
  assert (∀ d' y, fl_decision y = Some d → fl_decision (settle d' y) = Some d) as Hset.
  { intros d' y Hy. unfold settle. by rewrite Hy. }
  destruct Hs as [f slots i event f' q lead Hi Hb|f slots i event q d' Hi|f slots i event q Hi|f slots i q Hi];
    simpl in *; [|apply Halter; [apply Hset|done]..|eauto].
  unfold beginDelivery in Hb. destruct (fl_map f !! event); injection Hb as <- <- <-; simpl.
  - by apply Halter.
  - exists x. split; [by apply lookup_app_l_Some|done].
Qed.

(** Duplicates of a notification share one execution and one decision.  However
    the slots of a process interleave, no event ever has two leaders, so that a
    duplicate that arrives while its event is being executed cannot start it again;
    every follower's flight is decided or still has its leader, so that none waits
    for a decision nobody will take; and a decision, once taken, never changes. *)
Theorem duplicates_share_one_leader s :
  rtc fly_step no_flights s →
  (∀ i j event p q, fy_slots s !! i = Some (Leading event p) → fy_slots s !! j = Some (Leading event q) → i = j) ∧
  (∀ i ptr, fy_slots s !! i = Some (Following ptr) →
     decided (fy_flights s) ptr ∨ ∃ j event, fy_slots s !! j = Some (Leading event ptr)) ∧
  (∀ s' ptr x d, fly_step s s' → fl_heap (fy_flights s) !! ptr = Some x → fl_decision x = Some d →
     ∃ x', fl_heap (fy_flights s') !! ptr = Some x' ∧ fl_decision x' = Some d).
Proof.
  intros [Hl Hm Hj H1 Hf]%fly_reachable_inv. split_and!.
  - intros i j event p q Hi Hk. pose proof (Hl _ _ _ Hi). pose proof (Hl _ _ _ Hk). simplify_eq. by eapply H1.
  - intros i ptr Hi. destruct (Hf i ptr Hi) as [?|[event He]]; [by left|right].
    destruct (Hm event ptr He) as [_ [j Hs]]. eauto.
  - intros s' ptr x d. apply fly_step_decision.
Qed.
