(* ===== verification/Supervisor.v ===== *)
(** * Package worker: the goroutines of [Runner.Run]

    internal/worker/runner.go, [Run] and the loop of [runSlot]: the main goroutine, the
    heartbeat goroutine, the slot goroutines and the one that waits for them, with
    the two contexts, the channel of fatal errors (capacity 1), [slotsDone],
    [heartbeatDone] and the readiness flag they share.

    A goroutine is where it stands between two statements; a [turn] names the
    goroutine that moves and what it meets (the arm of a select, what a call
    returned).  [sup_turn] is that move; a schedule is a list of turns.  What a
    handler, the broker or the control plane answer is free. *)

From S2P Require Import Prelude.
From S2P Require Import GoTime.
From S2P Require Import WorkersTypes.
From S2P Require Import Client.
From S2P Require Import Handlers.
From S2P Require Import Runner.
From S2P Require Import Wiring.

(** ** Where the goroutines stand *)

(** What [Run] returns: nil, the error of a session without authority, or
    [ErrShutdownTimeout]. *)
Inductive run_result := RunNil | RunFatal (f : fatal) | RunShutdownTimeout.
Definition run_error (e : option fatal) : run_result :=
  match e with None => RunNil | Some f => RunFatal f end.

(** The main goroutine, from the loop that starts the slots to its last deferred call.
    The deferred calls run in the reverse of their order in the source. *)
Inductive main_phase :=
| Spawning (left : nat)
| Selecting
| SlotsOver
| FatalTaken (f : fatal)
| Unreadying (runErr : option fatal)
| StoppingIntake (runErr : option fatal)
| Draining (runErr : option fatal)
| Drained (runErr : option fatal)
| TimedOut
| Returning (r : run_result)
| Joining (r : run_result)
| LeavingCompletion (r : run_result)
| LeavingIntake (r : run_result)
| LeavingReady (r : run_result)
| Returned (r : run_result).

(** The heartbeat goroutine: in [runHeartbeat], then its three statements on an error. *)
Inductive beat_phase :=
| Beating | BeatLost (f : fatal) | BeatUnready (f : fatal) | BeatStopped (f : fatal) | BeatEnded.

(** A slot goroutine: at the loop's condition, in [Receive], in the backoff after a failed
    poll, in [processMessage], about to report an error, or ended ([slots.Done]). *)
Inductive slot_phase :=
| SlotHead | SlotPolling | SlotBackoff | SlotBusy | SlotLost (f : fatal) | SlotEnded.

Record Supervised := mkSupervised {
  su_cancelled : bool;            (* ctx *)
  su_intake_stopped : bool;       (* stopIntake was called *)
  su_completion_stopped : bool;   (* stopCompletion was called *)
  su_ready : bool;
  su_fatal : option fatal;
  su_slots_done : bool;           (* slotsDone is closed *)
  su_main : main_phase;
  su_beat : beat_phase;
  su_slots : list slot_phase }.

#[export] Instance eta_Supervised : Eta Supervised := λ s,
  mkSupervised (su_cancelled s) (su_intake_stopped s) (su_completion_stopped s) (su_ready s)
    (su_fatal s) (su_slots_done s) (su_main s) (su_beat s) (su_slots s).

(** [intakeCtx.Err() != nil]: it derives from ctx.  The completion context does not. *)
Definition intake_over (s : Supervised) : bool := su_cancelled s || su_intake_stopped s.

(** After a registration with this limit, once the heartbeat goroutine is started. *)
Definition supervised (limit : Z) : Supervised :=
  mkSupervised false false false true None false (Spawning (Z.to_nat limit)) Beating [].

(** ** Moves *)

Inductive arm := ArmCtxDone | ArmFatal | ArmSlotsDone | ArmTimer.
Inductive polled := PolledError | PolledNothing | PolledMessage.

Inductive turn :=
| CtxCancelled
| MainRuns                         (* its next statement *)
| MainSelects (a : arm)
| BeatReturns (e : option fatal)   (* runHeartbeat returns *)
| BeatRuns
| SlotRuns (i : nat)
| SlotPolled (i : nat) (p : polled)
| SlotWaited (i : nat) (elapsed : bool)
| SlotProcessed (i : nat) (e : option fatal)
| WaiterCloses.

(** [select { case fatal <- err: default: }]. *)
Definition send_fatal (f : fatal) (s : Supervised) : Supervised :=
  match su_fatal s with None => s <| su_fatal := Some f |> | Some _ => s end.

Definition at_main (m : main_phase) (s : Supervised) : option Supervised := Some (s <| su_main := m |>).
Definition main_runs (s : Supervised) : option Supervised :=
  match su_main s with
  | Spawning 0 => at_main Selecting s
  | Spawning (S n) => at_main (Spawning n) (s <| su_slots := (su_slots s ++ [SlotHead])%list |>)
  | SlotsOver => at_main (Returning (run_error (su_fatal s))) (s <| su_fatal := None |>)
  | FatalTaken f => at_main (Unreadying (Some f)) (s <| su_completion_stopped := true |>)
  | Unreadying e => at_main (StoppingIntake e) (s <| su_ready := false |>)
  | StoppingIntake e => at_main (Draining e) (s <| su_intake_stopped := true |>)
  | Drained (Some f) => at_main (Returning (RunFatal f)) s
  | Drained None => at_main (Returning (run_error (su_fatal s))) (s <| su_fatal := None |>)
  | TimedOut => at_main (Returning RunShutdownTimeout) (s <| su_completion_stopped := true |>)
  | Returning r => at_main (Joining r) (s <| su_completion_stopped := true |>)
  | Joining r => match su_beat s with BeatEnded => at_main (LeavingCompletion r) s | _ => None end
  | LeavingCompletion r => at_main (LeavingIntake r) (s <| su_completion_stopped := true |>)
  | LeavingIntake r => at_main (LeavingReady r) (s <| su_intake_stopped := true |>)
  | LeavingReady r => at_main (Returned r) (s <| su_ready := false |>)
  | Selecting | Draining _ | Returned _ => None
  end.

(** The two selects; an arm that is not ready is not taken. *)
Definition main_selects (a : arm) (s : Supervised) : option Supervised :=
  match su_main s, a with
  | Selecting, ArmCtxDone => if su_cancelled s then at_main (Unreadying None) s else None
  | Selecting, ArmFatal =>
    match su_fatal s with Some f => at_main (FatalTaken f) (s <| su_fatal := None |>) | None => None end
  | Selecting, ArmSlotsDone => if su_slots_done s then at_main SlotsOver s else None
  | Draining e, ArmSlotsDone => if su_slots_done s then at_main (Drained e) s else None
  | Draining _, ArmTimer => at_main TimedOut s
  | _, _ => None
  end.

Definition at_beat (b : beat_phase) (s : Supervised) : option Supervised := Some (s <| su_beat := b |>).
Definition beat_runs (s : Supervised) : option Supervised :=
  match su_beat s with
  | BeatLost f => at_beat (BeatUnready f) (s <| su_ready := false |>)
  | BeatUnready f => at_beat (BeatStopped f) (s <| su_intake_stopped := true |>)
  | BeatStopped f => at_beat BeatEnded (send_fatal f s)
  | Beating | BeatEnded => None
  end.

(** [runHeartbeat] returns nil only when its context has ended. *)
Definition beat_returns (e : option fatal) (s : Supervised) : option Supervised :=
  match su_beat s, e with
  | Beating, Some f => at_beat (BeatLost f) s
  | Beating, None => if su_completion_stopped s then at_beat BeatEnded s else None
  | _, _ => None
  end.

Definition at_slot (i : nat) (p : slot_phase) (s : Supervised) : option Supervised :=
  Some (s <| su_slots := <[i := p]> (su_slots s) |>).
Definition slot_runs (i : nat) (s : Supervised) : option Supervised :=
  match su_slots s !! i with
  | Some SlotHead => at_slot i (if intake_over s then SlotEnded else SlotPolling) s
  | Some (SlotLost f) => at_slot i SlotEnded (send_fatal f s)
  | _ => None
  end.
Definition slot_polled (i : nat) (p : polled) (s : Supervised) : option Supervised :=
  match su_slots s !! i with
  | Some SlotPolling =>
    match p with
    | PolledError => at_slot i (if intake_over s then SlotEnded else SlotBackoff) s
    | PolledNothing => at_slot i SlotHead s
    | PolledMessage => at_slot i SlotBusy s
    end
  | _ => None
  end.
(** [waitContext] of the backoff: the timer, or the context when it has ended. *)
Definition slot_waited (i : nat) (elapsed : bool) (s : Supervised) : option Supervised :=
  match su_slots s !! i with
  | Some SlotBackoff =>
    if elapsed then at_slot i SlotHead s
    else if intake_over s then at_slot i SlotEnded s else None
  | _ => None
  end.
Definition slot_processed (i : nat) (e : option fatal) (s : Supervised) : option Supervised :=
  match su_slots s !! i with
  | Some SlotBusy => at_slot i (match e with Some f => SlotLost f | None => SlotHead end) s
  | _ => None
  end.

Definition slot_ended (p : slot_phase) : bool := match p with SlotEnded => true | _ => false end.
Definition spawning (m : main_phase) : bool := match m with Spawning _ => true | _ => false end.

(** [slots.Wait(); close(slotsDone)], in a goroutine started after the slots. *)
Definition waiter_closes (s : Supervised) : option Supervised :=
  if negb (spawning (su_main s)) && negb (su_slots_done s) && forallb slot_ended (su_slots s)
  then Some (s <| su_slots_done := true |>) else None.

Definition sup_turn (t : turn) (s : Supervised) : option Supervised :=
  match t with
  | CtxCancelled => Some (s <| su_cancelled := true |>)
  | MainRuns => main_runs s
  | MainSelects a => main_selects a s
  | BeatReturns e => beat_returns e s
  | BeatRuns => beat_runs s
  | SlotRuns i => slot_runs i s
  | SlotPolled i p => slot_polled i p s
  | SlotWaited i elapsed => slot_waited i elapsed s
  | SlotProcessed i e => slot_processed i e s
  | WaiterCloses => waiter_closes s
  end.

Fixpoint sup_run (l : list turn) (s : Supervised) : option Supervised :=
  match l with
  | [] => Some s
  | t :: l' => match sup_turn t s with Some s' => sup_run l' s' | None => None end
  end.

(** ** The start of [Run] *)

Section start.
Context {St : Type} `{ControlPlane St}.
Context (cfg : RunnerConfig) (registry : Registry).

(** Registration, retried; an error is what [Run] returns before any goroutine is started. *)
Definition Run_start : M (Process St) call_error (ClientSession * Supervised) :=
  session ← retry (retries cfg) (control_call (cp_Register (sent_registration cfg registry)));
  mret (session, supervised (cs_concurrency_limit session)).
End start.

(** ** What [Runner.Run] promises its process

    For every schedule of the goroutines of [Supervisor]: what [Run] has stopped and
    waited for when it returns, what its answer says about the work and the session,
    and that a requested shutdown ends. *)

(** ** Schedules *)

Lemma sup_run_app l1 l2 s :
  sup_run (l1 ++ l2)%list s = match sup_run l1 s with Some s' => sup_run l2 s' | None => None end.
Proof. revert s. induction l1 as [|t l1 IH]; intros s; simpl; [done|]. destruct (sup_turn t s); auto. Qed.

(** Induction over the schedules from a state. *)
Lemma sup_run_ind (P : list turn → Supervised → Prop) s0 :
  P [] s0 →
  (∀ l t s s', sup_run l s0 = Some s → P l s → sup_turn t s = Some s' → P (l ++ [t])%list s') →
  ∀ l s, sup_run l s0 = Some s → P l s.
Proof.
  intros Hinit Hstep l. induction l as [|t l IH] using rev_ind; intros s Hrun.
  - simpl in Hrun. by simplify_eq.
  - rewrite sup_run_app in Hrun. destruct (sup_run l s0) as [s1|] eqn:H1; [|done].
    simpl in Hrun. destruct (sup_turn t s1) as [s2|] eqn:H2; [|done]. simplify_eq. eauto.
Qed.

Definition happened (p : turn → bool) (l : list turn) : Prop := existsb p l = true.
Lemma happened_snoc p l t : happened p (l ++ [t])%list ↔ happened p l ∨ p t = true.
Proof. unfold happened. rewrite existsb_app, orb_true_iff. simpl. by rewrite orb_false_r. Qed.

(** What a schedule met. *)
Definition shutdown_asked (t : turn) : bool := match t with CtxCancelled => true | _ => false end.
Definition heartbeat_failed (t : turn) : bool := match t with BeatReturns (Some _) => true | _ => false end.
Definition slot_failed (t : turn) : bool := match t with SlotProcessed _ (Some _) => true | _ => false end.
Definition stops (t : turn) : bool := shutdown_asked t || heartbeat_failed t || slot_failed t.
Definition reports (f : fatal) (l : list turn) : Prop :=
  BeatReturns (Some f) ∈ l ∨ ∃ i, SlotProcessed i (Some f) ∈ l.

Lemma reports_snoc f l t :
  reports f l → reports f (l ++ [t])%list.
Proof. unfold reports. setoid_rewrite elem_of_app. naive_solver. Qed.
Lemma reports_beat f l : reports f (l ++ [BeatReturns (Some f)])%list.
Proof. left. apply elem_of_app. right. by constructor. Qed.
Lemma reports_slot f i l : reports f (l ++ [SlotProcessed i (Some f)])%list.
Proof. right. exists i. apply elem_of_app. right. by constructor. Qed.

(** ** What each stage of the main goroutine may rely on *)

Definition spawn_left (m : main_phase) : nat := match m with Spawning n => n | _ => 0 end.
Definition decided_on (m : main_phase) : bool := match m with Spawning _ | Selecting => false | _ => true end.
(** The answer it is on its way to return. *)
Definition answer (m : main_phase) : option run_result :=
  match m with
  | Returning r | Joining r | LeavingCompletion r | LeavingIntake r | LeavingReady r | Returned r => Some r
  | _ => None
  end.
Definition held (m : main_phase) : option fatal :=
  match m with
  | FatalTaken f => Some f
  | Unreadying e | StoppingIntake e | Draining e | Drained e => e
  | _ => match answer m with Some (RunFatal f) => Some f | _ => None end
  end.
Definition waited_for_slots (m : main_phase) : bool :=
  match m with
  | SlotsOver | Drained _ => true
  | _ => match answer m with Some RunNil | Some (RunFatal _) => true | _ => false end
  end.
Definition completion_closed (m : main_phase) : bool :=
  match m with
  | Joining _ | LeavingCompletion _ | LeavingIntake _ | LeavingReady _ | Returned _ => true
  | Returning RunShutdownTimeout => true
  | Unreadying (Some _) | StoppingIntake (Some _) | Draining (Some _) | Drained (Some _) => true
  | _ => false
  end.
Definition beat_joined (m : main_phase) : bool :=
  match m with LeavingCompletion _ | LeavingIntake _ | LeavingReady _ | Returned _ => true | _ => false end.
Definition unready (m : main_phase) : bool :=
  match m with StoppingIntake _ | Draining _ | Drained _ | TimedOut | Returned _ => true | _ => false end.
Definition intake_closed (m : main_phase) : bool :=
  match m with Draining _ | Drained _ | TimedOut | LeavingReady _ | Returned _ => true | _ => false end.
Definition beat_gone (b : beat_phase) : bool :=
  match b with BeatUnready _ | BeatStopped _ => true | _ => false end.
Definition beat_ended (b : beat_phase) : bool := match b with BeatEnded => true | _ => false end.
Definition beat_held (b : beat_phase) : option fatal :=
  match b with BeatLost f | BeatUnready f | BeatStopped f => Some f | Beating | BeatEnded => None end.
Definition last_statement (m : main_phase) : bool := match m with LeavingReady _ => true | _ => false end.
Definition present {A} (o : option A) : bool := match o with Some _ => true | None => false end.
(** A fatal error is on its way to the answer. *)
Definition carried (s : Supervised) : bool :=
  match answer (su_main s) with
  | Some RunNil => false
  | Some _ => true
  | None => present (su_fatal s) || present (held (su_main s)) ||
            match su_main s with TimedOut => true | _ => false end
  end.

Record sup_inv (limit : nat) (l : list turn) (s : Supervised) : Prop := {
  sv_length : length (su_slots s) + spawn_left (su_main s) = limit;
  sv_spawned : su_slots_done s = true → spawning (su_main s) = false;
  sv_ended : su_slots_done s = true → forallb slot_ended (su_slots s) = true;
  sv_waited : waited_for_slots (su_main s) = true → su_slots_done s = true;
  sv_completion : completion_closed (su_main s) = true → su_completion_stopped s = true;
  sv_joined : beat_joined (su_main s) = true → beat_ended (su_beat s) = true;
  sv_unready : unready (su_main s) = true → su_ready s = false;
  sv_gone : beat_gone (su_beat s) = true → su_ready s = false;
  sv_intake : intake_closed (su_main s) = true → su_intake_stopped s = true;
  sv_ready : su_ready s = true → su_intake_stopped s = true → last_statement (su_main s) = true;
  sv_cancelled : su_cancelled s = true → happened shutdown_asked l;
  sv_decided : decided_on (su_main s) = true → limit = 0 ∨ happened stops l;
  sv_stopped : su_intake_stopped s = true → limit = 0 ∨ happened stops l;
  sv_slot_ended : SlotEnded ∈ su_slots s → limit = 0 ∨ happened stops l;
  sv_fatal : ∀ f, su_fatal s = Some f → reports f l;
  sv_held : ∀ f, held (su_main s) = Some f → reports f l;
  sv_beat : ∀ f, beat_held (su_beat s) = Some f → reports f l;
  sv_slot : ∀ f, SlotLost f ∈ su_slots s → reports f l;
  sv_kept : happened slot_failed l → carried s = true ∨ ∃ f, SlotLost f ∈ su_slots s }.

Lemma happened_mono p l t : happened p l → happened p (l ++ [t])%list.
Proof. rewrite happened_snoc. auto. Qed.
Lemma happened_stops l : happened shutdown_asked l → happened stops l.
Proof.
  unfold happened. rewrite !existsb_exists. intros (t & Hin & Ht). exists t. split; [done|].
  unfold stops. by rewrite Ht.
Qed.
Lemma reports_stops f l : reports f l → happened stops l.
Proof.
  unfold happened. rewrite existsb_exists. intros [H|[i H]]; apply list_elem_of_In in H; eauto.
Qed.

Create HintDb sup.
#[local] Hint Resolve happened_mono happened_stops reports_stops reports_snoc reports_beat reports_slot : sup.

(** A turn that reports nothing new about a slot only lengthens the schedule. *)
Lemma sup_inv_longer limit l s t :
  slot_failed t = false → sup_inv limit l s → sup_inv limit (l ++ [t])%list s.
Proof.
  intros Ht []. constructor; auto with sup.
  1-3: intros Hw; first [destruct (sv_decided0 Hw)|destruct (sv_stopped0 Hw)|destruct (sv_slot_ended0 Hw)]; auto with sup.
  - rewrite happened_snoc. intros [Hf|Hf]; [auto|congruence].
Qed.

(** The case analysis of a move of one goroutine, and what is left of each part of the invariant. *)
Ltac moves H :=
  repeat match type of H with
         | context [match ?x with _ => _ end] => destruct x eqn:?; try discriminate H
         end.
Ltac phases := simpl in *; intros; simplify_eq/=; try done; eauto 3 with sup; try (right; solve [eauto 4 with sup]).

(** The slots after a start and after a move of one of them. *)
Lemma elem_of_spawned p (ss : list slot_phase) : p ≠ SlotHead → p ∈ (ss ++ [SlotHead])%list ↔ p ∈ ss.
Proof. rewrite elem_of_app, list_elem_of_singleton. naive_solver. Qed.
Lemma elem_of_moved i p q (ss : list slot_phase) : q ∈ <[i := p]> ss → q = p ∨ q ∈ ss.
Proof.
  rewrite !list_elem_of_lookup. intros [j Hj]. apply list_lookup_insert_Some in Hj. naive_solver.
Qed.
Lemma live_slot i p (ss : list slot_phase) :
  ss !! i = Some p → slot_ended p = false → forallb slot_ended ss = true → False.
Proof.
  intros Hi Hp Hall. rewrite forallb_forall in Hall. specialize (Hall p).
  rewrite <-list_elem_of_In in Hall. rewrite Hall in Hp; [done|]. by eapply list_elem_of_lookup_2.
Qed.

Lemma spawned_inv limit l s n :
  sup_inv limit l s → su_main s = Spawning (S n) →
  sup_inv limit l (s <| su_slots := (su_slots s ++ [SlotHead])%list |> <| su_main := Spawning n |>).
Proof.
  destruct s as [c i k r f d m b ss]. simpl. intros [] ->. simpl in *.
  constructor; simpl; auto; try done.
  - rewrite length_app. simpl. lia.
  - intros Hd. by specialize (sv_spawned0 Hd).
  - rewrite elem_of_spawned by done. auto.
  - intros g. rewrite elem_of_spawned by done. auto.
  - setoid_rewrite elem_of_spawned; [|done..]. auto.
Qed.

Lemma main_runs_inv limit l s s' : sup_inv limit l s → main_runs s = Some s' → sup_inv limit l s'.
Proof.
  intros Hinv H. destruct (su_main s) as [[|n]| | | | | | | | | | | | | |] eqn:Hm.
  2: { unfold main_runs in H. rewrite Hm in H. injection H as <-. by apply spawned_inv. }
  all: destruct s as [? ? ? ? [?|] ? m ? ?]; destruct Hinv; unfold main_runs, at_main in H;
    simpl in *; subst m; simpl in *; moves H; try discriminate H; injection H as <-; constructor; phases.
  all: by specialize (sv_unready0 eq_refl).
Qed.

Lemma some_slot_ended (ss : list slot_phase) Q :
  forallb slot_ended ss = true → (SlotEnded ∈ ss → length ss + 0 = 0 ∨ Q) → length ss + 0 = 0 ∨ Q.
Proof.
  destruct ss as [|p ss]; [by left|]. simpl. rewrite andb_true_iff. intros [Hp _] HQ.
  apply HQ. destruct p; try done. constructor.
Qed.

Lemma main_selects_inv limit l a s s' : sup_inv limit l s → main_selects a s = Some s' → sup_inv limit l s'.
Proof.
  intros [] H. destruct s as [? ? ? ? [?|] ? m ? ?]; unfold main_selects, at_main in H; simpl in *;
    destruct m, a; simpl in *; moves H; try discriminate H; injection H as <-; constructor; phases;
    by apply some_slot_ended; auto.
Qed.

Lemma beat_runs_inv limit l s s' : sup_inv limit l s → beat_runs s = Some s' → sup_inv limit l s'.
Proof.
  intros [] H. destruct s as [? ? ? ? [?|] ? m b ?]; unfold beat_runs, at_beat, send_fatal in H; simpl in *;
    destruct b; simpl in *; moves H; try discriminate H; injection H as <-; constructor; phases;
    try (by specialize (sv_gone0 eq_refl)).
  match goal with H : happened slot_failed l |- _ => destruct (sv_kept0 H) as [?|?]; [left|by right] end.
  by destruct m.
Qed.

Lemma beat_returns_inv limit l e s s' :
  sup_inv limit l s → (∀ f, e = Some f → reports f l) → beat_returns e s = Some s' → sup_inv limit l s'.
Proof.
  intros [] He H. destruct s as [? ? ? ? ? ? m b ?]; unfold beat_returns, at_beat in H; simpl in *;
    destruct b; simpl in *; moves H; try discriminate H; injection H as <-; constructor; phases.
Qed.

Lemma waiter_closes_inv limit l s s' : sup_inv limit l s → waiter_closes s = Some s' → sup_inv limit l s'.
Proof.
  intros [] H. destruct s as [? ? ? ? ? ? m b ?]; unfold waiter_closes in H; simpl in *;
    moves H; try discriminate H; injection H as <-; bools; constructor; phases.
Qed.

(** A send to the channel. *)
Lemma send_fatal_inv limit l s f : sup_inv limit l s → reports f l → sup_inv limit l (send_fatal f s).
Proof.
  intros [] Hf. destruct s as [? ? ? ? [?|] ? m b ?]; unfold send_fatal; simpl in *; constructor; phases.
  match goal with H : happened slot_failed l |- _ => destruct (sv_kept0 H) as [?|?]; [left|by right] end.
  by destruct m.
Qed.

Lemma send_fatal_slots f s : su_slots (send_fatal f s) = su_slots s.
Proof. unfold send_fatal. by destruct (su_fatal s). Qed.

(** While a slot lives, what was sent is on its way to the answer. *)
Lemma carried_sent limit l s f i p :
  sup_inv limit l s → su_slots s !! i = Some p → slot_ended p = false → carried (send_fatal f s) = true.
Proof.
  intros [] Hi Hp. destruct (waited_for_slots (su_main s)) eqn:Hw.
  - exfalso. eauto using live_slot.
  - clear - Hw. destruct s as [? ? ? ? [?|] ? m ? ?]; unfold carried, send_fatal; simpl in *;
      destruct m as [| | | | | | | | |r|r|r|r|r|r]; try done; by destruct r.
Qed.

Lemma intake_over_stops limit l s : sup_inv limit l s → intake_over s = true → limit = 0 ∨ happened stops l.
Proof. intros [] [H|H]%orb_true_iff; auto with sup. Qed.

(** A slot that moves was not ended, so the waiter has not closed [slotsDone]. *)
Lemma slot_moved_inv limit l t s i p p' :
  sup_inv limit l s → su_slots s !! i = Some p → slot_ended p = false →
  (p' = SlotEnded → limit = 0 ∨ happened stops l) →
  (∀ f, p' = SlotLost f → reports f (l ++ [t])%list) →
  (∀ f, p = SlotLost f → carried s = true) →
  (slot_failed t = true → ∃ f, p' = SlotLost f) →
  sup_inv limit (l ++ [t])%list (s <| su_slots := <[i := p']> (su_slots s) |>).
Proof.
  intros Hinv Hi Hp Hend Hlost Hfree Hnew.
  assert (Hat : su_slots s !! i = Some p → <[i := p']> (su_slots s) !! i = Some p')
    by (intros ?; apply list_lookup_insert_eq; eauto using lookup_lt_Some).
  destruct Hinv. constructor; simpl; auto with sup.
  - by rewrite length_insert.
  - intros Hd. exfalso. eauto using live_slot.
  - intros Hd. destruct (sv_decided0 Hd); auto with sup.
  - intros Hd. destruct (sv_stopped0 Hd); auto with sup.
  - intros [<-|Hd]%elem_of_moved; [destruct Hend|destruct (sv_slot_ended0 Hd)]; auto with sup.
  - intros f [<-|?]%elem_of_moved; auto with sup.
  - intros [Hf|Hf]%happened_snoc.
    2: { destruct (Hnew Hf) as [f ->]. right. exists f. eauto using list_elem_of_lookup_2. }
    destruct (sv_kept0 Hf) as [Hc|[f Hlf]]; [by left|].
    apply list_elem_of_lookup in Hlf as [j Hj]. destruct (decide (i = j)) as [<-|Hne].
    + left. apply (Hfree f). congruence.
    + right. exists f. apply list_elem_of_lookup. exists j. by rewrite list_lookup_insert_ne.
Qed.

Ltac slot_case H :=
  simpl in H; unfold at_slot in H;
  match type of H with context [su_slots ?s !! ?i] => destruct (su_slots s !! i) as [[]|] eqn:? end;
  try discriminate H; moves H; try discriminate H; injection H as <-.

Lemma slot_turn_inv limit l t s s' :
  sup_inv limit l s → (∃ i, t = SlotRuns i) ∨ (∃ i p, t = SlotPolled i p) ∨
    (∃ i b, t = SlotWaited i b) ∨ (∃ i e, t = SlotProcessed i e) →
  sup_turn t s = Some s' → sup_inv limit (l ++ [t])%list s'.
Proof.
  intros Hinv [[i ->]|[(i & p & ->)|[(i & b & ->)|(i & e & ->)]]] H;
    [unfold sup_turn, slot_runs in H|unfold sup_turn, slot_polled in H|unfold sup_turn, slot_waited in H|
     unfold sup_turn, slot_processed in H]; slot_case H.
  3: { apply (slot_moved_inv limit l (SlotRuns i) (send_fatal f s) i (SlotLost f) SlotEnded); try done.
       - apply send_fatal_inv; [done|]. eapply sv_slot; [done|]. eauto using list_elem_of_lookup_2.
       - by rewrite send_fatal_slots.
       - intros _. right. apply (reports_stops f). eapply sv_slot; [done|]. eauto using list_elem_of_lookup_2.
       - intros g _. eauto using carried_sent. }
  all: eapply (slot_moved_inv limit l _ s i); eauto using intake_over_stops; try done.
  - intros g [= <-]. apply reports_slot.
Qed.

Lemma sup_turn_inv limit l t s s' :
  sup_inv limit l s → sup_turn t s = Some s' → sup_inv limit (l ++ [t])%list s'.
Proof.
  intros Hinv H. destruct (slot_failed t) eqn:Hf.
  { eapply slot_turn_inv; [done| |done]. destruct t as [| | | | | | | |? [?|]|]; try done. eauto 8. }
  assert (Hl := sup_inv_longer _ _ _ _ Hf Hinv).
  destruct t as [| | |e| | | | | |]; simpl in H.
  - injection H as <-. destruct Hl. constructor; simpl; auto.
    intros _. apply happened_snoc. by right.
  - eauto using main_runs_inv.
  - eauto using main_selects_inv.
  - eapply beat_returns_inv; eauto. intros f ->. apply reports_beat.
  - eauto using beat_runs_inv.
  - eapply slot_turn_inv; eauto 8.
  - eapply slot_turn_inv; eauto 8.
  - eapply slot_turn_inv; eauto 8.
  - eapply slot_turn_inv; eauto 8.
  - eauto using waiter_closes_inv.
Qed.

Lemma supervised_inv limit : sup_inv (Z.to_nat limit) [] (supervised limit).
Proof.
  constructor; simpl; try done.
  - intros H. by apply elem_of_nil in H.
  - intros f H. by apply elem_of_nil in H.
Qed.

Lemma sup_run_inv limit l s : sup_run l (supervised limit) = Some s → sup_inv (Z.to_nat limit) l s.
Proof.
  revert l s. apply sup_run_ind; [apply supervised_inv|]. eauto using sup_turn_inv.
Qed.

(** ** What the answer of [Run] says *)

Lemma stops_cases l :
  happened stops l → happened shutdown_asked l ∨ happened heartbeat_failed l ∨ happened slot_failed l.
Proof.
  unfold happened. rewrite !existsb_exists. intros (t & Hin & [[Ht|Ht]%orb_true_iff|Ht]%orb_true_iff); eauto 8.
Qed.
Lemma all_ended (ss : list slot_phase) : forallb slot_ended ss = true → ∀ p, p ∈ ss → p = SlotEnded.
Proof.
  rewrite forallb_forall. intros H p Hp. apply list_elem_of_In, H in Hp. by destruct p.
Qed.
Lemma no_lost_slot (ss : list slot_phase) f : forallb slot_ended ss = true → SlotLost f ∉ ss.
Proof. intros H Hin. by specialize (all_ended _ H _ Hin). Qed.

(** What is known of a schedule from the answer alone. *)
Definition answer_explained (limit : Z) (l : list turn) (r : run_result) : Prop :=
  match r with
  | RunNil => ¬ happened slot_failed l ∧
              ((limit <= 0)%Z ∨ happened shutdown_asked l ∨ happened heartbeat_failed l)
  | RunFatal f => reports f l
  | RunShutdownTimeout => (limit <= 0)%Z ∨ happened stops l
  end.

Lemma Returned_explained limit l s r :
  sup_inv (Z.to_nat limit) l s → su_main s = Returned r → answer_explained limit l r.
Proof.
  intros [] Hm. rewrite Hm in *. simpl in *.
  assert (Hwhy : (limit <= 0)%Z ∨ happened stops l) by (destruct (sv_decided0 eq_refl); [left; lia|auto]).
  destruct r as [|f|]; simpl in *; auto.
  assert (Hslots : ¬ happened slot_failed l).
  { intros Hf. destruct (sv_kept0 Hf) as [Hc|[f Hlf]].
    - unfold carried in Hc. by rewrite Hm in Hc.
    - eapply no_lost_slot; eauto. }
  split; [done|]. destruct Hwhy as [?|[?|[?|?]]%stops_cases]; auto. contradiction.
Qed.

(** C9: however its goroutines interleave, when [Run] returns, the heartbeat goroutine has
    ended, the process is not ready, both contexts are cancelled, and unless the drain timed
    out every slot the session allows was started and has ended.  A nil answer means that no
    slot lost the session and that a shutdown was asked or the heartbeat failed; a session
    error it returns is one that a slot or the heartbeat reported. *)
Theorem Run_return_is_clean limit l s r :
  sup_run l (supervised limit) = Some s → su_main s = Returned r →
  su_beat s = BeatEnded ∧ su_ready s = false ∧ su_intake_stopped s = true ∧ su_completion_stopped s = true ∧
  (r ≠ RunShutdownTimeout →
     length (su_slots s) = Z.to_nat limit ∧ ∀ p, p ∈ su_slots s → p = SlotEnded) ∧
  answer_explained limit l r.
Proof.
  intros Hrun Hm. apply sup_run_inv in Hrun as Hinv. assert (Hex := Returned_explained _ _ _ _ Hinv Hm).
  destruct Hinv. rewrite Hm in *. simpl in *. split_and!; auto.
  - specialize (sv_joined0 eq_refl). by destruct (su_beat s).
  - intros Hr. split; [lia|]. apply all_ended, sv_ended0, sv_waited0. by destruct r.
Qed.

(** A session of two slots: a notification is processed by one while the other polls; a shutdown is
    asked, the slots drain, and [Run] returns. *)
Definition graceful : list turn :=
  [MainRuns; MainRuns; SlotRuns 0; SlotRuns 1; MainRuns; SlotPolled 0 PolledMessage; CtxCancelled;
   MainSelects ArmCtxDone; MainRuns; SlotPolled 1 PolledError; MainRuns; SlotProcessed 0 None;
   SlotRuns 0; WaiterCloses; MainSelects ArmSlotsDone; MainRuns; MainRuns; BeatReturns None;
   MainRuns; MainRuns; MainRuns; MainRuns].
Definition graceful_end : Supervised :=
  mkSupervised true true true false None true (Returned RunNil) BeatEnded [SlotEnded; SlotEnded].

Lemma Run_return_is_clean_witness :
  sup_run graceful (supervised 2) = Some graceful_end ∧ answer_explained 2 graceful RunNil.
Proof.
  split; [vm_compute; reflexivity|].
  apply (Run_return_is_clean 2 graceful graceful_end RunNil); vm_compute; reflexivity.
Defined.

(** The heartbeat goroutine stops intake before it sends its error: idle slots can end in between,
    and [Run] then answers nil for a session that was lost. *)
Example lost_session_answered_nil (f : fatal) :
  ∃ l s, sup_run l (supervised 1) = Some s ∧ su_main s = Returned RunNil ∧
         happened heartbeat_failed l ∧ ¬ happened shutdown_asked l.
Proof.
  exists [MainRuns; MainRuns; BeatReturns (Some f); BeatRuns; BeatRuns; SlotRuns 0; WaiterCloses;
          MainSelects ArmSlotsDone; MainRuns; BeatRuns; MainRuns; MainRuns; MainRuns; MainRuns; MainRuns].
  exists (mkSupervised false true true false (Some f) true (Returned RunNil) BeatEnded [SlotEnded]).
  split_and!; [vm_compute; reflexivity|done..].
Qed.

(** During a drain nothing receives from the channel: a session lost then does not cancel the
    handlers that still run; they end on their own or at the timeout. *)
Example lost_session_while_draining (f : fatal) :
  ∃ l s, sup_run l (supervised 1) = Some s ∧ su_main s = Draining None ∧ su_beat s = BeatEnded ∧
         su_fatal s = Some f ∧ su_slots s = [SlotBusy] ∧ su_completion_stopped s = false.
Proof.
  exists [MainRuns; MainRuns; SlotRuns 0; SlotPolled 0 PolledMessage; CtxCancelled; MainSelects ArmCtxDone;
          MainRuns; MainRuns; BeatReturns (Some f); BeatRuns; BeatRuns; BeatRuns].
  exists (mkSupervised true true false false (Some f) false (Draining None) BeatEnded [SlotBusy]).
  split_and!; [vm_compute; reflexivity|done..].
Qed.

(** ** Shutdown ends *)

(** The turns of the main and the heartbeat goroutine that wait for no handler, broker or control
    plane: their next statement, a ready arm (the timer among them), the return of
    [runHeartbeat] on its cancelled context. *)
Definition prompt (t : turn) : bool :=
  match t with
  | MainRuns | MainSelects _ | BeatRuns | BeatReturns None => true
  | _ => false
  end.

Definition main_rank (m : main_phase) : nat :=
  match m with
  | Spawning n => n + 14
  | Selecting => 13 | FatalTaken _ => 12 | Unreadying _ => 11 | StoppingIntake _ => 10 | Draining _ => 9
  | Drained _ | TimedOut | SlotsOver => 8
  | Returning _ => 6 | Joining _ => 5 | LeavingCompletion _ => 4 | LeavingIntake _ => 3 | LeavingReady _ => 2
  | Returned _ => 0
  end.
Definition beat_rank (b : beat_phase) : nat :=
  match b with Beating => 4 | BeatLost _ => 3 | BeatUnready _ => 2 | BeatStopped _ => 1 | BeatEnded => 0 end.
Definition sup_rank (s : Supervised) : nat := main_rank (su_main s) + beat_rank (su_beat s).

Lemma send_fatal_rank f s : sup_rank (send_fatal f s) = sup_rank s.
Proof. unfold send_fatal. by destruct (su_fatal s). Qed.

(** No turn raises the rank, and a prompt one lowers it. *)
Lemma sup_turn_rank t s s' :
  sup_turn t s = Some s' → sup_rank s' + (if prompt t then 1 else 0) <= sup_rank s.
Proof.
  destruct s as [c i k r f d m b ss]. intros H.
  destruct t as [| |a|[e|]| |j|j p|j b'|j [e|]|]; simpl in H;
    unfold main_runs, main_selects, beat_returns, beat_runs, slot_runs, slot_polled, slot_waited,
      slot_processed, waiter_closes, at_main, at_beat, at_slot, send_fatal in H; simpl in H;
    moves H; injection H as <-; unfold sup_rank; simpl in *; subst; simpl; lia.
Qed.

Lemma sup_run_rank l s s' :
  sup_run l s = Some s' → sup_rank s' + length (List.filter prompt l) <= sup_rank s.
Proof.
  revert s. induction l as [|t l IH]; intros s H; simpl in *; [simplify_eq; lia|].
  destruct (sup_turn t s) as [s1|] eqn:Ht; [|done].
  apply sup_turn_rank in Ht. apply IH in H. destruct (prompt t); simpl; lia.
Qed.

Lemma sup_turn_cancelled t s s' : sup_turn t s = Some s' → su_cancelled s = true → su_cancelled s' = true.
Proof.
  destruct s as [c i k r f d m b ss]. intros H Hc. simpl in Hc. subst c.
  destruct t as [| |a|[e|]| |j|j p|j b'|j [e|]|]; simpl in H;
    unfold main_runs, main_selects, beat_returns, beat_runs, slot_runs, slot_polled, slot_waited,
      slot_processed, waiter_closes, at_main, at_beat, at_slot, send_fatal in H; simpl in H;
    moves H; by injection H as <-.
Qed.
Lemma sup_run_cancelled l s s' : sup_run l s = Some s' → su_cancelled s = true → su_cancelled s' = true.
Proof.
  revert s. induction l as [|t l IH]; intros s H Hc; simpl in *; [by simplify_eq|].
  destruct (sup_turn t s) as [s1|] eqn:Ht; [|done]. eauto using sup_turn_cancelled.
Qed.

(** A cancelled supervisor that has not returned can always take a prompt turn. *)
Lemma sup_progress limit l s :
  sup_inv limit l s → su_cancelled s = true →
  (∃ r, su_main s = Returned r) ∨ ∃ t, prompt t = true ∧ is_Some (sup_turn t s).
Proof.
  intros [] Hc. destruct (su_main s) as [[|n]| | | |e|e|e|[g|]| |r|r|r|r|r|r] eqn:Hm; eauto; right.
  3: { exists (MainSelects ArmCtxDone). simpl. unfold main_selects. rewrite Hm, Hc. eauto. }
  7: { exists (MainSelects ArmTimer). simpl. unfold main_selects. rewrite Hm. eauto. }
  all: try (exists MainRuns; simpl; unfold main_runs; rewrite Hm; unfold at_main; by eauto).
  destruct (su_beat s) as [|f|f|f|] eqn:Hb.
  2-4: exists BeatRuns; simpl; unfold beat_runs; rewrite Hb; unfold at_beat; by eauto.
  - exists (BeatReturns None). simpl. unfold beat_returns. rewrite Hb, (sv_completion0 eq_refl). eauto.
  - exists MainRuns. simpl. unfold main_runs. rewrite Hm, Hb. eauto.
Qed.

(** C8: once its context is cancelled, [Run] returns: however the goroutines interleave and
    whatever the handlers, the broker and the control plane do, until it has returned a turn that
    waits for none of them is possible, and no schedule has more of those turns than the slots plus
    eighteen. *)
Theorem Run_shutdown_ends limit l s :
  sup_run l (supervised limit) = Some s → su_cancelled s = true →
  ∀ l' s', sup_run l' s = Some s' →
    length (List.filter prompt l') <= Z.to_nat limit + 18 ∧
    ((∃ r, su_main s' = Returned r) ∨ ∃ t, prompt t = true ∧ is_Some (sup_turn t s')).
Proof.
  intros Hrun Hc l' s' Hrun'. split.
  - apply sup_run_rank in Hrun, Hrun'. unfold sup_rank at 2 in Hrun. simpl in Hrun. lia.
  - apply (sup_progress (Z.to_nat limit) (l ++ l')%list); [|eauto using sup_run_cancelled].
    apply sup_run_inv. by rewrite sup_run_app, Hrun.
Qed.

(** A handler that never ends: the timer ends the drain. *)
Definition stuck : list turn :=
  [MainRuns; MainRuns; SlotRuns 0; SlotPolled 0 PolledMessage; CtxCancelled].
Definition stuck_state : Supervised :=
  mkSupervised true false false true None false Selecting Beating [SlotBusy].
Definition times_out : list turn :=
  [MainSelects ArmCtxDone; MainRuns; MainRuns; MainSelects ArmTimer; MainRuns; MainRuns; BeatReturns None;
   MainRuns; MainRuns; MainRuns; MainRuns].
Definition timed_out : Supervised :=
  mkSupervised true true true false None false (Returned RunShutdownTimeout) BeatEnded [SlotBusy].

Lemma Run_shutdown_ends_witness :
  option_map su_main (sup_run times_out stuck_state) = Some (Returned RunShutdownTimeout) ∧
  length (List.filter prompt times_out) <= 19.
Proof.
  split; [vm_compute; reflexivity|].
  apply (Run_shutdown_ends 1 stuck stuck_state) with (s' := timed_out); vm_compute; reflexivity.
Defined.

