(* ===== verification/HandlersTheorems.v ===== *)
(** * What a worker reports of a failure

    The message of a failed attempt: bounded, on one line, without control characters
    and in UTF-8, whatever the handler made of it; so that the control plane's
    validation never refuses a report for it. *)

From S2P Require Import Prelude.
From S2P Require Import GoText.
From S2P Require Import GoJson.
From S2P Require Import Schema.
From S2P Require Import Lifecycle.
From S2P Require Import WorkersTypes.
From S2P Require Import GoBytes.
From S2P Require Import Handlers.
From S2P Require Import Runner.
From S2P Require Import RunnerTheorems.

Local Open Scope string_scope.
#[local] Ltac Zify.zify_post_hook ::= Z.to_euclidean_division_equations.

(** ** Runes and bytes *)

Lemma runes_scalar s : Forall scalar (runes s).
Proof.
  unfold runes. generalize (String.length s) at 1. intros fuel. revert s.
  induction fuel as [|fuel IH]; intros [|c s]; cbn [runes_fuel]; try constructor.
  pose proof (decode_scalar (String c s)) as Hs. destruct (decode_rune (String c s)) as [r n].
  constructor; [exact Hs|apply IH].
Qed.

Lemma runes_encode rs : Forall scalar rs → runes (encode_runes rs) = rs.
Proof.
  unfold runes. intros Hrs.
  enough (∀ fuel, (String.length (encode_runes rs) ≤ fuel)%nat → runes_fuel fuel (encode_runes rs) = rs) by auto.
  induction Hrs as [|r rs Hr Hrs IH]; intros fuel Hf; [by destruct fuel|].
  rewrite encode_runes_cons in *. rewrite length_append in Hf.
  destruct (encode_cons r) as (c & s & He).
  destruct fuel as [|fuel]; [rewrite He in Hf; simpl in Hf; lia|].
  assert (encode_rune r ++ encode_runes rs = String c (s ++ encode_runes rs)) as Hs by (rewrite He; done).
  rewrite Hs. cbn [runes_fuel]. rewrite <-Hs, decode_encode by done.
  rewrite (proj2 (take_drop_append (encode_rune r) (encode_runes rs))). f_equal.
  apply IH. rewrite He in Hf. simpl in Hf. lia.
Qed.

Lemma encode_runes_app rs rs' : encode_runes (rs ++ rs')%list = encode_runes rs ++ encode_runes rs'.
Proof.
  induction rs as [|r rs IH]; [done|]. cbn [app]. rewrite !encode_runes_cons, IH.
  by rewrite append_assoc_str.
Qed.

(** Every byte of a rune but the first continues it. *)
Lemma encode_continues r k c :
  (0 < k)%nat → String.get k (encode_rune r) = Some c → scalar r → cont c = true.
Proof.
  intros Hk Hg Hr. unfold scalar in Hr. unfold encode_rune in Hg.
  destruct k as [|k]; [lia|].
  destruct (r <? 128)%N eqn:H1; [|destruct (r <? 2048)%N eqn:H2; [|destruct (r <? 65536)%N eqn:H3]];
    repeat match goal with
    | H : (_ <? _)%N = true |- _ => apply N.ltb_lt in H
    | H : (_ <? _)%N = false |- _ => apply N.ltb_ge in H end;
    destruct k as [|[|[|k]]]; simpl in Hg; try done; injection Hg as <-;
    apply cont_spec; rewrite code_ascii; lia.
Qed.

Lemma get_append_r s t k : String.get (String.length s + k) (s ++ t) = String.get k t.
Proof. induction s as [|c s IH]; [done|]. simpl. apply IH. Qed.

Lemma get_append_l s t k : (k < String.length s)%nat → String.get k (s ++ t) = String.get k s.
Proof. revert k. induction s as [|c s IH]; intros k Hk; simpl in *; [lia|]. destruct k; [done|]. apply IH. lia. Qed.

Lemma get_some s k : (k < String.length s)%nat → is_Some (String.get k s).
Proof. revert k. induction s as [|c s IH]; intros k Hk; simpl in *; [lia|]. destruct k; [eauto|]. apply IH. lia. Qed.

Lemma take_append_long s t k : take_string (String.length s + k) (s ++ t) = s ++ take_string k t.
Proof. induction s as [|c s IH]; [done|]. simpl. by rewrite IH. Qed.

Lemma take_length s k : (String.length (take_string k s) ≤ k)%nat.
Proof. revert k. induction s as [|c s IH]; intros [|k]; simpl; try lia. specialize (IH k). lia. Qed.

Lemma take_zero s : take_string 0 s = "".
Proof. by destruct s. Qed.

(** ** Truncation *)

(** A cut where a rune starts is a cut between runes. *)
Lemma cut_between_runes rs k :
  Forall scalar rs → k = 0%nat ∨ isRuneStart (encode_runes rs) k = true →
  ∃ j, take_string k (encode_runes rs) = encode_runes (take j rs).
Proof.
  intros Hrs. revert k. induction Hrs as [|r rs Hr Hrs IH]; intros k Hk.
  { exists 0%nat. by destruct k. }
  destruct (decide (k = 0)%nat) as [->|Hk0]; [exists 0%nat; by rewrite take_zero|].
  destruct Hk as [?|Hk]; [done|]. rewrite encode_runes_cons in *. set (m := String.length (encode_rune r)).
  destruct (le_lt_dec m k) as [Hm|Hm].
  - destruct (IH (k - m)%nat) as [j Hj].
    { right. unfold isRuneStart in *. replace k with (m + (k - m))%nat in Hk by lia. unfold m in Hk.
      by rewrite get_append_r in Hk. }
    exists (S j). cbn [take]. rewrite encode_runes_cons, <-Hj.
    replace k with (m + (k - m))%nat at 1 by lia. apply take_append_long.
  - exfalso. unfold isRuneStart in Hk. rewrite get_append_l in Hk by done.
    destruct (get_some (encode_rune r) k Hm) as [c Hc]. rewrite Hc in Hk.
    rewrite (encode_continues r k c) in Hk; [done|lia|done|done].
Qed.

Lemma rune_boundary_start s n :
  (rune_boundary s n ≤ n)%nat ∧ (rune_boundary s n = 0%nat ∨ isRuneStart s (rune_boundary s n) = true).
Proof.
  induction n as [|n [IH1 IH2]]; [by split; [|left]|]. cbn [rune_boundary].
  destruct (isRuneStart s (S n)) eqn:Hs; [split; [lia|by right]|]. split; [lia|done].
Qed.

(** ** Safe messages *)

(** A rune that may stand in a message. *)
Definition safe_rune (r : N) : Prop := scalar r ∧ IsControl r = false.

Lemma clean_rune_safe r r' : scalar r → clean_rune r = Some r' → safe_rune r'.
Proof.
  unfold clean_rune, safe_rune. intros Hr. destruct (_ || _ || _); [by intros [= <-]; split; [left|]|].
  destruct (IsControl r) eqn:Hc; [done|]. intros [= <-]. done.
Qed.

Lemma omap_safe rs : Forall scalar rs → Forall safe_rune (omap clean_rune rs).
Proof.
  induction 1 as [|r rs Hr _ IH]; [constructor|]. cbn [omap list_omap].
  destruct (clean_rune r) as [r'|] eqn:Hc; [|done]. constructor; [by eapply clean_rune_safe|done].
Qed.

Lemma fields_safe rs word :
  Forall safe_rune rs → Forall safe_rune word → Forall (Forall safe_rune) (fields_runes word rs).
Proof.
  intros Hrs. revert word. induction Hrs as [|r rs Hr Hrs IH]; intros word Hw; simpl.
  - destruct word; [constructor|]. constructor; [done|constructor].
  - assert (Forall safe_rune (word ++ [r])) as Hw' by (apply Forall_app; by split; [|constructor]).
    assert (Forall (Forall safe_rune) (fields_runes [] rs)) as Hnil by (apply IH; constructor).
    destruct (IsSpace r); [|by apply IH]. destruct word; [done|by constructor].
Qed.

Lemma joined_words words :
  Forall (Forall safe_rune) words →
  ∃ rs, Forall safe_rune rs ∧ String.concat " " (map encode_runes words) = encode_runes rs.
Proof.
  induction 1 as [|w words Hw Hws [rs [Hrs Heq]]]; [by exists []|].
  destruct words as [|w' words]; [exists w; done|].
  exists (w ++ 32%N :: rs)%list. split.
  - apply Forall_app. split; [done|]. constructor; [by split; [left|]|done].
  - cbn [map String.concat] in *. rewrite Heq, encode_runes_app, encode_runes_cons. done.
Qed.

Lemma SafeMessage_runes m :
  ∃ rs, Forall safe_rune rs ∧ SafeMessage m = encode_runes rs ∧
    (String.length (SafeMessage m) ≤ MaxErrorMessageBytes)%nat.
Proof.
  unfold SafeMessage. cbv zeta. case_bool_decide; [exists []; split_and!; [constructor|done|simpl; lia]|].
  destruct (joined_words (fields_runes [] (omap clean_rune (runes (TrimSpace m))))) as (rs & Hrs & Heq).
  { apply fields_safe; [|constructor]. apply omap_safe, runes_scalar. }
  rewrite Heq. destruct (_ <=? _)%nat eqn:Hlen; [apply Nat.leb_le in Hlen; by exists rs|].
  destruct (rune_boundary_start (encode_runes rs) MaxErrorMessageBytes) as [Hle Hstart].
  destruct (cut_between_runes rs (rune_boundary (encode_runes rs) MaxErrorMessageBytes)) as [j Hj]; [|done|].
  { eapply Forall_impl; [exact Hrs|]. by intros ? []. }
  exists (take j rs). split; [by apply Forall_take|]. split; [done|].
  etrans; [apply take_length|done].
Qed.

Lemma SafeMessage_valid m : ValidateErrorMessage (SafeMessage m) = None ∧ utf8_valid (SafeMessage m).
Proof.
  destruct (SafeMessage_runes m) as (rs & Hrs & Heq & Hlen).
  assert (Forall scalar rs) as Hsc by (eapply Forall_impl; [exact Hrs|]; by intros ? []).
  split; [|by exists rs]. unfold ValidateErrorMessage.
  destruct (_ <? _)%nat eqn:Hl; [apply Nat.ltb_lt in Hl; lia|]. rewrite Heq, runes_encode by done.
  clear -Hrs. induction Hrs as [|r rs [_ Hr] _ IH]; [done|]. simpl. rewrite Hr.
  destruct (_ || _) eqn:Hb; [|done]. exfalso. unfold IsControl in Hr.
  apply orb_true_iff in Hb as [->%N.eqb_eq| ->%N.eqb_eq]; done.
Qed.

(** A failure its handler declared, of a class a handler may declare. *)
Definition declares (e : handler_error) (class : FailureClass) (code message : string) : Prop :=
  e = FailureError class code message ∧ Class.ReportableByHandler class = true.

Lemma classify_cases e :
  (∃ class code message, declares e class code message ∧
     classifyHandlerError e = (class, code, SafeMessage message)) ∨
  (∀ class code message, ¬ declares e class code message) ∧
    classifyHandlerError e = (ClassRetryable, CodeHandlerError, MessageHandlerError).
Proof.
  unfold declares. destruct e as [class code message|]; simpl; [|right; split; [by intros ? ? ? []|done]].
  destruct (Class.ReportableByHandler class) eqn:Hc; [left; eauto 10|]. right. split; [|done].
  intros ? ? ? [[= <- _ _] ?]. congruence.
Qed.

(** A failure is always reportable, and says nothing it should not.  Whatever
    error or panic a handler ends with and whatever message it carries, the report a
    worker makes of it passes the control plane's validation, provided a code the
    handler declared is a stable token: its message is at most 512 bytes of
    well-formed UTF-8 on one line without control characters, also where it had to be
    cut; and an error the handler did not classify, or classified as only the server
    may, is reported with the generic code and message, none of its own text. *)
Theorem failure_reports_are_valid fence id e w :
  fence_fields fence = [] → id ≠ uuid_Nil →
  (∀ class code message, declares e class code message → ValidateErrorCode code = None) →
  let report := failure_report fence id e in
  ValidateFailureReport report w = (Ok tt, w) ∧ utf8_valid (fr_error_message report) ∧
  ((∀ class code message, ¬ declares e class code message) →
     fr_class report = ClassRetryable ∧ fr_error_code report = CodeHandlerError ∧
     fr_error_message report = MessageHandlerError).
Proof.
  intros Hf Hid Hcode report. unfold report, failure_report.
  assert (∀ class code message, Class.ReportableByHandler class = true → ValidateErrorCode code = None →
    ValidateErrorMessage message = None →
    ValidateFailureReport (mkFailureReport fence id class code message) w = (Ok tt, w)) as Hv.
  { intros class code message H1 H2 H3. unfold ValidateFailureReport. cbn [fr_fence fr_outcome_request_id fr_class
      fr_error_code fr_error_message]. rewrite Hf, H1, H2, H3. unfold require_uuid, field_if.
    by rewrite bool_decide_eq_false_2. }
  destruct (classify_cases e) as [(class & code & message & Hd & ->)|[Hno ->]]; simpl.
  - destruct (SafeMessage_valid message) as [Hm Hu]. split; [|split; [done|]].
    + apply Hv; [by destruct Hd|by eapply Hcode|done].
    + intros Hno. by apply Hno in Hd.
  - split; [apply Hv; vm_compute; reflexivity|]. split; [|done].
    exists (runes MessageHandlerError). split; [apply runes_scalar|vm_compute; reflexivity].
Qed.
