(* ===== verification/Authority.v ===== *)
(** * How long a worker acts

    The local deadline that the client computes from an answer, against the lease that
    the answer is about: through the HTTP client, the routes, the handlers and the
    store. *)

From S2P Require Import Prelude.
From S2P Require Import GoText.
From S2P Require Import GoFloat.
From S2P Require Import GoMarshal.
From S2P Require Import GoDecoder.
From S2P Require Import Schema.
From S2P Require Import WorkersTypes.
From S2P Require Import WorkersStore.
From S2P Require Import WorkersOutcome.
From S2P Require Import Keys.
From S2P Require Import Hosts.
From S2P Require Import Api.
From S2P Require Import Access.
From S2P Require Import ControlHandlers.
From S2P Require Import PublicHandlers.
From S2P Require Import Routes.
From S2P Require Import Client.
From S2P Require Import Refinement.
From S2P Require Import Running.
From S2P Require Import WorkersTheorems.
From S2P Require Import Claims.
From S2P Require Import Boundary.

Local Open Scope string_scope.

(** ** Budgets *)

Lemma wrap64_le z : (0 ≤ z)%Z → wrap64 z = z ∨ (wrap64 z ≤ z - 2 ^ 64)%Z.
Proof.
  intros Hz. unfold wrap64.
  pose proof (Z.div_mod (z + 2 ^ 63) (2 ^ 64) ltac:(lia)) as Hd.
  pose proof (Z.mod_pos_bound (z + 2 ^ 63) (2 ^ 64) ltac:(lia)) as Hm.
  set (q := ((z + 2 ^ 63) / 2 ^ 64)%Z) in *. assert (0 ≤ q)%Z by (apply Z.div_pos; lia).
  destruct (Z.eq_dec q 0); [left|right]; lia.
Qed.

(** The local budget of what the server says remains: a tenth of a millisecond less
    than that, at least. *)
Lemma budget_within d :
  (0 ≤ d)%Z → (0 < executionBudget (from_millis (Milliseconds d)))%Z →
  (executionBudget (from_millis (Milliseconds d)) + 100000 ≤ d)%Z.
Proof.
  intros Hd Hpos. unfold from_millis in *. unfold Milliseconds in *. unfold Millisecond in *.
  set (m := (d ÷ 1000000)%Z) in *.
  pose proof (Z.quot_rem d 1000000 ltac:(lia)) as Hq. pose proof (Z.rem_bound_pos d 1000000 Hd ltac:(lia)).
  fold m in Hq. assert (0 ≤ m)%Z by (apply Z.quot_pos; lia).
  destruct (wrap64_le (m * 1000000) ltac:(lia)) as [Hw|Hw]; unfold executionBudget, Second in *;
    set (r := wrap64 (m * 1000000)) in *; destruct (Z.leb_spec r 0); [lia| |lia|];
    pose proof (Z.quot_rem r 10 ltac:(lia)); pose proof (Z.rem_bound_pos r 10 ltac:(lia) ltac:(lia));
    destruct (_ <? r ÷ 10)%Z eqn:Hm; [apply Z.ltb_lt in Hm|apply Z.ltb_ge in Hm|apply Z.ltb_lt in Hm|apply Z.ltb_ge in Hm]; lia.
Qed.

(** ** Clocks *)

(** The worker's clock at [started], read [off] later by the database, is not ahead of
    any reading the database takes from then on. *)
Definition in_step (off started : Z) (w : World) : Prop :=
  ∀ k, (reads w ≤ k)%nat → (started + off ≤ clock w k)%Z.

(** [remaining] was measured, up to a microsecond, from a reading of the database's
    clock to [expires]. *)
Definition measured (w : World) (remaining : duration) (expires : time) : Prop :=
  (0 ≤ remaining)%Z ∧ ∃ k, (reads w ≤ k)%nat ∧
    (remaining = 0 ∨ remaining + timestamptz (clock w k) < expires + 1000)%Z.

Lemma timestamptz_near t : (timestamptz t ≤ t < timestamptz t + 1000)%Z.
Proof. unfold timestamptz. pose proof (Z.div_mod t 1000). pose proof (Z.mod_pos_bound t 1000). lia. Qed.

Lemma measured_until w k expires :
  (reads w ≤ k)%nat → measured w (remainingUntil expires (timestamptz (clock w k))) expires.
Proof.
  intros Hk. unfold remainingUntil. destruct (_ <? 0)%Z eqn:Hr.
  - split; [lia|]. exists k. auto.
  - apply Z.ltb_ge in Hr. split; [lia|]. exists k. split; [done|]. right. lia.
Qed.

(** A worker that acts while its budget lasts acts before the lease expires. *)
Lemma acts_within_lease w off started remaining expires t :
  in_step off started w → measured w remaining expires →
  (started ≤ t < started + executionBudget (from_millis (Milliseconds remaining)))%Z →
  (t + off < expires)%Z.
Proof.
  intros Hstep [H0 (k & Hk & Hm)] Ht. specialize (Hstep k Hk).
  pose proof (timestamptz_near (clock w k)).
  pose proof (budget_within remaining H0 ltac:(lia)). destruct Hm; lia.
Qed.

(** ** What the store grants *)

Lemma RenewLease_grants cfg scope req w r w' :
  RenewLease cfg scope req w = (Ok r, w') →
  ∃ l, rn_lease_id r = f_lease_id (rq_fence req) ∧ leases (db w') !! f_lease_id (rq_fence req) = Some l ∧
    l_status l = LeaseActive ∧ measured w (rn_remaining r) (l_expires_at l).
Proof.
  intros H. apply RenewLease_effect in H
    as (_ & s & j & a & l & [Hl _ _ _ _] & _ & Hact & _ & _ & _ & _ & _ & Hid & Hrem & Hr).
  assert (measured w (rn_remaining r) (rn_expires_at r)) as Hm.
  { rewrite Hrem. apply measured_until. lia. }
  destruct (rn_replayed r); simpl in Hr.
  - destruct Hr as (Hdb & _ & _ & _ & He). exists l. rewrite Hdb, <-He. done.
  - destruct Hr as (_ & Hdb & _ & He). exists (renewed_lease cfg req l (first_reading w)).
    rewrite Hdb. simpl. rewrite lookup_insert_eq. simpl in He. rewrite He in Hm. done.
Qed.

Lemma Claim_lease_duration cfg scope req w r w' :
  Claim cfg scope req w = (Ok r, w') → (0 < cfg_lease_duration cfg)%Z.
Proof.
  unfold Claim. intros H. apply bind_ok in H as ([] & w0 & _ & H).
  destruct (_ <=? 0)%Z eqn:Hdur; [by apply throw_ok in H|]. by apply Z.leb_gt in Hdur.
Qed.

Lemma Claim_grants cfg scope req w r w' a :
  Claim cfg scope req w = (Ok r, w') → cl_assignment r = Some a →
  ∃ l, leases (db w') !! as_lease_id a = Some l ∧ measured w (as_lease_remaining a) (l_expires_at l).
Proof.
  intros H Ha. pose proof (Claim_lease_duration _ _ _ _ _ _ H) as Hdur.
  apply Claim_ok in H as (q & s & _ & Hv). destruct (cl_disposition r); try (destruct Hv as (Hv & _); congruence).
  destruct Hv as (asg & j & Hasg & Hv). assert (asg = a) as -> by congruence.
  destruct Hv as [(_ & -> & at_ & l & [Hl _ _ _ _ _ Hrem])|(_ & Has)].
  - exists l. split; [done|]. rewrite Hrem, <-remainingUntil_max.
    destruct (measured_until w (S (reads w)) (l_expires_at l)) as [H1 H2]; [lia|]. done.
  - destruct (as_lease _ _ _ _ _ _ _ _ _ Has) as (l & Hl & _ & _ & _ & _ & Hexp & He & Hrem).
    exists l. split; [done|]. rewrite Hrem, Hexp, He. split; [lia|]. exists (S (S (reads w))). split; [lia|].
    right. pose proof (timestamptz_near (second_reading w + cfg_lease_duration cfg)).
    unfold second_reading in *. lia.
Qed.

(** ** Through the API *)

(** A success comes from a route that the request reaches. *)
Lemma served_success cfg l r s a s' :
  serve cfg l r s = Some (a, s') → (200 ≤ an_status a < 300)%Z →
  ∃ rt rule h bs, rt ∈ routeTable cfg ∧ reached (Some (r_method rt)) (rq_method r) ∧
    match_segments (read_pattern (r_path rt)).2 (rq_path r) = Some bs ∧
    wrap cfg (r_chain rt) rule (r_handler rt) = Some h ∧ answer (h (mkCtx None None bs) r) s = (a, s').
Proof.
  unfold serve, ListenerHandler. destruct (registerRoutes cfg (routeTable cfg) l) as [mux|] eqn:Hreg; [|done].
  simpl. intros [= Hans] Hst.
  destruct (ServeHTTP_reached mux r) as [(st & Hs & Hrun)|(e & bs & Hin & Hm & Hp & Hrun)].
  { rewrite Hrun in Hans. injection Hans as <- _. simpl in Hst. lia. }
  rewrite Hrun in Hans.
  destruct (registerRoutes_in _ _ _ _ _ Hreg Hin) as (_ & _ & rule & _ & Hcase).
  destruct Hcase as [(rt & Hrt & _ & _ & Hr)|[(fb & Hfb & Hr)| ->]].
  - apply register_ok in Hr as (h' & Hw & ->). by exists rt, rule, h', bs.
  - apply register_ok in Hr as (h' & Hw & ->). apply fallback_path in Hfb as [_ Hc]. simpl in Hans.
    destruct Hc as [Hc|Hc]; rewrite Hc in Hw; injection Hw as <-; unfold answer in Hans.
    + unfold refuseBrowserOrigin in Hans. destruct (browserOriginRuleFor r rule); injection Hans as <- _;
        simpl in Hst; lia.
    + injection Hans as <- _. simpl in Hst. lia.
  - injection Hans as <- _. simpl in Hst. lia.
Qed.

(** A guarded route answers a success only from its handler. *)
Lemma guarded_success cfg rule h h' ctx r s a s' :
  wrap cfg (Some chainGuard) rule h = Some h' → answer (h' ctx r) s = (a, s') → (200 ≤ an_status a < 300)%Z →
  answer (h ctx r) s = (a, s').
Proof.
  intros [= <-]. unfold answer at 1, refuseBrowserOrigin. destruct (browserOriginRuleFor r rule); [|done].
  intros [= <- _] Hst. simpl in Hst. lia.
Qed.

Lemma renew_route cfg x :
  Forall (λ rt, ∀ bs, match_segments (read_pattern (r_path rt)).2 ["internal"; "v1"; "leases"; x; "renew"] = Some bs →
    r_chain rt = Some chainGuard ∧ ∀ ctx r, ∃ lease, r_handler rt ctx r = handleRenewLease cfg lease r)
    (routeTable cfg).
Proof.
  unfold routeTable. repeat apply Forall_cons_2; [..|by apply Forall_nil_2]; intros bs Hm; vm_compute in Hm;
    first [discriminate Hm | split; [reflexivity|]; intros ctx r; eexists; reflexivity].
Qed.

Lemma claim_route cfg :
  Forall (λ rt, ∀ bs, match_segments (read_pattern (r_path rt)).2 ["internal"; "v1"; "claims"] = Some bs →
    r_chain rt = Some chainGuard ∧ ∀ ctx r, r_handler rt ctx r = handleClaim cfg r) (routeTable cfg).
Proof.
  unfold routeTable. repeat apply Forall_cons_2; [..|by apply Forall_nil_2]; intros bs Hm; vm_compute in Hm;
    first [discriminate Hm | split; [reflexivity|]; intros ctx r; reflexivity].
Qed.

(** Refusals of the handlers are no successes. *)
Lemma control_error_fails e : (400 ≤ an_status (writeWorkerControlError e))%Z.
Proof. destruct e as [[]| |]; simpl; lia. Qed.

(** What a handler leaves alone: the database's world. *)
Definition aside {A} (h : H A) : Prop :=
  ∀ s, sv_world (h s).2 = sv_world s ∧ match (h s).1 with Err a => (400 ≤ an_status a)%Z | Ok _ => True end.

Lemma aside_ret {A} (a : A) : aside (mret a).
Proof. by intros s. Qed.
Lemma aside_throw {A} e : (400 ≤ an_status e)%Z → aside (throw e : H A).
Proof. by intros He s. Qed.
Lemma aside_bind {A B} (h : H A) (f : A → H B) : aside h → (∀ a, aside (f a)) → aside (h ≫= f).
Proof.
  intros Hh Hf s. unfold mbind, M_bind. destruct (Hh s) as [H1 H2]. destruct (h s) as [[a|e] s1]; [|done].
  simpl in *. destruct (Hf a s1) as [H3 H4]. split; [congruence|done].
Qed.
Lemma aside_uuid text : aside (uuid_parse text).
Proof. by intros s. Qed.
Lemma aside_decode {A} cfg r (fields : list (field A)) zero : aside (decode_json cfg r fields zero).
Proof. intros s. unfold decode_json. by destruct (decode_body _ _ _ _) as [|[]]. Qed.
Lemma aside_parse_ids inputs : aside (parse_ids inputs).
Proof.
  induction inputs as [|[f v] inputs IH]; simpl; [apply aside_ret|].
  apply aside_bind; [apply aside_uuid|intros id]. apply aside_bind; [done|intros []]. apply aside_ret.
Qed.
Lemma aside_no_problems fields : aside (no_problems fields).
Proof. unfold no_problems. destruct fields; [apply aside_ret|by apply aside_throw]. Qed.
Lemma aside_renewal_request lease req : aside (parseRenewalRequest lease req).
Proof. apply aside_bind; [apply aside_parse_ids|intros []]. apply aside_ret. Qed.
Lemma aside_claim_request req : aside (parseClaimRequest req).
Proof. intros s. unfold parseClaimRequest. by destruct (ValidateClaim _ _).1 as [|[]]. Qed.
Lemma aside_worker_keys {A} (m : K A) refuse : (∀ e, (400 ≤ an_status (refuse e))%Z) → aside (worker_keys m refuse).
Proof. intros Hr s. unfold worker_keys. destruct (m (sv_worker_keys s)) as [[a|e] k]; simpl; auto. Qed.
Lemma aside_session_scope id : aside (store (SessionScope id) writeWorkerControlError).
Proof.
  intros s. unfold store. assert ((SessionScope id (sv_world s)).2 = sv_world s) as Hw.
  { unfold SessionScope, mbind, M_bind. simpl. by destruct (worker_sessions _ !! id). }
  destruct (SessionScope id (sv_world s)) as [[a|e] w]; simpl in Hw; subst w;
    destruct (sv_faults s (sv_calls s)) as [[x y]|]; (split; [by try destruct x|]); cbn [fst]; try done;
    apply control_error_fails.
Qed.
Lemma aside_scope cfg id : aside (resolveWorkerControlScope cfg id).
Proof.
  apply aside_bind; [apply aside_session_scope|intros [scope [key|]]]; [|apply aside_ret].
  destruct (negb _); [by apply aside_throw|]. apply aside_bind; [apply aside_worker_keys; by intros []|].
  intros []; [by apply aside_throw|apply aside_ret].
Qed.

(** Past what a handler does aside, and past its call of the store. *)
Lemma aside_success {A} (h : H A) (f : A → H Answer) s a s' :
  aside h → answer (h ≫= f) s = (a, s') → (an_status a < 300)%Z →
  ∃ x s1, sv_world s1 = sv_world s ∧ answer (f x) s1 = (a, s').
Proof.
  intros Hh Hr Hst. unfold answer, mbind, M_bind in Hr. destruct (Hh s) as [H1 H2].
  destruct (h s) as [[x|e] s1]; simpl in *; [by exists x, s1|]. injection Hr as -> _. lia.
Qed.

Lemma store_success {A} (m : Tx A) refuse (f : A → H Answer) s a s' :
  (∀ e, (400 ≤ an_status (refuse e))%Z) → answer (store m refuse ≫= f) s = (a, s') → (an_status a < 300)%Z →
  ∃ x w s1, m (sv_world s) = (Ok x, w) ∧ sv_world s1 = w ∧ answer (f x) s1 = (a, s').
Proof.
  intros He Hr Hst. unfold answer, mbind, M_bind, store in Hr.
  destruct (m (sv_world s)) as [[x|e] w]; destruct (sv_faults s (sv_calls s)) as [y|]; simpl in Hr.
  - injection Hr as <- _. specialize (He (if deadline y then DeadlineExceeded else ConnectionError)). lia.
  - exists x, w. eexists. split; [done|]. split; [|exact Hr]. done.
  - injection Hr as <- _. specialize (He (if deadline y then DeadlineExceeded else ConnectionError)). lia.
  - injection Hr as <- _. specialize (He (StoreError e)). lia.
Qed.

Lemma handleRenewLease_success cfg lease r s a s' :
  answer (handleRenewLease cfg lease r) s = (a, s') → (an_status a < 300)%Z →
  ∃ scope req result, RenewLease (store_cfg cfg) scope req (sv_world s) = (Ok result, sv_world s') ∧
    an_body a = RenewalBody (mkRenewalResponse (uuid_String (sv_world s') (rn_lease_id result))
      (rn_renewal_version result) (rn_expires_at result) (Milliseconds (rn_remaining result)) (rn_replayed result)).
Proof.
  unfold handleRenewLease. intros Hr Hst.
  apply aside_success in Hr as (request & s1 & Hw1 & Hr); [|apply aside_decode|done].
  apply aside_success in Hr as ([req fields] & s2 & Hw2 & Hr); [|apply aside_renewal_request|done].
  apply aside_success in Hr as ([] & s3 & Hw3 & Hr); [|apply aside_no_problems|done].
  apply aside_success in Hr as (scope & s4 & Hw4 & Hr); [|apply aside_scope|done].
  apply store_success in Hr as (result & w & s5 & Hm & Hw & Hr); [|apply control_error_fails|done].
  rewrite Hw4, Hw3, Hw2, Hw1 in Hm. injection Hr as <- <-. subst w. by exists scope, req, result.
Qed.

Lemma handleClaim_success cfg r s a s' :
  answer (handleClaim cfg r) s = (a, s') → (an_status a < 300)%Z →
  ∃ scope req result, Claim (store_cfg cfg) scope req (sv_world s) = (Ok result, sv_world s') ∧
    an_body a = ClaimBody (toClaimResponse (uuid_String (sv_world s')) result).
Proof.
  unfold handleClaim. intros Hr Hst.
  apply aside_success in Hr as (request & s1 & Hw1 & Hr); [|apply aside_decode|done].
  apply aside_success in Hr as ([req fields] & s2 & Hw2 & Hr); [|apply aside_claim_request|done].
  apply aside_success in Hr as ([] & s3 & Hw3 & Hr); [|apply aside_no_problems|done].
  apply aside_success in Hr as (scope & s4 & Hw4 & Hr); [|apply aside_scope|done].
  apply store_success in Hr as (result & w & s5 & Hm & Hw & Hr); [|apply control_error_fails|done].
  rewrite Hw4, Hw3, Hw2, Hw1 in Hm. injection Hr as <- <-. subst w. by exists scope, req, result.
Qed.

(** ** Through the client *)

(** A request whose answer arrived as a success. *)
Lemma doJSON_ok cfg l host method path headers body n b n' :
  doJSON cfg l host method path headers body n = (Ok b, n') →
  let s := nt_others n (nt_calls n) (nt_server n) in
  ∃ a, serve cfg l (mkRequest method host headers path [] body) s = Some (a, nt_server n') ∧
    (200 ≤ an_status a < 300)%Z ∧ b = an_body a.
Proof.
  unfold doJSON. cbv zeta. destruct (serve _ _ _ _) as [[a s']|]; [|done].
  destruct (nt_faults n (nt_calls n)) as [[]|]; [done..|]. destruct (_ || _) eqn:Hst; [done|].
  intros [= <- <-]. apply orb_false_iff in Hst as [?%Z.ltb_ge ?%Z.leb_gt]. by exists a.
Qed.

(** The uuid library reads back what it writes. *)
Definition uuid_reads_back (w : World) : Prop := ∀ x, uuid_Parse w (uuid_String w x) = Some x.

(** The database when a request arrives, and when its answer has. *)
Definition request_world (n : Net) : World := sv_world (nt_others n (nt_calls n) (nt_server n)).
Definition answered_world (n : Net) : World := sv_world (nt_server n).

Lemma client_renewal_grants cfg l host req n r n' :
  uuid_reads_back (answered_world n') → client_RenewLease cfg l host req n = (Ok r, n') →
  ∃ lease remaining, leases (db (answered_world n')) !! f_lease_id (rq_fence req) = Some lease ∧
    l_status lease = LeaseActive ∧ measured (request_world n) remaining (l_expires_at lease) ∧
    rn_remaining r = from_millis (Milliseconds remaining).
Proof.
  intros Hid H. unfold client_RenewLease in H. apply bind_ok in H as (text & n1 & [= <- <-] & H). cbv zeta in H.
  apply bind_ok in H as (b & n2 & Hdo & H). apply bind_ok in H as (parse & n3 & [= <- <-] & H).
  injection H as H <-. apply doJSON_ok in Hdo as (a & Hserve & Hst & ->).
  apply served_success in Hserve as (rt & rule & h & bs & Hrt & _ & Hm & Hw & Hans); [|done].
  pose proof (renew_route cfg (uuid_String (sv_world (nt_server n)) (f_lease_id (rq_fence req)))) as Hf.
  rewrite Forall_forall in Hf. destruct (Hf rt Hrt bs Hm) as [Hc Hh]. rewrite Hc in Hw.
  eapply guarded_success in Hans; [|exact Hw|done].
  match type of Hans with answer (r_handler rt ?ctx ?rq) _ = _ => destruct (Hh ctx rq) as [lease Heq] end.
  rewrite Heq in Hans. apply handleRenewLease_success in Hans as (scope & req' & result & Hren & Hbody); [|lia].
  rewrite Hbody in H. unfold parseRenewal, answer_id, mbind, result_bind in H. cbn in H.
  unfold answered_world in *. rewrite Hid in H.
  destruct (rn_lease_id result =? f_lease_id (rq_fence req))%N eqn:Hl; [|done]. simpl in H.
  apply N.eqb_eq in Hl. destruct (negb _); [done|]. destruct (_ <? 0)%Z; [done|]. destruct (IsZero _); [done|].
  injection H as <-. apply RenewLease_grants in Hren as (row & Hrid & Hrow & Hact & Hmeas).
  rewrite Hl in Hrid. exists row, (rn_remaining result). rewrite Hrid. done.
Qed.

(** An assignment comes back as it was sent, with what remains in whole
    milliseconds. *)
Lemma parse_assignment_response w x y :
  uuid_reads_back w → parseAssignment (uuid_Parse w) (assignment_response (uuid_String w) x) = Ok y →
  as_lease_id y = as_lease_id x ∧ as_lease_remaining y = from_millis (Milliseconds (as_lease_remaining x)).
Proof.
  intros Hid H. unfold parseAssignment, answer_id, mbind, result_bind in H. cbn in H.
  destruct (_ <? 0)%Z; [done|]. rewrite !Hid in H. injection H as <-. done.
Qed.

Lemma client_claim_grants cfg l host req n c n' a :
  uuid_reads_back (answered_world n') → client_Claim cfg l host req n = (Ok c, n') →
  cl_assignment (lc_result c) = Some a →
  ∃ lease remaining, leases (db (answered_world n')) !! as_lease_id a = Some lease ∧
    measured (request_world n) remaining (l_expires_at lease) ∧
    lc_deadline c = Some (nt_clock n (nt_readings n) + executionBudget (from_millis (Milliseconds remaining)))%Z.
Proof.
  intros Hid H Ha. unfold client_Claim in H. apply bind_ok in H as (started & n0 & [= <- <-] & H).
  apply bind_ok in H as (text & n1 & [= <- <-] & H).
  apply bind_ok in H as (b & n2 & Hdo & H). apply bind_ok in H as (parse & n3 & [= <- <-] & H).
  injection H as H <-. apply doJSON_ok in Hdo as (an & Hserve & Hst & ->).
  apply served_success in Hserve as (rt & rule & h & bs & Hrt & _ & Hm & Hw & Hans); [|done].
  pose proof (claim_route cfg) as Hf. rewrite Forall_forall in Hf. destruct (Hf rt Hrt bs Hm) as [Hc Hh].
  rewrite Hc in Hw. eapply guarded_success in Hans; [|exact Hw|done]. rewrite Hh in Hans.
  apply handleClaim_success in Hans as (scope & req' & result & Hclaim & Hbody); [|lia].
  rewrite Hbody in H. unfold claim_answer, mbind, result_bind in H. 
  destruct (validateClaimResponse _) as [d|] eqn:Hv; [|done]. cbn [clr_assignment toClaimResponse] in H.
  destruct (cl_assignment result) as [x|] eqn:Hx; cbn [fmap option_fmap option_map] in H.
  2: { injection H as <-. done. }
  destruct (parseAssignment _ _) as [y|] eqn:Hy; [|done]. destruct (_ || _); [done|]. injection H as <-.
  injection Ha as ->. apply parse_assignment_response in Hy as [Hlease Hrem]; [|exact Hid].
  apply (Claim_grants _ _ _ _ _ _ x) in Hclaim as (row & Hrow & Hmeas); [|done].
  exists row, (as_lease_remaining x). rewrite Hlease. split; [exact Hrow|]. split; [exact Hmeas|].
  cbn [lc_deadline]. by rewrite Hrem.
Qed.

(** C6: a worker never outlives its lease.  Through the client, the network, the
    routes, the handlers and the store: when a claim or a renewal has been answered,
    at every moment from the start of the request that the worker's local deadline
    allows, the row of the lease is in the database with an expiry that is strictly
    later, ACTIVE after a renewal, on clocks that are any constant apart, as long as
    the database does not read a time before the request was sent.  The deadline
    survives the milliseconds the answer is rounded to, the microseconds the database
    rounds to and the wrap-around of int64. *)
Theorem worker_never_outlives_lease cfg l host n n' off t :
  uuid_reads_back (answered_world n') →
  (∀ req r started, client_RenewLease cfg l host req n = (Ok r, n') →
     in_step off started (request_world n) →
     (started ≤ t < started + executionBudget (rn_remaining r))%Z →
     ∃ lease, leases (db (answered_world n')) !! f_lease_id (rq_fence req) = Some lease ∧
       l_status lease = LeaseActive ∧ (t + off < l_expires_at lease)%Z) ∧
  (∀ req c a deadline, client_Claim cfg l host req n = (Ok c, n') →
     cl_assignment (lc_result c) = Some a → lc_deadline c = Some deadline →
     in_step off (nt_clock n (nt_readings n)) (request_world n) →
     (nt_clock n (nt_readings n) ≤ t < deadline)%Z →
     ∃ lease, leases (db (answered_world n')) !! as_lease_id a = Some lease ∧ (t + off < l_expires_at lease)%Z).
Proof.
  intros Hid. split.
  - intros req r started H Hstep Ht.
    apply client_renewal_grants in H as (lease & remaining & Hl & Hact & Hm & Hr); [|done].
    exists lease. split; [done|]. split; [done|]. eapply acts_within_lease; [done..|]. by rewrite <-Hr.
  - intros req c a deadline H Ha Hd Hstep Ht.
    apply (client_claim_grants _ _ _ _ _ _ _ a) in H as (lease & remaining & Hl & Hm & Hc); [|done..].
    rewrite Hd in Hc. injection Hc as ->. exists lease. split; [done|]. by eapply acts_within_lease.
Qed.
