(* ===== verification/ApiScenario.v ===== *)
(** * A server that runs

    One server over a concrete database, with an API key and a worker key of the
    scope t1; whole requests are evaluated on it, and the theorems about the API are
    applied to them. *)

From S2P Require Import Prelude.
From S2P Require Import GoText.
From S2P Require Import Schema.
From S2P Require Import Outbox.
From S2P Require Import WorkersTypes.
From S2P Require Import Listing.
From S2P Require Import Keys.
From S2P Require Import Hosts.
From S2P Require Import Api.
From S2P Require Import Access.
From S2P Require Import PublicHandlers.
From S2P Require Import Routes.
From S2P Require Import System.
From S2P Require Import Scenario.
From S2P Require Import Isolation.
From S2P Require Import KeysTheorems.
From S2P Require Import Boundary.
From S2P Require Import Tenancy.

Local Open Scope string_scope.

Definition sc_api : ServerConfig :=
  mkServerConfig sc_cfg true true true true true false None None ["control.internal"] 1000
    (λ _, None) (λ s, s) (λ s, s) String.leb [].

(** Both key tables hold the key of [sc_created]. *)
Definition sc_server (calls : list (call * time * N)) : Server :=
  mkServer (sc_world (at_end calls) (sec 1100) 900)
    (sc_keys (key_rows sc_created.2) (sec 1100) 70) (sc_keys (key_rows sc_created.2) (sec 1100) 70)
    (λ _, None) 0.

Definition dquote : string := String (ascii_of_nat 34) "".
Definition quoted (s : string) : string := dquote ++ s ++ dquote.
Definition member (k v : string) : string := quoted k ++ ":" ++ v.

Definition bearer : string * string := ("Authorization", "Bearer " ++ sc_raw).

Definition sc_submit_body : string :=
  "{" ++ member "queue" (quoted "default") ++ "," ++ member "job_type" (quoted "echo") ++ ","
      ++ member "payload" "{}" ++ "}".

Definition sc_submit (headers : list (string * string)) : Request :=
  mkRequest "POST" "api.example" (("Idempotency-Key", "k2") :: headers) ["v1"; "jobs"] [] sc_submit_body.

Definition status_of (x : option (Answer * Server)) : Z :=
  match x with Some (a, _) => an_status a | None => 0 end.
Definition jobs_after (x : option (Answer * Server)) : nat :=
  match x with Some (_, s) => size (jobs (db (sv_world s))) | None => 0 end.

(** A submission with the key, without it, and on the listener that does not serve
    it. *)
Example submit_over_http :
  let s := sc_server sc_running in
  status_of (serve sc_api ListenerPublic (sc_submit [bearer]) s) = 201%Z ∧
  jobs_after (serve sc_api ListenerPublic (sc_submit [bearer]) s) = 2%nat ∧
  status_of (serve sc_api ListenerPublic (sc_submit []) s) = 401%Z ∧
  status_of (serve sc_api ListenerControl (sc_submit [bearer]) s) = 404%Z.
Proof. vm_compute. done. Qed.

(** The success of the running attempt, over HTTP. *)
Definition sc_succeed_body : string :=
  "{" ++ member "job_id" (quoted "100") ++ "," ++ member "lease_id" (quoted "301") ++ ","
      ++ member "worker_id" (quoted "200") ++ "," ++ member "worker_session_id" (quoted "7") ++ "}".
Definition sc_succeed (host : string) (headers : list (string * string)) : Request :=
  mkRequest "POST" host headers ["internal"; "v1"; "attempts"; "300"; "succeed"] [] sc_succeed_body.

Definition sc_live : Server :=
  mkServer (sc_world (at_end sc_running) (sec 1040) 900) (sv_keys (sc_server [])) (sv_worker_keys (sc_server []))
    (λ _, None) 0.

Example succeed_over_http :
  status_of (serve sc_api ListenerControl (sc_succeed "control.internal:8443" []) sc_live) = 204%Z ∧
  status_of (serve sc_api ListenerControl (sc_succeed "elsewhere" []) sc_live) = 403%Z ∧
  status_of (serve sc_api ListenerControl (sc_succeed "control.internal" [("Origin", "x")]) sc_live) = 403%Z ∧
  status_of (serve sc_api ListenerPublic (sc_succeed "control.internal" []) sc_live) = 404%Z.
Proof. vm_compute. done. Qed.

(** The statuses of requests one after the other. *)
Fixpoint conversation (l : list (Listener * Request)) (s : Server) : list Z :=
  match l with
  | [] => []
  | (listener, r) :: l' =>
    match serve sc_api listener r s with
    | Some (a, s') => an_status a :: conversation l' s'
    | None => []
    end
  end.

(** A worker registers with its key and beats; the key is revoked, over the admin
    listener only; the next beat is refused. *)
Definition sc_register_body : string :=
  "{" ++ member "worker_name" (quoted "w") ++ "," ++ member "hostname" (quoted "h") ++ ","
      ++ member "worker_group" (quoted "default") ++ "," ++ member "concurrency_limit" "1" ++ ","
      ++ member "capabilities" "[]" ++ "," ++ member "supported_job_types" ("[" ++ quoted "echo" ++ "]") ++ "}".
Definition sc_register : Request :=
  mkRequest "PUT" "control.internal" [bearer] ["internal"; "v1"; "worker-sessions"; "40"] [] sc_register_body.
Definition sc_beat : Request :=
  mkRequest "POST" "control.internal" [] ["internal"; "v1"; "worker-sessions"; "40"; "heartbeat"] []
    ("{" ++ member "worker_id" (quoted "900") ++ "}").
Definition sc_revoke_key (host : string) : Request :=
  mkRequest "POST" host [] ["internal"; "v1"; "worker-keys"; "50"; "revoke"] [] "".

Example revoked_key_refuses_session :
  conversation [(ListenerControl, sc_register); (ListenerControl, sc_beat);
                (ListenerControl, sc_revoke_key "control.internal"); (ListenerAdmin, sc_revoke_key "localhost:8080");
                (ListenerControl, sc_beat)] (sc_server []) = [200; 200; 404; 200; 401]%Z.
Proof. vm_compute. done. Qed.

(** A job lookup on a connection that fails. *)
Example failed_lookup_is_internal :
  conversation [(ListenerPublic, mkRequest "GET" "api.example" [bearer] ["v1"; "jobs"; "100"] [] "")]
    ((sc_server sc_running) <| sv_faults := λ _, Some (mkFault false false) |>) = [500]%Z.
Proof. vm_compute. done. Qed.

(** A pattern with a host in front of the path passes the boundary check without
    any chain, and serves the path under /v1/ to anyone who sends that host. *)
Definition stray : list route :=
  [mkRoute "GET" "api.example/v1/jobs" surfaceUnlisted (Some chainNone) groupAlways adminAndPublic
     (λ _ _, mret (mkAnswer 200 NoBody)) true].
Example host_pattern_is_unchecked :
  (mux ← registerRoutes sc_api stray ListenerPublic;
   Some (an_status (answer (ServeHTTP mux (mkRequest "GET" "api.example" [] ["v1"; "jobs"] [] "")) sc_live).1))
  = Some 200%Z.
Proof. vm_compute. reflexivity. Qed.

(** ** The theorems at work *)

Lemma sc_mux l : is_Some (ListenerHandler sc_api l).
Proof.
  assert (is_Some_b (ListenerHandler sc_api l) = true) as H by (destruct l; vm_compute; reflexivity).
  destruct (ListenerHandler sc_api l); [eauto|discriminate].
Defined.

Lemma internal_requests_are_guarded_witness :
  ∃ mux a, ListenerHandler sc_api ListenerControl = Some mux ∧
    answer (ServeHTTP mux (sc_succeed "elsewhere" [])) sc_live = (a, sc_live) ∧
    an_status a ∈ [403; 404; 405; 301]%Z.
Proof.
  destruct (sc_mux ListenerControl) as [mux Hmux]. exists mux.
  destruct (internal_requests_are_guarded sc_api (routeTable sc_api) ListenerControl mux
    (allowlistHostRule ["control.internal"]) (sc_succeed "elsewhere" []) "v1" ["attempts"; "300"; "succeed"]
    ruleHost sc_live Hmux (routeTable_rooted sc_api) eq_refl eq_refl) as (a & Ha); [vm_compute; reflexivity|].
  exists a. split; [exact Hmux|exact Ha].
Defined.


Lemma listeners_keep_apart_witness :
  ∃ mux, ListenerHandler sc_api ListenerPublic = Some mux ∧
    answer (ServeHTTP mux (sc_succeed "control.internal" [])) sc_live = (notFound, sc_live).
Proof.
  destruct (sc_mux ListenerPublic) as [mux Hmux]. exists mux. split; [exact Hmux|].
  exact (listeners_keep_apart sc_api (routeTable sc_api) ListenerPublic mux (sc_succeed "control.internal" [])
    "internal" "v1" ["attempts"; "300"; "succeed"] sc_live Hmux (routeTable_rooted sc_api) eq_refl
    (or_introl (conj eq_refl eq_refl))).
Defined.

Definition sc_served : option (Answer * Server) :=
  serve sc_api ListenerPublic (sc_submit [bearer]) (sc_server sc_running).


Lemma network_cannot_write_keys_witness :
  ∃ a s', sc_served = Some (a, s') ∧ keys_kept (sc_server sc_running) s'.
Proof.
  assert (jobs_after sc_served = 2%nat) as H2 by (vm_compute; reflexivity).
  destruct sc_served as [[a s']|] eqn:E; [|discriminate H2].
  exists a, s'. split; [reflexivity|].
  apply (network_cannot_write_keys sc_api ListenerPublic (sc_submit [bearer]) (sc_server sc_running) a s');
    [discriminate|exact E].
Defined.
