(* ===== verification/Middleware.v ===== *)
(** * Package api: the middleware every listener shares

    internal/api/middleware.go and [ListenerHandler] of server.go: what surrounds the
    mux.  A handler is given a writer and a request and runs in an [Exchange], what one
    request shares between its layers: the connection, the recorders and route holders that
    layers point to, the Pattern field of each copy of the request, the spans, and what was
    logged and counted.  A panic is an error of the exchange; [defer] and [recover] are
    [finally] and [recovering]. *)

From S2P Require Import Prelude.
From S2P Require Import GoText.
From S2P Require Import Schema.
From S2P Require Import GoTime.
From S2P Require Import Hosts.
From S2P Require Import Api.
From S2P Require Import PublicHandlers.
From S2P Require Import Dashboard.
From S2P Require Import Routes.
From S2P Require Import Scenario.
From S2P Require Import Boundary.
From S2P Require Import ConfigTheorems.
From S2P Require Import Contract.
From S2P Require Import ApiScenario.

Local Open Scope string_scope.

(** ** Exchanges *)

Inductive panic := PanicHeaderCode (code : Z) | PanicHandler.

(** A writer: the connection, or a [statusRecorder] around another, by number. *)
Inductive writer := Connection | Recorder (i : nat) (w : writer).

Record span := mkSpan { sp_name : string; sp_attributes : list (string * string); sp_ended : bool }.
#[export] Instance eta_span : Eta span := λ s, mkSpan (sp_name s) (sp_attributes s) (sp_ended s).

Inductive line :=
| AccessLine (request_id method : string) (path : list string) (status : Z) (trace_id : option string)
| PanicLine (request_id : string) (path : list string) (p : panic).

Record Exchange := mkExchange {
  ex_server : Server;
  ex_status : option Z;             (* the status line sent to the client *)
  ex_written : list ResponseBody;
  ex_id_header : option string;     (* X-Request-Id of the response *)
  ex_recorders : list Z;
  ex_holders : list string;
  ex_patterns : list string;        (* Pattern of every copy of the request *)
  ex_spans : list span;
  ex_log : list line;
  ex_requests : list (string * string * string);   (* HTTPRequests: method, route, status *)
  ex_durations : list (string * string);           (* HTTPDuration: method, route *)
  ex_ids : nat → string; ex_drawn : nat            (* uuid.NewString *) }.
#[export] Instance eta_Exchange : Eta Exchange := λ e,
  mkExchange (ex_server e) (ex_status e) (ex_written e) (ex_id_header e) (ex_recorders e) (ex_holders e)
    (ex_patterns e) (ex_spans e) (ex_log e) (ex_requests e) (ex_durations e) (ex_ids e) (ex_drawn e).

Abbreviation X := (M Exchange panic).

(** The values of a request's context. *)
Record context := mkContext {
  cx_request_id : option string; cx_holder : option nat; cx_span : option nat; cx_trace_id : string;
  cx_timeout : option duration }.
#[export] Instance eta_context : Eta context := λ c,
  mkContext (cx_request_id c) (cx_holder c) (cx_span c) (cx_trace_id c) (cx_timeout c).

(** A [*http.Request]: what it carries, its context, where its Pattern is, and the limit of its body. *)
Record httpRequest := mkHttpRequest {
  hq_request : Request; hq_context : context; hq_pattern : nat; hq_limit : option nat }.
#[export] Instance eta_httpRequest : Eta httpRequest := λ r,
  mkHttpRequest (hq_request r) (hq_context r) (hq_pattern r) (hq_limit r).

Definition httpHandler : Type := writer → httpRequest → X unit.

(** ** Go and net/http *)

Definition modify (f : Exchange → Exchange) : X unit := λ e, (Ok tt, f e).
Definition reading {A} (f : Exchange → A) : X A := λ e, (Ok (f e), e).

(** [defer d] around the rest of a function. *)
Definition finally (m : X unit) (d : X unit) : X unit := λ e,
  let '(r, e1) := m e in
  match d e1 with (Ok _, e2) => (r, e2) | (Err p, e2) => (Err p, e2) end.
(** A deferred function that calls [recover]. *)
Definition recovering (m : X unit) (d : panic → X unit) : X unit := λ e,
  match m e with (Err p, e1) => d p e1 | done => done end.

(** [response.WriteHeader]: the first final status is sent, an informational one is not final. *)
Definition informational (code : Z) : bool := ((100 <=? code) && (code <=? 199) && negb (code =? 101))%Z.
Definition connection_WriteHeader (code : Z) : X unit :=
  sent ← reading ex_status;
  match sent with
  | Some _ => mret tt
  | None =>
    if ((code <? 100) || (999 <? code))%Z then throw (PanicHeaderCode code)
    else if informational code then mret tt
    else modify (λ e, e <| ex_status := Some code |>)
  end.

(** [statusRecorder.WriteHeader]. *)
Fixpoint WriteHeader (w : writer) (code : Z) : X unit :=
  match w with
  | Connection => connection_WriteHeader code
  | Recorder i w' =>
    modify (λ e, e <| ex_recorders := <[i := code]> (ex_recorders e) |>);; WriteHeader w' code
  end.

(** [Write], which a recorder leaves to the writer it embeds: a body without a status sends 200. *)
Definition Write (w : writer) (b : ResponseBody) : X unit :=
  sent ← reading ex_status;
  (match sent with Some _ => mret tt | None => connection_WriteHeader 200 end);;
  modify (λ e, e <| ex_written := (ex_written e ++ [b])%list |>).

(** The status the client gets: 200 when a handler returns without one. *)
Definition client_status (e : Exchange) : Z := default 200%Z (ex_status e).

Definition new_recorder (w : writer) : X writer := λ e,
  (Ok (Recorder (length (ex_recorders e)) w), e <| ex_recorders := (ex_recorders e ++ [200%Z])%list |>).
Definition recorder_status (w : writer) : X Z :=
  match w with
  | Recorder i _ => reading (λ e, nth i (ex_recorders e) 0%Z)
  | Connection => mret 0%Z
  end.

Definition pattern_of (r : httpRequest) (e : Exchange) : string := nth (hq_pattern r) (ex_patterns e) "".

(** [r.WithContext]: a shallow copy, its Pattern included. *)
Definition WithContext (f : context → context) (r : httpRequest) : X httpRequest := λ e,
  (Ok (r <| hq_context := f (hq_context r) |> <| hq_pattern := length (ex_patterns e) |>),
   e <| ex_patterns := (ex_patterns e ++ [pattern_of r e])%list |>).

Definition NewString : X string := λ e,
  (Ok (ex_ids e (ex_drawn e)), e <| ex_drawn := S (ex_drawn e) |>).

Definition log (l : line) : X unit := modify (λ e, e <| ex_log := (ex_log e ++ [l])%list |>).

(** ** Request ids *)

Definition RequestIDHeader : string := "X-Request-Id".
Definition RequestIDFrom (c : context) : string := default "" (cx_request_id c).

Definition sanitizeRequestID (v : string) : string :=
  if bool_decide (v = "") || (128 <? String.length v)%nat then ""
  else if existsb (λ r, (r <? 32) || (r =? 127))%N (runes v) then ""
  else v.

Definition withRequestID (next : httpHandler) : httpHandler := λ w r,
  let id := sanitizeRequestID (header_Get (hq_request r) RequestIDHeader) in
  id ← (if bool_decide (id = "") then NewString else mret id);
  modify (λ e, e <| ex_id_header := Some id |>);;
  r' ← WithContext (λ c, c <| cx_request_id := Some id |>) r;
  next w r'.

(** ** Tracing *)

Definition on_span (c : context) (f : span → span) : X unit :=
  match cx_span c with
  | Some i => modify (λ e, e <| ex_spans := alter f i (ex_spans e) |>)
  | None => mret tt
  end.
Definition SetAttribute (k v : string) (s : span) : span :=
  s <| sp_attributes := (sp_attributes s ++ [(k, v)])%list |>.

(** [trace_id] is the trace the tracing library continues or begins for a request's headers. *)
Definition withTracing (trace_id : string → string → string) (next : httpHandler) : httpHandler := λ w r,
  let req := hq_request r in
  let t := trace_id (header_Get req "traceparent") (header_Get req "tracestate") in
  i ← reading (λ e, length (ex_spans e));
  modify (λ e, e <| ex_spans := (ex_spans e ++ [mkSpan (rq_method req) [] false])%list |>);;
  let ctx := (hq_context r) <| cx_span := Some i |> <| cx_trace_id := t |> in
  finally
    (on_span ctx (SetAttribute "http.request.method" (rq_method req));;
     (if bool_decide (RequestIDFrom ctx = "") then mret tt
      else on_span ctx (SetAttribute "taskforge.request_id" (RequestIDFrom ctx)));;
     r' ← WithContext (λ _, ctx) r;
     next w r')
    (on_span ctx (λ s, s <| sp_ended := true |>)).

(** [withSpanRoute]: the pattern the mux wrote to the request, published outward. *)
Definition route_name (method pattern : string) : string :=
  if contains_byte " " pattern then pattern else method ++ " " ++ pattern.
Definition withSpanRoute (next : httpHandler) : httpHandler := λ w r,
  finally (next w r)
    (pattern ← reading (pattern_of r);
     if bool_decide (pattern = "") then mret tt
     else
       (match cx_holder (hq_context r) with
        | Some h => modify (λ e, e <| ex_holders := <[h := pattern]> (ex_holders e) |>)
        | None => mret tt
        end);;
       on_span (hq_context r) (λ s, s <| sp_name := route_name (rq_method (hq_request r)) pattern |>);;
       on_span (hq_context r) (SetAttribute "http.route" pattern)).

(** ** Metrics, logging, recovery, limits *)

(** [withHTTPMetrics]: without metrics, no layer. *)
Definition withHTTPMetrics (metrics : bool) (next : httpHandler) : httpHandler :=
  if negb metrics then next
  else λ w r,
    h ← reading (λ e, length (ex_holders e));
    modify (λ e, e <| ex_holders := (ex_holders e ++ [""])%list |>);;
    rec ← new_recorder w;
    finally
      (r' ← WithContext (λ c, c <| cx_holder := Some h |>) r;
       next rec r')
      (route ← reading (λ e, nth h (ex_holders e) "");
       status ← recorder_status rec;
       let method := rq_method (hq_request r) in
       let route := if bool_decide (route = "") then "unmatched" else route in
       modify (λ e, e <| ex_requests := (ex_requests e ++ [(method, route, Itoa status)])%list |>);;
       modify (λ e, e <| ex_durations := (ex_durations e ++ [(method, route)])%list |>)).

Definition withLogging (next : httpHandler) : httpHandler := λ w r,
  rec ← new_recorder w;
  next rec r;;
  status ← recorder_status rec;
  let c := hq_context r in
  log (AccessLine (RequestIDFrom c) (rq_method (hq_request r)) (rq_path (hq_request r)) status
         (if bool_decide (cx_trace_id c = "") then None else Some (cx_trace_id c))).

(** [writeError] and [writeJSON] on a writer. *)
Definition write_answer (w : writer) (a : Answer) : X unit :=
  WriteHeader w (an_status a);;
  match an_body a with NoBody => mret tt | b => Write w b end.

Definition withRecovery (next : httpHandler) : httpHandler := λ w r,
  recovering (next w r) (λ p,
    log (PanicLine (RequestIDFrom (hq_context r)) (rq_path (hq_request r)) p);;
    write_answer w (writeError 500 CodeInternal [])).

Definition withBodyLimit (limit : nat) (next : httpHandler) : httpHandler := λ w r,
  next w (r <| hq_limit := Some limit |>).

Definition withTimeout (timeout : duration) (next : httpHandler) : httpHandler := λ w r,
  r' ← WithContext (λ c, c <| cx_timeout := Some timeout |>) r;
  next w r'.

(** ** The chain *)

Section chain.
Context (cfg : ServerConfig) (timeout : duration) (trace_id : string → string → string).

(** [ListenerHandler] around its mux. *)
Definition wrapped (mux : httpHandler) : httpHandler :=
  let h := withSpanRoute mux in
  let h := withBodyLimit (MaxRequestBytes cfg) h in
  let h := withTimeout timeout h in
  let h := withRecovery h in
  let h := withLogging h in
  let h := withHTTPMetrics (has_metrics cfg) h in
  let h := withTracing trace_id h in
  withRequestID h.
End chain.

(** *** The mux *)

(** The text of a pattern. *)
Definition segment_text (s : segment) : string :=
  match s with
  | Lit s => s
  | Wild name => "{" ++ name ++ "}"
  | Multi "" => ""
  | Multi name => "{" ++ name ++ "...}"
  | End => "{$}"
  end.
Definition entry_pattern (e : entry) : string :=
  match en_method e with Some m => m ++ " " | None => "" end ++
  en_host e ++ "/" ++ String.concat "/" (map segment_text (en_segments e)).

(** The pattern that matched a request: of the redirect to a path with a slash, that path's. *)
Definition matched_pattern (mux : list entry) (r : Request) : string :=
  let e := match_request mux r (rq_path r) in
  let slashed := (rq_path r ++ [""])%list in
  if negb (exact e (rq_path r)) && negb (ends_with_slash (rq_path r))
     && exact (match_request mux r slashed) slashed
  then from_option entry_pattern "" (match_request mux r slashed)
  else from_option entry_pattern "" e.

(** [ServeMux.ServeHTTP] on a writer: it writes the pattern to the request it was given, and the
    handlers' answers to the writer. *)
Definition mux_handler (mux : list entry) : httpHandler := λ w r,
  modify (λ e, e <| ex_patterns := <[hq_pattern r := matched_pattern mux (hq_request r)]> (ex_patterns e) |>);;
  a ← (λ e, let '(a, s) := answer (ServeHTTP mux (hq_request r)) (ex_server e) in
            (Ok a, e <| ex_server := s |>));
  write_answer w a.

(** A request as a listener receives it, and the exchange it opens. *)
Definition accepted (r : Request) : httpRequest :=
  mkHttpRequest r (mkContext None None None "" None) 0 None.
Definition open_exchange (s : Server) (ids : nat → string) : Exchange :=
  mkExchange s None [] None [] [] [""] [] [] [] [] ids 0.

(** ** What every listener reports about a request

    For any handler behind the middleware of [Middleware], described by what it does to the
    exchange: the access log, the metric, the span and the client agree on the request id, the
    route and the status, also when the handler panics. *)

Local Open Scope string_scope.

(** ** What a handler does *)

(** The pattern the mux matched, the writes in their order, whether it panics after them, and the
    server it leaves. *)
Inductive write := HeaderWrite (code : Z) | BodyWrite (b : ResponseBody).
Record conduct := mkConduct {
  cd_pattern : string; cd_writes : list write; cd_panics : bool; cd_server : Server }.

Definition do_write (w : writer) (x : write) : X unit :=
  match x with HeaderWrite code => WriteHeader w code | BodyWrite b => Write w b end.
Fixpoint do_writes (w : writer) (l : list write) : X unit :=
  match l with [] => mret tt | x :: l' => do_write w x;; do_writes w l' end.

Definition conduct_of (c : conduct) : httpHandler := λ w r,
  modify (λ e, e <| ex_patterns := <[hq_pattern r := cd_pattern c]> (ex_patterns e) |>);;
  modify (λ e, e <| ex_server := cd_server c |>);;
  do_writes w (cd_writes c);;
  if cd_panics c then throw PanicHandler else mret tt.

Definition conducted (c : Request → Server → conduct) : httpHandler := λ w r e,
  conduct_of (c (hq_request r) (ex_server e)) w r e.

(** A handler that sends its status once and first, or none, and does not panic after it. *)
Definition final_code (code : Z) : Prop := (100 <= code <= 999)%Z ∧ informational code = false.
Inductive orderly_writes : list write → option Z → list ResponseBody → Prop :=
| Silent : orderly_writes [] None []
| Headed code bs : final_code code → orderly_writes (HeaderWrite code :: map BodyWrite bs) (Some code) bs
| Bodied b bs : orderly_writes (map BodyWrite (b :: bs)) (Some 200%Z) (b :: bs).

Lemma do_bodies w bs e code :
  ex_status e = Some code →
  do_writes w (map BodyWrite bs) e = (Ok tt, e <| ex_written := (ex_written e ++ bs)%list |>).
Proof.
  revert e. induction bs as [|b bs IH]; intros e He; simpl.
  - rewrite app_nil_r. by destruct e.
  - unfold Write, reading, mbind, M_bind. rewrite He. simpl. rewrite IH by done. simpl. by rewrite He, <-app_assoc.
Qed.

(** The recorders around a connection after a status went through them. *)
Fixpoint recorded_by (w : writer) (code : Z) (l : list Z) : list Z :=
  match w with Connection => l | Recorder i w' => recorded_by w' code (<[i := code]> l) end.

Lemma WriteHeader_final w code e :
  ex_status e = None → final_code code →
  WriteHeader w code e =
    (Ok tt, e <| ex_recorders := recorded_by w code (ex_recorders e) |> <| ex_status := Some code |>).
Proof.
  intros He [Hr Hi]. revert e He. induction w as [|i w IH]; intros e He; simpl.
  - unfold connection_WriteHeader, reading, mbind, M_bind. rewrite He, Hi.
    destruct (_ || _)%bool eqn:Hc; [bools; apply orb_true_iff in Hc as [?|?]; bools; lia|]. by destruct e.
  - unfold modify, mbind, M_bind. by rewrite IH.
Qed.

Definition status_recorders (w : writer) (l : list write) (rs : list Z) : list Z :=
  match l with HeaderWrite code :: _ => recorded_by w code rs | _ => rs end.

Lemma do_orderly w l st bs e :
  orderly_writes l st bs → ex_status e = None →
  do_writes w l e =
    (Ok tt, e <| ex_recorders := status_recorders w l (ex_recorders e) |> <| ex_status := st |>
              <| ex_written := (ex_written e ++ bs)%list |>).
Proof.
  intros Hl He. destruct Hl as [|code bs Hc|b bs].
  - simpl. rewrite app_nil_r. destruct e. simpl in *. by subst.
  - simpl. unfold mbind, M_bind. rewrite WriteHeader_final by done.
    simpl. by rewrite (do_bodies _ _ _ code).
  - simpl. unfold Write, reading, modify, connection_WriteHeader, mbind, M_bind. rewrite He. simpl. rewrite He. simpl.
    rewrite (do_bodies _ _ _ 200%Z) by done. simpl. by rewrite <-app_assoc.
Qed.

(** ** Request ids *)

(** A byte that would forge a line of the log or a header. *)
Definition forging (c : ascii) : bool := (code c <? 32)%N || (code c =? 127)%N.
Definition forging_rune (r : N) : bool := (r <? 32)%N || (r =? 127)%N.

(** The bytes of one rune: an ASCII rune is its byte, and no other rune has ASCII bytes. *)
Lemma decode_rune_bytes b s :
  forging_rune (decode_rune (String b s)).1 = false →
  all_chars (λ c, negb (forging c)) (take_string (decode_rune (String b s)).2 (String b s)) = true.
Proof.
  assert (Hc : ∀ lo hi c, between lo hi c = true → (127 <? lo)%N = true → forging c = false).
  { intros lo hi c. unfold between, forging. rewrite andb_true_iff, N.leb_le, N.ltb_lt. intros [H _] H'.
    apply orb_false_iff. split; [apply N.ltb_ge; lia|apply N.eqb_neq; lia]. }
  unfold decode_rune. destruct (code b <? 128)%N eqn:Hb.
  { simpl. unfold forging, forging_rune. by intros ->. }
  assert (Hf : forging b = false).
  { apply N.ltb_ge in Hb. apply orb_false_iff. split; [apply N.ltb_ge; lia|apply N.eqb_neq; lia]. }
  intros _. repeat match goal with
    | |- context [match ?x with _ => _ end] => destruct x eqn:?; simpl
    end; rewrite ?Hf; simpl; try done.
  all: repeat match goal with
    | H : _ && _ = true |- _ => apply andb_true_iff in H as [? ?]
    | H : (if ?x then _ else _) = true |- _ => destruct x
    | H : cont ?c = true |- context [forging ?c] => rewrite (Hc 128%N 191%N c H eq_refl)
    | H : between ?lo ?hi ?c = true |- context [forging ?c] => rewrite (Hc lo hi c H eq_refl)
    end; reflexivity.
Qed.

Lemma runes_bytes s :
  existsb forging_rune (runes s) = false → all_chars (λ c, negb (forging c)) s = true.
Proof.
  unfold runes. enough (∀ fuel s, (String.length s ≤ fuel)%nat →
    existsb forging_rune (runes_fuel fuel s) = false → all_chars (λ c, negb (forging c)) s = true) by eauto.
  clear s. induction fuel as [|fuel IH]; intros [|b s] Hl; cbn in Hl; try done; [lia|].
  cbn [runes_fuel]. pose proof (decode_rune_bytes b s) as Hb. pose proof (decode_rune_width b s) as Hw.
  destruct (decode_rune (String b s)) as [r n]. cbn [existsb fst snd] in *.
  intros [Hr Hrest]%orb_false_iff. rewrite <-(take_drop_string n (String b s)), all_chars_append, Hb by done.
  apply IH; [|done]. rewrite length_drop_string. cbn in *. lia.
Qed.

(** A rune of several bytes is not ASCII. *)
Lemma decode_rune_wide b s : (127 < code b)%N → (127 < (decode_rune (String b s)).1)%N.
Proof.
  intros Hb. unfold decode_rune. rewrite (proj2 (N.ltb_ge _ _)) by lia.
  assert (∀ x, N.land x 31 = x mod 32 ∧ N.land x 15 = x mod 16 ∧ N.land x 7 = x mod 8 ∧ N.land x 63 = x mod 64)%N
    as Hland by (intros x; split_and!; [apply (N.land_ones x 5)|apply (N.land_ones x 4)|apply (N.land_ones x 3)
      |apply (N.land_ones x 6)]).
  unfold cont, between, low6.
  destruct s as [|b1 [|b2 [|b3 s]]]; repeat case_match; simpl; try done; bools.
  all: repeat match goal with
    | |- context [N.land ?x 31] => rewrite (proj1 (Hland x))
    | |- context [N.land ?x 15] => rewrite (proj1 (proj2 (Hland x)))
    | |- context [N.land ?x 7] => rewrite (proj1 (proj2 (proj2 (Hland x))))
    | |- context [N.land ?x 63] => rewrite (proj2 (proj2 (proj2 (Hland x))))
    end; clear Hland.
  all: repeat match goal with
    | H : (_ =? _)%N = true |- _ => apply N.eqb_eq in H
    | H : (_ =? _)%N = false |- _ => apply N.eqb_neq in H
    | H : (_ <=? _)%N = true |- _ => apply N.leb_le in H
    | H : (_ && _)%bool = true |- _ => apply andb_true_iff in H as [? ?]
    end; zify; Z.to_euclidean_division_equations; lia.
Qed.

Lemma bytes_runes s :
  all_chars (λ c, negb (forging c)) s = true → existsb forging_rune (runes s) = false.
Proof.
  unfold runes. enough (∀ fuel s, all_chars (λ c, negb (forging c)) s = true →
    existsb forging_rune (runes_fuel fuel s) = false) by eauto.
  clear s. induction fuel as [|fuel IH]; intros [|b s] Hs; try done.
  cbn [runes_fuel]. destruct (decode_rune (String b s)) as [r n] eqn:Hd. cbn [existsb].
  apply orb_false_iff. split.
  - pose proof (decode_rune_wide b s) as Hw. rewrite Hd in Hw. simpl in Hs, Hw.
    apply andb_true_iff in Hs as [Hb%negb_true_iff _]. unfold forging in Hb. unfold forging_rune.
    destruct (code b <? 128)%N eqn:Hlt.
    + unfold decode_rune in Hd. rewrite Hlt in Hd. by injection Hd as <- _.
    + apply N.ltb_ge in Hlt. apply orb_false_iff. split; [apply N.ltb_ge|apply N.eqb_neq]; lia.
  - apply IH. rewrite <-(take_drop_string n (String b s)), all_chars_append in Hs.
    by apply andb_true_iff in Hs as [_ ?].
Qed.

(** What the client may choose: one to 128 bytes, none of them a control byte. *)
Definition acceptable_id (v : string) : bool :=
  negb (bool_decide (v = "")) && (String.length v <=? 128)%nat && all_chars (λ c, negb (forging c)) v.

Lemma sanitizeRequestID_exact v : sanitizeRequestID v = if acceptable_id v then v else "".
Proof.
  unfold sanitizeRequestID, acceptable_id. case_bool_decide as Hv; [done|]. simpl.
  destruct (Nat.ltb_spec 128 (String.length v)) as [Hl|Hl];
    [by rewrite (proj2 (Nat.leb_gt _ _) Hl)|rewrite (proj2 (Nat.leb_le _ _) Hl)]. simpl.
  change (existsb _ (runes v)) with (existsb forging_rune (runes v)).
  destruct (all_chars _ v) eqn:Hall; [by rewrite bytes_runes|].
  destruct (existsb forging_rune (runes v)) eqn:Hr; [done|]. by rewrite (runes_bytes v) in Hall.
Qed.

(** ** What the layers leave behind *)

Section reported.
Context (cfg : ServerConfig) (timeout : duration) (trace_id : string → string → string).

Definition request_id (r : Request) (ids : nat → string) : string :=
  let id := sanitizeRequestID (header_Get r RequestIDHeader) in if bool_decide (id = "") then ids 0%nat else id.

(** The route of the metric, and the name of the span. *)
Definition metric_route (pattern : string) : string := if bool_decide (pattern = "") then "unmatched" else pattern.
Definition span_name (method pattern : string) : string :=
  if bool_decide (pattern = "") then method else route_name method pattern.
Definition trace_of_request (r : Request) : option string :=
  let t := trace_id (header_Get r "traceparent") (header_Get r "tracestate") in
  if bool_decide (t = "") then None else Some t.

(** Log, metric, span and response of one request under one id, one route and one status. *)
Record reported (r : Request) (id pattern : string) (panicked : bool) (status : Z) (e : Exchange) : Prop := {
  rp_id : ex_id_header e = Some id;
  rp_client : client_status e = status;
  rp_log : ex_log e = ((if panicked then [PanicLine id (rq_path r) PanicHandler] else []) ++
                       [AccessLine id (rq_method r) (rq_path r) status (trace_of_request r)])%list;
  rp_requests : ex_requests e =
                if has_metrics cfg then [(rq_method r, metric_route pattern, Itoa status)] else [];
  rp_durations : ex_durations e = if has_metrics cfg then [(rq_method r, metric_route pattern)] else [];
  rp_spans : map (λ s, (sp_name s, sp_ended s)) (ex_spans e) = [(span_name (rq_method r) pattern, true)] }.

(** Symbolic execution of the layers, up to the next condition. *)
Ltac step_layers H :=
  cbv -[sanitizeRequestID header_Get do_writes route_name Itoa bool_decide decide_rel String.eq_dec MaxRequestBytes
        RequestIDHeader CodeInternal status_recorders] in H.
Ltac run_layers H Hc Hw :=
  repeat (step_layers H; rewrite ?Hc in H;
          match type of H with
          | context [do_writes] => rewrite (do_orderly _ _ _ _ _ Hw) in H by reflexivity
          | context [bool_decide ?P] => destruct (bool_decide P) eqn:?
          end); step_layers H.

Lemma wrapped_conducted f r s ids st bs :
  let c := f r s in
  orderly_writes (cd_writes c) st bs → (cd_panics c = true → cd_writes c = []) →
  ∃ e, wrapped cfg timeout trace_id (conducted f) Connection (accepted r) (open_exchange s ids) = (Ok tt, e) ∧
       ex_server e = cd_server c ∧
       ex_written e = (if cd_panics c then [ErrorBody CodeInternal []] else bs) ∧
       reported r (request_id r ids) (cd_pattern c) (cd_panics c)
         (if cd_panics c then 500 else default 200 st)%Z e.
Proof.
  cbv zeta. intros Hw Hp. destruct (wrapped _ _ _ _ _ _ _) as [y e] eqn:Hx. exists e.
  unfold wrapped in Hx. destruct r as [m ho hs pa qu bo].
  destruct (f _ s) as [pattern writes panics server] eqn:Hc. simpl in *.
  destruct panics; [specialize (Hp eq_refl) as ->; inversion Hw; subst|].
  all: destruct (has_metrics cfg) eqn:Hm; run_layers Hx Hc Hw; injection Hx as <- <-.
  all: split_and!; [done..|constructor].
  all: unfold request_id, metric_route, span_name, trace_of_request, client_status; simpl.
  all: rewrite ?Hm; repeat match goal with H : bool_decide _ = _ |- _ => rewrite H; clear H end; try done.
  all: by destruct Hw.
Qed.
End reported.

(** C33: every response carries a request id, and the response, the access log, the metric and the
    span of a request agree.  For any handler that sends its status at most once and first, and panics
    only before it: the id is the client's exactly when that has one to 128 bytes and no control byte,
    and a fresh one otherwise; the log line has the status the client got; the metric, when
    metrics are on, is recorded once, under that status and the pattern the mux matched, or
    "unmatched"; the span carries the pattern; and a panic reaches no one: the client gets
    the sanitized 500, which is what is logged and counted. *)
Theorem request_is_reported cfg timeout trace_id f r s ids st bs :
  let c := f r s in
  let given := header_Get r RequestIDHeader in
  orderly_writes (cd_writes c) st bs → (cd_panics c = true → cd_writes c = []) →
  ∃ e,
    wrapped cfg timeout trace_id (conducted f) Connection (accepted r) (open_exchange s ids) = (Ok tt, e) ∧
    ex_server e = cd_server c ∧
    ex_written e = (if cd_panics c then [ErrorBody CodeInternal []] else bs) ∧
    reported cfg trace_id r (if acceptable_id given then given else ids 0%nat) (cd_pattern c) (cd_panics c)
      (if cd_panics c then 500 else default 200 st)%Z e.
Proof.
  intros c given Hw Hp. destruct (wrapped_conducted cfg timeout trace_id f r s ids st bs Hw Hp) as (e & Hrun & Hs & Hb & He).
  exists e. split_and!; try done. unfold request_id in He. rewrite sanitizeRequestID_exact in He. fold given in He.
  destruct (acceptable_id given) eqn:Ha; [|exact He].
  rewrite bool_decide_eq_false_2 in He; [exact He|]. unfold acceptable_id in Ha. by bools.
Qed.

(** ** The listeners of the server *)

(** *** Every answer has a final status *)

Definition final_answer (method path : string) (a : Answer) : bool := ((200 <=? an_status a) && (an_status a <=? 599))%Z.

Lemma serve_content_final r content : (200 <= serve_content_status r content <= 599)%Z.
Proof.
  unfold serve_content_status. repeat case_match; lia.
Qed.
Lemma dashboard_final fs r method path : final_answer method path (dashboard_answer fs r) = true.
Proof.
  assert (Hf : ∀ name cache, final_answer method path (serveDashboardFile fs r name cache) = true).
  { intros name cache. unfold serveDashboardFile. destruct (fs_Open fs name) as [content|]; [|reflexivity].
    unfold final_answer. simpl. destruct (serve_content_final r content) as [H1 H2].
    by rewrite (proj2 (Z.leb_le _ _) H1), (proj2 (Z.leb_le _ _) H2). }
  unfold dashboard_answer, serveDashboardIndex. repeat case_match; auto.
Qed.
Lemma routeTable_final cfg : table_responds (λ _, false) final_answer (routeTable cfg).
Proof.
  split; [table_handlers|table_refusals].
  cbn [r_handler unlisted]. unfold handleDashboard, handleNotFound.
  destruct (dashboard cfg) as [fs|]; apply responds_ret; [apply dashboard_final|reflexivity].
Qed.

Lemma serve_final cfg l r s a s' : serve cfg l r s = Some (a, s') → final_code (an_status a).
Proof.
  intros H. destruct (answers_served _ _ _ _ _ _ _ _ (routeTable_final cfg) H) as [Hin|(rt & _ & _ & Ha)].
  - assert (Hall : Forall final_code [301; 403; 404; 405]%Z)
      by (repeat constructor; unfold final_code; simpl; lia).
    by eapply Forall_forall in Hall.
  - specialize (Ha eq_refl). unfold final_answer in Ha. bools. split; [lia|].
    unfold informational. destruct (an_status a <=? 199)%Z eqn:Hc; bools; [lia|by rewrite andb_false_r].
Qed.

(** *** The patterns of the table *)

(** The labels a listener can give a request: as many as there are routes. *)
Definition route_labels (cfg : ServerConfig) : list string :=
  ("" :: "/" :: map (λ rt, (r_method rt ++ " " ++ r_path rt)%string) (routeTable cfg) ++ map r_path (routeTable cfg))%list.

Lemma table_patterns cfg :
  Forall (λ rt, (read_pattern (r_path rt)).1 ++ "/" ++
    String.concat "/" (map segment_text (read_pattern (r_path rt)).2) = r_path rt) (routeTable cfg).
Proof. unfold routeTable. repeat (apply Forall_cons; split); [reflexivity..|by apply Forall_nil]. Qed.

Lemma entry_label cfg l mux e :
  ListenerHandler cfg l = Some mux → e ∈ mux → entry_pattern e ∈ route_labels cfg.
Proof.
  unfold ListenerHandler. intros Hmux Hin. destruct (registerRoutes_in _ _ _ _ _ Hmux Hin) as (_ & _ & rule & _ & Hcase).
  pose proof (table_patterns cfg) as Hpat. rewrite Forall_forall in Hpat.
  unfold route_labels. rewrite !elem_of_cons, elem_of_app.
  destruct Hcase as [(rt & Hrt & _ & _ & Hr)|[(fb & Hfb & Hr)| ->]]; [| |right; by left].
  - apply register_ok in Hr as (h & _ & ->). right; right; left. apply list_elem_of_fmap. exists rt.
    unfold entry_pattern. simpl. rewrite Hpat by done. split; [|done]. by rewrite append_assoc_str.
  - apply register_ok in Hr as (h & _ & ->). apply fallback_path in Hfb as [(rt & Hrt & Hp) _].
    apply routesOn_in in Hrt as (_ & Hrt & _). right; right; right. apply list_elem_of_fmap. exists rt.
    unfold entry_pattern. simpl. rewrite <-Hp, Hpat by done. done.
Qed.

Lemma matched_label cfg l mux r :
  ListenerHandler cfg l = Some mux → matched_pattern mux r ∈ route_labels cfg.
Proof.
  intros Hmux. assert (Hopt : ∀ path, from_option entry_pattern "" (match_request mux r path) ∈ route_labels cfg).
  { intros path. destruct (match_request mux r path) as [e|] eqn:He; simpl; [|unfold route_labels; by constructor].
    apply match_request_in in He as [Hin _]. by eapply entry_label. }
  unfold matched_pattern. by destruct (negb _ && _ && _).
Qed.

(** *** The mux as a handler of the chain *)

Definition mux_conduct (mux : list entry) (r : Request) (s : Server) : conduct :=
  let '(a, s') := answer (ServeHTTP mux r) s in
  mkConduct (matched_pattern mux r)
    (HeaderWrite (an_status a) :: map BodyWrite (match an_body a with NoBody => [] | b => [b] end)) false s'.

Lemma mux_conducted mux w r e : mux_handler mux w r e = conducted (mux_conduct mux) w r e.
Proof.
  unfold mux_handler, conducted, conduct_of, mux_conduct, modify, mbind, M_bind, mret, M_ret. simpl.
  destruct (answer (ServeHTTP mux (hq_request r)) (ex_server e)) as [a s'].
  unfold write_answer, mbind, M_bind. simpl. unfold mbind, M_bind, mret, M_ret.
  destruct (WriteHeader _ _ _) as [[[]|p] e1]; [|done]. destruct (an_body a); simpl; try done.
  all: unfold mbind, M_bind; by destruct (Write _ _ _) as [[[]|?] ?].
Qed.

(** The layers only run the handler they wrap. *)
Definition same_handler (h1 h2 : httpHandler) : Prop := ∀ w r e, h1 w r e = h2 w r e.

Lemma bind_same {A B} (m1 m2 : X A) (f1 f2 : A → X B) e :
  (∀ e, m1 e = m2 e) → (∀ a e, f1 a e = f2 a e) → (m1 ≫= f1) e = (m2 ≫= f2) e.
Proof. intros Hm Hf. unfold mbind, M_bind. rewrite Hm. by destruct (m2 e) as [[a|p] e']. Qed.
Lemma finally_same m1 m2 d e : (∀ e, m1 e = m2 e) → finally m1 d e = finally m2 d e.
Proof. intros Hm. unfold finally. by rewrite Hm. Qed.
Ltac same_layers Hs :=
  intros h1 h2 Hs w r e; repeat first
    [ apply Hs | reflexivity | (apply bind_same; [intros ?|intros ? ?]) | (apply finally_same; intros ?) ].

#[local] Instance withRequestID_same : Proper (same_handler ==> same_handler) withRequestID.
Proof. unfold withRequestID. same_layers Hsame. Qed.
#[local] Instance withTracing_same t : Proper (same_handler ==> same_handler) (withTracing t).
Proof. unfold withTracing. same_layers Hsame. Qed.
#[local] Instance withSpanRoute_same : Proper (same_handler ==> same_handler) withSpanRoute.
Proof. unfold withSpanRoute. same_layers Hsame. Qed.
#[local] Instance withLogging_same : Proper (same_handler ==> same_handler) withLogging.
Proof. unfold withLogging. same_layers Hsame. Qed.
#[local] Instance withBodyLimit_same n : Proper (same_handler ==> same_handler) (withBodyLimit n).
Proof. unfold withBodyLimit. same_layers Hsame. Qed.
#[local] Instance withTimeout_same d : Proper (same_handler ==> same_handler) (withTimeout d).
Proof. unfold withTimeout. same_layers Hsame. Qed.
#[local] Instance withRecovery_same : Proper (same_handler ==> same_handler) withRecovery.
Proof. intros h1 h2 H w r e. unfold withRecovery, recovering. by rewrite H. Qed.
#[local] Instance withHTTPMetrics_same b : Proper (same_handler ==> same_handler) (withHTTPMetrics b).
Proof. unfold withHTTPMetrics. destruct (negb b); same_layers Hsame. Qed.
#[local] Instance wrapped_same cfg d t : Proper (same_handler ==> same_handler) (wrapped cfg d t).
Proof. intros h1 h2 H. unfold wrapped. by repeat f_equiv. Qed.

Lemma serve_mux cfg l mux r s :
  ListenerHandler cfg l = Some mux → serve cfg l r s = Some (answer (ServeHTTP mux r) s).
Proof. unfold serve. by intros ->. Qed.

(** What a listener's connection carries is what its routes answer: for every request and every
    server, the chain around the mux runs to its end, the client gets the status of the answer
    that [serve] gives, the server is left as [serve] leaves it, and the log, the metric and the
    span report that status under a label of a list that is as long as the table of routes allows,
    whatever path was asked for. *)
Theorem listener_carries_answers cfg l timeout trace_id mux r s ids a s' :
  ListenerHandler cfg l = Some mux → serve cfg l r s = Some (a, s') →
  ∃ id pattern e,
    wrapped cfg timeout trace_id (mux_handler mux) Connection (accepted r) (open_exchange s ids) = (Ok tt, e) ∧
    ex_server e = s' ∧
    ex_written e = (match an_body a with NoBody => [] | b => [b] end) ∧
    pattern ∈ route_labels cfg ∧
    reported cfg trace_id r id pattern false (an_status a) e.
Proof.
  intros Hmux Hs. pose proof (serve_final _ _ _ _ _ _ Hs) as Hfinal.
  rewrite (serve_mux _ _ _ _ _ Hmux) in Hs. apply Some_inj in Hs as Hans.
  assert (Hc : mux_conduct mux r s = mkConduct (matched_pattern mux r)
    (HeaderWrite (an_status a) :: map BodyWrite (match an_body a with NoBody => [] | b => [b] end)) false s')
    by (unfold mux_conduct; by rewrite Hans).
  destruct (wrapped_conducted cfg timeout trace_id (mux_conduct mux) r s ids (Some (an_status a))
    (match an_body a with NoBody => [] | b => [b] end)) as (e & Hrun & He & Hw & Hr).
  - rewrite Hc. by constructor.
  - by rewrite Hc.
  - rewrite Hc in He, Hw, Hr. exists (request_id r ids), (matched_pattern mux r), e.
    split_and!; [|exact He|exact Hw|by eapply matched_label|exact Hr].
    rewrite <-Hrun. apply wrapped_same. intros w r' e'. apply mux_conducted.
Qed.

(** ** The theorems at work *)

(** A handler that panics, and a client that sends an id of its own. *)
Definition sc_panicking (r : Request) (s : Server) : conduct := mkConduct "GET /healthz" [] true s.
Definition sc_healthz : Request := mkRequest "GET" "api.example" [("X-Request-Id", "abc-1")] ["healthz"] [] "".
Definition sc_ids (n : nat) : string := "fresh".
Definition sc_traces (parent state : string) : string := "".

Lemma request_is_reported_witness :
  ∃ e, wrapped sc_api Second sc_traces (conducted sc_panicking) Connection (accepted sc_healthz)
         (open_exchange sc_live sc_ids) = (Ok tt, e) ∧
    ex_id_header e = Some "abc-1" ∧ client_status e = 500%Z ∧
    ex_log e = [PanicLine "abc-1" ["healthz"] PanicHandler; AccessLine "abc-1" "GET" ["healthz"] 500 None].
Proof.
  destruct (request_is_reported sc_api Second sc_traces sc_panicking sc_healthz sc_live sc_ids None [] Silent
    (λ _, eq_refl)) as (e & Hrun & _ & _ & [Hid Hcl Hlog _ _ _]).
  exists e. split_and!; [exact Hrun|exact Hid|exact Hcl|exact Hlog].
Defined.

Lemma listener_carries_answers_witness :
  ∃ mux e, ListenerHandler sc_api ListenerPublic = Some mux ∧
    wrapped sc_api Second sc_traces (mux_handler mux) Connection (accepted (sc_submit [bearer]))
      (open_exchange (sc_server sc_running) sc_ids) = (Ok tt, e) ∧
    client_status e = 201%Z.
Proof.
  destruct (sc_mux ListenerPublic) as [mux Hmux]. exists mux.
  assert (status_of sc_served = 201%Z) as Hst by (vm_compute; reflexivity).
  destruct sc_served as [[a s']|] eqn:Hs; [|discriminate Hst].
  destruct (listener_carries_answers sc_api ListenerPublic Second sc_traces mux (sc_submit [bearer])
    (sc_server sc_running) sc_ids a s' Hmux Hs) as (id & pattern & e & Hrun & _ & _ & _ & [_ Hcl _ _ _ _]).
  exists e. split; [exact Hmux|]. split; [exact Hrun|]. rewrite Hcl. exact Hst.
Defined.

(** A recorder keeps the last status, the connection the first: a handler that panics after it sent
    200 is logged as a 500 the client never got. *)
Example panic_after_status :
  let f := (λ _ s, mkConduct "GET /healthz" [HeaderWrite 200; BodyWrite (StateBody "ok" [])] true s)
           : Request → Server → conduct in
  ∀ s, ∃ e,
    wrapped sc_api Second sc_traces (conducted f) Connection (accepted sc_healthz) (open_exchange s sc_ids) = (Ok tt, e) ∧
    client_status e = 200%Z ∧
    ex_log e = [PanicLine "abc-1" ["healthz"] PanicHandler; AccessLine "abc-1" "GET" ["healthz"] 500 None].
Proof. intros f s. eexists. split_and!; [vm_compute; reflexivity|reflexivity|reflexivity]. Qed.

(** *** What the dashboard serves *)

(** A file the dashboard sends is its entry document or a regular file whose path has no hidden
    segment, and only files under assets/ may be cached for good. *)
Lemma dashboard_serves_public_files fs r headers name content :
  an_body (dashboard_answer fs r) = FileBody headers name content →
  fs_Open fs name = Some content ∧
  (name = dashboardIndex ∧ headers = file_headers "no-cache" ∨
   fs_Stat fs name = Some true ∧ ValidPath name = true ∧ hasHiddenSegment name = false ∧
   (headers = file_headers "no-cache" ∨ HasPrefix name dashboardAssetsDir = true)).
Proof.
  assert (Hf : ∀ n cache, an_body (serveDashboardFile fs r n cache) = FileBody headers name content →
    fs_Open fs name = Some content ∧ name = n ∧ headers = file_headers cache).
  { intros n cache. unfold serveDashboardFile. destruct (fs_Open fs n) eqn:Ho; [|done]. by intros [= <- <- <-]. }
  unfold dashboard_answer, serveDashboardIndex. destruct (_ || _); [intros H'%Hf; naive_solver|].
  destruct (negb (ValidPath _) || _) eqn:Hv; [done|]. apply orb_false_iff in Hv as [Hv Hh].
  apply negb_false_iff in Hv. destruct (fs_Stat fs _) as [[]|] eqn:Hs.
  2-3: destruct (HasPrefix _ dashboardAssetsDir); [done|intros H'%Hf; naive_solver].
  intros H'%Hf. destruct H' as (Ho & -> & ->). split; [done|]. right. split_and!; [done..|].
  destruct (HasPrefix _ dashboardAssetsDir); auto.
Qed.

