(* ===== verification/CliTheorems.v ===== *)
(** * What a script can tell from an exit code

    The requests the commands make, the routes that answer them, and the exit code each
    of their answers becomes. *)

From S2P Require Import Prelude.
From S2P Require Import GoText.
From S2P Require Import Schema.
From S2P Require Import GoDecoder.
From S2P Require Import WorkersTypes.
From S2P Require Import WorkersStore.
From S2P Require Import Keys.
From S2P Require Import Hosts.
From S2P Require Import Api.
From S2P Require Import Access.
From S2P Require Import ControlHandlers.
From S2P Require Import PublicHandlers.
From S2P Require Import Routes.
From S2P Require Import Config.
From S2P Require Import Cli.
From S2P Require Import Scenario.
From S2P Require Import KeysTheorems.
From S2P Require Import Boundary.
From S2P Require Import Contract.
From S2P Require Import ApiScenario.

Local Open Scope string_scope.

(** ** The routes the commands call *)

(** Each with the statuses the command takes for success, and the segments of its path
    around the id it is given. *)
Definition cli_routes : list (string * string * list Z * (string → list string)) :=
  [ ("POST", "/v1/jobs", jobSuccess, λ _, ["v1"; "jobs"]);
    ("GET", "/v1/jobs/{job_id}", readSuccess, λ id, ["v1"; "jobs"; id]);
    ("GET", "/v1/jobs/{job_id}/result", readSuccess, λ id, ["v1"; "jobs"; id; "result"]);
    ("GET", "/v1/jobs", readSuccess, λ _, ["v1"; "jobs"]);
    ("GET", "/v1/jobs/{job_id}/attempts", readSuccess, λ id, ["v1"; "jobs"; id; "attempts"]);
    ("POST", "/v1/jobs/{job_id}/cancel", readSuccess, λ id, ["v1"; "jobs"; id; "cancel"]);
    ("POST", "/v1/jobs/{job_id}/retry", jobSuccess, λ id, ["v1"; "jobs"; id; "retry"]);
    ("GET", "/v1/workers", readSuccess, λ _, ["v1"; "workers"]);
    ("GET", "/v1/queues", readSuccess, λ _, ["v1"; "queues"]);
    ("GET", "/v1/dlq", readSuccess, λ _, ["v1"; "dlq"]);
    ("POST", "/v1/dlq/{job_id}/replay", jobSuccess, λ id, ["v1"; "dlq"; id; "replay"]);
    ("POST", "/internal/v1/api-keys", createSuccess, λ _, ["internal"; "v1"; "api-keys"]);
    ("GET", "/internal/v1/api-keys", readSuccess, λ _, ["internal"; "v1"; "api-keys"]);
    ("POST", "/internal/v1/api-keys/{key_id}/revoke", readSuccess, λ id, ["internal"; "v1"; "api-keys"; id; "revoke"]);
    ("POST", "/internal/v1/worker-keys", createSuccess, λ _, ["internal"; "v1"; "worker-keys"]);
    ("GET", "/internal/v1/worker-keys", readSuccess, λ _, ["internal"; "v1"; "worker-keys"]);
    ("POST", "/internal/v1/worker-keys/{key_id}/revoke", readSuccess,
      λ id, ["internal"; "v1"; "worker-keys"; id; "revoke"]) ].

(** ** The answers of those routes *)

Definition success_of (method path : string) : list Z :=
  match List.find (λ x, bool_decide (x.1.1.1 = method) && bool_decide (x.1.1.2 = path)) cli_routes with
  | Some x => x.1.2
  | None => []
  end.

(** A queue that does not exist: the one code of these routes the table leaves out. *)
Definition unknown_queue (method path : string) (a : Answer) : bool :=
  match an_body a with
  | ErrorBody code _ =>
    bool_decide (method = "POST") && bool_decide (path = "/v1/jobs") && bool_decide (code = CodeUnknownQueue)
  | _ => false
  end.

(** What a script can rely on: success has a body that is no error, and an error a code of
    the table. *)
Definition scripted (method path : string) (a : Answer) : bool :=
  match an_body a with
  | ErrorBody code _ =>
    negb (bool_decide (an_status a ∈ success_of method path)) &&
    ((negb (bool_decide (code = "")) && is_Some_b (exitCodeForAPIError code)) || unknown_queue method path a)
  | _ => bool_decide (an_status a ∈ success_of method path)
  end.

Definition uncalled (rt : route) : bool :=
  negb (existsb (λ x, bool_decide (x.1.1.1 = r_method rt) && bool_decide (x.1.1.2 = r_path rt)) cli_routes).

Lemma routeTable_scripted cfg : table_responds uncalled scripted (routeTable cfg).
Proof. split; [table_handlers|table_refusals]. Qed.

(** ** The request a command makes *)

Definition http_request (host : string) (r : CliRequest) : Request :=
  mkRequest (cr_method r) host (cr_headers r) (cr_path r) (cr_query r) (default "" (cr_body r)).

(** A command's request is for its route, and presents the key only to the public API. *)
Definition calls (req : CliRequest) (ok : list Z) : Prop :=
  ∃ path f id, (cr_method req, path, ok, f) ∈ cli_routes ∧ cr_path req = f id ∧
    (HasPrefix path internalPathPrefix = true → ∀ v, ("Authorization", v) ∉ cr_headers req) ∧
    (cr_method req = "POST" → ok = jobSuccess → ∃ key, key ≠ "" ∧ ("Idempotency-Key", key) ∈ cr_headers req).

(** No other route of the server takes the path. *)
Lemma cli_route_unique cfg :
  Forall (λ x : string * string * list Z * (string → list string), Forall (λ rt, ∀ id,
    reached (Some (r_method rt)) x.1.1.1 → is_Some (match_segments (read_pattern (r_path rt)).2 (x.2 id)) →
    r_method rt = x.1.1.1 ∧ r_path rt = x.1.1.2) (routeTable cfg)) cli_routes.
Proof.
  unfold cli_routes, routeTable. repeat apply Forall_cons_2; try apply Forall_nil_2;
    repeat apply Forall_cons_2; try apply Forall_nil_2; intros id Hr Hm;
    cbn [r_method r_path public probe key_admin control scoped fst snd] in *;
    try (split; reflexivity);
    try (destruct Hr as [Hr|[Hr|[Hr ?]]]; discriminate);
    destruct Hm as [? Hm]; vm_compute in Hm; repeat case_match; discriminate.
Qed.

Lemma success_of_routes : Forall (λ x, success_of x.1.1.1 x.1.1.2 = x.1.2) cli_routes.
Proof. repeat apply Forall_cons_2; try apply Forall_nil_2; reflexivity. Qed.

Section commands.
Context (remarshal : string → option string) (fresh : string).
Hypothesis Hfresh : fresh ≠ "".

Lemma fresh_key key : newIdempotencyKeyIfEmpty fresh key ≠ "".
Proof. unfold newIdempotencyKeyIfEmpty. by case_bool_decide. Qed.

(** A command's branches down to its call. *)
Ltac to_call H :=
  unfold create_key, list_keys, revoke_key, parseFlags, one_argument, no_argument, usageErrorf in H;
  repeat match type of H with
  | match ?x with _ => _ end = Call _ _ => destruct x eqn:?; try discriminate H
  | (if ?b then _ else _) = Call _ _ => destruct b eqn:?; try discriminate H
  end; injection H as <- <-.

(** The route at a position of the table, with the id the path has, if any. *)
Ltac at_route i :=
  let x := eval cbn in (cli_routes !! i) in
  match x with
  | Some (_, ?p, _, ?f) =>
    exists p, f; first [exists ""; split_and!; [by apply (list_elem_of_lookup_2 _ i)|reflexivity|..]
                       |eexists; split_and!; [by apply (list_elem_of_lookup_2 _ i)|reflexivity|..]]
  end.
Ltac some_route i := first [at_route i | some_route constr:(S i)].

Lemma commands_call :
  Forall (λ cmd : string * (cliClient → list string → step),
    ∀ c args req ok, cmd.2 c args = Call req ok → calls req ok) (commands remarshal fresh).
Proof.
  repeat apply Forall_cons_2; [..|by apply Forall_nil_2]; intros c args req ok H; cbn [snd] in H;
    unfold cmdJobsSubmit, cmdJobsGet, cmdJobsList, cmdJobsAttempts, cmdJobsResult, cmdJobsCancel, cmdJobsRetry,
      cmdWorkersList, cmdQueuesList, cmdDLQList, cmdDLQReplay, cmdAPIKeysCreate, cmdAPIKeysList, cmdAPIKeysRevoke,
      cmdWorkerKeysCreate, cmdWorkerKeysList, cmdWorkerKeysRevoke in H; cbv zeta in H; to_call H.
  all: some_route 0%nat.
  all: try (intros Hp; discriminate Hp).
  all: try (intros _ Hp; discriminate Hp).
  all: try (intros _ v; cbn; rewrite ?elem_of_cons, elem_of_nil; intuition congruence).
  all: intros _ _; eexists; (split; [apply fresh_key|]); cbn;
    repeat first [solve [left] | apply elem_of_app; right | apply list_elem_of_further].
Qed.
End commands.

Section outcome.
Context (remarshal : string → option string) (fresh : string) (url_Parse : string → option URL).

Lemma cli_step_calls envURL envKey args req ok :
  fresh ≠ "" → cli_step remarshal fresh url_Parse envURL envKey args = Call req ok → calls req ok.
Proof.
  intros Hf H. unfold cli_step, usageErrorf in H.
  destruct (flag_Parse _ args _) as [p|[]]; try discriminate H.
  destruct (ps_rest p) as [|resource [|verb rest]]; try discriminate H.
  destruct (List.find _ _) as [cmd|] eqn:Hfind; [|discriminate H]. apply find_some in Hfind as [Hin _].
  destruct (ResolveBaseURL _ _ _); [|discriminate H].
  pose proof (commands_call remarshal fresh Hf) as Hall. rewrite Forall_forall in Hall.
  apply list_elem_of_In in Hin. by eapply Hall.
Qed.

Lemma exit_code_range c x : exitCodeForAPIError c = Some x → (2 ≤ x ≤ 7)%Z.
Proof.
  unfold exitCodeForAPIError. destruct (List.find _ _) as [y|] eqn:Hf; [|done]. intros [= <-].
  apply find_some in Hf as [Hin _]. apply list_elem_of_In in Hin.
  assert (Forall (λ y : string * Z, (2 ≤ y.2 ≤ 7)%Z) apiErrorExitCodes) as Hall
    by (repeat apply Forall_cons_2; try apply Forall_nil_2; done).
  rewrite Forall_forall in Hall. by apply Hall.
Qed.

Lemma emit_success ok a : (emit ok a).1 = ExitSuccess ↔ an_status a ∈ ok.
Proof.
  unfold emit. case_bool_decide as Hin; [done|]. split; [|done]. intros H.
  destruct (an_body a); try done. case_bool_decide; [done|]. simpl in H.
  destruct (exitCodeForAPIError code) eqn:Hc; [|done]. apply exit_code_range in Hc. unfold ExitSuccess in H. simpl in H. lia.
Qed.

Lemma scripted_emit method path a :
  scripted method path a = true →
  let code := (emit (success_of method path) a).1 in
  (code = ExitSuccess ∧ (∀ c d, an_body a ≠ ErrorBody c d)) ∨
  (∃ c d, an_body a = ErrorBody c d ∧ exitCodeForAPIError c = Some code) ∨
  (code = ExitUnexpectedResponse ∧ method = "POST" ∧ path = "/v1/jobs" ∧
     ∃ d, an_body a = ErrorBody CodeUnknownQueue d).
Proof.
  unfold scripted, emit, unknown_queue. destruct (an_body a) as [|c d| | | | | | | | | | | | | | | | | | | | |] eqn:Hb;
    try (intros ->; left; split; [done|congruence]).
  intros H. bools. rewrite bool_decide_eq_false_2 by done. right.
  match goal with H : _ || _ = true |- _ => apply orb_true_iff in H as [H|H] end; bools.
  - left. exists c, d. split; [done|]. rewrite bool_decide_eq_false_2 by done. simpl.
    by destruct (exitCodeForAPIError c).
  - right. subst c. split_and!; try done. by exists d.
Qed.

Lemma submission_path : Forall (λ x : string * string * list Z * (string → list string),
  x.1.1.1 = "POST" → x.1.1.2 = "/v1/jobs" → ∀ id, x.2 id = ["v1"; "jobs"]) cli_routes.
Proof. repeat apply Forall_cons_2; try apply Forall_nil_2; done. Qed.

End outcome.

(** ** A command line that runs

    The client against the server of [ApiScenario]. *)

Local Open Scope string_scope.

(** A payload that is an object already, and no other. *)
Definition sc_remarshal (s : string) : option string := if bool_decide (s = "{}") then Some s else None.
Definition sc_url (s : string) : option URL := Some (mkURL "http" "api.example" "api.example").

Definition sc_cli (args : list string) : step :=
  cli_step sc_remarshal "k3" sc_url "" "" ("--api-key" :: sc_raw :: "-api-url=http://api.example/" :: args).
Definition sc_send (l : Listener) (s : Server) (r : CliRequest) : option Answer :=
  match serve sc_api l (http_request "api.example" r) s with Some (a, _) => Some a | None => None end.
Definition exits (l : Listener) (args : list string) : Z :=
  (cli_Run (sc_send l (sc_server sc_running)) (sc_cli args)).1.

Definition sc_line (queue : string) : list string :=
  ["jobs"; "submit"; "--queue"; queue; "--job-type=echo"; "-payload"; "{}"; "--priority"; "0x10";
   "--capability"; "gpu"; "--capability=cpu"].

Example exit_codes :
  exits ListenerPublic (sc_line "default") = ExitSuccess ∧
  exits ListenerPublic (sc_line "nowhere") = ExitUnexpectedResponse ∧
  exits ListenerPublic (sc_line "No Queue") = ExitRequestRejected ∧
  exits ListenerPublic ["jobs"; "get"; "100"] = ExitSuccess ∧
  exits ListenerPublic ["jobs"; "get"; "12345"] = ExitNotFound ∧
  exits ListenerPublic ["jobs"; "get"] = ExitUsageError ∧
  exits ListenerPublic ["jobs"; "submit"; "--queue"; "q"; "--priority"; "high"] = ExitUsageError ∧
  exits ListenerPublic ["jobs"; "submit"; "--help"] = ExitUsageError ∧
  exits ListenerPublic ["jobs"; "fly"] = ExitUsageError ∧
  exits ListenerPublic ["dlq"; "replay"; "100"; "--idempotency-key"; "z"] = ExitUsageError ∧
  exits ListenerPublic ["dlq"; "replay"; "--idempotency-key"; "z"; "100"] = ExitConflict ∧
  exits ListenerPublic ["dlq"; "list"; "--limit"; "500"] = ExitRequestRejected ∧
  exits ListenerPublic ["api-keys"; "list"] = ExitNotFound ∧
  exits ListenerPublic ["idle"] = ExitSuccess.
Proof. vm_compute. split_and!; reflexivity. Qed.

Definition sc_call : CliRequest * list Z :=
  match sc_cli (sc_line "nowhere") with
  | Call r ok => (r, ok)
  | Stop _ => (mkCliRequest "" "" [] [] [] None, [])
  end.
Definition sc_answer : option (Answer * Server) :=
  serve sc_api ListenerPublic (http_request "api.example" sc_call.1) (sc_server sc_running).

Lemma call_pair (s : step) d :
  match s with Call _ _ => true | Stop _ => false end = true →
  s = Call (match s with Call r ok => (r, ok) | Stop _ => d end).1 (match s with Call r ok => (r, ok) | Stop _ => d end).2.
Proof. by destruct s. Qed.


