(* ===== verification/WorkerScenario.v ===== *)
(** * A worker that runs

    One worker against the server of the API's scenario: a job from its notification
    to its success, over HTTP, and the theorems about the worker applied. *)

From S2P Require Import Prelude.
From S2P Require Import GoText.
From S2P Require Import GoTime.
From S2P Require Import Schema.
From S2P Require Import Lifecycle.
From S2P Require Import Outbox.
From S2P Require Import Publisher.
From S2P Require Import Notification.
From S2P Require Import WorkersTypes.
From S2P Require Import WorkersStore.
From S2P Require Import Keys.
From S2P Require Import Hosts.
From S2P Require Import Api.
From S2P Require Import Routes.
From S2P Require Import Client.
From S2P Require Import Handlers.
From S2P Require Import Runner.
From S2P Require Import Scenario.
From S2P Require Import ApiScenario.
From S2P Require Import RunnerTheorems.
From S2P Require Import Authority.
From S2P Require Import GoBytes.
From S2P Require Import HandlersTheorems.

Local Open Scope string_scope.

(** ** Uuids in binary, the lowest digit first *)

Fixpoint bits_String (p : positive) : string :=
  match p with
  | xH => "1"
  | xO p => String "0" (bits_String p)
  | xI p => String "1" (bits_String p)
  end.
Definition sw_String (u : uuid) : string := match u with N0 => "0" | Npos p => bits_String p end.

Fixpoint bits_Parse (s : string) : option positive :=
  match s with
  | "" => None
  | String c "" => if Ascii.eqb c "1" then Some xH else None
  | String c s' =>
    if Ascii.eqb c "1" then xI <$> bits_Parse s'
    else if Ascii.eqb c "0" then xO <$> bits_Parse s' else None
  end.
Definition sw_Parse (s : string) : option uuid :=
  if String.eqb s "0" then Some 0%N else Npos <$> bits_Parse s.

Lemma bits_read_back p : bits_Parse (bits_String p) = Some p.
Proof.
  induction p as [p IH|p IH|]; [| |done]; cbn [bits_String bits_Parse]; rewrite IH;
    by destruct p.
Qed.

Lemma sw_reads_back u : sw_Parse (sw_String u) = Some u.
Proof.
  destruct u as [|p]; [done|]. unfold sw_Parse, sw_String. rewrite bits_read_back.
  destruct p as [[]|[]|]; done.
Qed.

(** ** The server and the worker *)

Definition sw_world (d : DB) (start : time) (base : N) : World :=
  (sc_world d start base) <| uuid_String := sw_String |> <| uuid_Parse := sw_Parse |>.

(** A server and a network on which nobody else acts. *)
Definition sw_net (d : DB) (faults : nat → option net_fault) (server worker : time) : Net :=
  mkNet (mkServer (sw_world d server 300) (sv_keys (sc_server [])) (sv_worker_keys (sc_server [])) (λ _, None) 0)
    (λ _ s, s) faults 0 (λ k, (worker + Z.of_nat k * Second / 10)%Z) 0.

Definition sw_control : ControlPlane Net := http_control sc_api ListenerControl "control.internal" "".
#[local] Existing Instance sw_control.

Definition sw_session : ClientSession :=
  mkClientSession 7 200 "worker-a" "host-a" "default" 2 [] ["echo"] "HEALTHY" 0 0.

Definition sw_cfg : RunnerConfig :=
  NewRunner (mkRunnerConfig sc_reg "default" 0 3 0 0 0 0 0 0 0 "results").

Definition sw_registry : Registry := {[ "echo" := DemoEcho ]}.

(** A process over a control plane, at peace: its contexts are never over, and its
    renewal loop is woken once in each phase. *)
Definition sw_process {S} (s : S) (start : time) : Process S :=
  mkProcess s (λ k, (start + Z.of_nat k * Second / 10)%Z) 0 (λ _, false) 0 (λ k, (800 + N.of_nat k)%N) 0
    ∅ ∅ 0 (λ _, []) 0 (λ _, [WakeTick]) 0 (λ _, true) 0 (λ _, 0%nat) 0
    (mkFlights ∅ []) (λ _ f, f) 0 [].

(** The notification of the submitted job, as the outbox has it. *)
Definition sw_message : string :=
  match map_to_list (outbox_events (db (sw_world (at_end sc_submitted) 0 0))) with
  | (id, e) :: _ => default "" (Body sw_String (scan_event id e))
  | [] => ""
  end.

Definition sw_run (faults : nat → option net_fault) (body : string) : result call_error delivered * Process Net :=
  processMessage sw_cfg sw_registry false sw_Parse sw_String sw_session body "receipt"
    (sw_process (sw_net (at_end sc_submitted) faults (sec 1020) (sec 20)) (sec 20)).

Definition job_status (d : DB) (id : uuid) : option JobStatus := j_status <$> jobs d !! id.
Definition kind_of (a : action) : string :=
  match a with
  | ActClaim _ (Ok _) => "claimed" | ActDelete _ => "deleted" | ActStart _ (Ok _) => "started"
  | ActExecute _ _ (Some (Ok _)) => "executed" | ActRenew _ (Ok _) => "renewed" | ActSucceed _ _ (Ok _) => "succeeded"
  | ActPut _ _ _ _ => "put" | ActFail _ _ => "failed" | ActCancel _ _ => "canceled" | _ => "error"
  end.
Definition at_server (p : Process Net) : DB := db (sv_world (nt_server (pr_control p))).

(** A delivery on a network that loses nothing. *)
Example delivery_over_http :
  let p := (sw_run (λ _, None) sw_message).2 in
  map kind_of (pr_log p) =
    ["claimed"; "deleted"; "started"; "executed"; "renewed"; "renewed"; "succeeded"] ∧
  job_status (at_server p) 100 = Some StatusSucceeded.
Proof. vm_compute. done. Qed.

(** One that loses every other answer and, later, a request: each call is repeated as
    it was, and the job still runs and succeeds once. *)
Definition sw_losses (k : nat) : option net_fault :=
  match k with 0 | 2 | 6 => Some LostAnswer | 7 => Some LostRequest | _ => None end%nat.

Example delivery_over_a_bad_network :
  let p := (sw_run sw_losses sw_message).2 in
  map kind_of (pr_log p) =
    ["error"; "claimed"; "deleted"; "error"; "started"; "executed"; "renewed"; "renewed"; "error"; "error";
     "succeeded"] ∧
  job_status (at_server p) 100 = Some StatusSucceeded ∧ size (job_attempts (at_server p)) = 1%nat.
Proof. vm_compute. done. Qed.

(** ** The theorems at work *)

(** A renewal and a claim of the scenario, a worker's clock 1000 s behind. *)
Definition sw_renewing : Net := sw_net (at_end sc_running) (λ _, None) (sec 1040) (sec 40).
Definition sw_renewal : RenewalRequest := mkRenewal sc_fence 91 0.

(** What a run that is named by an equation computes to. *)
Lemma run_computes {A B} (f : A → B) (x y : A) (b : B) : x = y → f x = b → f y = b.
Proof. by intros ->. Qed.

Lemma worker_never_outlives_lease_witness :
  ∃ r n' lease, client_RenewLease sc_api ListenerControl "control.internal" sw_renewal sw_renewing = (Ok r, n') ∧
    executionBudget (rn_remaining r) = sec 29 ∧
    leases (db (answered_world n')) !! 301%N = Some lease ∧ (sec 68 + sec 1000 < l_expires_at lease)%Z.
Proof.
  destruct (client_RenewLease sc_api ListenerControl "control.internal" sw_renewal sw_renewing) as [[r|e] n'] eqn:E.
  2: { exfalso. apply Bool.diff_false_true.
       apply (run_computes (λ x, match x.1 with Ok _ => true | Err _ => false end) _ _ _ E). vm_compute. reflexivity. }
  assert (executionBudget (rn_remaining r) = sec 29) as Hb.
  { apply (run_computes (λ x, match x.1 with Ok r => executionBudget (rn_remaining r) | Err _ => 0%Z end)
      _ _ _ E). vm_compute. reflexivity. }
  assert (uuid_Parse (answered_world n') = sw_Parse) as Hp.
  { apply (run_computes (λ x, uuid_Parse (answered_world x.2)) _ _ _ E). vm_compute. reflexivity. }
  assert (uuid_String (answered_world n') = sw_String) as Hs.
  { apply (run_computes (λ x, uuid_String (answered_world x.2)) _ _ _ E). vm_compute. reflexivity. }
  assert (uuid_reads_back (answered_world n')) as Hid.
  { intros u. rewrite Hp, Hs. exact (sw_reads_back u). }
  destruct (worker_never_outlives_lease sc_api ListenerControl "control.internal" sw_renewing n' (sec 1000)
    (sec 68) Hid) as [Hrenew _].
  destruct (Hrenew sw_renewal r (sec 40) E) as (lease & Hl & _ & Hlt).
  - intros k _. change (sec 40 + sec 1000 <= sec 1040 + Z.of_nat k * Second)%Z. unfold sec, Second. lia.
  - rewrite Hb. unfold sec, Second. lia.
  - exists r, n', lease. split; [reflexivity|]. split; [exact Hb|]. split; [exact Hl|exact Hlt].
Defined.

(** A directive arrives when the handler's context is bound, then the upload's is; other
    attempts come and go. *)
Definition sw_directive : CancellationDirective := mkDirective 100 300 301 None.
Definition sw_reg_ops : list reg_op :=
  [OpRegister sc_fence2; OpBind 300 1; OpBind 600 3; OpDeliver sw_directive; OpUnregister 600; OpBind 300 2].

Lemma cancellation_is_never_lost_witness :
  let s := reg_runs (OpRegister sc_fence :: sw_reg_ops) (∅, ∅) in
  wasCanceled 300 s.1 = true ∧ 1%nat ∈ s.2 ∧ 2%nat ∈ s.2.
Proof.
  intros s. destruct (cancellation_is_never_lost sc_fence sw_reg_ops (∅, ∅) sw_directive) as [Hc Hctx].
  - repeat constructor; discriminate.
  - do 3 right. left.
  - split; [reflexivity|]. split; reflexivity.
  - split; [exact Hc|]. split.
    + apply (Hctx [OpRegister sc_fence2] 1%nat [OpBind 600 3; OpDeliver sw_directive]
        [OpUnregister 600; OpBind 300 2]); [reflexivity|repeat constructor|]. do 2 right. left.
    + apply (Hctx [OpRegister sc_fence2; OpBind 300 1; OpBind 600 3; OpDeliver sw_directive; OpUnregister 600]
        2%nat [] []); [reflexivity|constructor|]. do 3 right. left.
Defined.

(** Two slots take up one notification, and its leader decides and ends. *)
Lemma duplicates_share_one_leader_witness :
  ∃ s, rtc fly_step no_flights s ∧ fy_slots s !! 1%nat = Some (Following 0) ∧ decided (fy_flights s) 0.
Proof.
  set (d := mkDecision true None).
  set (f1 := (beginDelivery 900 (mkFlights ∅ [])).1.1). set (f2 := (beginDelivery 900 f1).1.1).
  set (f3 := decideDelivery 0 d f2). set (f4 := endDelivery 900 0 f3).
  set (m1 := <[0%nat := Leading 900 0]> (∅ : gmap nat slot)). set (m2 := <[1%nat := Following 0]> m1).
  assert (rtc fly_step no_flights (mkFlying f4 (delete 0%nat m2))) as Hr.
  { eapply rtc_l; [apply (fly_begin _ _ 0 900 f1 0 true); [reflexivity|vm_compute; reflexivity]|].
    eapply rtc_l; [apply (fly_begin _ _ 1 900 f2 0 false); [reflexivity|vm_compute; reflexivity]|].
    eapply rtc_l; [apply (fly_decide _ _ 0 900 0 d); reflexivity|].
    eapply rtc_l; [apply (fly_end _ _ 0 900 0); reflexivity|]. apply rtc_refl. }
  exists (mkFlying f4 (delete 0%nat m2)). split; [exact Hr|]. split; [reflexivity|].
  destruct (duplicates_share_one_leader _ Hr) as (_ & Hf & _).
  destruct (Hf 1%nat 0%nat eq_refl) as [Hd|(j & event & Hj)]; [exact Hd|].
  exfalso. destruct j as [|[|j]]; [discriminate Hj|discriminate Hj|].
  simpl in Hj. unfold m2, m1 in Hj. rewrite lookup_delete_ne, !lookup_insert_ne in Hj by discriminate. discriminate Hj.
Defined.

(** A message of two lines. *)
Lemma failure_reports_are_valid_witness :
  let line := String (ascii_of_nat 10) "" in
  let report := failure_report (mkFence 1 2 3 4 5) 6 (Permanent "bad_input" (" two" ++ line ++ "lines ")) in
  fr_error_message report = "two lines" ∧ fr_error_code report = "bad_input" ∧ utf8_valid (fr_error_message report).
Proof.
  intros line report. split; [vm_compute; reflexivity|]. split; [reflexivity|].
  destruct (failure_reports_are_valid (mkFence 1 2 3 4 5) 6 (Permanent "bad_input" (" two" ++ line ++ "lines "))
    (sc_world (at_end []) 0 0))
    as (_ & Hu & _).
  - reflexivity.
  - discriminate.
  - intros class code message [[= <- <- <-] _]. reflexivity.
  - exact Hu.
Defined.
