(* ===== verification/Metrics.v ===== *)
(** * Package metrics

    internal/metrics: the label rules (labels.go), the metrics every process declares and
    their manifest (metrics.go), and the collector that answers a scrape from the database
    (collectors.go). *)

From S2P Require Import Prelude.
From S2P Require Import GoText.
From S2P Require Import Schema.
From S2P Require Import JobsStore.
From S2P Require Import Listing.
From S2P Require Import Hosts.
From S2P Require Import Api.
From S2P Require Import Invariant.
From S2P Require Import Transitions.
From S2P Require Import Refinement.
From S2P Require Import System.
From S2P Require Import Scenario.
From S2P Require Import History.

Local Open Scope string_scope.

(** ** Labels *)

Definition AllowedLabels : list string :=
  ["service"; "queue"; "status"; "attempt_status"; "failure_class"; "dlq_reason"; "worker_group"; "job_type";
   "route"; "method"; "code"; "repair"].

Definition ForbiddenLabels : list string :=
  ["job_id"; "attempt_id"; "request_id"; "lease_id"; "worker_session_id"; "session_id"; "outcome_request_id";
   "claim_request_id"; "event_id"; "idempotency_key"; "worker_name"; "worker_id"; "hostname"; "path"; "url"; "scope";
   "traceparent"; "trace_id"; "error_message"].

Definition UnknownJobType : string := "other".

Definition BoundJobType (registered : list string) (jobType : string) : string :=
  if existsb (λ known, bool_decide (known = jobType)) registered then jobType else UnknownJobType.

Inductive label_problem := NotAllowed (metric label : string) | Forbidden (metric label : string).

Definition checkLabels (metric : string) (labels : list string) : list label_problem :=
  concat (map (λ label,
    ((if existsb (λ a, bool_decide (a = label)) AllowedLabels then [] else [NotAllowed metric label]) ++
     concat (map (λ forbidden, if EqualFold label forbidden then [Forbidden metric label] else [])
               ForbiddenLabels))%list) labels).

(** ** Declarations *)

Definition Namespace : string := "taskforge".

(** The labels of every metric, by its name.  Declaring one whose labels break the rules panics,
    and so does registering a name twice. *)
Definition manifest : Type := gmap string (list string).

Definition declare (name : string) (labels : list string) (m : manifest) : option manifest :=
  match checkLabels name labels, m !! (Namespace ++ "_" ++ name) with
  | [], None => Some (<[Namespace ++ "_" ++ name := labels]> m)
  | _, _ => None
  end.
Fixpoint declare_all (l : list (string * list string)) (m : manifest) : option manifest :=
  match l with
  | [] => Some m
  | (name, labels) :: l' => m' ← declare name labels m; declare_all l' m'
  end.

(** [New]. *)
Definition process_metrics : list (string * list string) :=
  [("execution_duration_seconds", ["queue"; "job_type"]);
   ("http_request_duration_seconds", ["method"; "route"]);
   ("http_requests_total", ["method"; "route"; "code"]);
   ("stale_completion_rejections_total", []);
   ("scheduler_promotions_total", []);
   ("outbox_publish_failures_total", []);
   ("reconciliation_repairs_total", ["repair"])].
Definition New : option manifest := declare_all process_metrics ∅.

(** [NewStateCollector]. *)
Definition state_metrics : list (string * list string) :=
  [("jobs_queued", ["queue"]); ("jobs_running", ["queue"]); ("leases_active", ["queue"]);
   ("outbox_events_pending", []); ("workers", ["worker_group"; "status"]);
   ("jobs_submitted_total", ["queue"]); ("jobs_completed_total", ["queue"; "status"]);
   ("jobs_retried_total", ["queue"]); ("jobs_dead_lettered_total", ["queue"; "dlq_reason"]);
   ("claims_total", ["queue"])].
Definition NewStateCollector (m : manifest) : option manifest := declare_all state_metrics m.

(** [Manifest]: a copy, its label lists sorted. *)
Definition Manifest (m : manifest) : manifest := sort_Strings <$> m.

(** ** Scrapes *)

Inductive value_kind := GaugeValue | CounterValue.
#[export] Instance value_kind_eq : EqDecision value_kind. Proof. solve_decision. Defined.

Record sample := mkSample {
  sa_metric : string; sa_kind : value_kind; sa_labels : list string; sa_value : nat }.

(** [SELECT key, count( * ) ... GROUP BY key] over the rows that satisfy a condition. *)
Definition count_one (m : gmap (list string) nat) (key : list string) : gmap (list string) nat :=
  <[key := S (default 0 (m !! key))]> m.
Definition group_count {V} (key : V → list string) (rows : list V) : gmap (list string) nat :=
  fold_left (λ m v, count_one m (key v)) rows ∅.
Definition rows_of {V} (f : V → bool) (m : gmap uuid V) : list V := map snd (map_where (λ _, f) m).

(** How a query ends: with all its rows, or with an error after some of them, which is logged; a
    query that fails has none. *)
Definition query_end : Type := option nat.
Definition rows_read {A} (q : query_end) (rows : list A) : list A :=
  match q with None => rows | Some n => take n rows end.

Definition collect (q : query_end) (metric : string) (kind : value_kind) (counts : gmap (list string) nat)
    : list sample :=
  map (λ r, mkSample (Namespace ++ "_" ++ metric) kind r.1 r.2) (rows_read q (map_to_list counts)).

Definition job_in (l : list JobStatus) (j : Job) : bool := existsb (λ s, bool_decide (j_status j = s)) l.
Definition by_queue (j : Job) : list string := [j_queue j].

(** [collectWorkers]: each worker with its most recent session. *)
Definition recent_sessions (d : DB) : list WorkerSession :=
  omap (λ w, snd <$> latest_session d w.1) (map_to_list (workers d)).

(** [collectTotals]. *)
Definition collectTotals (q : nat → query_end) (d : nat → DB) : list sample :=
  (collect (q 5) "jobs_submitted_total" CounterValue (group_count by_queue (rows_of (λ _, true) (jobs (d 5)))) ++
   collect (q 6) "jobs_retried_total" CounterValue
     (group_count (λ a, [a_queue a]) (rows_of (λ a, (1 <? a_number a)%Z) (job_attempts (d 6)))) ++
   collect (q 7) "claims_total" CounterValue
     (group_count (λ a, [a_queue a]) (rows_of (λ _, true) (job_attempts (d 7)))) ++
   collect (q 8) "jobs_completed_total" CounterValue
     (group_count (λ j, [j_queue j; status_String (j_status j)])
        (rows_of (job_in [StatusSucceeded; StatusCanceled; StatusDeadLettered]) (jobs (d 8)))) ++
   collect (q 9) "jobs_dead_lettered_total" CounterValue
     (group_count (λ e, [d_queue e; reason_String (d_reason e)]) (rows_of (λ _, true) (dlq_entries (d 9)))))%list.

(** [Collect]: its ten queries, numbered, each with its end.  They are separate statements: [d i] is what
    the database holds when query [i] runs. *)
Definition Collect (q : nat → query_end) (d : nat → DB) : list sample :=
  (collect (q 0) "jobs_queued" GaugeValue (group_count by_queue (rows_of (job_in [StatusQueued]) (jobs (d 0)))) ++
   collect (q 1) "jobs_running" GaugeValue
     (group_count by_queue (rows_of (job_in [StatusLeased; StatusRunning]) (jobs (d 1)))) ++
   collect (q 2) "leases_active" GaugeValue
     (group_count (λ l, [l_queue l]) (rows_of (λ l, bool_decide (l_status l = LeaseActive)) (leases (d 2)))) ++
   (match q 3 with
    | None => [mkSample (Namespace ++ "_outbox_events_pending") GaugeValue []
                 (map_count (λ _ e, bool_decide (e_status e = EventPending)) (outbox_events (d 3)))]
    | Some _ => []
    end) ++
   collect (q 4) "workers" GaugeValue
     (group_count (λ s, [s_worker_group s; session_status_String (s_status s)]) (recent_sessions (d 4))) ++
   collectTotals q d)%list.

(** ** What a scrape can be trusted for

    The cumulative counters of [Metrics], read from the tables at scrape time, never
    decrease along any history of the system; the labels of every metric are
    allowed ones, and a job type in a label is one the worker handles or "other". *)

Local Open Scope string_scope.

(** ** Grouping *)

Lemma group_count_acc {V} (key : V → list string) rows acc k :
  default 0 (fold_left (λ m v, count_one m (key v)) rows acc !! k) =
  default 0 (acc !! k) + length (List.filter (λ v, bool_decide (key v = k)) rows).
Proof.
  revert acc. induction rows as [|v rows IH]; intros acc; simpl; [lia|].
  rewrite IH. unfold count_one. destruct (decide (key v = k)) as [<-|Hne].
  - rewrite lookup_insert_eq, bool_decide_eq_true_2 by done. simpl. lia.
  - rewrite lookup_insert_ne, bool_decide_eq_false_2 by done. done.
Qed.

Lemma group_count_value {V} (key : V → list string) rows k :
  default 0 (group_count key rows !! k) = length (List.filter (λ v, bool_decide (key v = k)) rows).
Proof. unfold group_count. by rewrite group_count_acc, lookup_empty. Qed.

(** A group has at least one row. *)
Lemma group_count_pos {V} (key : V → list string) rows k n :
  group_count key rows !! k = Some n → 1 <= n.
Proof.
  unfold group_count.
  enough (∀ acc, (∀ k n, acc !! k = Some n → 1 <= n) →
    ∀ k n, fold_left (λ m v, count_one m (key v)) rows acc !! k = Some n → 1 <= n) as Hall
    by (apply Hall; intros ? ?; by rewrite lookup_empty).
  induction rows as [|v rows IH]; intros acc Hacc; simpl; [done|].
  apply IH. intros k' n'. unfold count_one. rewrite lookup_insert_Some. intros [[_ <-]|[_ ?]]; [lia|eauto].
Qed.

Lemma filter_rows {V} (f g : V → bool) (m : gmap uuid V) :
  length (List.filter g (rows_of f m)) = map_count (λ _ v, f v && g v) m.
Proof.
  unfold rows_of, map_count, map_where. induction (map_to_list m) as [|[k v] l IH]; simpl; [done|].
  destruct (f v); simpl; [|done]. destruct (g v); simpl; by rewrite IH.
Qed.

(** ** Counts that can only grow *)

Lemma map_where_keys {K V} `{Countable K} (f : K → V → bool) (m : gmap K V) : NoDup (map_where f m).*1.
Proof. eapply sublist_NoDup; [|apply filter_keys_sublist]. apply NoDup_fst_map_to_list. Qed.

Lemma keeps_count {V D} (key : V → D) (final p : V → bool) (m m' : gmap uuid V) :
  keeps key final m m' →
  (∀ v v', p v = true → key v' = key v → (final v = true → v' = v) → p v' = true) →
  map_count (λ _, p) m <= map_count (λ _, p) m'.
Proof.
  intros Hk Hp. unfold map_count.
  rewrite <-(length_fmap fst (map_where _ m)), <-(length_fmap fst (map_where _ m')).
  apply submseteq_length, NoDup_submseteq; [apply map_where_keys|].
  intros k ([k0 v] & -> & Hin)%list_elem_of_fmap. apply map_where_spec in Hin as [Hm Hv]. simpl.
  destruct (Hk _ _ Hm) as (v' & Hm' & Hkey & Hfin). apply list_elem_of_fmap. exists (k0, v'). split; [done|].
  apply map_where_spec. split; [done|]. by eapply Hp.
Qed.

(** A counter grouped by what a row keeps. *)
Lemma counted_grows {V D} (key : V → D) (final f : V → bool) (by_ : V → list string) (m m' : gmap uuid V) k n :
  keeps key final m m' →
  (∀ v v', f v = true → key v' = key v → (final v = true → v' = v) → f v' = true ∧ by_ v' = by_ v) →
  group_count by_ (rows_of f m) !! k = Some n →
  ∃ n', group_count by_ (rows_of f m') !! k = Some n' ∧ n <= n'.
Proof.
  intros Hk Hf Hn. pose proof (group_count_pos _ _ _ _ Hn) as Hpos.
  assert (n = map_count (λ _ v, f v && bool_decide (by_ v = k)) m) as ->.
  { by rewrite <-filter_rows, <-group_count_value, Hn. }
  assert (Hle : map_count (λ _ v, f v && bool_decide (by_ v = k)) m <=
                map_count (λ _ v, f v && bool_decide (by_ v = k)) m').
  { eapply (keeps_count key final (λ v, f v && bool_decide (by_ v = k))); [done|].
    intros v v' Hv Hkey Hfin. bools. destruct (Hf v v') as [-> ->]; [done..|]. by apply bool_decide_eq_true_2. }
  rewrite <-(filter_rows f _ m'), <-group_count_value in Hle.
  destruct (group_count by_ (rows_of f m') !! k) as [n'|] eqn:Hn'; simpl in Hle; [eauto|lia].
Qed.

(** ** The samples of a scrape *)

Lemma elem_of_rows_read {A} (q : query_end) (rows : list A) x : x ∈ rows_read q rows → x ∈ rows.
Proof. destruct q as [n|]; simpl; [|done]. rewrite !list_elem_of_lookup. intros [i Hi]. exists i.
  by apply lookup_take_Some in Hi as [Hi _]. Qed.

Lemma elem_of_collect q metric kind counts x :
  x ∈ collect q metric kind counts →
  ∃ k n, x = mkSample (Namespace ++ "_" ++ metric) kind k n ∧ counts !! k = Some n.
Proof.
  unfold collect. intros ([k n] & -> & Hin%elem_of_rows_read)%list_elem_of_fmap.
  apply elem_of_map_to_list in Hin. eauto.
Qed.
Lemma collect_complete metric kind counts k n :
  counts !! k = Some n → mkSample (Namespace ++ "_" ++ metric) kind k n ∈ collect None metric kind counts.
Proof.
  intros Hk. unfold collect. apply list_elem_of_fmap. exists (k, n). split; [done|]. by apply elem_of_map_to_list.
Qed.

(** A counter whose groups only grow. *)
Lemma collect_grows q metric counts counts' metric' kind labels n :
  (∀ k n, counts !! k = Some n → ∃ n', counts' !! k = Some n' ∧ n <= n') →
  mkSample metric' kind labels n ∈ collect q metric CounterValue counts →
  ∃ n', mkSample metric' kind labels n' ∈ collect None metric CounterValue counts' ∧ n <= n'.
Proof.
  intros Hg (k & m & [= -> -> -> ->] & Hk)%elem_of_collect. destruct (Hg _ _ Hk) as (n' & Hk' & Hle).
  exists n'. split; [by apply collect_complete|done].
Qed.

Lemma no_gauge q metric counts m labels n :
  mkSample m CounterValue labels n ∉ collect q metric GaugeValue counts.
Proof. by intros (? & ? & [=] & _)%elem_of_collect. Qed.

Lemma Collect_counters q d m labels n :
  mkSample m CounterValue labels n ∈ Collect q d ↔ mkSample m CounterValue labels n ∈ collectTotals q d.
Proof.
  unfold Collect. rewrite !elem_of_app. split; [|tauto].
  intros [H'|[H'|[H'|[H'|[H'|H']]]]]; try (by apply no_gauge in H'); [|done].
  destruct (q 3); [by apply elem_of_nil in H'|]. by apply list_elem_of_singleton in H'.
Qed.

Lemma terminal_completed j j' :
  job_in [StatusSucceeded; StatusCanceled; StatusDeadLettered] j = true →
  (Terminal (j_status j) = true → j' = j) → j' = j.
Proof. unfold job_in. destruct (j_status j); simpl; auto; discriminate. Qed.

(** What is counted stays counted, in the same group. *)
Section permanent.
Context (d d' : DB) (Hp : permanent d d').
Lemma jobs_grow k n :
  group_count by_queue (rows_of (λ _, true) (jobs d)) !! k = Some n →
  ∃ n', group_count by_queue (rows_of (λ _, true) (jobs d')) !! k = Some n' ∧ n <= n'.
Proof.
  eapply counted_grows; [apply Hp|]. intros j j' _ Hd _. split; [done|].
  unfold by_queue. by destruct (job_def_fields _ _ Hd) as (_ & -> & _).
Qed.
Lemma attempts_grow (f : Attempt → bool) k n :
  (∀ a a', a_number a' = a_number a → f a' = f a) →
  group_count (λ a, [a_queue a]) (rows_of f (job_attempts d)) !! k = Some n →
  ∃ n', group_count (λ a, [a_queue a]) (rows_of f (job_attempts d')) !! k = Some n' ∧ n <= n'.
Proof.
  intros Hf. eapply counted_grows; [apply Hp|]. intros a a' Ha Hd _.
  destruct (attempt_def_fields _ _ Hd) as (_ & _ & -> & Hn & _). split; [|done]. by rewrite (Hf _ _ Hn).
Qed.
Lemma completed_grow k n :
  let f := job_in [StatusSucceeded; StatusCanceled; StatusDeadLettered] in
  let key := λ j, [j_queue j; status_String (j_status j)] in
  group_count key (rows_of f (jobs d)) !! k = Some n →
  ∃ n', group_count key (rows_of f (jobs d')) !! k = Some n' ∧ n <= n'.
Proof.
  cbv zeta. eapply counted_grows; [apply Hp|]. intros j j' Hj _ Hfin.
  by rewrite (terminal_completed _ _ Hj Hfin).
Qed.
Lemma dead_letters_grow k n :
  let key := λ e, [d_queue e; reason_String (d_reason e)] in
  group_count key (rows_of (λ _, true) (dlq_entries d)) !! k = Some n →
  ∃ n', group_count key (rows_of (λ _, true) (dlq_entries d')) !! k = Some n' ∧ n <= n'.
Proof.
  cbv zeta. eapply counted_grows; [apply Hp|]. intros e e' _ _ Hfin. by rewrite (Hfin eq_refl).
Qed.
End permanent.

(** C34: the counters of a scrape are counters.  Whatever happens to the system between two scrapes, a
    cumulative sample of the first (jobs submitted, completed, retried and dead-lettered, and
    claims) is in the second with the same labels and a value that is not smaller, as long as
    the second scrape's queries succeed; each of the statements of a scrape may see the
    database of another moment. *)
Theorem counters_never_decrease qs q d d' m labels n :
  queues_ok qs → (∀ i, reachable qs (d i)) → (∀ i, rtc sys_step (d i) (d' i)) →
  mkSample m CounterValue labels n ∈ Collect q d →
  ∃ n', mkSample m CounterValue labels n' ∈ Collect (λ _, None) d' ∧ n <= n'.
Proof.
  intros Hq Hr Hs. rewrite Collect_counters. setoid_rewrite Collect_counters.
  assert (Hp : ∀ i, permanent (d i) (d' i)) by (intros i; eauto using history_permanent, reachable_Inv).
  unfold collectTotals. rewrite !elem_of_app. setoid_rewrite elem_of_app. setoid_rewrite elem_of_app.
  setoid_rewrite elem_of_app. setoid_rewrite elem_of_app.
  intros [H'|[H'|[H'|[H'|H']]]].
  - apply (collect_grows _ _ _ _ _ _ _ _ (jobs_grow _ _ (Hp 5))) in H' as (n' & ? & ?). eauto 10.
  - eapply collect_grows in H' as (n' & ? & ?); [eauto 10|]. intros k i. apply (attempts_grow _ _ (Hp 6)). by intros ? ? ->.
  - eapply collect_grows in H' as (n' & ? & ?); [eauto 10|]. intros k i. by apply (attempts_grow _ _ (Hp 7)).
  - apply (collect_grows _ _ _ _ _ _ _ _ (completed_grow _ _ (Hp 8))) in H' as (n' & ? & ?). eauto 10.
  - apply (collect_grows _ _ _ _ _ _ _ _ (dead_letters_grow _ _ (Hp 9))) in H' as (n' & ? & ?). eauto 10.
Qed.

(** The first attempt of the sample history, and what the second scrape shows after its success. *)
Definition sc_scrape (calls : list (call * time * N)) : list sample := Collect (λ _, None) (λ _, at_end calls).

Lemma counters_never_decrease_witness :
  mkSample "taskforge_claims_total" CounterValue ["default"] 1 ∈ sc_scrape sc_running ∧
  ∃ n', mkSample "taskforge_claims_total" CounterValue ["default"] n' ∈ sc_scrape sc_retried ∧ 1 <= n'.
Proof.
  assert (Hin : mkSample "taskforge_claims_total" CounterValue ["default"] 1 ∈ sc_scrape sc_running)
    by (apply list_elem_of_In; vm_compute; tauto).
  split; [exact Hin|].
  apply (counters_never_decrease sc_queues (λ _, None) (λ _, at_end sc_running) (λ _, at_end sc_retried)).
  - apply sc_queues_ok.
  - intros _. apply at_end_reachable.
  - intros _. transitivity (at_end sc_failed); apply at_end_app.
  - exact Hin.
Defined.

(** After the retry: two claims, one of them a retry. *)
Example scrape_after_retry :
  Forall (λ x, x ∈ sc_scrape sc_retried)
    [mkSample "taskforge_jobs_submitted_total" CounterValue ["default"] 1;
     mkSample "taskforge_claims_total" CounterValue ["default"] 2;
     mkSample "taskforge_jobs_retried_total" CounterValue ["default"] 1;
     mkSample "taskforge_jobs_running" GaugeValue ["default"] 1;
     mkSample "taskforge_workers" GaugeValue ["default"; "HEALTHY"] 1].
Proof.
  repeat (apply Forall_cons; split); [..|by apply Forall_nil]; apply list_elem_of_In; vm_compute; tauto.
Qed.

(** ** Labels *)

Lemma checkLabels_clean metric labels :
  checkLabels metric labels = [] →
  Forall (λ l, l ∈ AllowedLabels ∧ Forall (λ f, EqualFold l f = false) ForbiddenLabels) labels.
Proof.
  unfold checkLabels. induction labels as [|l labels IH]; cbn [map concat]; [constructor|].
  intros [[Ha Hf]%app_eq_nil Hrest]%app_eq_nil. constructor; [|auto]. split.
  - destruct (existsb _ AllowedLabels) eqn:He; [|done].
    apply existsb_exists in He as (x & Hx & Hb). bools. subst. by apply list_elem_of_In.
  - clear - Hf. induction ForbiddenLabels as [|f fs IH]; [constructor|]. cbn [map concat] in Hf.
    apply app_eq_nil in Hf as [H1 H2]. constructor; [by destruct (EqualFold l f)|auto].
Qed.

Lemma declare_all_clean l m m' :
  map_Forall (λ _ ls, Forall (λ x, x ∈ AllowedLabels ∧ Forall (λ f, EqualFold x f = false) ForbiddenLabels) ls) m →
  declare_all l m = Some m' →
  map_Forall (λ _ ls, Forall (λ x, x ∈ AllowedLabels ∧ Forall (λ f, EqualFold x f = false) ForbiddenLabels) ls) m'.
Proof.
  revert m. induction l as [|[name ls] l IH]; intros m Hm; cbn [declare_all]; [by intros [= <-]|].
  intros (m1 & H1 & Hrest)%bind_Some. apply (IH m1); [|done].
  unfold declare in H1. destruct (checkLabels name ls) eqn:Hc; [|done].
  destruct (m !! _); [done|]. injection H1 as <-. apply map_Forall_insert_2; [by apply (checkLabels_clean name)|done].
Qed.

(** A process starts: no declaration of its own panics, and with the collector it has seventeen
    metrics whose labels are all allowed, none of them forbidden in any letter case. *)
Lemma metrics_declared :
  ∃ m m', New = Some m ∧ NewStateCollector m = Some m' ∧ size m' = 17 ∧
    map_Forall (λ _ ls, Forall (λ x, x ∈ AllowedLabels ∧ Forall (λ f, EqualFold x f = false) ForbiddenLabels) ls) m'.
Proof.
  assert (size <$> (New ≫= NewStateCollector) = Some 17) as Hs by (vm_compute; reflexivity).
  apply fmap_Some in Hs as (m' & Hb & Hs). apply bind_Some in Hb as (m & Hn & Hm').
  exists m, m'. split_and!; [done..|].
  eapply declare_all_clean; [|exact Hm']. eapply declare_all_clean; [|exact Hn]. apply map_Forall_empty.
Qed.

Lemma BoundJobType_bounded registered t :
  BoundJobType registered t ∈ UnknownJobType :: registered.
Proof.
  unfold BoundJobType. destruct (existsb _ registered) eqn:He; [|constructor].
  apply existsb_exists in He as (x & Hx & Hb). bools. subst. right. by apply list_elem_of_In.
Qed.

