(* ===== verification/ReadDb.v ===== *)
(** * scripts/readdb: what the benchmark reads

    scripts/readdb: the read-only queries over the control-plane tables that the benchmark
    harness measures with (measurements.go, timeline.go, kill_outcomes.go), as functions of a
    database, and what they count in every database the system reaches.

    A query that fails is an error of its function; the queries here are the ones that do not.
    Of rows an ORDER BY leaves equal the order is the first table's. *)

From S2P Require Import Prelude.
From S2P Require Import GoText.
From S2P Require Import Schema.
From S2P Require Import JobsStore.
From S2P Require Import WorkersTypes.
From S2P Require Import WorkersStore.
From S2P Require Import WorkersOutcome.
From S2P Require Import Lifecycle.
From S2P Require Import Listing.
From S2P Require Import Api.
From S2P Require Import Invariant.
From S2P Require Import System.
From S2P Require Import History.
From S2P Require Import Scenario.
From S2P Require Import Safety.

Module Readdb.

(** ** Joins *)

Section joins.
Context {K V : Type} `{Countable K}.

(** [LEFT JOIN]: a row without a partner is kept, with nulls. *)
Definition left_join {A} (l : list A) : list (option A) :=
  match l with [] => [None] | _ => map Some l end.

(** A join on the primary key. *)
Definition by_key (m : gmap K V) (k : K) : list V := match m !! k with Some v => [v] | None => [] end.
End joins.

(** [GROUP BY] a name, with [count]. *)
Definition count_by (names : list string) : gmap string nat :=
  foldr (λ k m, <[k := S (default 0 (m !! k))]> m) ∅ names.

Definition by_created {V} (created : V → time) (x y : uuid * V) : bool :=
  (created x.2 <? created y.2)%Z || ((created x.2 =? created y.2)%Z && (x.1 <=? y.1)%N).
(** [ORDER BY job_id, attempt_number]. *)
Definition by_job (x y : uuid * Attempt) : bool :=
  (a_job_id x.2 <? a_job_id y.2)%N || ((a_job_id x.2 =? a_job_id y.2)%N && (a_number x.2 <=? a_number y.2)%Z).

Definition in_scope_session (scope : string) (session : uuid) (a : Attempt) : bool :=
  bool_decide (a_scope a = scope) && bool_decide (a_session_id a = session).
Definition holding (a : Attempt) : bool := isExecutingAttemptStatus (a_status a).

(** The partners of an attempt: its leases, and the next attempts of its job. *)
Definition leases_of (d : DB) (aid : uuid) : list Lease :=
  map snd (map_where (λ _ l, bool_decide (l_attempt_id l = aid)) (leases d)).
Definition replacements (d : DB) (a : Attempt) : list (uuid * Attempt) :=
  map_where (λ _ r, bool_decide (a_job_id r = a_job_id a) && (a_number r =? a_number a + 1)%Z) (job_attempts d).

(** ** measurements.go *)

Record Dispatch := mkDispatch {
  di_JobID : uuid; di_SubmittedAt : time; di_ClaimedAt : option time; di_LeasedAt : option time }.

Definition Latency (d : Dispatch) : option duration :=
  (λ t, t - di_SubmittedAt d)%Z <$> di_ClaimedAt d.
Definition LeaseLatency (d : Dispatch) : option duration :=
  (λ t, t - di_SubmittedAt d)%Z <$> di_LeasedAt d.

(** Immediate jobs submitted in [from, to). *)
Definition submitted_in (scope : string) (from to : time) (j : Job) : bool :=
  bool_decide (j_scope j = scope) && negb (is_Some_b (j_scheduled_at j))
  && (from <=? j_created_at j)%Z && (j_created_at j <? to)%Z.
Definition first_attempts (d : DB) (jid : uuid) : list (uuid * Attempt) :=
  map_where (λ _ a, bool_decide (a_job_id a = jid) && (a_number a =? 1)%Z) (job_attempts d).

Definition Dispatches (d : DB) (scope : string) (from to : time) : list Dispatch :=
  '(jid, j) ← map_select (λ _ j, submitted_in scope from to j) (by_created j_created_at) (jobs d);
  a ← left_join (first_attempts d jid);
  l ← left_join (match a with Some x => leases_of d x.1 | None => [] end);
  [mkDispatch jid (j_created_at j) ((λ x, a_created_at x.2) <$> a) (l_acquired_at <$> l)].

(** The finish of the SUCCEEDED attempt of every SUCCEEDED job, with the job. *)
Definition finish_order (x y : time * uuid) : bool :=
  (x.1 <? y.1)%Z || ((x.1 =? y.1)%Z && (x.2 <=? y.2)%N).
Definition succeeded_rows (d : DB) (scope : string) : list (time * uuid) :=
  '(jid, j) ← map_where (λ _ j, bool_decide (j_scope j = scope) && bool_decide (j_status j = StatusSucceeded)) (jobs d);
  '(aid, a) ← map_where (λ _ a, bool_decide (a_job_id a = jid) && bool_decide (a_status a = AttemptSucceeded)) (job_attempts d);
  match a_finished_at a with Some t => [(t, jid)] | None => [] end.
Definition SucceededFinishes (d : DB) (scope : string) : list time :=
  map fst (merge_sort (ordby finish_order) (succeeded_rows d scope)).

Definition StatusCounts (d : DB) (scope : string) : gmap string nat :=
  count_by (map (λ x, status_String (j_status x.2)) (map_where (λ _ j, bool_decide (j_scope j = scope)) (jobs d))).
Definition DLQReasons (d : DB) (scope : string) : gmap string nat :=
  count_by (map (λ x, reason_String (d_reason x.2)) (map_where (λ _ e, bool_decide (d_scope e = scope)) (dlq_entries d))).

(** The worker of an attempt, of the attempt's scope. *)
Definition worker_of (d : DB) (a : Attempt) : list Worker :=
  List.filter (λ w, bool_decide (wk_scope w = a_scope a)) (by_key (workers d) (a_worker_id a)).

Definition Occupancy (d : DB) (scope : string) : gmap string nat :=
  count_by ('(_, a) ← map_where (λ _ a, bool_decide (a_scope a = scope) && holding a) (job_attempts d);
            w ← worker_of d a;
            [wk_name w]).

(** [SELECT s.id ... ORDER BY s.registered_at DESC, s.id DESC LIMIT 1], of a worker in its scope. *)
Definition newest_session (d : DB) (worker : uuid) (scope : string) : option (uuid * WorkerSession) :=
  head (map_select (λ _ s, bool_decide (s_worker_id s = worker) && bool_decide (s_scope s = scope))
          (newest_first s_registered_at) (worker_sessions d)).
Definition of_current_session (d : DB) (a : Attempt) (w : Worker) : bool :=
  bool_decide (fst <$> newest_session d (a_worker_id a) (wk_scope w) = Some (a_session_id a)).

(** [None] is the error of a margin that is not one. *)
Definition targetableAttempts (d : DB) (scope : string) (duration margin : duration) (now : time)
    : option (gmap string nat) :=
  if ((duration <=? 0) || (margin <? 0) || (duration <? margin))%Z then None
  else
    let since := (now - (Milliseconds duration - Milliseconds margin) * Millisecond)%Z in
    Some (count_by (
      '(_, a) ← map_where (λ _ a, bool_decide (a_scope a = scope)) (job_attempts d);
      w ← worker_of d a;
      if of_current_session d a w &&
         match a_status a with
         | AttemptLeased => true
         | AttemptRunning => match a_started_at a with Some t => (since <=? t)%Z | None => false end
         | _ => false
         end
      then [wk_name w] else [])).

(** The newest session of the worker with a name; [None] is no row. *)
Definition CurrentSession (d : DB) (scope name : string) : option uuid :=
  fst <$> head (map_select
    (λ _ s, match workers d !! s_worker_id s with
            | Some w => bool_decide (wk_scope w = s_scope s) && bool_decide (wk_scope w = scope) && bool_decide (wk_name w = name)
            | None => false
            end)
    (newest_first s_registered_at) (worker_sessions d)).

Record Recovery := mkRecovery { re_JobID : uuid; re_AbandonedAttempt : Z; re_ReplacementClaimedAt : option time }.
Definition After (r : Recovery) (kill : time) : option duration :=
  (λ t, t - kill)%Z <$> re_ReplacementClaimedAt r.

Definition abandoned_by (scope : string) (session : uuid) (a : Attempt) : bool :=
  in_scope_session scope session a && bool_decide (a_status a = AttemptAbandoned).

Definition Recoveries (d : DB) (scope : string) (session : uuid) : list Recovery :=
  '(aid, a) ← map_select (λ _ a, abandoned_by scope session a) by_job (job_attempts d);
  rep ← left_join (replacements d a);
  [mkRecovery (a_job_id a) (a_number a) ((λ x, a_created_at x.2) <$> rep)].

(** ** kill_outcomes.go *)

Inductive held_state := HeldLeased | HeldRunning | HeldCreatedAfterKill.
Inductive outcome :=
| OutcomeAbandoned | OutcomeAbandonedDeadLetter | OutcomeTimedOut | OutcomeTimedOutDeadLetter
| OutcomeCanceled | OutcomeUnresolved | OutcomeOther.
#[export] Instance outcome_eq : EqDecision outcome. Proof. solve_decision. Defined.

Record KillOutcome := mkKillOutcome {
  ko_JobID : uuid; ko_AttemptID : uuid; ko_AttemptNumber : Z; ko_StateAtKill : held_state;
  ko_Status : AttemptStatus; ko_FailureClass : option FailureClass; ko_ErrorCode : option string;
  ko_CreatedAt : time; ko_StartedAt : option time; ko_TimeoutAt : option time; ko_FinishedAt : option time;
  ko_RetryAt : option time;
  ko_LeaseStatus : LeaseStatus; ko_LeaseAcquiredAt : time; ko_LeaseRenewedAt : time; ko_LeaseExpiresAt : time;
  ko_LeaseReleasedAt : option time; ko_RenewalVersion : Z;
  ko_JobStatus : JobStatus; ko_DLQReason : option DLQReason; ko_ReplacementClaimedAt : option time }.

Definition Outcome (o : KillOutcome) : outcome :=
  match ko_Status o, ko_DLQReason o with
  | AttemptAbandoned, Some _ => OutcomeAbandonedDeadLetter
  | AttemptAbandoned, None => OutcomeAbandoned
  | AttemptTimedOut, Some _ => OutcomeTimedOutDeadLetter
  | AttemptTimedOut, None => OutcomeTimedOut
  | AttemptCanceled, _ => OutcomeCanceled
  | AttemptLeased, _ | AttemptRunning, _ => OutcomeUnresolved
  | AttemptSucceeded, _ | AttemptFailed, _ => OutcomeOther
  end.

Definition ClaimToStart (o : KillOutcome) : option duration :=
  (λ t, t - ko_LeaseAcquiredAt o)%Z <$> ko_StartedAt o.
Definition ToReplacement (o : KillOutcome) (kill : time) : option duration :=
  (λ t, t - kill)%Z <$> ko_ReplacementClaimedAt o.

Definition held_at (kill : time) (a : Attempt) : held_state :=
  if (kill <? a_created_at a)%Z then HeldCreatedAfterKill
  else match a_started_at a with
       | Some t => if (t <=? kill)%Z then HeldRunning else HeldLeased
       | None => HeldLeased
       end.
Definition unfinished_at (kill : time) (a : Attempt) : bool :=
  match a_finished_at a with None => true | Some t => (kill <? t)%Z end.

Definition kill_outcome (kill : time) (x : uuid * Attempt) (l : Lease) (j : Job)
    (e : option (uuid * DLQEntry)) (rep : option (uuid * Attempt)) : KillOutcome :=
  let '(aid, a) := x in
  mkKillOutcome (a_job_id a) aid (a_number a) (held_at kill a)
    (a_status a) (a_failure_class a) (a_error_code a)
    (a_created_at a) (a_started_at a) (a_timeout_at a) (a_finished_at a) (a_retry_at a)
    (l_status l) (l_acquired_at l) (l_renewed_at l) (l_expires_at l) (l_released_at l) (l_renewal_version l)
    (j_status j) ((λ x, d_reason x.2) <$> e) ((λ x, a_created_at x.2) <$> rep).

(** The dead letter an attempt ended its job with. *)
Definition dead_letters_of (d : DB) (x : uuid * Attempt) : list (uuid * DLQEntry) :=
  map_where (λ _ e, bool_decide (d_job_id e = a_job_id x.2) && bool_decide (d_terminal_attempt_id e = Some x.1))
    (dlq_entries d).

Definition KillOutcomes (d : DB) (scope : string) (session : uuid) (kill : time) : list KillOutcome :=
  x ← map_select (λ _ a, in_scope_session scope session a && unfinished_at kill a) by_job (job_attempts d);
  l ← leases_of d x.1;
  j ← by_key (jobs d) (a_job_id x.2);
  e ← left_join (dead_letters_of d x);
  rep ← left_join (replacements d x.2);
  [kill_outcome kill x l j e rep].

Record Finished := mkFinished { fn_JobID : uuid; fn_AttemptNumber : Z; fn_Status : AttemptStatus; fn_FinishedAt : time }.
Definition by_finish (x y : uuid * Attempt) : bool :=
  match a_finished_at x.2, a_finished_at y.2 with
  | Some s, Some t => (s <? t)%Z || ((s =? t)%Z && (a_job_id x.2 <=? a_job_id y.2)%N)
  | _, _ => true
  end.
Definition FinishedBetween (d : DB) (scope : string) (session : uuid) (from to : time) : list Finished :=
  '(_, a) ← map_select (λ _ a, in_scope_session scope session a &&
               match a_finished_at a with Some t => (from <=? t)%Z && (t <=? to)%Z | None => false end)
             by_finish (job_attempts d);
  match a_finished_at a with Some t => [mkFinished (a_job_id a) (a_number a) (a_status a) t] | None => [] end.

(** The rows of a session's attempts with their worker, and whether they qualify: [None] is SQL's null, of an
    attempt without a deadline that qualifies otherwise. *)
Definition renewed_rows (d : DB) (scope : string) (margin : duration) (now : time) : list (string * option bool) :=
  '(aid, a) ← map_where (λ _ a, bool_decide (a_scope a = scope) && holding a) (job_attempts d);
  w ← worker_of d a;
  l ← leases_of d aid;
  if of_current_session d a w
  then
    let renewed := bool_decide (a_status a = AttemptRunning) && bool_decide (l_status l = LeaseActive)
                   && (1 <=? l_renewal_version l)%Z in
    [(wk_name w, match a_timeout_at a with
                 | Some t => Some (renewed && (now + Milliseconds margin * Millisecond <=? t)%Z)
                 | None => if renewed then None else Some false
                 end)]
  else [].
(** [HAVING bool_and]: the workers all of whose attempts qualify; nulls do not count. *)
Definition RenewedAttempts (d : DB) (scope : string) (margin : duration) (now : time) : option (gmap string nat) :=
  if (margin <? 0)%Z then None
  else
    let rows := renewed_rows d scope margin now in
    let qualifies name :=
      match omap snd (List.filter (λ r : string * option bool, bool_decide (r.1 = name)) rows) with
      | [] => false
      | values => forallb id values
      end in
    Some (count_by (List.filter qualifies (map fst rows))).

(** ** timeline.go *)

Record RecoveryHop := mkRecoveryHop {
  rh_JobID : uuid; rh_AbandonedAttempt : Z;
  rh_LeaseAcquiredAt : time; rh_LeaseRenewedAt : time; rh_LeaseExpiresAt : time; rh_LeaseReleasedAt : option time;
  rh_Event : option (uuid * OutboxEvent);
  rh_EventClaimedJobID : option uuid;
  rh_Replacement : option Attempt;
  rh_ReplacementEventID : option uuid;
  rh_ReplacementEvent : option OutboxEvent }.

(** The work.available events of the job in the window of its lease: created between expiry and release. *)
Definition recovery_events (d : DB) (jid : uuid) (l : Lease) : list (uuid * OutboxEvent) :=
  match l_released_at l with
  | None => []
  | Some released =>
    map_select (λ _ e, bool_decide (e_job_id e = Some jid) && bool_decide (e_type e = "work.available"%string)
                       && (l_expires_at l <=? e_created_at e)%Z && (e_created_at e <=? released)%Z)
      (by_created e_created_at) (outbox_events d)
  end.

(** The hops of one abandoned attempt; [None] when more than one event fits. *)
Definition recovery_hops (d : DB) (x : uuid * Attempt) : option (list RecoveryHop) :=
  let '(aid, a) := x in
  mapM id (
    l ← leases_of d aid;
    let events := recovery_events d (a_job_id a) l in
    el ← left_join (match events with
                    | ev :: _ => map snd (map_where (λ _ l, bool_decide (l_claim_request_id l = ev.1)) (leases d))
                    | [] => []
                    end);
    rep ← left_join (replacements d a);
    rl ← left_join (match rep with Some r => leases_of d r.1 | None => [] end);
    [if (1 <? length events)%nat then None
     else Some (mkRecoveryHop (a_job_id a) (a_number a)
            (l_acquired_at l) (l_renewed_at l) (l_expires_at l) (l_released_at l)
            (head events) (l_job_id <$> el) (snd <$> rep)
            (l_claim_request_id <$> rl)
            (rl ≫= λ l, outbox_events d !! l_claim_request_id l))]).
Definition RecoveryTimeline (d : DB) (scope : string) (session : uuid) : option (list RecoveryHop) :=
  (λ l, concat l) <$> mapM (recovery_hops d) (map_select (λ _ a, abandoned_by scope session a) by_job (job_attempts d)).

Record Segments := mkSegments { S1 : duration; S2 : duration; S3 : duration; S4 : duration; S5 : duration }.
Definition Sum (s : Segments) : duration := (S1 s + S2 s + S3 s + S4 s + S5 s)%Z.
Definition hop_Segments (h : RecoveryHop) (kill : time) : option Segments :=
  released ← rh_LeaseReleasedAt h;
  ev ← rh_Event h;
  published ← e_published_at ev.2;
  rep ← rh_Replacement h;
  Some (mkSegments (rh_LeaseExpiresAt h - kill) (released - rh_LeaseExpiresAt h)
          (e_created_at ev.2 - released) (published - e_created_at ev.2) (a_created_at rep - published))%Z.

Definition HeldBySession (d : DB) (scope : string) (session : uuid) : nat :=
  map_count (λ _ a, in_scope_session scope session a && holding a) (job_attempts d).

Record Foreign := mkForeign { NonTerminalJobs : nat; PendingEvents : nat }.
Definition None_foreign (f : Foreign) : bool := (NonTerminalJobs f =? 0)%nat && (PendingEvents f =? 0)%nat.
Definition ForeignActivity (d : DB) (scope : string) : Foreign :=
  mkForeign
    (map_count (λ _ j, negb (bool_decide (j_scope j = scope)) &&
                       negb (bool_decide (j_status j ∈ [StatusSucceeded; StatusDeadLettered; StatusCanceled]))) (jobs d))
    (map_count (λ _ e, bool_decide (e_status e = EventPending) &&
                       negb (bool_decide (j_scope <$> (e_job_id e ≫= λ i, jobs d !! i) = Some scope))) (outbox_events d)).

Definition ActiveLeaseExpiries (d : DB) (scope : string) (session : uuid) : list time :=
  merge_sort Z.le (map (λ x, l_expires_at x.2)
    (map_where (λ _ l, bool_decide (l_scope l = scope) && bool_decide (l_session_id l = session) && is_active l) (leases d))).

Record AtCapacity := mkAtCapacity { ac_Worker : string; ac_At : time; ac_Active : nat; ac_DeadBoots : nat; ac_Limit : Z }.

(** The instants a count can rise at: the start and the acquisitions in (from, to]. *)
Definition instants (d : DB) (scope : string) (from to : time) : list time :=
  merge_sort Z.le (from :: map (λ x, l_acquired_at x.2)
    (map_where (λ _ l, bool_decide (l_scope l = scope) && (from <? l_acquired_at l)%Z && (l_acquired_at l <=? to)%Z) (leases d))).
(** A worker at an instant, when it holds a lease and as many as its limit. *)
Definition at_capacity (d : DB) (x : uuid * Worker) (t : time) : option AtCapacity :=
  let '(wid, w) := x in
  '(sid, s) ← head (map_select (λ _ s, bool_decide (s_worker_id s = wid) && bool_decide (s_scope s = wk_scope w)
                                       && (s_registered_at s <=? t)%Z)
                      (newest_first s_registered_at) (worker_sessions d));
  let held := map_where (λ _ l, bool_decide (l_worker_id l = wid) && bool_decide (l_scope l = wk_scope w)
                                && (l_acquired_at l <=? t)%Z
                                && match l_released_at l with None => true | Some r => (t <? r)%Z end) (leases d) in
  if (1 <=? length held)%nat && (s_concurrency_limit s <=? Z.of_nat (length held))%Z
  then Some (mkAtCapacity (wk_name w) t (length held)
               (length (List.filter (λ l, negb (bool_decide (l_session_id l.2 = sid))) held)) (s_concurrency_limit s))
  else None.
(** [DISTINCT ON (name)]: the first instant of each worker; names are unique in a scope, and [text_le]
    is the database's collation. *)
Definition WorkersAtCapacityDuring (text_le : string → string → bool) (d : DB) (scope : string) (from to : time)
    : list AtCapacity :=
  omap (λ x, head (omap (at_capacity d x) (instants d scope from to)))
    (map_select (λ _ w, bool_decide (wk_scope w = scope)) (λ x y, text_le (wk_name x.2) (wk_name y.2)) (workers d)).


(** ** Rows that are joined once *)

(** A table with one row that fits. *)
Lemma map_where_nodup {K V} `{Countable K} (f : K → V → bool) (m : gmap K V) : NoDup (map fst (map_where f m)).
Proof. eapply sublist_NoDup; [apply (NoDup_fst_map_to_list m)|apply filter_keys_sublist]. Qed.
Lemma map_where_single {K V} `{Countable K} (f : K → V → bool) (m : gmap K V) :
  (∀ k k' v v', m !! k = Some v → m !! k' = Some v' → f k v = true → f k' v' = true → k = k') →
  length (map_where f m) <= 1.
Proof.
  intros Huniq. pose proof (map_where_nodup f m) as Hnd.
  destruct (map_where f m) as [|[k v] [|[k' v'] l]] eqn:Hl; simpl; [lia..|]. exfalso.
  assert ((k, v) ∈ map_where f m) as [Hk Hf]%map_where_spec by (rewrite Hl; by left).
  assert ((k', v') ∈ map_where f m) as [Hk' Hf']%map_where_spec by (rewrite Hl; right; by left).
  rewrite (Huniq k k' v v' Hk Hk' Hf Hf') in Hnd. apply NoDup_cons in Hnd as [Hni _]. apply Hni. by left.
Qed.
Lemma left_join_single {A} (l : list A) : length l <= 1 → left_join l = [head l].
Proof. destruct l as [|x [|y l]]; simpl; [done..|lia]. Qed.

(** A comprehension each of whose rows has one partner is a map. *)
Lemma bind_single {A B} (f : A → list B) (g : A → B) (l : list A) :
  (∀ x, x ∈ l → f x = [g x]) → l ≫= f = map g l.
Proof.
  induction l as [|x l IH]; intros Hf; [done|]. csimpl. rewrite (Hf x) by (by left).
  rewrite IH by (intros y Hy; apply Hf; by right). done.
Qed.

Section joined.
Context (d : DB) (Hinv : Inv d).

Lemma leases_of_single aid a :
  job_attempts d !! aid = Some a → ∃ lid l, leases_of d aid = [l] ∧ leases d !! lid = Some l ∧ l_attempt_id l = aid.
Proof.
  intros Ha. destruct (li_attempt _ _ _ (inv_leases _ Hinv) aid a Ha) as (lid & l & Hl & Hla).
  exists lid, l. split; [|done]. unfold leases_of.
  set (f := λ (_ : uuid) (l : Lease), bool_decide (l_attempt_id l = aid)).
  assert (length (map_where f (leases d)) <= 1) as Hlen.
  { apply map_where_single. intros k k' v v' Hk Hk' Hv%bool_decide_eq_true Hv'%bool_decide_eq_true.
    apply (li_unique _ _ _ (inv_leases _ Hinv) k k' v v' Hk Hk').
    unfold lease_conflict. by rewrite bool_decide_eq_true_2 by congruence. }
  assert ((lid, l) ∈ map_where f (leases d)) as Hin by (apply map_where_spec; split; [done|by apply bool_decide_eq_true_2]).
  destruct (map_where f (leases d)) as [|x [|y rows]]; simpl in *; [by apply elem_of_nil in Hin| |lia].
  by apply list_elem_of_singleton in Hin as <-.
Qed.

Lemma attempts_single jid n :
  length (map_where (λ _ r, bool_decide (a_job_id r = jid) && (a_number r =? n)%Z) (job_attempts d)) <= 1.
Proof.
  apply map_where_single. intros k k' v v' Hk Hk' Hv Hv'.
  apply andb_true_iff in Hv as [Hj%bool_decide_eq_true Hn%Z.eqb_eq].
  apply andb_true_iff in Hv' as [Hj'%bool_decide_eq_true Hn'%Z.eqb_eq].
  apply (ai_unique _ _ (inv_attempts _ Hinv) k k' v v' Hk Hk'); congruence.
Qed.

Lemma dead_letters_single x : length (dead_letters_of d x) <= 1.
Proof.
  apply map_where_single. intros k k' v v' Hk Hk' Hv Hv'.
  apply andb_true_iff in Hv as [Hj%bool_decide_eq_true _]. apply andb_true_iff in Hv' as [Hj'%bool_decide_eq_true _].
  apply (di_unique _ _ (inv_dlq _ Hinv) k k' v v' Hk Hk'). congruence.
Qed.

Lemma job_of_attempt aid a : job_attempts d !! aid = Some a → ∃ j, jobs d !! a_job_id a = Some j.
Proof. intros Ha. destruct (ai_job _ _ (inv_attempts _ Hinv) aid a Ha) as (j & Hj & _). by exists j. Qed.

(** What the queries give, without their joins. *)
Definition recovery_row (x : uuid * Attempt) : Recovery :=
  mkRecovery (a_job_id x.2) (a_number x.2) ((λ r, a_created_at r.2) <$> head (replacements d x.2)).
Lemma Recoveries_rows scope session :
  Recoveries d scope session = map recovery_row (map_select (λ _ a, abandoned_by scope session a) by_job (job_attempts d)).
Proof.
  apply bind_single. intros [aid a] _. by rewrite left_join_single by apply attempts_single.
Qed.

(** The outcome of an attempt, its own columns aside. *)
Definition outcome_of (kill : time) (x : uuid * Attempt) (o : KillOutcome) : Prop :=
  ∃ lid l j, leases d !! lid = Some l ∧ l_attempt_id l = x.1 ∧ jobs d !! a_job_id x.2 = Some j ∧
    o = kill_outcome kill x l j (head (dead_letters_of d x)) (head (replacements d x.2)).

Lemma KillOutcomes_rows scope session kill :
  Forall2 (outcome_of kill)
    (map_select (λ _ a, in_scope_session scope session a && unfinished_at kill a) by_job (job_attempts d))
    (KillOutcomes d scope session kill).
Proof.
  unfold KillOutcomes.
  assert (∀ x, x ∈ map_select (λ _ a, in_scope_session scope session a && unfinished_at kill a) by_job (job_attempts d) →
    job_attempts d !! x.1 = Some x.2) as Hin by (intros [aid a] Hx; by apply map_select_elem in Hx as [Ha _]).
  induction (map_select _ _ _) as [|x rows IH]; [constructor|]. csimpl.
  destruct (leases_of_single x.1 x.2) as (lid & l & Hl & Hlid & Hla); [apply Hin; by left|].
  destruct (job_of_attempt x.1 x.2) as [j Hj]; [apply Hin; by left|].
  rewrite Hl. csimpl. unfold by_key. rewrite Hj. csimpl.
  rewrite (left_join_single _ (dead_letters_single x)), (left_join_single (replacements d x.2) (attempts_single _ _)).
  csimpl. constructor.
  - exists lid, l, j. by destruct x.
  - apply IH. intros y Hy. apply Hin. by right.
Qed.
End joined.

(** ** Order *)

Lemma by_job_trans : Transitive (ordby by_job).
Proof.
  intros x y z. unfold ordby, by_job. rewrite !orb_true_iff, !andb_true_iff, !N.ltb_lt, !N.eqb_eq, !Z.leb_le. lia.
Qed.
Lemma by_job_total : Total (ordby by_job).
Proof.
  intros x y. unfold ordby, by_job. rewrite !orb_true_iff, !andb_true_iff, !N.ltb_lt, !N.eqb_eq, !Z.leb_le. lia.
Qed.

Lemma filter_sorted {A} (R : A → A → Prop) (p : A → bool) l : StronglySorted R l → StronglySorted R (List.filter p l).
Proof.
  induction 1 as [|x l Hs IH Hall]; simpl; [constructor|]. destruct (p x); [|done]. constructor; [done|].
  rewrite Forall_forall in *. intros y Hy. apply list_elem_of_In, filter_In in Hy as [Hy _]. by apply Hall, list_elem_of_In.
Qed.
Lemma filter_filter {A} (p q : A → bool) l : List.filter p (List.filter q l) = List.filter (λ x, q x && p x) l.
Proof. induction l as [|x l IH]; simpl; [done|]. destruct (q x); simpl; [|done]. by destruct (p x); rewrite IH. Qed.
Lemma filter_permutation {A} (p : A → bool) l l' : l ≡ₚ l' → List.filter p l ≡ₚ List.filter p l'.
Proof. induction 1; simpl; repeat case_match; eauto using Permutation; by constructor. Qed.

(** Selecting from a selection in the order of a key. *)
Lemma select_by_job d f p : Inv d →
  List.filter (λ x, p x.2) (map_select (λ _ a, f a) by_job (job_attempts d)) =
  map_select (λ _ a, f a && p a) by_job (job_attempts d).
Proof.
  intros Hinv. pose proof by_job_trans. pose proof by_job_total.
  apply (StronglySorted_unique_strong (ordby by_job)).
  - intros [k a] [k' a'] Hin Hin' H1 H2.
    apply list_elem_of_In, filter_In in Hin as [Hin%list_elem_of_In _].
    apply map_select_elem in Hin as [Ha _]. apply map_select_elem in Hin' as [Ha' _].
    unfold ordby, by_job in H1, H2. simpl in H1, H2.
    rewrite orb_true_iff, andb_true_iff, N.ltb_lt, N.eqb_eq, Z.leb_le in H1, H2.
    assert (k = k') as <- by (apply (ai_unique _ _ (inv_attempts _ Hinv) k k' a a' Ha Ha'); lia).
    congruence.
  - by apply filter_sorted, map_select_sorted.
  - by apply map_select_sorted.
  - unfold map_select.
    etransitivity; [apply filter_permutation, merge_sort_Permutation|]. rewrite merge_sort_Permutation.
    unfold map_where. by rewrite filter_filter.
Qed.

(** Two lists row by row, filtered alike. *)
Lemma Forall2_filter_map {A B C} (R : A → B → Prop) (p : A → bool) (q : B → bool) (g : A → C) (h : B → C) l l' :
  Forall2 R l l' → (∀ x y, R x y → p x = q y) → (∀ x y, R x y → g x = h y) →
  map g (List.filter p l) = map h (List.filter q l').
Proof.
  intros Hl Hpq Hgh. induction Hl as [|x y l l' Hxy Hl IH]; simpl; [done|].
  rewrite (Hpq x y Hxy). destruct (q y); simpl; [|done]. by rewrite (Hgh x y Hxy), IH.
Qed.

(** ** What the readings mean *)

Definition abandoned (o : outcome) : bool :=
  match o with OutcomeAbandoned | OutcomeAbandonedDeadLetter => true | _ => false end.
Definition recovery_of (o : KillOutcome) : Recovery :=
  mkRecovery (ko_JobID o) (ko_AttemptNumber o) (ko_ReplacementClaimedAt o).

Lemma Outcome_abandoned o : abandoned (Outcome o) = bool_decide (ko_Status o = AttemptAbandoned).
Proof. unfold Outcome. by destruct (ko_Status o), (ko_DLQReason o). Qed.

(** C40: the two readings of a kill agree.  In every reachable database, the recoveries of a killed
    session are its kill outcomes of the two abandoned kinds, in the same order, attempt by
    attempt with the same replacement, as long as none of them was abandoned before the kill;
    so an abandoned attempt is in both figures or in neither. *)
Theorem recoveries_are_abandoned_outcomes qs d scope session kill :
  queues_ok qs → reachable qs d →
  (∀ aid a, job_attempts d !! aid = Some a → abandoned_by scope session a = true → unfinished_at kill a = true) →
  Recoveries d scope session =
  map recovery_of (List.filter (λ o, abandoned (Outcome o)) (KillOutcomes d scope session kill)).
Proof.
  intros Hq Hr Hafter. pose proof (reachable_Inv qs d Hq Hr) as Hinv. rewrite (Recoveries_rows d Hinv).
  rewrite <-(Forall2_filter_map _ (λ x, bool_decide (a_status x.2 = AttemptAbandoned)) _ (recovery_row d) recovery_of
               _ _ (KillOutcomes_rows d Hinv scope session kill)).
  - f_equal. symmetry. etransitivity; [exact (select_by_job d _ (λ a, bool_decide (a_status a = AttemptAbandoned)) Hinv)|].
    symmetry.
    unfold map_select, map_where. f_equal. apply List.filter_ext_in. intros [aid a] Hin%list_elem_of_In%elem_of_map_to_list.
    specialize (Hafter aid a Hin). unfold abandoned_by in *. simpl.
    destruct (in_scope_session scope session a); simpl in *; [|done].
    destruct (bool_decide _); [|by rewrite andb_false_r]. by rewrite Hafter.
  - intros [aid a] o (lid & l & j & _ & _ & _ & ->). by rewrite Outcome_abandoned.
  - by intros [aid a] o (lid & l & j & _ & _ & _ & ->).
Qed.

Section exact.
Context (d : DB) (Hinv : Inv d).

(** What a dispatch says of its job: its first attempt's claim and lease, when there is one. *)
Definition dispatch_of (x : uuid * Job) (r : Dispatch) : Prop :=
  di_JobID r = x.1 ∧ di_SubmittedAt r = j_created_at x.2 ∧
  (∀ t, di_ClaimedAt r = Some t ↔
     ∃ aid a, job_attempts d !! aid = Some a ∧ a_job_id a = x.1 ∧ a_number a = 1%Z ∧ a_created_at a = t) ∧
  (∀ t, di_LeasedAt r = Some t ↔
     ∃ aid a lid l, job_attempts d !! aid = Some a ∧ a_job_id a = x.1 ∧ a_number a = 1%Z ∧
       leases d !! lid = Some l ∧ l_attempt_id l = aid ∧ l_acquired_at l = t).

Lemma first_attempt_spec jid aid a :
  head (first_attempts d jid) = Some (aid, a) ↔ job_attempts d !! aid = Some a ∧ a_job_id a = jid ∧ a_number a = 1%Z.
Proof.
  assert ((aid, a) ∈ first_attempts d jid ↔ job_attempts d !! aid = Some a ∧ a_job_id a = jid ∧ a_number a = 1%Z) as Hin.
  { unfold first_attempts. rewrite map_where_spec, andb_true_iff, bool_decide_eq_true, Z.eqb_eq. tauto. }
  rewrite <-Hin. pose proof (attempts_single d Hinv jid 1) as Hlen. fold (first_attempts d jid) in Hlen.
  destruct (first_attempts d jid) as [|x [|y l]]; simpl in *; [|by rewrite list_elem_of_singleton; naive_solver|lia].
  split; [done|by intros ?%elem_of_nil].
Qed.

Lemma Dispatches_rows scope from to :
  Forall2 dispatch_of (map_select (λ _ j, submitted_in scope from to j) (by_created j_created_at) (jobs d))
    (Dispatches d scope from to).
Proof.
  unfold Dispatches. induction (map_select _ _ _) as [|[jid j] rows IH]; [constructor|]. csimpl.
  pose proof (attempts_single d Hinv jid 1) as Hlen. fold (first_attempts d jid) in Hlen.
  rewrite (left_join_single _ Hlen). csimpl. pose proof (first_attempt_spec jid) as Hspec.
  destruct (head (first_attempts d jid)) as [[aid a]|].
  - destruct (proj1 (Hspec aid a) eq_refl) as (Ha & Hj & Hn).
    destruct (leases_of_single d Hinv aid a Ha) as (lid & l & Hl & Hlid & Hla). cbn [fst]. rewrite Hl. csimpl.
    constructor; [|exact IH]. split_and!; [done..| |]; simpl; intros t; (split; [intros [= <-]; eauto 12|]).
    + intros (aid' & a' & Ha' & Hj' & Hn' & <-). assert (Some (aid, a) = Some (aid', a')) by (by apply Hspec). naive_solver.
    + intros (aid' & a' & lid' & l' & Ha' & Hj' & Hn' & Hl' & Hla' & <-).
      assert (Some (aid, a) = Some (aid', a')) as [= <- <-] by (by apply Hspec).
      assert (lid = lid') as <- by (apply (li_unique _ _ _ (inv_leases _ Hinv) lid lid' l l' Hlid Hl');
        unfold lease_conflict; by rewrite bool_decide_eq_true_2 by congruence). naive_solver.
  - constructor; [|exact IH]. split_and!; [done..| |]; simpl; intros t; (split; [done|]).
    + intros (aid & a & Ha & Hj & Hn & _). by assert (None = Some (aid, a)) by (by apply Hspec).
    + intros (aid & a & lid & l & Ha & Hj & Hn & _). by assert (None = Some (aid, a)) by (by apply Hspec).
Qed.

Definition succeeded_in (scope : string) (j : Job) : bool :=
  bool_decide (j_scope j = scope) && bool_decide (j_status j = StatusSucceeded).

(** The finish of the one successful attempt of a job. *)
Lemma succeeded_single jid j : jobs d !! jid = Some j → j_status j = StatusSucceeded →
  ∃ aid a t, map_where (λ _ a, bool_decide (a_job_id a = jid) && bool_decide (a_status a = AttemptSucceeded)) (job_attempts d)
    = [(aid, a)] ∧ job_attempts d !! aid = Some a ∧ a_job_id a = jid ∧ a_status a = AttemptSucceeded ∧ a_finished_at a = Some t.
Proof.
  intros Hj Hs. destruct (ai_succeeded _ _ (inv_attempts _ Hinv) jid j Hj Hs) as (aid & a & Ha & Haj & Has).
  set (f := λ (_ : uuid) a, bool_decide (a_job_id a = jid) && bool_decide (a_status a = AttemptSucceeded)).
  assert (length (map_where f (job_attempts d)) <= 1) as Hlen.
  { apply map_where_single. intros k k' v v' Hk Hk' Hv Hv'.
    apply andb_true_iff in Hv as [Hvj%bool_decide_eq_true Hvs%bool_decide_eq_true].
    apply andb_true_iff in Hv' as [Hvj'%bool_decide_eq_true Hvs'%bool_decide_eq_true].
    destruct (ai_job _ _ (inv_attempts _ Hinv) k v Hk) as (j1 & _ & H1).
    destruct (ai_job _ _ (inv_attempts _ Hinv) k' v' Hk') as (j2 & _ & H2).
    destruct (H1 Hvs) as [_ Hn1]. destruct (H2 Hvs') as [_ Hn2].
    apply (ai_unique _ _ (inv_attempts _ Hinv) k k' v v' Hk Hk'); congruence. }
  assert ((aid, a) ∈ map_where f (job_attempts d)) as Hin
    by (apply map_where_spec; split; [done|]; unfold f; by rewrite !bool_decide_eq_true_2 by done).
  destruct (ro_attempt _ _ _ _ _ (inv_rows _ Hinv) aid a Ha) as (Hcheck & _).
  assert (∃ t, a_finished_at a = Some t) as [t Ht].
  { unfold attempt_check, times_consistent in Hcheck. rewrite Has in Hcheck.
    destruct (a_finished_at a); [by eexists|]. by rewrite !andb_false_r in Hcheck. }
  exists aid, a, t. split; [|done].
  destruct (map_where f (job_attempts d)) as [|x [|y l]]; simpl in *; [by apply elem_of_nil in Hin| |lia].
  by apply list_elem_of_singleton in Hin as <-.
Qed.

Lemma succeeded_rows_exact scope :
  Forall2 (λ (x : uuid * Job) r, r.2 = x.1 ∧ ∃ aid a, job_attempts d !! aid = Some a ∧ a_job_id a = x.1 ∧
             a_status a = AttemptSucceeded ∧ a_finished_at a = Some r.1)
    (map_where (λ _ j, succeeded_in scope j) (jobs d)) (succeeded_rows d scope).
Proof.
  unfold succeeded_rows.
  assert (∀ x, x ∈ map_where (λ _ j, succeeded_in scope j) (jobs d) →
    jobs d !! x.1 = Some x.2 ∧ j_status x.2 = StatusSucceeded) as Hin.
  { intros [jid j] [Hj Hs]%map_where_spec. split; [done|]. unfold succeeded_in in Hs.
    by apply andb_true_iff in Hs as [_ Hs%bool_decide_eq_true]. }
  change (λ (_ : uuid) (j : Job), bool_decide (j_scope j = scope) && bool_decide (j_status j = StatusSucceeded))
    with (λ (_ : uuid) (j : Job), succeeded_in scope j).
  induction (map_where _ (jobs d)) as [|[jid j] rows IH]; [constructor|]. csimpl.
  destruct (Hin (jid, j)) as [Hj Hs]; [by left|].
  destruct (succeeded_single jid j Hj Hs) as (aid & a & t & Hrow & Ha & Haj & Has & Ht). simpl in *.
  rewrite Hrow. csimpl. rewrite Ht. csimpl. constructor; [simpl; eauto 10|].
  apply IH. intros x Hx. apply Hin. by right.
Qed.
End exact.

Lemma finishes_sorted d scope : StronglySorted Z.le (SucceededFinishes d scope).
Proof.
  unfold SucceededFinishes.
  assert (StronglySorted (ordby finish_order) (merge_sort (ordby finish_order) (succeeded_rows d scope))) as Hs.
  { apply StronglySorted_merge_sort; [intros x y z|intros x y]; unfold ordby, finish_order;
      rewrite !orb_true_iff, !andb_true_iff, !Z.ltb_lt, !Z.eqb_eq, !N.leb_le; lia. }
  induction Hs as [|x l _ IH Hall]; simpl; constructor; [done|]. apply Forall_fmap. eapply Forall_impl; [exact Hall|].
  intros y. unfold ordby, finish_order. rewrite orb_true_iff, andb_true_iff, Z.ltb_lt, Z.eqb_eq. simpl. lia.
Qed.

(** The figures count each thing once.  In every reachable database: the dispatches of a window
    are its immediate jobs, in the order of submission, each with the claim and the lease of its
    first attempt and no other; the finish times are those of the successful attempts, one for
    each SUCCEEDED job of the scope, in ascending order; and the outcomes of a kill are the
    attempts the session had not finished, each once, with its own lease, job, dead letter and
    replacement. *)
Theorem measurements_count_once qs d scope :
  queues_ok qs → reachable qs d →
  (∀ from to, Forall2 (dispatch_of d)
     (map_select (λ _ j, submitted_in scope from to j) (by_created j_created_at) (jobs d)) (Dispatches d scope from to)) ∧
  (StronglySorted Z.le (SucceededFinishes d scope) ∧
   ∃ finishes, SucceededFinishes d scope ≡ₚ finishes ∧
     Forall2 (λ (x : uuid * Job) t, ∃ aid a, job_attempts d !! aid = Some a ∧ a_job_id a = x.1 ∧
                a_status a = AttemptSucceeded ∧ a_finished_at a = Some t)
       (map_where (λ _ j, succeeded_in scope j) (jobs d)) finishes) ∧
  (∀ session kill, Forall2 (outcome_of d kill)
     (map_select (λ _ a, in_scope_session scope session a && unfinished_at kill a) by_job (job_attempts d))
     (KillOutcomes d scope session kill)).
Proof.
  intros Hq Hr. pose proof (reachable_Inv qs d Hq Hr) as Hinv. split_and!.
  - intros from to. by apply Dispatches_rows.
  - apply finishes_sorted.
  - exists (map fst (succeeded_rows d scope)). split.
    + unfold SucceededFinishes. apply Permutation_map, merge_sort_Permutation.
    + eapply Forall2_fmap_r, Forall2_impl; [by apply succeeded_rows_exact|]. by intros x r [_ Hrow].
  - intros session kill. by apply KillOutcomes_rows.
Qed.

(** ** A kill

    The worker of the sample history dies after its start; its lease lapses, the attempt is
    abandoned and the job claimed again. *)
Definition killed : list (call * time * N) :=
  sc_running ++
  [ (CallExpire sc_cfg "t1" sc_fence ReconcileStats_zero, sec 1060, 500%N);
    (CallClaim sc_cfg "t1" (sc_claim 79), sec 1070, 600%N) ].
Definition kill_time : time := sec 1045.

Example killed_recoveries :
  Recoveries (at_end killed) "t1" 7 = [mkRecovery 100 1 (Some (sec 1070))] ∧
  map (λ o, (ko_StateAtKill o, Outcome o)) (KillOutcomes (at_end killed) "t1" 7 kill_time)
  = [(HeldRunning, OutcomeAbandoned); (HeldCreatedAfterKill, OutcomeUnresolved)].
Proof. vm_compute. split; reflexivity. Qed.

Lemma recoveries_are_abandoned_outcomes_witness :
  Recoveries (at_end killed) "t1" 7 =
  map recovery_of (List.filter (λ o, abandoned (Outcome o)) (KillOutcomes (at_end killed) "t1" 7 kill_time)) ∧
  length (Recoveries (at_end killed) "t1" 7) = 1.
Proof.
  split; [|vm_compute; reflexivity].
  apply (recoveries_are_abandoned_outcomes sc_queues (at_end killed) "t1" 7 kill_time).
  - apply sc_queues_ok.
  - apply at_end_reachable.
  - intros aid a Ha Hab.
    assert (map_any (λ _ a, abandoned_by "t1" 7 a && negb (unfinished_at kill_time a)) (job_attempts (at_end killed)) = false)
      as Hnone by (vm_compute; reflexivity).
    pose proof (proj1 (map_any_false _ _) Hnone aid a Ha) as Hb. cbn beta in Hb. rewrite Hab in Hb. by destruct (unfinished_at kill_time a).
Defined.

Lemma measurements_count_once_witness :
  Forall2 (outcome_of (at_end killed) kill_time)
    (map_select (λ _ a, in_scope_session "t1" 7 a && unfinished_at kill_time a) by_job (job_attempts (at_end killed)))
    (KillOutcomes (at_end killed) "t1" 7 kill_time) ∧
  length (KillOutcomes (at_end killed) "t1" 7 kill_time) = 2.
Proof.
  split; [|vm_compute; reflexivity].
  refine (proj2 (proj2 (measurements_count_once sc_queues (at_end killed) "t1" _ _)) 7%N kill_time).
  - apply sc_queues_ok.
  - apply at_end_reachable.
Defined.

(** The five segments of a recovery add up to it. *)
Lemma segments_telescope h kill s rep : hop_Segments h kill = Some s → rh_Replacement h = Some rep →
  Sum s = (a_created_at rep - kill)%Z.
Proof.
  unfold hop_Segments. destruct (rh_LeaseReleasedAt h); simpl; [|done]. destruct (rh_Event h) as [[? ev]|]; simpl; [|done].
  destruct (e_published_at ev); simpl; [|done]. intros Hs Hrep. rewrite Hrep in Hs. injection Hs as <-. unfold Sum. simpl. lia.
Qed.
End Readdb.
