(* ===== verification/Bench.v ===== *)
(** * scripts/internal/stack and scripts/bench

    [Stack] is scripts/internal/stack: the timing profiles (timings.go), the infrastructure (infra.go)
    and the environments of the processes a run starts (stack.go), read by the loaders of those
    processes.

    [Bench] is scripts/bench: percentiles (percentile.go), windows and rates (window.go), the schedule
    of kills (schedule.go), the pacer (pace.go), the guards of a recorded run (guard.go, config.go,
    main.go), the two analyses (results.go, faultsresult.go), the verdicts (targets.go, record.go),
    the checks of the smoke (smoke.go), the retries of a submission (submit.go) and the judgements of
    the recovery probe (probe.go, probe_report.go); and what they say about the database they are
    read from.

    Durations are in nanoseconds and far from the limits of int64.  Messages are constructors, and
    the texts of a record are left out.  What starts and kills processes is not here: its
    observations are the inputs of the analyses. *)

From Stdlib Require Import QArith Qround.
From S2P Require Import Prelude.
From S2P Require Import GoText.
From S2P Require Import GoFloat.
From S2P Require Import Schema.
From S2P Require Import GoTime.
From S2P Require Import Hosts.
From S2P Require Import Api.
From S2P Require Import Notification.
From S2P Require Import Config.
From S2P Require Import Handlers.
From S2P Require Import Runner.
From S2P Require Import Wiring.
From S2P Require Import ConfigTheorems.
From S2P Require Import Scan.
From S2P Require Import Invariant.
From S2P Require Import Transitions.
From S2P Require Import System.
From S2P Require Import History.
From S2P Require Import Scenario.
From S2P Require Import ReadDb.

Local Open Scope string_scope.

(** ** scripts/internal/stack: the environment of the processes a run starts *)

Module Stack.

(** ** time.Duration's String *)

(** [fmtFrac]: the digits of v / 10^prec before [text], without trailing zeros, and the rest. *)
Fixpoint fmtFrac (prec : nat) (v : Z) (print : bool) (text : string) : string * Z :=
  match prec with
  | 0 => (if print then "." ++ text else text, v)
  | S prec' =>
    let digit := (v mod 10)%Z in
    let print := print || negb (digit =? 0)%Z in
    fmtFrac prec' (v / 10)%Z print (if print then Itoa digit ++ text else text)
  end.

Definition duration_String (d : duration) : string :=
  let u := Z.abs d in
  let text :=
    if (u <? Second)%Z then
      if (u =? 0)%Z then "0s"
      else
        let '(prec, unit) := if (u <? 1000)%Z then (0, "ns") else if (u <? Millisecond)%Z then (3, "µs") else (6, "ms") in
        let '(frac, v) := fmtFrac prec u false unit in
        Itoa v ++ frac
    else
      let '(frac, v) := fmtFrac 9 u false "s" in
      let seconds := Itoa (v mod 60)%Z ++ frac in
      let v := (v / 60)%Z in
      if (0 <? v)%Z then
        let minutes := Itoa (v mod 60)%Z ++ "m" ++ seconds in
        let v := (v / 60)%Z in
        if (0 <? v)%Z then Itoa v ++ "h" ++ minutes else minutes
      else seconds in
  if (d <? 0)%Z then "-" ++ text else text.

Example duration_texts :
  map duration_String [0; 1; 1100; 2200000; 1500000000; 300000000000; 5410000000000; -500000000; 3600000000001]%Z =
  ["0s"; "1ns"; "1.1µs"; "2.2ms"; "1.5s"; "5m0s"; "1h30m10s"; "-500ms"; "1h0m0.000000001s"].
Proof. vm_compute. reflexivity. Qed.

(** ** strconv.FormatFloat(x, 'f', -1, 64) *)

(** [d] / 10^[scale] in full, without trailing zeros after the point. *)
Fixpoint decimal_text (fuel : nat) (d scale : Z) : string :=
  if (scale <=? 0)%Z then Itoa (d * 10 ^ (- scale))
  else
    match fuel with
    | S fuel' =>
      if (d mod 10 =? 0)%Z then decimal_text fuel' (d / 10) (scale - 1)
      else
        let digits := Itoa (d mod 10 ^ scale)%Z in
        Itoa (d / 10 ^ scale)%Z ++ "." ++ String.concat "" (repeat "0" (Z.to_nat scale - String.length digits)) ++ digits
    | 0 => ""
    end.

(** The power of ten above num/den. *)
Fixpoint decimal_exponent (fuel : nat) (num den : Z) : Z :=
  match fuel with
  | 0 => 0
  | S fuel' =>
    if (num <? den)%Z then (decimal_exponent fuel' (num * 10) den - 1)%Z
    else Z.of_nat (String.length (Itoa (num / den)))
  end.

(** The nearest decimal of [n], [n+1], ... digits that parses to the same number. *)
Fixpoint shortest (fuel : nat) (n : Z) (num den p : Z) (x : f64) : string :=
  match fuel with
  | 0 => ""
  | S fuel' =>
    let scale := (n - p)%Z in
    let '(num', den') := if (0 <=? scale)%Z then (num * 10 ^ scale, den)%Z else (num, den * 10 ^ (- scale))%Z in
    let lower := (num' / den')%Z in
    let near := if (2 * (num' mod den') <=? den')%Z then [lower; lower + 1]%Z else [lower + 1; lower]%Z in
    match List.find (λ d, match ParseFloat (decimal_text 400 d scale) with Some y => f64_eq y x | None => false end) near with
    | Some d => decimal_text 400 d scale
    | None => shortest fuel' (n + 1) num den p x
    end
  end.

(** Of numbers below 10^20. *)
Definition FormatFloat (x : f64) : string :=
  match x with
  | SpecFloat.S754_nan => "NaN"
  | SpecFloat.S754_infinity s => if s then "-Inf" else "+Inf"
  | SpecFloat.S754_zero s => if s then "-0" else "0"
  | SpecFloat.S754_finite s m e =>
    let '(num, den) := (Z.pos m * 2 ^ Z.max e 0, 2 ^ Z.max (- e) 0)%Z in
    (if s then "-" else "") ++ shortest 17 1 num den (decimal_exponent 400 num den) (SpecFloat.S754_finite false m e)
  end.

Example float_texts :
  map (λ s, FormatFloat <$> ParseFloat s) ["2.0"; "0.2"; "1500"; "0.00001"; "123.456"; "-0.5"; "0.30000000000000004"; "1e19"] =
  map Some ["2"; "0.2"; "1500"; "0.00001"; "123.456"; "-0.5"; "0.30000000000000004"; "10000000000000000000"].
Proof. vm_compute. reflexivity. Qed.

(** ** timings.go *)

Record Timings := mkTimings {
  Lease : duration; Heartbeat : duration; Stale : duration; Renew : duration; WorkerRequest : duration;
  PollInterval : duration; OutboxPoll : duration; OutboxClaim : duration; RenotifyAfter : duration;
  WorkerPollWait : duration; WorkerShutdown : duration; APIRequest : duration;
  RetryBase : duration; RetryMax : duration; RetryMultiplier : f64; RetryJitter : f64 }.
#[export] Instance eta_Timings : Eta Timings := λ t,
  mkTimings (Lease t) (Heartbeat t) (Stale t) (Renew t) (WorkerRequest t) (PollInterval t) (OutboxPoll t) (OutboxClaim t)
    (RenotifyAfter t) (WorkerPollWait t) (WorkerShutdown t) (APIRequest t) (RetryBase t) (RetryMax t)
    (RetryMultiplier t) (RetryJitter t).

Definition commonTimings : Timings :=
  mkTimings 0 0 0 0 0
    (250 * Millisecond) (200 * Millisecond) Second (5 * Second) Second (2 * Second) (5 * Second)
    (500 * Millisecond) (5 * Second) f64_2 f64_fifth.
Definition SuccessTimings : Timings :=
  commonTimings <| Lease := (30 * Second)%Z |> <| Heartbeat := (5 * Second)%Z |> <| Stale := (15 * Second)%Z |>
                <| Renew := (10 * Second)%Z |> <| WorkerRequest := (5 * Second)%Z |>.
Definition FailureTimings : Timings :=
  commonTimings <| Lease := (5 * Second)%Z |> <| Heartbeat := Second |> <| Stale := (3 * Second)%Z |>
                <| Renew := (1500 * Millisecond)%Z |> <| WorkerRequest := Second |>.
Definition ShippedTimings : Timings :=
  mkTimings (30 * Second) (5 * Second) (15 * Second) (10 * Second) (10 * Second)
    (2 * Second) Second (30 * Second) (60 * Second) (10 * Second) (15 * Second) (25 * Second)
    Second (5 * Minute) f64_2 f64_fifth.
Definition TunedTimings : Timings :=
  ShippedTimings <| Lease := (10 * Second)%Z |> <| Heartbeat := (2 * Second)%Z |> <| Stale := (6 * Second)%Z |>
                 <| Renew := (3 * Second)%Z |> <| WorkerRequest := (2 * Second)%Z |>
                 <| PollInterval := (250 * Millisecond)%Z |> <| OutboxPoll := (200 * Millisecond)%Z |>
                 <| OutboxClaim := Second |> <| RenotifyAfter := (5 * Second)%Z |>.

(** ** infra.go *)

Definition dialed : list (string * list string) :=
  [ ("taskforge-api", ["TASKFORGE_DATABASE_URL"; "TASKFORGE_RESULTS_ENDPOINT"]);
    ("taskforge-outbox", ["TASKFORGE_DATABASE_URL"; "TASKFORGE_BROKER_ENDPOINT"]);
    ("taskforge-reconciler", ["TASKFORGE_DATABASE_URL"]);
    ("taskforge-scheduler", ["TASKFORGE_DATABASE_URL"]);
    ("taskforge-worker", ["TASKFORGE_BROKER_ENDPOINT"; "TASKFORGE_RESULTS_ENDPOINT"; "TASKFORGE_WORKER_API_URL"]) ].

Record Infra := mkInfra {
  in_DatabaseURL : string;
  in_BrokerEndpoint : string; in_BrokerRegion : string; in_BrokerAccessKeyID : string; in_BrokerSecretAccessKey : string;
  in_ResultsEndpoint : string; in_ResultsBucket : string; in_ResultsRegion : string;
  in_ResultsAccessKeyID : string; in_ResultsSecretAccessKey : string }.

Definition LoadInfra (dotenv : list string) (e : Environ) : result refusal Infra :=
  match loaded dotenv e with
  | Err r => Err r
  | Ok cfg =>
    Ok (mkInfra (DatabaseURL cfg) (BrokerEndpoint cfg) (BrokerRegion cfg) (BrokerAccessKeyID cfg) (BrokerSecretAccessKey cfg)
          (ResultsEndpoint cfg) (ResultsBucket cfg) (ResultsRegion cfg) (ResultsAccessKeyID cfg) (ResultsSecretAccessKey cfg))
  end.

(** ** stack.go *)

(** What of a [Stack] its environments are made of. *)
Record Stack := mkStack {
  st_Infra : Infra; st_Timing : Timings; st_Prefix : string; st_RunID : string; st_QueueName : string;
  st_APIAddr : string; st_OutboxAddr : string; st_SchedulerAddr : string; st_ReconcilerAddr : string;
  st_APIURL : string; st_WorkerKey : string }.

(** [New], and the worker key of [createKeys]. *)
Definition new_stack (infra : Infra) (timing : Timings) (prefix runID api outbox scheduler reconciler key : string) : Stack :=
  mkStack infra timing prefix runID ("taskforge-" ++ prefix ++ "-" ++ runID) api outbox scheduler reconciler
    ("http://" ++ api) key.
Definition WorkerName (s : Stack) (label : string) : string := st_Prefix s ++ "-" ++ st_RunID s ++ "-" ++ label.

Inductive env_error := NotDialed (binary : string) | TakesDefault (key : string).

Definition serviceEnv (t : Timings) : Environ :=
  list_to_map [
    ("TASKFORGE_API_REQUEST_TIMEOUT", duration_String (APIRequest t));
    ("TASKFORGE_LEASE_DURATION", duration_String (Lease t));
    ("TASKFORGE_HEARTBEAT_INTERVAL", duration_String (Heartbeat t));
    ("TASKFORGE_SESSION_STALE_AFTER", duration_String (Stale t));
    ("TASKFORGE_LEASE_RENEW_INTERVAL", duration_String (Renew t));
    ("TASKFORGE_OUTBOX_POLL_INTERVAL", duration_String (OutboxPoll t));
    ("TASKFORGE_OUTBOX_CLAIM_TIMEOUT", duration_String (OutboxClaim t));
    ("TASKFORGE_RECONCILER_POLL_INTERVAL", duration_String (PollInterval t));
    ("TASKFORGE_SCHEDULER_POLL_INTERVAL", duration_String (PollInterval t));
    ("TASKFORGE_SCHEDULER_RENOTIFY_AFTER", duration_String (RenotifyAfter t));
    ("TASKFORGE_JOB_RETRY_BASE", duration_String (RetryBase t));
    ("TASKFORGE_JOB_RETRY_MAX", duration_String (RetryMax t));
    ("TASKFORGE_JOB_RETRY_MULTIPLIER", FormatFloat (RetryMultiplier t));
    ("TASKFORGE_JOB_RETRY_JITTER", FormatFloat (RetryJitter t)) ].
Definition workerEnv (t : Timings) : Environ :=
  list_to_map [
    ("TASKFORGE_WORKER_POLL_WAIT", duration_String (WorkerPollWait t));
    ("TASKFORGE_WORKER_REQUEST_TIMEOUT", duration_String (WorkerRequest t));
    ("TASKFORGE_WORKER_SHUTDOWN_TIMEOUT", duration_String (WorkerShutdown t)) ].
Definition timings_Env (t : Timings) : Environ := workerEnv t ∪ serviceEnv t.

Definition BaseEnv (s : Stack) : Environ :=
  let i := st_Infra s in
  serviceEnv (st_Timing s) ∪
  list_to_map [
    ("TASKFORGE_DATABASE_URL", in_DatabaseURL i);
    ("TASKFORGE_BROKER_ENDPOINT", in_BrokerEndpoint i);
    ("TASKFORGE_BROKER_QUEUE_NAME", st_QueueName s);
    ("TASKFORGE_BROKER_REGION", in_BrokerRegion i);
    ("TASKFORGE_BROKER_ACCESS_KEY_ID", in_BrokerAccessKeyID i);
    ("TASKFORGE_BROKER_SECRET_ACCESS_KEY", in_BrokerSecretAccessKey i);
    ("TASKFORGE_RESULTS_ENDPOINT", in_ResultsEndpoint i);
    ("TASKFORGE_RESULTS_BUCKET", in_ResultsBucket i);
    ("TASKFORGE_RESULTS_REGION", in_ResultsRegion i);
    ("TASKFORGE_RESULTS_ACCESS_KEY_ID", in_ResultsAccessKeyID i);
    ("TASKFORGE_RESULTS_SECRET_ACCESS_KEY", in_ResultsSecretAccessKey i);
    ("TASKFORGE_API_ADDR", st_APIAddr s);
    ("TASKFORGE_OUTBOX_ADDR", st_OutboxAddr s);
    ("TASKFORGE_SCHEDULER_ADDR", st_SchedulerAddr s);
    ("TASKFORGE_RECONCILER_ADDR", st_ReconcilerAddr s);
    ("TASKFORGE_LOG_LEVEL", "info") ].

(** [Stack.Env]: refused when an endpoint the binary dials is blank. *)
Definition stack_Env (s : Stack) (binary : string) (extra : Environ) : result env_error Environ :=
  let env := extra ∪ BaseEnv s in
  match List.find (λ x, bool_decide (x.1 = binary)) dialed with
  | None => Err (NotDialed binary)
  | Some (_, endpoints) =>
    match List.find (λ key, bool_decide (TrimSpace (default "" (env !! key)) = "")) endpoints with
    | Some key => Err (TakesDefault key)
    | None => Ok env
    end
  end.

Definition WorkerEnv (s : Stack) (name addr : string) (concurrency : Z) : Environ :=
  workerEnv (st_Timing s) ∪
  list_to_map [
    ("TASKFORGE_WORKER_NAME", name);
    ("TASKFORGE_WORKER_ADDR", addr);
    ("TASKFORGE_WORKER_API_URL", st_APIURL s);
    ("TASKFORGE_WORKER_API_KEY", st_WorkerKey s);
    ("TASKFORGE_WORKER_QUEUE", "default");
    ("TASKFORGE_WORKER_GROUP", "default");
    ("TASKFORGE_WORKER_CONCURRENCY", Itoa concurrency);
    ("TASKFORGE_WORKER_CAPABILITIES", "cpu") ].

Definition sortedEnv (env : Environ) : list string :=
  sort_Strings (map (λ x, x.1 ++ "=" ++ x.2) (map_to_list env)).

(** ** Every process a run starts *)

Lemma env_Some e k d v : e !! k = Some v → blank v = false → env e k d = v.
Proof. intros Hk Hv. unfold env. rewrite Hk. unfold blank in Hv. by rewrite Hv. Qed.
Lemma env_not_blank e k d : blank d = false → blank (env e k d) = false.
Proof. intros Hd. unfold env. destruct (e !! k) as [v|]; [|done]. by destruct (bool_decide (TrimSpace v = "")) eqn:?. Qed.
Lemma blank_name s : routing_name s = true → blank s = false.
Proof.
  intros Hs. unfold blank. apply bool_decide_eq_false_2. rewrite (TrimSpace_name _ _ Hs). by intros ->.
Qed.

(** Infrastructure whose every setting is there. *)
Definition complete (i : Infra) : bool :=
  forallb (λ v, negb (blank v))
    [ in_DatabaseURL i; in_BrokerEndpoint i; in_BrokerRegion i; in_BrokerAccessKeyID i; in_BrokerSecretAccessKey i;
      in_ResultsEndpoint i; in_ResultsBucket i; in_ResultsRegion i; in_ResultsAccessKeyID i; in_ResultsSecretAccessKey i ].

(** Without AWS's own chain every setting is there; with it the endpoints are not. *)
Lemma LoadInfra_complete dotenv e infra : LoadInfra dotenv e = Ok infra →
  complete infra = true ∨ in_BrokerEndpoint infra = "" ∧ in_ResultsEndpoint infra = "" ∧ blank (in_DatabaseURL infra) = false.
Proof.
  unfold LoadInfra, loaded. destruct (environment dotenv e) as [e'|]; [|done]. unfold refused.
  destruct (Load e') as [c|] eqn:Hl; [|done]. intros [= <-]. destruct (Load_valid _ _ Hl) as [Hc Hv].
  assert (blank (DatabaseURL c) = false) as Hdb by (unfold Config_Validate in Hv; no_problem; done).
  assert (awsChainInvalid c = false) as Hok by (unfold Config_Validate, awsProblems in Hv; no_problem; done).
  unfold loadAWSDefaultChain in Hc. case_bool_decide.
  - left. subst c. cbn. rewrite !env_not_blank by done. done.
  - destruct (ParseBool _) as [[]|].
    + right. subst c. done.
    + left. subst c. cbn. rewrite !env_not_blank by done. done.
    + subst c. done.
Qed.

(** The configuration of a process of the run, and of a worker. *)
Definition child_config (s : Stack) : Config :=
  let i := st_Infra s in
  let t := st_Timing s in
  mkConfig (in_DatabaseURL i) (st_APIAddr s) "" "" [] (256 * 1024) (APIRequest t) (Lease t) (Heartbeat t) (Stale t) (Renew t)
    (st_ReconcilerAddr s) (PollInterval t) 50 (st_SchedulerAddr s) (PollInterval t) 50 (RenotifyAfter t)
    (RetryBase t) (RetryMax t) (RetryMultiplier t) (RetryJitter t)
    (in_BrokerEndpoint i) (st_QueueName s) (in_BrokerRegion i) (in_BrokerAccessKeyID i) (in_BrokerSecretAccessKey i)
    (64 * 1024) (in_ResultsEndpoint i) (in_ResultsBucket i) (in_ResultsRegion i) (in_ResultsAccessKeyID i)
    (in_ResultsSecretAccessKey i) false false [] []
    (st_OutboxAddr s) 50 (OutboxPoll t) (OutboxClaim t) Second (5 * Minute) f64_2 f64_fifth "info" ExporterNone "".

Definition child_worker (s : Stack) (hostname : option string) (name addr : string) (concurrency : Z) : WorkerConfig :=
  let t := st_Timing s in
  mkWorkerConfig (st_APIURL s) (st_WorkerKey s) false "" addr name
    (match hostname with Some h => if blank h then "localhost" else h | None => "localhost" end)
    "default" "default" concurrency ["cpu"] (WorkerPollWait t) (WorkerRequest t) (WorkerShutdown t).

Definition profiles : list Timings := [SuccessTimings; FailureTimings; ShippedTimings; TunedTimings].

(** A value that is read back as it was written. *)
Definition exact_duration (d : duration) : bool :=
  negb (blank (duration_String d)) && bool_decide (ParseDuration (duration_String d) = Some d).
Definition exact_float (x : f64) : Prop :=
  blank (FormatFloat x) = false ∧ TrimSpace (FormatFloat x) = FormatFloat x ∧ ParseFloat (FormatFloat x) = Some x.

Lemma profile_exact t : t ∈ profiles →
  forallb exact_duration
    [ Lease t; Heartbeat t; Stale t; Renew t; WorkerRequest t; PollInterval t; OutboxPoll t; OutboxClaim t;
      RenotifyAfter t; WorkerPollWait t; WorkerShutdown t; APIRequest t; RetryBase t; RetryMax t ] = true ∧
  exact_float (RetryMultiplier t) ∧ exact_float (RetryJitter t).
Proof.
  intros Ht%list_elem_of_In. cbn in Ht.
  destruct Ht as [<-|[<-|[<-|[<-|[]]]]]; (split; [vm_compute; reflexivity|]); repeat split; vm_compute; reflexivity.
Qed.

(** An address of [FreeLoopbackAddr]. *)
Definition loopback_addr (a : string) : bool := negb (blank a) && isLoopbackBind a.

(** A stack as [New] makes it: a profile, its own names, loopback addresses. *)
Record sound_stack (s : Stack) : Prop := {
  ss_infra : complete (st_Infra s) = true;
  ss_timing : st_Timing s ∈ profiles;
  ss_queue : routing_name (st_QueueName s) = true;
  ss_addrs : Forall (λ a, loopback_addr a = true) [st_APIAddr s; st_OutboxAddr s; st_SchedulerAddr s; st_ReconcilerAddr s] }.

(** The settings of a worker do not reach the shared configuration. *)
Definition worker_only (extra : Environ) : Prop := ∀ k, is_Some (extra !! k) → HasPrefix k "TASKFORGE_WORKER_" = true.

Lemma worker_only_lookup extra b k : worker_only extra → HasPrefix k "TASKFORGE_WORKER_" = false →
  (extra ∪ b) !! k = b !! k.
Proof.
  intros Hw Hk. apply lookup_union_r. destruct (extra !! k) eqn:He; [|done].
  rewrite (Hw k) in Hk; [done|]. by eexists.
Qed.
Lemma worker_only_env extra b k d : worker_only extra → HasPrefix k "TASKFORGE_WORKER_" = false →
  env (extra ∪ b) k d = env b k d.
Proof. intros Hw Hk. unfold env. by rewrite worker_only_lookup. Qed.
Lemma worker_only_config extra b : worker_only extra →
  loadAWSDefaultChain (extra ∪ b) (defaults (extra ∪ b)) = loadAWSDefaultChain b (defaults b).
Proof.
  intros Hw. assert (defaults (extra ∪ b) = defaults b) as ->.
  { unfold defaults, envInt, envFloat, envDuration, envList. by rewrite !worker_only_env by (done || vm_compute; reflexivity). }
  unfold loadAWSDefaultChain, awsStaticVariables, awsRegionVariables. cbn [List.filter].
  by rewrite !worker_only_lookup by (done || vm_compute; reflexivity).
Qed.
Lemma WorkerEnv_only s name addr n : worker_only (WorkerEnv s name addr n).
Proof.
  intros k [v Hv]. unfold WorkerEnv, workerEnv in Hv. apply lookup_union_Some_raw in Hv as [Hv|[_ Hv]].
  all: apply elem_of_list_to_map_2 in Hv.
  all: repeat (apply elem_of_cons in Hv as [Hv|Hv]; [injection Hv as -> _; reflexivity|]); by apply elem_of_nil in Hv.
Qed.

(** ** The shared configuration *)

(** A variable of an environment by its list. *)
Fixpoint assoc (l : list (string * string)) (k : string) : option string :=
  match l with [] => None | (k', v) :: l' => if String.eqb k' k then Some v else assoc l' k end.
Lemma list_to_map_assoc l k : (list_to_map l : Environ) !! k = assoc l k.
Proof.
  unfold Environ. induction l as [|[k' v] l IH]; [done|]. rewrite list_to_map_cons. cbn [assoc fst snd]. destruct (String.eqb_spec k' k) as [->|Hne].
  - by rewrite lookup_insert_eq.
  - by rewrite lookup_insert_ne.
Qed.
Lemma union_assoc l l' k : (list_to_map l ∪ list_to_map l' : Environ) !! k = assoc (l ++ l')%list k.
Proof.
  rewrite <-!list_to_map_assoc. unfold Environ. by rewrite list_to_map_app.
Qed.
Section settings.
Context (l l' : list (string * string)) (k : string).
Abbreviation e := (list_to_map l ∪ list_to_map l' : Environ).

Lemma read_string def v : assoc (l ++ l')%list k = Some v → blank v = false → env e k def = v.
Proof. rewrite <-union_assoc. apply env_Some. Qed.
Lemma read_duration def d : assoc (l ++ l')%list k = Some (duration_String d) → exact_duration d = true → envDuration e k def = d.
Proof.
  intros Hk [Hb%negb_true_iff Hp%bool_decide_eq_true]%andb_true_iff. unfold envDuration. by rewrite (read_string _ _ Hk Hb), Hp.
Qed.
Lemma read_float def x : assoc (l ++ l')%list k = Some (FormatFloat x) → exact_float x → envFloat e k def = x.
Proof.
  intros Hk (Hb & Ht & Hp). unfold envFloat. rewrite (read_string _ _ Hk Hb), Ht, Hp. unfold blank in Hb. rewrite Ht in Hb. by rewrite Hb.
Qed.
Lemma read_unset def : assoc (l ++ l')%list k = None → env e k def = def.
Proof. unfold env. by rewrite union_assoc => ->. Qed.
End settings.

Ltac find_setting := cbv [assoc app String.eqb Ascii.eqb Bool.eqb]; reflexivity.
Ltac read_setting :=
  first [ apply read_string; [find_setting|assumption]
        | apply read_duration; [find_setting|assumption]
        | apply read_float; [find_setting|assumption]
        | unfold envInt, envFloat, envDuration, envList; rewrite read_unset by find_setting; reflexivity ].

Lemma child_settings s : sound_stack s → loadAWSDefaultChain (BaseEnv s) (defaults (BaseEnv s)) = child_config s.
Proof.
  intros [Hi [Ht Hf]%profile_exact Hq%blank_name Ha].
  destruct s as [[db be br bk bs re rb rr rk rs] t pre run q api ob sc rc url key]. destruct Hf as [? ?].
  cbn in Hi, Ht, Hq, Ha, H, H0. rewrite !andb_true_iff, !negb_true_iff in Hi. decompose [and] Hi; clear Hi.
  rewrite !andb_true_iff in Ht. decompose [and] Ht; clear Ht.
  unfold loopback_addr in Ha. rewrite !Forall_cons, !andb_true_iff, !negb_true_iff in Ha. decompose [and] Ha; clear Ha.
  unfold loadAWSDefaultChain, BaseEnv, serviceEnv.
  rewrite bool_decide_eq_true_2 by (rewrite union_assoc; vm_compute; reflexivity).
  unfold defaults, child_config.
  cbn [st_Infra st_Timing st_APIAddr st_OutboxAddr st_SchedulerAddr st_ReconcilerAddr st_QueueName
       in_DatabaseURL in_BrokerEndpoint in_BrokerRegion in_BrokerAccessKeyID in_BrokerSecretAccessKey
       in_ResultsEndpoint in_ResultsBucket in_ResultsRegion in_ResultsAccessKeyID in_ResultsSecretAccessKey].
  f_equal; read_setting.
Qed.

Lemma profile_valid s : st_Timing s ∈ profiles → timingProblems (child_config s) = [] ∧ policyProblems (child_config s) = [].
Proof.
  destruct s as [[db be br bk bs re rb rr rk rs] t pre run q api ob sc rc url key].
  intros Ht%list_elem_of_In. cbn in Ht. destruct Ht as [<-|[<-|[<-|[<-|[]]]]]; split; vm_compute; reflexivity.
Qed.
Lemma alone_listens c : APIPublicAddr c = "" → APIControlAddr c = "" → APIControlHosts c = [] → listenerProblems c = [].
Proof.
  intros Hp Hc Hh. unfold listenerProblems. rewrite Hp, Hc, Hh. change (TrimSpace "") with "".
  cbn [overlapping concat map app snd]. unfold addressesOverlap. rewrite !(bool_decide_eq_true_2 ("" = "")), !orb_true_r by done. done.
Qed.

Lemma child_valid s : sound_stack s → Config_Validate (child_config s) = [].
Proof.
  intros [Hi [Ht Hp]%profile_valid Hq%blank_name Ha]. unfold Config_Validate. rewrite Ht, Hp, alone_listens by done. clear Ht Hp.
  destruct s as [[db be br bk bs re rb rr rk rs] t pre run q api ob sc rc url key].
  cbn in Hi, Hq, Ha. rewrite !andb_true_iff, !negb_true_iff in Hi. decompose [and] Hi; clear Hi.
  unfold loopback_addr in Ha. rewrite !Forall_cons, !andb_true_iff, !negb_true_iff in Ha. decompose [and] Ha; clear Ha.
  unfold req, loopback_only. cbn.
  repeat match goal with H : blank _ = false |- _ => rewrite H; clear H end.
  repeat match goal with H : isLoopbackBind _ = true |- _ => rewrite H; clear H end. done.
Qed.

(** ** A worker's configuration *)

Lemma Atoi_Itoa_small n : (1 <= n <= 256)%Z → Atoi (Itoa n) = Some n ∧ blank (Itoa n) = false.
Proof.
  intros Hn.
  assert (forallb (λ i, bool_decide (Atoi (Itoa (Z.of_nat i)) = Some (Z.of_nat i)) && negb (blank (Itoa (Z.of_nat i)))) (seq 1 256) = true)
    as Hall by (vm_compute; reflexivity).
  rewrite forallb_forall in Hall. specialize (Hall (Z.to_nat n)). rewrite in_seq, Z2Nat.id in Hall by lia.
  apply andb_true_iff in Hall as [?%bool_decide_eq_true ?%negb_true_iff]; [done|lia].
Qed.

(** A worker as [StartWorkerNamed] starts it. *)
Record sound_worker_of (s : Stack) (url_Parse : string → option URL) (hostname : option string)
    (name addr : string) (concurrency : Z) : Prop := {
  sv_name : routing_name name = true;
  sv_addr : loopback_addr addr = true;
  sv_key : blank (st_WorkerKey s) = false;
  sv_url : blank (st_APIURL s) = false ∧
    ∃ u, url_Parse (st_APIURL s) = Some u ∧ url_Scheme u = "http" ∧ url_Host u ≠ "" ∧ IsLoopbackHost (url_Hostname u) = true;
  sv_hostname : ∀ h, hostname = Some h → String.length h <= 255;
  sv_concurrency : (1 <= concurrency <= 256)%Z }.

Section worker.
Context (s : Stack) (url_Parse : string → option URL) (hostname : option string) (name addr : string) (concurrency : Z).
Context (Hs : sound_stack s) (Hw : sound_worker_of s url_Parse hostname name addr concurrency).

Abbreviation handed := (WorkerEnv s name addr concurrency ∪ BaseEnv s).

Lemma BaseEnv_shared k : HasPrefix k "TASKFORGE_WORKER_" = true → BaseEnv s !! k = None.
Proof.
  intros Hk. destruct (BaseEnv s !! k) as [v|] eqn:Hv; [|done]. exfalso. unfold BaseEnv, serviceEnv in Hv.
  apply lookup_union_Some_raw in Hv as [Hv|[_ Hv]].
  all: apply elem_of_list_to_map_2 in Hv.
  all: repeat (apply elem_of_cons in Hv as [Hv|Hv]; [injection Hv as -> _; discriminate Hk|]); by apply elem_of_nil in Hv.
Qed.
Lemma handed_env k d : HasPrefix k "TASKFORGE_WORKER_" = true → env handed k d = env (WorkerEnv s name addr concurrency) k d.
Proof.
  intros Hk. assert (handed !! k = WorkerEnv s name addr concurrency !! k) as Heq by (by apply lookup_union_l, BaseEnv_shared).
  unfold env. by rewrite Heq.
Qed.

Lemma worker_child_settings : worker_settings hostname handed = child_worker s hostname name addr concurrency.
Proof.
  destruct Hs as [_ [Ht _]%profile_exact _ _], Hw as [Hn%blank_name Ha Hk [Hu _] _ Hc].
  destruct (Atoi_Itoa_small concurrency Hc) as [Hi Hib]. cbn in Ht. rewrite !andb_true_iff in Ht. decompose [and] Ht; clear Ht.
  apply andb_true_iff in Ha as [Ha%negb_true_iff _].
  unfold worker_settings, envInt, envSet, envDuration. repeat match goal with |- context [env handed ?k ?d] => rewrite (handed_env k d) by (vm_compute; reflexivity) end.
  unfold child_worker, WorkerEnv, workerEnv.
  rewrite (read_unset _ _ "TASKFORGE_WORKER_ALLOW_REMOTE_API"), (read_unset _ _ "TASKFORGE_WORKER_HOSTNAME") by find_setting.
  rewrite (read_string _ _ "TASKFORGE_WORKER_CONCURRENCY" _ (Itoa concurrency)) by (find_setting || done). rewrite Hi.
  f_equal; try reflexivity; try read_setting.
Qed.

Lemma worker_child_valid : WorkerConfig_Validate url_Parse (child_worker s hostname name addr concurrency) = [].
Proof.
  destruct Hs as [_ Ht _ _], Hw as [Hn Ha Hk [_ (u & Hu & Hscheme & Hhost & Hloop)] Hh Hc].
  apply andb_true_iff in Ha as [Ha%negb_true_iff Hb].
  assert (∀ t, t ∈ profiles → ranged "TASKFORGE_WORKER_POLL_WAIT" Second (WorkerPollWait t) (20 * Second) = [] ∧
    positive_setting "TASKFORGE_WORKER_REQUEST_TIMEOUT" (WorkerRequest t) = [] ∧
    positive_setting "TASKFORGE_WORKER_SHUTDOWN_TIMEOUT" (WorkerShutdown t) = []) as Hp.
  { intros t Hin%list_elem_of_In. cbn in Hin. destruct Hin as [<-|[<-|[<-|[<-|[]]]]]; repeat split; vm_compute; reflexivity. }
  destruct (Hp _ Ht) as (Hp1 & Hp2 & Hp3). clear Hp Ht.
  assert (ranged "TASKFORGE_WORKER_CONCURRENCY" 1 concurrency 256 = []) as Hr
    by (unfold ranged, between_incl; by rewrite !(proj2 (Z.leb_le _ _)) by lia).
  unfold WorkerConfig_Validate, child_worker. cbn -[routing_name short_routing_name ranged positive_setting blank String.length Nat.ltb].
  rewrite Hu, Hscheme, Hloop, Hn, Ha, Hb, Hp1, Hp2, Hp3, Hr. unfold req. rewrite Hk.
  rewrite (bool_decide_eq_false_2 (url_Host u = "")) by done.
  assert (blank (match hostname with Some h => if blank h then "localhost" else h | None => "localhost" end) = false ∧
    (255 <? String.length (match hostname with Some h => if blank h then "localhost" else h | None => "localhost" end))%nat = false) as [-> ->].
  { destruct hostname as [h|]; [|done]. destruct (blank h) eqn:Hbl; [done|]. split; [done|]. apply Nat.ltb_ge. by apply Hh. }
  vm_compute. reflexivity.
Qed.
End worker.

Lemma profile_worker s hostname name addr n : st_Timing s ∈ profiles →
  ValidateWorkerTimings (child_config s) (child_worker s hostname name addr n) = [].
Proof.
  destruct s as [i t pre run q api ob sc rc url key].
  intros Ht%list_elem_of_In. cbn in Ht. destruct Ht as [<-|[<-|[<-|[<-|[]]]]]; vm_compute; reflexivity.
Qed.

Definition services : list string := ["taskforge-api"; "taskforge-outbox"; "taskforge-scheduler"; "taskforge-reconciler"].

(** The endpoints a binary dials are in its environment. *)
Lemma stack_Env_ok s binary extra endpoints :
  List.find (λ x, bool_decide (x.1 = binary)) dialed = Some (binary, endpoints) →
  (∀ k, k ∈ endpoints → ∃ v, (extra ∪ BaseEnv s) !! k = Some v ∧ blank v = false) →
  stack_Env s binary extra = Ok (extra ∪ BaseEnv s).
Proof.
  intros Hd Hall. unfold stack_Env. rewrite Hd. destruct (List.find _ endpoints) as [k|] eqn:Hf; [|done]. exfalso.
  apply find_some in Hf as [Hin%list_elem_of_In Hb]. destruct (Hall k Hin) as (v & Hv & Hbl). rewrite Hv in Hb.
  change (blank v = true) in Hb. congruence.
Qed.

Lemma base_endpoints s k : complete (st_Infra s) = true →
  k ∈ ["TASKFORGE_DATABASE_URL"; "TASKFORGE_BROKER_ENDPOINT"; "TASKFORGE_RESULTS_ENDPOINT"] →
  ∃ v, BaseEnv s !! k = Some v ∧ blank v = false.
Proof.
  intros Hi Hk. unfold complete in Hi. cbn [forallb] in Hi. rewrite !andb_true_iff, !negb_true_iff in Hi. decompose [and] Hi; clear Hi.
  unfold BaseEnv, serviceEnv. rewrite union_assoc. set_unfold.
  destruct Hk as [->|[->|[->|[]]]]; eexists; (split; [find_setting|assumption]).
Qed.

Lemma service_lookup s k : ((∅ : Environ) ∪ BaseEnv s) !! k = BaseEnv s !! k.
Proof. apply lookup_union_r, lookup_empty. Qed.

(** What every process of a sound stack reads. *)
Lemma child_loads s extra : sound_stack s → worker_only extra → Load (extra ∪ BaseEnv s) = Ok (child_config s).
Proof.
  intros Hs Hx. unfold Load. rewrite (worker_only_config _ _ Hx), (child_settings s Hs), (child_valid s Hs). done.
Qed.
Lemma service_starts s binary : sound_stack s → binary ∈ services →
  ∃ env, stack_Env s binary ∅ = Ok env ∧ loaded [] env = Ok (child_config s).
Proof.
  intros Hs Hb. exists (∅ ∪ BaseEnv s). split.
  - assert (∀ k, k ∈ ["TASKFORGE_DATABASE_URL"; "TASKFORGE_BROKER_ENDPOINT"; "TASKFORGE_RESULTS_ENDPOINT"] →
      ∃ v, (∅ ∪ BaseEnv s) !! k = Some v ∧ blank v = false) as Hall.
    { intros k Hk. destruct (base_endpoints s k (ss_infra s Hs) Hk) as (v & Hv & ?). exists v. split; [rewrite service_lookup; exact Hv|assumption]. }
    unfold services in Hb. rewrite !elem_of_cons, elem_of_nil in Hb. destruct Hb as [->|[->|[->|[->|[]]]]];
      (eapply stack_Env_ok; [reflexivity|intros k Hk; apply Hall; rewrite !elem_of_cons in *; tauto]).
  - unfold loaded. cbn [environment LoadDotEnv]. unfold refused.
    rewrite child_loads; [done|done|]. intros k [v Hv]. by apply lookup_empty_Some in Hv.
Qed.
Lemma worker_starts s url_Parse hostname name addr n session : sound_stack s → sound_worker_of s url_Parse hostname name addr n →
  ∃ env registry, stack_Env s "taskforge-worker" (WorkerEnv s name addr n) = Ok env ∧
    worker_run url_Parse hostname session [] env =
      Ok (NewRunner (runner_config (child_config s) (child_worker s hostname name addr n) session), registry).
Proof.
  intros Hs Hw. exists (WorkerEnv s name addr n ∪ BaseEnv s).
  assert (match registerTrustedHandlers ∅ with Ok _ => true | Err _ => false end = true) as Hok by (vm_compute; reflexivity).
  destruct (registerTrustedHandlers ∅) as [registry|] eqn:Hreg; [|done]. clear Hok. exists registry. split.
  - eapply stack_Env_ok; [reflexivity|]. intros k Hk.
    assert (k = "TASKFORGE_WORKER_API_URL" ∨ k ∈ ["TASKFORGE_BROKER_ENDPOINT"; "TASKFORGE_RESULTS_ENDPOINT"]) as [->|Hk'] by set_solver.
    + exists (st_APIURL s). split; [|apply (sv_url _ _ _ _ _ _ Hw)]. apply lookup_union_Some_l.
      unfold WorkerEnv, workerEnv. rewrite union_assoc. find_setting.
    + destruct (base_endpoints s k (ss_infra s Hs)) as (v & Hv & ?); [set_solver|]. exists v. split; [|done].
      rewrite worker_only_lookup; [done|apply WorkerEnv_only|].
      rewrite !elem_of_cons, elem_of_nil in Hk'. destruct Hk' as [->|[->|[]]]; reflexivity.
  - unfold worker_run. cbn [environment LoadDotEnv].
    rewrite child_loads by (done || apply WorkerEnv_only). unfold LoadWorker.
    rewrite (worker_child_settings s url_Parse hostname name addr n Hs Hw), (worker_child_valid s url_Parse hostname name addr n Hs Hw).
    rewrite profile_worker by apply (ss_timing s Hs). by rewrite Hreg.
Qed.


(** A benchmark run with the tuned profile, on a laptop whose .env moves the database. *)
Definition sample_dotenv : list string := ["TASKFORGE_DATABASE_URL=postgres://db.internal/taskforge"].
Definition sample_infra : Infra :=
  match LoadInfra sample_dotenv ∅ with Ok i => i | Err _ => mkInfra "" "" "" "" "" "" "" "" "" "" end.
Definition sample_stack : Stack :=
  new_stack sample_infra TunedTimings "bench" "1760000000000000000" "127.0.0.1:1001" "127.0.0.1:1002" "127.0.0.1:1003"
    "127.0.0.1:1004" "tfw_key".
Definition sample_parse (s : string) : option URL :=
  if bool_decide (s = "http://127.0.0.1:1001") then Some (mkURL "http" "127.0.0.1:1001" "127.0.0.1") else None.


(** The shipped profile is the defaults: it changes nothing an empty environment would give. *)
Lemma shipped_is_default :
  let handed := workerEnv ShippedTimings ∪ serviceEnv ShippedTimings in
  (defaults handed, worker_settings None handed) = (defaults ∅, worker_settings None ∅).
Proof. vm_compute. reflexivity. Qed.
End Stack.


Module Bench.
Import Readdb.

(** ** percentile.go *)

Record Summary := mkSummary {
  su_N : nat; su_P50 : duration; su_P95 : duration; su_P99 : duration; su_Max : duration }.
Definition Valid (s : Summary) : bool := (0 <? su_N s)%nat.

(** The 1-based rank ceil(percent/100 * n), in integers. *)
Definition rank (percent n : nat) : nat := Nat.max 1 (Nat.min ((percent * n + 99) / 100) n).
Definition NearestRank (sorted : list duration) (percent : nat) : duration :=
  match sorted with
  | [] => 0%Z
  | _ => nth (rank percent (length sorted) - 1) sorted 0%Z
  end.

Definition Summarize (values : list duration) : Summary :=
  match values with
  | [] => mkSummary 0 0 0 0 0
  | _ =>
    let sorted := merge_sort Z.le values in
    mkSummary (length sorted) (NearestRank sorted 50) (NearestRank sorted 95) (NearestRank sorted 99)
      (nth (length sorted - 1) sorted 0%Z)
  end.

(** ** window.go *)

Record Window := mkWindow { wi_Start : time; wi_End : time }.
Definition Contains (w : Window) (t : time) : bool := ((wi_Start w <=? t) && (t <? wi_End w))%Z.
Definition window_Duration (w : Window) : duration := (wi_End w - wi_Start w)%Z.
Definition CountIn (w : Window) (times : list time) : nat := length (List.filter (Contains w) times).

(** Duration.Minutes and Duration.Seconds. *)
Definition in_units (unit : Z) (d : duration) : f64 :=
  f64_add (f64_of_Z (Z.quot d unit)) (f64_div (f64_of_Z (Z.rem d unit)) (f64_of_Z unit)).
Definition Seconds (d : duration) : f64 := in_units Second d.
Definition PerMinute (n : nat) (over : duration) : f64 :=
  if (over <=? 0)%Z then f64_0 else f64_div (f64_of_Z (Z.of_nat n)) (in_units Minute over).

(** ** schedule.go *)

Section schedule.
(** The generator of math/rand/v2: [Int64N] and [Uint64] on its state. *)
Context {Rng : Type} (NewPCG : Z → Rng) (Int64N : Z → Rng → Z * Rng) (Uint64 : Rng → Z * Rng).

Record Kill := mkKill { ki_At : duration; ki_Pick : Z }.
Inductive schedule_error := NoKills | FirstTooLate | TooClose.

Fixpoint lay_out (first width steps : Z) (i count : nat) (rng : Rng) : list Kill :=
  match count with
  | 0 => []
  | S count' =>
    let '(jitter, rng) := Int64N steps rng in
    let '(pick, rng) := Uint64 rng in
    mkKill (first + Z.of_nat i * width + jitter * Millisecond)%Z pick :: lay_out first width steps (S i) count' rng
  end.

(** [Duration.Truncate] to milliseconds. *)
Definition truncate_ms (d : duration) : duration := (d - Z.rem d Millisecond)%Z.
Definition slot_width (kills : Z) (span first : duration) : duration := truncate_ms (Z.quot (span - first) kills).

Definition Schedule (seed kills : Z) (span first minGap : duration) : result schedule_error (list Kill) :=
  if (kills <? 1)%Z then Err NoKills
  else if (span <=? first)%Z then Err FirstTooLate
  else
    let width := slot_width kills span first in
    let steps := Z.quot (width - minGap) Millisecond in
    if (steps <? 1)%Z then Err TooClose
    else Ok (lay_out first width steps 0 (Z.to_nat kills) (NewPCG seed)).
End schedule.

Definition ChooseVictim (pick : Z) (candidates : list string) : option string :=
  let sorted := sort_Strings candidates in
  sorted !! Z.to_nat (pick mod Z.of_nat (length sorted)).

(** ** pace.go *)

Record Pacer := mkPacer { pa_start : time; pa_interval : duration }.

(** math.Round: half away from zero. *)
Definition math_Round (x : f64) : f64 :=
  match x with
  | S754_finite s m e =>
    if (0 <=? e)%Z then x
    else let n := Qfloor (Qplus (f64_pair false m e) (Qmake 1 2)) in
         if (n =? 0)%Z then S754_zero s else f64_of_Z (if s then (- n)%Z else n)
  | _ => x
  end.
Definition NewPacer (arch : f64 → Z) (start : time) (perMinute : f64) : option Pacer :=
  if f64_le perMinute f64_0 || math_IsNaN perMinute || math_IsInf perMinute then None
  else
    let interval := f64_to_int64 arch (math_Round (f64_div (f64_of_Z Minute) perMinute)) in
    if (interval <=? 0)%Z then None else Some (mkPacer start interval).

Definition At (p : Pacer) (i : nat) : time := (pa_start p + Z.of_nat i * pa_interval p)%Z.
Definition DueBy (p : Pacer) (t : time) : Z :=
  if (t <? pa_start p)%Z then 0 else (Z.quot (t - pa_start p) (pa_interval p) + 1)%Z.

Record PaceStats := mkPaceStats { ps_Fired : nat; ps_MaxLate : duration }.
(** [Run]: [awake i] is what the clock reads after the sleep until slot [i], [None] when the context
    ended in it.  The result has the slots fired, with the times. *)
Fixpoint pace (p : Pacer) (awake : nat → option time) (i count : nat) (stats : PaceStats)
    : list (nat * time) * PaceStats :=
  match count with
  | 0 => ([], stats)
  | S count' =>
    match awake i with
    | None => ([], stats)
    | Some now =>
      let late := (now - At p i)%Z in
      let stats := mkPaceStats (S (ps_Fired stats)) (Z.max (ps_MaxLate stats) late) in
      let '(fired, stats) := pace p awake (S i) count' stats in
      ((i, now) :: fired, stats)
    end
  end.
Definition pacer_Run (p : Pacer) (awake : nat → option time) (count : nat) : list (nat * time) * PaceStats :=
  pace p awake 0 count (mkPaceStats 0 0).

(** ** guard.go *)

(** [strings.Fields]: the words between white space. *)
Fixpoint fields (l : list (N * string)) (word : string) : list string :=
  match l with
  | [] => if bool_decide (word = "") then [] else [word]
  | (r, bytes) :: l' =>
    if IsSpace r then (if bool_decide (word = "") then fields l' "" else word :: fields l' "")
    else fields l' (word ++ bytes)
  end.
Definition Fields (s : string) : list string := fields (segments s) "".

Inductive guard_error :=
| Unreadable | DirtyTree
| NoRevision (binary : string) | OtherRevision (binary revision : string) | ModifiedTree (binary : string)
| StrayProcesses (lines : list (list string)).

(** [status] is what git prints, [None] when it cannot be asked. *)
Definition RequireCleanTree (status : option string) : option guard_error :=
  match status with
  | None => Some Unreadable
  | Some out => if bool_decide (TrimSpace out = "") then None else Some DirtyTree
  end.

(** A map literal filled in a loop: the last value of a key, or "". *)
Definition setting (settings : list (string * string)) (key : string) : string :=
  from_option snd "" (List.find (λ s, bool_decide (s.1 = key)) (rev settings)).

(** [read] gives the build settings of a binary by its name. *)
Fixpoint RequireBuiltFrom (binaries : list string) (want : string)
    (read : string → option (list (string * string))) : option guard_error :=
  match binaries with
  | [] => None
  | name :: binaries' =>
    match read name with
    | None => Some Unreadable
    | Some settings =>
      let revision := setting settings "vcs.revision" in
      if bool_decide (revision = "") then Some (NoRevision name)
      else if negb (bool_decide (revision = want)) then Some (OtherRevision name revision)
      else if bool_decide (setting settings "vcs.modified" = "true") then Some (ModifiedTree name)
      else RequireBuiltFrom binaries' want read
    end
  end.

Definition serviceBinaries : list string :=
  ["taskforge-api"; "taskforge-outbox"; "taskforge-scheduler"; "taskforge-reconciler"; "taskforge-worker"].
Definition stray (line : string) : bool :=
  match Fields line with
  | _ :: command :: _ => existsb (λ name, bool_decide (Scan.path_Base command = name)) serviceBinaries
  | _ => false
  end.
Definition RequireQuietHost (lines : option (list string)) : option guard_error :=
  match lines with
  | None => Some Unreadable
  | Some l => match List.filter stray l with [] => None | strays => Some (StrayProcesses (map Fields strays)) end
  end.

(** ** config.go *)

Definition modeThroughput : string := "throughput".
Definition modeFaults : string := "faults".
Definition modeSmoke : string := "smoke".
Definition modeProbe : string := "recovery-probe".
Definition profileShipped : string := "shipped".
Definition profileTuned : string := "tuned".

Record options := mkOptions {
  op_modes : list string; op_record : bool; op_profile : string; op_seed : Z; op_rate : f64;
  op_workers : Z; op_concurrency : Z; op_warmup : duration; op_window : duration; op_jobs : Z; op_kills : Z;
  op_deadline : duration; op_drain : duration; op_faultJobDuration : duration; op_targetableKills : bool }.
#[export] Instance eta_options : Eta options := λ o,
  mkOptions (op_modes o) (op_record o) (op_profile o) (op_seed o) (op_rate o) (op_workers o) (op_concurrency o)
    (op_warmup o) (op_window o) (op_jobs o) (op_kills o) (op_deadline o) (op_drain o) (op_faultJobDuration o)
    (op_targetableKills o).

Definition fixedWorkers : Z := 12.
Definition fixedConcurrency : Z := 4.
Definition fixedRatePerMin : f64 := f64_of_Z 1000.
Definition minWarmup : duration := (30 * Second)%Z.
Definition minWindow : duration := (5 * Minute)%Z.
Definition fixedFaultJobs : Z := 10000.
Definition minKills : Z := 20.
Definition jobDuration : duration := (50 * Millisecond)%Z.
Definition completionDeadline : duration := (5 * Minute)%Z.

Definition defaultOptions : options :=
  mkOptions [] false profileShipped 20261002 fixedRatePerMin fixedWorkers fixedConcurrency minWarmup minWindow
    fixedFaultJobs 24 completionDeadline (3 * Minute) jobDuration false.
Definition smokeOptions : options :=
  mkOptions [modeSmoke] false profileTuned 20261002 (f64_of_Z 1200) 4 4 (2 * Second) (4 * Second)
    60 1 (90 * Second) (60 * Second) (3 * Second) true.
Definition targetMargin (o : options) : duration := Z.quot (op_faultJobDuration o) 2.

Inductive record_problem :=
| ProbeNeverRecorded | NotAFullRun | WorkersDiffer | ConcurrencyDiffers | RateDiffers | WarmupShort | WindowShort
| JobsDiffer | KillsFew | DeadlineDiffers | WorkloadDiffers | KillsTargeted | ProfileUnknown.

Definition problem_if (b : bool) (p : record_problem) : list record_problem := if b then [p] else [].
Definition validateRecordable (o : options) : list record_problem :=
  (problem_if (existsb (λ m, bool_decide (m = modeProbe)) (op_modes o)) ProbeNeverRecorded ++
   problem_if (negb (bool_decide (sort_Strings (op_modes o) = [modeFaults; modeThroughput]))) NotAFullRun ++
   problem_if (negb (op_workers o =? fixedWorkers)%Z) WorkersDiffer ++
   problem_if (negb (op_concurrency o =? fixedConcurrency)%Z) ConcurrencyDiffers ++
   problem_if (negb (f64_eq (op_rate o) fixedRatePerMin)) RateDiffers ++
   problem_if (op_warmup o <? minWarmup)%Z WarmupShort ++
   problem_if (op_window o <? minWindow)%Z WindowShort ++
   problem_if (negb (op_jobs o =? fixedFaultJobs)%Z) JobsDiffer ++
   problem_if (op_kills o <? minKills)%Z KillsFew ++
   problem_if (negb (op_deadline o =? completionDeadline)%Z) DeadlineDiffers ++
   problem_if (negb (op_faultJobDuration o =? jobDuration)%Z) WorkloadDiffers ++
   problem_if (op_targetableKills o) KillsTargeted ++
   problem_if (negb (bool_decide (op_profile o = profileShipped)) && negb (bool_decide (op_profile o = profileTuned)))
     ProfileUnknown)%list.

(** ** submit.go *)

(** What one POST gives: an accepted job, an error worth another try, or another one. *)
Inductive once_result := Accepted | TryAgain | Refused.
(** The judgement of a status. *)
Definition once (response : option Z) : once_result :=
  match response with
  | None => TryAgain
  | Some code =>
    if ((code =? 201) || (code =? 200))%Z then Accepted
    else if ((500 <=? code) || (code =? 429))%Z then TryAgain
    else Refused
  end.

Record submitStats := mkSubmitStats { st_OK : nat; st_Retries : nat; st_Failed : nat }.
#[export] Instance eta_submitStats : Eta submitStats := λ s, mkSubmitStats (st_OK s) (st_Retries s) (st_Failed s).

(** [submit], after an attempt that was not the first: [waited n] says whether the wait before try [n] ended
    before the context did, [cancelled n] whether the context had ended after it. *)
Fixpoint submit_tries (answer : nat → option Z) (waited cancelled : nat → bool) (attempt left : nat) (s : submitStats)
    : bool * submitStats :=
  let again := (0 <? attempt)%nat in
  let s := if again then s <| st_Retries := S (st_Retries s) |> else s in
  if again && negb (waited attempt) then (false, s <| st_Failed := S (st_Failed s) |>)
  else
    match once (answer attempt), left with
    | Accepted, _ => (true, s <| st_OK := S (st_OK s) |>)
    | TryAgain, S left' =>
      if cancelled attempt then (false, s <| st_Failed := S (st_Failed s) |>)
      else submit_tries answer waited cancelled (S attempt) left' s
    | _, _ => (false, s <| st_Failed := S (st_Failed s) |>)
    end.
(** Two waits, so three tries at most. *)
Definition submit (answer : nat → option Z) (waited cancelled : nat → bool) (s : submitStats) : bool * submitStats :=
  submit_tries answer waited cancelled 0 2 s.

(** ** results.go *)

Record Recoveries := mkRecoveries {
  rc_Durations : list duration; rc_Affected : nat; rc_Unrecovered : nat; rc_Problems : list Recovery }.
(** The problem of a replacement claimed before the kill is that recovery. *)
Fixpoint recoveryTimes (kill : time) (l : list Recovery) : Recoveries :=
  match l with
  | [] => mkRecoveries [] 0 0 []
  | r :: l' =>
    let out := recoveryTimes kill l' in
    match After r kill with
    | None => mkRecoveries (rc_Durations out) (S (rc_Affected out)) (S (rc_Unrecovered out)) (rc_Problems out)
    | Some after =>
      if (after <? 0)%Z
      then mkRecoveries (rc_Durations out) (S (rc_Affected out)) (rc_Unrecovered out) (r :: rc_Problems out)
      else mkRecoveries (after :: rc_Durations out) (S (rc_Affected out)) (rc_Unrecovered out) (rc_Problems out)
    end
  end.

Record summaryMS := mkSummaryMS { sm_N : nat; sm_P50 : f64; sm_P95 : f64; sm_P99 : f64; sm_Max : f64 }.
Definition ms64 (d : duration) : f64 := f64_div (f64_of_Z d) (f64_of_Z Millisecond).
Definition toMS (s : Summary) : summaryMS :=
  mkSummaryMS (su_N s) (ms64 (su_P50 s)) (ms64 (su_P95 s)) (ms64 (su_P99 s)) (ms64 (su_Max s)).

Definition maxClockDivergence : duration := (2 * Second)%Z.

Record throughputInputs := mkThroughputInputs {
  ti_profile : string; ti_workers : Z; ti_concurrency : Z; ti_targetRate : f64;
  ti_warmup : duration; ti_drain : duration; ti_window : Window; ti_pacer : PaceStats;
  ti_submitted : nat; ti_submitErrors : nat; ti_retries : nat;
  ti_dispatches : list Dispatch; ti_finishes : list time;
  ti_statuses : gmap string nat; ti_dlq : gmap string nat; ti_nonTerminal : nat;
  ti_monotonicWindow : duration; ti_observed : list string }.

Inductive throughput_problem :=
| ThroughputObserved (what : string) | NothingCreated | ClaimedBeforeSubmitted (n : nat) | ClocksDiverge.

Record ThroughputResult := mkThroughputResult {
  tr_Profile : string; tr_Workers : Z; tr_Concurrency : Z; tr_TargetRate : f64;
  tr_WarmupSeconds : f64; tr_SteadySeconds : f64; tr_DrainSeconds : f64; tr_Window : Window;
  tr_Warmup : duration; tr_Steady : duration; tr_Drain : duration;
  tr_Submitted : nat; tr_SubmitErrors : nat; tr_SubmitRetries : nat; tr_PacerMaxLateMS : f64;
  tr_JobsInWindow : nat; tr_OfferedPerMin : f64; tr_CompletedInWindow : nat; tr_ThroughputPerMin : f64;
  tr_Dispatch : Summary; tr_DispatchLease : Summary; tr_DispatchMS : summaryMS; tr_DispatchLeaseMS : summaryMS;
  tr_Unclaimed : nat; tr_NegativeLatency : nat;
  tr_FinalStatuses : gmap string nat; tr_DLQReasons : gmap string nat; tr_NotTerminalAtDrainEnd : nat;
  tr_ClockDivergence : duration; tr_ClockDivergenceMS : f64; tr_Valid : bool; tr_Problems : list throughput_problem }.

Definition latencies (l : list Dispatch) : list duration := omap Latency l.
(** The lease latencies of the claimed ones. *)
Definition leaseLatencies (l : list Dispatch) : list duration :=
  omap (λ d, match Latency d with Some _ => LeaseLatency d | None => None end) l.
Definition unclaimed (l : list Dispatch) : nat := length (List.filter (λ d, negb (is_Some_b (Latency d))) l).

Definition analyzeThroughput (i : throughputInputs) : ThroughputResult :=
  let steady := window_Duration (ti_window i) in
  let jobs := length (ti_dispatches i) in
  let completed := CountIn (ti_window i) (ti_finishes i) in
  let lat := latencies (ti_dispatches i) in
  let lease := leaseLatencies (ti_dispatches i) in
  let negative := length (List.filter (λ x, x <? 0)%Z lat) in
  let divergence := Z.abs (ti_monotonicWindow i - steady)%Z in
  let problems :=
    (map ThroughputObserved (ti_observed i) ++
     (if (jobs =? 0)%nat then [NothingCreated] else []) ++
     (if (0 <? negative)%nat then [ClaimedBeforeSubmitted negative] else []) ++
     (if (maxClockDivergence <? divergence)%Z then [ClocksDiverge] else []))%list in
  mkThroughputResult (ti_profile i) (ti_workers i) (ti_concurrency i) (ti_targetRate i)
    (Seconds (ti_warmup i)) (Seconds steady) (Seconds (ti_drain i)) (ti_window i)
    (ti_warmup i) steady (ti_drain i)
    (ti_submitted i) (ti_submitErrors i) (ti_retries i) (ms64 (ps_MaxLate (ti_pacer i)))
    jobs (PerMinute jobs steady) completed (PerMinute completed steady)
    (Summarize lat) (Summarize lease) (toMS (Summarize lat)) (toMS (Summarize lease))
    (unclaimed (ti_dispatches i)) negative
    (ti_statuses i) (ti_dlq i) (ti_nonTerminal i)
    divergence (ms64 divergence) (match problems with [] => true | _ => false end) problems.

(** ** faultsresult.go *)

Record killObservation := mkKillObservation {
  kb_Index : nat; kb_ScheduledOffset : duration; kb_KilledAt : time; kb_Worker : string; kb_Session : uuid;
  kb_HeldAtSelection : nat; kb_ChoseOccupied : bool; kb_RestartMS : f64; kb_RestartError : string;
  kb_Abandoned : list Recovery; kb_NotMade : string }.

Record KillRecord := mkKillRecord {
  kr_Index : nat; kr_ScheduledOffset : f64; kr_KilledAt : time; kr_Worker : string; kr_Session : uuid;
  kr_HeldAtSelection : nat; kr_ChoseOccupied : bool; kr_Affected : nat; kr_Unrecovered : nat;
  kr_RecoverySeconds : list f64; kr_RestartMS : f64; kr_RestartError : string }.

Record faultsInputs := mkFaultsInputs {
  fi_profile : string; fi_seed : Z; fi_workers : Z; fi_concurrency : Z; fi_targetRate : f64;
  fi_jobsTarget : Z; fi_submitted : nat; fi_submitErrors : nat; fi_retries : nat; fi_jobsInDatabase : nat;
  fi_kills : list killObservation; fi_scheduledKills : nat;
  fi_submissionDuration : duration; fi_deadline : duration; fi_deadlineAt : time; fi_endedBy : string;
  fi_statuses : gmap string nat; fi_dlq : gmap string nat; fi_observed : list string }.

Inductive faults_problem :=
| FaultsObserved (what : string)
| KillNotMade (index : nat) (why : string)
| ReplacedBeforeKill (index : nat) (r : Recovery)
| NotRestarted (index : nat) (worker error : string)
| KillsMissing (made scheduled : nat)
| JobsMissing (submitted stored : nat).

Record FaultsResult := mkFaultsResult {
  fr_Profile : string; fr_Seed : Z; fr_Workers : Z; fr_Concurrency : Z; fr_TargetRate : f64;
  fr_JobsTarget : Z; fr_JobsSubmitted : nat; fr_SubmitErrors : nat; fr_SubmitRetries : nat; fr_JobsInDatabase : nat;
  fr_KillsScheduled : nat; fr_KillsDone : nat; fr_Kills : list KillRecord; fr_KillsUntargeted : nat;
  fr_SubmissionSeconds : f64; fr_CompletionDeadlineSeconds : f64; fr_DeadlineAt : time; fr_EndedBy : string;
  fr_Succeeded : nat; fr_CompletionPercent : f64; fr_FinalStatuses : gmap string nat; fr_DLQReasons : gmap string nat;
  fr_Affected : nat; fr_Unrecovered : nat; fr_Recovery : Summary; fr_RecoveryMS : summaryMS;
  fr_Valid : bool; fr_Problems : list faults_problem }.

(** The loop over the kills: the recoveries so far, the counts, the records and the problems. *)
Record kill_sums := mkKillSums {
  ks_all : list duration; ks_affected : nat; ks_unrecovered : nat; ks_untargeted : nat;
  ks_records : list KillRecord; ks_problems : list faults_problem }.
Definition one_kill (s : kill_sums) (k : killObservation) : kill_sums :=
  if negb (bool_decide (kb_NotMade k = ""))
  then mkKillSums (ks_all s) (ks_affected s) (ks_unrecovered s) (S (ks_untargeted s)) (ks_records s)
         (ks_problems s ++ [KillNotMade (kb_Index k) (kb_NotMade k)])%list
  else
    let rec := recoveryTimes (kb_KilledAt k) (kb_Abandoned k) in
    mkKillSums (ks_all s ++ rc_Durations rec)%list (ks_affected s + rc_Affected rec) (ks_unrecovered s + rc_Unrecovered rec)
      (ks_untargeted s)
      (ks_records s ++ [mkKillRecord (kb_Index k) (Seconds (kb_ScheduledOffset k)) (kb_KilledAt k) (kb_Worker k)
          (kb_Session k) (kb_HeldAtSelection k) (kb_ChoseOccupied k) (rc_Affected rec) (rc_Unrecovered rec)
          (map Seconds (rc_Durations rec)) (kb_RestartMS k) (kb_RestartError k)])%list
      (ks_problems s ++ map (ReplacedBeforeKill (kb_Index k)) (rc_Problems rec) ++
       (if bool_decide (kb_RestartError k = "") then []
        else [NotRestarted (kb_Index k) (kb_Worker k) (kb_RestartError k)]))%list.

Definition analyzeFaults (i : faultsInputs) : FaultsResult :=
  let succeeded := default 0 (fi_statuses i !! "SUCCEEDED") in
  let percent :=
    if (0 <? fi_jobsInDatabase i)%nat
    then f64_div (f64_mul (f64_of_Z 100) (f64_of_Z (Z.of_nat succeeded))) (f64_of_Z (Z.of_nat (fi_jobsInDatabase i)))
    else f64_0 in
  let sums := fold_left one_kill (fi_kills i) (mkKillSums [] 0 0 0 [] (map FaultsObserved (fi_observed i))) in
  let recovery := Summarize (ks_all sums) in
  let made := length (fi_kills i) - ks_untargeted sums in
  let problems :=
    (ks_problems sums ++
     (if (made <? fi_scheduledKills i)%nat then [KillsMissing made (fi_scheduledKills i)] else []) ++
     (if (fi_jobsInDatabase i =? fi_submitted i)%nat then [] else [JobsMissing (fi_submitted i) (fi_jobsInDatabase i)]))%list in
  mkFaultsResult (fi_profile i) (fi_seed i) (fi_workers i) (fi_concurrency i) (fi_targetRate i)
    (fi_jobsTarget i) (fi_submitted i) (fi_submitErrors i) (fi_retries i) (fi_jobsInDatabase i)
    (fi_scheduledKills i) made (ks_records sums) (ks_untargeted sums)
    (Seconds (fi_submissionDuration i)) (Seconds (fi_deadline i)) (fi_deadlineAt i) (fi_endedBy i)
    succeeded percent (fi_statuses i) (fi_dlq i)
    (ks_affected sums) (ks_unrecovered sums) recovery (toMS recovery)
    (match problems with [] => true | _ => false end) problems.

(** ** targets.go *)

Inductive Verdict := Met | Missed | NotMeasured.
Definition verdict_String (v : Verdict) : string :=
  match v with Met => "Met" | Missed => "MISSED" | NotMeasured => "NOT MEASURED" end.

Definition TargetDispatchP95 : duration := (500 * Millisecond)%Z.
Definition TargetFaultJobs : nat := 10000.
Definition TargetCompletionPermille : nat := 997.
Definition TargetRecovery : duration := (30 * Second)%Z.
(** 1000 less one percent, as the compiler folds it. *)
Definition throughput_floor : f64 := f64_of_Z 990.

Definition JudgeThroughput (measured offered : f64) (submitErrors : nat) : Verdict :=
  if (0 <? submitErrors)%nat || f64_lt offered throughput_floor || f64_lt measured throughput_floor then Missed else Met.
Definition JudgeDispatch (s : Summary) (unclaimed : nat) : Verdict :=
  if (0 <? unclaimed)%nat then Missed
  else if negb (Valid s) then NotMeasured
  else if (su_P95 s <? TargetDispatchP95)%Z then Met else Missed.
Definition JudgeFaultVolume (submitted : nat) : Verdict := if (TargetFaultJobs <=? submitted)%nat then Met else Missed.
Definition JudgeCompletion (succeeded total : nat) : Verdict :=
  if (total =? 0)%nat then NotMeasured
  else if (total * TargetCompletionPermille <=? succeeded * 1000)%nat then Met else Missed.
Definition JudgeRecovery (s : Summary) (unrecovered : nat) : Verdict :=
  if (0 <? unrecovered)%nat then Missed
  else if negb (Valid s) then NotMeasured
  else if (su_Max s <? TargetRecovery)%Z then Met else Missed.

(** ** record.go *)

Definition governedBy (timing : gmap string string) (names : list string) : list (string * string) :=
  omap (λ n, pair n <$> timing !! n) names.

(** A row of the record: the target, the verdict and the settings beside it. *)
Record TargetRow := mkTargetRow { ta_Name : string; ta_Verdict : string; ta_GovernedBy : list (string * string) }.

Definition evaluateTargets (th : option ThroughputResult) (f : option FaultsResult) (timing : gmap string string)
    (workers concurrency : Z) : list TargetRow :=
  (match th with
   | None => []
   | Some t =>
     [ mkTargetRow "Sustained throughput"
         (verdict_String (JudgeThroughput (tr_ThroughputPerMin t) (tr_OfferedPerMin t) (tr_SubmitErrors t)))
         ([("workers", Itoa workers); ("TASKFORGE_WORKER_CONCURRENCY", Itoa concurrency)] ++
          governedBy timing ["TASKFORGE_WORKER_POLL_WAIT"]);
       mkTargetRow "Dispatch latency" (verdict_String (JudgeDispatch (tr_Dispatch t) (tr_Unclaimed t)))
         (governedBy timing ["TASKFORGE_OUTBOX_POLL_INTERVAL"; "TASKFORGE_OUTBOX_CLAIM_TIMEOUT"; "TASKFORGE_WORKER_POLL_WAIT"]) ]
   end ++
   match f with
   | None => []
   | Some r =>
     [ mkTargetRow "Fault-injection volume" (verdict_String (JudgeFaultVolume (fr_JobsInDatabase r)))
         [("jobs submitted", Itoa (fr_JobsTarget r))];
       mkTargetRow "Completion under fault injection" (verdict_String (JudgeCompletion (fr_Succeeded r) (fr_JobsInDatabase r)))
         (("max_attempts per job", "3") ::
          governedBy timing ["TASKFORGE_LEASE_DURATION"; "TASKFORGE_SESSION_STALE_AFTER"; "TASKFORGE_JOB_RETRY_BASE"]);
       mkTargetRow "Worker-failure recovery" (verdict_String (JudgeRecovery (fr_Recovery r) (fr_Unrecovered r)))
         (governedBy timing ["TASKFORGE_LEASE_DURATION"; "TASKFORGE_LEASE_RENEW_INTERVAL"; "TASKFORGE_SESSION_STALE_AFTER";
                             "TASKFORGE_RECONCILER_POLL_INTERVAL"; "TASKFORGE_OUTBOX_POLL_INTERVAL"]) ]
   end)%list.

(** ** smoke.go *)

Definition minSmokeJobs : nat := 50.

(** The checks of a smoke run, by name; [thErr] and [fErr] say that a run failed. *)
Definition smokeChecks (th : ThroughputResult) (thErr : bool) (f : FaultsResult) (fErr : bool) : list (string * bool) :=
  let succeeded t := default 0 (t !! "SUCCEEDED") in
  ([("the throughput run completed", negb thErr)] ++
   (if negb thErr || (0 <? tr_Submitted th)%nat
    then [ ("throughput: at least 50 jobs submitted, none refused",
            (minSmokeJobs <=? tr_Submitted th)%nat && (tr_SubmitErrors th =? 0)%nat);
           ("throughput: the steady window measured jobs",
            (0 <? tr_JobsInWindow th)%nat && (0 <? tr_CompletedInWindow th)%nat);
           ("throughput: every in-window job was claimed, with a non-negative latency",
            (tr_Unclaimed th =? 0)%nat && (tr_NegativeLatency th =? 0)%nat && (su_N (tr_Dispatch th) =? tr_JobsInWindow th)%nat);
           ("throughput run is valid", tr_Valid th);
           ("throughput: every job reached SUCCEEDED",
            (0 <? tr_Submitted th)%nat && (succeeded (tr_FinalStatuses th) =? tr_Submitted th)%nat
            && (tr_NotTerminalAtDrainEnd th =? 0)%nat) ]
    else []) ++
   [("the fault run completed", negb fErr)] ++
   (if negb fErr || (0 <? fr_JobsSubmitted f)%nat
    then
      let targeted := (fr_KillsUntargeted f =? 0)%nat in
      [ ("faults: at least 50 jobs, every one in the database",
         (minSmokeJobs <=? fr_JobsInDatabase f)%nat && (fr_JobsInDatabase f =? fr_JobsSubmitted f)%nat);
        ("faults: a kill target held an attempt with time left", targeted);
        ("faults: one kill, stamped with PostgreSQL's time and the killed session",
         (fr_KillsDone f =? 1)%nat && match fr_Kills f with [k] => negb (kr_KilledAt k =? zero_time)%Z | _ => false end) ] ++
      (if targeted
       then [ ("faults: the kill hit an attempt, and it was recovered",
               (1 <=? fr_Affected f)%nat && (1 <=? su_N (fr_Recovery f))%nat && (fr_Unrecovered f =? 0)%nat);
              ("faults: every recovery time is positive",
               (0 <? length (fr_Kills f))%nat && forallb (λ k, forallb (f64_lt f64_0) (kr_RecoverySeconds k)) (fr_Kills f)) ]
       else []) ++
      [ ("faults: every job reached SUCCEEDED",
         (0 <? fr_JobsInDatabase f)%nat && (fr_Succeeded f =? fr_JobsInDatabase f)%nat);
        ("fault run is valid", fr_Valid f) ]
    else []))%list.


(** ** fleet.go and run_faults.go: the parts that do not start processes *)

Definition nonTerminal (statuses : gmap string nat) : nat :=
  foldr (λ x n, if bool_decide (x.1 ∈ ["SUCCEEDED"; "DEAD_LETTERED"; "CANCELED"]) then n else x.2 + n) 0 (map_to_list statuses).
Definition statusesAndTerminal (d : DB) (scope : string) : gmap string nat * nat :=
  (StatusCounts d scope, nonTerminal (StatusCounts d scope)).

Definition clockDivergence (pgStart pgNow monoStart monoNow : time) : duration :=
  Z.abs ((pgNow - pgStart) - (monoNow - monoStart))%Z.
Definition divergedTooFar (d : duration) : bool := (maxClockDivergence <? d)%Z.

Record targeting := mkTargeting { tg_duration : duration; tg_margin : duration }.
Definition targetingFor (o : options) : option targeting :=
  if negb (op_targetableKills o) then None else Some (mkTargeting (op_faultJobDuration o) (targetMargin o)).
Definition targetableCandidates (held : gmap string nat) (live : list string) : list string :=
  List.filter (λ name, 0 <? default 0 (held !! name))%nat live.

Definition options_timings (o : options) : option Stack.Timings :=
  if bool_decide (op_profile o = profileShipped) then Some Stack.ShippedTimings
  else if bool_decide (op_profile o = profileTuned) then Some Stack.TunedTimings
  else None.

(** ** main.go *)

Definition exitPassed : Z := 0.
Definition exitFailed : Z := 1.
Definition exitUsage : Z := 2.
Definition exitInterrupted : Z := 130.

(** What a run meets: what git, the binaries and the process list say, how each mode ends (with whether it failed),
    whether the context had ended after the modes and at the end, and whether the two files could be created. *)
Record surroundings := mkSurroundings {
  su_head : option string; su_status : option string; su_build : string → option (list (string * string));
  su_processes : option (list string);
  su_throughput : ThroughputResult * bool; su_faults : FaultsResult * bool; su_smoke : bool; su_probe : bool;
  su_interrupted : bool; su_interrupted_late : bool; su_markdown : bool; su_json : bool }.

Definition RequiredBinaries : list string :=
  ["taskforge-api"; "taskforge-outbox"; "taskforge-scheduler"; "taskforge-reconciler"; "taskforge-worker"; "taskforge-cli"].

Record provenance := mkProvenance { pv_sha : string; pv_cleanErr : option guard_error; pv_binariesErr : option guard_error }.
Definition checkProvenance (w : surroundings) : provenance :=
  match su_head w with
  | None => mkProvenance "" (Some Unreadable) (Some Unreadable)
  | Some out =>
    mkProvenance (TrimSpace out) (RequireCleanTree (su_status w))
      (RequireBuiltFrom RequiredBinaries (TrimSpace out) (su_build w))
  end.

Definition finish (interrupted failed : bool) : Z :=
  if interrupted then exitInterrupted else if failed then exitFailed else exitPassed.

Inductive record_file := Markdown | Summary_json.
Definition invalid {R} (valid : R → bool) (r : option R) : bool := match r with Some x => negb (valid x) | None => false end.
(** Whether the report did what was asked, and the files it wrote. *)
Definition report (o : options) (w : surroundings) (th : option ThroughputResult) (f : option FaultsResult) (record : bool)
    : bool * list record_file :=
  match options_timings o with
  | None => (false, [])
  | Some _ =>
    if negb record then (true, [])
    else if invalid tr_Valid th || invalid fr_Valid f then (false, [])
    else if negb (su_markdown w) then (false, [])
    else if negb (su_json w) then (false, [Markdown])
    else (true, [Markdown; Summary_json])
  end.

(** [run], after the arguments were parsed ([None] when they were not): the exit code and the files of the record. *)
Definition bench_run (parsed : option options) (w : surroundings) : Z * list record_file :=
  match parsed with
  | None => (exitUsage, [])
  | Some o =>
    if op_record o && negb (match validateRecordable o with [] => true | _ => false end) then (exitUsage, [])
    else if bool_decide (head (op_modes o) = Some modeProbe) then
      match RequireQuietHost (su_processes w) with
      | Some _ => (exitFailed, [])
      | None => (finish (su_interrupted_late w) (su_probe w), [])
      end
    else if bool_decide (head (op_modes o) = Some modeSmoke) then
      match RequireQuietHost (su_processes w) with
      | Some _ => (exitFailed, [])
      | None => (finish (su_interrupted_late w) (su_smoke w), [])
      end
    else
      let prov := checkProvenance w in
      if op_record o && (is_Some_b (pv_cleanErr prov) || is_Some_b (pv_binariesErr prov)) then (exitFailed, [])
      else
        match RequireQuietHost (su_processes w) with
        | Some _ => (exitFailed, [])
        | None =>
          let asked mode := existsb (λ m, bool_decide (m = mode)) (op_modes o) in
          let '(th, failed) := if asked modeThroughput then (Some (su_throughput w).1, (su_throughput w).2) else (None, false) in
          let '(f, failed) := if asked modeFaults && negb failed then (Some (su_faults w).1, (su_faults w).2) else (None, failed) in
          if su_interrupted w then (finish true failed, [])
          else if failed then (finish (su_interrupted_late w) true, (report o w th f false).2)
          else
            let '(done_, files) := report o w th f (op_record o) in
            (if done_ then exitPassed else exitFailed, files)
        end
  end.

(** ** probe.go and probe_report.go: the judgements of the recovery probe *)

Definition probeAJobDuration : duration := jobDuration.
Definition probeBSpan : duration := (45 * Second)%Z.
Definition probeBKillBeforeEnd : duration := (21 * Second)%Z.
Definition probeCJobDuration : duration := (40 * Second)%Z.
Definition probeDJobDuration : duration := (5 * Second)%Z.
Definition probeEJobDuration : duration := (20 * Second)%Z.
Definition probeOverThresholdSlack : duration := (5 * Second)%Z.

Inductive condition := condLoaded | condTail | condIdle | condRunning | condRenewed.
Definition conditionJobDuration (c : condition) (bJob : duration) : duration :=
  match c with
  | condTail => bJob
  | condIdle => probeCJobDuration
  | condRunning => probeDJobDuration
  | condRenewed => probeEJobDuration
  | condLoaded => probeAJobDuration
  end.
Definition conditionTimeout (c : condition) (override : Z) : Z :=
  if (0 <? override)%Z then override
  else match c with condIdle => 300 | condRenewed => 25 | _ => 30 end%Z.
Definition bKillAt (lease : duration) : duration :=
  (probeBSpan - Z.min probeBKillBeforeEnd (lease - Second))%Z.

Definition terminalJobStatus (s : JobStatus) : bool :=
  match s with StatusSucceeded | StatusDeadLettered | StatusCanceled => true | _ => false end.
Definition outcomesSettled (outcomes : list KillOutcome) (held : nat) : bool :=
  if (length outcomes <? held)%nat || (length outcomes =? 0)%nat then false
  else forallb (λ o, negb (bool_decide (Outcome o = OutcomeUnresolved))
                     && (is_Some_b (ko_ReplacementClaimedAt o) || terminalJobStatus (ko_JobStatus o))) outcomes.
Definition allReplaced (hops : list RecoveryHop) (held : nat) : bool :=
  (held <=? length hops)%nat && forallb (λ h, is_Some_b (rh_Replacement h)) hops.

(** What each segment takes with nothing going wrong, and the one furthest above it. *)
Definition nominalSegments (t : Stack.Timings) : list duration :=
  [Stack.Lease t; Stack.PollInterval t; 0; Stack.OutboxPoll t; 0]%Z.
Definition segmentNames : list string := ["S1"; "S2"; "S3"; "S4"; "S5"].
Definition segmentValues (s : Segments) : list duration := [S1 s; S2 s; S3 s; S4 s; S5 s].
Definition excessSegment (s : Segments) (baseline : list duration) : string * duration :=
  fold_left (λ best x, let '(name, (v, b)) := x in
               if bool_decide (best.1 = "") || (best.2 <? v - b)%Z then (name, v - b)%Z else best)
    (combine segmentNames (combine (segmentValues s) baseline)) ("", 0%Z).

Record claim := mkClaim { cm_at : time; cm_status : Z; cm_jobID : option uuid }.
Record claimWindow := mkClaimWindow { cw_requests : nat; cw_tookJob : nat; cw_tookThis : nat; cw_failed : nat }.
Definition claimsBetween (claims : list claim) (from to : time) (jobID : uuid) : claimWindow :=
  let inside := List.filter (λ c, (from <? cm_at c) && (cm_at c <=? to))%Z claims in
  let count p := length (List.filter p inside) in
  mkClaimWindow (length inside) (count (λ c, is_Some_b (cm_jobID c)))
    (count (λ c, bool_decide (cm_jobID c = Some jobID))) (count (λ c, negb (cm_status c =? 200)%Z)).

(** Whether the rule of precedence applies to an outcome, and whether it holds. *)
Definition precedenceIdentity (o : KillOutcome) : bool * bool :=
  match ko_Status o, ko_LeaseReleasedAt o with
  | (AttemptAbandoned | AttemptTimedOut) as status, Some released =>
    let due := match ko_TimeoutAt o with
               | Some t => negb (released <? t)%Z && negb (ko_LeaseExpiresAt o <? t)%Z
               | None => false
               end in
    (true, Bool.eqb (bool_decide (status = AttemptTimedOut)) due)
  | _, _ => (false, false)
  end.

Definition lease_status_String (s : LeaseStatus) : string :=
  match s with
  | LeaseActive => "ACTIVE" | LeaseCompleted => "COMPLETED" | LeaseReleased => "RELEASED" | LeaseExpired => "EXPIRED"
  end.
Definition takenBy (o : KillOutcome) : string :=
  match ko_LeaseStatus o with
  | LeaseReleased => "the timeout sweep, lease live"
  | LeaseExpired => "the expired-lease path"
  | s => "lease " ++ lease_status_String s
  end.

(** What of a trial its summary reads. *)
Record trialResult := mkTrialResult {
  tl_missed : bool; tl_killedAt : time; tl_worker : string; tl_held : nat;
  tl_outcomes : list KillOutcome; tl_finishedBeforeKill : list Finished; tl_outcomeErr : bool }.

Definition noVictim : string := "no victim".
Definition noAbandoned (tr : trialResult) : string :=
  let some b := existsb (λ o, b (Outcome o)) (tl_outcomes tr) in
  if bool_decide (tl_worker tr = "") then noVictim
  else if some (λ o, bool_decide (o = OutcomeAbandoned) || bool_decide (o = OutcomeAbandonedDeadLetter)) then ""
  else if some (λ o, bool_decide (o = OutcomeTimedOut) || bool_decide (o = OutcomeTimedOutDeadLetter)) then "TIMED_OUT"
  else if negb (forallb (λ o, bool_decide (ko_Status o = AttemptSucceeded)) (tl_outcomes tr)) then "other"
  else if (0 <? length (tl_outcomes tr))%nat || (0 <? length (tl_finishedBeforeKill tr))%nat then "finished before the signal"
  else "other".

Inductive agreement := Mismatch | MoreOutcomes | Agree.
Definition heldAgreement (tr : trialResult) : agreement :=
  if (length (tl_outcomes tr) <? tl_held tr)%nat then Mismatch
  else if (tl_held tr <? length (tl_outcomes tr))%nat then MoreOutcomes
  else Agree.

(** The names of states and outcomes, of kill_outcomes.go. *)
Definition held_String (h : held_state) : string :=
  match h with HeldLeased => "LEASED" | HeldRunning => "RUNNING" | HeldCreatedAfterKill => "CREATED_AFTER_KILL" end.
Definition outcome_String (o : outcome) : string :=
  match o with
  | OutcomeAbandoned => "ABANDONED" | OutcomeAbandonedDeadLetter => "DEAD_LETTERED_ON_ABANDON"
  | OutcomeTimedOut => "TIMED_OUT" | OutcomeTimedOutDeadLetter => "DEAD_LETTERED_ON_TIMEOUT"
  | OutcomeCanceled => "CANCELED" | OutcomeUnresolved => "UNRESOLVED" | OutcomeOther => "OTHER"
  end.

Record outcomeSummary := mkOutcomeSummary {
  os_trials : nat; os_missed : nat; os_withHeld : nat; os_withVictim : nat; os_heldAgree : nat; os_heldMismatch : nat;
  os_held : gmap string nat; os_final : gmap string nat; os_byState : gmap string (gmap string nat);
  os_takenBy : gmap string nat; os_identityChecked : nat; os_identityHeld : nat;
  os_finishedBeforeKill : nat; os_trialsWithFinished : nat; os_claimToStart : list duration;
  os_abandonedToReplacement : list duration; os_timedOutToReplacement : list duration;
  os_noAbandoned : gmap string nat; os_noAbandonedTrials : nat; os_outcomeErrors : nat }.
#[export] Instance eta_outcomeSummary : Eta outcomeSummary := λ s,
  mkOutcomeSummary (os_trials s) (os_missed s) (os_withHeld s) (os_withVictim s) (os_heldAgree s) (os_heldMismatch s)
    (os_held s) (os_final s) (os_byState s) (os_takenBy s) (os_identityChecked s) (os_identityHeld s)
    (os_finishedBeforeKill s) (os_trialsWithFinished s) (os_claimToStart s) (os_abandonedToReplacement s)
    (os_timedOutToReplacement s) (os_noAbandoned s) (os_noAbandonedTrials s) (os_outcomeErrors s).
Definition no_outcomes : outcomeSummary := mkOutcomeSummary 0 0 0 0 0 0 ∅ ∅ ∅ ∅ 0 0 0 0 [] [] [] ∅ 0 0.

(** [m[k]++]. *)
Definition incr (k : string) (m : gmap string nat) : gmap string nat := <[k := S (default 0 (m !! k))]> m.

Definition one_outcome (kill : time) (s : outcomeSummary) (o : KillOutcome) : outcomeSummary :=
  let '(applies, holds) := precedenceIdentity o in
  let state := held_String (ko_StateAtKill o) in
  let bucket := outcome_String (Outcome o) in
  s <| os_held := incr state (os_held s) |> <| os_final := incr bucket (os_final s) |>
    <| os_byState := <[state := incr bucket (default ∅ (os_byState s !! state))]> (os_byState s) |>
    <| os_takenBy := if bool_decide (ko_Status o = AttemptTimedOut) then incr (takenBy o) (os_takenBy s) else os_takenBy s |>
    <| os_identityChecked := if applies then S (os_identityChecked s) else os_identityChecked s |>
    <| os_identityHeld := if applies && holds then S (os_identityHeld s) else os_identityHeld s |>
    <| os_claimToStart := match ClaimToStart o, ko_StateAtKill o with
                          | Some d, HeldRunning => (os_claimToStart s ++ [d])%list
                          | _, _ => os_claimToStart s
                          end |>
    <| os_abandonedToReplacement := match ToReplacement o kill, Outcome o with
                                    | Some d, OutcomeAbandoned => (os_abandonedToReplacement s ++ [d])%list
                                    | _, _ => os_abandonedToReplacement s
                                    end |>
    <| os_timedOutToReplacement := match ToReplacement o kill, Outcome o with
                                   | Some d, OutcomeTimedOut => (os_timedOutToReplacement s ++ [d])%list
                                   | _, _ => os_timedOutToReplacement s
                                   end |>.

Definition one_trial (s : outcomeSummary) (tr : trialResult) : outcomeSummary :=
  let add (b : bool) n := if b then S n else n in
  let s := s <| os_trials := S (os_trials s) |> <| os_missed := add (tl_missed tr) (os_missed s) |> in
  if tl_outcomeErr tr then s <| os_outcomeErrors := S (os_outcomeErrors s) |>
  else
    let victim := negb (bool_decide (tl_worker tr = "")) in
    let mismatch := (length (tl_outcomes tr) <? tl_held tr)%nat in
    let kind := noAbandoned tr in
    let s :=
      s <| os_withVictim := add victim (os_withVictim s) |>
        <| os_heldMismatch := add (victim && mismatch) (os_heldMismatch s) |>
        <| os_heldAgree := add (victim && negb mismatch) (os_heldAgree s) |>
        <| os_withHeld := add (0 <? length (tl_outcomes tr))%nat (os_withHeld s) |>
        <| os_finishedBeforeKill := os_finishedBeforeKill s + length (tl_finishedBeforeKill tr) |>
        <| os_trialsWithFinished := add (0 <? length (tl_finishedBeforeKill tr))%nat (os_trialsWithFinished s) |>
        <| os_noAbandoned := if bool_decide (kind = "") then os_noAbandoned s else incr kind (os_noAbandoned s) |>
        <| os_noAbandonedTrials := add (negb (bool_decide (kind = "")) && negb (bool_decide (kind = noVictim)))
                                     (os_noAbandonedTrials s) |> in
    fold_left (one_outcome (tl_killedAt tr)) (tl_outcomes tr) s.
Definition summarizeOutcomes (trials : list trialResult) : outcomeSummary := fold_left one_trial trials no_outcomes.

(** ** Percentiles *)

Lemma rank_bounds p n : 0 < n → 1 <= rank p n <= n.
Proof. unfold rank. lia. Qed.
Lemma rank_covers p n : 0 < n → p <= 100 → p * n <= 100 * rank p n.
Proof.
  intros Hn Hp. unfold rank. pose proof (Nat.div_mod (p * n + 99) 100). pose proof (Nat.mod_upper_bound (p * n + 99) 100).
  assert (p * n <= 100 * n) by nia. lia.
Qed.

Lemma sorted_below (l : list Z) i j :
  StronglySorted Z.le l → i <= j → j < length l → (nth i l 0 <= nth j l 0)%Z.
Proof.
  intros Hs. revert i j. induction Hs as [|x l _ IH Hall]; intros i j Hij Hj; simpl in *; [lia|].
  destruct i, j; simpl; [lia| |lia|apply IH; lia].
  rewrite Forall_forall in Hall. apply Hall, list_elem_of_In, nth_In. lia.
Qed.
Lemma filter_length_app {A} (p : A → bool) l l' :
  length (List.filter p (l ++ l')%list) = length (List.filter p l) + length (List.filter p l').
Proof. by rewrite List.filter_app, length_app. Qed.
Lemma filter_all {A} (p : A → bool) l : (∀ x, x ∈ l → p x = true) → List.filter p l = l.
Proof.
  induction l as [|x l IH]; intros Hp; simpl; [done|]. rewrite (Hp x) by (by left). f_equal. apply IH. intros y Hy. apply Hp. by right.
Qed.

(** When the percentile is below a bound, that share of the values is. *)
Lemma NearestRank_covers (l : list duration) p (T : duration) :
  StronglySorted Z.le l → l ≠ [] → p <= 100 → (NearestRank l p < T)%Z →
  p * length l <= 100 * length (List.filter (λ x, x <? T)%Z l).
Proof.
  intros Hs Hne Hp HT. assert (0 < length l) as Hn by (destruct l; simpl; [done|lia]).
  pose proof (rank_bounds p _ Hn). pose proof (rank_covers p _ Hn Hp).
  assert (NearestRank l p = nth (rank p (length l) - 1) l 0%Z) as Heq by (by destruct l). rewrite Heq in HT.
  rewrite <-(take_drop (rank p (length l)) l) at 2. rewrite filter_length_app.
  rewrite (filter_all _ (take _ l)), length_take; [lia|].
  intros x Hx. apply list_elem_of_lookup in Hx as (i & Hi).
  apply lookup_take_Some in Hi as [Hi Hlt]. apply Z.ltb_lt.
  rewrite <-(nth_lookup_Some l i 0%Z x Hi).
  assert (nth i l 0 <= nth (rank p (length l) - 1) l 0)%Z by (apply sorted_below; [done|lia|lia]). lia.
Qed.

Lemma Z_sorted (l : list Z) : StronglySorted Z.le (merge_sort Z.le l).
Proof. apply StronglySorted_merge_sort; [intros x y z; lia|intros x y; lia]. Qed.

Lemma Summarize_p95 l T : Valid (Summarize l) = true → (su_P95 (Summarize l) < T)%Z →
  95 * length l <= 100 * length (List.filter (λ x, x <? T)%Z l).
Proof.
  intros Hv HT. assert (l ≠ []) as Hne by (by intros ->).
  assert (su_P95 (Summarize l) = NearestRank (merge_sort Z.le l) 95) as Heq by (by destruct l). rewrite Heq in HT.
  pose proof (merge_sort_Permutation Z.le l) as Hperm.
  assert (merge_sort Z.le l ≠ []) as Hms by (intros Hnil; rewrite Hnil in Hperm; by apply Permutation_nil_l in Hperm).
  pose proof (NearestRank_covers _ 95 T (Z_sorted l) Hms) as Hc.
  rewrite (Permutation_length (filter_permutation (λ x, x <? T)%Z _ _ Hperm)), (Permutation_length Hperm) in Hc. apply Hc; [lia|done].
Qed.
Lemma Summarize_max l T : (su_Max (Summarize l) < T)%Z → ∀ x, x ∈ l → (x < T)%Z.
Proof.
  intros HT x Hx. assert (l ≠ []) by (intros ->; by apply elem_of_nil in Hx).
  assert (su_Max (Summarize l) = nth (length (merge_sort Z.le l) - 1) (merge_sort Z.le l) 0%Z) as Heq by (by destruct l).
  rewrite Heq in HT. rewrite <-(merge_sort_Permutation Z.le l) in Hx.
  apply list_elem_of_lookup in Hx as (i & Hi). pose proof (lookup_lt_Some _ _ _ Hi).
  rewrite <-(nth_lookup_Some _ i 0%Z x Hi).
  assert (nth i (merge_sort Z.le l) 0 <= nth (length (merge_sort Z.le l) - 1) (merge_sort Z.le l) 0)%Z; [|lia].
  apply sorted_below; [apply Z_sorted|lia|lia].
Qed.

(** ** Recoveries *)

(** Nothing is left out of the recoveries of a kill. *)
Lemma recoveryTimes_covers kill l :
  rc_Unrecovered (recoveryTimes kill l) = 0 → rc_Problems (recoveryTimes kill l) = [] →
  ∀ r, r ∈ l → ∃ after, After r kill = Some after ∧ (0 <= after)%Z ∧ after ∈ rc_Durations (recoveryTimes kill l).
Proof.
  induction l as [|r l IH]; simpl; [by intros _ _ r ?%elem_of_nil|].
  destruct (After r kill) as [after|] eqn:Ha; simpl; [|done].
  destruct (after <? 0)%Z eqn:Hneg; simpl; [done|]. apply Z.ltb_ge in Hneg. intros Hu Hp r' [->|Hin]%elem_of_cons.
  - exists after. split_and!; [done..|by left].
  - destruct (IH Hu Hp r' Hin) as (a' & ? & ? & ?). exists a'. split_and!; [done..|by right].
Qed.

(** A kill whose recoveries are all among [all]. *)
Definition kill_covered (all : list duration) (k : killObservation) : Prop :=
  kb_NotMade k = "" ∧
  ∀ r, r ∈ kb_Abandoned k → ∃ after, After r (kb_KilledAt k) = Some after ∧ (0 <= after)%Z ∧ after ∈ all.

Lemma kill_covered_mono all all' k : all ⊆ all' → kill_covered all k → kill_covered all' k.
Proof. intros Hsub [Hn Hr]. split; [done|]. intros r Hin. destruct (Hr r Hin) as (a & ? & ? & ?). eauto. Qed.

Lemma kills_covered kills : ∀ s, let sums := fold_left one_kill kills s in
  ks_problems sums = [] → ks_unrecovered sums = 0 →
  ks_problems s = [] ∧ ks_unrecovered s = 0 ∧ ks_all s ⊆ ks_all sums ∧ Forall (kill_covered (ks_all sums)) kills.
Proof.
  induction kills as [|k kills IH]; intros s sums Hp Hu; [done|]. simpl in sums.
  destruct (IH (one_kill s k) Hp Hu) as (Hp1 & Hu1 & Hsub & Hall). clear IH. fold sums in Hsub, Hall.
  unfold one_kill in Hp1, Hu1, Hsub. destruct (bool_decide (kb_NotMade k = "")) eqn:Hm; simpl in *.
  2: { by apply app_eq_nil in Hp1 as [_ ?]. }
  apply bool_decide_eq_true in Hm. apply app_eq_nil in Hp1 as [Hp0 [Hrp _]%app_eq_nil].
  split_and!; [done|lia|set_solver|]. constructor; [|done].
  assert (rc_Problems (recoveryTimes (kb_KilledAt k) (kb_Abandoned k)) = []) as Hrp' by (by destruct (rc_Problems _)).
  assert (rc_Unrecovered (recoveryTimes (kb_KilledAt k) (kb_Abandoned k)) = 0) as Hru by lia.
  split; [done|]. intros r Hr. destruct (recoveryTimes_covers _ _ Hru Hrp' r Hr) as (a & ? & ? & ?).
  exists a. split_and!; [done..|]. set_solver.
Qed.

(** Unrecovered attempts only add up. *)
Lemma analyzeFaults_met i : let r := analyzeFaults i in
  JudgeRecovery (fr_Recovery r) (fr_Unrecovered r) = Met → fr_Valid r = true →
  ∀ k, k ∈ fi_kills i → kb_NotMade k = "" ∧
    ∀ x, x ∈ kb_Abandoned k → ∃ after, After x (kb_KilledAt k) = Some after ∧ (0 <= after < TargetRecovery)%Z.
Proof.
  cbv zeta. unfold JudgeRecovery, analyzeFaults. simpl.
  set (sums := fold_left one_kill (fi_kills i) _). intros Hmet Hvalid k Hk.
  destruct (0 <? ks_unrecovered sums)%nat eqn:Hu; [done|]. apply Nat.ltb_ge in Hu.
  destruct (negb (Valid (Summarize (ks_all sums)))); [done|].
  destruct (su_Max (Summarize (ks_all sums)) <? TargetRecovery)%Z eqn:Hmax; [|done]. apply Z.ltb_lt in Hmax.
  assert (ks_problems sums = []) as Hp by (destruct (ks_problems sums); [done|by simpl in Hvalid]).
  destruct (kills_covered (fi_kills i) _ Hp ltac:(fold sums; lia)) as (_ & _ & _ & Hall). fold sums in Hall.
  rewrite Forall_forall in Hall. destruct (Hall k Hk) as [Hn Hr]. split; [done|].
  intros x Hx. destruct (Hr x Hx) as (a & Ha & H0 & Hin). exists a. split; [done|]. split; [done|].
  by apply (Summarize_max (ks_all sums)).
Qed.

(** ** Dispatches *)

(** Its first attempt was claimed within a time. *)
Definition claimed_within (d : DB) (T : duration) (x : uuid * Job) : bool :=
  existsb (λ y : uuid * Attempt, a_created_at y.2 - j_created_at x.2 <? T)%Z (first_attempts d x.1).

Lemma Latency_spec d x r T : Inv d → dispatch_of d x r →
  match Latency r with Some l => (l <? T)%Z | None => false end = claimed_within d T x.
Proof.
  intros Hinv (Hid & Hsub & Hclaim & _). unfold Latency, claimed_within. rewrite Hsub.
  pose proof (first_attempt_spec d Hinv x.1) as Hfirst.
  pose proof (attempts_single d Hinv x.1 1) as Hlen. fold (first_attempts d x.1) in Hlen.
  destruct (first_attempts d x.1) as [|[aid a] [|? ?]] eqn:Hl; simpl in *; [| |lia].
  - destruct (di_ClaimedAt r) as [t|]; simpl; [|done]. destruct (proj1 (Hclaim t) eq_refl) as (aid & a & Ha & Hj & Hn & _).
    by assert (None = Some (aid, a)) by (by apply Hfirst).
  - destruct (proj1 (Hfirst aid a) eq_refl) as (Ha & Hj & Hn).
    rewrite (proj2 (Hclaim (a_created_at a))) by eauto 10. simpl. by rewrite orb_false_r.
Qed.

(** When every job was claimed, each has a latency. *)
Lemma latencies_count d T jobs rows : Inv d → Forall2 (dispatch_of d) jobs rows → unclaimed rows = 0 →
  length (latencies rows) = length jobs ∧
  length (List.filter (λ x, x <? T)%Z (latencies rows)) = length (List.filter (claimed_within d T) jobs).
Proof.
  intros Hinv Hrows. induction Hrows as [|x r jobs rows Hx Hrows IH]; [done|].
  unfold unclaimed, latencies. csimpl. pose proof (Latency_spec d x r T Hinv Hx) as Hspec.
  destruct (Latency r) as [l|]; simpl; [|done]. intros Hu. destruct (IH Hu) as [IH1 IH2]. rewrite <-Hspec.
  unfold latencies in IH1, IH2. rewrite IH1. split; [done|]. destruct (l <? T)%Z; simpl; by rewrite IH2.
Qed.


(** A run whose one kill is the one of [killed]: the replacement is claimed 25 s after it. *)
Definition sample_kill : killObservation :=
  mkKillObservation 0 0 kill_time "worker-a" 7 1 true f64_0 "" (Readdb.Recoveries (at_end killed) "t1" 7) "".
Definition sample_faults : faultsInputs :=
  mkFaultsInputs profileShipped 1 1 2 fixedRatePerMin 1 1 0 0 1 [sample_kill] 1 Second completionDeadline (sec 2000) "deadline"
    (StatusCounts (at_end killed) "t1") ∅ [].
Definition sample_window : Window := mkWindow (sec 900) (sec 1100).
Definition sample_throughput : throughputInputs :=
  mkThroughputInputs profileShipped 1 2 fixedRatePerMin 0 0 sample_window (mkPaceStats 1 0) 1 0 0
    (Dispatches (at_end killed) "t1" (wi_Start sample_window) (wi_End sample_window)) [] ∅ ∅ 0 (200 * Second) [].


(** ** The schedule of kills *)

Section spacing.
Context {Rng : Type} (NewPCG : Z → Rng) (Int64N : Z → Rng → Z * Rng) (Uint64 : Rng → Z * Rng).
(** [Int64N n] is in [0, n). *)
Context (Int64N_range : ∀ n rng, (0 < n)%Z → (0 <= (Int64N n rng).1 < n)%Z).

Lemma lay_out_lookup first width steps count : (0 < steps)%Z → ∀ i rng j k,
  lay_out Int64N Uint64 first width steps i count rng !! j = Some k →
  ∃ jitter, (0 <= jitter < steps)%Z ∧ ki_At k = (first + Z.of_nat (i + j) * width + jitter * Millisecond)%Z.
Proof.
  intros Hs. induction count as [|count IH]; intros i rng j k; simpl; [done|].
  pose proof (Int64N_range steps rng Hs) as Hrange. destruct (Int64N steps rng) as [jitter rng1]. simpl in Hrange.
  destruct (Uint64 rng1) as [pick rng2]. destruct j as [|j]; simpl.
  - intros [= <-]. exists jitter. split; [done|]. simpl. by rewrite Nat.add_0_r.
  - intros Hk. destruct (IH _ _ _ _ Hk) as (jitter' & Hj & ->). exists jitter'. split; [done|].
    by rewrite Nat.add_succ_comm.
Qed.
Lemma lay_out_length first width steps count : ∀ i rng,
  length (lay_out Int64N Uint64 first width steps i count rng) = count.
Proof.
  induction count as [|count IH]; intros i rng; simpl; [done|].
  destruct (Int64N steps rng) as [jitter rng1], (Uint64 rng1) as [pick rng2]. simpl. by rewrite IH.
Qed.

Lemma slot_width_fits kills span first : (0 < kills)%Z → (first < span)%Z →
  (kills * slot_width kills span first <= span - first)%Z.
Proof.
  intros Hk Hs. unfold slot_width, truncate_ms.
  pose proof (Z.quot_pos (span - first) kills ltac:(lia) Hk).
  pose proof (Z.mul_quot_le (span - first) kills ltac:(lia) ltac:(lia)).
  pose proof (Z.rem_bound_pos (Z.quot (span - first) kills) Millisecond ltac:(lia) ltac:(unfold Millisecond; lia)). nia.
Qed.

(** The kills of a fault run are spread.  Whatever the seed and the draws, a schedule has as many kills
    as asked for, each within the span after the quiet start, in order, and two neighbours are more than
    the minimum gap apart. *)
Theorem kills_are_spaced seed kills span first minGap l :
  (0 <= minGap)%Z →
  Schedule NewPCG Int64N Uint64 seed kills span first minGap = Ok l →
  Z.of_nat (length l) = kills ∧
  (∀ i k, l !! i = Some k → first <= ki_At k < span)%Z ∧
  (∀ i k k', l !! i = Some k → l !! S i = Some k' → ki_At k + minGap < ki_At k')%Z.
Proof.
  intros Hgap. unfold Schedule. destruct (kills <? 1)%Z eqn:Hk; [done|]. apply Z.ltb_ge in Hk.
  destruct (span <=? first)%Z eqn:Hs; [done|]. apply Z.leb_gt in Hs.
  set (width := slot_width kills span first). set (steps := Z.quot (width - minGap) Millisecond).
  destruct (steps <? 1)%Z eqn:Hst; [done|]. apply Z.ltb_ge in Hst. intros [= <-].
  assert (steps * Millisecond <= width - minGap)%Z as Hsteps.
  { assert (0 <= width - minGap)%Z.
    { destruct (Z_lt_le_dec (width - minGap) 0) as [Hneg|]; [|done]. exfalso. unfold steps in Hst.
      pose proof (Z.quot_opp_l (- (width - minGap)) Millisecond ltac:(unfold Millisecond; lia)) as Hq.
      rewrite Z.opp_involutive in Hq. pose proof (Z.quot_pos (- (width - minGap)) Millisecond ltac:(lia) ltac:(unfold Millisecond; lia)). lia. }
    unfold steps. pose proof (Z.mul_quot_le (width - minGap) Millisecond ltac:(lia) ltac:(unfold Millisecond; lia)). lia. }
  pose proof (slot_width_fits kills span first ltac:(lia) Hs) as Hfit. fold width in Hfit.
  assert (0 < Millisecond)%Z as Hms by (unfold Millisecond; lia).
  split_and!.
  - rewrite lay_out_length. lia.
  - intros i k Hi. pose proof (lookup_lt_Some _ _ _ Hi) as Hlt. rewrite lay_out_length in Hlt.
    destruct (lay_out_lookup first width steps (Z.to_nat kills) ltac:(lia) _ _ _ _ Hi) as (j & Hj & ->). simpl.
    assert (j * Millisecond < width - minGap)%Z by nia.
    assert ((Z.of_nat i + 1) * width <= kills * width)%Z by nia. nia.
  - intros i k k' Hi Hi'. destruct (lay_out_lookup first width steps (Z.to_nat kills) ltac:(lia) _ _ _ _ Hi) as (j & Hj & ->).
    destruct (lay_out_lookup first width steps (Z.to_nat kills) ltac:(lia) _ _ _ _ Hi') as (j' & Hj' & ->). simpl.
    assert (j * Millisecond < width - minGap)%Z by nia. nia.
Qed.
End spacing.

(** A generator, and the schedule it gives. *)
Definition sample_Int64N (n rng : Z) : Z * Z := (rng mod n, (rng * 6364136223846793005 + 1) mod 2 ^ 64)%Z.
Definition sample_Uint64 (rng : Z) : Z * Z := (rng, (rng * 6364136223846793005 + 1) mod 2 ^ 64)%Z.
Example sample_schedule :
  match Schedule id sample_Int64N sample_Uint64 20261002 3 (100 * Second) (10 * Second) (5 * Second) with
  | Ok l => Forall2 (λ lo k, (lo * Second <= ki_At k < (lo + 30) * Second)%Z) [10; 40; 70]%Z l
  | Err _ => False
  end.
Proof. vm_compute. repeat constructor; discriminate. Qed.

(** [DueBy] counts the slots at or before an instant. *)
Lemma DueBy_spec p t i : (0 < pa_interval p)%Z → (At p i <= t)%Z ↔ (Z.of_nat i < DueBy p t)%Z.
Proof.
  intros Hp. unfold At, DueBy. destruct (t <? pa_start p)%Z eqn:Ht; [apply Z.ltb_lt in Ht; nia|]. apply Z.ltb_ge in Ht.
  pose proof (Z.quot_rem' (t - pa_start p) (pa_interval p)).
  pose proof (Z.rem_bound_pos (t - pa_start p) (pa_interval p) ltac:(lia) Hp). nia.
Qed.

(** The recorded lateness bounds that of every slot that fired. *)
Lemma pace_lateness p awake count : ∀ i stats, let out := pace p awake i count stats in
  (ps_MaxLate stats <= ps_MaxLate out.2)%Z ∧
  ∀ j now, (j, now) ∈ out.1 → (now - At p j <= ps_MaxLate out.2)%Z.
Proof.
  induction count as [|count IH]; intros i stats; simpl; [split; [lia|by intros j now ?%elem_of_nil]|].
  destruct (awake i) as [now|]; [|simpl; split; [lia|by intros j now ?%elem_of_nil]].
  set (stats' := mkPaceStats _ _). specialize (IH (S i) stats'). destruct (pace p awake (S i) count stats') as [fired out].
  simpl in *. destruct IH as [Hmono Hall]. split; [lia|]. intros j now' [[= -> ->]|Hin]%elem_of_cons; [lia|by apply Hall].
Qed.

(** A run that may be recorded was built, whole, from the commit it names. *)
Lemma RequireBuiltFrom_spec binaries want read : RequireBuiltFrom binaries want read = None ↔
  Forall (λ name, ∃ settings, read name = Some settings ∧ setting settings "vcs.revision" = want ∧ want ≠ "" ∧
                    setting settings "vcs.modified" ≠ "true") binaries.
Proof.
  induction binaries as [|name l IH]; simpl; [split; [constructor|done]|]. rewrite Forall_cons, <-IH.
  destruct (read name) as [settings|]; [|split; [done|by intros [(? & ? & _) _]]].
  repeat case_bool_decide; simpl; split; try done; naive_solver.
Qed.

(** ** The record and the probe *)

(** Nothing is recorded but a run that may be: a record is written only by a full run with every fixed
    definition, from a clean tree and binaries built from its commit, on a quiet host, not interrupted,
    whose two parts were measured and are valid; and the exit code is zero only when both files were. *)
Theorem records_are_of_full_runs parsed w : let '(code, files) := bench_run parsed w in
  files ≠ [] → ∃ o sha, parsed = Some o ∧ validateRecordable o = [] ∧ su_head w = Some sha ∧
    RequireCleanTree (su_status w) = None ∧ RequireBuiltFrom RequiredBinaries (TrimSpace sha) (su_build w) = None ∧
    RequireQuietHost (su_processes w) = None ∧ su_interrupted w = false ∧
    tr_Valid (su_throughput w).1 = true ∧ (su_throughput w).2 = false ∧
    fr_Valid (su_faults w).1 = true ∧ (su_faults w).2 = false ∧
    (code = exitPassed → files = [Markdown; Summary_json]).
Proof.
  unfold bench_run. destruct parsed as [o|]; [|by intros []].
  destruct (op_record o) eqn:Hrec; cbn [andb].
  2: { repeat case_match; simplify_eq; try done; unfold report in *; repeat case_match; simplify_eq; done. }
  destruct (validateRecordable o) eqn:Hv; [|by intros []]. cbn [negb].
  assert (sort_Strings (op_modes o) = [modeFaults; modeThroughput]) as Hm.
  { unfold validateRecordable in Hv. apply app_eq_nil in Hv as [_ [Hv _]%app_eq_nil]. unfold problem_if in Hv.
    destruct (bool_decide (sort_Strings _ = _)) eqn:Hb; [by apply bool_decide_eq_true in Hb|done]. }
  assert (op_modes o = [modeFaults; modeThroughput] ∨ op_modes o = [modeThroughput; modeFaults]) as Hmodes.
  { apply Permutation_length_2_inv. rewrite <-Hm. unfold sort_Strings. apply merge_sort_Permutation. }
  assert (bool_decide (head (op_modes o) = Some modeProbe) = false ∧ bool_decide (head (op_modes o) = Some modeSmoke) = false ∧
    ∀ m, m ∈ [modeThroughput; modeFaults] → existsb (λ x, bool_decide (x = m)) (op_modes o) = true) as (-> & -> & Hasked).
  { destruct Hmodes as [-> | ->]; split_and!; try reflexivity; intros m; rewrite !elem_of_cons, elem_of_nil;
      intros [-> | [-> | []]]; reflexivity. }
  rewrite !Hasked by set_solver. unfold checkProvenance. destruct (su_head w) as [sha|]; [|by intros []]. cbn [pv_cleanErr pv_binariesErr].
  destruct (RequireCleanTree _) eqn:Hclean; [by intros []|]. destruct (RequireBuiltFrom _ _ _) eqn:Hbuilt; [by intros []|]. cbn [is_Some_b orb].
  destruct (RequireQuietHost _) eqn:Hquiet; [by intros []|]. destruct (su_interrupted w) eqn:Hint; [destruct (su_throughput w) as [? []], (su_faults w) as [? []]; by intros []|].
  destruct (su_throughput w) as [th []]; simpl.
  { unfold report. destruct (options_timings o); cbn; by intros Hne; destruct Hne. }
  destruct (su_faults w) as [f []]; simpl.
  { unfold report. destruct (options_timings o); cbn; by intros Hne; destruct Hne. }
  unfold report. destruct (options_timings o); [|by intros []]. simpl.
  destruct (tr_Valid th) eqn:Hth; [|cbn; by intros Hne; destruct Hne]. destruct (fr_Valid f) eqn:Hf; [|cbn; by intros Hne; destruct Hne]. simpl.
  destruct (su_markdown w); [|by intros []]. destruct (su_json w); simpl; intros _; exists o, sha; by split_and!.
Qed.

(** The precedence a reconciler decided by is the one its rows show. *)
Lemma outcome_precedence d kill x o : precedent d → outcome_of d kill x o → job_attempts d !! x.1 = Some x.2 →
  (precedenceIdentity o).1 = true → (precedenceIdentity o).2 = true.
Proof.
  intros Hp (lid & l & j & Hl & Hla & _ & ->) Ha. destruct x as [aid a]. simpl in *.
  pose proof (Hp aid a lid l Ha Hl Hla) as Hpr. unfold precedenceIdentity, precedence, past_deadline in *. simpl.
  destruct (a_status a), (l_released_at l) as [r|], (a_timeout_at a) as [t|]; simpl in *; try done.
  all: rewrite <-!Z.leb_antisym; destruct (t <=? r)%Z, (t <=? l_expires_at l)%Z; simpl in *; done.
Qed.

Lemma KillOutcomes_precedence qs d scope session kill o : queues_ok qs → reachable qs d →
  o ∈ KillOutcomes d scope session kill → (precedenceIdentity o).1 = true → (precedenceIdentity o).2 = true.
Proof.
  intros Hq Hr Ho. pose proof (KillOutcomes_rows d (reachable_Inv qs d Hq Hr) scope session kill) as Hrows.
  apply list_elem_of_lookup in Ho as (i & Hi). destruct (Forall2_lookup_r _ _ _ _ _ Hrows Hi) as (x & Hx & Hxo).
  apply (outcome_precedence d kill x); [by eapply reachable_precedent|done|].
  apply list_elem_of_lookup_2 in Hx. destruct x. by apply map_select_elem in Hx as [? _].
Qed.

Lemma one_outcome_identity kill s o : ((precedenceIdentity o).1 = true → (precedenceIdentity o).2 = true) →
  os_identityHeld s = os_identityChecked s → os_identityHeld (one_outcome kill s o) = os_identityChecked (one_outcome kill s o).
Proof.
  unfold one_outcome. destruct (precedenceIdentity o) as [applies holds]. simpl. intros Hh Hs.
  destruct applies; simpl; [|done]. rewrite (Hh eq_refl). by rewrite Hs.
Qed.

(** C38: the recovery probe never reports a broken rule.  In a summary of trials whose outcomes were read from
    reachable databases, the rule of precedence holds of every attempt it was checked on: an attempt of a
    killed session ended TIMED_OUT exactly when its lease was released at or after the deadline and had not
    lapsed before it, and ABANDONED otherwise; whichever sweep came first, and whatever the clocks. *)
Theorem probe_rule_holds qs trials :
  queues_ok qs →
  Forall (λ tr, ∃ d scope session, reachable qs d ∧ tl_outcomes tr = KillOutcomes d scope session (tl_killedAt tr)) trials →
  os_identityHeld (summarizeOutcomes trials) = os_identityChecked (summarizeOutcomes trials).
Proof.
  intros Hq. unfold summarizeOutcomes. assert (os_identityHeld no_outcomes = os_identityChecked no_outcomes) as Hs by done.
  revert Hs. generalize no_outcomes. induction trials as [|tr trials IH]; intros s Hs Hall; simpl; [done|].
  apply Forall_cons in Hall as [(d & scope & session & Hr & Ho) Hall]. apply IH; [|done].
  unfold one_trial. destruct (tl_outcomeErr tr); [done|].
  match goal with |- os_identityHeld (fold_left _ _ ?s0) = _ => assert (os_identityHeld s0 = os_identityChecked s0) as Hs0 by done;
    generalize dependent s0 end.
  assert (∀ o, o ∈ tl_outcomes tr → (precedenceIdentity o).1 = true → (precedenceIdentity o).2 = true) as Hid
    by (intros o; rewrite Ho; by apply (KillOutcomes_precedence qs)).
  clear Ho. induction (tl_outcomes tr) as [|o l IHl]; intros s0 Hs0; simpl; [done|].
  apply IHl; [intros o' Ho'; apply Hid; by right|]. apply one_outcome_identity; [apply Hid; by left|done].
Qed.

(** The kill of [killed], as a trial. *)
Definition sample_trial : trialResult :=
  mkTrialResult false kill_time "worker-a" 1 (KillOutcomes (at_end killed) "t1" 7 kill_time) [] false.
Lemma probe_rule_holds_witness :
  os_identityHeld (summarizeOutcomes [sample_trial]) = os_identityChecked (summarizeOutcomes [sample_trial]) ∧
  os_identityChecked (summarizeOutcomes [sample_trial]) = 1 ∧ noAbandoned sample_trial = "".
Proof.
  split; [|vm_compute; split; reflexivity].
  apply (probe_rule_holds sc_queues).
  - apply sc_queues_ok.
  - repeat constructor. exists (at_end killed), "t1", 7%N. split; [apply at_end_reachable|reflexivity].
Defined.
End Bench.
